(* ===== verification/_CoqProject ===== *)
-Q . S2P
Prelude.v
Bytes.v
Strings.v
WalFmt.v
Instances.v
WalSegments.v
WalReader.v
WalWriter.v
WalReplay.v
ObjectApi.v
MemStore.v
Node.v
SnapCodec.v
Fencing.v
WalShip.v
Keys.v
Capture.v
Shipping.v
WalFollow.v
Replay.v
MetaSync.v
Promotion.v
Restore.v
Standing.v
Retry.v
Election.v
Lease.v
Authz.v
BTree.v
Policy.v
Cron.v
CronFacts.v
Affected.v
Flight.v
Pool.v
UpgradeStatus.v
KubeVersion.v
Cloud.v
Transition.v
ControlPlane.v
AddonsPhase.v
NodegroupsPhase.v
Karpenter.v
PlanningPhase.v
PreflightPhase.v
Reconcile.v
UpgradeInvariant.v
KarpenterSafety.v
UpgradeRun.v
UpgradeProgress.v
UpgradeLiveness.v
F64.v
Autoscaler.v
VolumePolicy.v
RecStore.v
VolumeStatus.v
Resizer.v
ResizerSafety.v
ResizerRun.v
ResizerTrace.v
DemoVolumes.v
Claims.v
ClaimPolicy.v
ClaimReconcile.v
ClaimSafety.v
ClaimHistory.v
VolumeScan.v
ScanFacts.v
Adaptive.v
RepoConfig.v
Gates.v
GateFacts.v
Serving.v
ServingFacts.v
UpstreamFacts.v
Coordinates.v
CoordinateFacts.v
DemoRegistry.v
Cvss.v
Advisories.v
