(* ===== verification/Prelude.v ===== *)
(** * Verification of the add-ons' control logic

    This development models and verifies the stateful core of three programs
    of the repository, all Rust: forklift, an artifact repository whose metadata
    is a SQLite database kept highly available over an object store
    (src/box/addons/forklift/src), the Kubernetes upgrade operator, which
    drives EKS clusters from one version to another
    (src/box/addons/kubernetes-upgrade-operator/src), and the volume
    autoscaler, which grows the volumes of instances and claims and looks for
    unused ones (src/box/addons/volume-autoscaler/src).  Paths below are
    relative to those three directories.

    ** How the model is written

    Definitions keep the names and the structure of the source and are
    executable, so the examples and witnesses evaluate them.  Integers are [Z]
    with the width of the source written out where it wraps ([Bytes], the
    [wrapping] functions of [Prelude]); strings are byte strings ([Strings]);
    fallible code returns [result].  Code outside the repository is a
    parameter: the digest and the compression codec, the semantic version
    order, calendars and time zones, the object store, the Lease API, AWS and
    the Kubernetes API.  What the source relies on is stated as laws of a
    class ([CodecLaws], [ObjectApiLaws], [SqliteLaws], [SemverLaws],
    [CalendarLaws], [LeaseApi], [VolumeApiLaws]), and each has a concrete
    instance on which the witnesses run ([Instances], [MemStore],
    [DemoVolumes], or beside the class).  [VolumeApiLaws] asks for more than AWS
    documents, and only the theorems on the cooldown of volumes use it.
    Where documents or comments of the repository and its code disagree, the
    theorems stay on the ground both share, or name the difference, and
    examples show what the code does beyond it.  Effects are explicit: the file and
    bucket monad of [Node], the tasks of [Election] that an await may cancel,
    the step relations of [Flight], [Pool] and [Standing], the computations of
    [Cloud], which log the calls that change a cluster, the monad of [Resizer]
    over the services' state and a trace, and the computations of
    [ClaimReconcile] and [VolumeScan] over a record of answers.

    ** forklift: files and what they show

    - objstore/walfmt.rs: [WalFmt] (definitions), [WalSegments] (the segment
      format round-trips on what the decoder accepts, and what decodes is
      canonical), [WalReader] and
      [WalWriter] (the reader of committed frames against the SQLite format),
      [WalReplay] (applying a segment refines replaying its frames on pages).
    - objstore.rs, objstore/condprobe.rs, objstore/metasync.rs (ObjectApi):
      [ObjectApi], [MemStore]; [Node] is one process: files, bucket, pool,
      clock; [Retry] the start-up retry.
    - objstore/snapcodec.rs: [SnapCodec].
    - objstore/metasync/walship.rs: [WalShip] and [Keys] (leader side),
      [Capture] (shipped and unread frames together are the database, or a
      loss is reported), [Shipping] (the bucket holds a gap-free prefix of the
      segments, the queue is bounded); [WalFollow] and [Replay] (the copy of a
      standby only holds whole transactions; the offline rebuild gives the
      same database).
    - objstore/metasync.rs: [Fencing] (the stored fence does not decrease, but
      for one race that ETags do not tell),
      [MetaSync] (roles, snapshots, promotion, demotion), [Promotion] (an
      operation that fails leaves the role), [Restore] (what a new leader
      opens), [Standing] (the invariant of a process over any sequence of
      operations, failing anywhere; what it keeps of the copy of a standby
      until a download fails after it replaced the file).
    - cluster.rs: [Election] and [Lease]: one term of a contender; every write
      of the Lease keeps the protocol, and the transition counter is a fencing
      token.  The counter is the fence that [Fencing] writes: this is how the
      election protects the bucket.
    - auth/authz.rs, auth/policy.rs (and the validators of api.rs,
      api/auth.rs): [Authz] (the glob matcher against its textbook meaning,
      token scopes only narrow), [BTree] and [Policy] (the policy text against
      what [Authz] then allows).
    - coverage/cron.rs: [Cron], [CronFacts].  vuln/affected.rs: [Affected],
      the sweep against the OSV algorithm.  repo/flight.rs: [Flight], shared
      fetches.  meta.rs: [Pool], the connection pool.
    - coverage/adaptive.rs, coverage/gitlab.rs (the sending loop): [Adaptive],
      the limiter of a crawl: its permits, its debt, its pause.
    - repoconfig.rs, repo/agepolicy.rs: [RepoConfig], the settings of a
      repository that the request path obeys (the accepted policy orders, the
      path pattern matcher, the secrets of an upstream, ages).
    - repo/policypipeline.rs, vulngate.rs, licensegate.rs, approvalgate.rs,
      negcache.rs, meta/approval.rs: [Gates], the gates before and after the
      age policy, and [GateFacts] (what the pipeline decides, in terms of
      the tables and in those of the documents, what a request does to the
      approvals, how often it reports).
    - vuln/cvss.rs: [Cvss], the CVSS 3 base score, equal to the exact one for
      every string.  vuln/osv.rs, repo/vulnscan.rs (a scan): [Advisories], what a
      scan makes of the advisories of a coordinate and what the vulnerability
      gate then decides.
    - repo.rs, meta/artifact.rs: [Serving], a read of an artifact from the
      cache or from upstream, with its revalidation, rate limits, redirects and
      eviction.  [ServingFacts] (nothing that was refused is delivered, what
      the age policy looked at is what is delivered), [UpstreamFacts]
      (credentials, rate limits, stale copies), [DemoRegistry].
    - repo/maven.rs, gomod.rs, npm.rs, cargo.rs, pypi.rs, vulnscan.rs,
      licensescan.rs, router.rs: [Coordinates] (which package and version a path
      is), [CoordinateFacts] (canonical paths, of npm in lower case, are read
      back; what is denied is not delivered from them); their examples are in [DemoRegistry].

    ** The upgrade operator: files and what they show

    - crd/*.rs, status.rs: [UpgradeStatus], with what the API server stores
      when a status is sent as a JSON merge patch (fields the serializer skips
      keep their stored value).  error.rs, eks/version.rs, k8s/node.rs:
      [KubeVersion] (the paths of versions are the right ones).
    - k8s/*.rs: [Cloud].  A [World] is what one reconcile sees of AWS and the
      clusters; every theorem quantifies over the worlds of all reconciles.
      eks/addon.rs, eks/nodegroup.rs: the end of [Cloud].  The comparison of
      add-on versions is no order on versions that do not parse; what
      [sort_by] then does, a panic included, is part of the world.
    - phases/transition.rs: [Transition]; phases/planning.rs, eks/upgrade.rs:
      [PlanningPhase]; phases/preflight.rs, phases/preflight/checks.rs,
      eks/insights.rs: [PreflightPhase]; phases/control_plane.rs:
      [ControlPlane]; phases/addons.rs: [AddonsPhase]; phases/nodegroups.rs:
      [NodegroupsPhase]; phases/karpenter.rs: [Karpenter].
    - controller.rs: [Reconcile]: reset after a change of the specification,
      dispatch on the phase, patches that are stored, lost, or stored without
      an answer.
    - [UpgradeInvariant]: the invariant of the stored status, kept by every
      handler.  [UpgradeRun]: runs of reconciles do not panic where the
      add-on versions are ordered, change the components in the order of the mode, ask the control plane for the
      versions of the path in turn; the guard against a second rollback and
      what a dry run does to it; the Karpenter phase is never polled.
      [UpgradeProgress]: [Completed] means that everything planned is done.
      [UpgradeLiveness]: a run in which the services answer is completed, in
      a number of reconciles linear in the plan.  [KarpenterSafety]: what a
      step of a pool may delete, and when a node counts as replaced.
      The cluster of the examples is at the end of [Reconcile].

    ** The volume autoscaler: files and what they show

    - The numbers of both autoscalers: [F64] (binary64 as the standard library
      computes with it), [Autoscaler] (autoscaler.rs, k8s.rs, humanize.rs: step
      rules, cooldowns, which are read back as they are written, quantities,
      conditions, times).
    - Instances: [VolumePolicy] (autoscaler/instance_volume/policy.rs, crd.rs:
      the plan gives an instance to the one autoscaler that targets it, or
      refuses it); [RecStore] (throughput.rs, throughput/decide.rs, recstore.rs,
      resizer/piggyback.rs: throughput recommendations, and which of them is
      folded into a size change); [VolumeStatus] (resizer/status.rs, api.rs:
      statuses, merge patches, the validator).
    - [Resizer] (resizer.rs, resizer/cordon.rs, awsx/ec2.rs, k8s/cordon.rs): a
      pass.  [ResizerSafety] (the modifications of a volume are a cooldown
      apart), [ResizerRun] (at most four a day over any passes and
      configurations; no panic), [ResizerTrace] (every request and cordon is
      entitled by what the pass measured before), [DemoVolumes].
    - Claims (autoscaler/persistent_volume_claim): [Claims] (crd.rs, api.rs,
      cache.rs: objects, targets, blocked classes), [ClaimPolicy] (policy.rs,
      status.rs: the decision on a claim, the status), [ClaimReconcile]
      (metrics.rs, promql.rs: queries; reconciler.rs: a reconcile).
      [ClaimSafety] (every resize is entitled; the watch caches keep all that
      a reconcile reads), [ClaimHistory] (resizes of a claim stay a cooldown
      apart through the statuses that merge patches store; examples).
    - pvscan.rs, pvscan/*.rs, annotations.rs: [VolumeScan], and [ScanFacts]
      (nothing consumed is found unused; what is reported has been found unused
      by every pass of the minimum age).

    ** Bounds and fuel

    Recursion that is not structural runs on fuel and returns an option, and a
    theorem shows that the fuel is enough: the glob matcher (its measure is
    below [glob_fuel], see [match_glob_spec]), the bits of a cron field (136
    steps cover the 64 bits with the wrapped step), a day of minutes (4320,
    three days, for time zones that lengthen a day) and the 1465 dates of the
    search ([next_is_first]), the reading loop of a capture (3 rounds, since a
    restart happens at most once), the retry loop ([retry_transient_ends]), the
    wait for a modification ([wait_rounds], the timeout over the poll interval
    and two), the batches of queries (as many as nodes), the path pattern
    matcher (the length of what it reads, and one) and the redirects of a fetch
    (the first request and ten more).  The rounds of an eviction are the 64 of
    the source.
    The loops of a leadership term depend on the clock and the API and have
    fuel that a caller chooses; their theorems hold for every fuel, and the
    runs of reconciles are lists of any length.

    ** Not modelled

    SQL other than the statements [Gates] and [Serving] write out over their
    tables, HTTP handlers and protocol adapters (uploads, OCI, MCP, web
    interface, the rendering of package indexes), file and S3 transfer of blobs,
    the read-back of a row after it was written, metrics, events, log lines
    and notifications, and the
    timer loops that only call the operations: the step relations allow any
    sequence of them.  Of the repository engine, the decoding of JSON settings,
    the IP access list, Unicode lower case, the glob, URL and HTTP date crates
    (parameters), the queues and requests of the scanners ([Advisories] has what
    a scan makes of an answer), and the
    interleaving of two requests inside one read ([Flight] has the shared
    fetches).  Of the upgrade operator, the classification of AWS
    errors from their text, the token and certificate code that builds a
    Kubernetes client, reads of a stale cache (a reconcile sees the status last
    stored), and edits of the specification in the middle of a run (the
    theorems follow one specification; an edit after a run starts a new one).
    Of the volume autoscaler, reads of a claim autoscaler from a stale watch
    cache, the texts of alerts and most Events, log lines,
    HTTP and watch streams, leader election and configuration; the tasks of a
    pass run one after another, [{:?}] keeps characters beyond ASCII, and the
    API server's own truncation of times is left out.
    The other add-ons and command line tools of the repository are mostly
    clients of AWS and Kubernetes services; they are not part of this
    development. *)

From stdpp Require Import prelude list strings pretty gmap sorting.
From Stdlib Require Import ZArith Lia.

#[global] Open Scope Z_scope.

(** ** Fallible computations

    Rust's [Result<T, E>], with the error type first so that the
    [?]-operator becomes a bind that keeps the error type fixed. *)

Inductive result (E A : Type) : Type :=
| Ok (a : A)
| Err (e : E).
Arguments Ok {E A} a.
Arguments Err {E A} e.

Declare Scope result_scope.
Delimit Scope result_scope with res.

Notation "'let?' x := c 'in' k" :=
  (match c with Ok x => k | Err e => Err e end)
  (at level 10, x pattern, c at level 100, k at level 200,
   format "'[v' 'let?'  x  :=  c  'in' '/' k ']'") : result_scope.

#[global] Open Scope result_scope.

(** [Result::map_err]. *)
Definition map_err {E F A} (f : E -> F) (r : result E A) : result F A :=
  match r with Ok a => Ok a | Err e => Err (f e) end.

Definition is_ok {E A} (r : result E A) : bool :=
  match r with Ok _ => true | Err _ => false end.

(** [Option::is_some]. *)
Definition is_some {A} (o : option A) : bool :=
  match o with Some _ => true | None => false end.

(** ** Lengths and slices in [Z]

    Sizes and offsets of files are [u64] or [usize] values of the source,
    kept in [Z] here; lists are indexed by [nat]. *)

Definition zlen {A} (l : list A) : Z := Z.of_nat (length l).

(** [&l[off .. off + n]]. *)
Definition slice {A} (l : list A) (off n : Z) : list A :=
  take (Z.to_nat n) (drop (Z.to_nat off) l).

(** The successive full buffers of [n] elements a sequential reader fills
    with [read_exact]: the trailing partial buffer is never produced. *)
Fixpoint chunks_fuel {A} (fuel n : nat) (l : list A) : list (list A) :=
  match fuel with
  | O => []
  | S fuel =>
      if Nat.leb n (length l)
      then take n l :: chunks_fuel fuel n (drop n l)
      else []
  end.

Definition chunks {A} (n : nat) (l : list A) : list (list A) :=
  chunks_fuel (length l) n l.

(** ** Machine integers *)

Definition u32_max : Z := 2 ^ 32 - 1.
Definition u64_max : Z := 2 ^ 64 - 1.

(** [u32::wrapping_add]. *)
Definition u32_wrapping_add (a b : Z) : Z := (a + b) mod 2 ^ 32.

(** [u64::saturating_add]. *)
Definition u64_saturating_add (a b : Z) : Z := Z.min (a + b) u64_max.

Definition is_u32 (z : Z) : Prop := 0 <= z < 2 ^ 32.
Definition is_u64 (z : Z) : Prop := 0 <= z < 2 ^ 64.

(** [is_power_of_two] on unsigned integers. *)
Definition is_power_of_two (z : Z) : bool :=
  (0 <? z) && (Z.land z (z - 1) =? 0).

(** ** Automation *)

Create HintDb forklift.
Create Rewrite HintDb forklift.

#[export] Hint Unfold zlen : forklift.

(** Turns boolean tests in the context and the goal into propositions. *)
Ltac bool_to_prop :=
  repeat match goal with
  | H : (_ <? _) = true |- _ => apply Z.ltb_lt in H
  | H : (_ <? _) = false |- _ => apply Z.ltb_ge in H
  | H : (_ <=? _) = true |- _ => apply Z.leb_le in H
  | H : (_ <=? _) = false |- _ => apply Z.leb_gt in H
  | H : (_ =? _) = true |- _ => apply Z.eqb_eq in H
  | H : (_ =? _) = false |- _ => apply Z.eqb_neq in H
  | H : _ && _ = true |- _ => apply andb_true_iff in H as [? ?]
  | H : _ || _ = false |- _ => apply orb_false_iff in H as [? ?]
  | H : negb _ = true |- _ => apply negb_true_iff in H
  | H : negb _ = false |- _ => apply negb_false_iff in H
  end.

(** Destructs the innermost [if] or [match] scrutinee of a hypothesis that
    equates a fallible computation with a known outcome. *)
Ltac case_in H :=
  let E := fresh "E" in
  match type of H with
  | context [match ?x with _ => _ end] =>
      lazymatch x with
      | context [match _ with _ => _ end] => fail
      | _ => destruct x eqn:E
      end
  end; simplify_eq/=.

(** ** Generic lemmas on lists *)

Section Lists.
Context {A : Type}.
Implicit Types l k : list A.

Lemma zlen_nil : zlen (@nil A) = 0.
Proof. done. Qed.

Lemma zlen_cons x l : zlen (x :: l) = 1 + zlen l.
Proof. unfold zlen; simpl; lia. Qed.

Lemma zlen_app l k : zlen (l ++ k) = zlen l + zlen k.
Proof. unfold zlen; rewrite length_app; lia. Qed.

Lemma zlen_nonneg l : 0 <= zlen l.
Proof. unfold zlen; lia. Qed.

Lemma zlen_slice l off n :
  0 <= off -> 0 <= n -> off + n <= zlen l -> zlen (slice l off n) = n.
Proof.
  intros. unfold slice, zlen in *. rewrite length_take, length_drop. lia.
Qed.

Lemma length_slice l off n :
  0 <= off -> 0 <= n -> off + n <= zlen l -> length (slice l off n) = Z.to_nat n.
Proof.
  intros. unfold slice, zlen in *. rewrite length_take, length_drop. lia.
Qed.

Lemma slice_app_l l k off n :
  0 <= off -> 0 <= n -> off + n <= zlen l -> slice (l ++ k) off n = slice l off n.
Proof.
  intros. unfold slice, zlen in *.
  rewrite drop_app_le by lia. rewrite take_app_le; [done|].
  rewrite length_drop; lia.
Qed.

Lemma slice_app_r l k off n :
  zlen l <= off -> slice (l ++ k) off n = slice k (off - zlen l) n.
Proof.
  intros. unfold slice, zlen in *.
  rewrite drop_app_ge by lia. do 2 f_equal. lia.
Qed.

Lemma slice_all l n : zlen l <= n -> slice l 0 n = l.
Proof.
  intros. unfold slice, zlen in *. rewrite Z2Nat.inj_0, drop_0.
  apply take_ge. lia.
Qed.

Lemma slice_0_app l k n : n = zlen l -> slice (l ++ k) 0 n = l.
Proof.
  intros ->. unfold slice, zlen. rewrite Z2Nat.inj_0, drop_0, Nat2Z.id.
  by rewrite take_app_length.
Qed.

Lemma slice_split l off n m :
  0 <= off -> 0 <= n -> 0 <= m ->
  slice l off (n + m) = slice l off n ++ slice l (off + n) m.
Proof.
  intros. unfold slice. rewrite !Z2Nat.inj_add by lia.
  rewrite <- drop_drop. rewrite <- (take_take_drop _ (Z.to_nat n)). done.
Qed.

Lemma drop_slice l off n :
  0 <= off -> 0 <= n ->
  drop (Z.to_nat off) l = slice l off n ++ drop (Z.to_nat (off + n)) l.
Proof.
  intros. unfold slice. rewrite Z2Nat.inj_add by lia. rewrite <- drop_drop.
  by rewrite take_drop.
Qed.

Lemma slice_slice l n off m :
  0 <= off -> 0 <= m -> off + m <= n -> slice (slice l 0 n) off m = slice l off m.
Proof.
  intros. unfold slice. rewrite Z2Nat.inj_0, drop_0.
  rewrite skipn_firstn_comm, take_take. f_equal. lia.
Qed.

(** The fuel of [chunks] is immaterial once it covers the list. *)
Lemma chunks_fuel_enough n (fuel1 fuel2 : nat) l :
  (0 < n)%nat -> (length l <= fuel1)%nat -> (length l <= fuel2)%nat ->
  chunks_fuel fuel1 n l = chunks_fuel fuel2 n l.
Proof.
  intros Hn. revert fuel2 l.
  induction fuel1 as [|f1 IH]; intros [|f2] l H1 H2; simpl; try done.
  - destruct l; simpl in *; [|lia]. destruct n; [lia|done].
  - destruct l; simpl in *; [|lia]. destruct n; [lia|done].
  - destruct (Nat.leb n (length l)) eqn:E; [|done].
    apply Nat.leb_le in E. f_equal. apply IH; rewrite length_drop; lia.
Qed.

Lemma chunks_short n l : (length l < n)%nat -> chunks n l = [].
Proof.
  intros H. unfold chunks. destruct (length l) eqn:E; [done|]. simpl.
  rewrite E. destruct (Nat.leb_spec n (S n0)); [lia|done].
Qed.

Lemma chunks_long n l :
  (0 < n)%nat -> (n <= length l)%nat -> chunks n l = take n l :: chunks n (drop n l).
Proof.
  intros Hn H. unfold chunks at 1.
  destruct (length l) eqn:E; [lia|]. simpl. rewrite E.
  destruct (Nat.leb_spec n (S n0)); [|lia]. f_equal.
  apply chunks_fuel_enough; [done| |]; rewrite length_drop; lia.
Qed.

(** A list of [n]-element rows is recovered from its concatenation, whatever
    incomplete row follows. *)
Lemma chunks_concat n (rows : list (list A)) rest :
  (0 < n)%nat -> Forall (fun r => length r = n) rows ->
  chunks n (concat rows ++ rest) = rows ++ chunks n rest.
Proof.
  intros Hn HF. induction HF as [|r rows Hr HF IH]; simpl; [done|].
  rewrite <- app_assoc. rewrite chunks_long; [|done|].
  2:{ rewrite length_app. lia. }
  rewrite take_app_length', drop_app_length' by done. by rewrite IH.
Qed.

Lemma chunks_length_each n l : Forall (fun r => length r = n) (chunks n l).
Proof.
  unfold chunks. generalize (length l) as fuel; intros fuel. revert l.
  induction fuel as [|fuel IH]; intros l; simpl; [constructor|].
  destruct (Nat.leb_spec n (length l)); constructor; auto.
  rewrite length_take. lia.
Qed.

Lemma chunks_total n l : (0 < n)%nat -> (length (chunks n l) * n <= length l)%nat.
Proof.
  intros Hn. induction l as [l IH] using (induction_ltof1 _ length). unfold ltof in IH.
  destruct (Nat.le_gt_cases n (length l)) as [H|H].
  - rewrite chunks_long by done. simpl.
    specialize (IH (drop n l)). rewrite length_drop in IH.
    specialize (IH ltac:(lia)). lia.
  - rewrite chunks_short by done. cbn. lia.
Qed.

(** Skipping whole rows of the input skips as many chunks. *)
Lemma chunks_drop n i l : (0 < n)%nat -> chunks n (drop (i * n) l) = drop i (chunks n l).
Proof.
  intros Hn. revert l. induction i as [|i IH]; intros l; [by rewrite !drop_0|].
  destruct (Nat.le_gt_cases n (length l)) as [H|H].
  - rewrite (chunks_long n l) by done. cbn [drop]. rewrite <- IH, drop_drop. done.
  - rewrite (chunks_short n l), drop_nil by done. apply chunks_short.
    rewrite length_drop. lia.
Qed.

(** Appending keeps the chunks already complete. *)
Lemma chunks_app n l k : (0 < n)%nat -> chunks n l `prefix_of` chunks n (l ++ k).
Proof.
  intros Hn. induction l as [l IH] using (induction_ltof1 _ length). unfold ltof in IH.
  destruct (Nat.le_gt_cases n (length l)) as [H|H].
  - rewrite (chunks_long n l), (chunks_long n (l ++ k)) by (rewrite ?length_app; lia).
    rewrite take_app_le, drop_app_le by done. apply prefix_cons, IH.
    rewrite length_drop. lia.
  - rewrite chunks_short by done. apply prefix_nil.
Qed.
End Lists.

#[export] Hint Rewrite @zlen_app @zlen_cons @zlen_nil : forklift.
#[export] Hint Resolve zlen_nonneg : forklift.

(** Rewrites lengths of concatenations and calls [lia]. *)
Ltac zlen_lia :=
  repeat rewrite ?zlen_app, ?zlen_cons, ?zlen_nil in *; unfold zlen in *; lia.

(** ** Filters and ranges *)

(** An element is known by its key, where the keys are distinct. *)
Lemma nodup_key_inj {A B} (f : A -> B) l x y : NoDup (f <$> l) -> x ∈ l -> y ∈ l -> f x = f y -> x = y.
Proof.
  induction l as [|a l IH]; [by intros _ ?%not_elem_of_nil|].
  rewrite fmap_cons, NoDup_cons. intros [Ha Hn] [->|Hx]%elem_of_cons [->|Hy]%elem_of_cons E; [done| | |by apply IH].
  - destruct Ha. rewrite E. by apply list_elem_of_fmap_2.
  - destruct Ha. rewrite <- E. by apply list_elem_of_fmap_2.
Qed.

Lemma existsb_In {A} (f : A -> bool) l : existsb f l = true <-> exists x, x ∈ l /\ f x = true.
Proof. setoid_rewrite list_elem_of_In. apply existsb_exists. Qed.

Lemma filter_all {A} (R : A -> Prop) `{!forall x, Decision (R x)} (l : list A) :
  (forall x, x ∈ l -> R x) -> filter R l = l.
Proof.
  induction l as [|x l IH]; intros HF; [done|].
  rewrite filter_cons_True by (apply HF, elem_of_cons; auto). f_equal.
  apply IH. intros y Hy. apply HF, elem_of_cons. auto.
Qed.

Lemma filter_none {A} (R : A -> Prop) `{!forall x, Decision (R x)} (l : list A) :
  (forall x, x ∈ l -> ~ R x) -> filter R l = [].
Proof.
  induction l as [|x l IH]; intros HF; [done|].
  rewrite filter_cons_False by (apply HF, elem_of_cons; auto).
  apply IH. intros y Hy. apply HF, elem_of_cons. auto.
Qed.

Lemma seqZ_sorted x l : StronglySorted Z.lt (seqZ x l).
Proof.
  destruct (decide (0 <= l)) as [Hl|Hl]; [|rewrite seqZ_nil by lia; constructor].
  rewrite <- (Z2Nat.id l) by lia. generalize (Z.to_nat l). intros n. clear.
  revert x. induction n as [|n IH]; intros x; [constructor|].
  rewrite seqZ_cons by lia. constructor.
  - by replace (Z.pred (Z.of_nat (S n))) with (Z.of_nat n) by lia.
  - apply Forall_forall. intros y Hy%elem_of_seqZ. lia.
Qed.
