(* ===== verification/Bytes.v ===== *)
(** * Bytes and fixed-width integers

    The byte-order conversions of [core::num] that the WAL and segment
    formats use: [u16/u32/u64::from_be_bytes], [to_be_bytes] and
    [from_le_bytes].  They are the little-endian combinators of coqutil read
    in the byte order the source names. *)

From stdpp Require Import prelude list.
From Stdlib Require Import ZArith Lia.
From coqutil Require Import Byte Word.LittleEndianList.
From S2P Require Import Prelude.

Abbreviation byte := Init.Byte.byte.

Definition from_le_bytes (b : list byte) : Z := le_combine b.
Definition from_be_bytes (b : list byte) : Z := le_combine (rev b).
Definition to_be_bytes (n : nat) (z : Z) : list byte := rev (le_split n z).

(** [be32(b, at)]: the big-endian word at an offset. The source indexes the
    slice, so [at_ + 4] is at most the length at every call. *)
Definition be32 (b : list byte) (at_ : Z) : Z := from_be_bytes (slice b at_ 4).

#[global] Instance byte_eq_dec : EqDecision byte := Byte.byte_eq_dec.

Lemma length_to_be_bytes n z : length (to_be_bytes n z) = n.
Proof. unfold to_be_bytes. by rewrite length_rev, length_le_split. Qed.

Lemma zlen_to_be_bytes n z : zlen (to_be_bytes n z) = Z.of_nat n.
Proof. unfold zlen. by rewrite length_to_be_bytes. Qed.

(** Encoding then decoding keeps the value modulo the width. *)
Lemma from_to_be_bytes n z :
  from_be_bytes (to_be_bytes n z) = z mod 2 ^ (Z.of_nat n * 8).
Proof.
  unfold from_be_bytes, to_be_bytes. rewrite rev_involutive.
  apply le_combine_split.
Qed.

Lemma from_to_be_bytes_id n z :
  0 <= z < 2 ^ (Z.of_nat n * 8) -> from_be_bytes (to_be_bytes n z) = z.
Proof. intros. rewrite from_to_be_bytes. by apply Z.mod_small. Qed.

(** Decoding then encoding keeps the bytes. *)
Lemma to_from_be_bytes n b : length b = n -> to_be_bytes n (from_be_bytes b) = b.
Proof.
  intros <-. unfold from_be_bytes, to_be_bytes.
  rewrite <- (length_rev b), split_le_combine. apply rev_involutive.
Qed.

Lemma from_be_bytes_bound b :
  0 <= from_be_bytes b < 2 ^ (8 * zlen b).
Proof.
  unfold from_be_bytes, zlen. rewrite <- (length_rev b).
  apply le_combine_bound.
Qed.

Lemma from_le_bytes_bound b : 0 <= from_le_bytes b < 2 ^ (8 * zlen b).
Proof. apply le_combine_bound. Qed.

Lemma be32_u32 b at_ : is_u32 (be32 b at_).
Proof.
  unfold be32, is_u32.
  pose proof (from_be_bytes_bound (slice b at_ 4)) as [H1 H2].
  split; [done|]. eapply Z.lt_le_trans; [done|].
  apply Z.pow_le_mono_r; [lia|].
  unfold zlen, slice. rewrite length_take. lia.
Qed.

#[export] Hint Resolve be32_u32 : forklift.

Lemma be32_app_l b k at_ :
  0 <= at_ -> at_ + 4 <= zlen b -> be32 (b ++ k) at_ = be32 b at_.
Proof. intros. unfold be32. rewrite slice_app_l; lia. Qed.

Lemma be32_app_r b k at_ :
  zlen b <= at_ -> be32 (b ++ k) at_ = be32 k (at_ - zlen b).
Proof. intros. unfold be32. by rewrite slice_app_r. Qed.

(** A word written at the front of a buffer is read back. *)
Lemma be32_to_be_bytes z k : is_u32 z -> be32 (to_be_bytes 4 z ++ k) 0 = z.
Proof.
  intros H. unfold be32. rewrite slice_0_app by (by rewrite zlen_to_be_bytes).
  by apply from_to_be_bytes_id.
Qed.
