(* ===== verification/Strings.v ===== *)
(** * Strings of the standard library

    The [str] operations the modelled code calls, on byte strings.  Rust
    strings are UTF-8; the operations modelled here look for ASCII characters
    only, so working on bytes is the same as working on characters; [trim]
    looks for the encodings of the white-space characters. *)

From stdpp Require Import prelude list strings pretty.
From Stdlib Require Import ZArith Lia Ascii.
From S2P Require Import Prelude.

(** ** Definitions *)

Definition is_ascii_digit (c : ascii) : bool :=
  (48 <=? Z.of_N (N_of_ascii c)) && (Z.of_N (N_of_ascii c) <=? 57).

Definition is_ascii_upper (c : ascii) : bool :=
  (65 <=? Z.of_N (N_of_ascii c)) && (Z.of_N (N_of_ascii c) <=? 90).

Definition is_ascii_lower (c : ascii) : bool :=
  (97 <=? Z.of_N (N_of_ascii c)) && (Z.of_N (N_of_ascii c) <=? 122).

Definition is_ascii_alphanumeric (c : ascii) : bool :=
  is_ascii_digit c || is_ascii_upper c || is_ascii_lower c.

Definition is_ascii_whitespace (c : ascii) : bool :=
  let v := Z.of_N (N_of_ascii c) in ((9 <=? v) && (v <=? 13)) || (v =? 32).

Definition to_ascii_lowercase (c : ascii) : ascii :=
  if is_ascii_upper c then ascii_of_N (N_of_ascii c + 32) else c.

Fixpoint str_all (f : ascii -> bool) (s : string) : bool :=
  match s with
  | EmptyString => true
  | String c s => f c && str_all f s
  end.

Fixpoint str_map (f : ascii -> ascii) (s : string) : string :=
  match s with
  | EmptyString => EmptyString
  | String c s => String (f c) (str_map f s)
  end.

Definition eq_ignore_ascii_case (a b : string) : bool :=
  String.eqb (str_map to_ascii_lowercase a) (str_map to_ascii_lowercase b).

Definition str_is_empty (s : string) : bool :=
  match s with EmptyString => true | _ => false end.

(** [str::strip_prefix]. *)
Fixpoint strip_prefix (p s : string) : option string :=
  match p, s with
  | EmptyString, _ => Some s
  | String a p, String b s => if Ascii.eqb a b then strip_prefix p s else None
  | _, EmptyString => None
  end.

(** [str::strip_suffix]. *)
Definition strip_suffix (x s : string) : option string :=
  let n := (String.length s - String.length x)%nat in
  if Nat.leb (String.length x) (String.length s)
     && String.eqb (String.substring n (String.length x) s) x
  then Some (String.substring 0 n s) else None.

Definition starts_with (p s : string) : bool := is_some (strip_prefix p s).

(** [str::split] on one character: never empty. *)
Fixpoint split_on (c : ascii) (s : string) : list string :=
  match s with
  | EmptyString => [EmptyString]
  | String a s =>
      if Ascii.eqb a c then EmptyString :: split_on c s
      else match split_on c s with
           | w :: ws => String a w :: ws
           | [] => [String a EmptyString]
           end
  end.

(** [str::split_once]. *)
Fixpoint split_once (c : ascii) (s : string) : option (string * string) :=
  match s with
  | EmptyString => None
  | String a s =>
      if Ascii.eqb a c then Some (EmptyString, s)
      else match split_once c s with
           | Some (l, r) => Some (String a l, r)
           | None => None
           end
  end.

(** [str::rsplit_once]. *)
Fixpoint rsplit_once (c : ascii) (s : string) : option (string * string) :=
  match s with
  | EmptyString => None
  | String a s =>
      match rsplit_once c s with
      | Some (l, r) => Some (String a l, r)
      | None => if Ascii.eqb a c then Some (EmptyString, s) else None
      end
  end.

(** [str::split_once] and [find] on a string that is not empty. *)
Fixpoint split_once_str (pat s : string) : option (string * string) :=
  match strip_prefix pat s with
  | Some rest => Some (EmptyString, rest)
  | None =>
      match s with
      | EmptyString => None
      | String c s =>
          match split_once_str pat s with
          | Some (before, rest) => Some (String c before, rest)
          | None => None
          end
      end
  end.

(** [str::trim_start_matches] and [str::trim_end_matches] on one character
    predicate. *)
Fixpoint trim_start (f : ascii -> bool) (s : string) : string :=
  match s with
  | EmptyString => EmptyString
  | String c s' => if f c then trim_start f s' else s
  end.

Fixpoint trim_end (f : ascii -> bool) (s : string) : string :=
  match s with
  | EmptyString => EmptyString
  | String c s =>
      match trim_end f s with
      | EmptyString => if f c then EmptyString else String c EmptyString
      | s => String c s
      end
  end.

(** The first answer of [f] on the list. *)
Fixpoint find_map {A B} (f : A -> option B) (l : list A) : option B :=
  match l with
  | [] => None
  | x :: l => match f x with Some y => Some y | None => find_map f l end
  end.

(** A string of the bytes given by number. *)
Definition bytes_string (l : list N) : string :=
  String.string_of_list_ascii (map ascii_of_N l).

(** The UTF-8 encodings of the characters with the property White_Space. *)
Definition whitespace_chars : list string :=
  map bytes_string
    ([[9]; [10]; [11]; [12]; [13]; [32]; [194; 133]; [194; 160]; [225; 154; 128];
      [226; 128; 168]; [226; 128; 169]; [226; 128; 175]; [226; 129; 159]; [227; 128; 128]]
     ++ map (fun i => [226; 128; 128 + i]) [0; 1; 2; 3; 4; 5; 6; 7; 8; 9; 10])%N.

(** The rest after one white-space character. *)
Definition strip_whitespace (s : string) : option string :=
  find_map (fun c => strip_prefix c s) whitespace_chars.

Fixpoint skip_whitespace (fuel : nat) (s : string) : string :=
  match fuel with
  | O => s
  | S fuel => match strip_whitespace s with Some s => skip_whitespace fuel s | None => s end
  end.

(** [str::trim_start]: each step removes at least one byte. *)
Definition str_trim_start (s : string) : string := skip_whitespace (String.length s) s.

(** [str::trim_end]: the shortest prefix with only white space after it. *)
Fixpoint str_trim_end (s : string) : string :=
  match s with
  | EmptyString => EmptyString
  | String c s' => if str_is_empty (str_trim_start s) then EmptyString else String c (str_trim_end s')
  end.

Definition trim (s : string) : string := str_trim_end (str_trim_start s).

(** [slice::join]. *)
Fixpoint str_join (sep : string) (ws : list string) : string :=
  match ws with
  | [] => EmptyString
  | [w] => w
  | w :: ws => w +:+ sep +:+ str_join sep ws
  end.

(** ** Decimal numbers *)

Definition digit_value (c : ascii) : Z := Z.of_N (N_of_ascii c) - 48.

(** Accumulates decimal digits; fails on any other character. *)
Fixpoint parse_digits (acc : Z) (s : string) : option Z :=
  match s with
  | EmptyString => Some acc
  | String c s =>
      if is_ascii_digit c then parse_digits (acc * 10 + digit_value c) s else None
  end.

(** [str::parse::<u64>]: an optional [+], at least one digit, no overflow. *)
Definition parse_u64 (s : string) : option Z :=
  let body := match s with
              | String c rest => if Ascii.eqb c "+"%char then rest else s
              | _ => s
              end in
  if str_is_empty body then None else
  match parse_digits 0 body with
  | Some z => if z <=? u64_max then Some z else None
  | None => None
  end.

Definition i64_max : Z := 2 ^ 63 - 1.
Definition i64_min : Z := - 2 ^ 63.

(** [str::parse::<i64>]. *)
Definition parse_i64 (s : string) : option Z :=
  let '(neg, body) :=
    match s with
    | String c rest =>
        if Ascii.eqb c "-"%char then (true, rest)
        else if Ascii.eqb c "+"%char then (false, rest) else (false, s)
    | _ => (false, s)
    end in
  if str_is_empty body then None else
  match parse_digits 0 body with
  | Some z =>
      let z := if neg then - z else z in
      if (i64_min <=? z) && (z <=? i64_max) then Some z else None
  | None => None
  end.

Fixpoint str_replicate (n : nat) (c : ascii) : string :=
  match n with O => EmptyString | S n => String c (str_replicate n c) end.

(** [{:0w}] of a non-negative number. *)
Definition zero_padded (w : nat) (z : Z) : string :=
  let s := pretty z in str_replicate (w - String.length s) "0"%char +:+ s.

(** ** Escapes *)

(** [{:?}] of a string.  Characters beyond ASCII are kept; Rust escapes those of
    them that are not printable. *)
Definition escape_char (c : ascii) : string :=
  let n := N_of_ascii c in
  let esc := ascii_of_N 92 in
  if (n =? 34)%N || (n =? 92)%N then String esc (String c EmptyString)
  else if (n =? 0)%N then String esc "0"
  else if (n =? 9)%N then String esc "t"
  else if (n =? 10)%N then String esc "n"
  else if (n =? 13)%N then String esc "r"
  else if (n <? 32)%N || (n =? 127)%N then
    let hex d := ascii_of_N (if (d <? 10)%N then 48 + d else 87 + d) in
    String esc ("u{" +:+ (if (n <? 16)%N then EmptyString else String (hex (n / 16)%N) EmptyString) +:+
      String (hex (n mod 16)%N) "}")
  else String c EmptyString.

Fixpoint escape_str (s : string) : string :=
  match s with EmptyString => EmptyString | String c s => escape_char c +:+ escape_str s end.

Definition quote_char : string := String (ascii_of_N 34) EmptyString.
Definition str_debug (s : string) : string := quote_char +:+ escape_str s +:+ quote_char.

(** ** Lemmas *)

#[local] Arguments String.append : simpl nomatch.

Lemma strip_prefix_app p s : strip_prefix p (p +:+ s) = Some s.
Proof. induction p as [|c p IH]; simpl; [done|]. by rewrite Ascii.eqb_refl. Qed.

Lemma strip_prefix_Some p s r : strip_prefix p s = Some r <-> s = p +:+ r.
Proof.
  split; [|intros ->; apply strip_prefix_app]. revert s.
  induction p as [|a p IH]; intros [|b s]; simpl; try done; [by intros [= <-]|by intros [= <-]|].
  destruct (Ascii.eqb_spec a b) as [->|]; [|done]. intros E. by rewrite (IH _ E).
Qed.

Lemma str_app_assoc a b c : (a +:+ b) +:+ c = a +:+ b +:+ c.
Proof. induction a; simpl; congruence. Qed.

Lemma str_length_app a b : String.length (a +:+ b) = (String.length a + String.length b)%nat.
Proof. induction a; simpl; congruence. Qed.

Lemma str_all_app f a b : str_all f (a +:+ b) = str_all f a && str_all f b.
Proof. induction a; simpl; [done|]. by rewrite IHa, andb_assoc. Qed.

Lemma substring_app_r a b :
  String.substring (String.length a) (String.length b) (a +:+ b) = b.
Proof. induction a as [|c a IH]; simpl; [|done]. induction b; simpl; congruence. Qed.

Lemma substring_app_l a b : String.substring 0 (String.length a) (a +:+ b) = a.
Proof. induction a as [|c a IH]; simpl; [by destruct b|]. by rewrite IH. Qed.

Lemma strip_suffix_app x s : strip_suffix x (s +:+ x) = Some s.
Proof.
  unfold strip_suffix. rewrite str_length_app.
  replace (String.length s + String.length x - String.length x)%nat
    with (String.length s) by lia.
  rewrite substring_app_r, String.eqb_refl, substring_app_l.
  destruct (Nat.leb_spec (String.length x) (String.length s + String.length x)); [done|lia].
Qed.

(** ** Printing and parsing *)

Lemma pretty_N_char_digit x :
  (x < 10)%N ->
  is_ascii_digit (pretty_N_char x) = true /\ digit_value (pretty_N_char x) = Z.of_N x.
Proof.
  intros Hx.
  assert (x = 0 \/ x = 1 \/ x = 2 \/ x = 3 \/ x = 4 \/ x = 5 \/ x = 6 \/ x = 7 \/ x = 8 \/ x = 9)%N
    as Hc by lia.
  destruct_or! Hc; subst; vm_compute; done.
Qed.

(** The digits the printer puts in front of [s]. *)
Lemma pretty_N_go_spec x s :
  exists d, pretty_N_go x s = d +:+ s /\ str_all is_ascii_digit d = true /\
    (forall acc, parse_digits acc (d +:+ s) =
                 parse_digits (acc * 10 ^ Z.of_nat (String.length d) + Z.of_N x) s) /\
    ((0 < x)%N -> d <> EmptyString) /\
    (forall w, Z.of_N x < 10 ^ Z.of_nat w -> (String.length d <= w)%nat).
Proof.
  revert s. induction (N.lt_wf_0 x) as [x _ IH]; intros s.
  assert (x = 0 \/ 0 < x)%N as [->|Hx] by lia.
  { exists EmptyString. rewrite pretty_N_go_0. split_and!; try done.
    - intros acc. cbn. f_equal. lia.
    - cbn. lia. }
  destruct (pretty_N_char_digit (x `mod` 10)) as [Hd Hv]; [by apply N.mod_lt|].
  set (c := pretty_N_char (x `mod` 10)) in *.
  destruct (IH (x `div` 10)%N ltac:(by apply N.div_lt) (String c s))
    as (d & E & Hall & Hp & _ & Hw).
  exists (d +:+ String c EmptyString). rewrite pretty_N_go_step by done.
  change (pretty_N_char (x mod 10)) with c. rewrite E.
  rewrite str_app_assoc. cbn [String.append]. split_and!.
  - done.
  - by rewrite str_all_app, Hall; cbn; rewrite Hd.
  - intros acc. rewrite Hp. cbn [parse_digits]. rewrite Hd, Hv, str_length_app.
    cbn [String.length]. rewrite Nat2Z.inj_add, Z.pow_add_r by lia. f_equal.
    rewrite N2Z.inj_div, N2Z.inj_mod. change (Z.of_N 10) with 10.
    pose proof (Z.div_mod (Z.of_N x) 10). change (10 ^ Z.of_nat 1) with 10. lia.
  - intros _. by destruct d.
  - intros w Hlt. rewrite str_length_app. cbn [String.length].
    destruct w as [|w]; [cbn in Hlt; lia|].
    specialize (Hw w). rewrite N2Z.inj_div in Hw. change (Z.of_N 10) with 10 in Hw.
    rewrite Nat2Z.inj_succ, Z.pow_succ_r in Hlt by lia.
    assert (Z.of_N x / 10 < 10 ^ Z.of_nat w) by (apply Z.div_lt_upper_bound; lia).
    lia.
Qed.

Lemma pretty_nonneg_spec z :
  0 <= z ->
  pretty z <> EmptyString /\ str_all is_ascii_digit (pretty z) = true /\
  parse_digits 0 (pretty z) = Some z /\
  (forall w, (0 < w)%nat -> z < 10 ^ Z.of_nat w -> (String.length (pretty z) <= w)%nat).
Proof.
  intros Hz. destruct z as [|p|p]; [split_and!; try done; cbn; lia| |lia].
  change (pretty (Z.pos p)) with (pretty (N.pos p)). unfold pretty, pretty_N.
  rewrite decide_False by done.
  destruct (pretty_N_go_spec (N.pos p) "") as (d & E & Hall & Hp & Hne & Hw).
  assert (Hd : d +:+ "" = d) by (clear; induction d as [|c d IH]; cbn; congruence).
  rewrite Hd in *. rewrite E. split_and!; [by apply Hne|done|by rewrite Hp|].
  intros w _ Hlt. by apply Hw.
Qed.

Lemma parse_digits_zeros k s : parse_digits 0 (str_replicate k "0"%char +:+ s) = parse_digits 0 s.
Proof. induction k as [|k IH]; [done|]. cbn [str_replicate String.append parse_digits]. done. Qed.

Lemma str_length_replicate k c : String.length (str_replicate k c) = k.
Proof. induction k; cbn; congruence. Qed.

Lemma str_all_zeros k : str_all is_ascii_digit (str_replicate k "0"%char) = true.
Proof. by induction k. Qed.

(** A padded number has the width asked for and parses to itself. *)
Lemma zero_padded_spec w z :
  (0 < w)%nat -> 0 <= z < 10 ^ Z.of_nat w ->
  String.length (zero_padded w z) = w /\
  str_all is_ascii_digit (zero_padded w z) = true /\
  parse_digits 0 (zero_padded w z) = Some z.
Proof.
  intros Hw [H0 Hz]. destruct (pretty_nonneg_spec z H0) as (_ & Hall & Hp & Hl).
  specialize (Hl w Hw Hz). unfold zero_padded. split_and!.
  - rewrite str_length_app, str_length_replicate. lia.
  - by rewrite str_all_app, str_all_zeros.
  - by rewrite parse_digits_zeros.
Qed.

(** The first character of a digit string is no sign. *)
Lemma digit_not_sign c : is_ascii_digit c = true -> Ascii.eqb c "-" = false /\ Ascii.eqb c "+" = false.
Proof.
  intros Hd. split; apply Ascii.eqb_neq; intros ->; by vm_compute in Hd.
Qed.

Lemma parse_u64_digits s z :
  s <> EmptyString -> str_all is_ascii_digit s = true -> parse_digits 0 s = Some z ->
  parse_u64 s = if z <=? u64_max then Some z else None.
Proof.
  intros Hne Hall Hp. unfold parse_u64. destruct s as [|c s]; [done|].
  cbn [str_all] in Hall. apply andb_true_iff in Hall as [Hc _].
  destruct (digit_not_sign c Hc) as [_ ->]. cbn [str_is_empty]. by rewrite Hp.
Qed.

(** [n.to_string().parse::<i64>()] gives [n] back. *)
Lemma parse_i64_pretty z : i64_min <= z <= i64_max -> parse_i64 (pretty z) = Some z.
Proof.
  intros Hz. assert (Hr : (i64_min <=? z) && (z <=? i64_max) = true)
    by (apply andb_true_iff; rewrite !Z.leb_le; lia).
  destruct (decide (0 <= z)) as [H0|H0].
  - destruct (pretty_nonneg_spec z H0) as (Hne & Hall & Hp & _). unfold parse_i64.
    destruct (pretty z) as [|c s] eqn:E; [done|].
    cbn [str_all] in Hall. apply andb_true_iff in Hall as [Hc _].
    destruct (digit_not_sign c Hc) as [-> ->]. cbn [str_is_empty]. by rewrite Hp, Hr.
  - destruct z as [|p|p]; [lia|lia|].
    destruct (pretty_nonneg_spec (Z.pos p)) as (Hne & _ & Hp & _); [lia|].
    change (pretty (Z.neg p)) with (String "-"%char (pretty (Z.pos p))).
    unfold parse_i64. cbn [Ascii.eqb Bool.eqb andb]. 
    change (Ascii.eqb "-" "-") with true. cbn iota.
    destruct (pretty (Z.pos p)) as [|c s] eqn:E; [done|]. cbn [str_is_empty].
    rewrite Hp. change (- Z.pos p) with (Z.neg p). by rewrite Hr.
Qed.

(** ** Splitting *)

Lemma split_on_none c s : str_all (fun a => negb (Ascii.eqb a c)) s = true -> split_on c s = [s].
Proof.
  induction s as [|a s IH]; simpl; [done|]. intros [Ha%negb_true_iff Hs]%andb_true_iff.
  by rewrite Ha, IH.
Qed.

Lemma split_on_app c w s :
  str_all (fun a => negb (Ascii.eqb a c)) w = true ->
  split_on c (w +:+ String c s) = w :: split_on c s.
Proof.
  induction w as [|a w IH]; simpl; [by rewrite Ascii.eqb_refl|].
  intros [Ha%negb_true_iff Hw]%andb_true_iff. by rewrite Ha, IH.
Qed.

Lemma split_join c l :
  l <> [] -> Forall (fun w => str_all (fun a => negb (Ascii.eqb a c)) w = true) l ->
  split_on c (str_join (String c "") l) = l.
Proof.
  intros Hne H. induction H as [|w l Hw Hl IH]; [done|].
  destruct l as [|w' l]; simpl; [by apply split_on_none|].
  change (String c "" +:+ ?s) with (String c s). rewrite split_on_app by done. f_equal.
  by apply IH.
Qed.

Lemma substring_split n m s :
  (n + m = String.length s)%nat -> String.substring 0 n s +:+ String.substring n m s = s.
Proof.
  revert n m. induction s as [|c s IH]; intros n m H; cbn in H.
  - by destruct n, m.
  - destruct n as [|n]; cbn.
    + destruct m as [|m]; [lia|]. change (EmptyString +:+ ?a) with a. f_equal.
      specialize (IH 0%nat m ltac:(lia)). by destruct s.
    + change (String c ?a +:+ ?b) with (String c (a +:+ b)). f_equal. apply IH. lia.
Qed.

Lemma strip_suffix_Some x s r : strip_suffix x s = Some r -> s = r +:+ x.
Proof.
  unfold strip_suffix. destruct (Nat.leb_spec (String.length x) (String.length s)) as [Hl|]; [|done]. cbn [andb].
  destruct (String.eqb_spec (String.substring (String.length s - String.length x) (String.length x) s) x) as [He|]; [|done].
  intros [= <-]. rewrite <- He at 2. symmetry. apply substring_split. lia.
Qed.
