(* ===== verification/WalFmt.v ===== *)
(** * SQLite WAL frames and forklift WAL segments (objstore/walfmt.rs)

    The executable definitions of [src/objstore/walfmt.rs]: the WAL checksum
    and header, the reader of committed frames, the segment encoder and
    decoder, and the replay of a segment onto a database file.  Files are
    byte lists.  The file system of the source appears through what a call
    observes of it: [read_committed] opens the WAL once and reads it twice,
    so it takes the bytes its first pass and its second pass see, which may
    differ when a writer is active.

    SHA-256 and zstd are not part of the repository: they are the operations
    of the class [Codec], and what the code relies on is [CodecLaws]. *)

From stdpp Require Import prelude list strings pretty.
From Stdlib Require Import ZArith Lia.
From S2P Require Import Prelude Bytes.

(** ** Constants *)

Definition WAL_HEADER_LEN : Z := 32.
Definition FRAME_HEADER_LEN : Z := 24.
Definition WAL_MAGIC_LE : Z := 0x377f0682.
Definition WAL_MAGIC_BE : Z := 0x377f0683.
Definition WAL_VERSION : Z := 3007000.

Definition SEGMENT_MAGIC : list byte := String.list_byte_of_string "FKWALSG1".
Definition SEGMENT_HEADER_LEN : Z := 8 + 4 + 8 + 4.
Definition SEGMENT_FRAME_HEADER_LEN : Z := 8.
Definition SHA_LEN : Z := 32.
Definition SEGMENT_ZSTD_LEVEL : Z := 3.

(** [b"SQLite format 3\0"]. *)
Definition SQLITE_MAGIC : list byte :=
  String.list_byte_of_string "SQLite format 3" ++ [Byte.x00].

(** ** Third-party codecs *)

Class Codec := {
  sha256 : list byte -> list byte;
  zstd_compress : Z -> list byte -> result string (list byte);
  zstd_decode : list byte -> result string (list byte);
}.

Class CodecLaws `{Codec} : Prop := {
  sha256_length : forall b, length (sha256 b) = 32%nat;
  zstd_round_trip : forall level raw packed,
    zstd_compress level raw = Ok packed -> zstd_decode packed = Ok raw;
  zstd_frame_magic : forall level raw packed,
    zstd_compress level raw = Ok packed ->
    take 4 packed = [Byte.x28; Byte.xb5; Byte.x2f; Byte.xfd];
}.

(** ** Data *)

Inductive Error : Type :=
| Io (op source : string)
| Invalid (msg : string).

(** One committed page image; [f_commit] is the database size in pages after
    the commit the frame ends, or 0 inside a transaction. *)
Record Frame := mkFrame {
  f_pgno : Z;
  f_commit : Z;
  f_page : list byte;
}.

(** Where the next unread frame starts, with the state that validates it. *)
Record Cursor := mkCursor {
  c_offset : Z;
  c_salt : Z * Z;
  c_checksum : Z * Z;
  c_big_endian : bool;
  c_page_size : Z;
}.

Inductive WalRead : Type :=
| Frames (frames : list Frame) (cursor : option Cursor) (complete : bool)
    (end_ : option Cursor)
| Reset (why : string).

Record Header := mkHeader {
  h_salt : Z * Z;
  h_checksum : Z * Z;
  h_big_endian : bool;
  h_page_size : Z;
}.

Record Segment := mkSegment {
  s_page_size : Z;
  s_first_frame : Z;
  s_frames : list Frame;
}.

#[global] Instance Frame_eq_dec : EqDecision Frame.
Proof. solve_decision. Defined.

#[global] Instance Cursor_eq_dec : EqDecision Cursor.
Proof. solve_decision. Defined.

#[global] Instance Segment_eq_dec : EqDecision Segment.
Proof. solve_decision. Defined.

(** ** Checksum and header *)

(** One 32-bit word in the byte order the magic number selects. *)
Definition cksum_word (big_endian : bool) (b : list byte) : Z :=
  if big_endian then from_be_bytes b else from_le_bytes b.

(** SQLite's cumulative checksum over pairs of words; a trailing partial pair
    is ignored ([as_chunks::<8>().0]). *)
Fixpoint checksum (data : list byte) (big_endian : bool) (seed : Z * Z) : Z * Z :=
  match data with
  | b0 :: b1 :: b2 :: b3 :: b4 :: b5 :: b6 :: b7 :: rest =>
      let '(s0, s1) := seed in
      let s0 := u32_wrapping_add
                  (u32_wrapping_add s0 (cksum_word big_endian [b0; b1; b2; b3])) s1 in
      let s1 := u32_wrapping_add
                  (u32_wrapping_add s1 (cksum_word big_endian [b4; b5; b6; b7])) s0 in
      checksum rest big_endian (s0, s1)
  | _ => seed
  end.

(** [!(512..=65536).contains(&p) || !p.is_power_of_two()] negated. *)
Definition page_size_ok (p : Z) : bool :=
  (512 <=? p) && (p <=? 65536) && is_power_of_two p.

Definition parse_header (b : list byte) : option Header :=
  let body (big_endian : bool) :=
    if negb (be32 b 4 =? WAL_VERSION) then None else
    let page_size := be32 b 8 in
    if negb (page_size_ok page_size) then None else
    let stored := (be32 b 24, be32 b 28) in
    if negb (bool_decide (checksum (slice b 0 24) big_endian (0, 0) = stored)) then None
    else Some {| h_salt := (be32 b 16, be32 b 20);
                 h_checksum := stored;
                 h_big_endian := big_endian;
                 h_page_size := page_size |} in
  let magic := be32 b 0 in
  if magic =? WAL_MAGIC_LE then body false
  else if magic =? WAL_MAGIC_BE then body true
  else None.

(** Validates the frame in [buf] against the state at [at_]. *)
Definition next_frame (buf : list byte) (at_ : Cursor) : option Cursor :=
  if negb (bool_decide ((be32 buf 8, be32 buf 12) = c_salt at_)) || (be32 buf 0 =? 0)
  then None else
  let sum := checksum (slice buf 0 8) (c_big_endian at_) (c_checksum at_) in
  let sum := checksum (drop (Z.to_nat FRAME_HEADER_LEN) buf) (c_big_endian at_) sum in
  if negb (bool_decide (sum = (be32 buf 16, be32 buf 20))) then None else
  Some {| c_offset := c_offset at_ + zlen buf;
          c_salt := c_salt at_;
          c_checksum := sum;
          c_big_endian := c_big_endian at_;
          c_page_size := c_page_size at_ |}.

(** ** Reading committed frames *)

(** What opening the WAL file gives: the bytes the first pass (length, header
    and scan) and the second pass (frames) observe. *)
Inductive wal_file : Type :=
| WalMissing
| WalOpenError (source : string)
| WalOpened (first second : list byte).

(** The cursor reading starts from, or why the file does not continue the
    one given. *)
Definition start_cursor (header : Header) (cursor : option Cursor) (len : Z)
  : string + Cursor :=
  match cursor with
  | Some c =>
      if negb (bool_decide (c_salt c = h_salt header))
         || negb (c_page_size c =? h_page_size header)
         || negb (Bool.eqb (c_big_endian c) (h_big_endian header))
      then inl "the wal restarted with new salts"
      else if len <? c_offset c
      then inl "the wal file shrank below the cursor"
      else inr c
  | None =>
      inr {| c_offset := WAL_HEADER_LEN;
             c_salt := h_salt header;
             c_checksum := h_checksum header;
             c_big_endian := h_big_endian header;
             c_page_size := h_page_size header |}
  end.

(** The first pass: follows valid frames and remembers the boundary after the
    last commit frame. [bufs] are the successive buffers of the reader. *)
Fixpoint scan_frames (bufs : list (list byte)) (len frame_len : Z) (at_ end_ : Cursor)
  : Cursor :=
  match bufs with
  | buf :: bufs =>
      if c_offset at_ + frame_len <=? len then
        match next_frame buf at_ with
        | None => end_
        | Some next =>
            scan_frames bufs len frame_len next
              (if negb (be32 buf 4 =? 0) then next else end_)
        end
      else end_
  | [] => end_
  end.

(** The second pass: collects frames up to [end_offset] or the limit. An
    exhausted reader is the [read_exact] failure of a file that shrank. *)
Fixpoint read_frames (bufs : list (list byte)) (page_size limit end_offset : Z)
    (frames : list Frame) (at_ : Cursor) : result Error (list Frame * Cursor) :=
  if (c_offset at_ <? end_offset) && (zlen frames * page_size <? limit) then
    match bufs with
    | [] => Err (Io "read wal frame" "failed to fill whole buffer")
    | buf :: bufs =>
        match next_frame buf at_ with
        | None => Err (Invalid "a committed wal frame changed while it was read")
        | Some next =>
            let f := {| f_pgno := be32 buf 0;
                        f_commit := be32 buf 4;
                        f_page := drop (Z.to_nat FRAME_HEADER_LEN) buf |} in
            read_frames bufs page_size limit end_offset (frames ++ [f]) next
        end
    end
  else Ok (frames, at_).

(** The buffers a reader positioned at [offset] fills. *)
Definition bufs_from (file : list byte) (offset frame_len : Z) : list (list byte) :=
  chunks (Z.to_nat frame_len) (drop (Z.to_nat offset) file).

(** Where the scan starts: the boundary of the previous read when it is still
    inside this log, the start otherwise. *)
Definition scan_start (known_end : option Cursor) (start : Cursor) (len : Z) : Cursor :=
  match known_end with
  | Some e =>
      if bool_decide (c_salt e = c_salt start)
         && (c_offset start <=? c_offset e) && (c_offset e <=? len)
      then e else start
  | None => start
  end.

Definition read_committed (wal : wal_file) (cursor : option Cursor) (limit : Z)
    (known_end : option Cursor) : result Error WalRead :=
  let empty := Frames [] None true None in
  match wal with
  | WalMissing =>
      Ok (if is_some cursor then Reset "the wal file was removed" else empty)
  | WalOpenError e => Err (Io "open wal" e)
  | WalOpened first second =>
      let len := zlen first in
      let header :=
        if WAL_HEADER_LEN <=? len then parse_header (slice first 0 WAL_HEADER_LEN)
        else None in
      match header with
      | None => Ok (if is_some cursor then Reset "the wal file was truncated" else empty)
      | Some header =>
          match start_cursor header cursor len with
          | inl why => Ok (Reset why)
          | inr start =>
              let scan_from := scan_start known_end start len in
              let page_size := c_page_size start in
              let frame_len := FRAME_HEADER_LEN + page_size in
              let end_ := scan_frames (bufs_from first (c_offset scan_from) frame_len)
                            len frame_len scan_from scan_from in
              let? (frames, at_) :=
                read_frames (bufs_from second (c_offset start) frame_len)
                  page_size limit (c_offset end_) [] start in
              Ok (Frames frames (Some at_) (c_offset at_ =? c_offset end_) (Some end_))
          end
      end
  end.

(** ** Segments *)

(** [Option::filter] on the last frame's commit size. *)
Definition final_pages (s : Segment) : option Z :=
  match last (s_frames s) with
  | Some f => if negb (f_commit f =? 0) then Some (f_commit f) else None
  | None => None
  end.

Definition ends_on_commit (s : Segment) : bool :=
  match final_pages s with Some _ => true | None => false end.

Section Segments.
Context `{Codec}.

(** The frame records of a segment body, stopping at the first frame whose
    page has the wrong size. *)
Fixpoint encode_frames (page_size : Z) (frames : list Frame) : result Error (list byte) :=
  match frames with
  | [] => Ok []
  | f :: frames =>
      if negb (zlen (f_page f) =? page_size) then
        Err (Invalid ("frame for page " +:+ pretty (f_pgno f) +:+ " is "
                      +:+ pretty (zlen (f_page f)) +:+ " bytes, want "
                      +:+ pretty page_size))
      else
        let? rest := encode_frames page_size frames in
        Ok (to_be_bytes 4 (f_pgno f) ++ to_be_bytes 4 (f_commit f) ++ f_page f ++ rest)
  end.

Definition encode_segment (page_size first_frame : Z) (frames : list Frame)
  : result Error (list byte) :=
  if zlen frames =? 0 then Err (Invalid "segment has no frames") else
  if u32_max <? zlen frames then Err (Invalid "too many frames for one segment") else
  let count := zlen frames in
  let head := SEGMENT_MAGIC ++ to_be_bytes 4 page_size ++ to_be_bytes 8 first_frame
              ++ to_be_bytes 4 count in
  let? body := encode_frames page_size frames in
  let raw := head ++ body in
  let raw := raw ++ sha256 raw in
  map_err (Io "compress segment") (zstd_compress SEGMENT_ZSTD_LEVEL raw).

(** The loop over the frame records, from the record at offset [at_]. *)
Fixpoint decode_frames (count : nat) (body : list byte) (at_ per : Z)
  : result Error (list Frame) :=
  match count with
  | O => Ok []
  | S count =>
      let pgno := be32 body at_ in
      if pgno =? 0 then Err (Invalid "segment frame for page 0") else
      let? rest := decode_frames count body (at_ + per) per in
      Ok ({| f_pgno := pgno;
             f_commit := be32 body (at_ + 4);
             f_page := slice body (at_ + SEGMENT_FRAME_HEADER_LEN)
                         (per - SEGMENT_FRAME_HEADER_LEN) |} :: rest)
  end.

Definition decode_segment (bytes : list byte) : result Error Segment :=
  let? raw := map_err (fun e => Invalid ("decompress segment: " +:+ e)) (zstd_decode bytes) in
  if (zlen raw <? SEGMENT_HEADER_LEN + SHA_LEN)
     || negb (bool_decide (slice raw 0 8 = SEGMENT_MAGIC))
  then Err (Invalid "not a forklift wal segment") else
  let body := slice raw 0 (zlen raw - SHA_LEN) in
  let sum := drop (Z.to_nat (zlen raw - SHA_LEN)) raw in
  if negb (bool_decide (sha256 body = sum))
  then Err (Invalid "segment checksum mismatch") else
  let page_size := be32 body 8 in
  if negb (page_size_ok page_size)
  then Err (Invalid ("segment page size " +:+ pretty page_size)) else
  let first_frame := from_be_bytes (slice body 12 8) in
  let count := be32 body 20 in
  let per := SEGMENT_FRAME_HEADER_LEN + page_size in
  if negb (zlen body =? SEGMENT_HEADER_LEN + count * per)
  then Err (Invalid "segment length does not match its frame count") else
  let? frames := decode_frames (Z.to_nat count) body SEGMENT_HEADER_LEN per in
  if zlen frames =? 0 then Err (Invalid "segment has no frames") else
  Ok {| s_page_size := page_size; s_first_frame := first_frame; s_frames := frames |}.
End Segments.

(** ** Replay onto a database file *)

(** [u16::from_be_bytes([head[16], head[17]])] with SQLite's encoding of
    65536. *)
Definition header_page_size (head : list byte) : Z :=
  let raw := from_be_bytes (slice head 16 2) in
  if raw =? 1 then 65536 else raw.

Definition db_page_size (db : list byte) : result Error (option Z) :=
  if zlen db <? 100 then Ok None else
  let head := slice db 0 100 in
  if negb (bool_decide (slice head 0 16 = SQLITE_MAGIC))
  then Err (Invalid "not a SQLite database")
  else Ok (Some (header_page_size head)).

Definition check_db_file (db : list byte) : result Error unit :=
  let len := zlen db in
  if len <? 100 then
    Err (Invalid ("database is " +:+ pretty len +:+ " bytes, too short for a header")) else
  let head := slice db 0 100 in
  if negb (bool_decide (slice head 0 16 = SQLITE_MAGIC))
  then Err (Invalid "not a SQLite database") else
  let page := header_page_size head in
  if negb (page_size_ok page) || negb (len mod page =? 0) then
    Err (Invalid ("database is " +:+ pretty len +:+ " bytes, not whole "
                  +:+ pretty page +:+ "-byte pages")) else
  let pages := be32 head 28 in
  let change_counter := be32 head 24 in
  let valid_for := be32 head 92 in
  if negb (pages =? 0) && (valid_for =? change_counter) && negb (pages * page =? len) then
    Err (Invalid ("database header records " +:+ pretty pages
                  +:+ " pages, the file holds " +:+ pretty (len / page)))
  else Ok tt.

(** [seek] to [off] and [write_all data]: a gap past the end reads as zero. *)
Definition write_at (file : list byte) (off : Z) (data : list byte) : list byte :=
  let n := Z.to_nat off in
  take n file ++ replicate (n - length file) Byte.x00 ++ data
    ++ drop (n + length data) file.

(** [File::set_len]. *)
Definition set_len (file : list byte) (len : Z) : list byte :=
  let n := Z.to_nat len in
  take n file ++ replicate (n - length file) Byte.x00.

(** The body of the loop over a segment's frames. *)
Definition apply_frame (page : Z) (file : list byte) (f : Frame) : list byte :=
  let file := write_at file ((f_pgno f - 1) * page) (f_page f) in
  if negb (f_commit f =? 0) then set_len file (f_commit f * page) else file.

Definition apply_frames (page : Z) (file : list byte) (frames : list Frame) : list byte :=
  foldl (apply_frame page) file frames.

(** The writes of a segment and the length check after them. *)
Definition write_segment (db : list byte) (segment : Segment)
  : list byte * result Error unit :=
  let page := s_page_size segment in
  let f := apply_frames page db (s_frames segment) in
  (f, match final_pages segment with
      | Some pages =>
          let want := pages * page in
          let got := zlen f in
          if negb (got =? want) then
            Err (Invalid ("database is " +:+ pretty got +:+ " bytes after replay, want "
                          +:+ pretty want))
          else Ok tt
      | None => Ok tt
      end).

(** Returns the file as the call leaves it, with the outcome. *)
Definition apply_segment (db : list byte) (segment : Segment)
  : list byte * result Error unit :=
  match db_page_size db with
  | Err e => (db, Err e)
  | Ok (Some size) =>
      if negb (size =? s_page_size segment) then
        (db, Err (Invalid ("segment page size " +:+ pretty (s_page_size segment)
                           +:+ " does not match the database's " +:+ pretty size)))
      else write_segment db segment
  | Ok None => write_segment db segment
  end.
