(* ===== verification/Instances.v ===== *)
(** * Concrete codecs

    An executable stand-in for the third-party codecs of [WalFmt]: a
    32-byte polynomial digest and an identity compressor that only adds the
    zstd magic number.  It satisfies [CodecLaws], which shows that the laws
    can hold, and lets concrete inputs be evaluated. *)

From stdpp Require Import prelude list strings.
From Stdlib Require Import ZArith Lia.
From S2P Require Import Prelude Bytes WalFmt.

Definition toy_digest (b : list byte) : list byte :=
  to_be_bytes 32
    (foldl (fun acc x => (acc * 257 + from_be_bytes [x] + 1) mod 2 ^ 256) 0 b).

Definition toy_magic : list byte := [Byte.x28; Byte.xb5; Byte.x2f; Byte.xfd].

Definition toy_decode (b : list byte) : result string (list byte) :=
  if bool_decide (take 4 b = toy_magic) then Ok (drop 4 b)
  else Err "Unknown frame descriptor".

#[export] Instance toy_codec : Codec := {|
  sha256 := toy_digest;
  zstd_compress _ raw := Ok (toy_magic ++ raw);
  zstd_decode := toy_decode;
|}.

#[export] Instance toy_codec_laws : CodecLaws.
Proof.
  constructor.
  - intros b. apply length_to_be_bytes.
  - intros level raw packed [= <-]. done.
  - intros level raw packed [= <-]. done.
Qed.

(** A segment of two frames of one 512-byte page each, the second a commit. *)
Definition demo_frame (pgno commit : Z) (fill : byte) : Frame :=
  {| f_pgno := pgno; f_commit := commit; f_page := replicate 512 fill |}.

Definition demo_segment : Segment :=
  {| s_page_size := 512; s_first_frame := 7;
     s_frames := [demo_frame 1 0 Byte.x41; demo_frame 2 2 Byte.x42] |}.
