(* ===== verification/WalSegments.v ===== *)
(** * Segments: encoding and decoding

    [encode_segment] and [decode_segment] are inverse to each other on segments
    of a legal page size whose frames name pages other than 0: what the encoder
    produces of such a segment decodes to it, what it produces of any other the
    decoder rejects, and whatever decodes is, once decompressed, the canonical
    encoding of the segment returned, so no two contents share a segment
    object. *)

From stdpp Require Import prelude list strings pretty.
From Stdlib Require Import ZArith Lia.
From S2P Require Import Prelude Bytes WalFmt Instances.

(** ** Canonical form *)

(** A frame that fits its fields and its page size. *)
Definition frame_ok (page_size : Z) (f : Frame) : Prop :=
  f_pgno f <> 0 /\ is_u32 (f_pgno f) /\ is_u32 (f_commit f) /\
  zlen (f_page f) = page_size.

Definition segment_ok (s : Segment) : Prop :=
  page_size_ok (s_page_size s) = true /\ is_u64 (s_first_frame s) /\
  s_frames s <> [] /\ is_u32 (zlen (s_frames s)) /\
  Forall (frame_ok (s_page_size s)) (s_frames s).

Definition frame_bytes (f : Frame) : list byte :=
  to_be_bytes 4 (f_pgno f) ++ to_be_bytes 4 (f_commit f) ++ f_page f.

Definition segment_head (s : Segment) : list byte :=
  SEGMENT_MAGIC ++ to_be_bytes 4 (s_page_size s) ++ to_be_bytes 8 (s_first_frame s)
    ++ to_be_bytes 4 (zlen (s_frames s)).

Definition segment_body (s : Segment) : list byte :=
  segment_head s ++ concat (map frame_bytes (s_frames s)).

Definition segment_raw `{Codec} (s : Segment) : list byte :=
  segment_body s ++ sha256 (segment_body s).

(** What the types of the fields say. *)
Definition segment_fits (s : Segment) : Prop :=
  is_u32 (s_page_size s) /\ is_u64 (s_first_frame s) /\
  Forall (fun f => is_u32 (f_pgno f) /\ is_u32 (f_commit f)) (s_frames s).

(** ** Lengths *)

Lemma page_size_ok_bounds p : page_size_ok p = true -> 512 <= p <= 65536.
Proof. unfold page_size_ok. intros. bool_to_prop. lia. Qed.

Lemma zlen_segment_head s : zlen (segment_head s) = SEGMENT_HEADER_LEN.
Proof.
  unfold segment_head. rewrite !zlen_app, !zlen_to_be_bytes. reflexivity.
Qed.

Lemma zlen_frame_bytes p f : frame_ok p f -> zlen (frame_bytes f) = 8 + p.
Proof.
  intros (_ & _ & _ & <-). unfold frame_bytes.
  rewrite !zlen_app, !zlen_to_be_bytes. lia.
Qed.

Lemma zlen_frames_bytes p fs :
  Forall (frame_ok p) fs -> zlen (concat (map frame_bytes fs)) = zlen fs * (8 + p).
Proof.
  induction 1 as [|f fs Hf _ IH]; [done|]. cbn [map concat].
  rewrite zlen_app, zlen_cons, IH, (zlen_frame_bytes p) by done. lia.
Qed.

(** ** The encoder *)

Lemma encode_frames_ok p fs :
  Forall (frame_ok p) fs -> encode_frames p fs = Ok (concat (map frame_bytes fs)).
Proof.
  induction 1 as [|f fs (? & ? & ? & Hl) _ IH]; [done|]. cbn [encode_frames map concat].
  rewrite Hl, Z.eqb_refl, IH. unfold frame_bytes. cbn. by rewrite <- !app_assoc.
Qed.

Lemma encode_frames_inv p fs b :
  encode_frames p fs = Ok b ->
  b = concat (map frame_bytes fs) /\ Forall (fun f => zlen (f_page f) = p) fs.
Proof.
  revert b. induction fs as [|f fs IH]; intros b E; cbn [encode_frames] in E; [by injection E as <-|].
  destruct (Z.eqb_spec (zlen (f_page f)) p) as [Hl|]; cbn [negb] in E; [|done].
  destruct (encode_frames p fs) as [b'|]; [|done]. destruct (IH b' eq_refl) as [-> HF].
  injection E as <-. split; [|by constructor]. cbn [map concat]. unfold frame_bytes. by rewrite <- !app_assoc.
Qed.

Lemma encode_segment_canonical `{Codec} s :
  segment_ok s ->
  encode_segment (s_page_size s) (s_first_frame s) (s_frames s) =
  map_err (Io "compress segment") (zstd_compress SEGMENT_ZSTD_LEVEL (segment_raw s)).
Proof.
  intros (_ & _ & Hne & Hc & HF). unfold encode_segment.
  destruct (Z.eqb_spec (zlen (s_frames s)) 0) as [E|_].
  { destruct (s_frames s); [done|]. rewrite zlen_cons in E.
    pose proof (zlen_nonneg l). lia. }
  unfold is_u32, u32_max in *.
  destruct (Z.ltb_spec (2 ^ 32 - 1) (zlen (s_frames s))); [lia|].
  by rewrite encode_frames_ok.
Qed.

(** Whatever is encoded, the bytes compressed are those of the segment. *)
Lemma encode_segment_inv `{Codec} s bytes :
  encode_segment (s_page_size s) (s_first_frame s) (s_frames s) = Ok bytes ->
  zstd_compress SEGMENT_ZSTD_LEVEL (segment_raw s) = Ok bytes /\
  is_u32 (zlen (s_frames s)) /\ Forall (fun f => zlen (f_page f) = s_page_size s) (s_frames s).
Proof.
  unfold encode_segment. destruct (Z.eqb_spec (zlen (s_frames s)) 0); [done|].
  destruct (Z.ltb_spec u32_max (zlen (s_frames s))); [done|].
  destruct (encode_frames _ _) as [b|] eqn:E; [|done]. apply encode_frames_inv in E as [-> HF].
  intros Hc. split; [|split; [|done]].
  - destruct (zstd_compress _ _) eqn:Ez in Hc; [|done]. injection Hc as <-. exact Ez.
  - pose proof (zlen_nonneg (s_frames s)). unfold is_u32, u32_max in *. lia.
Qed.

(** The fields can be read off the bytes. *)
Lemma be_bytes_inj k n m :
  0 <= n < 2 ^ (Z.of_nat k * 8) -> 0 <= m < 2 ^ (Z.of_nat k * 8) ->
  to_be_bytes k n = to_be_bytes k m -> n = m.
Proof.
  intros Hn Hm E. rewrite <- (from_to_be_bytes_id k n), <- (from_to_be_bytes_id k m) by done. by rewrite E.
Qed.

Lemma frames_bytes_inj p fs fs' :
  let fits f := is_u32 (f_pgno f) /\ is_u32 (f_commit f) in
  Forall fits fs -> Forall fits fs' ->
  Forall (fun f => zlen (f_page f) = p) fs -> Forall (fun f => zlen (f_page f) = p) fs' ->
  length fs = length fs' -> concat (map frame_bytes fs) = concat (map frame_bytes fs') -> fs = fs'.
Proof.
  intros fits Hf Hf' Hp Hp'. revert fs' Hf' Hp'.
  induction fs as [|f fs IH]; intros [|f' fs'] Hf' Hp' Hl E; try done.
  apply Forall_cons in Hf as [[H1 H2] Hf], Hf' as [[H1' H2'] Hf'], Hp as [H3 Hp], Hp' as [H3' Hp'].
  cbn [map concat] in E. unfold frame_bytes in E. rewrite <- !app_assoc in E.
  apply app_inj_1 in E as [E1 E]; [|by rewrite !length_to_be_bytes].
  apply app_inj_1 in E as [E2 E]; [|by rewrite !length_to_be_bytes].
  apply app_inj_1 in E as [E3 E]; [|unfold zlen in *; lia].
  f_equal; [|apply IH; auto].
  apply be_bytes_inj in E1, E2; [|unfold is_u32 in *; cbn; lia..]. destruct f, f'; cbn in *. congruence.
Qed.

(** ** The decoder *)

Lemma decode_frames_bytes p pre fs post :
  0 <= p -> Forall (frame_ok p) fs ->
  decode_frames (length fs) (pre ++ concat (map frame_bytes fs) ++ post)
    (zlen pre) (SEGMENT_FRAME_HEADER_LEN + p) = Ok fs.
Proof.
  intros Hp HF. revert pre.
  induction HF as [|f fs Hf HF IH]; intros pre; [done|].
  pose proof (zlen_frame_bytes _ _ Hf) as Hlf.
  destruct Hf as (Hpg & Hu & Hcm & Hpl).
  cbn [length decode_frames map concat].
  replace (pre ++ (frame_bytes f ++ concat (map frame_bytes fs)) ++ post)
    with ((pre ++ frame_bytes f) ++ concat (map frame_bytes fs) ++ post)
    by (by rewrite <- !app_assoc).
  replace (zlen pre + (SEGMENT_FRAME_HEADER_LEN + p)) with (zlen (pre ++ frame_bytes f))
    by (rewrite zlen_app, Hlf; unfold SEGMENT_FRAME_HEADER_LEN; lia).
  rewrite IH. clear IH. set (post' := concat (map frame_bytes fs) ++ post).
  assert (E : (pre ++ frame_bytes f) ++ post' =
              pre ++ to_be_bytes 4 (f_pgno f) ++ to_be_bytes 4 (f_commit f)
                ++ f_page f ++ post').
  { unfold frame_bytes. by rewrite <- !app_assoc. }
  rewrite E. pose proof (zlen_nonneg pre).
  rewrite be32_app_r, Z.sub_diag, be32_to_be_bytes by (done || lia).
  apply Z.eqb_neq in Hpg. rewrite Hpg. f_equal. f_equal.
  rewrite (be32_app_r pre) by lia.
  replace (zlen pre + 4 - zlen pre) with 4 by lia.
  rewrite be32_app_r by (rewrite zlen_to_be_bytes; lia).
  rewrite zlen_to_be_bytes, Z.sub_diag, be32_to_be_bytes by done.
  unfold SEGMENT_FRAME_HEADER_LEN.
  rewrite slice_app_r by lia. replace (zlen pre + 8 - zlen pre) with 8 by lia.
  rewrite app_assoc, slice_app_r by (rewrite zlen_app, !zlen_to_be_bytes; lia).
  rewrite zlen_app, !zlen_to_be_bytes. replace (8 - _) with 0 by lia.
  rewrite slice_0_app by lia. by destruct f.
Qed.

(** Reading the records back from any body: the bytes are the canonical
    encoding of what was read. *)
Lemma decode_frames_inv n body at_ p fs :
  0 <= p -> 0 <= at_ ->
  at_ + Z.of_nat n * (SEGMENT_FRAME_HEADER_LEN + p) = zlen body ->
  decode_frames n body at_ (SEGMENT_FRAME_HEADER_LEN + p) = Ok fs ->
  drop (Z.to_nat at_) body = concat (map frame_bytes fs) /\
  Forall (frame_ok p) fs /\ length fs = n.
Proof.
  intros Hp. unfold SEGMENT_FRAME_HEADER_LEN. revert at_ fs.
  induction n as [|n IH]; intros at_ fs Hat Hlen; cbn [decode_frames].
  { intros [= <-]. split_and!; [|constructor|done].
    apply drop_ge. unfold zlen in Hlen. lia. }
  destruct (Z.eqb_spec (be32 body at_) 0) as [|Hpg]; [done|].
  destruct (decode_frames n body (at_ + (8 + p)) (8 + p)) as [rest|] eqn:E; [|done].
  intros [= <-]. apply IH in E as (Hdrop & HF & Hl); [|lia|nia].
  assert (Hroom : at_ + (8 + p) <= zlen body) by nia.
  split_and!; [| |cbn; lia].
  - cbn [map concat]. rewrite (drop_slice _ _ (8 + p)), Hdrop by lia. f_equal.
    unfold frame_bytes, be32. cbn.
    rewrite !to_from_be_bytes by (rewrite length_slice; lia).
    unfold SEGMENT_FRAME_HEADER_LEN. replace (8 + p - 8) with p by lia.
    replace (8 + p) with (4 + (4 + p)) by lia.
    rewrite (slice_split _ at_ 4 (4 + p)), (slice_split _ (at_ + 4) 4 p) by lia.
    by replace (at_ + 4 + 4) with (at_ + 8) by lia.
  - constructor; [|done]. split_and!; cbn; auto with forklift.
    unfold SEGMENT_FRAME_HEADER_LEN. rewrite zlen_slice; lia.
Qed.

Lemma segment_head_fields s k :
  segment_ok s ->
  let b := segment_head s ++ k in
  slice b 0 8 = SEGMENT_MAGIC /\ be32 b 8 = s_page_size s /\
  from_be_bytes (slice b 12 8) = s_first_frame s /\ be32 b 20 = zlen (s_frames s).
Proof.
  intros (Hps & Hff & _ & Hc & _) b. apply page_size_ok_bounds in Hps.
  unfold b, segment_head. rewrite <- !app_assoc.
  assert (Hm : zlen SEGMENT_MAGIC = 8) by done. split_and!.
  - by rewrite slice_0_app.
  - rewrite be32_app_r, Hm by lia. apply be32_to_be_bytes. unfold is_u32. lia.
  - rewrite !slice_app_r by (rewrite ?Hm, ?zlen_to_be_bytes; lia).
    rewrite Hm, !zlen_to_be_bytes. replace (12 - 8 - _) with 0 by lia.
    rewrite slice_0_app by (rewrite zlen_to_be_bytes; lia).
    by apply from_to_be_bytes_id.
  - rewrite !be32_app_r by (rewrite ?Hm, ?zlen_to_be_bytes; lia).
    rewrite Hm, !zlen_to_be_bytes. replace (20 - 8 - _ - _) with 0 by lia.
    by apply be32_to_be_bytes.
Qed.

Lemma zlen_segment_body s :
  segment_ok s ->
  zlen (segment_body s) =
  SEGMENT_HEADER_LEN + zlen (s_frames s) * (SEGMENT_FRAME_HEADER_LEN + s_page_size s).
Proof.
  intros (_ & _ & _ & _ & HF). unfold segment_body.
  by rewrite zlen_app, zlen_segment_head, (zlen_frames_bytes _ _ HF).
Qed.

(** A body cut at the field boundaries of the segment header. *)
Lemma header_split (b : list byte) :
  24 <= zlen b ->
  b = slice b 0 8 ++ slice b 8 4 ++ slice b 12 8 ++ slice b 20 4
      ++ drop (Z.to_nat SEGMENT_HEADER_LEN) b.
Proof.
  intros. unfold SEGMENT_HEADER_LEN.
  pose proof (drop_slice b 0 8) as E0. pose proof (drop_slice b 8 4) as E1.
  pose proof (drop_slice b 12 8) as E2. pose proof (drop_slice b 20 4) as E3.
  change (0 + 8) with 8 in E0. change (8 + 4) with 12 in E1.
  change (12 + 8) with 20 in E2. change (8 + 4 + 8 + 4) with (20 + 4).
  rewrite <- E3, <- E2, <- E1, <- E0 by lia. done.
Qed.

Section Theorems.
Context `{CodecLaws}.

(** Splitting off the trailing digest. *)
Lemma split_digest (b : list byte) :
  slice (b ++ sha256 b) 0 (zlen (b ++ sha256 b) - SHA_LEN) = b /\
  drop (Z.to_nat (zlen (b ++ sha256 b) - SHA_LEN)) (b ++ sha256 b) = sha256 b.
Proof.
  rewrite zlen_app. unfold zlen at 2 4. rewrite sha256_length.
  replace (zlen b + Z.of_nat 32 - SHA_LEN) with (zlen b) by (unfold SHA_LEN; lia).
  split; [by apply slice_0_app|]. unfold zlen. by rewrite Nat2Z.id, drop_app_length.
Qed.

Lemma decode_segment_raw s bytes :
  segment_ok s -> zstd_decode bytes = Ok (segment_raw s) -> decode_segment bytes = Ok s.
Proof.
  intros Hok E. unfold decode_segment. rewrite E. cbn [map_err].
  pose proof (zlen_segment_body s Hok) as Hlen.
  pose proof Hok as (Hps & _ & Hne & Hc & HF).
  pose proof (page_size_ok_bounds _ Hps) as Hpb.
  pose proof (zlen_nonneg (s_frames s)) as Hnn.
  destruct (split_digest (segment_body s)) as [Hb Hd]. fold (segment_raw s) in Hb, Hd.
  rewrite Hb, Hd.
  destruct (segment_head_fields s (concat (map frame_bytes (s_frames s))) Hok)
    as (_ & Hp & Hf & Hcnt). fold (segment_body s) in Hp, Hf, Hcnt.
  rewrite Hp, Hf, Hcnt, Hps, Hlen, Z.eqb_refl.
  assert (Hm : slice (segment_raw s) 0 8 = SEGMENT_MAGIC).
  { unfold segment_raw, segment_body. rewrite <- app_assoc.
    by apply segment_head_fields. }
  assert (Hl : (zlen (segment_raw s) <? SEGMENT_HEADER_LEN + SHA_LEN) = false).
  { unfold segment_raw. rewrite zlen_app, Hlen. unfold zlen at 2.
    rewrite sha256_length. unfold SEGMENT_HEADER_LEN, SEGMENT_FRAME_HEADER_LEN, SHA_LEN.
    apply Z.ltb_ge. nia. }
  rewrite Hm, Hl, !bool_decide_eq_true_2 by done. cbn [negb orb].
  replace (Z.to_nat (zlen (s_frames s))) with (length (s_frames s)) by (unfold zlen; lia).
  unfold segment_body.
  rewrite <- (app_nil_r (concat _)), <- (zlen_segment_head s).
  rewrite decode_frames_bytes by (done || lia).
  destruct (Z.eqb_spec (zlen (s_frames s)) 0) as [E0|_]; [|by destruct s].
  destruct (s_frames s); [done|]. rewrite zlen_cons in E0. pose proof (zlen_nonneg l). lia.
Qed.

(** What the encoder produced decodes to what it was given. *)
Lemma decode_encoded s bytes :
  segment_ok s ->
  encode_segment (s_page_size s) (s_first_frame s) (s_frames s) = Ok bytes ->
  decode_segment bytes = Ok s.
Proof.
  intros Hok. rewrite encode_segment_canonical by done.
  destruct (zstd_compress _ _) as [packed|] eqn:E; [|done]. intros [= <-].
  apply decode_segment_raw; [done|]. by eapply zstd_round_trip.
Qed.

(** What decodes is canonical and well formed. *)
Lemma decode_segment_inv bytes s :
  decode_segment bytes = Ok s ->
  segment_ok s /\ zstd_decode bytes = Ok (segment_raw s).
Proof.
  unfold decode_segment. intros Hd.
  destruct (zstd_decode bytes) as [raw|] eqn:E; cbn [map_err] in Hd; [|done].
  set (body := slice raw 0 (zlen raw - SHA_LEN)) in *.
  repeat case_in Hd. bool_to_prop.
  repeat match goal with H : bool_decide _ = true |- _ => apply bool_decide_eq_true in H end.
  match goal with H : page_size_ok _ = true |- _ => rename H into Hps end.
  match goal with H : zlen body = _ |- _ => rename H into Hlen end.
  match goal with H : decode_frames _ _ _ _ = _ |- _ => rename H into Hdf end.
  match goal with H : sha256 body = _ |- _ => rename H into Hsha end.
  match goal with H : slice raw 0 8 = _ |- _ => rename H into Hmag end.
  pose proof (page_size_ok_bounds _ Hps) as Hpb.
  pose proof (be32_u32 body 20) as Hc. unfold is_u32 in Hc.
  apply decode_frames_inv in Hdf as (Hdrop & HF & Hl);
    [|lia|done|rewrite Z2Nat.id by lia; lia].
  assert (Hbody : zlen body = zlen raw - SHA_LEN).
  { unfold SEGMENT_HEADER_LEN, SHA_LEN in *. unfold body. rewrite zlen_slice; lia. }
  assert (Hcnt : zlen a = be32 body 20) by (unfold zlen; lia).
  assert (Hmag' : slice body 0 8 = SEGMENT_MAGIC).
  { rewrite <- Hmag. unfold body, slice. rewrite Z2Nat.inj_0, !drop_0, take_take.
    f_equal. unfold SEGMENT_HEADER_LEN, SHA_LEN in *. lia. }
  assert (Hraw : raw = body ++ sha256 body).
  { rewrite Hsha. unfold body, slice. by rewrite Z2Nat.inj_0, drop_0, take_drop. }
  split.
  { split_and!; cbn; auto; [|by destruct a|unfold is_u32; lia].
    pose proof (from_be_bytes_bound (slice body 12 8)) as Hb.
    rewrite zlen_slice in Hb; [done|lia|lia|].
    unfold SEGMENT_HEADER_LEN, SEGMENT_FRAME_HEADER_LEN in *. nia. }
  f_equal. unfold segment_raw, segment_body, segment_head.
  cbn [s_page_size s_first_frame s_frames].
  enough (Eb : body = (SEGMENT_MAGIC ++ to_be_bytes 4 (be32 body 8)
                 ++ to_be_bytes 8 (from_be_bytes (slice body 12 8))
                 ++ to_be_bytes 4 (zlen a)) ++ concat (map frame_bytes a))
    by (rewrite <- Eb; exact Hraw).
  rewrite <- Hdrop, Hcnt, <- Hmag'. unfold be32.
  assert (24 <= zlen body)
    by (unfold SEGMENT_HEADER_LEN, SEGMENT_FRAME_HEADER_LEN in *; nia).
  rewrite !to_from_be_bytes by (rewrite length_slice; lia).
  rewrite <- !app_assoc. by apply header_split.
Qed.

Lemma segment_raw_inj s s' :
  segment_fits s -> is_u32 (zlen (s_frames s)) ->
  Forall (fun f => zlen (f_page f) = s_page_size s) (s_frames s) -> segment_ok s' ->
  segment_raw s = segment_raw s' -> s = s'.
Proof.
  intros (Hp & Hff & Hfr) Hc Hl (Hp' & Hff' & _ & Hc' & HF') E. unfold segment_raw in E.
  apply app_inj_2 in E as [E _]; [|by rewrite !sha256_length].
  unfold segment_body, segment_head in E. rewrite <- !app_assoc in E.
  apply app_inv_head in E. apply page_size_ok_bounds in Hp'.
  apply app_inj_1 in E as [E1 E]; [|by rewrite !length_to_be_bytes].
  apply app_inj_1 in E as [E2 E]; [|by rewrite !length_to_be_bytes].
  apply app_inj_1 in E as [E3 E]; [|by rewrite !length_to_be_bytes].
  apply be_bytes_inj in E1, E2, E3; [|unfold is_u32, is_u64 in *; cbn; lia..].
  assert (Ef : s_frames s = s_frames s').
  { apply (frames_bytes_inj (s_page_size s)); try done.
    - eapply Forall_impl; [exact HF'|]. by intros f (_ & ? & ? & _).
    - rewrite E1. eapply Forall_impl; [exact HF'|]. by intros f (_ & _ & _ & ?).
    - unfold zlen in E3. lia. }
  destruct s, s'; cbn in *. congruence.
Qed.

(** C37: Segment round trip. What the encoder produced decodes to exactly the
    page size, first-frame index and frames it was built from, when the page
    size is legal and no frame names page 0; of anything else the encoder
    accepts, the decoder rejects what it produced. *)
Theorem encode_decode_segment s bytes :
  segment_fits s ->
  encode_segment (s_page_size s) (s_first_frame s) (s_frames s) = Ok bytes ->
  match decode_segment bytes with
  | Ok s' => s' = s /\ segment_ok s
  | Err _ => ~ segment_ok s
  end.
Proof.
  intros Hf (Hz & Hc & Hl)%encode_segment_inv. apply zstd_round_trip in Hz.
  destruct (decode_segment bytes) as [s'|e] eqn:Ed.
  - apply decode_segment_inv in Ed as [Hok Hz']. rewrite Hz in Hz'.
    assert (E : segment_raw s = segment_raw s') by congruence.
    by rewrite (segment_raw_inj s s' Hf Hc Hl Hok E).
  - intros Hok. by rewrite (decode_segment_raw s bytes Hok Hz) in Ed.
Qed.

(** Decoding validates. Bytes that decode at all decompress to the
    canonical encoding of the segment returned, digest included, and that
    segment is well formed: a legal page size, a non-empty list of frames, each
    naming a page other than 0 and carrying exactly one page. So one object
    content never stands for two segments, and re-encoding reproduces it. *)
Theorem decode_segment_canonical bytes s :
  decode_segment bytes = Ok s ->
  segment_ok s /\ zstd_decode bytes = Ok (segment_raw s).
Proof. apply decode_segment_inv. Qed.
End Theorems.

(** ** Concrete instances *)

Lemma demo_segment_ok : segment_ok demo_segment.
Proof.
  split_and!; [by vm_compute|by split|done|by split|].
  repeat constructor; done.
Qed.

Lemma demo_segment_fits : segment_fits demo_segment.
Proof. split_and!; [done|by split|]. repeat constructor; done. Qed.

Lemma encode_decode_segment_witness :
  exists bytes, encode_segment 512 7 (s_frames demo_segment) = Ok bytes /\
                match decode_segment bytes with Ok s => s = demo_segment | Err _ => False end.
Proof.
  destruct (encode_segment 512 7 (s_frames demo_segment)) as [bytes|] eqn:E;
    [|vm_compute in E; discriminate E].
  exists bytes. split; [reflexivity|].
  assert (H := encode_decode_segment demo_segment bytes demo_segment_fits E).
  destruct (decode_segment bytes) as [s|e]; [exact (proj1 H)|exact (H demo_segment_ok)].
Defined.

(** The encoder takes a frame of page 0, the decoder does not. *)
Example page_zero_not_decoded :
  match encode_segment 512 7 [{| f_pgno := 0; f_commit := 1; f_page := repeat Byte.x00 512 |}] with
  | Ok bytes => decode_segment bytes = Err (Invalid "segment frame for page 0")
  | Err _ => False
  end.
Proof. vm_compute. reflexivity. Qed.

Lemma decode_segment_canonical_witness :
  segment_ok demo_segment /\
  zstd_decode (toy_magic ++ segment_raw demo_segment) = Ok (segment_raw demo_segment).
Proof.
  apply (decode_segment_canonical (toy_magic ++ segment_raw demo_segment) demo_segment).
  vm_compute. reflexivity.
Defined.
