(* ===== verification/WalReader.v ===== *)
(** * The reader of committed frames

    [read_committed] against its specification.  The specification of a WAL
    file is its log: the frames that continue the header's salts and
    cumulative checksum one after the other ([wal_log]), cut after the last
    commit frame ([committed_log]).  The reader returns consecutive pieces of
    that log, from any position, with or without the boundary of an earlier
    read, also when the file grew in between. *)

From stdpp Require Import prelude list strings pretty.
From Stdlib Require Import ZArith Lia.
From S2P Require Import Prelude Bytes WalFmt WalSegments.

(** ** Specification *)

(** A frame buffer with the cursor after it. *)
Abbreviation entry := (list byte * Cursor)%type.

(** The frames that continue the log from [at_]. *)
Fixpoint valid_log (bufs : list (list byte)) (at_ : Cursor) : list entry :=
  match bufs with
  | [] => []
  | buf :: bufs =>
      match next_frame buf at_ with
      | None => []
      | Some next => (buf, next) :: valid_log bufs next
      end
  end.

Definition is_commit (e : entry) : bool := negb (be32 e.1 4 =? 0).

(** The longest prefix that ends on a commit. *)
Fixpoint committed (log : list entry) : list entry :=
  match log with
  | [] => []
  | e :: log =>
      match committed log with
      | [] => if is_commit e then [e] else []
      | rest => e :: rest
      end
  end.

Definition entry_frame (e : entry) : Frame :=
  {| f_pgno := be32 e.1 0; f_commit := be32 e.1 4;
     f_page := drop (Z.to_nat FRAME_HEADER_LEN) e.1 |}.

(** The cursor reached after reading [log] from [at_]. *)
Definition after (at_ : Cursor) (log : list entry) : Cursor :=
  match last log with Some e => e.2 | None => at_ end.

Definition wal_header (file : list byte) : option Header :=
  if WAL_HEADER_LEN <=? zlen file then parse_header (slice file 0 WAL_HEADER_LEN) else None.

Definition log_start (h : Header) : Cursor :=
  {| c_offset := WAL_HEADER_LEN; c_salt := h_salt h; c_checksum := h_checksum h;
     c_big_endian := h_big_endian h; c_page_size := h_page_size h |}.

Definition header_frame_len (h : Header) : Z := FRAME_HEADER_LEN + h_page_size h.

Definition wal_log (h : Header) (file : list byte) : list entry :=
  valid_log (bufs_from file WAL_HEADER_LEN (header_frame_len h)) (log_start h).

Definition committed_log (h : Header) (file : list byte) : list entry :=
  committed (wal_log h file).

(** The cursor before the [i]-th frame of the committed log. *)
Definition cursor_at (h : Header) (file : list byte) (i : nat) : Cursor :=
  after (log_start h) (take i (committed_log h file)).

(** A position of the committed log at which a transaction ended. *)
Definition boundary (h : Header) (file : list byte) (j : nat) : Prop :=
  committed (take j (committed_log h file)) = take j (committed_log h file).

(** How many of [n] frames fit before [limit] page bytes are reached. *)
Definition fitting (limit page_size : Z) (n : nat) : nat :=
  Nat.min n (Z.to_nat ((limit + page_size - 1) / page_size)).

(** ** Logs *)

Lemma after_nil at_ : after at_ [] = at_.
Proof. done. Qed.

Lemma after_cons at_ e log : after at_ (e :: log) = after e.2 log.
Proof. unfold after. rewrite last_cons. by destruct (last log). Qed.

Lemma after_app at_ l1 l2 : after at_ (l1 ++ l2) = after (after at_ l1) l2.
Proof.
  revert at_. induction l1 as [|e l1 IH]; intros at_; [done|].
  rewrite <- app_comm_cons, !after_cons. apply IH.
Qed.

(** The part of the cursor a frame does not change. *)
Definition same_log (a b : Cursor) : Prop :=
  c_salt a = c_salt b /\ c_big_endian a = c_big_endian b /\ c_page_size a = c_page_size b.

Lemma next_frame_same buf at_ next :
  next_frame buf at_ = Some next ->
  same_log next at_ /\ c_offset next = c_offset at_ + zlen buf.
Proof.
  unfold next_frame. intros Hn. repeat case_in Hn. by split.
Qed.

Lemma valid_log_app bufs1 bufs2 at_ :
  valid_log bufs1 at_ `prefix_of` valid_log (bufs1 ++ bufs2) at_.
Proof.
  revert at_. induction bufs1 as [|b bufs1 IH]; intros at_; simpl.
  - apply prefix_nil.
  - destruct (next_frame b at_) as [c|]; [|done]. apply prefix_cons, IH.
Qed.

(** Reading on from the middle of a log is reading the rest of it. *)
Lemma valid_log_drop bufs at_ i :
  (i <= length (valid_log bufs at_))%nat ->
  valid_log (drop i bufs) (after at_ (take i (valid_log bufs at_))) =
  drop i (valid_log bufs at_).
Proof.
  revert bufs at_. induction i as [|i IH]; intros bufs at_ Hi; [by rewrite !drop_0|].
  destruct bufs as [|b bufs]; simpl in *; [lia|].
  destruct (next_frame b at_) as [c|] eqn:E; simpl in *; [|lia].
  rewrite after_cons. cbn. apply IH. lia.
Qed.

(** Every frame moves the cursor by its length and keeps its log. *)
Lemma valid_log_after n bufs at_ i :
  Forall (fun b => length b = n) bufs ->
  (i <= length (valid_log bufs at_))%nat ->
  let c := after at_ (take i (valid_log bufs at_)) in
  same_log c at_ /\ c_offset c = c_offset at_ + Z.of_nat i * Z.of_nat n.
Proof.
  intros Hlen. cbn. revert at_ i.
  induction Hlen as [|b bs Hb _ IH]; intros at_ i Hi; simpl in *.
  { replace i with O by lia. rewrite take_0, after_nil. split; [by split_and!|lia]. }
  destruct (next_frame b at_) as [c|] eqn:E; simpl in *.
  2:{ replace i with O by lia. rewrite take_0, after_nil. split; [by split_and!|lia]. }
  destruct i as [|i].
  { rewrite take_0, after_nil. split; [by split_and!|lia]. }
  apply next_frame_same in E as [(S1 & S2 & S3) Ho].
  cbn [take]. rewrite after_cons. cbn [snd].
  destruct (IH c i) as [(T1 & T2 & T3) To]; [lia|]. split.
  - split_and!; congruence.
  - rewrite To, Ho. unfold zlen. lia.
Qed.

(** ** The committed part *)

Lemma committed_cons e log :
  committed (e :: log) =
  match committed log with
  | [] => if is_commit e then [e] else []
  | rest => e :: rest
  end.
Proof. done. Qed.

Lemma committed_app_ne l1 l2 :
  committed l2 <> [] -> committed (l1 ++ l2) = l1 ++ committed l2.
Proof.
  intros Hne. induction l1 as [|e l1 IH]; [done|].
  rewrite <- !app_comm_cons, committed_cons, IH.
  destruct (l1 ++ committed l2) eqn:E; [|done].
  apply app_eq_nil in E as [_ E]. by rewrite E in Hne.
Qed.

Lemma committed_app_nil l1 l2 : committed l2 = [] -> committed (l1 ++ l2) = committed l1.
Proof.
  intros Hn. induction l1 as [|e l1 IH]; [done|].
  by rewrite <- app_comm_cons, !committed_cons, IH.
Qed.

Lemma committed_prefix log : committed log `prefix_of` log.
Proof.
  induction log as [|e log IH]; [done|]. rewrite committed_cons.
  destruct (committed log) eqn:E.
  - destruct (is_commit e); [|apply prefix_nil]. apply prefix_cons, prefix_nil.
  - by apply prefix_cons.
Qed.

Lemma committed_idemp log : committed (committed log) = committed log.
Proof.
  induction log as [|e log IH]; [done|]. rewrite committed_cons.
  destruct (committed log) as [|e' rest] eqn:E.
  - destruct (is_commit e) eqn:Ec; [|done]. cbn. by rewrite Ec.
  - rewrite committed_cons, IH. done.
Qed.

(** Past a commit boundary the committed part is that of the rest. *)
Lemma committed_app_boundary l1 l2 :
  committed l1 = l1 -> committed (l1 ++ l2) = l1 ++ committed l2.
Proof.
  intros Hb. destruct (decide (committed l2 = [])) as [E|E].
  - by rewrite committed_app_nil, Hb, E, app_nil_r.
  - by apply committed_app_ne.
Qed.

(** A committed log extended by further frames keeps its committed part. *)
Lemma committed_prefix_mono l1 l2 :
  l1 `prefix_of` l2 -> committed l1 `prefix_of` committed l2.
Proof.
  intros [k ->]. destruct (decide (committed k = [])) as [E|E].
  - by rewrite committed_app_nil.
  - rewrite committed_app_ne by done. etransitivity; [apply committed_prefix|].
    by apply prefix_app_r.
Qed.

Lemma committed_last_commit log e :
  last (committed log) = Some e -> is_commit e = true.
Proof.
  induction log as [|x log IH]; [done|]. rewrite committed_cons.
  destruct (committed log) as [|y rest] eqn:E.
  - destruct (is_commit x) eqn:Ec; [|done]. intros [= <-]. done.
  - rewrite last_cons. destruct (last (y :: rest)) eqn:El.
    + intros [= <-]. by apply IH.
    + by apply last_None in El.
Qed.

(** ** The two passes *)

(** The first pass finds the end of the committed part of the log. *)
Lemma scan_frames_spec n bufs len at_ end_ :
  Forall (fun b => length b = n) bufs ->
  c_offset at_ + zlen bufs * Z.of_nat n <= len ->
  scan_frames bufs len (Z.of_nat n) at_ end_ =
  after end_ (committed (valid_log bufs at_)).
Proof.
  intros HF. revert at_ end_. induction HF as [|b bs Hb _ IH]; intros at_ end_ Hlen; [done|].
  cbn [scan_frames valid_log]. rewrite zlen_cons in Hlen.
  pose proof (zlen_nonneg bs).
  destruct (Z.leb_spec (c_offset at_ + Z.of_nat n) len); [|nia].
  destruct (next_frame b at_) as [c|] eqn:E; [|done].
  rewrite IH.
  2:{ apply next_frame_same in E as [_ ->]. unfold zlen at 1. rewrite Hb. lia. }
  rewrite committed_cons. change (negb (be32 b 4 =? 0)) with (is_commit (b, c)).
  destruct (committed (valid_log bs c)) as [|e rest].
  - by destruct (is_commit (b, c)).
  - rewrite !after_cons. done.
Qed.

(** The loop condition [frames.len() * page_size < limit], as a count. *)
Lemma quota_spec limit p (a : nat) :
  0 < p ->
  (Z.of_nat a * p <? limit) = Nat.ltb a (Z.to_nat ((limit + p - 1) / p)).
Proof.
  intros Hp. apply eq_iff_eq_true. rewrite Z.ltb_lt, Nat.ltb_lt.
  pose proof (Z.mul_div_le (limit + p - 1) p Hp).
  pose proof (Z.mul_succ_div_gt (limit + p - 1) p Hp).
  split; intros; nia.
Qed.

(** The second pass collects a prefix of the log it is positioned at. *)
Lemma read_frames_spec n bufs p limit at_ log acc :
  Forall (fun b => length b = n) bufs -> (0 < n)%nat -> 0 < p ->
  log `prefix_of` valid_log bufs at_ ->
  let quota := (Z.to_nat ((limit + p - 1) / p) - length acc)%nat in
  let k := Nat.min (length log) quota in
  read_frames bufs p limit (c_offset (after at_ log)) acc at_ =
  Ok (acc ++ map entry_frame (take k log), after at_ (take k log)).
Proof.
  intros HF Hn Hp. revert at_ log acc.
  induction HF as [|b bs Hb HF IH]; intros at_ log acc Hpre.
  { apply prefix_nil_inv in Hpre as ->. cbn. rewrite Z.ltb_irrefl. cbn. by rewrite app_nil_r. }
  destruct log as [|e log].
  { cbn [read_frames]. rewrite after_nil, Z.ltb_irrefl. cbn. by rewrite app_nil_r. }
  cbn [valid_log] in Hpre. destruct (next_frame b at_) as [c|] eqn:E.
  2:{ by apply prefix_nil_inv in Hpre. }
  apply prefix_cons_inv_1 in Hpre as Heq. apply prefix_cons_inv_2 in Hpre. subst e.
  cbn [read_frames]. rewrite after_cons, E. cbn [snd].
  assert (Hoff : c_offset at_ < c_offset (after c log)).
  { destruct Hpre as [k Hk].
    destruct (valid_log_after n bs c (length log) HF) as [_ Ho].
    { rewrite Hk, length_app. lia. }
    rewrite Hk, take_app_length in Ho. rewrite Ho.
    apply next_frame_same in E as [_ ->]. unfold zlen. lia. }
  apply Z.ltb_lt in Hoff. rewrite Hoff. cbn [andb].
  set (q := Z.to_nat ((limit + p - 1) / p)).
  unfold zlen. rewrite quota_spec by done. fold q.
  destruct (Nat.ltb_spec (length acc) q) as [Hq|Hq].
  - rewrite IH by done. cbn. fold q. rewrite length_app. cbn [length].
    replace (q - length acc)%nat with (S (q - (length acc + 1)))%nat by lia.
    cbn [Nat.min take map]. by rewrite <- app_assoc, after_cons.
  - cbn. fold q. replace (q - length acc)%nat with O by lia. cbn. by rewrite app_nil_r.
Qed.

(** ** Files *)

Lemma committed_split log :
  exists rest, log = committed log ++ rest /\ committed rest = [].
Proof.
  induction log as [|e log (rest & E & En)]; [by exists []|].
  destruct (committed log) as [|e' l'] eqn:Ec.
  - destruct (is_commit e) eqn:Ei; cbn; rewrite Ec, Ei.
    + by exists log.
    + exists (e :: log). cbn. by rewrite Ec, Ei.
  - exists rest. split; [|done]. rewrite committed_cons, Ec, <- app_comm_cons. congruence.
Qed.

Lemma committed_drop log i : committed log = log -> committed (drop i log) = drop i log.
Proof.
  revert log. induction i as [|i IH]; intros log Hc; [done|].
  destruct log as [|e log]; [done|]. cbn [drop]. apply IH.
  rewrite committed_cons in Hc. destruct (committed log) eqn:E; [|congruence].
  destruct (is_commit e); [|done]. congruence.
Qed.

(** The committed part from any position of the committed part. *)
Lemma committed_from log i :
  (i <= length (committed log))%nat -> committed (drop i log) = drop i (committed log).
Proof.
  intros Hi. destruct (committed_split log) as (rest & E & En).
  rewrite E at 1. rewrite drop_app_le by done.
  rewrite committed_app_nil by done. apply committed_drop, committed_idemp.
Qed.

Lemma wal_header_page_size f h :
  wal_header f = Some h -> page_size_ok (h_page_size h) = true /\ WAL_HEADER_LEN <= zlen f.
Proof.
  unfold wal_header, parse_header. intros Hh. repeat case_in Hh; bool_to_prop; auto.
Qed.

Section File.
Context (f : list byte) (h : Header).
Hypothesis Hh : wal_header f = Some h.

Let n : nat := Z.to_nat (header_frame_len h).
Let bufs : list (list byte) := bufs_from f WAL_HEADER_LEN (header_frame_len h).

Lemma frame_len_pos : (0 < n)%nat /\ Z.of_nat n = header_frame_len h.
Proof.
  apply wal_header_page_size in Hh as [Hp _]. apply page_size_ok_bounds in Hp.
  unfold n, header_frame_len, FRAME_HEADER_LEN. lia.
Qed.

Lemma bufs_length : Forall (fun b => length b = n) bufs.
Proof. apply chunks_length_each. Qed.

Lemma committed_log_length : (length (committed_log h f) <= length (wal_log h f))%nat.
Proof. apply prefix_length, committed_prefix. Qed.

Lemma valid_log_length bs at_ : (length (valid_log bs at_) <= length bs)%nat.
Proof.
  revert at_. induction bs as [|b bs IH]; intros at_; simpl; [lia|].
  destruct (next_frame b at_) as [c|]; simpl; [specialize (IH c)|]; lia.
Qed.

Lemma take_committed i :
  (i <= length (committed_log h f))%nat ->
  take i (committed_log h f) = take i (wal_log h f).
Proof.
  intros Hi. destruct (committed_prefix (wal_log h f)) as [k Hk].
  fold (committed_log h f) in Hk. rewrite Hk. by rewrite take_app_le.
Qed.

(** A position of the committed log as a cursor. *)
Lemma cursor_at_spec i :
  (i <= length (committed_log h f))%nat ->
  same_log (cursor_at h f i) (log_start h) /\
  c_offset (cursor_at h f i) = WAL_HEADER_LEN + Z.of_nat i * header_frame_len h /\
  c_offset (cursor_at h f i) <= zlen f.
Proof.
  intros Hi. pose proof committed_log_length as Hl. destruct frame_len_pos as [Hn Hnz].
  destruct (valid_log_after n bufs (log_start h) i bufs_length) as [Hs Ho].
  { change (valid_log bufs (log_start h)) with (wal_log h f). lia. }
  unfold cursor_at. rewrite take_committed by done. unfold wal_log. fold bufs.
  split_and!; [done|by rewrite Ho, Hnz|]. rewrite Ho. cbn [log_start c_offset].
  pose proof (valid_log_length bufs (log_start h)) as Hb.
  pose proof (chunks_total n (drop (Z.to_nat WAL_HEADER_LEN) f) Hn) as Ht.
  rewrite length_drop in Ht. unfold wal_log in Hl. fold bufs in Hl.
  change (chunks n (drop (Z.to_nat WAL_HEADER_LEN) f)) with bufs in Ht.
  destruct (wal_header_page_size _ _ Hh) as [_ Hlen].
  unfold zlen, WAL_HEADER_LEN in *. nia.
Qed.

(** The buffers and the log read from a position. *)
Lemma bufs_at i :
  (i <= length (committed_log h f))%nat ->
  bufs_from f (c_offset (cursor_at h f i)) (header_frame_len h) = drop i bufs /\
  valid_log (drop i bufs) (cursor_at h f i) = drop i (wal_log h f).
Proof.
  intros Hi. destruct frame_len_pos as [Hn Hnz].
  destruct (cursor_at_spec i Hi) as (_ & -> & _). split.
  - unfold bufs_from. fold n. rewrite <- Hnz.
    rewrite Z2Nat.inj_add, <- drop_drop by (unfold WAL_HEADER_LEN; lia).
    replace (Z.to_nat (Z.of_nat i * Z.of_nat n)) with (i * n)%nat by lia.
    by apply chunks_drop.
  - unfold cursor_at. rewrite take_committed by done. apply valid_log_drop.
    change (valid_log bufs (log_start h)) with (wal_log h f).
    pose proof committed_log_length. lia.
Qed.

Lemma start_cursor_spec i cursor :
  (i <= length (committed_log h f))%nat ->
  (cursor = Some (cursor_at h f i) \/ cursor = None /\ i = O) ->
  start_cursor h cursor (zlen f) = inr (cursor_at h f i).
Proof.
  intros Hi [->|[-> ->]]; [|done].
  destruct (cursor_at_spec i Hi) as ((E1 & E2 & E3) & _ & Ho). unfold start_cursor.
  rewrite E1, E2, E3. cbn [log_start c_salt c_big_endian c_page_size].
  rewrite bool_decide_eq_true_2, Z.eqb_refl, Bool.eqb_reflx by done.
  cbn [negb orb]. apply Z.ltb_ge in Ho. by rewrite Ho.
Qed.

(** Scanning from any position of the committed log finds its end. *)
Lemma scan_from_position j :
  (j <= length (committed_log h f))%nat ->
  let at_ := cursor_at h f j in
  scan_frames (bufs_from f (c_offset at_) (header_frame_len h)) (zlen f)
    (header_frame_len h) at_ at_ = cursor_at h f (length (committed_log h f)).
Proof.
  intros Hj. cbn. destruct frame_len_pos as [Hn Hnz].
  destruct (bufs_at j Hj) as [-> Hv]. rewrite <- Hnz. rewrite scan_frames_spec.
  - rewrite Hv, committed_from by done. fold (committed_log h f).
    unfold cursor_at. rewrite <- after_app, take_drop, firstn_all. done.
  - apply Forall_drop, bufs_length.
  - destruct (cursor_at_spec j Hj) as (_ & -> & _).
    pose proof (chunks_total n (drop (Z.to_nat WAL_HEADER_LEN) f) Hn) as Ht.
    change (chunks n (drop (Z.to_nat WAL_HEADER_LEN) f)) with bufs in Ht.
    pose proof (valid_log_length bufs (log_start h)) as Hb.
    change (valid_log bufs (log_start h)) with (wal_log h f) in Hb.
    pose proof committed_log_length as Hl.
    destruct (wal_header_page_size _ _ Hh) as [_ Hlen].
    rewrite length_drop in Ht. unfold zlen, WAL_HEADER_LEN in *. rewrite length_drop.
    rewrite <- Hnz. nia.
Qed.

Lemma scan_start_spec i known_end :
  (i <= length (committed_log h f))%nat ->
  (known_end = None \/
   exists j, (i <= j <= length (committed_log h f))%nat /\
             known_end = Some (cursor_at h f j)) ->
  exists j, (i <= j <= length (committed_log h f))%nat /\
            scan_start known_end (cursor_at h f i) (zlen f) = cursor_at h f j.
Proof.
  intros Hi [->|(j & Hj & ->)]; [by exists i|]. exists j. split; [done|].
  destruct (cursor_at_spec i Hi) as ((E1 & _) & Oi & _).
  destruct (cursor_at_spec j) as ((F1 & _) & Oj & Hlen); [lia|].
  pose proof frame_len_pos as [Hn Hnz]. cbn [scan_start].
  rewrite bool_decide_eq_true_2 by congruence.
  assert (H1 : (c_offset (cursor_at h f i) <=? c_offset (cursor_at h f j)) = true)
    by (apply Z.leb_le; rewrite Oi, Oj; nia).
  apply Z.leb_le in Hlen. by rewrite H1, Hlen.
Qed.

Lemma read_at_position i cursor known_end limit :
  (i <= length (committed_log h f))%nat ->
  (cursor = Some (cursor_at h f i) \/ cursor = None /\ i = O) ->
  (known_end = None \/
   exists j, (i <= j <= length (committed_log h f))%nat /\
             known_end = Some (cursor_at h f j)) ->
  let log := committed_log h f in
  let k := fitting limit (h_page_size h) (length log - i) in
  read_committed (WalOpened f f) cursor limit known_end =
  Ok (Frames (map entry_frame (take k (drop i log)))
        (Some (cursor_at h f (i + k)))
        (bool_decide (i + k = length log)%nat)
        (Some (cursor_at h f (length log)))).
Proof.
  intros Hi Hc He log k. unfold read_committed.
  change (if WAL_HEADER_LEN <=? zlen f then parse_header (slice f 0 WAL_HEADER_LEN)
          else None) with (wal_header f).
  rewrite Hh, (start_cursor_spec i) by done.
  destruct (scan_start_spec i known_end Hi He) as (j & Hj & ->).
  destruct (cursor_at_spec i Hi) as ((_ & _ & Hps) & _ & _). rewrite Hps.
  cbn [log_start c_page_size]. fold (header_frame_len h).
  rewrite scan_from_position by lia. fold log.
  destruct frame_len_pos as [Hn Hnz].
  destruct (wal_header_page_size _ _ Hh) as [Hpo _]. apply page_size_ok_bounds in Hpo.
  assert (Hend : cursor_at h f (length log) = after (cursor_at h f i) (drop i log)).
  { unfold cursor_at. fold log. by rewrite <- after_app, take_drop, firstn_all. }
  destruct (bufs_at i Hi) as [-> Hv]. rewrite Hend.
  rewrite (read_frames_spec n); [|apply Forall_drop, bufs_length|done|lia|].
  2:{ rewrite Hv. destruct (committed_split (wal_log h f)) as (rest & E & _).
      fold (committed_log h f) in E. rewrite E, drop_app_le by done. by exists rest. }
  cbn [app length]. rewrite length_drop, Nat.sub_0_r. fold (fitting limit (h_page_size h) (length log - i)).
  fold k. rewrite <- Hend.
  assert (Hk : (i + k <= length log)%nat) by (unfold k, fitting; fold log in Hi; lia).
  assert (Hat : after (cursor_at h f i) (take k (drop i log)) = cursor_at h f (i + k)).
  { unfold cursor_at. fold log. by rewrite <- after_app, take_take_drop. }
  rewrite Hat. do 2 f_equal.
  destruct (cursor_at_spec (i + k)) as (_ & -> & _); [done|].
  destruct (cursor_at_spec (length log)) as (_ & -> & _); [done|].
  apply eq_iff_eq_true. rewrite Z.eqb_eq, bool_decide_eq_true. nia.
Qed.
End File.

(** C31: The reader returns the committed log. On a file with a valid header,
    reading from any position of the committed log, with no known end or with
    the boundary after any later position, succeeds and returns the next
    committed frames in order, as many as fit the limit, the cursor after them,
    whether the committed log is exhausted, and the end of the committed log.
    Frames after the last commit are never returned. *)
Theorem read_committed_spec f h i cursor known_end limit :
  wal_header f = Some h ->
  (i <= length (committed_log h f))%nat ->
  (cursor = Some (cursor_at h f i) \/ cursor = None /\ i = O) ->
  (known_end = None \/
   exists j, (i <= j <= length (committed_log h f))%nat /\
             known_end = Some (cursor_at h f j)) ->
  let log := committed_log h f in
  let k := fitting limit (h_page_size h) (length log - i) in
  read_committed (WalOpened f f) cursor limit known_end =
  Ok (Frames (map entry_frame (take k (drop i log)))
        (Some (cursor_at h f (i + k)))
        (bool_decide (i + k = length log)%nat)
        (Some (cursor_at h f (length log)))).
Proof. intros. by apply read_at_position. Qed.

(** ** Growing files *)

Lemma wal_header_app f h more : wal_header f = Some h -> wal_header (f ++ more) = Some h.
Proof.
  unfold wal_header. intros Hh. case_in Hh. bool_to_prop.
  rewrite slice_app_l by (unfold WAL_HEADER_LEN in *; lia).
  pose proof (zlen_nonneg more). rewrite zlen_app.
  destruct (Z.leb_spec WAL_HEADER_LEN (zlen f + zlen more)); [done|lia].
Qed.

(** What is committed stays committed when a writer appends. *)
Lemma committed_log_app f h more :
  wal_header f = Some h -> committed_log h f `prefix_of` committed_log h (f ++ more).
Proof.
  intros Hh. apply committed_prefix_mono. unfold wal_log, bufs_from.
  destruct (frame_len_pos f h Hh) as [Hn _].
  destruct (wal_header_page_size f h Hh) as [_ Hlen].
  rewrite drop_app_le by (unfold zlen, WAL_HEADER_LEN in *; lia).
  destruct (chunks_app _ (drop (Z.to_nat WAL_HEADER_LEN) f) more Hn) as [k ->].
  apply valid_log_app.
Qed.

Lemma cursor_at_app f h more i :
  wal_header f = Some h -> (i <= length (committed_log h f))%nat ->
  cursor_at h (f ++ more) i = cursor_at h f i.
Proof.
  intros Hh Hi. unfold cursor_at.
  destruct (committed_log_app f h more Hh) as [k ->]. by rewrite take_app_le.
Qed.

(** Incremental reading loses and repeats nothing. A first read from the
    start of the file followed, after any bytes were appended to it, by a second
    read from the returned cursor with the returned end succeeds, and the frames
    of the two reads together are the first frames of the grown file's committed
    log; they are all of them when the second read reports completeness. *)
Theorem incremental_read f more h limit1 limit2 fs1 cur1 done1 end1 :
  wal_header f = Some h ->
  read_committed (WalOpened f f) None limit1 None = Ok (Frames fs1 cur1 done1 end1) ->
  exists fs2 cur2 done2 end2,
    read_committed (WalOpened (f ++ more) (f ++ more)) cur1 limit2 end1 =
      Ok (Frames fs2 cur2 done2 end2) /\
    fs1 ++ fs2 = take (length fs1 + length fs2)
                   (map entry_frame (committed_log h (f ++ more))) /\
    (done2 = true -> fs1 ++ fs2 = map entry_frame (committed_log h (f ++ more))).
Proof.
  intros Hh.
  rewrite (read_at_position f h Hh O) by (try lia; auto). rewrite drop_0, Nat.sub_0_r.
  set (log := committed_log h f). set (k := fitting limit1 (h_page_size h) (length log)).
  intros [= <- <- <- <-]. cbn [Nat.add].
  assert (Hk : (k <= length log)%nat) by (unfold k, fitting; lia).
  pose proof (committed_log_app f h more Hh) as Hpre. fold log in Hpre.
  pose proof (prefix_length _ _ Hpre) as Hlen.
  rewrite <- (cursor_at_app f h more k), <- (cursor_at_app f h more (length log)) by done.
  do 4 eexists. split.
  { apply (read_at_position (f ++ more) h (wal_header_app f h more Hh) k);
      [lia|by left|right; exists (length log); split; [lia|done]]. }
  set (log' := committed_log h (f ++ more)) in *.
  set (k' := fitting limit2 (h_page_size h) (length log' - k)).
  assert (Hk' : (k + k' <= length log')%nat) by (unfold k', fitting; lia).
  rewrite !length_map, !length_take, length_drop.
  rewrite !Nat.min_l by lia. rewrite firstn_map, <- map_app.
  replace (take k log) with (take k log').
  2:{ destruct Hpre as [z ->]. by rewrite take_app_le. }
  rewrite take_take_drop. split; [done|].
  rewrite bool_decide_eq_true. intros ->. by rewrite firstn_all.
Qed.
