(* ===== verification/WalWriter.v ===== *)
(** * Completeness of the reader

    SQLite's WAL file format, as documented, written out as a byte encoder:
    a 32-byte header and one 24-byte frame header per page with the cumulative
    checksum.  The reader accepts every such file and gives the frames back,
    so its validation rejects nothing SQLite writes. *)

From stdpp Require Import prelude list strings pretty.
From Stdlib Require Import ZArith Lia.
From S2P Require Import Prelude Bytes WalFmt Instances WalSegments WalReader.

(** ** The file format *)

Definition sqlite_header_fields (big_endian : bool) (page_size ckpt salt0 salt1 : Z)
  : list byte :=
  to_be_bytes 4 (if big_endian then WAL_MAGIC_BE else WAL_MAGIC_LE)
    ++ to_be_bytes 4 WAL_VERSION ++ to_be_bytes 4 page_size ++ to_be_bytes 4 ckpt
    ++ to_be_bytes 4 salt0 ++ to_be_bytes 4 salt1.

Definition sqlite_header (big_endian : bool) (page_size ckpt salt0 salt1 : Z) : list byte :=
  let b := sqlite_header_fields big_endian page_size ckpt salt0 salt1 in
  let ck := checksum b big_endian (0, 0) in
  b ++ to_be_bytes 4 ck.1 ++ to_be_bytes 4 ck.2.

(** The checksum after a frame. *)
Definition frame_sum (at_ : Cursor) (f : Frame) : Z * Z :=
  checksum (f_page f) (c_big_endian at_)
    (checksum (to_be_bytes 4 (f_pgno f) ++ to_be_bytes 4 (f_commit f))
       (c_big_endian at_) (c_checksum at_)).

Definition sqlite_frame (at_ : Cursor) (f : Frame) : list byte :=
  let ck := frame_sum at_ f in
  to_be_bytes 4 (f_pgno f) ++ to_be_bytes 4 (f_commit f)
    ++ to_be_bytes 4 (c_salt at_).1 ++ to_be_bytes 4 (c_salt at_).2
    ++ to_be_bytes 4 ck.1 ++ to_be_bytes 4 ck.2 ++ f_page f.

Definition sqlite_next (at_ : Cursor) (f : Frame) : Cursor :=
  {| c_offset := c_offset at_ + zlen (sqlite_frame at_ f);
     c_salt := c_salt at_; c_checksum := frame_sum at_ f;
     c_big_endian := c_big_endian at_; c_page_size := c_page_size at_ |}.

Fixpoint sqlite_log (at_ : Cursor) (fs : list Frame) : list entry :=
  match fs with
  | [] => []
  | f :: fs => (sqlite_frame at_ f, sqlite_next at_ f) :: sqlite_log (sqlite_next at_ f) fs
  end.

Definition sqlite_start (big_endian : bool) (page_size ckpt salt0 salt1 : Z) : Header :=
  {| h_salt := (salt0, salt1);
     h_checksum := checksum (sqlite_header_fields big_endian page_size ckpt salt0 salt1)
                     big_endian (0, 0);
     h_big_endian := big_endian; h_page_size := page_size |}.

Definition sqlite_wal (big_endian : bool) (page_size ckpt salt0 salt1 : Z)
    (fs : list Frame) : list byte :=
  sqlite_header big_endian page_size ckpt salt0 salt1
    ++ concat (map fst (sqlite_log
         (log_start (sqlite_start big_endian page_size ckpt salt0 salt1)) fs)).

(** ** Checksums are 32-bit *)

Definition u32_pair (p : Z * Z) : Prop := is_u32 p.1 /\ is_u32 p.2.

Lemma u32_wrapping_add_u32 a b : is_u32 (u32_wrapping_add a b).
Proof. unfold is_u32, u32_wrapping_add. apply Z.mod_pos_bound. lia. Qed.

Lemma checksum_u32 data be seed : u32_pair seed -> u32_pair (checksum data be seed).
Proof.
  revert seed. induction data as [data IH] using (induction_ltof1 _ length).
  unfold ltof in IH. intros [s0 s1] Hs.
  do 8 (destruct data as [|? data]; [done|]). cbn [checksum]. apply IH; [cbn; lia|].
  split; apply u32_wrapping_add_u32.
Qed.

(** Reads a field of a buffer written with [to_be_bytes]. *)
Ltac be_field :=
  repeat (rewrite be32_app_r by (rewrite !zlen_to_be_bytes; lia));
  rewrite ?zlen_to_be_bytes;
  match goal with |- context [be32 _ ?x] => change x with 0 end;
  first [rewrite be32_to_be_bytes by auto
        |rewrite <- (app_nil_r (to_be_bytes 4 _)), be32_to_be_bytes by auto].

(** ** Frames *)

Lemma zlen_sqlite_frame p at_ f :
  frame_ok p f -> zlen (sqlite_frame at_ f) = FRAME_HEADER_LEN + p.
Proof.
  intros (_ & _ & _ & <-). unfold sqlite_frame. rewrite !zlen_app, !zlen_to_be_bytes.
  unfold FRAME_HEADER_LEN. lia.
Qed.

Definition cursor_ok (at_ : Cursor) : Prop :=
  u32_pair (c_salt at_) /\ u32_pair (c_checksum at_).

Lemma sqlite_next_ok at_ f : cursor_ok at_ -> cursor_ok (sqlite_next at_ f).
Proof. intros [? ?]. split; [done|]. by apply checksum_u32, checksum_u32. Qed.

Lemma sqlite_frame_fields at_ f p :
  cursor_ok at_ -> frame_ok p f ->
  let b := sqlite_frame at_ f in
  be32 b 0 = f_pgno f /\ be32 b 4 = f_commit f /\ be32 b 8 = (c_salt at_).1 /\
  be32 b 12 = (c_salt at_).2 /\ be32 b 16 = (frame_sum at_ f).1 /\
  be32 b 20 = (frame_sum at_ f).2.
Proof.
  intros Hc (Hz & Hp & Hcm & _) b. pose proof (sqlite_next_ok at_ f Hc) as [_ [H1 H2]].
  destruct Hc as [[Hs1 Hs2] _]. cbn [sqlite_next c_checksum] in H1, H2.
  unfold b, sqlite_frame. split_and!; by be_field.
Qed.

Lemma next_frame_sqlite at_ f p :
  cursor_ok at_ -> frame_ok p f ->
  next_frame (sqlite_frame at_ f) at_ = Some (sqlite_next at_ f) /\
  entry_frame (sqlite_frame at_ f, sqlite_next at_ f) = f.
Proof.
  intros Hc Hf. destruct (sqlite_frame_fields at_ f p Hc Hf) as (E0 & E4 & E8 & E12 & E16 & E20).
  destruct Hf as (Hz & _).
  assert (Hd : drop (Z.to_nat FRAME_HEADER_LEN) (sqlite_frame at_ f) = f_page f).
  { unfold sqlite_frame. rewrite !app_assoc. apply drop_app_length'.
    rewrite !length_app, !length_to_be_bytes. done. }
  assert (Hs : slice (sqlite_frame at_ f) 0 8 =
               to_be_bytes 4 (f_pgno f) ++ to_be_bytes 4 (f_commit f)).
  { unfold sqlite_frame. rewrite app_assoc. apply slice_0_app.
    by rewrite zlen_app, !zlen_to_be_bytes. }
  split.
  - unfold next_frame. rewrite E0, E8, E12, E16, E20, Hd, Hs.
    rewrite bool_decide_eq_true_2 by (by destruct (c_salt at_)).
    apply Z.eqb_neq in Hz. rewrite Hz. cbn [negb orb].
    rewrite bool_decide_eq_true_2; [done|]. by rewrite <- surjective_pairing.
  - unfold entry_frame. cbn [fst]. rewrite E0, E4, Hd. by destruct f.
Qed.

Lemma valid_log_sqlite p at_ fs :
  cursor_ok at_ -> Forall (frame_ok p) fs ->
  valid_log (map fst (sqlite_log at_ fs)) at_ = sqlite_log at_ fs /\
  map entry_frame (sqlite_log at_ fs) = fs /\
  Forall (fun b => length b = Z.to_nat (FRAME_HEADER_LEN + p)) (map fst (sqlite_log at_ fs)).
Proof.
  intros Hc HF. revert at_ Hc. induction HF as [|f fs Hf _ IH]; intros at_ Hc.
  { by repeat constructor. }
  destruct (next_frame_sqlite at_ f p Hc Hf) as [En Ef].
  destruct (IH (sqlite_next at_ f)) as (E1 & E2 & E3); [by apply sqlite_next_ok|].
  cbn [sqlite_log map fst valid_log]. rewrite En, E1, E2, Ef. split_and!; [done|done|].
  constructor; [|done]. pose proof (zlen_sqlite_frame p at_ f Hf). unfold zlen in *. lia.
Qed.

(** ** Files *)

Section SqliteFile.
Context (big_endian : bool) (page_size ckpt salt0 salt1 : Z).
Hypothesis Hps : page_size_ok page_size = true.
Hypothesis Hck : is_u32 ckpt.
Hypothesis Hs0 : is_u32 salt0.
Hypothesis Hs1 : is_u32 salt1.

Let h : Header := sqlite_start big_endian page_size ckpt salt0 salt1.

Lemma header_checksum_u32 : u32_pair (h_checksum h).
Proof. apply checksum_u32. by split; split. Qed.

Lemma sqlite_start_ok : cursor_ok (log_start h).
Proof. split; [done|apply header_checksum_u32]. Qed.

Lemma zlen_sqlite_header :
  zlen (sqlite_header big_endian page_size ckpt salt0 salt1) = WAL_HEADER_LEN.
Proof.
  unfold sqlite_header, sqlite_header_fields. by rewrite !zlen_app, !zlen_to_be_bytes.
Qed.

Lemma parse_sqlite_header :
  parse_header (sqlite_header big_endian page_size ckpt salt0 salt1) = Some h.
Proof.
  destruct header_checksum_u32 as [H1 H2]. apply page_size_ok_bounds in Hps as Hpb.
  assert (Hp32 : is_u32 page_size) by (unfold is_u32; lia).
  assert (Hv : is_u32 WAL_VERSION) by done.
  assert (Hm : is_u32 (if big_endian then WAL_MAGIC_BE else WAL_MAGIC_LE))
    by (by destruct big_endian).
  set (b := sqlite_header big_endian page_size ckpt salt0 salt1).
  assert (E : be32 b 0 = (if big_endian then WAL_MAGIC_BE else WAL_MAGIC_LE) /\
              be32 b 4 = WAL_VERSION /\ be32 b 8 = page_size /\
              be32 b 16 = salt0 /\ be32 b 20 = salt1 /\
              be32 b 24 = (h_checksum h).1 /\ be32 b 28 = (h_checksum h).2).
  { unfold b, sqlite_header, sqlite_header_fields. rewrite <- !app_assoc.
    split_and!; by be_field. }
  destruct E as (E0 & E4 & E8 & E16 & E20 & E24 & E28).
  assert (Hsl : slice b 0 24 =
                sqlite_header_fields big_endian page_size ckpt salt0 salt1).
  { apply slice_0_app. unfold sqlite_header_fields. by rewrite !zlen_app, !zlen_to_be_bytes. }
  unfold parse_header. rewrite E0, E4, E8, E16, E20, E24, E28, Hsl, Hps, Z.eqb_refl.
  cbn [negb]. rewrite <- surjective_pairing. unfold h, sqlite_start. cbn [h_checksum].
  destruct big_endian.
  - change (WAL_MAGIC_BE =? WAL_MAGIC_LE) with false.
    by rewrite Z.eqb_refl, bool_decide_eq_true_2.
  - by rewrite Z.eqb_refl, bool_decide_eq_true_2.
Qed.

Lemma wal_header_sqlite fs :
  wal_header (sqlite_wal big_endian page_size ckpt salt0 salt1 fs) = Some h.
Proof.
  unfold sqlite_wal. apply wal_header_app. unfold wal_header.
  rewrite slice_all, zlen_sqlite_header by (by rewrite zlen_sqlite_header).
  rewrite Z.leb_refl. apply parse_sqlite_header.
Qed.

Lemma wal_log_sqlite fs :
  Forall (frame_ok page_size) fs ->
  wal_log h (sqlite_wal big_endian page_size ckpt salt0 salt1 fs) =
  sqlite_log (log_start h) fs.
Proof.
  intros HF. destruct (valid_log_sqlite page_size (log_start h) fs) as (E1 & _ & E3);
    [apply sqlite_start_ok|done|].
  unfold wal_log, bufs_from, sqlite_wal. fold h.
  rewrite drop_app_length'.
  2:{ pose proof zlen_sqlite_header. unfold zlen in *. lia. }
  rewrite <- (app_nil_r (concat _)). unfold header_frame_len. cbn [h sqlite_start h_page_size].
  apply page_size_ok_bounds in Hps as Hpb.
  rewrite chunks_concat; [|unfold FRAME_HEADER_LEN; lia|done].
  rewrite chunks_short, app_nil_r by (unfold FRAME_HEADER_LEN; cbn; lia). done.
Qed.
End SqliteFile.

Lemma committed_whole log :
  (forall e, last log = Some e -> is_commit e = true) -> committed log = log.
Proof.
  induction log as [|e log IH]; [done|]. intros Hl. rewrite committed_cons.
  destruct log as [|e' log]; [cbn; by rewrite Hl|].
  rewrite IH; [done|]. intros x Hx. apply Hl. by rewrite last_cons, Hx.
Qed.

(** The reader accepts what SQLite writes. For a WAL file in SQLite's
    format whose last frame commits, in either byte order, one unlimited read
    from the start returns exactly the frames written, in order, and reports
    completeness. *)
Theorem read_sqlite_wal big_endian page_size ckpt salt0 salt1 fs f limit :
  page_size_ok page_size = true -> is_u32 ckpt -> is_u32 salt0 -> is_u32 salt1 ->
  Forall (frame_ok page_size) (fs ++ [f]) -> f_commit f <> 0 ->
  zlen (fs ++ [f]) * page_size <= limit ->
  let file := sqlite_wal big_endian page_size ckpt salt0 salt1 (fs ++ [f]) in
  exists c, read_committed (WalOpened file file) None limit None =
            Ok (Frames (fs ++ [f]) (Some c) true (Some c)).
Proof.
  intros Hps Hck Hs0 Hs1 HF Hcm Hlim file. set (all := fs ++ [f]) in *.
  set (h := sqlite_start big_endian page_size ckpt salt0 salt1).
  destruct (valid_log_sqlite page_size (log_start h) all) as (_ & Ef & _);
    [by apply sqlite_start_ok|done|].
  assert (Hlog : committed_log h file = sqlite_log (log_start h) all).
  { unfold committed_log, file, h. rewrite wal_log_sqlite by done. fold h.
    apply committed_whole. intros e He.
    assert (entry_frame e = f) as <-.
    { apply (f_equal last) in Ef. rewrite fmap_last, He in Ef. unfold all in Ef.
      rewrite last_snoc in Ef. by injection Ef. }
    unfold is_commit. apply Z.eqb_neq in Hcm. cbn in Hcm. by rewrite Hcm. }
  eexists.
  rewrite (read_at_position file h) with (i := O); [|by apply wal_header_sqlite|lia|auto|auto].
  rewrite drop_0, Nat.sub_0_r. cbn [Nat.add]. rewrite Hlog.
  assert (Hlen : length (sqlite_log (log_start h) all) = length all).
  { by rewrite <- Ef at 2; rewrite length_map. }
  assert (Hk : fitting limit (h_page_size h) (length (sqlite_log (log_start h) all))
               = length (sqlite_log (log_start h) all)).
  { unfold fitting. rewrite Hlen. cbn [h sqlite_start h_page_size].
    apply page_size_ok_bounds in Hps. apply Nat.min_l. apply Nat2Z.inj_le.
    assert (zlen all <= (limit + page_size - 1) / page_size)
      by (apply Z.div_le_lower_bound; lia).
    unfold zlen in *. lia. }
  rewrite Hk, firstn_all, Ef, bool_decide_eq_true_2 by done. reflexivity.
Qed.

(** ** Concrete instances *)

Definition demo_wal : list byte :=
  sqlite_wal false 512 0 11 22 [demo_frame 1 0 Byte.x41; demo_frame 2 2 Byte.x42].

Definition demo_wal_header : Header := sqlite_start false 512 0 11 22.

Lemma demo_wal_is_log : wal_header demo_wal = Some demo_wal_header.
Proof. vm_compute. reflexivity. Qed.

Lemma read_committed_spec_witness :
  read_committed (WalOpened demo_wal demo_wal) None 600 None =
  Ok (Frames (map entry_frame (take 2 (drop 0 (committed_log demo_wal_header demo_wal))))
        (Some (cursor_at demo_wal_header demo_wal 2)) true
        (Some (cursor_at demo_wal_header demo_wal 2))).
Proof.
  apply (read_committed_spec demo_wal demo_wal_header 0 None None 600);
    [exact demo_wal_is_log|lia|by right|by left].
Defined.

Lemma read_sqlite_wal_witness :
  exists c, read_committed (WalOpened demo_wal demo_wal) None 1024 None =
    Ok (Frames [demo_frame 1 0 Byte.x41; demo_frame 2 2 Byte.x42] (Some c) true (Some c)).
Proof.
  apply (read_sqlite_wal false 512 0 11 22 [demo_frame 1 0 Byte.x41] (demo_frame 2 2 Byte.x42)
           1024); [done|by split|by split|by split|by repeat constructor|done|done].
Defined.

(** The log before the last 536 bytes (one frame) were appended. *)
Definition demo_wal_old : list byte := take 568 demo_wal.
Definition demo_wal_new : list byte := drop 568 demo_wal.

Lemma incremental_read_witness :
  exists fs1 cur1 done1 end1,
    read_committed (WalOpened demo_wal_old demo_wal_old) None 4096 None =
      Ok (Frames fs1 cur1 done1 end1) /\
    exists fs2 cur2 done2 end2,
      read_committed (WalOpened (demo_wal_old ++ demo_wal_new) (demo_wal_old ++ demo_wal_new))
        cur1 4096 end1 = Ok (Frames fs2 cur2 done2 end2) /\
      fs1 ++ fs2 = take (length fs1 + length fs2)
        (map entry_frame (committed_log demo_wal_header (demo_wal_old ++ demo_wal_new))) /\
      (done2 = true ->
       fs1 ++ fs2 = map entry_frame (committed_log demo_wal_header (demo_wal_old ++ demo_wal_new))).
Proof.
  do 4 eexists. split; [vm_compute; reflexivity|].
  apply (incremental_read demo_wal_old demo_wal_new demo_wal_header 4096 4096
           [] (Some (log_start demo_wal_header)) true (Some (log_start demo_wal_header)));
    vm_compute; reflexivity.
Defined.
