(* ===== verification/WalReplay.v ===== *)
(** * Replay of segments onto a database file

    [apply_segment] writes page images at byte offsets and resizes the file at
    every commit.  Its specification works on whole pages: a database is a
    list of pages, a frame replaces one page, a commit sets the number of
    pages.  The byte-level code refines the page-level specification, never
    fails its final length check, and the result does not depend on how the
    frames were cut into segments. *)

From stdpp Require Import prelude list strings pretty.
From Stdlib Require Import ZArith Lia.
From S2P Require Import Prelude Bytes WalFmt Instances WalSegments.

(** ** Specification *)

Abbreviation page := (list byte).

Definition zero_page (p : nat) : page := replicate p Byte.x00.

Definition put_page (p : nat) (db : list page) (i : nat) (pg : page) : list page :=
  take i db ++ replicate (i - length db) (zero_page p) ++ [pg] ++ drop (S i) db.

Definition resize_pages (p n : nat) (db : list page) : list page :=
  take n db ++ replicate (n - length db) (zero_page p).

Definition replay_frame (p : nat) (db : list page) (f : Frame) : list page :=
  let db := put_page p db (Z.to_nat (f_pgno f - 1)) (f_page f) in
  if negb (f_commit f =? 0) then resize_pages p (Z.to_nat (f_commit f)) db else db.

Definition replay_pages (p : nat) (db : list page) (fs : list Frame) : list page :=
  foldl (replay_frame p) db fs.

(** The image the frames leave for page [i]: that of the last frame for it. *)
Fixpoint last_image (i : nat) (fs : list Frame) : option page :=
  match fs with
  | [] => None
  | f :: fs =>
      match last_image i fs with
      | Some pg => Some pg
      | None => if Nat.eqb (Z.to_nat (f_pgno f - 1)) i then Some (f_page f) else None
      end
  end.

(** A page-1 image that keeps the database's page size readable. *)
Definition header_ok (p : Z) (head : list byte) : Prop :=
  slice head 0 16 = SQLITE_MAGIC /\ header_page_size head = p.

Definition frame_header_ok (p : Z) (f : Frame) : Prop :=
  f_pgno f = 1 -> header_ok p (f_page f).

(** A database file of whole pages whose header declares the page size [p]. *)
Definition db_ok (p : nat) (db : list page) : Prop :=
  Forall (fun pg => length pg = p) db /\
  exists pg rest, db = pg :: rest /\ header_ok (Z.of_nat p) pg.

(** A frame that may be replayed onto a database of page size [p]. *)
Definition replayable (p : Z) (f : Frame) : Prop :=
  frame_ok p f /\ frame_header_ok p f.

(** Applying segments one after the other, as long as they succeed. *)
Fixpoint apply_segments_in_order (db : list byte) (segs : list Segment)
  : list byte * result Error unit :=
  match segs with
  | [] => (db, Ok tt)
  | s :: segs =>
      match apply_segment db s with
      | (db, Ok _) => apply_segments_in_order db segs
      | (db, Err e) => (db, Err e)
      end
  end.

(** ** Pages of a byte list *)

Section Pages.
Context (p : nat).
Implicit Types db : list page.

Definition paged db : Prop := Forall (fun pg => length pg = p) db.

Lemma length_concat_paged db : paged db -> length (concat db) = (length db * p)%nat.
Proof. induction 1 as [|pg db Hp _ IH]; cbn; [done|]. rewrite length_app. lia. Qed.

Lemma paged_replicate n : paged (replicate n (zero_page p)).
Proof. apply Forall_replicate, length_replicate. Qed.

Lemma concat_zero_pages n : concat (replicate n (zero_page p)) = replicate (n * p) Byte.x00.
Proof. induction n as [|n IH]; cbn; [done|]. by rewrite IH, replicate_add. Qed.

Lemma take_concat n db : paged db -> take (n * p) (concat db) = concat (take n db).
Proof.
  intros HF. revert n. induction HF as [|pg db Hp _ IH]; intros n; cbn.
  { by rewrite !take_nil. }
  destruct n as [|n]; [done|]. cbn [Nat.mul take concat].
  rewrite take_app_add' by done. by rewrite IH.
Qed.

Lemma drop_concat n db : paged db -> drop (n * p) (concat db) = concat (drop n db).
Proof.
  intros HF. revert n. induction HF as [|pg db Hp _ IH]; intros n; cbn.
  { by rewrite !drop_nil. }
  destruct n as [|n]; [done|]. cbn [Nat.mul drop].
  rewrite drop_app_add' by done. by rewrite IH.
Qed.

Lemma paged_put db i pg : paged db -> length pg = p -> paged (put_page p db i pg).
Proof.
  intros Hd Hp. unfold put_page, paged.
  apply Forall_app_2; [by apply Forall_take|].
  apply Forall_app_2; [apply paged_replicate|].
  constructor; [done|by apply Forall_drop].
Qed.

Lemma paged_resize db n : paged db -> paged (resize_pages p n db).
Proof.
  intros Hd. apply Forall_app_2; [by apply Forall_take|apply paged_replicate].
Qed.

Lemma length_resize db n : length (resize_pages p n db) = n.
Proof. unfold resize_pages. rewrite length_app, length_take, length_replicate. lia. Qed.

(** Writing one page image at its byte offset. *)
Lemma write_at_page db i pg :
  paged db -> length pg = p ->
  write_at (concat db) (Z.of_nat i * Z.of_nat p) pg = concat (put_page p db i pg).
Proof.
  intros Hd Hp. unfold write_at, put_page.
  replace (Z.to_nat (Z.of_nat i * Z.of_nat p)) with (i * p)%nat by lia.
  rewrite take_concat by done.
  replace (i * p + length pg)%nat with (S i * p)%nat by lia.
  rewrite drop_concat, length_concat_paged by done.
  rewrite !concat_app, concat_zero_pages. cbn [concat].
  by rewrite app_nil_r, <- Nat.mul_sub_distr_r.
Qed.

Lemma set_len_pages db n :
  paged db -> set_len (concat db) (Z.of_nat n * Z.of_nat p) = concat (resize_pages p n db).
Proof.
  intros Hd. unfold set_len, resize_pages.
  replace (Z.to_nat (Z.of_nat n * Z.of_nat p)) with (n * p)%nat by lia.
  rewrite take_concat, length_concat_paged, concat_app, concat_zero_pages by done.
  by rewrite <- Nat.mul_sub_distr_r.
Qed.

Lemma apply_frame_pages db f :
  paged db -> frame_ok (Z.of_nat p) f ->
  apply_frame (Z.of_nat p) (concat db) f = concat (replay_frame p db f) /\
  paged (replay_frame p db f).
Proof.
  intros Hd (Hz & Hu & Hc & Hl). unfold is_u32 in *.
  assert (Hp : length (f_page f) = p) by (unfold zlen in Hl; lia).
  assert (W : write_at (concat db) ((f_pgno f - 1) * Z.of_nat p) (f_page f) =
              concat (put_page p db (Z.to_nat (f_pgno f - 1)) (f_page f))).
  { rewrite <- (write_at_page db) by done. by rewrite Z2Nat.id by lia. }
  unfold apply_frame, replay_frame. rewrite W.
  pose proof (paged_put db (Z.to_nat (f_pgno f - 1)) _ Hd Hp) as Hput.
  destruct (negb (f_commit f =? 0)); [|done]. split; [|by apply paged_resize].
  rewrite <- set_len_pages by done. by rewrite Z2Nat.id by lia.
Qed.

Lemma apply_frames_pages db fs :
  paged db -> Forall (frame_ok (Z.of_nat p)) fs ->
  apply_frames (Z.of_nat p) (concat db) fs = concat (replay_pages p db fs) /\
  paged (replay_pages p db fs).
Proof.
  intros Hd HF. unfold apply_frames, replay_pages. revert db Hd.
  induction HF as [|f fs Hf _ IH]; intros db Hd; [done|]. cbn [foldl].
  destruct (apply_frame_pages db f Hd Hf) as [-> Hd']. by apply IH.
Qed.

(** A commit leaves exactly the number of pages it records. *)
Lemma length_replay_commit db fs f :
  f_commit f <> 0 -> length (replay_pages p db (fs ++ [f])) = Z.to_nat (f_commit f).
Proof.
  intros Hc. unfold replay_pages. rewrite foldl_snoc. unfold replay_frame.
  apply Z.eqb_neq in Hc. rewrite Hc. apply length_resize.
Qed.

Lemma db_ok_replay_frame db f :
  db_ok p db -> replayable (Z.of_nat p) f -> db_ok p (replay_frame p db f).
Proof.
  intros [Hd (pg & rest & -> & Hh)] [Hf Hfh].
  split; [by apply apply_frame_pages|].
  destruct Hf as (Hz & Hu & Hc & _). unfold is_u32 in *.
  assert (Hput : exists pg' rest', put_page p (pg :: rest) (Z.to_nat (f_pgno f - 1)) (f_page f)
                   = pg' :: rest' /\ header_ok (Z.of_nat p) pg').
  { unfold put_page. destruct (Z.to_nat (f_pgno f - 1)) eqn:E.
    - cbn. do 2 eexists. split; [done|]. apply Hfh. lia.
    - cbn. do 2 eexists. by split. }
  destruct Hput as (pg' & rest' & Hput & Hh'). unfold replay_frame. rewrite Hput.
  destruct (Z.eqb_spec (f_commit f) 0) as [|Hne]; cbn [negb]; [by do 2 eexists|].
  unfold resize_pages. destruct (Z.to_nat (f_commit f)) eqn:E; [lia|].
  cbn. by do 2 eexists.
Qed.

Lemma db_ok_replay_pages db fs :
  db_ok p db -> Forall (replayable (Z.of_nat p)) fs -> db_ok p (replay_pages p db fs).
Proof.
  intros Hd HF. revert db Hd. induction HF as [|f fs Hf _ IH]; intros db Hd; [done|].
  cbn. by apply IH, db_ok_replay_frame.
Qed.

Lemma db_page_size_ok db :
  (100 <= p)%nat -> db_ok p db -> db_page_size (concat db) = Ok (Some (Z.of_nat p)).
Proof.
  intros Hp [Hd (pg & rest & -> & Hm & Hh)]. inversion_clear Hd as [|?? Hl _].
  unfold db_page_size. cbn [concat].
  destruct (Z.ltb_spec (zlen (pg ++ concat rest)) 100); [zlen_lia|].
  assert (100 <= zlen pg) by (unfold zlen; lia).
  rewrite slice_app_l by lia. unfold header_page_size in *.
  rewrite !slice_slice by lia. rewrite Hm, bool_decide_eq_true_2 by done.
  cbn [negb]. by rewrite Hh.
Qed.
End Pages.

(** ** Segments *)

Lemma replayable_frame_ok p fs : Forall (replayable p) fs -> Forall (frame_ok p) fs.
Proof. intros HF. eapply Forall_impl; [exact HF|]. by intros f [? _]. Qed.

Lemma write_segment_pages p db seg :
  db_ok p db -> s_page_size seg = Z.of_nat p ->
  Forall (frame_ok (Z.of_nat p)) (s_frames seg) ->
  write_segment (concat db) seg = (concat (replay_pages p db (s_frames seg)), Ok tt).
Proof.
  intros [Hd _] Hps HF. unfold write_segment. rewrite Hps.
  destruct (apply_frames_pages p db _ Hd HF) as [-> Hd']. f_equal.
  unfold final_pages. destruct (last (s_frames seg)) as [f|] eqn:El; [|done].
  destruct (Z.eqb_spec (f_commit f) 0) as [|Hc]; [done|]. cbn [negb].
  apply last_Some in El as [fs Efs]. rewrite Efs in *.
  apply Forall_app in HF as [_ HF]. inversion_clear HF as [|?? (_ & _ & Hu & _) _].
  unfold zlen. rewrite (length_concat_paged p), length_replay_commit by done.
  unfold is_u32 in Hu. rewrite Nat2Z.inj_mul, Z2Nat.id, Z.eqb_refl by lia. done.
Qed.

Lemma apply_segment_pages p db seg :
  db_ok p db -> segment_ok seg -> s_page_size seg = Z.of_nat p ->
  apply_segment (concat db) seg = (concat (replay_pages p db (s_frames seg)), Ok tt).
Proof.
  intros Hd (Hps & _ & _ & _ & HF) Ep. apply page_size_ok_bounds in Hps.
  unfold apply_segment. rewrite (db_page_size_ok p) by (lia || done).
  rewrite Ep, Z.eqb_refl. cbn [negb]. rewrite Ep in HF. by apply write_segment_pages.
Qed.

(** C30: Replay refines page replacement. Applying a well-formed segment to a
    database file of whole pages with the segment's page size succeeds, and the
    resulting file is, byte for byte, the database in which every frame replaced
    its page and every commit set the page count. In particular the length check
    after the writes never fails. *)
Theorem apply_segment_refines p db seg :
  db_ok p db -> segment_ok seg -> s_page_size seg = Z.of_nat p ->
  apply_segment (concat db) seg = (concat (replay_pages p db (s_frames seg)), Ok tt).
Proof. apply apply_segment_pages. Qed.

Lemma apply_in_order_pages p db segs :
  db_ok p db ->
  Forall (fun s => segment_ok s /\ s_page_size s = Z.of_nat p /\
                   Forall (replayable (Z.of_nat p)) (s_frames s)) segs ->
  apply_segments_in_order (concat db) segs =
  (concat (replay_pages p db (concat (map s_frames segs))), Ok tt).
Proof.
  intros Hd HF. revert db Hd.
  induction HF as [|s segs (Hs & Hp & Hr) _ IH]; intros db Hd; [done|].
  cbn [apply_segments_in_order map concat]. rewrite (apply_segment_pages p) by done.
  unfold replay_pages. rewrite foldl_app. apply IH. by apply db_ok_replay_pages.
Qed.

(** Segment boundaries do not matter. Applying consecutive segments of a
    generation one by one leaves the same file as replaying all their frames at
    once, wherever the frame list was cut. *)
Theorem segmentation_independent p db segs1 segs2 :
  db_ok p db ->
  Forall (fun s => segment_ok s /\ s_page_size s = Z.of_nat p /\
                   Forall (replayable (Z.of_nat p)) (s_frames s)) segs1 ->
  Forall (fun s => segment_ok s /\ s_page_size s = Z.of_nat p /\
                   Forall (replayable (Z.of_nat p)) (s_frames s)) segs2 ->
  concat (map s_frames segs1) = concat (map s_frames segs2) ->
  apply_segments_in_order (concat db) segs1 = apply_segments_in_order (concat db) segs2 /\
  apply_segments_in_order (concat db) segs1 =
    (apply_frames (Z.of_nat p) (concat db) (concat (map s_frames segs1)), Ok tt).
Proof.
  intros Hd H1 H2 E. rewrite !(apply_in_order_pages p) by done. rewrite E. split; [done|].
  f_equal. symmetry. apply apply_frames_pages; [by destruct Hd|]. rewrite <- E.
  apply Forall_concat, Forall_map. eapply Forall_impl; [exact H1|].
  intros s (_ & _ & ?). by apply replayable_frame_ok.
Qed.

(** ** Which image a page ends with *)

Lemma lookup_put_page p db i pg j :
  put_page p db i pg !! j =
  if decide (j = i) then Some pg
  else if decide (j < length db)%nat then db !! j
  else if decide (j < i)%nat then Some (zero_page p) else None.
Proof.
  unfold put_page. destruct (decide (j < i)%nat) as [Hji|Hji].
  - rewrite (decide_False (P := j = i)) by lia. case_decide as Hl.
    + rewrite lookup_app_l by (rewrite length_take; lia). by rewrite lookup_take_lt.
    + rewrite lookup_app_r, length_take by (rewrite length_take; lia).
      rewrite lookup_app_l by (rewrite length_replicate; lia).
      apply lookup_replicate_2. lia.
  - rewrite lookup_app_r, length_take by (rewrite length_take; lia).
    rewrite lookup_app_r, length_replicate by (rewrite length_replicate; lia).
    case_decide as E; [subst; by replace (i - _ - _)%nat with O by lia|].
    rewrite (lookup_app_r [pg]) by (cbn [length]; lia). cbn [length]. rewrite lookup_drop.
    replace (S i + _)%nat with j by lia.
    case_decide; [done|]. apply lookup_ge_None_2. lia.
Qed.

Lemma lookup_resize_pages p n db j :
  (j < n)%nat -> (j < length db)%nat -> resize_pages p n db !! j = db !! j.
Proof.
  intros. unfold resize_pages. rewrite lookup_app_l by (rewrite length_take; lia).
  by rewrite lookup_take_lt.
Qed.

(** The last image wins. For a page inside the database that no commit of
    the frames truncates away, the replayed database holds the image of the last
    frame written for it, or its old image when there is none: exactly what a
    SQLite checkpoint of the same frames leaves. *)
Theorem replay_last_image p db fs i :
  (i < length db)%nat ->
  Forall (fun f => f_pgno f <> 0 /\ 0 <= f_pgno f /\
                   (f_commit f = 0 \/ Z.of_nat i < f_commit f)) fs ->
  replay_pages p db fs !! i =
  match last_image i fs with Some pg => Some pg | None => db !! i end.
Proof.
  intros Hi HF. revert db Hi.
  induction HF as [|f fs (Hz & Hnn & Hc) _ IH]; intros db Hi; [done|].
  cbn [replay_pages foldl last_image]. fold (replay_pages p (replay_frame p db f) fs).
  set (k := Z.to_nat (f_pgno f - 1)).
  assert (Hput : (i < length (put_page p db k (f_page f)))%nat).
  { unfold put_page. rewrite !length_app, length_take, length_replicate, length_drop.
    cbn [length]. lia. }
  assert (Hl : (i < length (replay_frame p db f))%nat /\
               replay_frame p db f !! i = put_page p db k (f_page f) !! i).
  { unfold replay_frame. fold k. destruct (Z.eqb_spec (f_commit f) 0); [done|].
    cbn [negb]. rewrite length_resize. destruct Hc as [|Hc]; [done|].
    split; [lia|]. apply lookup_resize_pages; [lia|done]. }
  destruct Hl as [Hl E]. rewrite IH, E by done.
  destruct (last_image i fs); [done|]. rewrite lookup_put_page.
  destruct (Nat.eqb_spec k i) as [->|Hne]; [by rewrite decide_True|].
  rewrite decide_False, decide_True by (done || lia). done.
Qed.

(** ** Concrete instances *)

(** A two-page database of page size 512. *)
Definition demo_db : list page :=
  [SQLITE_MAGIC ++ to_be_bytes 2 512 ++ replicate 494 Byte.x00; replicate 512 Byte.x33].

(** The same three frames as one segment and as two. *)
Definition demo_frames : list Frame :=
  [demo_frame 2 0 Byte.x61; demo_frame 3 3 Byte.x62; demo_frame 2 3 Byte.x63].

Definition demo_one : list Segment := [mkSegment 512 0 demo_frames].
Definition demo_two : list Segment :=
  [mkSegment 512 0 (take 1 demo_frames); mkSegment 512 1 (drop 1 demo_frames)].

Lemma demo_db_ok : db_ok 512 demo_db.
Proof.
  split; [by repeat constructor|]. do 2 eexists. split; [reflexivity|].
  split; vm_compute; reflexivity.
Qed.

Ltac demo_segments :=
  repeat constructor; unfold frame_header_ok; cbn; try done; intros [=].

Lemma apply_segment_refines_witness :
  apply_segment (concat demo_db) demo_segment =
  (concat (replay_pages 512 demo_db (s_frames demo_segment)), Ok tt).
Proof.
  apply (apply_segment_refines 512 demo_db demo_segment);
    [exact demo_db_ok|exact demo_segment_ok|reflexivity].
Defined.

Lemma segmentation_independent_witness :
  apply_segments_in_order (concat demo_db) demo_one =
    apply_segments_in_order (concat demo_db) demo_two /\
  apply_segments_in_order (concat demo_db) demo_one =
    (apply_frames (Z.of_nat 512) (concat demo_db) (concat (map s_frames demo_one)), Ok tt).
Proof.
  apply (segmentation_independent 512 demo_db demo_one demo_two);
    [exact demo_db_ok|demo_segments|demo_segments|reflexivity].
Defined.

Lemma replay_last_image_witness :
  replay_pages 512 demo_db demo_frames !! 1%nat = Some (replicate 512 Byte.x63).
Proof.
  rewrite (replay_last_image 512 demo_db demo_frames 1); [reflexivity|cbn; lia|].
  repeat constructor; cbn; try done; right; lia.
Defined.
