(* ===== verification/ObjectApi.v ===== *)
(** * Object storage interface (objstore/metasync.rs, objstore/condprobe.rs)

    The error type of the metadata sync, the requests and responses it
    exchanges with the object store, and the trait [ObjectApi] as a type
    class over the state [S] of the remote store.  The store itself (S3 or a
    compatible service) is not part of the repository.  [ObjectApiLaws] states
    the documented behaviour the sync relies on: conditional writes, strong
    consistency, sorted listings, and that a failed write may still have
    landed.  Other writers act through [env], which may change the store
    before any request is served. *)

From stdpp Require Import prelude list strings pretty gmap sorting.
From Stdlib Require Import ZArith Lia.
From S2P Require Import Prelude Bytes.

(** ** Errors *)

Inductive SyncError : Type :=
| NotFound
| PreconditionFailed (msg : string)
| ObjectStore (msg : string)
| Unavailable (msg : string)
| MetaError (msg : string)
| IoError (op source : string)
| Fencing (msg : string)
| Context (context : string) (source : SyncError).

Fixpoint is_transient (e : SyncError) : bool :=
  match e with
  | Unavailable _ => true
  | Context _ source => is_transient source
  | _ => false
  end.

Fixpoint is_not_found (e : SyncError) : bool :=
  match e with
  | NotFound => true
  | Context _ source => is_not_found source
  | _ => false
  end.

Fixpoint is_precondition_failed (e : SyncError) : bool :=
  match e with
  | PreconditionFailed _ => true
  | Context _ source => is_precondition_failed source
  | _ => false
  end.

(** ** Requests and responses *)

(** S3 user metadata. The source iterates over a [HashMap]; the list is one
    iteration order of it. *)
Abbreviation metadata := (list (string * string)).

(** [HashMap::insert]. *)
Definition md_insert (md : metadata) (k v : string) : metadata :=
  (k, v) :: filter (fun e => e.1 <> k) md.

Inductive PutBody : Type :=
| PutFile (path : string)
| PutBytes (bytes : list byte).

Record PutObjectInput := mkPut {
  put_bucket : string;
  put_key : string;
  put_body : PutBody;
  put_content_length : Z;
  put_metadata : metadata;
  put_if_match : option string;
  put_if_none_match : option string;
}.

Record PutObjectOutput := { put_e_tag : option string }.

(** The body is a stream: reading it to its end gives bytes or fails. *)
Record GetObjectOutput := {
  get_body : result string (list byte);
  get_content_length : option Z;
  get_e_tag : option string;
}.

Record HeadObjectOutput := {
  head_e_tag : option string;
  head_metadata : metadata;
  head_content_length : option Z;
}.

(** The trait. A put receives the bytes its body resolved to. *)
Class ObjectApi (S : Type) := {
  put_object : S -> PutObjectInput -> list byte -> S * result SyncError PutObjectOutput;
  get_object : S -> string -> string -> S * result SyncError GetObjectOutput;
  head_object : S -> string -> string -> S * result SyncError HeadObjectOutput;
  delete_object : S -> string -> string -> S * result SyncError unit;
  list_keys : S -> string -> string -> S * result SyncError (list string);
}.

(** ** Laws *)

Record Object := {
  o_body : list byte;
  o_e_tag : string;
  o_metadata : metadata;
}.

(** The precondition of a conditional write against the current object. *)
Definition put_allowed (put : PutObjectInput) (cur : option Object) : Prop :=
  (forall tag, put_if_match put = Some tag -> exists o, cur = Some o /\ o_e_tag o = tag) /\
  (put_if_none_match put = Some "*" -> cur = None).

(** The bucket [put] writes to after it landed with ETag [tag]. *)
Definition put_result (put : PutObjectInput) (body : list byte) (tag : string)
    (objs : gmap string Object) : gmap string Object :=
  <[put_key put := {| o_body := body; o_e_tag := tag; o_metadata := put_metadata put |}]> objs.

Class ObjectApiLaws (S : Type) `{ObjectApi S} := {
  (** The objects of a bucket. *)
  objects : S -> string -> gmap string Object;
  (** What other clients may do between two requests. *)
  env : S -> S -> Prop;

  put_ok : forall s put body s' out,
    put_object s put body = (s', Ok out) ->
    exists s1 tag, env s s1 /\ put_allowed put (objects s1 (put_bucket put) !! put_key put) /\
      objects s' (put_bucket put) = put_result put body tag (objects s1 (put_bucket put));
  (** A refused write had its precondition violated; any other failed write
      may have landed. *)
  put_err : forall s put body s' e,
    put_object s put body = (s', Err e) ->
    exists s1, env s s1 /\
      ((is_precondition_failed e = true ->
          ~ put_allowed put (objects s1 (put_bucket put) !! put_key put)) /\
       objects s' (put_bucket put) = objects s1 (put_bucket put) \/
       is_precondition_failed e = false /\
       put_allowed put (objects s1 (put_bucket put) !! put_key put) /\
       exists tag, objects s' (put_bucket put) =
                   put_result put body tag (objects s1 (put_bucket put)));
  get_ok : forall s b k s' out,
    get_object s b k = (s', Ok out) ->
    env s s' /\ exists o, objects s' b !! k = Some o /\
      (forall bytes, get_body out = Ok bytes -> bytes = o_body o) /\
      (forall tag, get_e_tag out = Some tag -> tag = o_e_tag o);
  get_err : forall s b k s' e, get_object s b k = (s', Err e) ->
    env s s' /\ (is_not_found e = true -> objects s' b !! k = None);
  head_ok : forall s b k s' out,
    head_object s b k = (s', Ok out) ->
    env s s' /\ exists o, objects s' b !! k = Some o /\
      head_e_tag out = Some (o_e_tag o) /\ head_metadata out = o_metadata o;
  head_err : forall s b k s' e,
    head_object s b k = (s', Err e) ->
    env s s' /\ (is_not_found e = true -> objects s' b !! k = None);
  list_ok : forall s b prefix s' keys,
    list_keys s b prefix = (s', Ok keys) ->
    env s s' /\ StronglySorted String.le keys /\ NoDup keys /\
    forall k, k ∈ keys <-> String.prefix prefix k = true /\ is_Some (objects s' b !! k);
  list_err : forall s b prefix s' e, list_keys s b prefix = (s', Err e) -> env s s';
  delete_ok : forall s b k s',
    delete_object s b k = (s', Ok tt) ->
    exists s1, env s s1 /\ objects s' b = delete k (objects s1 b);
  delete_err : forall s b k s' e,
    delete_object s b k = (s', Err e) ->
    exists s1, env s s1 /\ (objects s' b = objects s1 b \/
                            objects s' b = delete k (objects s1 b));
}.

(** ** The probe for conditional writes (condprobe.rs) *)

Definition MISMATCHED_ETAG : string :=
  String (Ascii.ascii_of_nat 34) ("forklift-conditional-write-probe" +:+ String (Ascii.ascii_of_nat 34) EmptyString).

Inductive ConditionalWrites : Type :=
| Enforced
| Ignored (reason : string).

Definition is_enforced (c : ConditionalWrites) : bool :=
  match c with Enforced => true | Ignored _ => false end.

Section Probe.
Context {S : Type} `{ObjectApi S}.

Definition probe_bytes : list byte := String.list_byte_of_string "probe".

Definition probe_put (bucket key : string) (if_match if_none_match : option string)
  : PutObjectInput :=
  {| put_bucket := bucket; put_key := key; put_body := PutBytes probe_bytes;
     put_content_length := 5; put_metadata := [];
     put_if_match := if_match; put_if_none_match := if_none_match |}.

Definition run_probe (s : S) (bucket key : string)
  : S * result SyncError ConditionalWrites :=
  let '(s, r) := put_object s (probe_put bucket key None (Some "*")) probe_bytes in
  match r with
  | Err e => (s, Err (Context "conditional write probe: create" e))
  | Ok _ =>
      let '(s, r) := put_object s (probe_put bucket key None (Some "*")) probe_bytes in
      match r with
      | Ok _ => (s, Ok (Ignored "If-None-Match: * overwrote an existing object"))
      | Err (PreconditionFailed _) =>
          let '(s, r) :=
            put_object s (probe_put bucket key (Some MISMATCHED_ETAG) None) probe_bytes in
          match r with
          | Err (PreconditionFailed _) => (s, Ok Enforced)
          | Ok _ => (s, Ok (Ignored "If-Match with a stale ETag overwrote the object"))
          | Err e => (s, Err (Context "conditional write probe: If-Match" e))
          end
      | Err e => (s, Err (Context "conditional write probe: If-None-Match" e))
      end
  end.

Definition probe_conditional_writes (s : S) (bucket key : string)
  : S * result SyncError ConditionalWrites :=
  let '(s, res) := run_probe s bucket key in
  let '(s, _) := delete_object s bucket key in
  (s, res).
End Probe.
