(* ===== verification/MemStore.v ===== *)
(** * An in-memory object store

    A concrete store that satisfies [ObjectApiLaws]: buckets as finite maps, a
    fresh ETag per write, and a script of faults, where a failed write may or
    may not have landed.  It shows that the laws can hold together and lets
    the code be run on concrete inputs.  The second half is the correctness of
    the conditional-write probe against any store that satisfies the laws. *)

From stdpp Require Import prelude list strings pretty gmap sorting.
From Stdlib Require Import ZArith Lia.
From S2P Require Import Prelude Bytes ObjectApi.

(** ** Definitions *)

(** One request's fate: served, or an error before or after it took effect. *)
Inductive fault : Type :=
| Served
| Failed (landed : bool).

Record MemStore := mkMem {
  ms_buckets : gmap string (gmap string Object);
  ms_writes : Z;
  ms_script : list fault;
}.

Definition mem_bucket (s : MemStore) (b : string) : gmap string Object :=
  default ∅ (ms_buckets s !! b).

Definition mem_update (s : MemStore) (b : string) (objs : gmap string Object) : MemStore :=
  mkMem (<[b := objs]> (ms_buckets s)) (ms_writes s + 1) (ms_script s).

Definition mem_step (s : MemStore) : MemStore * fault :=
  match ms_script s with
  | f :: script => (mkMem (ms_buckets s) (ms_writes s) script, f)
  | [] => (s, Served)
  end.

Definition mem_unavailable : SyncError := Unavailable "connection reset".

Definition mem_allowed (put : PutObjectInput) (cur : option Object) : bool :=
  match put_if_match put with
  | Some tag => match cur with Some o => String.eqb (o_e_tag o) tag | None => false end
  | None => true
  end &&
  match put_if_none_match put with
  | Some x => negb (String.eqb x "*") || negb (is_some cur)
  | None => true
  end.

Definition mem_tag (s : MemStore) : string := "v" +:+ pretty (ms_writes s).

Definition mem_put (s : MemStore) (put : PutObjectInput) (body : list byte)
  : MemStore * result SyncError PutObjectOutput :=
  let '(s, f) := mem_step s in
  let objs := mem_bucket s (put_bucket put) in
  match f with
  | Failed false => (s, Err mem_unavailable)
  | _ =>
      if mem_allowed put (objs !! put_key put) then
        let s' := mem_update s (put_bucket put) (put_result put body (mem_tag s) objs) in
        match f with
        | Served => (s', Ok {| put_e_tag := Some (mem_tag s) |})
        | Failed _ => (s', Err mem_unavailable)
        end
      else (s, Err (PreconditionFailed "412"))
  end.

Definition mem_get (s : MemStore) (b k : string) : MemStore * result SyncError GetObjectOutput :=
  let '(s, f) := mem_step s in
  match f, mem_bucket s b !! k with
  | Failed _, _ => (s, Err mem_unavailable)
  | Served, Some o => (s, Ok {| get_body := Ok (o_body o);
                                get_content_length := Some (zlen (o_body o));
                                get_e_tag := Some (o_e_tag o) |})
  | Served, None => (s, Err NotFound)
  end.

Definition mem_head (s : MemStore) (b k : string) : MemStore * result SyncError HeadObjectOutput :=
  let '(s, f) := mem_step s in
  match f, mem_bucket s b !! k with
  | Failed _, _ => (s, Err mem_unavailable)
  | Served, Some o => (s, Ok {| head_e_tag := Some (o_e_tag o);
                                head_metadata := o_metadata o;
                                head_content_length := Some (zlen (o_body o)) |})
  | Served, None => (s, Err NotFound)
  end.

Definition mem_delete (s : MemStore) (b k : string) : MemStore * result SyncError unit :=
  let '(s, f) := mem_step s in
  match f with
  | Failed false => (s, Err mem_unavailable)
  | Failed true => (mem_update s b (delete k (mem_bucket s b)), Err mem_unavailable)
  | Served => (mem_update s b (delete k (mem_bucket s b)), Ok tt)
  end.

Definition mem_list (s : MemStore) (b prefix : string) : MemStore * result SyncError (list string) :=
  let '(s, f) := mem_step s in
  match f with
  | Failed _ => (s, Err mem_unavailable)
  | Served =>
      (s, Ok (merge_sort String.le
                (filter (fun k => String.prefix prefix k = true)
                   (map fst (map_to_list (mem_bucket s b))))))
  end.

#[export] Instance mem_api : ObjectApi MemStore := {|
  put_object := mem_put;
  get_object := mem_get;
  head_object := mem_head;
  delete_object := mem_delete;
  list_keys := mem_list;
|}.

(** Nobody else uses the store. *)
Definition mem_env (s s' : MemStore) : Prop := ms_buckets s' = ms_buckets s.

(** ** Lemmas *)

Lemma mem_allowed_spec put cur : mem_allowed put cur = true <-> put_allowed put cur.
Proof.
  unfold mem_allowed, put_allowed. rewrite andb_true_iff. f_equiv.
  - destruct (put_if_match put) as [tag|]; [|naive_solver].
    destruct cur as [o|]; [rewrite String.eqb_eq|]; split.
    + intros <- t [= <-]. eauto.
    + intros Hx. destruct (Hx tag eq_refl) as (o' & [= ->] & E). done.
    + done.
    + intros Hx. by destruct (Hx tag eq_refl) as (o' & ? & ?).
  - destruct (put_if_none_match put) as [x|]; [|naive_solver].
    destruct (String.eqb_spec x "*") as [->|Hne]; cbn.
    + destruct cur; cbn; naive_solver.
    + naive_solver.
Qed.

Lemma mem_step_buckets s s' f : mem_step s = (s', f) -> ms_buckets s' = ms_buckets s.
Proof. unfold mem_step. destruct (ms_script s); by intros [= <- _]. Qed.

Lemma mem_bucket_update s b objs : mem_bucket (mem_update s b objs) b = objs.
Proof. unfold mem_bucket, mem_update. cbn. by rewrite lookup_insert_eq. Qed.

Lemma mem_bucket_eq s s' b : ms_buckets s' = ms_buckets s -> mem_bucket s' b = mem_bucket s b.
Proof. unfold mem_bucket. by intros ->. Qed.

Lemma mem_list_spec s b prefix s' keys :
  mem_list s b prefix = (s', Ok keys) ->
  StronglySorted String.le keys /\ NoDup keys /\
  forall k, k ∈ keys <-> String.prefix prefix k = true /\ is_Some (mem_bucket s' b !! k).
Proof.
  unfold mem_list. destruct (mem_step s) as [s1 []]; [|done]. intros [= -> <-].
  set (l := filter _ _). pose proof (merge_sort_Permutation String.le l) as Hp.
  split; [apply (StronglySorted_merge_sort String.le)|].
  assert (Hin : forall k, k ∈ l <-> String.prefix prefix k = true /\
                                     is_Some (mem_bucket s' b !! k)).
  { intros k. unfold l. rewrite list_elem_of_filter. f_equiv.
    rewrite list_elem_of_fmap. split.
    - intros ((k' & o) & -> & Hk%elem_of_map_to_list). by exists o.
    - intros [o Ho]. exists (k, o). split; [done|]. by apply elem_of_map_to_list. }
  split.
  - rewrite Hp. apply NoDup_filter, NoDup_fst_map_to_list.
  - intros k. by rewrite Hp.
Qed.

#[export] Program Instance mem_laws : ObjectApiLaws MemStore := {|
  objects := mem_bucket;
  env := mem_env;
|}.
Next Obligation.
  intros s put body s' out. cbn. unfold mem_put.
  destruct (mem_step s) as [s1 f] eqn:E. apply mem_step_buckets in E.
  destruct f as [|[]]; [| |done];
    (destruct (mem_allowed _ _) eqn:Ea; [|done]); [|done].
  intros [= <- <-]. exists s1, (mem_tag s1). split_and!; [done|by apply mem_allowed_spec|].
  apply mem_bucket_update.
Qed.
Next Obligation.
  intros s put body s' e. cbn. unfold mem_put.
  destruct (mem_step s) as [s1 f] eqn:E. apply mem_step_buckets in E.
  destruct f as [|[]];
    [destruct (mem_allowed _ _) eqn:Ea; [done|]
    |destruct (mem_allowed _ _) eqn:Ea|]; intros [= <- <-]; exists s1; (split; [done|]).
  - left. split; [|done]. intros _ Ha%mem_allowed_spec. congruence.
  - right. split_and!; [done|by apply mem_allowed_spec|].
    exists (mem_tag s1). apply mem_bucket_update.
  - left. split; [|done]. intros _ Ha%mem_allowed_spec. congruence.
  - left. by split.
Qed.
Next Obligation.
  intros s b k s' out. cbn. unfold mem_get.
  destruct (mem_step s) as [s1 f] eqn:E. apply mem_step_buckets in E.
  destruct f; [|done]. destruct (mem_bucket s1 b !! k) as [o|] eqn:Eo; [|done].
  intros [= <- <-]. split; [done|]. exists o. split_and!; [done|by intros ? [= <-]..].
Qed.
Next Obligation.
  intros s b k s' e. cbn. unfold mem_get.
  destruct (mem_step s) as [s1 f] eqn:E. apply mem_step_buckets in E.
  destruct f; [|by intros [= <- <-]].
  destruct (mem_bucket s1 b !! k) as [o|] eqn:Eo; [done|]. by intros [= <- <-].
Qed.
Next Obligation.
  intros s b k s' out. cbn. unfold mem_head.
  destruct (mem_step s) as [s1 f] eqn:E. apply mem_step_buckets in E.
  destruct f; [|done]. destruct (mem_bucket s1 b !! k) as [o|] eqn:Eo; [|done].
  intros [= <- <-]. split; [done|]. by exists o.
Qed.
Next Obligation.
  intros s b k s' e. cbn. unfold mem_head.
  destruct (mem_step s) as [s1 f] eqn:E. apply mem_step_buckets in E.
  destruct f; [|by intros [= <- <-]].
  destruct (mem_bucket s1 b !! k) as [o|] eqn:Eo; [done|]. by intros [= <- <-].
Qed.
Next Obligation.
  intros s b prefix s' keys. cbn. intros E. pose proof (mem_list_spec _ _ _ _ _ E) as Hl.
  split; [|done]. revert E. unfold mem_list. destruct (mem_step s) as [s1 f] eqn:E.
  apply mem_step_buckets in E. destruct f; [|done]. by intros [= <- _].
Qed.
Next Obligation.
  intros s b prefix s' e. cbn. unfold mem_list.
  destruct (mem_step s) as [s1 f] eqn:E. apply mem_step_buckets in E.
  destruct f; [done|]. by intros [= <- _].
Qed.
Next Obligation.
  intros s b k s'. cbn. unfold mem_delete.
  destruct (mem_step s) as [s1 f] eqn:E. apply mem_step_buckets in E.
  destruct f as [|[]]; [|done..]. intros [= <-]. exists s1. split; [done|].
  apply mem_bucket_update.
Qed.
Next Obligation.
  intros s b k s' e. cbn. unfold mem_delete.
  destruct (mem_step s) as [s1 f] eqn:E. apply mem_step_buckets in E.
  destruct f as [|[]]; [done|..]; intros [= <- _]; exists s1; (split; [done|]).
  - right. apply mem_bucket_update.
  - by left.
Qed.

(** ** The probe *)

Section ProbeCorrect.
Context {S : Type} `{ObjectApiLaws S}.
Context (bucket key : string).
(** Nobody else uses the probe key, and the store never mints the probe's
    made-up ETag. *)
Context (Hquiet : forall s s' : S, env s s' -> objects s' bucket !! key = objects s bucket !! key).
Context (Hmint : forall (s : S) put body s' out o,
  put_object s put body = (s', Ok out) ->
  objects s' (put_bucket put) !! put_key put = Some o -> o_e_tag o <> MISMATCHED_ETAG).

(** The key holds an object with an ETag of the store's own. *)
Definition probe_stored (s : S) : Prop :=
  exists o, objects s bucket !! key = Some o /\ o_e_tag o <> MISMATCHED_ETAG.

Lemma probe_put_lands s im inm s' out :
  put_object s (probe_put bucket key im inm) probe_bytes = (s', Ok out) -> probe_stored s'.
Proof.
  intros E. pose proof E as (s1 & tag & _ & _ & Eo)%put_ok. cbn in Eo.
  unfold put_result in Eo. cbn in Eo.
  eexists. split; [rewrite Eo; apply lookup_insert_eq|].
  eapply Hmint; [exact E|]. cbn. rewrite Eo. apply lookup_insert_eq.
Qed.

(** A write whose condition does not hold never succeeds and changes nothing. *)
Lemma probe_put_refused s im inm s' r :
  probe_stored s ->
  (forall o, o_e_tag o <> MISMATCHED_ETAG ->
     ~ put_allowed (probe_put bucket key im inm) (Some o)) ->
  put_object s (probe_put bucket key im inm) probe_bytes = (s', r) ->
  (exists e, r = Err e) /\ probe_stored s'.
Proof.
  intros (o & Ho & Ht) Hna E. specialize (Hna o Ht).
  assert (Hno : forall s1, env s s1 -> objects s1 bucket !! key = Some o).
  { intros s1 He. by rewrite (Hquiet _ _ He). }
  destruct r as [out|e].
  - apply put_ok in E as (s1 & tag & He & Ha & _). cbn in Ha. by rewrite (Hno _ He) in Ha.
  - split; [by eexists|].
    apply put_err in E as (s1 & He & [[_ Eo]|(_ & Ha & _)]); cbn in *;
      specialize (Hno _ He); [|by rewrite Hno in Ha].
    exists o. by rewrite Eo.
Qed.

(** On a store that honours conditional writes the probe never reports
    that they are ignored: it reports that they are enforced, or the error
    that kept it from finding out. *)
Theorem probe_law_abiding s s' c :
  probe_conditional_writes s bucket key = (s', Ok c) -> c = Enforced.
Proof.
  unfold probe_conditional_writes, run_probe.
  destruct (put_object s _ _) as [s1 [out1|e1]] eqn:E1;
    [|destruct (delete_object _ _ _); done].
  apply probe_put_lands in E1.
  destruct (put_object s1 _ _) as [s2 r2] eqn:E2.
  apply probe_put_refused in E2 as [[e2 ->] Hs2]; [|done|].
  2:{ intros o _ [_ Hn]. by specialize (Hn eq_refl). }
  destruct e2; try (destruct (delete_object _ _ _); done).
  destruct (put_object s2 _ _) as [s3 r3] eqn:E3.
  apply probe_put_refused in E3 as [[e3 ->] Hs3]; [|done|].
  2:{ intros o Ht [Hm _]. by destruct (Hm _ eq_refl) as (o' & [= ->] & Eo). }
  destruct e3; destruct (delete_object _ _ _); try done. by intros [= _ <-].
Qed.
End ProbeCorrect.

Definition empty_store : MemStore := mkMem ∅ 0 [].

Lemma mem_quiet b k (s s' : MemStore) : env s s' -> objects s' b !! k = objects s b !! k.
Proof. cbn. intros E. by rewrite (mem_bucket_eq _ _ _ E). Qed.

Lemma mem_mint s put body s' out o :
  mem_put s put body = (s', Ok out) ->
  mem_bucket s' (put_bucket put) !! put_key put = Some o ->
  exists n : Z, o_e_tag o = "v" +:+ pretty n.
Proof.
  unfold mem_put. destruct (mem_step s) as [s1 f].
  destruct f as [|[]]; [| |done]; (destruct (mem_allowed _ _); [|done]); [|done].
  intros [= <- _]. rewrite mem_bucket_update. unfold put_result. rewrite lookup_insert_eq.
  intros [= <-]. by eexists.
Qed.

Lemma probe_law_abiding_witness :
  exists s' c, probe_conditional_writes empty_store "bucket" "probe" = (s', Ok c) /\ c = Enforced.
Proof.
  eexists _, _. split; [vm_compute; reflexivity|].
  apply (probe_law_abiding "bucket" "probe" (mem_quiet "bucket" "probe")
           (fun s put body s' out o E Eo Et =>
              match mem_mint s put body s' out o E Eo with
              | ex_intro _ n En => ltac:(rewrite En in Et; discriminate Et)
              end) empty_store _ _ ltac:(vm_compute; reflexivity)).
Defined.
