(* ===== verification/Node.v ===== *)
(** * A forklift process (the state the metadata sync works on)

    One forklift process as the metadata sync sees it: the local files, the
    remote store, the SQLite connection pool, the clock and the source of
    generation ids, together with the state guarded by [sync_mu].  Effectful
    code is written in the state and error monad [M]: an error keeps the state
    changes made before it, as in the source.

    Local file operations may fail at any call: [n_io] is the schedule of
    their outcomes, and a failed write may leave any content behind.  SQLite is
    not part of the repository: [Sqlite] has the operations the sync calls,
    over an abstract pool state [Q]; other users of the write connection act
    before it is acquired. *)

From stdpp Require Import prelude list strings pretty gmap.
From Stdlib Require Import ZArith Lia.
From S2P Require Import Prelude Bytes WalFmt ObjectApi.

(** ** The local database *)

(** The files of a live SQLite database in WAL mode. *)
Record Database := mkDatabase {
  db_file : list byte;
  db_wal : option (list byte);
}.

Class Sqlite (Q : Type) := {
  (** Acquiring the write connection: what other holders of it committed in
      the meantime, and whether it was acquired ([Pool::run]). *)
  sqlite_acquire : Q -> Database -> Q * Database * result string unit;
  (** [Connection::busy_timeout], in milliseconds. *)
  sqlite_busy_timeout : Q -> Z -> Q * result string unit;
  (** [PRAGMA wal_checkpoint(TRUNCATE)]: the files after it and the busy flag.
      A failed or busy checkpoint may have copied some frames. *)
  sqlite_checkpoint : Q -> Database -> Q * Database * result string Z;
  (** [VACUUM INTO] on a read connection: the file it writes. *)
  sqlite_vacuum : Q -> Database -> Q * result string (list byte);
  (** Closing both pools, and opening them again, migrations included. *)
  sqlite_close : Q -> Q;
  sqlite_open : Q -> Database -> Q * Database * result string unit;
  (** Pinning a read connection, reading its [data_version], releasing it. *)
  sqlite_watch : Q -> Q * result string nat;
  sqlite_data_version : Q -> nat -> Q * result string Z;
  sqlite_unwatch : Q -> nat -> Q;
}.

(** ** The state guarded by [sync_mu] *)

(** Where a generation's base is: a local file to publish, or in the bucket. *)
Inductive Base : Type :=
| BaseLocal (path : string) (size raw : Z) (sha : string)
| BasePublished.

Record Generation := mkGeneration {
  g_id : string;
  g_next_seq : Z;
  g_next_frame : Z;
  g_base : Base;
  g_base_bytes : Z;
  g_segment_bytes : Z;
  g_segments : Z;
  g_broken : bool;
}.

Record Pending := mkPending {
  p_generation : string;
  p_seq : Z;
  p_bytes : list byte;
}.

Record Shipper := mkShipper {
  sh_generation : option Generation;
  sh_cursor : option Cursor;
  sh_known_end : option Cursor;
  sh_restart_ok : bool;
  sh_pending : list Pending;
  sh_pending_bytes : Z;
}.

Definition Shipper_default : Shipper := mkShipper None None None false [] 0.

(** A standby's copy of a generation. *)
Record Replica := mkReplica {
  r_generation : string;
  r_base_etag : option string;
  r_path : string;
  r_next_seq : Z;
  r_next_frame : Z;
  r_spool : list string;
}.

Record SyncState := mkSync {
  st_snapshot_path : option string;
  st_snapshot_etag : option string;
  st_watch : option nat;
  st_uploaded_version : Z;
  st_have_uploaded : bool;
  st_last_upload : option (Z * Z);
  st_ship : Shipper;
  st_replica : option Replica;
  st_last_standby : option Z;
}.

Definition SyncState_default : SyncState :=
  mkSync None None None 0 false None Shipper_default None None.

Inductive SyncMode : Type := ModeWal | ModeSnapshot.
Inductive Compression : Type := CompressionNone | CompressionZstd.

#[global] Instance SyncMode_eq_dec : EqDecision SyncMode.
Proof. solve_decision. Defined.

(** The immutable part of [MetaSync]. *)
Record Config := mkConfig {
  cfg_bucket : string;
  cfg_key : string;
  cfg_data_dir : string;
  cfg_interval : Z;
  cfg_compression : Compression;
  cfg_mode : SyncMode;
  cfg_manual_checkpoint : bool;
}.

(** What a file operation does: it succeeds, or fails leaving the file it
    writes untouched ([None]) or with some content. *)
Inductive io_outcome : Type :=
| IoDone
| IoFail (left : option (list byte)).

Record Node (S Q : Type) := mkNode {
  n_sync : SyncState;
  n_is_leader : bool;
  n_fence : Z;
  n_files : gmap string (list byte);
  n_database : Database;
  n_store : S;
  n_sqlite : Q;
  (** The outcomes of the next file operations; [IoDone] when it runs out. *)
  n_io : list io_outcome;
  (** Monotonic clock readings, wall clock millis and fresh nonces. *)
  n_now : Z;
  n_entropy : list (Z * string);
}.
Arguments mkNode {S Q}.
Arguments n_sync {S Q}. Arguments n_is_leader {S Q}. Arguments n_fence {S Q}.
Arguments n_files {S Q}. Arguments n_database {S Q}. Arguments n_store {S Q}.
Arguments n_sqlite {S Q}. Arguments n_io {S Q}. Arguments n_now {S Q}.
Arguments n_entropy {S Q}.

(** ** The monad *)

Definition M (S Q E A : Type) : Type := Node S Q -> Node S Q * result E A.

Section Monad.
Context {S Q : Type}.

Definition ret {E A} (a : A) : M S Q E A := fun n => (n, Ok a).
Definition raise {E A} (e : E) : M S Q E A := fun n => (n, Err e).

Definition bind {E A B} (m : M S Q E A) (k : A -> M S Q E B) : M S Q E B :=
  fun n => match m n with
           | (n, Ok a) => k a n
           | (n, Err e) => (n, Err e)
           end.

(** Observes the outcome of a computation: [match m.await { .. }]. *)
Definition attempt {E F A} (m : M S Q E A) : M S Q F (result E A) :=
  fun n => let '(n, r) := m n in (n, Ok r).

(** [m.await.map_err(f)?]. *)
Definition with_err {E F A} (f : E -> F) (m : M S Q E A) : M S Q F A :=
  fun n => let '(n, r) := m n in (n, map_err f r).

(** [r?] for a pure result. *)
Definition lift {E A} (r : result E A) : M S Q E A := fun n => (n, r).

Definition gets {E A} (f : Node S Q -> A) : M S Q E A := fun n => (n, Ok (f n)).
Definition modify {E} (f : Node S Q -> Node S Q) : M S Q E unit := fun n => (f n, Ok tt).
End Monad.

Declare Scope node_scope.
Delimit Scope node_scope with node.
Notation "'let!' x := m 'in' k" := (bind m (fun x => k))
  (at level 10, x pattern, m at level 100, k at level 200,
   format "'[v' 'let!'  x  :=  m  'in' '/' k ']'") : node_scope.
Notation "m ;; k" := (bind m (fun _ => k))
  (at level 100, k at level 200, right associativity) : node_scope.
#[global] Open Scope node_scope.

(** ** State updates *)

Section Updates.
Context {S Q : Type}.
Implicit Types n : Node S Q.

Definition set_sync (st : SyncState) n : Node S Q :=
  mkNode st (n_is_leader n) (n_fence n) (n_files n) (n_database n) (n_store n)
    (n_sqlite n) (n_io n) (n_now n) (n_entropy n).
Definition set_leader (b : bool) n : Node S Q :=
  mkNode (n_sync n) b (n_fence n) (n_files n) (n_database n) (n_store n)
    (n_sqlite n) (n_io n) (n_now n) (n_entropy n).
Definition set_fence (f : Z) n : Node S Q :=
  mkNode (n_sync n) (n_is_leader n) f (n_files n) (n_database n) (n_store n)
    (n_sqlite n) (n_io n) (n_now n) (n_entropy n).
Definition set_files (fs : gmap string (list byte)) n : Node S Q :=
  mkNode (n_sync n) (n_is_leader n) (n_fence n) fs (n_database n) (n_store n)
    (n_sqlite n) (n_io n) (n_now n) (n_entropy n).
Definition set_database (d : Database) n : Node S Q :=
  mkNode (n_sync n) (n_is_leader n) (n_fence n) (n_files n) d (n_store n)
    (n_sqlite n) (n_io n) (n_now n) (n_entropy n).
Definition set_store (s : S) n : Node S Q :=
  mkNode (n_sync n) (n_is_leader n) (n_fence n) (n_files n) (n_database n) s
    (n_sqlite n) (n_io n) (n_now n) (n_entropy n).
Definition set_sqlite (q : Q) n : Node S Q :=
  mkNode (n_sync n) (n_is_leader n) (n_fence n) (n_files n) (n_database n) (n_store n)
    q (n_io n) (n_now n) (n_entropy n).
Definition set_io (io : list io_outcome) n : Node S Q :=
  mkNode (n_sync n) (n_is_leader n) (n_fence n) (n_files n) (n_database n) (n_store n)
    (n_sqlite n) io (n_now n) (n_entropy n).
Definition set_entropy (e : list (Z * string)) n : Node S Q :=
  mkNode (n_sync n) (n_is_leader n) (n_fence n) (n_files n) (n_database n) (n_store n)
    (n_sqlite n) (n_io n) (n_now n) e.

Definition set_ship (sh : Shipper) (st : SyncState) : SyncState :=
  mkSync (st_snapshot_path st) (st_snapshot_etag st) (st_watch st) (st_uploaded_version st)
    (st_have_uploaded st) (st_last_upload st) sh (st_replica st) (st_last_standby st).
Definition set_replica (r : option Replica) (st : SyncState) : SyncState :=
  mkSync (st_snapshot_path st) (st_snapshot_etag st) (st_watch st) (st_uploaded_version st)
    (st_have_uploaded st) (st_last_upload st) (st_ship st) r (st_last_standby st).

Definition n_ship n : Shipper := st_ship (n_sync n).
Definition n_replica n : option Replica := st_replica (n_sync n).
Definition put_ship (sh : Shipper) n : Node S Q := set_sync (set_ship sh (n_sync n)) n.
Definition put_replica (r : option Replica) n : Node S Q :=
  set_sync (set_replica r (n_sync n)) n.
End Updates.

(** ** Files *)

Section Files.
Context {S Q : Type}.

(** Takes the scheduled outcome of the next file operation. *)
Definition io_next {E} : M S Q E io_outcome :=
  fun n => match n_io n with
           | o :: io => (set_io io n, Ok o)
           | [] => (n, Ok IoDone)
           end.

Definition io_error : string := "Input/output error".

(** A file operation that writes no file. *)
Definition io_step : M S Q string unit :=
  let! o := io_next in
  match o with IoDone => ret tt | IoFail _ => raise io_error end.

Definition file_not_found : string := "No such file or directory".

(** Reads a file whole ([fs::read], [File::open] and [read_to_end]). *)
Definition fs_read (path : string) : M S Q string (list byte) :=
  io_step ;;
  let! files := gets n_files in
  lift (match files !! path with Some b => Ok b | None => Err file_not_found end).

(** Creates or replaces a file ([fs::write], [File::create] and [write_all]). *)
Definition fs_write (path : string) (bytes : list byte) : M S Q string unit :=
  let! o := io_next in
  match o with
  | IoDone => modify (fun n => set_files (<[path := bytes]> (n_files n)) n)
  | IoFail (Some b) =>
      modify (fun n => set_files (<[path := b]> (n_files n)) n) ;; raise io_error
  | IoFail None => raise io_error
  end.

(** [fs::metadata(path)?.len()]. *)
Definition fs_len (path : string) : M S Q string Z :=
  let! b := fs_read path in ret (zlen b).

(** [fs::remove_file]. *)
Definition fs_remove (path : string) : M S Q string unit :=
  io_step ;;
  let! files := gets n_files in
  match files !! path with
  | Some _ => modify (fun n => set_files (delete path (n_files n)) n)
  | None => raise file_not_found
  end.

(** [fs::rename]. *)
Definition fs_rename (src dst : string) : M S Q string unit :=
  io_step ;;
  let! files := gets n_files in
  match files !! src with
  | Some b => modify (fun n => set_files (<[dst := b]> (delete src (n_files n))) n)
  | None => raise file_not_found
  end.

(** [fs::metadata(path).is_ok()]. *)
Definition fs_exists {E} (path : string) : M S Q E bool :=
  let! r := attempt (fs_read path) in ret (is_ok r).

(** [create_dir_all]: directories are implicit in paths. *)
Definition fs_create_dir_all (path : string) : M S Q string unit := io_step.

(** [let _ = remove_file(path)]: the outcome is ignored. *)
Definition fs_remove_quietly {E} (path : string) : M S Q E unit :=
  let! _ := attempt (fs_remove path) in ret tt.

Definition join (dir name : string) : string := dir +:+ "/" +:+ name.

(** [read_dir] entries of [dir] whose name starts with [prefix], removed best
    effort ([remove_with_prefix]); an unreadable directory is left alone. *)
Definition fs_remove_with_prefix {E} (dir prefix : string) : M S Q E unit :=
  let! r := attempt io_step in
  match r with
  | Err _ => ret tt
  | Ok _ =>
      let! files := gets n_files in
      foldr (fun path k => fs_remove_quietly path ;; k) (ret tt)
        (filter (fun path => String.prefix (join dir prefix) path = true)
           (map fst (map_to_list files)))
  end.

(** [remove_dir_all], its outcome ignored. *)
Definition fs_remove_dir_all {E} (dir : string) : M S Q E unit :=
  fs_remove_with_prefix dir "".
End Files.

(** ** Requests *)

Section Requests.
Context {S Q : Type} `{ObjectApi S}.

Definition api_get (bucket key : string) : M S Q SyncError GetObjectOutput :=
  fun n => let '(s, r) := get_object (n_store n) bucket key in (set_store s n, r).
Definition api_head (bucket key : string) : M S Q SyncError HeadObjectOutput :=
  fun n => let '(s, r) := head_object (n_store n) bucket key in (set_store s n, r).
Definition api_delete (bucket key : string) : M S Q SyncError unit :=
  fun n => let '(s, r) := delete_object (n_store n) bucket key in (set_store s n, r).
Definition api_list (bucket prefix : string) : M S Q SyncError (list string) :=
  fun n => let '(s, r) := list_keys (n_store n) bucket prefix in (set_store s n, r).

(** [S3Api::put_object]: a file body is opened first. *)
Definition api_put (put : PutObjectInput) : M S Q SyncError PutObjectOutput :=
  let! body := match put_body put with
               | PutFile path => with_err ObjectStore (fs_read path)
               | PutBytes bytes => ret bytes
               end in
  fun n => let '(s, r) := put_object (n_store n) put body in (set_store s n, r).
End Requests.

(** ** The database pools *)

Section Pools.
Context {S Q : Type} `{Sqlite Q}.

Definition sql_acquire : M S Q string unit :=
  fun n => let '(q, d, r) := sqlite_acquire (n_sqlite n) (n_database n) in
           (set_database d (set_sqlite q n), r).
Definition sql_busy_timeout (millis : Z) : M S Q string unit :=
  fun n => let '(q, r) := sqlite_busy_timeout (n_sqlite n) millis in (set_sqlite q n, r).
Definition sql_checkpoint : M S Q string Z :=
  fun n => let '(q, d, r) := sqlite_checkpoint (n_sqlite n) (n_database n) in
           (set_database d (set_sqlite q n), r).
Definition sql_vacuum : M S Q string (list byte) :=
  fun n => let '(q, r) := sqlite_vacuum (n_sqlite n) (n_database n) in (set_sqlite q n, r).
Definition sql_close {E} : M S Q E unit :=
  modify (fun n => set_sqlite (sqlite_close (n_sqlite n)) n).
Definition sql_open : M S Q string unit :=
  fun n => let '(q, d, r) := sqlite_open (n_sqlite n) (n_database n) in
           (set_database d (set_sqlite q n), r).
Definition sql_watch : M S Q string nat :=
  fun n => let '(q, r) := sqlite_watch (n_sqlite n) in (set_sqlite q n, r).
Definition sql_data_version (w : nat) : M S Q string Z :=
  fun n => let '(q, r) := sqlite_data_version (n_sqlite n) w in (set_sqlite q n, r).
Definition sql_unwatch {E} (w : nat) : M S Q E unit :=
  modify (fun n => set_sqlite (sqlite_unwatch (n_sqlite n) w) n).
End Pools.

(** ** Lemmas *)

Section MonadLemmas.
Context {S Q : Type}.

(** The outcomes of a sequence. *)
Lemma bind_ok {E A B} (m : M S Q E A) (k : A -> M S Q E B) n n' b :
  bind m k n = (n', Ok b) -> exists n1 a, m n = (n1, Ok a) /\ k a n1 = (n', Ok b).
Proof. unfold bind. destruct (m n) as [n1 [a|e]]; [eauto|done]. Qed.

Lemma bind_err {E A B} (m : M S Q E A) (k : A -> M S Q E B) n n' e :
  bind m k n = (n', Err e) ->
  m n = (n', Err e) \/ exists n1 a, m n = (n1, Ok a) /\ k a n1 = (n', Err e).
Proof. unfold bind. destruct (m n) as [n1 [a|e']]; [eauto|intros [= <- <-]; auto]. Qed.

(** A relation every step keeps is kept by the whole, whatever the outcome. *)
Definition keeps {E A} (R : Node S Q -> Node S Q -> Prop) (m : M S Q E A) : Prop :=
  forall n, R n (m n).1.

Section Keeps.
Context (R : Node S Q -> Node S Q -> Prop) `{!PreOrder R}.

Lemma keeps_ret {E A} (a : A) : keeps R (ret (E := E) a).
Proof. intros n. reflexivity. Qed.
Lemma keeps_raise {E A} (e : E) : keeps R (raise (A := A) e).
Proof. intros n. reflexivity. Qed.
Lemma keeps_lift {E A} (r : result E A) : keeps R (lift r).
Proof. intros n. reflexivity. Qed.
Lemma keeps_gets {E A} (f : Node S Q -> A) : keeps R (gets (E := E) f).
Proof. intros n. reflexivity. Qed.
Lemma keeps_bind {E A B} (m : M S Q E A) (k : A -> M S Q E B) :
  keeps R m -> (forall a, keeps R (k a)) -> keeps R (bind m k).
Proof.
  intros Hm Hk n. specialize (Hm n). unfold bind. destruct (m n) as [n1 [a|e]]; [|done].
  etransitivity; [exact Hm|apply Hk].
Qed.
Lemma keeps_attempt {E F A} (m : M S Q E A) : keeps R m -> keeps R (attempt (F := F) m).
Proof. intros Hm n. specialize (Hm n). unfold attempt. by destruct (m n). Qed.
Lemma keeps_with_err {E F A} (f : E -> F) (m : M S Q E A) : keeps R m -> keeps R (with_err f m).
Proof. intros Hm n. specialize (Hm n). unfold with_err. by destruct (m n). Qed.
Lemma keeps_foldr {E A} (f : A -> M S Q E unit -> M S Q E unit) m xs :
  keeps R m -> (forall x k, keeps R k -> keeps R (f x k)) -> keeps R (foldr f m xs).
Proof. intros Hm Hf. induction xs; cbn; auto. Qed.
End Keeps.
End MonadLemmas.

Create HintDb keeps.
#[export] Hint Resolve keeps_ret keeps_raise keeps_lift keeps_gets keeps_bind
  keeps_attempt keeps_with_err : keeps.

(** Splits a goal [keeps R m] along the structure of [m]. *)
Ltac keeps_step :=
  lazymatch goal with
  | |- forall _, _ => intros
  | |- keeps _ (bind _ _) => apply keeps_bind; [typeclasses eauto| |]
  | |- keeps _ (attempt _) => apply keeps_attempt
  | |- keeps _ (with_err _ _) => apply keeps_with_err
  | |- keeps _ (match ?x with _ => _ end) => destruct x
  | |- keeps _ (if ?x then _ else _) => destruct x
  | |- keeps _ (let '(_, _) := ?x in _) => destruct x
  end.
Ltac solve_keeps := repeat first [progress eauto 4 with keeps typeclass_instances | keeps_step].

(** What the file operations leave alone: everything but the files. *)
Definition same_but_files {S Q} (n n' : Node S Q) : Prop :=
  n' = set_io (n_io n') (set_files (n_files n') n).

#[export] Instance same_but_files_preorder {S Q} : PreOrder (@same_but_files S Q).
Proof.
  split; [by intros []|]. intros [] [] [] [= -> -> -> -> -> -> -> ->] [= -> -> -> -> -> -> -> ->].
  done.
Qed.

Section FilesLemmas.
Context {S Q : Type}.
Let R := @same_but_files S Q.

Lemma keeps_io_next {E} : keeps R (io_next (E := E)).
Proof. intros []. unfold io_next. cbn. by destruct n_io0. Qed.

Lemma keeps_set_files {E} f : keeps R (modify (E := E) (fun n => set_files (f n) n)).
Proof. by intros []. Qed.

Hint Resolve keeps_io_next keeps_set_files : keeps.

Lemma keeps_io_step : keeps R io_step.
Proof. unfold io_step. solve_keeps. Qed.
Hint Resolve keeps_io_step : keeps.
Lemma keeps_fs_read path : keeps R (fs_read path).
Proof. unfold fs_read. solve_keeps. Qed.
Hint Resolve keeps_fs_read : keeps.
Lemma keeps_fs_write path b : keeps R (fs_write path b).
Proof. unfold fs_write. solve_keeps. Qed.
Lemma keeps_fs_len path : keeps R (fs_len path).
Proof. unfold fs_len. solve_keeps. Qed.
Lemma keeps_fs_remove path : keeps R (fs_remove path).
Proof. unfold fs_remove. solve_keeps. Qed.
Hint Resolve keeps_fs_remove : keeps.
Lemma keeps_fs_rename src dst : keeps R (fs_rename src dst).
Proof. unfold fs_rename. solve_keeps. Qed.
Lemma keeps_fs_exists {E} path : keeps R (fs_exists (E := E) path).
Proof. unfold fs_exists. solve_keeps. Qed.
Lemma keeps_fs_create_dir_all path : keeps R (fs_create_dir_all path).
Proof. unfold fs_create_dir_all. solve_keeps. Qed.
Lemma keeps_fs_remove_quietly {E} path : keeps R (fs_remove_quietly (E := E) path).
Proof. unfold fs_remove_quietly. solve_keeps. Qed.
Hint Resolve keeps_fs_remove_quietly : keeps.
Lemma keeps_fs_remove_with_prefix {E} dir prefix :
  keeps R (fs_remove_with_prefix (E := E) dir prefix).
Proof.
  unfold fs_remove_with_prefix. solve_keeps.
  apply keeps_foldr; [apply keeps_ret; typeclasses eauto|]. solve_keeps.
Qed.
End FilesLemmas.

#[export] Hint Resolve keeps_io_next keeps_set_files keeps_io_step keeps_fs_read keeps_fs_write
  keeps_fs_len keeps_fs_remove keeps_fs_rename keeps_fs_exists keeps_fs_create_dir_all
  keeps_fs_remove_quietly keeps_fs_remove_with_prefix : keeps.
