(* ===== verification/SnapCodec.v ===== *)
(** * Encoding of the snapshot object (objstore/snapcodec.rs)

    The object in the bucket is a plain SQLite file or a zstd frame holding
    one.  Readers decide by the leading bytes.  [materialize] turns either into
    a plain file at its destination; whatever file operation fails on the way,
    the destination is either the complete new file or what it was before. *)

From stdpp Require Import prelude list strings pretty gmap.
From Stdlib Require Import ZArith Lia.
From S2P Require Import Prelude Bytes WalFmt Instances ObjectApi Node.

#[local] Arguments String.append : simpl nomatch.

(** ** Definitions *)

Definition ZSTD_MAGIC : list byte := [Byte.x28; Byte.xb5; Byte.x2f; Byte.xfd].
Definition ZSTD_LEVEL : Z := 3.

Definition Compression_parse (s : string) : option Compression :=
  if decide (s = "" \/ s = "none") then Some CompressionNone
  else if decide (s = "zstd") then Some CompressionZstd
  else None.

Definition Compression_as_str (c : Compression) : string :=
  match c with CompressionNone => "none" | CompressionZstd => "zstd" end.

Definition sibling (path suffix : string) : string := path +:+ suffix.

(** [hex::encode]. *)
Definition hex_digit (n : N) : Ascii.ascii :=
  Ascii.ascii_of_N (if (n <? 10)%N then 48 + n else 87 + n)%N.
Fixpoint hex_encode (b : list byte) : string :=
  match b with
  | [] => ""
  | x :: b => String (hex_digit (Byte.to_N x / 16)) (String (hex_digit (Byte.to_N x mod 16))
                (hex_encode b))
  end.

(** Whether the content starts with a zstd frame. *)
Definition zstd_content (b : list byte) : bool :=
  (4 <=? zlen b) && bool_decide (slice b 0 4 = ZSTD_MAGIC).

Section SnapCodec.
Context {S Q : Type} `{Codec}.

Definition is_zstd (path : string) : M S Q string bool :=
  let! b := fs_read path in ret (zstd_content b).

Definition compress (src dst : string) : M S Q string Z :=
  let! input := fs_read src in
  fs_write dst [] ;;
  let! packed := lift (zstd_compress ZSTD_LEVEL input) in
  fs_write dst packed ;;
  io_step ;;
  fs_len dst.

Definition decompress (src dst : string) : M S Q string unit :=
  let! input := fs_read src in
  fs_write dst [] ;;
  let! plain := lift (zstd_decode input) in
  fs_write dst plain ;;
  io_step.

Definition materialize (raw dst : string) : M S Q string unit :=
  let! z := is_zstd raw in
  if negb z then fs_rename raw dst else
  let tmp := sibling dst ".decoded" in
  let! res := attempt (decompress raw tmp ;; fs_rename tmp dst) in
  (match res with Err _ => fs_remove_quietly tmp | Ok _ => ret tt end) ;;
  fs_remove_quietly raw ;;
  lift res.

(** [sha256_file] of walship.rs. *)
Definition sha256_file (path : string) : M S Q string string :=
  let! b := fs_read path in ret (hex_encode (sha256 b)).
End SnapCodec.

(** ** Specification *)

(** The plain database an object holds. *)
Definition plain_content `{Codec} (b : list byte) : option (list byte) :=
  if zstd_content b then match zstd_decode b with Ok p => Some p | Err _ => None end
  else Some b.

(** A step that leaves the file at [p] alone. *)
Definition untouched {S Q} (p : string) (n n' : Node S Q) : Prop :=
  n_files n' !! p = n_files n !! p.

#[export] Instance untouched_preorder {S Q} p : PreOrder (@untouched S Q p).
Proof. split; [by intros n|]. unfold untouched. intros ? ? ? ? ?. congruence. Qed.

(** ** Lemmas *)

Section Untouched.
Context {S Q : Type} (p : string).
Let R := @untouched S Q p.

Lemma untouched_io_next {E} : keeps R (io_next (E := E)).
Proof. intros []. unfold io_next. cbn. by destruct n_io. Qed.

Lemma untouched_insert {E} path b :
  path <> p -> keeps R (modify (E := E) (fun n => set_files (<[path := b]> (n_files n)) n)).
Proof. intros Hne []. unfold R, untouched. cbn. by apply lookup_insert_ne. Qed.

Lemma untouched_delete {E} path :
  path <> p -> keeps R (modify (E := E) (fun n => set_files (delete path (n_files n)) n)).
Proof. intros Hne []. unfold R, untouched. cbn. by apply lookup_delete_ne. Qed.

Lemma untouched_move {E} src dst b :
  src <> p -> dst <> p ->
  keeps R (modify (E := E) (fun n => set_files (<[dst := b]> (delete src (n_files n))) n)).
Proof.
  intros H1 H2 []. unfold R, untouched. cbn.
  by rewrite lookup_insert_ne, lookup_delete_ne by done.
Qed.

Hint Resolve untouched_io_next untouched_insert untouched_delete untouched_move : keeps.

Lemma untouched_io_step : keeps R io_step.
Proof. unfold io_step. solve_keeps. Qed.
Hint Resolve untouched_io_step : keeps.
Lemma untouched_fs_read path : keeps R (fs_read path).
Proof. unfold fs_read. solve_keeps. Qed.
Hint Resolve untouched_fs_read : keeps.
Lemma untouched_fs_len path : keeps R (fs_len path).
Proof. unfold fs_len. solve_keeps. Qed.
Lemma untouched_fs_write path b : path <> p -> keeps R (fs_write path b).
Proof. intros. unfold fs_write. solve_keeps. Qed.
Lemma untouched_fs_remove path : path <> p -> keeps R (fs_remove path).
Proof. intros. unfold fs_remove. solve_keeps. Qed.
Hint Resolve untouched_fs_remove untouched_fs_write untouched_fs_len : keeps.
Lemma untouched_fs_remove_quietly {E} path : path <> p -> keeps R (fs_remove_quietly (E := E) path).
Proof. intros. unfold fs_remove_quietly. solve_keeps. Qed.
Lemma untouched_decompress `{Codec} src dst : dst <> p -> keeps R (decompress src dst).
Proof. intros. unfold decompress. solve_keeps. Qed.
End Untouched.

#[export] Hint Resolve untouched_io_next untouched_insert untouched_delete untouched_move
  untouched_io_step untouched_fs_read untouched_fs_len untouched_fs_write untouched_fs_remove
  untouched_fs_remove_quietly untouched_decompress : keeps.

(** What the file operations do when they succeed. *)
Section Outcomes.
Context {S Q : Type}.
Implicit Types n : Node S Q.

Lemma io_next_files {E} n n' r : io_next (E := E) n = (n', r) -> n_files n' = n_files n.
Proof. unfold io_next. destruct (n_io n); by intros [= <- _]. Qed.

Lemma io_step_files n n' r : io_step n = (n', r) -> n_files n' = n_files n.
Proof.
  unfold io_step, bind. destruct (io_next n) as [n1 [o|e]] eqn:E;
    apply io_next_files in E; [|by intros [= <- _]].
  destruct o; by intros [= <- _].
Qed.

Lemma fs_read_spec n n' path r :
  fs_read path n = (n', r) ->
  n_files n' = n_files n /\ (forall b, r = Ok b -> n_files n !! path = Some b).
Proof.
  unfold fs_read, bind at 1. destruct (io_step n) as [n1 [[]|e]] eqn:E;
    apply io_step_files in E; [|by intros [= <- <-]].
  unfold bind, gets, lift. intros [= <- <-]. split; [done|]. rewrite E.
  intros b Hb. destruct (n_files n !! path); congruence.
Qed.

Lemma fs_write_ok n n' path b :
  fs_write path b n = (n', Ok tt) -> n_files n' = <[path := b]> (n_files n).
Proof.
  unfold fs_write, bind at 1. destruct (io_next n) as [n1 [o|e]] eqn:E; [|done].
  apply io_next_files in E. destruct o as [|[|]]; [|done..].
  intros [= <-]. cbn. by rewrite E.
Qed.

Lemma fs_rename_spec n n' src dst r :
  fs_rename src dst n = (n', r) ->
  (exists e, r = Err e /\ n_files n' = n_files n) \/
  (exists b, r = Ok tt /\ n_files n !! src = Some b /\
             n_files n' = <[dst := b]> (delete src (n_files n))).
Proof.
  unfold fs_rename, bind at 1. destruct (io_step n) as [n1 [[]|e]] eqn:E;
    apply io_step_files in E; [|intros [= <- <-]; eauto].
  unfold bind, gets, modify, raise. rewrite E.
  destruct (n_files n !! src) as [b|] eqn:Eb; intros [= <- <-]; [right; exists b|left; eauto].
  by rewrite E.
Qed.
End Outcomes.

Lemma str_app_ne (a b : string) : b <> "" -> a +:+ b <> a.
Proof. intros Hb. induction a as [|c a IH]; cbn; [done|congruence]. Qed.

Lemma fs_remove_quietly_ok {S Q E} path (n n' : Node S Q) (r : result E unit) :
  fs_remove_quietly path n = (n', r) -> r = Ok tt.
Proof.
  unfold fs_remove_quietly, attempt, bind. destruct (fs_remove path n). by intros [= _ <-].
Qed.

Lemma fs_remove_quietly_bind {S Q E A} path (k : unit -> M S Q E A) n :
  bind (fs_remove_quietly path) k n = k tt (fs_remove_quietly (E := E) path n).1.
Proof.
  unfold bind. destruct (fs_remove_quietly path n) as [n1 r] eqn:Er.
  by rewrite (fs_remove_quietly_ok _ _ _ _ Er).
Qed.

Lemma fs_remove_with_prefix_ok {S Q E} dir prefix (n n' : Node S Q) (r : result E unit) :
  fs_remove_with_prefix dir prefix n = (n', r) -> r = Ok tt.
Proof.
  unfold fs_remove_with_prefix, bind at 1, attempt. destruct (io_step n) as [n1 [[]|e]].
  - unfold bind, gets. generalize (filter (fun path => String.prefix (join dir prefix) path = true)
                                     (map fst (map_to_list (n_files n1)))). intros paths.
    revert n1. induction paths as [|q paths IH]; intros n1; cbn; [by intros [= _ <-]|].
    fold (@fs_remove_quietly S Q E q).
    change (bind (fs_remove_quietly q)
              (fun _ => foldr (fun path k => bind (fs_remove_quietly path) (fun _ => k)) (ret tt) paths)
              n1 = (n', r) -> r = Ok tt).
    rewrite fs_remove_quietly_bind. apply IH.
  - by intros [= _ <-].
Qed.

Section Materialize.
Context {S Q : Type} `{Codec}.
Implicit Types n : Node S Q.

Lemma decompress_ok n n' src dst :
  decompress src dst n = (n', Ok tt) ->
  exists b p, n_files n !! src = Some b /\ zstd_decode b = Ok p /\ n_files n' !! dst = Some p.
Proof.
  unfold decompress. intros (n1 & b & E1 & E)%bind_ok.
  apply fs_read_spec in E1 as [_ Hb].
  apply bind_ok in E as (n2 & [] & _ & E). apply bind_ok in E as (n3 & p & E3 & E).
  apply bind_ok in E as (n4 & [] & E4 & E).
  apply fs_write_ok in E4. apply io_step_files in E. exists b, p.
  split; [by apply Hb|]. split; [by injection E3|].
  by rewrite E, E4, lookup_insert_eq.
Qed.

Lemma run_keeps {E A} (R : Node S Q -> Node S Q -> Prop) (m : M S Q E A) n n' r :
  m n = (n', r) -> keeps R m -> R n n'.
Proof. intros Hm Hk. specialize (Hk n). by rewrite Hm in Hk. Qed.

Lemma decode_step_atomic n n' raw dst r :
  raw <> dst -> sibling dst ".decoded" <> dst ->
  bind (decompress raw (sibling dst ".decoded"))
    (fun _ => fs_rename (sibling dst ".decoded") dst) n = (n', r) ->
  match r with
  | Ok _ => exists b p, n_files n !! raw = Some b /\ zstd_decode b = Ok p /\
                        n_files n' !! dst = Some p
  | Err _ => untouched dst n n'
  end.
Proof.
  intros Hrd Ht. set (tmp := sibling dst ".decoded") in *. unfold bind.
  destruct (decompress raw tmp n) as [n1 [[]|e]] eqn:E1.
  - pose proof (run_keeps (untouched dst) _ _ _ _ E1 ltac:(auto with keeps)) as Hu.
    apply decompress_ok in E1 as (b & p & Hb & Hp & Hd).
    intros E2. apply fs_rename_spec in E2 as [(e & -> & Ef)|(b' & -> & Hb' & Ef)].
    + unfold untouched in *. congruence.
    + exists b, p. split; [done|]. split; [done|]. rewrite Ef, lookup_insert_eq. congruence.
  - intros [= <- <-]. by apply (run_keeps _ _ _ _ _ E1); auto with keeps.
Qed.

Lemma materialize_outcome n n' raw dst r :
  raw <> dst ->
  materialize raw dst n = (n', r) ->
  match r with
  | Ok _ => exists b, n_files n !! raw = Some b /\ n_files n' !! dst = plain_content b
                      /\ is_Some (plain_content b)
  | Err _ => n_files n' !! dst = n_files n !! dst
  end.
Proof.
  intros Hrd. unfold materialize, is_zstd.
  assert (Ht : sibling dst ".decoded" <> dst) by (by apply str_app_ne).
  destruct (fs_read raw n) as [n1 [b|e]] eqn:E1; unfold bind at 1 2; rewrite E1;
    apply fs_read_spec in E1 as [Hf1 Hb]; [|intros [= <- <-]; by rewrite Hf1].
  specialize (Hb b eq_refl). cbn [ret]. unfold plain_content.
  destruct (zstd_content b) eqn:Ez; cbn [negb].
  - unfold bind at 1, attempt.
    match goal with |- context [let '(_, _) := ?m n1 in _] => set (step := m) end.
    destruct (step n1) as [n2 res] eqn:E2. apply decode_step_atomic in E2; [|done..].
    set (tmp := sibling dst ".decoded") in *. intros E3.
    assert (Hu : untouched dst n2 n' /\ r = res).
    { split; [apply (run_keeps _ _ _ _ _ E3); solve_keeps|].
      revert E3. unfold bind at 1. destruct res as [a|e].
      - cbn [ret]. rewrite fs_remove_quietly_bind. by intros [= _ <-].
      - destruct (fs_remove_quietly tmp n2) as [n3 r3] eqn:E4.
        rewrite (fs_remove_quietly_ok _ _ _ _ E4), fs_remove_quietly_bind.
        by intros [= _ <-]. }
    destruct Hu as [Hu ->]. unfold untouched in *. destruct res as [[]|e].
    + destruct E2 as (b' & p & Hb' & Hp & Hd). exists b. rewrite Hf1 in Hb'.
      assert (b' = b) as -> by congruence. rewrite Ez, Hp. split; [done|].
      split; [congruence|by eexists].
    + congruence.
  - intros E2. apply fs_rename_spec in E2 as [(e & -> & Ef)|(b' & -> & Hb' & Ef)].
    + by rewrite Ef, Hf1.
    + exists b. rewrite Ez, Ef, lookup_insert_eq. rewrite Hf1 in Hb'.
      split; [done|]. split; [congruence|by eexists].
Qed.
End Materialize.

(** ** Correctness *)

Section Correctness.
Context {S Q : Type} `{CodecLaws}.
Implicit Types n : Node S Q.

(** Moving a downloaded object into place is atomic.  Whichever file
    operations fail, and whatever they leave behind, [materialize] either
    succeeds with the destination holding exactly the plain database of the
    object, or fails with the destination as it was. *)
Theorem materialize_atomic n n' raw dst r :
  raw <> dst ->
  materialize raw dst n = (n', r) ->
  match r with
  | Ok _ => exists b, n_files n !! raw = Some b /\ n_files n' !! dst = plain_content b
                      /\ is_Some (plain_content b)
  | Err _ => n_files n' !! dst = n_files n !! dst
  end.
Proof. apply materialize_outcome. Qed.

Lemma zstd_content_packed level b packed :
  zstd_compress level b = Ok packed -> zstd_content packed = true.
Proof.
  intros Hz. pose proof (zstd_frame_magic _ _ _ Hz) as Hm. unfold zstd_content.
  apply andb_true_iff. split.
  - apply Z.leb_le. apply (f_equal length) in Hm. rewrite length_take in Hm.
    cbn [length] in Hm. unfold zlen. lia.
  - apply bool_decide_eq_true. unfold slice. cbn. exact Hm.
Qed.

Lemma compress_ok n n' src dst size :
  compress src dst n = (n', Ok size) ->
  exists b packed, n_files n !! src = Some b /\ zstd_compress ZSTD_LEVEL b = Ok packed /\
    n_files n' !! dst = Some packed /\ size = zlen packed.
Proof.
  unfold compress. intros (n1 & b & E1 & E)%bind_ok. apply fs_read_spec in E1 as [_ Hb].
  apply bind_ok in E as (n2 & [] & _ & E). apply bind_ok in E as (n3 & packed & E3 & E).
  apply bind_ok in E as (n4 & [] & E4 & E). apply bind_ok in E as (n5 & [] & E5 & E).
  apply bind_ok in E as (n6 & b6 & E6 & [= <- <-]).
  apply fs_write_ok in E4. apply io_step_files in E5. apply fs_read_spec in E6 as [E6 Hb6].
  exists b, packed. specialize (Hb6 b6 eq_refl).
  rewrite E5, E4, lookup_insert_eq in Hb6. injection Hb6 as ->.
  split; [by apply Hb|]. split; [by injection E3|].
  split; [by rewrite E6, E5, E4, lookup_insert_eq|done].
Qed.

(** A snapshot compressed for upload materializes back to the same
    database file, and the size reported for the upload is the size of the
    compressed file. *)
Theorem compress_materialize n n1 n2 src packed dst size :
  packed <> dst ->
  compress src packed n = (n1, Ok size) ->
  materialize packed dst n1 = (n2, Ok tt) ->
  n_files n2 !! dst = n_files n !! src /\
  exists b, n_files n1 !! packed = Some b /\ size = zlen b.
Proof.
  intros Hne Hc Hm. apply compress_ok in Hc as (b & z & Hb & Hz & Hp & Hs).
  apply materialize_outcome in Hm as (b' & Hb' & Hd & _); [|done].
  assert (b' = z) as -> by congruence.
  unfold plain_content in Hd. rewrite (zstd_content_packed _ _ _ Hz) in Hd.
  rewrite (zstd_round_trip _ _ _ Hz) in Hd. split; [congruence|eauto].
Qed.
End Correctness.

(** A node with one file whose third file operation from now fails. *)
Definition demo_files_node (io : list io_outcome) (files : gmap string (list byte))
  : Node unit unit :=
  mkNode SyncState_default false 0 files (mkDatabase [] None) tt tt io 0 [].

Lemma materialize_atomic_witness :
  let n := demo_files_node [IoDone; IoDone; IoDone; IoDone; IoDone; IoFail None]
             {[ "raw" := ZSTD_MAGIC ++ SQLITE_MAGIC; "db" := [Byte.x01] ]} in
  n_files (materialize "raw" "db" n).1 !! "db" = Some [Byte.x01].
Proof.
  cbv zeta.
  set (n := demo_files_node _ _).
  pose proof (materialize_atomic n (materialize "raw" "db" n).1 "raw" "db"
                (materialize "raw" "db" n).2 ltac:(done) ltac:(by destruct (materialize _ _ n)))
    as Hm.
  assert (E : is_ok (materialize "raw" "db" n).2 = false) by (vm_compute; reflexivity).
  destruct (materialize "raw" "db" n) as [n' [a|e]]; [discriminate E|].
  cbn in *. rewrite Hm. reflexivity.
Defined.

Lemma compress_materialize_witness :
  let n := demo_files_node [] {[ "snap" := SQLITE_MAGIC ]} in
  let n1 := (compress "snap" "packed" n).1 in
  n_files (materialize "packed" "db" n1).1 !! "db" = Some SQLITE_MAGIC.
Proof.
  cbv zeta. set (n := demo_files_node _ _). set (n1 := (compress "snap" "packed" n).1).
  destruct (compress_materialize n n1 (materialize "packed" "db" n1).1 "snap" "packed" "db"
              20 ltac:(done) ltac:(vm_compute; reflexivity) ltac:(vm_compute; reflexivity))
    as [E _].
  rewrite E. reflexivity.
Defined.
