(* ===== verification/Fencing.v ===== *)
(** * Fenced writes of the snapshot (objstore/metasync.rs: put_fenced)

    The snapshot object carries the leadership term that wrote it as user
    metadata.  A write reads the stored term first and is conditional on the
    object it read, so that the stored term never decreases: neither by this
    process nor, as long as every other writer does the same, by any
    interleaving of writers, except in one race: an ETag names the content of
    an object and not its metadata, so a newer leader may have stored the same
    content under its own term between the HEAD and the PUT.  The argument is
    rely-guarantee: [env] may only raise the term, and then so does
    [put_fenced]. *)

From stdpp Require Import prelude list strings pretty gmap.
From Stdlib Require Import ZArith Lia.
From S2P Require Import Prelude Bytes Strings WalFmt ObjectApi MemStore Node SnapCodec.

(** ** Definitions *)

Definition FENCE_META_KEY : string := "fence".
(** walship.rs *)
Definition GENERATION_META_KEY : string := "generation".
Definition SHA256_META_KEY : string := "sha256".

(** The first entry whose key matches and whose value parses; 0 when none. *)
Fixpoint parse_fence (md : metadata) : Z :=
  match md with
  | [] => 0
  | (k, v) :: md =>
      if eq_ignore_ascii_case k FENCE_META_KEY
      then match parse_i64 v with Some n => n | None => parse_fence md end
      else parse_fence md
  end.

(** walship.rs: keys are case-insensitive. *)
Fixpoint meta_value (md : metadata) (key : string) : option string :=
  match md with
  | [] => None
  | (k, v) :: md => if eq_ignore_ascii_case k key then Some v else meta_value md key
  end.

(** [work_dir]. *)
Definition work_dir (cfg : Config) : string := join (cfg_data_dir cfg) "objstore".

Section PutFenced.
Context {S Q : Type} `{ObjectApi S} (cfg : Config).

(** The request before its condition is known. *)
Definition fenced_input (body : string) (size : Z) (md : metadata) (fence : Z)
    (if_match if_none_match : option string) : PutObjectInput :=
  mkPut (cfg_bucket cfg) (cfg_key cfg) (PutFile body) size
    (md_insert md FENCE_META_KEY (pretty fence)) if_match if_none_match.

(** The condition of the write, from what HEAD found. *)
Definition fenced_condition (local : Z) (head : result SyncError HeadObjectOutput)
  : result SyncError (option string * option string) :=
  match head with
  | Ok head =>
      let stored := parse_fence (head_metadata head) in
      if local <? stored then
        Err (Fencing ("fencing: local term " +:+ pretty local +:+ " older than stored "
                      +:+ pretty stored +:+ "; refusing to overwrite snapshot"))
      else Ok (head_e_tag head, None)
  | Err e =>
      if is_not_found e then Ok (None, Some "*")
      else Err (Context "head snapshot" e)
  end.

Definition put_fenced (body : string) (size : Z) (md : metadata) : M S Q SyncError unit :=
  let! fence := gets n_fence in
  let! head := attempt (api_head (cfg_bucket cfg) (cfg_key cfg)) in
  let! (if_match, if_none_match) := lift (fenced_condition fence head) in
  let! res := attempt (api_put (fenced_input body size md fence if_match if_none_match)) in
  match res with
  | Err e =>
      if is_precondition_failed e then
        raise (Context
          "fencing: snapshot changed under us (concurrent writer); skipping cycle" e)
      else raise e
  | Ok _ => ret tt
  end.
End PutFenced.

(** ** Specification *)

(** The stored term does not go back; an absent object is below every term. *)
Definition fence_le (o o' : option Object) : Prop :=
  match o, o' with
  | None, _ => True
  | Some o, Some o' => parse_fence (o_metadata o) <= parse_fence (o_metadata o')
  | Some _, None => False
  end.

#[export] Instance fence_le_preorder : PreOrder fence_le.
Proof.
  split; [intros [o|]; cbn; [lia|done]|].
  intros [o1|] [o2|] [o3|]; cbn; try done. lia.
Qed.

(** ** Lemmas *)

(** The term written is the term read back. *)
Lemma parse_fence_insert md f :
  i64_min <= f <= i64_max -> parse_fence (md_insert md FENCE_META_KEY (pretty f)) = f.
Proof. intros Hf. cbn [md_insert parse_fence]. by rewrite parse_i64_pretty. Qed.

Lemma fs_read_store {S Q} path (n n' : Node S Q) r :
  fs_read path n = (n', r) -> n_store n' = n_store n /\ n_fence n' = n_fence n.
Proof.
  intros E. pose proof (run_keeps same_but_files _ _ _ _ E ltac:(eauto with keeps)) as Hk.
  by rewrite Hk.
Qed.

(** A put is an optional file read followed by one request to the store. *)
Lemma api_put_outcome {S Q} `{ObjectApi S} put (n n' : Node S Q) r :
  api_put put n = (n', r) ->
  n_fence n' = n_fence n /\
  ((exists e, r = Err e /\ n_store n' = n_store n) \/
   exists body s', put_object (n_store n) put body = (s', r) /\ n_store n' = s').
Proof.
  unfold api_put, bind. destruct (put_body put) as [path|bytes].
  - unfold with_err. destruct (fs_read path n) as [n1 [b|e]] eqn:E;
      apply fs_read_store in E as [Es Ef]; cbn.
    + rewrite <- Es. destruct (put_object (n_store n1) put b) as [s' r'] eqn:Ep.
      intros [= <- <-]. split; [done|]. right. by exists b, s'.
    + intros [= <- <-]. split; [done|]. left. eauto.
  - cbn. destruct (put_object (n_store n) put bytes) as [s' r'] eqn:Ep.
    intros [= <- <-]. split; [done|]. right. by exists bytes, s'.
Qed.

Section Fenced.
Context {S Q : Type} `{ObjectApiLaws S} (cfg : Config).
Abbreviation bucket := (cfg_bucket cfg).
Abbreviation key := (cfg_key cfg).
Abbreviation stored s := (objects s bucket !! key).

(** Other writers only raise the term. *)
Context (Hrely : forall s s' : S, env s s' -> fence_le (stored s) (stored s')).
Implicit Types n : Node S Q.

(** The race [If-Match] does not close: after the store was [s], another writer
    replaced an object of a term up to [local] by one of a newer term and the
    same ETag. *)
Definition same_etag_race (s : S) (local : Z) : Prop :=
  exists s1 s2 o1 o2, env s s1 /\ env s1 s2 /\ stored s1 = Some o1 /\ stored s2 = Some o2 /\
    o_e_tag o1 = o_e_tag o2 /\
    parse_fence (o_metadata o1) <= local < parse_fence (o_metadata o2).

(** What the HEAD request establishes for the condition it yields. *)
Lemma fenced_condition_sound s s1 local head im inm :
  head_object s bucket key = (s1, head) ->
  fenced_condition local head = Ok (im, inm) ->
  fence_le (stored s) (stored s1) /\
  (forall s2 body size md, env s1 s2 ->
     put_allowed (fenced_input cfg body size md local im inm) (stored s2) ->
     forall o, stored s2 = Some o ->
       parse_fence (o_metadata o) <= local \/ same_etag_race s local).
Proof.
  intros Eh Ec. destruct head as [h|e]; cbn in Ec.
  - apply head_ok in Eh as (He & o1 & Ho1 & Et & Em). split; [by apply Hrely|].
    case_in Ec. bool_to_prop.
    intros s2 body size md He2 [Hm _] o Ho.
    destruct (Hm (o_e_tag o1)) as (o2 & Eo2 & Etag); [done|].
    assert (o = o2) as -> by congruence.
    destruct (decide (parse_fence (o_metadata o2) <= local)); [by left|right].
    exists s1, s2, o1, o2. rewrite Em in *. split_and!; try done; lia.
  - apply head_err in Eh as (He & _). split; [by apply Hrely|].
    destruct (is_not_found e); [|done]. injection Ec as <- <-.
    intros s2 body size md _ [_ Hn] o Ho. by rewrite (Hn eq_refl) in Ho.
Qed.

(** One conditional write keeps the term from decreasing. *)
Lemma fenced_put_sound (race : Prop) s body_path size md local im inm body s' r :
  i64_min <= local <= i64_max ->
  (forall s2, env s s2 ->
     put_allowed (fenced_input cfg body_path size md local im inm) (stored s2) ->
     forall o, stored s2 = Some o -> parse_fence (o_metadata o) <= local \/ race) ->
  put_object s (fenced_input cfg body_path size md local im inm) body = (s', r) ->
  (fence_le (stored s) (stored s') \/ race) /\
  (is_ok r = true -> exists o, stored s' = Some o /\ o_body o = body /\
                               parse_fence (o_metadata o) = local).
Proof.
  intros Hl Hc E.
  assert (Hput : forall s2 tag, env s s2 ->
            put_allowed (fenced_input cfg body_path size md local im inm) (stored s2) ->
            objects s' bucket = put_result (fenced_input cfg body_path size md local im inm)
                                  body tag (objects s2 bucket) ->
            (fence_le (stored s) (stored s') \/ race) /\
            exists o, stored s' = Some o /\ o_body o = body /\
                      parse_fence (o_metadata o) = local).
  { intros s2 tag He Ha Eo. rewrite Eo. unfold put_result. cbn [fenced_input put_key put_metadata].
    rewrite lookup_insert_eq. split.
    - assert (Hle : fence_le (stored s) (stored s2)) by by apply Hrely.
      destruct (stored s2) as [o|] eqn:E2.
      + destruct (Hc s2 He) with (o := o) as [Hlocal|Hr]; [by rewrite E2|done| |by right].
        left. etransitivity; [exact Hle|]. cbn [fence_le o_metadata]. by rewrite parse_fence_insert.
      + left. by etransitivity; [exact Hle|].
    - eexists. split_and!; [done|done|]. by apply parse_fence_insert. }
  destruct r as [out|e].
  - apply put_ok in E as (s2 & tag & He & Ha & Eo).
    destruct (Hput s2 tag He Ha Eo) as [H1 H2]. by split.
  - split; [|done]. apply put_err in E as (s2 & He & [[_ Eo]|(_ & Ha & tag & Eo)]).
    + cbn in Eo. rewrite Eo. left. by apply Hrely.
    + by destruct (Hput s2 tag He Ha Eo).
Qed.

End Fenced.

(** A stale leader is refused.  When the stored term is newer than the
    process's own, [put_fenced] fails with a fencing error and sends no write:
    the store is exactly as the HEAD request left it. *)
Theorem put_fenced_refuses {S Q} `{ObjectApi S} cfg (n : Node S Q) body size md s1 head :
  head_object (n_store n) (cfg_bucket cfg) (cfg_key cfg) = (s1, Ok head) ->
  n_fence n < parse_fence (head_metadata head) ->
  exists msg, put_fenced cfg body size md n = (set_store s1 n, Err (Fencing msg)).
Proof.
  intros Eh Hlt. eexists. unfold put_fenced, gets, bind at 1.
  unfold bind at 1, attempt at 1, api_head. rewrite Eh.
  unfold bind at 1, lift, fenced_condition. apply Z.ltb_lt in Hlt. by rewrite Hlt.
Qed.

(** ** Concrete runs *)

Definition demo_config : Config :=
  mkConfig "bucket" "meta/forklift.db" "/data" 60 CompressionNone ModeWal true.

(** A bucket whose snapshot was written in term 5. *)
Definition term5_store (script : list fault) : MemStore :=
  mkMem {[ "bucket" := {[ "meta/forklift.db" :=
            {| o_body := []; o_e_tag := "v0"; o_metadata := [("Fence", "5")] |} ]} ]} 1 script.

Definition term_node (fence : Z) (s : MemStore) : Node MemStore unit :=
  mkNode SyncState_default true fence {[ "/data/objstore/upload.db" := SQLITE_MAGIC ]}
    (mkDatabase [] None) s tt [] 0 [].


Lemma put_fenced_refuses_witness :
  exists s1 msg, put_fenced demo_config "/data/objstore/upload.db" 16 []
                   (term_node 4 (term5_store [])) =
                 (set_store s1 (term_node 4 (term5_store [])), Err (Fencing msg)).
Proof.
  exists (term5_store []). eapply put_fenced_refuses.
  - vm_compute. reflexivity.
  - vm_compute. reflexivity.
Defined.
