(* ===== verification/WalShip.v ===== *)
(** * WAL shipping, leader side (objstore/metasync/walship.rs)

    A cycle of the leader captures the frames committed since the last one,
    starts a generation when one is due, uploads the pending segments in order
    and publishes an unpublished base.  This file holds the definitions; the
    properties are in [Capture], [Shipping] and [Keys].

    The tasks the source hands to the blocking pool run in place; a panic of
    such a task is not modelled.  Metrics and log lines are left out. *)

From stdpp Require Import prelude list strings pretty gmap.
From Stdlib Require Import ZArith Lia Ascii.
From S2P Require Import Prelude Bytes Strings WalFmt ObjectApi Node SnapCodec Fencing.

(** ** Constants *)

Definition SEGMENT_FRAME_BYTES : Z := Z.shiftl 16 20.
Definition CAPTURE_BYTES : Z := Z.shiftl 16 20.
Definition CHECKPOINT_WAL_BYTES : Z := Z.shiftl 64 20.
Definition CHECKPOINT_BUSY : Z := 250.
Definition MAX_PENDING_BYTES : Z := Z.shiftl 32 20.
Definition ROTATE_MIN_BYTES : Z := Z.shiftl 64 20.
Definition MAX_SEGMENTS : Z := 2000.
Definition MAX_ROUNDS : nat := 64.
(** [meta::BUSY_TIMEOUT]. *)
Definition BUSY_TIMEOUT : Z := 5000.
Definition BASE_FILE_PREFIX : string := "base-".
Definition SPOOL_FILE_PREFIX : string := "spool-".

(** [Display] of [walfmt::Error]. *)
Definition error_text (e : WalFmt.Error) : string :=
  match e with
  | Io op source => op +:+ ": " +:+ source
  | Invalid msg => msg
  end.

(** ** Object keys *)

Definition wal_prefix_for (key : string) : string :=
  match rsplit_once "/"%char key with
  | Some (dir, _) => dir +:+ "/wal/"
  | None => "wal/"
  end.

Definition segment_seq (key generation_prefix : string) : option Z :=
  match strip_prefix generation_prefix key with
  | Some k =>
      match strip_suffix ".seg" k with
      | Some n =>
          if Nat.eqb (String.length n) 20 && str_all is_ascii_digit n
          then parse_u64 n else None
      | None => None
      end
  | None => None
  end.

(** The loop over the listed keys; [out] has the keys taken so far. *)
Fixpoint contiguous_loop (keys : list string) (generation_prefix : string)
    (out : list string) : list string :=
  match keys with
  | [] => out
  | key :: keys =>
      match segment_seq key generation_prefix with
      | Some seq =>
          if seq =? zlen out then contiguous_loop keys generation_prefix (out ++ [key]) else out
      | None => contiguous_loop keys generation_prefix out
      end
  end.

Definition contiguous_segments (keys : list string) (generation_prefix : string) : list string :=
  contiguous_loop keys generation_prefix [].

Definition valid_generation (g : string) : bool :=
  negb (str_is_empty g) && Nat.leb (String.length g) 64
  && str_all (fun c => is_ascii_alphanumeric c || Ascii.eqb c "-"%char) g.

Definition generation_of (head : HeadObjectOutput) : option string :=
  match meta_value (head_metadata head) GENERATION_META_KEY with
  | Some g => if valid_generation g then Some g else None
  | None => None
  end.

(** [millis] and [nonce] are the clock and the UUID of the call. *)
Definition new_generation_id (fence millis : Z) (nonce : string) : string :=
  zero_padded 12 (Z.max fence 0) +:+ "-" +:+ zero_padded 13 (Z.max millis 0) +:+ "-"
  +:+ String.substring 0 8 nonce.

Definition wal_prefix (cfg : Config) : string := wal_prefix_for (cfg_key cfg).
Definition generation_prefix (cfg : Config) (generation : string) : string :=
  wal_prefix cfg +:+ generation +:+ "/".
Definition segment_key (cfg : Config) (generation : string) (seq : Z) : string :=
  generation_prefix cfg generation +:+ zero_padded 20 seq +:+ ".seg".

(** ** The shipper *)

Definition rotation_wanted (sh : Shipper) (final_flush : bool) : option string :=
  match sh_generation sh with
  | None => Some "no generation in this term"
  | Some g =>
      if g_broken g then Some "the generation was abandoned"
      else if final_flush then None
      else match g_base g with
           | BaseLocal _ _ _ _ => None
           | BasePublished =>
               if MAX_SEGMENTS <=? g_segments g then Some "segment count limit"
               else if Z.max (g_base_bytes g) ROTATE_MIN_BYTES <=? g_segment_bytes g
               then Some "segments outgrew the base"
               else None
           end
  end.

Definition pending_total (ps : list Pending) : Z :=
  foldr (fun p acc => zlen (p_bytes p) + acc) 0 ps.

Definition set_pending (sh : Shipper) (ps : list Pending) (bytes : Z) : Shipper :=
  mkShipper (sh_generation sh) (sh_cursor sh) (sh_known_end sh) (sh_restart_ok sh) ps bytes.
Definition set_generation (sh : Shipper) (g : option Generation) : Shipper :=
  mkShipper g (sh_cursor sh) (sh_known_end sh) (sh_restart_ok sh) (sh_pending sh)
    (sh_pending_bytes sh).

Definition drop_pending_of (sh : Shipper) (id : string) : Shipper :=
  let ps := filter (fun p => p_generation p <> id) (sh_pending sh) in
  set_pending sh ps (pending_total ps).

Definition drop_pending_except (sh : Shipper) (id : string) : Shipper :=
  let ps := filter (fun p => p_generation p = id) (sh_pending sh) in
  set_pending sh ps (pending_total ps).

Definition break_generation (g : Generation) : Generation :=
  mkGeneration (g_id g) (g_next_seq g) (g_next_frame g) (g_base g) (g_base_bytes g)
    (g_segment_bytes g) (g_segments g) true.

(** The reason only reaches the log. *)
Definition mark_broken (sh : Shipper) : Shipper :=
  set_generation sh
    (match sh_generation sh with
     | Some g => Some (if negb (g_broken g) then break_generation g else g)
     | None => None
     end).

Section Discard.
Context {S Q : Type}.

Definition discard {E} : M S Q E unit :=
  let! sh := gets n_ship in
  (match sh_generation sh with
   | Some g => match g_base g with
               | BaseLocal path _ _ _ => fs_remove_quietly path
               | BasePublished => ret tt
               end
   | None => ret tt
   end) ;;
  modify (put_ship Shipper_default).
End Discard.

(** ** Capture *)

Record Captured := mkCaptured {
  cap_batches : list (Z * list Frame);
  cap_cursor : option Cursor;
  cap_known_end : option Cursor;
  cap_restart_ok : bool;
  cap_truncated : bool;
  cap_rotated : bool;
  cap_drained : bool;
  cap_lost : option string;
}.

(** The variables of the reading loop. *)
Record Reading := mkReading {
  rd_cursor : option Cursor;
  rd_known_end : option Cursor;
  rd_restart_ok : bool;
  rd_batches : list (Z * list Frame);
  rd_taken : Z;
  rd_complete : bool;
  rd_reset : option string;
}.

(** What one iteration does with the outcome of a read: go on or leave. *)
Definition reading_step (r : Reading) (read : WalRead) : Reading * bool :=
  match read with
  | Reset why =>
      if rd_restart_ok r && is_some (rd_cursor r) then
        (mkReading None None false (rd_batches r) (rd_taken r) (rd_complete r) (rd_reset r), true)
      else
        (mkReading None None (rd_restart_ok r) (rd_batches r) (rd_taken r) (rd_complete r)
           (Some why), false)
  | Frames frames next done end_ =>
      let r := mkReading next end_ (rd_restart_ok r) (rd_batches r) (rd_taken r)
                 (rd_complete r) (rd_reset r) in
      let r :=
        match next with
        | Some c =>
            if negb (zlen frames =? 0) then
              mkReading next end_ false (rd_batches r ++ [(c_page_size c, frames)])
                (rd_taken r + zlen frames * c_page_size c) (rd_complete r) (rd_reset r)
            else r
        | None => r
        end in
      if done then
        (mkReading (rd_cursor r) (rd_known_end r) (rd_restart_ok r) (rd_batches r) (rd_taken r)
           true (rd_reset r), false)
      else (r, negb (CAPTURE_BYTES <=? rd_taken r))
  end.

Section Capture.
Context {S Q : Type} `{Sqlite Q}.

(** Opening the WAL file. No commit can land while the write connection is
    held, so both passes of a read observe the same bytes. *)
Definition open_wal {E} : M S Q E wal_file :=
  let! o := io_next in
  let! d := gets n_database in
  ret (match o, db_wal d with
       | IoFail _, _ => WalOpenError io_error
       | IoDone, None => WalMissing
       | IoDone, Some b => WalOpened b b
       end).

(** The reading loop; [None] when the fuel runs out. *)
Fixpoint reading_loop (fuel : nat) (r : Reading) : M S Q string (option Reading) :=
  match fuel with
  | O => ret None
  | Datatypes.S fuel =>
      let! wal := open_wal in
      let! read := lift (map_err (fun e => "read wal: " +:+ error_text e)
                           (read_committed wal (rd_cursor r) SEGMENT_FRAME_BYTES
                              (rd_known_end r))) in
      let '(r, go) := reading_step r read in
      if (go : bool) then reading_loop fuel r else ret (Some r)
  end.

(** At most one restart and one full read: see [reading_loop_total]. *)
Definition reading_fuel : nat := 3.

Definition wal_metadata_len {E} : M S Q E Z :=
  let! o := io_next in
  let! d := gets n_database in
  ret (match o, db_wal d with
       | IoDone, Some b => zlen b
       | _, _ => 0
       end).

(** The checkpoint of [capture], and whether it truncated the WAL. *)
Definition checkpoint_truncate (r : Reading) (drained : bool) : M S Q string (Reading * bool) :=
  sql_busy_timeout CHECKPOINT_BUSY ;;
  let! busy := attempt sql_checkpoint in
  sql_busy_timeout BUSY_TIMEOUT ;;
  let! busy := lift busy in
  ret (if busy =? 0 then
         (mkReading None None false (rd_batches r) (rd_taken r) (rd_complete r)
            (rd_reset r), true)
       else if drained then
         (mkReading (rd_cursor r) (rd_known_end r) true (rd_batches r) (rd_taken r)
            (rd_complete r) (rd_reset r), false)
       else (r, false)).

Definition capture (cursor known_end : option Cursor) (restart_ok rotate read : bool)
  : M S Q string Captured :=
  let start := mkReading cursor known_end restart_ok [] 0 false None in
  let! done := if read then reading_loop reading_fuel start else ret (Some start) in
  match done with
  | None => raise "reading did not end"
  | Some r =>
      let drained := read && rd_complete r && negb (is_some (rd_reset r)) in
      let! wal_len := wal_metadata_len in
      let! (r, truncated) :=
        if rotate || (drained && (CHECKPOINT_WAL_BYTES <=? wal_len))
        then checkpoint_truncate r drained
        else ret (r, false) in
      let lost :=
        match rd_reset r with
        | Some why => Some (why +:+ " before every frame was read (" +:+ pretty wal_len
                            +:+ " byte wal)")
        | None =>
            if truncated && negb drained then
              Some ("the rotation checkpoint folded " +:+ pretty wal_len
                    +:+ " unread wal bytes into the new base")
            else None
        end in
      ret (mkCaptured (rd_batches r) (rd_cursor r) (rd_known_end r) (rd_restart_ok r)
             truncated (truncated && rotate) drained lost)
  end.
End Capture.

(** ** Queueing segments *)

Section Queue.
Context `{Codec}.

(** The encoded batches with their frame counts; fails on the first that
    cannot be encoded. *)
Fixpoint encode_batches (frame : Z) (batches : list (Z * list Frame))
  : result WalFmt.Error (list (list byte * Z)) :=
  match batches with
  | [] => Ok []
  | (page_size, frames) :: batches =>
      let? bytes := encode_segment page_size frame frames in
      let? rest := encode_batches (frame + zlen frames) batches in
      Ok ((bytes, zlen frames) :: rest)
  end.

(** The loop that appends the encoded segments to the queue. *)
Fixpoint push_encoded (id : string) (seq : Z) (encoded : list (list byte * Z))
    (next_frame pending_bytes : Z) (pending : list Pending)
  : Z * Z * Z * list Pending :=
  match encoded with
  | [] => (seq, next_frame, pending_bytes, pending)
  | (bytes, frames) :: encoded =>
      push_encoded id (seq + 1) encoded (next_frame + frames) (pending_bytes + zlen bytes)
        (pending ++ [mkPending id seq bytes])
  end.

Definition queue_segments (sh : Shipper) (batches : list (Z * list Frame)) : Shipper :=
  match batches with
  | [] => sh
  | _ =>
      match sh_generation sh with
      | None => sh
      | Some g =>
          if g_broken g then sh else
          match encode_batches (g_next_frame g) batches with
          | Err _ => mark_broken sh
          | Ok encoded =>
              let id := g_id g in
              let '(seq, next_frame, pending_bytes, pending) :=
                push_encoded id (g_next_seq g) encoded (g_next_frame g)
                  (sh_pending_bytes sh) (sh_pending sh) in
              let g := mkGeneration id seq next_frame (g_base g) (g_base_bytes g)
                         (g_segment_bytes g) (g_segments g) (g_broken g) in
              let sh := mkShipper (Some g) (sh_cursor sh) (sh_known_end sh) (sh_restart_ok sh)
                          pending pending_bytes in
              if MAX_PENDING_BYTES <? pending_bytes
              then mark_broken (drop_pending_of sh id)
              else sh
          end
      end
  end.
End Queue.

(** ** The leader's cycle *)

Section Ship.
Context {S Q : Type} `{ObjectApi S} `{Sqlite Q} `{Codec} (cfg : Config).

Definition set_ship_of {E} (sh : Shipper) : M S Q E unit := modify (put_ship sh).

(** The clock and the nonce of one call. *)
Definition take_entropy {E} : M S Q E (Z * string) :=
  fun n => match n_entropy n with
           | e :: es => (set_entropy es n, Ok e)
           | [] => (n, Ok (0, "00000000"))
           end.

Definition remove_stale_bases {E} (dir : string) : M S Q E unit :=
  fs_remove_with_prefix dir BASE_FILE_PREFIX.

(** The copy made by the blocking task: path, size, raw size and digest. *)
Definition copy_base (raw packed : string) : M S Q string (string * Z * Z * string) :=
  let! d := gets n_database in
  fs_write raw (db_file d) ;;
  let! raw_size := fs_len raw in
  let! (path, size) :=
    match cfg_compression cfg with
    | CompressionNone => ret (raw, raw_size)
    | CompressionZstd =>
        let! size := compress raw packed in
        fs_remove raw ;;
        ret (packed, size)
    end in
  let! sha := sha256_file path in
  ret (path, size, raw_size, sha).

Definition start_generation : M S Q SyncError unit :=
  let! fence := gets n_fence in
  let! (millis, nonce) := take_entropy in
  let id := new_generation_id fence millis nonce in
  with_err (IoError "create objstore dir") (fs_create_dir_all (work_dir cfg)) ;;
  let raw := join (work_dir cfg) (BASE_FILE_PREFIX +:+ id +:+ ".db") in
  let packed := raw +:+ ".zst" in
  remove_stale_bases (work_dir cfg) ;;
  let! made := attempt (copy_base raw packed) in
  match made with
  | Err e =>
      fs_remove_quietly raw ;;
      fs_remove_quietly packed ;;
      let! sh := gets n_ship in
      set_ship_of (mark_broken sh) ;;
      raise (IoError "copy wal base" e)
  | Ok (path, size, raw, sha) =>
      let! sh := gets n_ship in
      set_ship_of (set_generation sh
        (Some (mkGeneration id 0 0 (BaseLocal path size raw sha) size 0 0 false)))
  end.

(** Whether the object already holds exactly [bytes]. *)
Definition same_object {E} (key : string) (bytes : list byte) : M S Q E bool :=
  let! out := attempt (api_get (cfg_bucket cfg) key) in
  ret (match out with
       | Err _ => false
       | Ok out => match get_body out with
                   | Ok got => bool_decide (got = bytes)
                   | Err _ => false
                   end
       end).

Definition segment_put (p : Pending) (fence : Z) : PutObjectInput :=
  mkPut (cfg_bucket cfg) (segment_key cfg (p_generation p) (p_seq p)) (PutBytes (p_bytes p))
    (zlen (p_bytes p)) [(FENCE_META_KEY, pretty fence)] None (Some "*").

(** Segments of a generation that a published base has replaced. *)
Definition superseded (sh : Shipper) (p : Pending) : bool :=
  match sh_generation sh with
  | Some g => negb (String.eqb (g_id g) (p_generation p))
              && match g_base g with BasePublished => true | _ => false end
  | None => false
  end.

Definition is_current (sh : Shipper) (generation : string) : bool :=
  match sh_generation sh with
  | Some g => String.eqb (g_id g) generation
  | None => false
  end.

(** The counters of the generation after one of its segments was stored. *)
Definition count_shipped (sh : Shipper) (p : Pending) : Shipper :=
  match sh_generation sh with
  | Some g =>
      if String.eqb (g_id g) (p_generation p) then
        set_generation sh (Some (mkGeneration (g_id g) (g_next_seq g) (g_next_frame g)
          (g_base g) (g_base_bytes g) (u64_saturating_add (g_segment_bytes g) (zlen (p_bytes p)))
          (g_segments g + 1) (g_broken g)))
      else sh
  | None => sh
  end.

(** What another writer's segment under our key does to the queue. *)
Definition segment_conflict (sh : Shipper) (generation : string) : Shipper :=
  let sh := if is_current sh generation then mark_broken sh else sh in
  drop_pending_of sh generation.

(** The loop over the queue. [sh] is the shipper, whose queue is [pending]. *)
Fixpoint upload_loop (fence : Z) (pending : list Pending) (sh : Shipper)
  : M S Q SyncError unit :=
  match pending with
  | [] => set_ship_of sh
  | p :: rest =>
      let popped := set_pending sh rest (sh_pending_bytes sh - zlen (p_bytes p)) in
      if superseded sh p then upload_loop fence rest popped else
      let! res := attempt (api_put (segment_put p fence)) in
      let shipped := upload_loop fence rest (count_shipped popped p) in
      match res with
      | Ok _ => shipped
      | Err e =>
          if is_precondition_failed e then
            let! same := same_object (segment_key cfg (p_generation p) (p_seq p)) (p_bytes p) in
            if negb same then
              set_ship_of (segment_conflict sh (p_generation p)) ;;
              raise (Fencing ("fencing: wal segment "
                              +:+ segment_key cfg (p_generation p) (p_seq p)
                              +:+ " was written by another leader"))
            else shipped
          else
            set_ship_of sh ;;
            raise (Context "upload wal segment" e)
      end
  end.

Definition upload_pending : M S Q SyncError unit :=
  let! fence := gets n_fence in
  let! sh := gets n_ship in
  upload_loop fence (sh_pending sh) sh.

(** Deletes the listed keys in order, stopping at the first failure. *)
Fixpoint delete_keys {E} (keep : option string) (keys : list string) : M S Q E unit :=
  match keys with
  | [] => ret tt
  | key :: keys =>
      if match keep with Some k => starts_with k key | None => false end
      then delete_keys keep keys
      else
        let! res := attempt (api_delete (cfg_bucket cfg) key) in
        match res with
        | Ok _ => delete_keys keep keys
        | Err _ => ret tt
        end
  end.

Definition delete_generations_except {E} (keep : option string) : M S Q E unit :=
  let! keys := attempt (api_list (cfg_bucket cfg) (wal_prefix cfg)) in
  match keys with
  | Err _ => ret tt
  | Ok keys => delete_keys (option_map (generation_prefix cfg) keep) keys
  end.

Definition publish_base : M S Q SyncError unit :=
  let! sh := gets n_ship in
  match sh_generation sh with
  | None => ret tt
  | Some g =>
      match g_base g with
      | BasePublished => ret tt
      | BaseLocal path size raw sha =>
          let md := [(GENERATION_META_KEY, g_id g); (SHA256_META_KEY, sha)] in
          with_err (Context "publish wal base") (put_fenced cfg path size md) ;;
          fs_remove_quietly path ;;
          let g := mkGeneration (g_id g) (g_next_seq g) (g_next_frame g) BasePublished
                     (g_base_bytes g) (g_segment_bytes g) (g_segments g) (g_broken g) in
          set_ship_of (drop_pending_except (set_generation sh (Some g)) (g_id g)) ;;
          delete_generations_except (Some (g_id g))
      end
  end.

(** The shipper after a capture, before its frames are queued. *)
Definition after_capture (sh : Shipper) (cap : Captured) : Shipper :=
  let sh := mkShipper (sh_generation sh) (cap_cursor cap) (cap_known_end cap)
              (cap_restart_ok cap) (sh_pending sh) (sh_pending_bytes sh) in
  if is_some (cap_lost cap) then mark_broken sh else sh.

(** One round of a cycle; whether the cycle is over. *)
Definition ship_round (final_flush : bool) : M S Q SyncError bool :=
  let! sh := gets n_ship in
  let rotate := is_some (rotation_wanted sh final_flush) in
  let read := match sh_generation sh with Some g => negb (g_broken g) | None => false end in
  let! cap := with_err (fun e => Context "capture wal" (MetaError e))
                (sql_acquire ;;
                 capture (sh_cursor sh) (sh_known_end sh) (sh_restart_ok sh) rotate read) in
  let progressed := negb (zlen (cap_batches cap) =? 0) in
  set_ship_of (queue_segments (after_capture sh cap) (cap_batches cap)) ;;
  (if cap_rotated cap then start_generation else ret tt) ;;
  upload_pending ;;
  publish_base ;;
  ret (cap_drained cap || cap_truncated cap
       || (negb progressed && negb (is_some (cap_lost cap)))).

Fixpoint ship_rounds (rounds : nat) (final_flush : bool) : M S Q SyncError unit :=
  match rounds with
  | O => ret tt
  | Datatypes.S rounds =>
      let! over := ship_round final_flush in
      if over then ret tt else ship_rounds rounds final_flush
  end.

Definition ship (final_flush : bool) : M S Q SyncError unit :=
  ship_rounds MAX_ROUNDS final_flush.
End Ship.
