(* ===== verification/Keys.v ===== *)
(** * Names of generations and segments (objstore/metasync/walship.rs)

    Segment keys carry the segment number as twenty digits, so that a listing
    in byte order is a listing in numeric order and the number can be read back
    from the key.  [contiguous_segments] relies on both to find the segments a
    reader may apply. *)

From stdpp Require Import prelude list strings pretty gmap sorting.
From Stdlib Require Import ZArith Lia Ascii.
From S2P Require Import Prelude Bytes Strings WalFmt ObjectApi Node SnapCodec Fencing WalShip.

#[local] Arguments String.append : simpl nomatch.

(** ** Byte order of strings *)

Lemma str_compare_app p a b : String.compare (p +:+ a) (p +:+ b) = String.compare a b.
Proof.
  induction p as [|c p IH]; cbn; [done|]. unfold Ascii.compare at 1.
  by rewrite N.compare_refl.
Qed.

(** Appending to strings of the same length does not change how they compare,
    unless they are equal. *)
Lemma str_compare_same_length a b x y :
  String.length a = String.length b -> String.compare a b <> Eq ->
  String.compare (a +:+ x) (b +:+ y) = String.compare a b.
Proof.
  revert b. induction a as [|c a IH]; intros [|d b]; cbn; try done.
  intros [= Hl] Hne. destruct (Ascii.compare c d) eqn:E; [|done..]. by apply IH.
Qed.

Lemma digit_compare c d :
  is_ascii_digit c = true -> is_ascii_digit d = true ->
  Ascii.compare c d = Z.compare (digit_value c) (digit_value d).
Proof.
  intros _ _. unfold Ascii.compare, digit_value. rewrite <- N2Z.inj_compare.
  unfold Z.sub. rewrite Z.compare_sub at 1. symmetry. rewrite Z.compare_sub. f_equal. lia.
Qed.

Lemma digit_value_bound c : is_ascii_digit c = true -> 0 <= digit_value c <= 9.
Proof. unfold is_ascii_digit, digit_value. intros. bool_to_prop. lia. Qed.

(** Numbers of the same width compare as their digits do. *)
Lemma parse_digits_bounds s acc z :
  parse_digits acc s = Some z ->
  acc * 10 ^ zlen (String.list_ascii_of_string s) <= z
    < (acc + 1) * 10 ^ zlen (String.list_ascii_of_string s).
Proof.
  revert acc. induction s as [|c s IH]; intros acc; cbn [parse_digits String.list_ascii_of_string].
  - intros [= <-]. change (zlen []) with 0. lia.
  - destruct (is_ascii_digit c) eqn:Hc; [|done]. apply digit_value_bound in Hc.
    intros Hz%IH. rewrite zlen_cons, Z.pow_add_r by (unfold zlen; lia).
    set (w := 10 ^ zlen _) in *. assert (0 < w) by (apply Z.pow_pos_nonneg; unfold zlen; lia).
    change (10 ^ 1) with 10. nia.
Qed.

Lemma zlen_ascii s : zlen (String.list_ascii_of_string s) = Z.of_nat (String.length s).
Proof. unfold zlen. f_equal. induction s; cbn; congruence. Qed.

Lemma parse_digits_compare a b acc x y :
  String.length a = String.length b ->
  parse_digits acc a = Some x -> parse_digits acc b = Some y ->
  String.compare a b = Z.compare x y.
Proof.
  revert b acc. induction a as [|c a IH]; intros [|d b] acc; cbn [String.length]; try done.
  - intros _ [= ->] [= ->]. cbn. symmetry. apply Z.compare_refl.
  - intros [= Hl]. cbn [parse_digits String.compare].
    destruct (is_ascii_digit c) eqn:Hc; [|done]. destruct (is_ascii_digit d) eqn:Hd; [|done].
    rewrite digit_compare by done. intros Hx Hy.
    destruct (Z.compare_spec (digit_value c) (digit_value d)) as [E|E|E].
    + rewrite E in Hx. by apply (IH b (acc * 10 + digit_value d)).
    + symmetry. apply Z.compare_lt_iff. apply parse_digits_bounds in Hx, Hy.
      rewrite zlen_ascii in *. rewrite <- Hl in Hy.
      assert (0 < 10 ^ Z.of_nat (String.length a)) by (apply Z.pow_pos_nonneg; lia). nia.
    + symmetry. apply Z.compare_gt_iff. apply parse_digits_bounds in Hx, Hy.
      rewrite zlen_ascii in *. rewrite <- Hl in Hy.
      assert (0 < 10 ^ Z.of_nat (String.length a)) by (apply Z.pow_pos_nonneg; lia). nia.
Qed.

Lemma zero_padded_compare w x y :
  (0 < w)%nat -> 0 <= x < 10 ^ Z.of_nat w -> 0 <= y < 10 ^ Z.of_nat w ->
  String.compare (zero_padded w x) (zero_padded w y) = Z.compare x y.
Proof.
  intros Hw Hx Hy. destruct (zero_padded_spec w x Hw Hx) as (Lx & _ & Px).
  destruct (zero_padded_spec w y Hw Hy) as (Ly & _ & Py).
  apply (parse_digits_compare _ _ 0); [congruence|done..].
Qed.

(** Digit strings of the same width are determined by their value. *)
Lemma zero_padded_unique w s z :
  (0 < w)%nat -> String.length s = w -> str_all is_ascii_digit s = true ->
  parse_digits 0 s = Some z -> s = zero_padded w z /\ 0 <= z < 10 ^ Z.of_nat w.
Proof.
  intros Hw Hl _ Hp. pose proof (parse_digits_bounds _ _ _ Hp) as Hb.
  rewrite zlen_ascii, Hl in Hb.
  destruct (zero_padded_spec w z Hw) as (Lz & _ & Pz); [lia|]. split; [|lia].
  apply String.compare_eq_iff. rewrite (parse_digits_compare _ _ 0 z z) by (done || congruence).
  apply Z.compare_refl.
Qed.

Lemma u64_max_digits z : z <= u64_max -> z < 10 ^ Z.of_nat 20.
Proof. unfold u64_max. cbn. lia. Qed.

(** ** Segment keys *)

(** The number of a key, as a relation. *)
Lemma segment_seq_spec cfg g key seq :
  segment_seq key (generation_prefix cfg g) = Some seq <->
  key = segment_key cfg g seq /\ 0 <= seq <= u64_max.
Proof.
  unfold segment_seq, segment_key. split.
  - destruct (strip_prefix _ key) as [k|] eqn:Ep; [|done].
    apply strip_prefix_Some in Ep. destruct (strip_suffix ".seg" k) as [n|] eqn:Es; [|done].
    apply strip_suffix_Some in Es. intros Hs.
    destruct (Nat.eqb_spec (String.length n) 20) as [Hl|]; [|done].
    destruct (str_all is_ascii_digit n) eqn:Hd; [|done]. cbn [andb] in Hs.
    assert (Hne : n <> "") by (intros E; by rewrite E in Hl).
    destruct (parse_digits 0 n) as [z|] eqn:Hp.
    + rewrite (parse_u64_digits n z Hne Hd Hp) in Hs.
      case_in Hs. bool_to_prop.
      destruct (zero_padded_unique 20 n seq) as [En Hb]; [lia|done..|].
      split; [by rewrite <- En|lia].
    + unfold parse_u64 in Hs. destruct n as [|c n]; [done|].
      cbn [str_all] in Hd. apply andb_true_iff in Hd as [Hc _].
      destruct (digit_not_sign c Hc) as [_ Hn]. rewrite Hn in Hs.
      cbn [str_is_empty] in Hs. by rewrite Hp in Hs.
  - intros [-> Hb]. rewrite strip_prefix_app, strip_suffix_app.
    destruct (zero_padded_spec 20 seq) as (Hl & Hd & Hp);
      [lia|split; [lia|apply u64_max_digits; lia]|].
    rewrite Hl, Hd. cbn [Nat.eqb andb].
    assert (Hne : zero_padded 20 seq <> "") by (intros E; by rewrite E in Hl).
    rewrite (parse_u64_digits _ seq Hne Hd Hp).
    destruct (Z.leb_spec seq u64_max); [done|lia].
Qed.

Lemma segment_key_compare cfg g x y :
  0 <= x <= u64_max -> 0 <= y <= u64_max ->
  String.compare (segment_key cfg g x) (segment_key cfg g y) = Z.compare x y.
Proof.
  intros Hx Hy. unfold segment_key. rewrite str_compare_app.
  pose proof (u64_max_digits x ltac:(lia)). pose proof (u64_max_digits y ltac:(lia)).
  destruct (zero_padded_spec 20 x) as (Lx & _); [lia|lia|].
  destruct (zero_padded_spec 20 y) as (Ly & _); [lia|lia|].
  destruct (decide (x = y)) as [->|Hne].
  - rewrite Z.compare_refl. generalize (zero_padded 20 y +:+ ".seg"). intros s.
    induction s as [|c s IH]; cbn; [done|]. unfold Ascii.compare at 1. by rewrite N.compare_refl.
  - rewrite str_compare_same_length, zero_padded_compare; try lia; try congruence.
    intros E. rewrite zero_padded_compare in E by lia. apply Z.compare_eq in E. done.
Qed.

Lemma prefix_app_true p s : String.prefix p (p +:+ s) = true.
Proof.
  induction p as [|c p IH]; cbn; [by destruct s|]. by destruct (ascii_dec c c).
Qed.

(** ** Contiguous segments *)

(** The segment numbers of a listing, in its order. *)
Definition listed_seqs (keys : list string) (prefix : string) : list Z :=
  omap (fun key => segment_seq key prefix) keys.

Lemma contiguous_loop_run cfg g keys out :
  let prefix := generation_prefix cfg g in
  StronglySorted Z.lt (listed_seqs keys prefix) ->
  Forall (fun s => zlen out <= s) (listed_seqs keys prefix) ->
  exists m, contiguous_loop keys prefix out =
              out ++ map (segment_key cfg g) (seqZ (zlen out) (Z.of_nat m)) /\
            (forall i, zlen out <= i < zlen out + Z.of_nat m -> i ∈ listed_seqs keys prefix) /\
            zlen out + Z.of_nat m ∉ listed_seqs keys prefix.
Proof.
  cbv zeta. set (prefix := generation_prefix cfg g).
  revert out. induction keys as [|key keys IH]; intros out Hs Hb.
  { exists 0%nat. cbn. rewrite app_nil_r.
    split_and!; [done|intros; exfalso; lia|apply not_elem_of_nil]. }
  cbn [contiguous_loop]. unfold listed_seqs in *. cbn [omap list_omap] in *.
  destruct (segment_seq key prefix) as [seq|] eqn:Ek; [|by apply IH].
  inversion Hs as [|? ? Hs' Hlt]; subst. inversion Hb as [|? ? Hb0 Hb']; subst.
  destruct (Z.eqb_spec seq (zlen out)) as [->|Hne].
  - destruct (IH (out ++ [key])) as (m & E & Hin & Hout); [done| |].
    { rewrite zlen_app. change (zlen [key]) with 1. eapply Forall_impl; [exact Hlt|]. cbn. lia. }
    rewrite zlen_app in E, Hin, Hout. change (zlen [key]) with 1 in *.
    apply segment_seq_spec in Ek as [Ek _]. exists (S m). split_and!.
    + rewrite E. rewrite <- app_assoc. cbn [app]. f_equal.
      rewrite (seqZ_cons (zlen out) (Z.of_nat (S m))) by lia. cbn [map].
      rewrite <- Ek. do 2 f_equal. f_equal; lia.
    + intros i Hi. destruct (decide (i = zlen out)) as [->|]; [apply elem_of_cons; auto|].
      apply elem_of_cons. right. apply Hin. lia.
    + rewrite not_elem_of_cons. split; [lia|].
      replace (zlen out + Z.of_nat (S m)) with (zlen out + 1 + Z.of_nat m) by lia. done.
  - exists 0%nat. cbn [Z.of_nat]. rewrite seqZ_nil by lia. cbn [map]. rewrite app_nil_r.
    split_and!; [done|intros; exfalso; lia|]. rewrite Z.add_0_r, not_elem_of_cons. split; [lia|].
    intros Hin. rewrite Forall_forall in Hlt. specialize (Hlt _ Hin). lia.
Qed.

Lemma listed_seqs_sorted cfg g keys :
  StronglySorted String.le keys -> NoDup keys ->
  StronglySorted Z.lt (listed_seqs keys (generation_prefix cfg g)).
Proof.
  intros Hs Hn. induction Hs as [|key keys _ IH Hle]; [constructor|].
  apply NoDup_cons in Hn as [Hk Hn]. specialize (IH Hn).
  unfold listed_seqs in *. cbn [omap list_omap].
  destruct (segment_seq key _) as [seq|] eqn:Ek; [|done]. constructor; [done|].
  apply segment_seq_spec in Ek as [-> Hb]. apply Forall_forall. intros seq' Hin.
  apply list_elem_of_omap in Hin as (key' & Hin & Ek').
  apply segment_seq_spec in Ek' as [-> Hb'].
  rewrite Forall_forall in Hle. specialize (Hle _ Hin). unfold String.le in Hle.
  apply Is_true_true in Hle. unfold String.leb in Hle.
  rewrite segment_key_compare in Hle by lia.
  assert (seq <> seq') by (intros ->; done). destruct (Z.compare_spec seq seq'); [done|done|discriminate Hle].
Qed.

(** ** Correctness *)

(** Segment keys and segment numbers determine each other: a key under
    the generation's prefix is read as number [seq] exactly when it is the key
    the leader writes segment [seq] under. *)
Theorem segment_key_round_trip cfg g key seq :
  segment_seq key (generation_prefix cfg g) = Some seq <->
  key = segment_key cfg g seq /\ 0 <= seq <= u64_max.
Proof. apply segment_seq_spec. Qed.

(** From a complete listing of the generation's prefix in byte order,
    [contiguous_segments] takes exactly the segments [0 .. m-1], in order,
    where [m] is the first number that is missing. *)
Theorem contiguous_segments_spec cfg g keys (present : string -> Prop) :
  StronglySorted String.le keys -> NoDup keys ->
  (forall k, k ∈ keys <-> String.prefix (generation_prefix cfg g) k = true /\ present k) ->
  exists m : nat,
    contiguous_segments keys (generation_prefix cfg g) =
      map (segment_key cfg g) (seqZ 0 (Z.of_nat m)) /\
    (forall i, 0 <= i < Z.of_nat m -> present (segment_key cfg g i)) /\
    (Z.of_nat m <= u64_max -> ~ present (segment_key cfg g (Z.of_nat m))).
Proof.
  intros Hs Hn Hk. set (prefix := generation_prefix cfg g) in *.
  assert (Hlist : forall i, i ∈ listed_seqs keys prefix <->
                    0 <= i <= u64_max /\ present (segment_key cfg g i)).
  { intros i. unfold listed_seqs. rewrite list_elem_of_omap. split.
    - intros (key & Hin & [-> Hb]%segment_seq_spec). apply Hk in Hin as [_ ?]. done.
    - intros [Hb Hp]. exists (segment_key cfg g i). split; [|by apply segment_seq_spec].
      apply Hk. split; [|done]. apply prefix_app_true. }
  destruct (contiguous_loop_run cfg g keys []) as (m & E & Hin & Hout).
  - by apply listed_seqs_sorted.
  - apply Forall_forall. intros i Hi. fold prefix in Hi. apply Hlist in Hi. change (zlen []) with 0. lia.
  - exists m. fold prefix in E, Hin, Hout. change (zlen []) with 0 in *. split_and!.
    + exact E.
    + intros i Hi. apply Hlist, Hin. lia.
    + intros Hb Hp. apply Hout. apply Hlist. rewrite Z.add_0_l. split; [lia|done].
Qed.

(** The characters of a generation id. *)
Definition id_char (c : ascii) : bool := is_ascii_alphanumeric c || Ascii.eqb c "-"%char.

Lemma str_all_impl (f g : ascii -> bool) s :
  (forall c, f c = true -> g c = true) -> str_all f s = true -> str_all g s = true.
Proof.
  intros Hfg. induction s as [|c s IH]; cbn; [done|].
  rewrite !andb_true_iff. intros [? ?]. auto.
Qed.

Lemma zero_padded_any w z : 0 <= z <= i64_max ->
  str_all id_char (zero_padded w z) = true /\ (String.length (zero_padded w z) <= Nat.max w 19)%nat.
Proof.
  intros Hz. destruct (pretty_nonneg_spec z) as (_ & Hall & _ & Hl); [lia|].
  specialize (Hl 19%nat ltac:(lia)). unfold zero_padded.
  rewrite str_all_app, str_length_app, str_length_replicate. split.
  - apply andb_true_iff. split; (eapply str_all_impl; [|first [apply str_all_zeros|exact Hall]]);
      intros c Hc; unfold id_char, is_ascii_alphanumeric; by rewrite Hc.
  - assert (z < 10 ^ Z.of_nat 19) by (unfold i64_max in Hz; cbn; lia). lia.
Qed.

(** The generation ids the leader mints are accepted by every reader's
    check, and between terms below 10^12 they sort by term, so a listing
    shows the generations of a later term last. *)
Theorem generation_ids fence millis nonce :
  fence <= i64_max -> millis <= i64_max ->
  String.length nonce = 32%nat -> str_all is_ascii_alphanumeric nonce = true ->
  valid_generation (new_generation_id fence millis nonce) = true /\
  forall fence' millis' nonce',
    0 <= fence < fence' -> fence' < 10 ^ 12 ->
    String.compare (new_generation_id fence millis nonce)
                   (new_generation_id fence' millis' nonce') = Lt.
Proof.
  intros Hf Hm Hn Hnonce. split.
  - assert (Hsub : str_all id_char (String.substring 0 8 nonce) = true /\
                   String.length (String.substring 0 8 nonce) = 8%nat).
    { do 8 (destruct nonce as [|? nonce]; [done|]).
      cbn [str_all] in Hnonce. bool_to_prop. cbn. unfold id_char.
      repeat match goal with H : is_ascii_alphanumeric _ = true |- _ => rewrite H; clear H end.
      by destruct nonce. }
    destruct Hsub as [Hs Hl].
    destruct (zero_padded_any 12 (Z.max fence 0)) as [H1 L1]; [unfold i64_max in *; lia|].
    destruct (zero_padded_any 13 (Z.max millis 0)) as [H2 L2]; [unfold i64_max in *; lia|].
    unfold valid_generation, new_generation_id. fold id_char.
    rewrite !str_all_app, !str_length_app, H1, H2, Hs, Hl. cbn [String.length].
    apply andb_true_iff. split; [|done]. apply andb_true_iff. split.
    + destruct (zero_padded 12 (Z.max fence 0)) as [|c s] eqn:E; [|done].
      destruct (zero_padded 13 (Z.max millis 0)); done.
    + apply Nat.leb_le. lia.
  - intros fence' millis' nonce' Hlt Hb. unfold new_generation_id.
    rewrite (Z.max_l fence), (Z.max_l fence') by lia.
    destruct (zero_padded_spec 12 fence) as (Lf & _); [lia|cbn; lia|].
    destruct (zero_padded_spec 12 fence') as (Lf' & _); [lia|cbn; lia|].
    assert (E : String.compare (zero_padded 12 fence) (zero_padded 12 fence') = Lt).
    { rewrite zero_padded_compare by (cbn; lia). apply Z.compare_lt_iff; lia. }
    rewrite str_compare_same_length; [exact E|congruence|congruence].
Qed.

(** ** Concrete keys *)

Lemma contiguous_segments_spec_witness :
  contiguous_segments
    ["meta/wal/g/00000000000000000000.seg"; "meta/wal/g/00000000000000000001.seg";
     "meta/wal/g/00000000000000000003.seg"; "meta/wal/g/notes.txt"]
    (generation_prefix demo_config "g") =
  ["meta/wal/g/00000000000000000000.seg"; "meta/wal/g/00000000000000000001.seg"] /\
  exists m : nat, contiguous_segments
    ["meta/wal/g/00000000000000000000.seg"; "meta/wal/g/00000000000000000001.seg";
     "meta/wal/g/00000000000000000003.seg"; "meta/wal/g/notes.txt"]
    (generation_prefix demo_config "g") =
    map (segment_key demo_config "g") (seqZ 0 (Z.of_nat m)).
Proof.
  split; [vm_compute; reflexivity|].
  set (keys := ["meta/wal/g/00000000000000000000.seg"; _; _; _]).
  destruct (contiguous_segments_spec demo_config "g" keys (fun k => k ∈ keys)) as (m & E & _).
  - repeat constructor.
  - apply (bool_decide_eq_true_1 _). vm_compute. reflexivity.
  - intros k. split; [|by intros [_ ?]]. intros Hk. split; [|done]. unfold keys in Hk.
    rewrite !elem_of_cons, elem_of_nil in Hk.
    destruct Hk as [->|[->|[->|[->|[]]]]]; vm_compute; reflexivity.
  - exists m. exact E.
Defined.

Lemma generation_ids_witness :
  valid_generation (new_generation_id 7 1700000000000 "0123456789abcdef0123456789abcdef") = true.
Proof.
  apply (generation_ids 7 1700000000000 "0123456789abcdef0123456789abcdef").
  - vm_compute. discriminate.
  - vm_compute. discriminate.
  - reflexivity.
  - vm_compute. reflexivity.
Defined.
