(* ===== verification/Capture.v ===== *)
(** * Capturing committed frames (objstore/metasync/walship.rs: capture)

    The leader promises that a generation's base together with the frames
    captured for it replays to the database.  What makes this delicate is that
    SQLite may restart the WAL from its beginning once every frame has been
    copied into the database file, and that a checkpoint may copy frames
    without finishing.  [SqliteLaws] states the documented behaviour of SQLite
    this relies on, [in_sync] is the promise, and the theorems show that
    [capture] keeps it or reports the loss. *)

From stdpp Require Import prelude list strings pretty gmap.
From Stdlib Require Import ZArith Lia.
From S2P Require Import Prelude Bytes WalFmt Instances WalSegments WalReader WalWriter.
From S2P Require Import ObjectApi Node SnapCodec WalShip.

(** ** The database as SQLite reads it *)

(** The committed frames of a WAL, present or not. *)
Definition wal_head (wal : option (list byte)) : option Header :=
  match wal with Some f => wal_header f | None => None end.

Definition wal_frames (wal : option (list byte)) : list Frame :=
  match wal with
  | Some f => match wal_header f with
              | Some h => map entry_frame (committed_log h f)
              | None => []
              end
  | None => []
  end.

(** What a reader of the database sees: the file with the WAL on top. *)
Definition logical (P : Z) (d : Database) : list byte :=
  apply_frames P (db_file d) (wal_frames (db_wal d)).

Definition wal_pages (P : Z) (wal : option (list byte)) : Prop :=
  forall h, wal_head wal = Some h -> h_page_size h = P.

(** What other users of the write connection may do to the files. [b] counts
    the frames of the WAL already copied into the database file. *)
Inductive writers (P : Z) : nat * Database -> nat * Database -> Prop :=
| writers_none b d : writers P (b, d) (b, d)
| writers_extend b d d' f f' h :
    db_wal d = Some f -> wal_header f = Some h ->
    db_wal d' = Some f' -> wal_header f' = Some h ->
    committed_log h f `prefix_of` committed_log h f' ->
    db_file d' = db_file d -> writers P (b, d) (b, d')
| writers_first b d d' :
    wal_head (db_wal d) = None -> wal_pages P (db_wal d') ->
    db_file d' = db_file d -> writers P (b, d) (b, d')
| writers_restart b d d' h h' :
    wal_head (db_wal d) = Some h -> wal_head (db_wal d') = Some h' ->
    h_salt h' <> h_salt h -> wal_pages P (db_wal d') ->
    b = length (wal_frames (db_wal d)) ->
    db_file d = logical P d -> db_file d' = db_file d ->
    writers P (b, d) (O, d').

Class SqliteLaws (Q : Type) `{Sqlite Q} (P : Z) := {
  (** How many frames of the WAL are in the database file ([nBackfill]). *)
  backfilled : Q -> nat;
  acquire_law : forall q d q' d' r,
    sqlite_acquire q d = (q', d', r) -> writers P (backfilled q, d) (backfilled q', d');
  (** A checkpoint never changes what readers see. Not busy: the WAL is empty.
      Busy: the WAL is as it was, and at most its frames were copied. *)
  checkpoint_law : forall q d q' d' r,
    sqlite_checkpoint q d = (q', d', r) ->
    logical P d' = logical P d /\
    (r = Ok 0 -> wal_head (db_wal d') = None /\ backfilled q' = O) /\
    (forall busy, r = Ok busy -> busy <> 0 ->
       db_wal d' = db_wal d /\ (backfilled q' <= length (wal_frames (db_wal d)))%nat);
  busy_timeout_law : forall q millis q' r,
    sqlite_busy_timeout q millis = (q', r) -> backfilled q' = backfilled q;
}.

(** ** The promise *)

(** The cursor and the known end of the shipper, after [i] frames of the WAL. *)
Definition tracks (wal : option (list byte)) (cursor known_end : option Cursor) (i : nat) : Prop :=
  match cursor with
  | None => i = O /\ known_end = None
  | Some c =>
      exists f h j, wal = Some f /\ wal_header f = Some h /\
        (i <= j <= length (committed_log h f))%nat /\
        c = cursor_at h f i /\ known_end = Some (cursor_at h f j)
  end.

(** The base and the captured frames, with what is still unread in the WAL on
    top, are the database; and unless the cursor would notice a restart, no
    unread frame may be in the database file already. *)
Definition in_sync (P : Z) (b : nat) (d : Database) (cursor known_end : option Cursor)
    (restart_ok : bool) (base : list byte) (captured : list Frame) : Prop :=
  wal_pages P (db_wal d) /\
  exists i, tracks (db_wal d) cursor known_end i /\
    logical P d = apply_frames P base (captured ++ drop i (wal_frames (db_wal d))) /\
    (cursor = None \/ restart_ok = true -> (b <= i)%nat).

(** The WAL is not the one the cursor points into. *)
Definition stale (wal : option (list byte)) (c : Cursor) : Prop :=
  match wal_head wal with Some h => h_salt h <> c_salt c | None => True end.

(** What [capture] finds once it holds the write connection: nothing but
    appended frames, or a restarted WAL, in which case the base and the
    captured frames are complete if [restart_ok] says so. *)
Definition ready (P : Z) (b : nat) (d : Database) (cursor known_end : option Cursor)
    (restart_ok : bool) (base : list byte) (captured : list Frame) : Prop :=
  in_sync P b d cursor known_end restart_ok base captured \/
  wal_pages P (db_wal d) /\ exists c, cursor = Some c /\ stale (db_wal d) c /\
    (restart_ok = true ->
       logical P d = apply_frames P base (captured ++ wal_frames (db_wal d)) /\ b = O).

(** ** Writers *)

Lemma apply_frames_app P base xs ys :
  apply_frames P base (xs ++ ys) = apply_frames P (apply_frames P base xs) ys.
Proof. apply foldl_app. Qed.

Lemma wal_frames_head wal : wal_head wal = None -> wal_frames wal = [].
Proof. destruct wal as [f|]; [|done]. cbn. by intros ->. Qed.

Lemma tracks_length wal cursor known_end i :
  tracks wal cursor known_end i -> (i <= length (wal_frames wal))%nat.
Proof.
  destruct cursor as [c|]; [|intros [-> _]; lia].
  intros (f & h & j & -> & Hh & Hij & _). cbn. rewrite Hh, length_map. lia.
Qed.

(** Appending keeps the position and adds the new frames to the unread ones. *)
Lemma in_sync_extend P b d d' f f' h cursor known_end restart_ok base captured :
  db_wal d = Some f -> wal_header f = Some h ->
  db_wal d' = Some f' -> wal_header f' = Some h ->
  committed_log h f `prefix_of` committed_log h f' -> db_file d' = db_file d ->
  in_sync P b d cursor known_end restart_ok base captured ->
  in_sync P b d' cursor known_end restart_ok base captured.
Proof.
  intros Ef Hh Ef' Hh' [more Hpre] Edb (Hp & i & Ht & Hl & Hb).
  assert (Efr : wal_frames (db_wal d') = wal_frames (db_wal d) ++ map entry_frame more).
  { rewrite Ef, Ef'. cbn. by rewrite Hh, Hh', Hpre, map_app. }
  pose proof (tracks_length _ _ _ _ Ht) as Hi.
  split.
  { intros h0 E0. rewrite Ef' in E0. cbn in E0. rewrite Hh' in E0.
    injection E0 as <-. apply Hp. by rewrite Ef. }
  exists i. split_and!; [| |done].
  - destruct cursor as [c|]; [|done]. rewrite Ef in Ht.
    destruct Ht as (f0 & h0 & j & [= <-] & Hh0 & Hij & -> & ->).
    assert (h0 = h) as -> by congruence. exists f', h, j.
    assert (Hcur : forall k, (k <= length (committed_log h f))%nat ->
                             cursor_at h f k = cursor_at h f' k).
    { intros k Hk. unfold cursor_at. by rewrite Hpre, take_app_le. }
    rewrite !Hcur by lia. split_and!; try done; [lia|].
    rewrite Hpre, length_app. lia.
  - unfold logical in *. rewrite Edb, Efr, drop_app_le by done.
    rewrite app_assoc, !apply_frames_app, <- apply_frames_app.
    rewrite apply_frames_app, Hl. by rewrite apply_frames_app.
Qed.

(** Reacquiring the write connection.  Whatever other writers did in the
    meantime, including a restart of the WAL, the shipper's state is one
    [capture] can continue from: it either still tracks the WAL, or the cursor
    is recognisably stale, and then [restart_ok] truthfully says whether every
    frame of the old WAL had been captured. *)
Theorem writers_keep_ready P b d b' d' cursor known_end restart_ok base captured :
  in_sync P b d cursor known_end restart_ok base captured ->
  writers P (b, d) (b', d') ->
  ready P b' d' cursor known_end restart_ok base captured.
Proof.
  intros Hs Hw. inversion Hw as [| ? ? ? f f' h|? ? ? Hhd Hp' Edb|? ? ? h h' Hhd Hhd' Hne Hp' Eb Edb Edb'];
    subst; [by left| | |].
  - left. by apply (in_sync_extend P b' d d' f f' h).
  - left. destruct Hs as (_ & i & Ht & Hl & Hb). split; [done|].
    destruct cursor as [c|].
    { destruct Ht as (f & h & j & E & Hh & _). rewrite E in Hhd. cbn in Hhd. congruence. }
    destruct Ht as [-> ->]. exists O. split_and!; [done| |done].
    unfold logical in *. rewrite (wal_frames_head _ Hhd) in Hl. cbn in Hl.
    rewrite app_nil_r in Hl. rewrite drop_0, apply_frames_app, Edb. by rewrite Hl.
  - destruct Hs as (Hp & i & Ht & Hl & Hb).
    pose proof (tracks_length _ _ _ _ Ht) as Hi.
    assert (Hall : (length (wal_frames (db_wal d)) <= i)%nat ->
              logical P d' = apply_frames P base (captured ++ wal_frames (db_wal d'))).
    { intros Hle. rewrite drop_ge, app_nil_r in Hl by lia.
      unfold logical at 1. rewrite Edb', Edb, Hl. by rewrite apply_frames_app. }
    destruct cursor as [c|].
    + right. split; [done|]. exists c. split_and!; [done| |].
      * unfold stale. rewrite Hhd'. destruct Ht as (f & h0 & j & E & Hh & Hij & -> & _).
        rewrite E in Hhd. cbn in Hhd. assert (h0 = h) as -> by congruence.
        destruct (cursor_at_spec f h Hh i ltac:(lia)) as ((Esalt & _) & _).
        by rewrite Esalt.
      * intros ->. split; [|done]. apply Hall. specialize (Hb (or_intror eq_refl)). lia.
    + left. destruct Ht as [-> ->]. split; [done|]. exists O.
      split_and!; [done| |lia]. rewrite drop_0. apply Hall.
      specialize (Hb (or_introl eq_refl)). lia.
Qed.

(** ** Reading *)

(** What opening the WAL shows while the write connection is held. *)
Definition wal_view (wal : option (list byte)) : wal_file :=
  match wal with Some f => WalOpened f f | None => WalMissing end.

Definition batch_frames (batches : list (Z * list Frame)) : list Frame :=
  concat (map snd batches).

Lemma batch_frames_one p frames : batch_frames [(p, frames)] = frames.
Proof. apply app_nil_r. Qed.

(** A read from a tracked position returns the next unread frames. *)
Lemma read_tracked P wal cursor known_end i :
  wal_pages P wal -> tracks wal cursor known_end i ->
  exists frames next done end_,
    read_committed (wal_view wal) cursor SEGMENT_FRAME_BYTES known_end =
      Ok (Frames frames next done end_) /\
    frames = take (length frames) (drop i (wal_frames wal)) /\
    tracks wal next end_ (i + length frames) /\
    done = bool_decide (i + length frames = length (wal_frames wal))%nat /\
    (next = None -> wal_frames wal = [] /\ i = O /\ cursor = None) /\
    (done = false -> CAPTURE_BYTES <= zlen frames * P /\ frames <> []) /\
    (forall c, next = Some c -> c_page_size c = P).
Proof.
  intros Hp Ht.
  destruct (wal_head wal) as [h|] eqn:Hh.
  - destruct wal as [f|]; [|done]. cbn in Hh. specialize (Hp h Hh).
    assert (Hpos : (i <= length (committed_log h f))%nat /\
              (cursor = Some (cursor_at h f i) \/ cursor = None /\ i = O) /\
              (known_end = None \/ exists j, (i <= j <= length (committed_log h f))%nat /\
                                             known_end = Some (cursor_at h f j))).
    { destruct cursor as [c|]; cbn in Ht.
      - destruct Ht as (f0 & h0 & j & [= <-] & Hh0 & Hij & -> & ->).
        assert (h0 = h) as -> by congruence. split_and!; [lia|by left|right; by exists j].
      - destruct Ht as [-> ->]. split_and!; [lia|by right|by left]. }
    destruct Hpos as (Hi & Hc & He). cbn [wal_view].
    rewrite (read_at_position f h Hh i cursor known_end SEGMENT_FRAME_BYTES Hi Hc He).
    set (log := committed_log h f) in *.
    set (k := fitting SEGMENT_FRAME_BYTES (h_page_size h) (length log - i)).
    assert (Hk : (i + k <= length log)%nat) by (unfold k, fitting; lia).
    assert (Hlen : length (map entry_frame (take k (drop i log))) = k)
      by (rewrite length_map, length_take, length_drop; lia).
    do 4 eexists. split; [reflexivity|]. cbn [wal_frames]. rewrite Hh. fold log.
    unfold zlen. rewrite Hlen, length_map. split_and!.
    + by rewrite skipn_map, firstn_map.
    + exists f, h, (length log). unfold log in *. split_and!; try done; lia.
    + done.
    + done.
    + rewrite bool_decide_eq_false. intros Hne.
      assert (Hq : k = Z.to_nat ((SEGMENT_FRAME_BYTES + P - 1) / P))
        by (unfold k, fitting in *; rewrite Hp in *; lia).
      destruct (wal_header_page_size _ _ Hh) as [Hps _]. apply page_size_ok_bounds in Hps.
      rewrite Hp in Hps. split.
      * pose proof (Z.mul_succ_div_gt (SEGMENT_FRAME_BYTES + P - 1) P ltac:(lia)).
        change CAPTURE_BYTES with SEGMENT_FRAME_BYTES.
        assert (0 <= (SEGMENT_FRAME_BYTES + P - 1) / P).
        { apply Z.div_pos; [change SEGMENT_FRAME_BYTES with 16777216|]; lia. }
        rewrite Hq, Z2Nat.id by lia. lia.
      * intros E. apply (f_equal length) in E. rewrite Hlen in E. cbn in E.
        pose proof (Z.div_le_lower_bound (SEGMENT_FRAME_BYTES + P - 1) P 1 ltac:(lia)).
        change SEGMENT_FRAME_BYTES with 16777216 in *. lia.
    + intros c [= <-]. destruct (cursor_at_spec f h Hh (i + k) Hk) as ((_ & _ & E) & _).
      rewrite E. exact Hp.
  - assert (Hn : cursor = None /\ i = O /\ known_end = None).
    { destruct cursor as [c|]; [|by destruct Ht].
      destruct Ht as (f & h & j & -> & E & _). cbn in Hh. congruence. }
    destruct Hn as (-> & -> & ->). exists [], None, true, None.
    split; [|by rewrite (wal_frames_head _ Hh)].
    destruct wal as [f|]; [|done]. cbn in Hh |- *. unfold wal_header in Hh. by rewrite Hh.
Qed.

Lemma read_stale wal c known_end limit :
  stale wal c ->
  exists why, read_committed (wal_view wal) (Some c) limit known_end = Ok (Reset why).
Proof.
  unfold stale. destruct wal as [f|]; [|by eexists]. cbn. unfold wal_header.
  destruct (if WAL_HEADER_LEN <=? zlen f then _ else _) as [h|]; [|by eexists].
  intros Hne. rewrite bool_decide_eq_false_2 by (intros E; by apply Hne). by eexists.
Qed.

(** The state of the loop after its iteration that reads frames. *)
Definition read_so_far (P : Z) (wal : option (list byte)) (cursor : option Cursor)
    (restart_ok : bool) (i : nat) (r : Reading) : Prop :=
  let frames := batch_frames (rd_batches r) in
  rd_reset r = None /\
  frames = take (length frames) (drop i (wal_frames wal)) /\
  tracks wal (rd_cursor r) (rd_known_end r) (i + length frames) /\
  rd_complete r = bool_decide (i + length frames = length (wal_frames wal))%nat /\
  (rd_complete r = false -> frames <> []) /\
  (rd_restart_ok r = true -> restart_ok = true /\ frames = []) /\
  (rd_cursor r = None -> wal_frames wal = [] /\ cursor = None) /\
  Forall (fun batch => batch.1 = P /\ batch.2 <> []) (rd_batches r).

(** One iteration from a tracked position ends the loop. *)
Lemma reading_step_tracked P wal r i :
  wal_pages P wal -> tracks wal (rd_cursor r) (rd_known_end r) i ->
  rd_batches r = [] -> rd_taken r = 0 -> rd_complete r = false -> rd_reset r = None ->
  exists read r',
    read_committed (wal_view wal) (rd_cursor r) SEGMENT_FRAME_BYTES (rd_known_end r) = Ok read /\
    reading_step r read = (r', false) /\
    read_so_far P wal (rd_cursor r) (rd_restart_ok r) i r'.
Proof.
  intros Hp Ht Eb Et Ec Er.
  destruct (read_tracked P wal _ _ i Hp Ht) as
    (frames & next & done & end_ & E & Hf & Htr & Hd & Hn & Hcap & Hps).
  exists (Frames frames next done end_). rewrite E. cbn [reading_step]. unfold read_so_far.
  destruct next as [c|].
  - specialize (Hps c eq_refl). destruct (Z.eqb_spec (zlen frames) 0) as [Hz|Hz]; cbn [negb].
    + assert (frames = []) as -> by (destruct frames; [done|rewrite zlen_cons in Hz; zlen_lia]).
      destruct done; [|by destruct (Hcap eq_refl)].
      eexists. split; [done|]. split; [done|]. cbn. rewrite Eb. cbn.
      split_and!; try done; auto using Forall_nil_2.
    + eexists. split; [done|]. rewrite Et, Eb, Ec, Er. cbn [rd_taken rd_batches rd_complete rd_reset app].
      destruct done.
      * split; [done|]. cbn [rd_reset rd_batches rd_cursor rd_known_end rd_complete rd_restart_ok].
        rewrite batch_frames_one. split_and!; try done.
        constructor; [|done]. split; [done|]. intros E0. cbn in E0. by rewrite E0 in Hz.
      * destruct (Hcap eq_refl) as [Hc Hne]. rewrite Z.add_0_l, Hps.
        destruct (Z.leb_spec CAPTURE_BYTES (zlen frames * P)); [|lia].
        split; [done|]. cbn [rd_reset rd_batches rd_cursor rd_known_end rd_complete rd_restart_ok].
        rewrite batch_frames_one. split_and!; try done.
        constructor; [|done]. by split.
  - destruct (Hn eq_refl) as (Hnil & -> & Hcn). rewrite Hnil in *.
    rewrite drop_nil, take_nil in Hf. subst frames. cbn in Hd. subst done.
    eexists. split; [done|]. split; [done|]. cbn. rewrite Eb. cbn.
    split_and!; try done; auto using Forall_nil_2. by destruct Htr.
Qed.

Section Capture.
Context {S Q : Type} `{Sqlite Q}.
Implicit Types n : Node S Q.

(** Nothing but the schedule of file outcomes changes. *)
Definition only_io n n' : Prop := n' = set_io (n_io n') n.

#[export] Instance only_io_preorder : PreOrder only_io.
Proof. split; [by intros []|]. unfold only_io. intros [] [] [] [= -> -> -> -> -> -> -> -> ->] [= -> -> -> -> -> -> -> -> ->]. done. Qed.

Lemma open_wal_spec {E} n n' (r : result E wal_file) :
  open_wal n = (n', r) ->
  only_io n n' /\ exists w, r = Ok w /\
    (w = wal_view (db_wal (n_database n)) \/ n_io n <> [] /\ exists e, w = WalOpenError e) /\
    (n_io n = [] -> n_io n' = []).
Proof.
  unfold open_wal, io_next, bind, gets, ret, only_io. destruct n as [? ? ? ? d ? ? io ? ?].
  destruct io as [|[|l] io]; cbn; intros [= <- <-]; (split; [done|]); eexists; (split; [done|]);
    destruct d as [? [w|]]; cbn; (split; [|done]); (by left) || (right; split; [done|eauto]).
Qed.

(** The loop from a tracked position. *)
Lemma reading_loop_tracked P fuel n r i :
  let wal := db_wal (n_database n) in
  wal_pages P wal -> tracks wal (rd_cursor r) (rd_known_end r) i ->
  rd_batches r = [] -> rd_taken r = 0 -> rd_complete r = false -> rd_reset r = None ->
  exists n' res, reading_loop (Datatypes.S fuel) r n = (n', res) /\ only_io n n' /\
    (n_io n <> [] /\ (exists e, res = Err e) \/
     exists r', res = Ok (Some r') /\ read_so_far P wal (rd_cursor r) (rd_restart_ok r) i r').
Proof.
  cbv zeta. intros Hp Ht Eb Et Ec Er. cbn [reading_loop]. unfold bind at 1.
  destruct (open_wal n) as [n1 w] eqn:Ew. apply open_wal_spec in Ew as (Ho & w' & -> & Hw & Hio).
  unfold bind, lift. destruct Hw as [->|[Hne [e ->]]]; [|cbn; eauto 9].
  destruct (reading_step_tracked P _ r i Hp Ht Eb Et Ec Er) as (read & r' & -> & Es & Hr).
  cbn [map_err]. rewrite Es. do 2 eexists. split; [done|]. split; [done|]. right. eauto.
Qed.

(** The loop from the state [capture] starts in. *)
Lemma reading_loop_ready P n cursor known_end restart_ok base captured b :
  let d := n_database n in
  let r := mkReading cursor known_end restart_ok [] 0 false None in
  ready P b d cursor known_end restart_ok base captured ->
  exists n' res, reading_loop reading_fuel r n = (n', res) /\ only_io n n' /\
    (n_io n <> [] /\ (exists e, res = Err e) \/
     exists r', res = Ok (Some r') /\
       (is_some (rd_reset r') = true \/
        wal_pages P (db_wal d) /\ exists i cursor' restart_ok',
          read_so_far P (db_wal d) cursor' restart_ok' i r' /\
          logical P d = apply_frames P base (captured ++ drop i (wal_frames (db_wal d))) /\
          (rd_cursor r' = None \/ rd_restart_ok r' = true -> (b <= i)%nat))).
Proof.
  intros d r [(Hp & i & Ht & Hl & Hb)|(Hp & c & -> & Hst & Hro)].
  - destruct (reading_loop_tracked P 2 n r i) as (n' & res & E & Ho & Hres); try done.
    exists n', res. split; [done|]. split; [done|].
    destruct Hres as [He|(r' & -> & Hr)]; [by left|]. right. exists r'. split; [done|].
    right. split; [done|]. exists i, cursor, restart_ok. split_and!; [done|done|].
    destruct Hr as (_ & _ & _ & _ & _ & Hro & Hcn & _). intros [Hc|Hc]; apply Hb.
    + left. by destruct (Hcn Hc).
    + right. by destruct (Hro Hc).
  - change reading_fuel with 3%nat. cbn [reading_loop]. unfold bind at 1.
    destruct (open_wal n) as [n1 w] eqn:Ew. apply open_wal_spec in Ew as (Ho & w' & -> & Hw & Hio).
    unfold bind at 1, lift. destruct Hw as [->|[Hne [e ->]]]; [|cbn; eauto 9].
    fold d. subst r. cbn [rd_cursor rd_known_end].
    destruct (read_stale _ c known_end SEGMENT_FRAME_BYTES Hst) as [why ->].
    cbn [map_err reading_step rd_restart_ok rd_cursor is_some andb]. destruct restart_ok.
    + assert (Ed : n_database n1 = d) by (by rewrite Ho).
      destruct (Hro eq_refl) as [Hl ->].
      destruct (reading_loop_tracked P 1 n1
                  (mkReading None None false [] 0 false None) O) as (n' & res & E & Ho' & Hres);
        try (by rewrite ?Ed).
      cbn [andb]. exists n', res. split; [exact E|]. split; [by etransitivity|].
      destruct Hres as [[Hne He]|(r' & -> & Hr)]; [left; split; [by intros Hn; apply Hne, Hio|done]|].
      right. exists r'. split; [done|].
      right. split; [done|]. exists O, None, false. rewrite Ed in Hr. by rewrite drop_0.
    + cbn [andb]. do 2 eexists. split; [done|]. split; [done|]. right.
      eexists. split; [done|]. by left.
Qed.

Lemma wal_metadata_len_spec {E} n n' (r : result E Z) :
  wal_metadata_len n = (n', r) -> only_io n n' /\ exists len, r = Ok len.
Proof.
  unfold wal_metadata_len, io_next, bind, gets, ret, only_io. destruct n as [? ? ? ? d ? ? io ? ?].
  destruct io as [|[|l] io]; cbn; intros [= <- <-]; split; eauto.
Qed.

Context {P : Z} `{!SqliteLaws Q P}.

Lemma checkpoint_truncate_spec r drained n n' r' truncated :
  checkpoint_truncate r drained n = (n', Ok (r', truncated)) ->
  logical P (n_database n') = logical P (n_database n) /\
  rd_batches r' = rd_batches r /\ rd_reset r' = rd_reset r /\ rd_complete r' = rd_complete r /\
  (if truncated then
     rd_cursor r' = None /\ rd_known_end r' = None /\ rd_restart_ok r' = false /\
     wal_head (db_wal (n_database n')) = None /\ backfilled (n_sqlite n') = O
   else
     rd_cursor r' = rd_cursor r /\ rd_known_end r' = rd_known_end r /\
     rd_restart_ok r' = drained || rd_restart_ok r /\
     db_wal (n_database n') = db_wal (n_database n) /\
     (backfilled (n_sqlite n') <= length (wal_frames (db_wal (n_database n))))%nat).
Proof.
  unfold checkpoint_truncate, sql_busy_timeout, sql_checkpoint, attempt, lift, bind, ret.
  destruct (sqlite_busy_timeout (n_sqlite n) _) as [q1 [[]|]] eqn:E1; [|done]. cbn.
  apply busy_timeout_law in E1.
  destruct (sqlite_checkpoint q1 (n_database n)) as [[q2 d2] busy] eqn:E2. cbn.
  apply checkpoint_law in E2 as (Hl & H0 & Hb).
  destruct (sqlite_busy_timeout q2 _) as [q3 [[]|]] eqn:E3; [|done]. cbn.
  apply busy_timeout_law in E3.
  destruct busy as [busy|]; [|done]. cbn.
  destruct (Z.eqb_spec busy 0) as [->|Hne].
  - intros [= <- <- <-]. cbn. destruct (H0 eq_refl) as [Hh Hbf].
    split_and!; try done. congruence.
  - destruct (Hb busy eq_refl Hne) as [Hw Hle].
    destruct drained; intros [= <- <- <-]; cbn; split_and!; try done; congruence.
Qed.

(** The position and the promise after the frames that were read. *)
Lemma read_so_far_sync d cursor restart_ok i r base captured :
  read_so_far P (db_wal d) cursor restart_ok i r ->
  logical P d = apply_frames P base (captured ++ drop i (wal_frames (db_wal d))) ->
  let taken := captured ++ batch_frames (rd_batches r) in
  let i' := (i + length (batch_frames (rd_batches r)))%nat in
  logical P d = apply_frames P base (taken ++ drop i' (wal_frames (db_wal d))) /\
  (rd_complete r = true -> length (wal_frames (db_wal d)) = i' /\
                           logical P d = apply_frames P base taken) /\
  (rd_complete r = false -> rd_restart_ok r = false /\ is_Some (rd_cursor r)).
Proof.
  intros (_ & Hfr & Htr & Hcomp & Hne & Hro & Hcn & _) Hlog. cbv zeta.
  set (frames := batch_frames (rd_batches r)) in *.
  assert (Hlog' : logical P d = apply_frames P base
            ((captured ++ frames) ++ drop (i + length frames) (wal_frames (db_wal d)))).
  { rewrite Hlog, <- app_assoc. do 2 f_equal.
    rewrite Hfr at 1. by rewrite <- drop_drop, take_drop. }
  split_and!; [done| |].
  - rewrite Hcomp, bool_decide_eq_true. intros E. split; [done|].
    by rewrite Hlog', E, drop_all, app_nil_r.
  - intros Hc. split.
    + destruct (rd_restart_ok r); [|done]. destruct (Hro eq_refl) as [_ E]. by destruct (Hne Hc).
    + destruct (rd_cursor r) as [c|] eqn:Ecur; [by eexists|]. destruct (Hcn eq_refl) as [E _].
      rewrite E, drop_nil, take_nil in Hfr. by destruct (Hne Hc).
Qed.

(** The files after [capture]'s decision to checkpoint, in both cases. *)
Lemma checkpoint_choice_spec (now : bool) r drained n n' r' truncated :
  (if now then checkpoint_truncate r drained else ret (r, false)) n = (n', Ok (r', truncated)) ->
  logical P (n_database n') = logical P (n_database n) /\
  rd_batches r' = rd_batches r /\ rd_reset r' = rd_reset r /\
  (if truncated then
     rd_cursor r' = None /\ rd_known_end r' = None /\ rd_restart_ok r' = false /\
     wal_head (db_wal (n_database n')) = None /\ backfilled (n_sqlite n') = O
   else
     rd_cursor r' = rd_cursor r /\ rd_known_end r' = rd_known_end r /\
     db_wal (n_database n') = db_wal (n_database n) /\
     (n_sqlite n' = n_sqlite n /\ rd_restart_ok r' = rd_restart_ok r \/
      rd_restart_ok r' = drained || rd_restart_ok r /\
      (backfilled (n_sqlite n') <= length (wal_frames (db_wal (n_database n))))%nat)).
Proof.
  destruct now.
  - intros (Hl & Hb & Hr & _ & Ht)%checkpoint_truncate_spec. split_and!; try done.
    destruct truncated; [done|]. destruct Ht as (? & ? & ? & ? & ?). split_and!; try done. by right.
  - intros [= <- <- <-]. split_and!; try done. by left.
Qed.

(** C27: A capture keeps the promise.  When a generation can take frames,
    [capture] does not change what readers of the database see; and unless it
    reports a loss, the generation's base with all frames captured so far and
    the still unread frames of the WAL is the database, and the base with the
    captured frames alone is the database as soon as the capture drained the
    WAL.  Every batch is nonempty and in the database's page size. *)
Theorem capture_keeps_sync n n' cursor known_end restart_ok rotate base captured cap :
  ready P (backfilled (n_sqlite n)) (n_database n) cursor known_end restart_ok base captured ->
  capture cursor known_end restart_ok rotate true n = (n', Ok cap) ->
  logical P (n_database n') = logical P (n_database n) /\
  (cap_lost cap = None ->
   let taken := captured ++ batch_frames (cap_batches cap) in
   in_sync P (backfilled (n_sqlite n')) (n_database n') (cap_cursor cap) (cap_known_end cap)
     (cap_restart_ok cap) base taken /\
   (cap_drained cap = true -> logical P (n_database n') = apply_frames P base taken) /\
   Forall (fun batch => batch.1 = P /\ batch.2 <> []) (cap_batches cap)).
Proof.
  intros Hr. unfold capture. cbv zeta.
  destruct (reading_loop_ready P n _ _ _ _ _ _ Hr) as (n1 & res & El & Ho1 & Hres).
  unfold bind at 1. rewrite El.
  destruct Hres as [[_ [e ->]]|(r & -> & Hr')]; [done|].
  unfold bind at 1. destruct (wal_metadata_len n1) as [n2 res2] eqn:E2.
  apply wal_metadata_len_spec in E2 as (Ho2 & len & ->).
  assert (Ho : only_io n n2) by (by etransitivity). clear Ho1 Ho2 El.
  assert (Ed : n_database n2 = n_database n) by (by rewrite Ho).
  assert (Eq : n_sqlite n2 = n_sqlite n) by (by rewrite Ho).
  set (drained := true && rd_complete r && negb (is_some (rd_reset r))).
  intros (n3 & [r3 truncated] & E3 & [= <- <-])%bind_ok. cbn.
  apply checkpoint_choice_spec in E3 as (Hl & Eb & Er & Ht). rewrite Ed, Eq in *.
  split; [done|]. intros Hlost.
  destruct Hr' as [Hreset|(Hp & i & cur & ro & Hread & Hlog & Hbf)].
  { rewrite <- Er in Hreset. by destruct (rd_reset r3). }
  pose proof Hread as (Hres & _ & Htr & _ & _ & _ & _ & Hbat).
  destruct (read_so_far_sync _ _ _ _ _ _ _ Hread Hlog) as (Hlog' & Hdone & Hmore).
  rewrite Er, Hres in Hlost. rewrite Eb.
  set (frames := batch_frames (rd_batches r)) in *.
  assert (Hdr : drained = rd_complete r) by (unfold drained; rewrite Hres; by destruct (rd_complete r)).
  rewrite Hdr in *. split_and!; [| |done].
  - destruct truncated.
    + destruct Ht as (-> & -> & -> & Hh & ->). destruct (rd_complete r); [|done].
      split; [by intros h; rewrite Hh|]. exists O. split_and!; [done| |lia].
      rewrite Hl, (wal_frames_head _ Hh), drop_nil, app_nil_r. by apply Hdone.
    + destruct Ht as (-> & -> & Ew & Hck). split; [by rewrite Ew|].
      exists (i + length frames)%nat. rewrite Ew, Hl. split_and!; [done|done|].
      destruct Hck as [[-> ->]|[-> Hle]]; [intros Hx; specialize (Hbf Hx); lia|].
      destruct (rd_complete r); [destruct Hdone as [E _]; [done|]; lia|].
      destruct (Hmore eq_refl) as [-> [c ->]]. by intros [|].
  - intros Hc. rewrite Hl. by apply Hdone.
Qed.

(** After a checkpoint that truncated the WAL the database file alone is
    the database, so a copy of it is a base with nothing captured yet, and the
    shipper's cursor is where that generation's capture starts. *)
Theorem capture_truncated n n' cursor known_end restart_ok rotate read cap :
  capture cursor known_end restart_ok rotate read n = (n', Ok cap) ->
  cap_truncated cap = true ->
  db_file (n_database n') = logical P (n_database n') /\
  in_sync P (backfilled (n_sqlite n')) (n_database n') (cap_cursor cap) (cap_known_end cap)
    (cap_restart_ok cap) (db_file (n_database n')) [].
Proof.
  unfold capture. cbv zeta. intros (n1 & [r|] & _ & E)%bind_ok; [|done].
  apply bind_ok in E as (n2 & len & _ & E).
  apply bind_ok in E as (n3 & [r3 truncated] & E3 & [= <- <-]). cbn. intros ->.
  apply checkpoint_choice_spec in E3 as (_ & _ & _ & -> & -> & -> & Hh & ->).
  unfold logical. rewrite (wal_frames_head _ Hh). split; [done|].
  split; [by intros h; rewrite Hh|]. exists O. split_and!; [done| |lia].
  unfold logical. by rewrite (wal_frames_head _ Hh).
Qed.

(** A capture ends.  From any state the shipper can be in, with file
    operations and SQLite calls that succeed, [capture] returns: the reading
    loop ends within its fuel, after at most one restart and one read. *)
Theorem capture_returns n cursor known_end restart_ok rotate base captured :
  ready P (backfilled (n_sqlite n)) (n_database n) cursor known_end restart_ok base captured ->
  n_io n = [] ->
  (forall q millis, exists q', sqlite_busy_timeout q millis = (q', Ok tt)) ->
  (forall q d, exists q' d' busy, sqlite_checkpoint q d = (q', d', Ok busy)) ->
  exists n' cap, capture cursor known_end restart_ok rotate true n = (n', Ok cap).
Proof.
  intros Hr Hio Hbt Hck. unfold capture. cbv zeta.
  destruct (reading_loop_ready P n _ _ _ _ _ _ Hr) as (n1 & res & El & Ho1 & Hres).
  unfold bind at 1. rewrite El. destruct Hres as [[Hne _]|(r & -> & _)]; [done|].
  unfold bind at 1. destruct (wal_metadata_len n1) as [n2 res2] eqn:E2.
  apply wal_metadata_len_spec in E2 as (_ & len & ->).
  set (drained := _ && _). unfold bind at 1.
  destruct (rotate || _); [|by do 2 eexists].
  unfold checkpoint_truncate, sql_busy_timeout, sql_checkpoint, attempt, lift, bind, ret.
  destruct (Hbt (n_sqlite n2) CHECKPOINT_BUSY) as [q1 ->]. cbn.
  destruct (Hck q1 (n_database n2)) as (q2 & d2 & busy & ->). cbn.
  destruct (Hbt q2 BUSY_TIMEOUT) as [q3 ->].
  cbn. destruct (busy =? 0); [|destruct (rd_complete r && _)]; do 2 eexists; reflexivity.
Qed.
End Capture.

(** ** A concrete SQLite *)

(** Writers append the scripted WALs, one per acquisition, to a database whose
    WAL is empty; a checkpoint always succeeds. *)
Definition demo_script : Type := list (list byte).

Definition demo_acquire (q : demo_script) (d : Database)
  : demo_script * Database * result string unit :=
  match q with
  | f :: q =>
      match wal_head (db_wal d), wal_header f with
      | None, Some h =>
          if h_page_size h =? 512 then (q, mkDatabase (db_file d) (Some f), Ok tt)
          else (q, d, Ok tt)
      | _, _ => (q, d, Ok tt)
      end
  | [] => (q, d, Ok tt)
  end.

#[export] Instance demo_sqlite : Sqlite demo_script := {|
  sqlite_acquire := demo_acquire;
  sqlite_busy_timeout q _ := (q, Ok tt);
  sqlite_checkpoint q d := (q, mkDatabase (logical 512 d) (Some []), Ok 0);
  sqlite_vacuum q d := (q, Ok (logical 512 d));
  sqlite_close q := q;
  sqlite_open q d := (q, d, Ok tt);
  sqlite_watch q := (q, Ok O);
  sqlite_data_version q _ := (q, Ok 0);
  sqlite_unwatch q _ := q;
|}.

#[export] Program Instance demo_sqlite_laws : SqliteLaws demo_script 512 :=
  {| backfilled _ := O |}.
Next Obligation.
  intros q d q' d' r. cbn. unfold demo_acquire. destruct q as [|f q].
  { intros [= <- <- <-]. constructor. }
  destruct (wal_head (db_wal d)) eqn:Hd; [intros [= <- <- <-]; constructor|].
  destruct (wal_header f) as [h|] eqn:Hf; [|intros [= <- <- <-]; constructor].
  destruct (Z.eqb_spec (h_page_size h) 512) as [Hp|]; intros [= <- <- <-]; [|constructor].
  apply writers_first; [done| |done]. intros h' E. cbn in E. rewrite Hf in E. by injection E as <-.
Qed.
Next Obligation.
  intros q d q' d' r [= <- <- <-]. split_and!; [done|done|]. intros busy [= <-] Hne. by destruct Hne.
Qed.
Next Obligation. by intros q millis q' r [= <- <-]. Qed.

Definition demo_db_node (wal : option (list byte)) : Node unit demo_script :=
  mkNode SyncState_default true 1 ∅ (mkDatabase [] wal) tt [] [] 0 [].

(** A database whose WAL was just truncated, with nothing captured. *)
Lemma demo_in_sync : in_sync 512 0 (mkDatabase [] (Some [])) None None false [] [].
Proof. split; [done|]. exists O. by split_and!. Qed.

Lemma demo_ready : ready 512 0 (mkDatabase [] (Some demo_wal)) None None false [] [].
Proof.
  left. split.
  - intros h E. assert (E' : wal_header demo_wal = Some h) by exact E.
    rewrite demo_wal_is_log in E'. by injection E' as <-.
  - exists O. by split_and!.
Qed.

Lemma writers_keep_ready_witness :
  ready 512 0 (mkDatabase [] (Some demo_wal)) None None false [] [].
Proof.
  apply (writers_keep_ready 512 0 (mkDatabase [] (Some [])) 0 (mkDatabase [] (Some demo_wal))).
  - exact demo_in_sync.
  - apply writers_first; [done| |done]. intros h E.
    assert (E' : wal_header demo_wal = Some h) by exact E.
    rewrite demo_wal_is_log in E'. by injection E' as <-.
Defined.

Lemma capture_keeps_sync_witness :
  match capture None None false false true (demo_db_node (Some demo_wal)) with
  | (n', Ok cap) =>
      logical 512 (n_database n') = apply_frames 512 [] (batch_frames (cap_batches cap))
  | _ => False
  end.
Proof.
  assert (Hok : match (capture None None false false true (demo_db_node (Some demo_wal))).2 with
                | Ok cap => cap_lost cap = None /\ cap_drained cap = true
                | Err _ => False
                end) by (vm_compute; split; reflexivity).
  destruct (capture None None false false true _) as [n' [cap|e]] eqn:E; [|exact Hok].
  destruct Hok as [Hl Hd].
  apply (capture_keeps_sync (P := 512) (SqliteLaws0 := demo_sqlite_laws) (demo_db_node (Some demo_wal)) n'
           None None false false [] [] cap demo_ready E); assumption.
Defined.

Lemma capture_truncated_witness :
  match capture None None false true true (demo_db_node (Some demo_wal)) with
  | (n', Ok cap) => db_file (n_database n') = logical 512 (n_database n')
  | _ => False
  end.
Proof.
  assert (Hok : match (capture None None false true true (demo_db_node (Some demo_wal))).2 with
                | Ok cap => cap_truncated cap = true
                | Err _ => False
                end) by (vm_compute; reflexivity).
  destruct (capture None None false true true _) as [n' [cap|e]] eqn:E; [|exact Hok].
  apply (capture_truncated (P := 512) (SqliteLaws0 := demo_sqlite_laws) (demo_db_node (Some demo_wal)) n' None None false true true
           cap E Hok).
Defined.

Lemma capture_returns_witness :
  exists n' cap, capture None None false true true (demo_db_node (Some demo_wal)) = (n', Ok cap).
Proof.
  apply (capture_returns (P := 512) (SqliteLaws0 := demo_sqlite_laws) (demo_db_node (Some demo_wal)) None None false true [] []
           demo_ready eq_refl).
  - intros q millis. by eexists.
  - intros q d. by do 3 eexists.
Defined.
