(* ===== verification/Shipping.v ===== *)
(** * Queueing and uploading segments (objstore/metasync/walship.rs)

    [queue_segments] turns captured frames into numbered segments of the
    current generation, [upload_pending] puts them in the bucket in order.  For
    each generation the bucket holds a prefix of its segments at all times,
    whichever requests fail, also when a failed write did land. *)

From stdpp Require Import prelude list strings pretty gmap.
From Stdlib Require Import ZArith Lia Ascii.
From S2P Require Import Prelude Bytes Strings WalFmt Instances WalSegments ObjectApi MemStore.
From S2P Require Import Node SnapCodec Fencing WalShip Keys Capture.

(** ** Specification *)

(** The segments [bs], starting at frame [first], hold the frames [fs]. *)
Inductive segments_of `{Codec} (P : Z) : Z -> list (list byte) -> list Frame -> Prop :=
| segments_nil first : segments_of P first [] []
| segments_cons first b bs seg fs :
    decode_segment b = Ok seg -> s_first_frame seg = first -> s_page_size seg = P ->
    segments_of P (first + zlen (s_frames seg)) bs fs ->
    segments_of P first (b :: bs) (s_frames seg ++ fs).

Fixpoint numbered (k : Z) (bs : list (list byte)) : list (Z * list byte) :=
  match bs with
  | [] => []
  | b :: bs => (k, b) :: numbered (k + 1) bs
  end.

(** The queued segments of a generation with their numbers. *)
Definition queued (ps : list Pending) (g : string) : list (Z * list byte) :=
  map (fun p => (p_seq p, p_bytes p)) (filter (fun p => p_generation p = g) ps).

(** The queue holds the generation's segments [hist] from number [k] on. *)
Definition aligned (ps : list Pending) (g : string) (hist : list (list byte)) (k : nat) : Prop :=
  (k <= length hist)%nat /\ queued ps g = numbered (Z.of_nat k) (drop k hist).

(** The byte count is the size of the queue. *)
Definition shipper_ok (sh : Shipper) : Prop := sh_pending_bytes sh = pending_total (sh_pending sh).

(** The generation [id] has the segments [hist], which hold [captured]. *)
Definition shipping `{Codec} (P : Z) (sh : Shipper) (id : string) (hist : list (list byte))
    (captured : list Frame) (k : nat) : Prop :=
  segments_of P 0 hist captured /\ aligned (sh_pending sh) id hist k /\
  exists g, sh_generation sh = Some g /\ g_id g = id /\ g_broken g = false /\
    g_next_seq g = zlen hist /\ g_next_frame g = zlen captured.

Definition broken (sh : Shipper) : Prop :=
  exists g, sh_generation sh = Some g /\ g_broken g = true.

(** ** Lists of segments *)

Lemma numbered_app k xs ys : numbered k (xs ++ ys) = numbered k xs ++ numbered (k + zlen xs) ys.
Proof.
  revert k. induction xs as [|x xs IH]; intros k; cbn [numbered app].
  - by rewrite zlen_nil, Z.add_0_r.
  - rewrite IH, zlen_cons. do 3 f_equal. lia.
Qed.

Lemma segments_of_app `{Codec} P first bs fs bs' fs' :
  segments_of P first bs fs -> segments_of P (first + zlen fs) bs' fs' ->
  segments_of P first (bs ++ bs') (fs ++ fs').
Proof.
  intros H1. induction H1 as [|first b bs seg fs Hd Hf Hp H1 IH]; intros H2; cbn [app].
  - by rewrite zlen_nil, Z.add_0_r in H2.
  - rewrite <- app_assoc. econstructor; eauto. apply IH.
    rewrite zlen_app in H2. replace (first + zlen (s_frames seg) + zlen fs)
      with (first + (zlen (s_frames seg) + zlen fs)) by lia. done.
Qed.

Lemma pending_total_cons p ps : pending_total (p :: ps) = zlen (p_bytes p) + pending_total ps.
Proof. done. Qed.

Lemma pending_total_app xs ys : pending_total (xs ++ ys) = pending_total xs + pending_total ys.
Proof.
  induction xs as [|p xs IH]; [done|].
  rewrite <- app_comm_cons, !pending_total_cons, IH. lia.
Qed.

Lemma pending_total_filter (R : Pending -> Prop) `{!forall p, Decision (R p)} ps :
  0 <= pending_total (filter R ps) <= pending_total ps.
Proof.
  induction ps as [|p ps IH]; [done|]. rewrite filter_cons.
  pose proof (zlen_nonneg (p_bytes p)).
  destruct (decide (R p)); rewrite ?pending_total_cons; lia.
Qed.

Lemma queued_app xs ys g : queued (xs ++ ys) g = queued xs g ++ queued ys g.
Proof. unfold queued. by rewrite filter_app, map_app. Qed.

Lemma queued_except ps g id : g <> id -> queued (filter (fun p => p_generation p <> id) ps) g = queued ps g.
Proof.
  intros Hne. unfold queued. f_equal. induction ps as [|p ps IH]; [done|].
  rewrite !filter_cons. destruct (decide (p_generation p = g)) as [<-|].
  - rewrite decide_True by done. rewrite filter_cons, decide_True by done. by rewrite IH.
  - destruct (decide (p_generation p <> id)); [|done]. by rewrite filter_cons, decide_False.
Qed.

(** ** Queueing *)

Lemma push_encoded_spec id seq encoded next_frame pending_bytes pending :
  push_encoded id seq encoded next_frame pending_bytes pending =
  (seq + zlen encoded,
   next_frame + foldr (fun e acc => e.2 + acc) 0 encoded,
   pending_bytes + foldr (fun e acc => zlen e.1 + acc) 0 encoded,
   pending ++ map (fun e => mkPending id e.1 e.2) (numbered seq (map fst encoded))).
Proof.
  revert seq next_frame pending_bytes pending.
  induction encoded as [|[b n] encoded IH]; intros; cbn [push_encoded].
  - cbn. by rewrite zlen_nil, !Z.add_0_r, app_nil_r.
  - rewrite IH, zlen_cons. cbn [foldr map numbered fst snd].
    rewrite <- app_assoc. cbn [app]. f_equal. f_equal; [f_equal; lia|lia].
Qed.

Section Queue.
Context `{CodecLaws} (P : Z) (Hpage : page_size_ok P = true).

(** Encoded batches are segments that hold their frames. *)
Lemma encode_batches_spec first batches encoded :
  0 <= first -> first + zlen (batch_frames batches) <= u64_max ->
  Forall (fun batch => batch.1 = P /\ batch.2 <> [] /\ Forall (frame_ok P) batch.2) batches ->
  encode_batches first batches = Ok encoded ->
  segments_of P first (map fst encoded) (batch_frames batches) /\
  foldr (fun e acc => e.2 + acc) 0 encoded = zlen (batch_frames batches).
Proof.
  revert first encoded. induction batches as [|[p fs] batches IH]; intros first encoded Hfirst Hb HF.
  { intros [= <-]. split; [constructor|done]. }
  apply Forall_cons in HF as [(Ep & Hne & Hok) HF]. cbn [fst snd] in *. subst p.
  unfold batch_frames in *. cbn [map concat snd] in *. rewrite zlen_app in *.
  cbn [encode_batches]. intros Hd. pose proof (zlen_nonneg (concat (map snd batches))).
  pose proof (zlen_nonneg fs).
  destruct (encode_segment P first fs) as [bytes|] eqn:E; cbn in Hd; [|done].
  destruct (encode_batches (first + zlen fs) batches) as [rest|] eqn:Er; cbn in Hd; [|done].
  injection Hd as <-. destruct (IH (first + zlen fs) rest) as [IH1 IH2]; try done; try lia.
  assert (Hu32 : is_u32 (zlen fs)).
  { unfold encode_segment in E. repeat case_in E. bool_to_prop. unfold is_u32, u32_max in *. lia. }
  split; [|cbn [foldr snd]; lia].
  cbn [map fst]. apply (segments_cons P first bytes _ (mkSegment P first fs)); try done.
  apply decode_encoded; [|done].
  split_and!; cbn; try done. unfold is_u64, u64_max in *. lia.
Qed.

Lemma queued_numbered id k bs :
  queued (map (fun e => mkPending id e.1 e.2) (numbered k bs)) id = numbered k bs.
Proof.
  revert k. induction bs as [|b bs IH]; intros k; [done|]. unfold queued in *.
  cbn [numbered map]. rewrite filter_cons, decide_True by done. cbn [map p_seq p_bytes fst snd].
  by rewrite IH.
Qed.

Lemma pending_total_pushed id k encoded :
  pending_total (map (fun e => mkPending id e.1 e.2) (numbered k (map fst encoded))) =
  foldr (fun (e : list byte * Z) acc => zlen e.1 + acc) 0 encoded.
Proof. revert k. induction encoded as [|[b n] encoded IH]; intros k; cbn in *; [done|]. by rewrite IH. Qed.

(** Queueing keeps the generation's segments complete.  The captured
    batches become the next segments of the generation, numbered and indexed
    without a gap after the ones it has, and decode to exactly the captured
    frames; or the generation is marked broken, so that a new base will carry
    the changes. *)
Theorem queue_segments_spec sh id hist captured k batches :
  shipping P sh id hist captured k ->
  zlen captured + zlen (batch_frames batches) <= u64_max ->
  Forall (fun batch => batch.1 = P /\ batch.2 <> [] /\ Forall (frame_ok P) batch.2) batches ->
  broken (queue_segments sh batches) \/
  exists new, shipping P (queue_segments sh batches) id (hist ++ new)
                (captured ++ batch_frames batches) k.
Proof.
  intros (Hseg & [Hk Hq] & g & Eg & Eid & Ebr & Es & Ef) Hb HF.
  destruct batches as [|batch batches].
  { right. exists []. unfold batch_frames. cbn. rewrite !app_nil_r. repeat split; eauto 10. }
  unfold queue_segments. rewrite Eg, Ebr. set (bs := batch :: batches) in *.
  destruct (encode_batches (g_next_frame g) bs) as [encoded|] eqn:Ee.
  2:{ left. unfold broken, mark_broken. cbn. rewrite Eg, Ebr. cbn. by eexists. }
  rewrite push_encoded_spec. cbv zeta.
  match goal with |- context [if ?c then _ else _] => destruct c end.
  { left. unfold broken, mark_broken, drop_pending_of. cbn. by eexists. }
  right. exists (map fst encoded).
  destruct (encode_batches_spec (g_next_frame g) bs encoded) as [Hnew Hcount]; try done.
  { rewrite Ef. apply zlen_nonneg. }
  { lia. }
  rewrite Ef in Hnew. split_and!; cbn.
  - apply segments_of_app; [done|]. by rewrite Z.add_0_l.
  - split; [rewrite length_app; lia|].
    rewrite queued_app, Hq, Eid, queued_numbered, drop_app_le, numbered_app by done.
    do 2 f_equal. rewrite Es. unfold zlen. rewrite length_drop. lia.
  - eexists. split; [done|]. cbn. split_and!; try done.
    + rewrite Es, zlen_app. unfold zlen. by rewrite length_map.
    + rewrite Hcount, Ef, zlen_app. done.
Qed.

(** The queue is bounded.  The byte count is always the size of the
    queue, and queueing never leaves more than [MAX_PENDING_BYTES] in it,
    however much was captured and for however long the bucket cannot be
    reached. *)
Theorem queue_segments_bounded sh batches :
  shipper_ok sh -> sh_pending_bytes sh <= MAX_PENDING_BYTES ->
  shipper_ok (queue_segments sh batches) /\
  sh_pending_bytes (queue_segments sh batches) <= MAX_PENDING_BYTES.
Proof.
  intros Hok Hmax. unfold queue_segments. destruct batches as [|batch batches]; [done|].
  destruct (sh_generation sh) as [g|] eqn:Eg; [|done]. destruct (g_broken g); [done|].
  destruct (encode_batches _ _) as [encoded|]; [|done].
  rewrite push_encoded_spec. unfold shipper_ok in *. cbv zeta.
  set (pushed := map _ (numbered _ _)).
  assert (Htot : sh_pending_bytes sh + foldr (fun e acc => zlen e.1 + acc) 0 encoded =
                 pending_total (sh_pending sh ++ pushed)).
  { unfold pushed. by rewrite pending_total_app, pending_total_pushed, Hok. }
  match goal with |- context [if ?c then _ else _] => destruct c eqn:Ec end;
    bool_to_prop; cbn; [|split; [done|lia]].
  split; [done|]. rewrite filter_app, pending_total_app.
  assert (Hnone : filter (fun p => p_generation p <> g_id g) pushed = []).
  { unfold pushed. clear. generalize (g_next_seq g). induction encoded as [|[b n] encoded IH];
      intros k; [done|]. cbn [map numbered fst]. rewrite filter_cons, decide_False by auto.
    apply IH. }
  rewrite Hnone. cbn. pose proof (pending_total_filter (fun p => p_generation p <> g_id g)
                                     (sh_pending sh)). lia.
Qed.
End Queue.

(** ** Keys of different segments are different *)

#[local] Arguments String.append : simpl nomatch.

Lemma split_at_slash a b x y :
  str_all (fun c => negb (Ascii.eqb c "/"%char)) a = true ->
  str_all (fun c => negb (Ascii.eqb c "/"%char)) b = true ->
  a +:+ String "/"%char x = b +:+ String "/"%char y -> a = b.
Proof.
  revert b. induction a as [|c a IH]; intros [|d b]; cbn; try done.
  - intros _ Hd [= <- _]. by rewrite Ascii.eqb_refl in Hd.
  - intros Hc _ [= -> _]. by rewrite Ascii.eqb_refl in Hc.
  - rewrite !andb_true_iff. intros [_ Ha] [_ Hb] [= <- E]. f_equal. by apply IH.
Qed.

Lemma valid_generation_no_slash g :
  valid_generation g = true -> str_all (fun c => negb (Ascii.eqb c "/"%char)) g = true.
Proof.
  unfold valid_generation. rewrite !andb_true_iff. intros [_ Ha]. revert Ha.
  apply str_all_impl. intros c Hc. destruct (Ascii.eqb_spec c "/"%char) as [->|]; [|done].
  by vm_compute in Hc.
Qed.

Lemma str_app_inj_l p x y : p +:+ x = p +:+ y -> x = y.
Proof. induction p as [|c p IH]; cbn; [done|]. intros [= E]. by apply IH. Qed.

Lemma segment_key_generation cfg g1 g2 i j :
  valid_generation g1 = true -> valid_generation g2 = true ->
  segment_key cfg g1 i = segment_key cfg g2 j -> g1 = g2.
Proof.
  intros H1 H2. unfold segment_key, generation_prefix.
  rewrite !str_app_assoc. intros E%str_app_inj_l.
  by eapply split_at_slash; [by apply valid_generation_no_slash..|].
Qed.

Lemma segment_key_seq cfg g i j :
  0 <= i <= u64_max -> 0 <= j <= u64_max ->
  segment_key cfg g i = segment_key cfg g j -> i = j.
Proof.
  intros Hi Hj E. pose proof (segment_key_compare cfg g i j Hi Hj) as Hc.
  rewrite E in Hc. apply Z.compare_eq. rewrite <- Hc, segment_key_compare by done.
  apply Z.compare_refl.
Qed.

(** ** Uploading *)

Section Upload.
Context {S Q : Type} `{ObjectApiLaws S} (cfg : Config).
Context (g : string) (hist : list (list byte)).
Context (Hg : valid_generation g = true) (Hlen : zlen hist <= u64_max).
Abbreviation bucket := (cfg_bucket cfg).
Implicit Types (n : Node S Q) (s : S).

(** Nobody else touches this generation's segments. *)
Context (Hown : forall s s' i, env s s' -> 0 <= i <= u64_max ->
  objects s' bucket !! segment_key cfg g i = objects s bucket !! segment_key cfg g i).

(** The bucket holds exactly the first [m] segments of the generation. *)
Definition stored_prefix s (m : nat) : Prop :=
  (m <= length hist)%nat /\
  forall i : nat, Z.of_nat i <= u64_max ->
    option_map o_body (objects s bucket !! segment_key cfg g (Z.of_nat i)) = take m hist !! i.

(** The queue continues what is stored, up to one segment whose write landed
    without being acknowledged. *)
Definition upload_inv (ps : list Pending) s : Prop :=
  exists k m, aligned ps g hist k /\ (k <= m <= k + 1)%nat /\ stored_prefix s m.

Lemma stored_prefix_ext s s' m :
  (forall i, 0 <= i <= u64_max ->
     objects s' bucket !! segment_key cfg g i = objects s bucket !! segment_key cfg g i) ->
  stored_prefix s m -> stored_prefix s' m.
Proof. intros He [Hm Hs]. split; [done|]. intros i Hi. rewrite He by lia. by apply Hs. Qed.

Lemma stored_prefix_env s s' m : env s s' -> stored_prefix s m -> stored_prefix s' m.
Proof. intros He. apply stored_prefix_ext. intros i. by apply Hown. Qed.

(** Writing the next segment extends the prefix. *)
Lemma stored_prefix_snoc s s' m o b :
  stored_prefix s m -> hist !! m = Some b -> o_body o = b ->
  objects s' bucket = <[segment_key cfg g (Z.of_nat m) := o]> (objects s bucket) ->
  stored_prefix s' (m + 1).
Proof.
  intros [Hm Hs] Hb Ho E. pose proof (lookup_lt_Some _ _ _ Hb) as Hlt.
  split; [lia|]. intros i Hi. rewrite E. destruct (decide (i = m)) as [->|Hne].
  - rewrite lookup_insert_eq. cbn. rewrite lookup_take_lt by lia. congruence.
  - rewrite lookup_insert_ne.
    2:{ intros Ek. apply segment_key_seq in Ek; unfold zlen in Hlen; lia. }
    rewrite Hs by done. destruct (decide (i < m)%nat).
    + by rewrite !lookup_take_lt by lia.
    + by rewrite !lookup_take_ge by lia.
Qed.

(** The head of the queue, when it belongs to the generation. *)
Lemma aligned_head p ps k :
  aligned (p :: ps) g hist k -> p_generation p = g ->
  p_seq p = Z.of_nat k /\ hist !! k = Some (p_bytes p) /\ aligned ps g hist (k + 1).
Proof.
  intros [Hk Hq] Hp. unfold queued in Hq. rewrite filter_cons, decide_True in Hq by done.
  destruct (drop k hist) as [|b rest] eqn:Ed; [done|]. cbn in Hq. injection Hq as E1 E2 Eq.
  assert (Hb : hist !! k = Some b).
  { rewrite <- (Nat.add_0_r k), <- lookup_drop, Ed. done. }
  split_and!; [done|by rewrite E2|]. split; [apply lookup_lt_Some in Hb; lia|].
  unfold queued. rewrite Eq. rewrite <- drop_drop, Ed. cbn. f_equal. lia.
Qed.

Lemma aligned_other p ps k :
  aligned (p :: ps) g hist k -> p_generation p <> g -> aligned ps g hist k.
Proof.
  intros [Hk Hq] Hp. split; [done|]. unfold queued in *.
  by rewrite filter_cons, decide_False in Hq.
Qed.

(** What one write of a segment does to the generation's part of the bucket. *)
Lemma segment_put_effect s p fence body s' r m k ps :
  valid_generation (p_generation p) = true ->
  stored_prefix s m -> aligned (p :: ps) g hist k -> (k <= m <= k + 1)%nat ->
  put_object s (segment_put cfg p fence) body = (s', r) -> body = p_bytes p ->
  if decide (p_generation p = g) then
    match r with
    | Ok _ => stored_prefix s' (k + 1)
    | Err e => if is_precondition_failed e then stored_prefix s' (k + 1) /\ m = (k + 1)%nat
               else exists m', stored_prefix s' m' /\ (k <= m' <= k + 1)%nat
    end
  else stored_prefix s' m.
Proof.
  intros Hv Hs Ha Hkm E ->.
  assert (Hland : forall s1 tag, env s s1 ->
            put_allowed (segment_put cfg p fence) (objects s1 bucket !! put_key (segment_put cfg p fence)) ->
            objects s' bucket = put_result (segment_put cfg p fence) (p_bytes p) tag (objects s1 bucket) ->
            if decide (p_generation p = g) then stored_prefix s' (k + 1) else stored_prefix s' m).
  { intros s1 tag He [_ Hn] Eo. specialize (Hn eq_refl). cbn in Hn.
    apply (stored_prefix_env _ _ _ He) in Hs. unfold put_result in Eo. cbn in Eo.
    destruct (decide (p_generation p = g)) as [Ep|Ep].
    - destruct (aligned_head _ _ _ Ha Ep) as (Eseq & Hb & _). rewrite Ep, Eseq in *.
      pose proof (lookup_lt_Some _ _ _ Hb) as Hlt.
      assert (m = k) as ->.
      { destruct Hs as [_ Hs]. specialize (Hs k). rewrite Hn in Hs. cbn in Hs.
        specialize (Hs ltac:(unfold zlen in Hlen; lia)). symmetry in Hs.
        apply lookup_take_None in Hs. destruct Hs as [Hs|Hs]; [congruence|lia]. }
      eapply stored_prefix_snoc; [exact Hs|exact Hb| |exact Eo]. done.
    - revert Hs. apply stored_prefix_ext. intros i Hi. rewrite Eo, lookup_insert_ne; [done|].
      intros Ek. by apply segment_key_generation in Ek. }
  destruct r as [out|e].
  - apply put_ok in E as (s1 & tag & He & Hal & Eo). specialize (Hland s1 tag He Hal Eo).
    by destruct (decide (p_generation p = g)).
  - apply put_err in E as (s1 & He & [[Hna Eo]|(Hpf & Hal & tag & Eo)]).
    + cbn in Eo. assert (Hs' : stored_prefix s' m).
      { apply (stored_prefix_env _ _ _ He) in Hs. revert Hs. apply stored_prefix_ext.
        intros i _. by rewrite Eo. }
      destruct (decide (p_generation p = g)) as [Ep|Ep]; [|done].
      destruct (is_precondition_failed e); [|by exists m].
      destruct (aligned_head _ _ _ Ha Ep) as (Eseq & Hb & _).
      assert (m = (k + 1)%nat) as ->; [|done].
      destruct (decide (m = k)) as [->|]; [|lia]. exfalso. apply Hna; [done|].
      split; [done|]. intros _. cbn. destruct Hs' as [_ Hs']. specialize (Hs' k).
      rewrite Eo in Hs'. rewrite Ep, Eseq.
      pose proof (lookup_lt_Some _ _ _ Hb). unfold zlen in Hlen.
      rewrite lookup_take_ge in Hs' by lia. specialize (Hs' ltac:(lia)).
      by destruct (objects s1 bucket !! _).
    + specialize (Hland s1 tag He Hal Eo). rewrite Hpf.
      destruct (decide (p_generation p = g)); [|done]. exists (k + 1)%nat. split; [done|lia].
Qed.

(** The queue after a conflict on a segment of another generation, or of ours. *)
Lemma segment_conflict_pending sh x :
  sh_pending (segment_conflict sh x) = filter (fun p => p_generation p <> x) (sh_pending sh).
Proof. unfold segment_conflict. by destruct (is_current sh x). Qed.

Lemma aligned_conflict sh generation k :
  aligned (sh_pending sh) g hist k -> generation <> g ->
  aligned (sh_pending (segment_conflict sh generation)) g hist k.
Proof.
  intros [Hk Hq] Hne. split; [done|].
  by rewrite segment_conflict_pending, queued_except by congruence.
Qed.

Lemma queued_conflict sh : queued (sh_pending (segment_conflict sh g)) g = [].
Proof.
  rewrite segment_conflict_pending. unfold queued.
  induction (sh_pending sh) as [|p ps IH]; [done|]. rewrite filter_cons.
  destruct (decide (p_generation p <> g)); [|exact IH].
  by rewrite filter_cons, decide_False.
Qed.

(** The outcome of the loop for the generation. *)
Definition upload_outcome n' (r : result SyncError unit) : Prop :=
  let ps := sh_pending (n_ship n') in
  match r with
  | Ok _ => ps = [] /\ stored_prefix (n_store n') (length hist)
  | Err _ => upload_inv ps (n_store n') \/
             queued ps g = [] /\ exists m, stored_prefix (n_store n') m
  end.

Lemma same_object_store {E} key bytes n n' (r : result E bool) m :
  same_object cfg key bytes n = (n', r) ->
  stored_prefix (n_store n) m -> stored_prefix (n_store n') m /\ exists b, r = Ok b.
Proof.
  unfold same_object, attempt, bind, api_get, ret.
  destruct (get_object (n_store n) bucket key) as [s' out] eqn:Eg. intros [= <- <-] Hs.
  split; [|by eexists]. cbn. eapply stored_prefix_env; [|exact Hs].
  destruct out; [by apply get_ok in Eg as [? _]|by apply get_err in Eg as [? _]].
Qed.

Lemma superseded_shipped sh ps bytes p p' :
  superseded (count_shipped (set_pending sh ps bytes) p) p' = superseded sh p'.
Proof.
  destruct sh as [[g0|] ? ? ? ? ?]; [|done]. unfold superseded, count_shipped. cbn.
  by destruct (String.eqb (g_id g0) (p_generation p)).
Qed.

Lemma shipped_pending sh ps bytes p :
  sh_pending (count_shipped (set_pending sh ps bytes) p) = ps.
Proof.
  destruct sh as [[g0|] ? ? ? ? ?]; [|done]. unfold count_shipped. cbn.
  by destruct (String.eqb (g_id g0) (p_generation p)).
Qed.

Lemma upload_loop_outcome fence ps sh n n' r :
  sh_pending sh = ps ->
  Forall (fun p => valid_generation (p_generation p) = true) ps ->
  Forall (fun p => p_generation p = g -> superseded sh p = false) ps ->
  upload_inv ps (n_store n) ->
  upload_loop cfg fence ps sh n = (n', r) -> upload_outcome n' r.
Proof.
  revert sh n. induction ps as [|p ps IH]; intros sh n Eps Hv Hsup (k & m & Ha & Hkm & Hs).
  { intros [= <- <-]. cbn. split; [done|]. destruct Ha as [Hk Hq]. cbn in Hq.
    assert (k = length hist) as ->.
    { destruct (drop k hist) eqn:Ed; [|done]. apply (f_equal length) in Ed.
      rewrite length_drop in Ed. cbn in Ed. lia. }
    destruct Hs as [Hm Hs]. assert (m = length hist) as -> by lia. done. }
  apply Forall_cons in Hv as [Hvp Hv]. apply Forall_cons in Hsup as [Hsp Hsup].
  cbn [upload_loop].
  set (popped := set_pending sh ps (sh_pending_bytes sh - zlen (p_bytes p))).
  destruct (superseded sh p) eqn:Esup.
  { apply IH; try done. exists k, m. split; [|done].
    apply (aligned_other _ _ _ Ha). intros Ep. by specialize (Hsp Ep). }
  (* the queue after the head was shipped *)
  assert (Hrest : forall n1, (exists k' m', aligned ps g hist k' /\ (k' <= m' <= k' + 1)%nat /\
                    stored_prefix (n_store n1) m') ->
            upload_loop cfg fence ps (count_shipped popped p) n1 = (n', r) -> upload_outcome n' r).
  { intros n1 Hinv. apply IH; try done.
    - apply shipped_pending.
    - eapply Forall_impl; [exact Hsup|]. intros p' Hp' Ep'. specialize (Hp' Ep').
      etransitivity; [apply superseded_shipped|exact Hp']. }
  unfold bind at 1, attempt.
  destruct (api_put (segment_put cfg p fence) n) as [n1 res] eqn:Ep.
  assert (Hput : exists s', put_object (n_store n) (segment_put cfg p fence) (p_bytes p) = (s', res)
                            /\ n_store n1 = s').
  { unfold api_put, bind in Ep. cbn in Ep.
    destruct (put_object (n_store n) _ (p_bytes p)) as [s' r'] eqn:Eo.
    injection Ep as <- <-. by exists s'. }
  destruct Hput as (s' & Eput & Es).
  pose proof (segment_put_effect _ p fence _ _ _ m k ps Hvp Hs Ha Hkm Eput eq_refl) as Heff.
  rewrite <- Es in Heff. clear Eput Ep.
  destruct res as [out|e].
  - apply Hrest. destruct (decide (p_generation p = g)) as [Epg|Epg].
    + exists (k + 1)%nat, (k + 1)%nat. destruct (aligned_head _ _ _ Ha Epg) as (_ & _ & Ha').
      split; [done|]. split; [lia|done].
    + exists k, m. split; [by eapply aligned_other|done].
  - destruct (is_precondition_failed e) eqn:Epf.
    + unfold bind at 1.
      destruct (same_object cfg _ _ n1) as [n2 r2] eqn:Eso.
      assert (Hst : exists m', stored_prefix (n_store n1) m' /\
                (p_generation p = g -> m' = (k + 1)%nat) /\ (p_generation p <> g -> m' = m)).
      { destruct (decide (p_generation p = g)) as [Epg|Epg].
        - exists (k + 1)%nat. destruct Heff as [Heff _]. by repeat split; try apply Heff.
        - exists m. by repeat split; try apply Heff. }
      destruct Hst as (m' & Hs1 & Hm1 & Hm2).
      destruct (same_object_store _ _ _ _ _ m' Eso Hs1) as [Hs2 [same ->]].
      destruct same; cbn [negb].
      * apply Hrest. destruct (decide (p_generation p = g)) as [Epg|Epg].
        -- rewrite (Hm1 Epg) in Hs2. exists (k + 1)%nat, (k + 1)%nat.
           destruct (aligned_head _ _ _ Ha Epg) as (_ & _ & Ha'). split; [done|]. split; [lia|done].
        -- rewrite (Hm2 Epg) in Hs2. exists k, m. split; [by eapply aligned_other|done].
      * intros [= <- <-]. cbn. destruct (decide (p_generation p = g)) as [Epg|Epg].
        -- right. rewrite Epg. split; [apply queued_conflict|by exists m'].
        -- left. rewrite (Hm2 Epg) in Hs2. exists k, m. split; [|done].
           apply aligned_conflict; [by rewrite Eps|done].
    + intros [= <- <-]. cbn. left. rewrite Eps.
      destruct (decide (p_generation p = g)) as [Epg|Epg].
      * destruct Heff as (m' & Hs' & Hk'). by exists k, m'.
      * by exists k, m.
Qed.

(** C29: The bucket holds a prefix of the generation's segments.  Let the
    queue continue the segments the bucket holds.  Whatever requests fail,
    whether or not a failed write landed, afterwards the bucket again holds
    exactly the first segments of the generation with the bytes that were
    queued, and the queue again continues them (or, when a segment key turned
    out to be taken, holds none of them).  When the upload succeeds the queue
    is empty and the bucket holds every segment. *)
Theorem upload_pending_prefix n n' r :
  let sh := n_ship n in
  Forall (fun p => valid_generation (p_generation p) = true) (sh_pending sh) ->
  superseded sh (mkPending g 0 []) = false ->
  upload_inv (sh_pending sh) (n_store n) ->
  upload_pending cfg n = (n', r) -> upload_outcome n' r.
Proof.
  cbv zeta. intros Hv Hsup Hinv. unfold upload_pending, gets, bind.
  apply upload_loop_outcome; try done. apply Forall_forall. intros p _ <-. exact Hsup.
Qed.
End Upload.

(** ** Concrete runs *)

Definition demo_generation (base : Base) : Generation :=
  mkGeneration "g" 0 0 base 512 0 0 false.

Definition demo_shipper (ps : list Pending) : Shipper :=
  mkShipper (Some (demo_generation BasePublished)) None None false ps (pending_total ps).

Definition demo_batches : list (Z * list Frame) :=
  [(512, [demo_frame 1 0 Byte.x41; demo_frame 2 2 Byte.x42]); (512, [demo_frame 3 3 Byte.x43])].

Lemma demo_shipping : shipping 512 (demo_shipper []) "g" [] [] 0.
Proof.
  split; [constructor|]. split; [by split|]. by exists (demo_generation BasePublished).
Qed.

Lemma demo_batches_ok :
  Forall (fun batch => batch.1 = 512 /\ batch.2 <> [] /\ Forall (frame_ok 512) batch.2) demo_batches.
Proof. repeat constructor; done. Qed.

Lemma queue_segments_spec_witness :
  exists new, shipping 512 (queue_segments (demo_shipper []) demo_batches) "g" ([] ++ new)
                ([] ++ batch_frames demo_batches) 0.
Proof.
  destruct (queue_segments_spec 512 eq_refl (demo_shipper []) "g" [] [] 0 demo_batches
              demo_shipping ltac:(vm_compute; discriminate) demo_batches_ok)
    as [Hb|Hn]; [|exact Hn].
  exfalso. assert (E : match sh_generation (queue_segments (demo_shipper []) demo_batches) with
                       | Some g => g_broken g = false
                       | None => True
                       end) by (vm_compute; reflexivity).
  destruct Hb as (g & Eg & Hg). rewrite Eg in E. congruence.
Defined.

Lemma queue_segments_bounded_witness :
  sh_pending_bytes (queue_segments (demo_shipper []) demo_batches) <= MAX_PENDING_BYTES.
Proof.
  apply (queue_segments_bounded (demo_shipper []) demo_batches); [reflexivity|].
  vm_compute. discriminate.
Defined.

Definition demo_hist : list (list byte) := [[Byte.x01]; [Byte.x02; Byte.x03]].

Definition upload_node (script : list fault) : Node MemStore unit :=
  put_ship (demo_shipper [mkPending "g" 0 [Byte.x01]; mkPending "g" 1 [Byte.x02; Byte.x03]])
    (term_node 7 (term5_store script)).

(** The first write lands without an answer, then the store answers again. *)
Lemma upload_pending_prefix_witness :
  match upload_pending demo_config (upload_node [Failed true]) with
  | (n1, Err _) =>
      match upload_pending demo_config n1 with
      | (n2, Ok _) => stored_prefix demo_config "g" demo_hist (n_store n2) 2
      | _ => False
      end
  | _ => False
  end.
Proof.
  assert (Hown : forall (s s' : MemStore) i, env s s' -> 0 <= i <= u64_max ->
            objects s' (cfg_bucket demo_config) !! segment_key demo_config "g" i =
            objects s (cfg_bucket demo_config) !! segment_key demo_config "g" i)
    by (intros; by apply mem_quiet).
  assert (Hcheck : let '(n1, r1) := upload_pending demo_config (upload_node [Failed true]) in
                   is_ok r1 = false /\ sh_pending (n_ship n1) =
                     [mkPending "g" 0 [Byte.x01]; mkPending "g" 1 [Byte.x02; Byte.x03]] /\
                   superseded (n_ship n1) (mkPending "g" 0 []) = false /\
                   is_ok (upload_pending demo_config n1).2 = true)
    by (vm_compute; repeat split; reflexivity).
  assert (Hinv : upload_inv demo_config "g" demo_hist
                   (sh_pending (n_ship (upload_node [Failed true])))
                   (n_store (upload_node [Failed true]))).
  { exists 0%nat, 0%nat. split; [split; [cbn; lia|reflexivity]|]. split; [lia|]. split; [cbn; lia|].
    intros i _. destruct i; reflexivity. }
  destruct (upload_pending demo_config (upload_node [Failed true])) as [n1 [[]|e]] eqn:E1;
    destruct Hcheck as (Hok & Hps & Hsup & Hok2); [discriminate Hok|].
  pose proof (upload_pending_prefix demo_config "g" demo_hist eq_refl ltac:(vm_compute; discriminate)
                Hown (upload_node [Failed true]) n1 (Err e) ltac:(by repeat constructor) eq_refl
                Hinv E1) as [Hinv1|[Hq _]]; [|rewrite Hps in Hq; discriminate Hq].
  destruct (upload_pending demo_config n1) as [n2 [[]|e2]] eqn:E2; [|discriminate Hok2].
  apply (upload_pending_prefix demo_config "g" demo_hist eq_refl ltac:(vm_compute; discriminate)
           Hown n1 n2 (Ok tt)); [rewrite Hps; by repeat constructor|exact Hsup|exact Hinv1|exact E2].
Defined.
