(* ===== verification/WalFollow.v ===== *)
(** * Following a generation, reader side (objstore/metasync/walship.rs)

    A standby keeps a copy of the generation the bucket names: its base, then
    every contiguous segment.  A transaction that spans several segments is
    spooled until its last segment arrived, so that the copy only ever holds
    whole transactions.  [fetch_metadata] rebuilds the same database from
    scratch.  This file holds the definitions, with [download] of metasync.rs;
    the properties are in [Replay]. *)

From stdpp Require Import prelude list strings pretty gmap.
From Stdlib Require Import ZArith Lia.
From S2P Require Import Prelude Bytes Strings WalFmt ObjectApi Node SnapCodec Fencing WalShip.

(** ** Files *)

Section FileOps.
Context {S Q : Type} `{Codec}.

(** Whether [apply_segment] gets past its page-size check. *)
Definition page_check (db : list byte) (segment : Segment) : bool :=
  match db_page_size db with
  | Err _ => false
  | Ok (Some size) => size =? s_page_size segment
  | Ok None => true
  end.

(** [walfmt::apply_segment] on a file; a write that fails leaves it torn. *)
Definition apply_segment_file (path : string) (segment : Segment) : M S Q WalFmt.Error unit :=
  let! db := with_err (Io "open database") (fs_read path) in
  let '(db', res) := apply_segment db segment in
  (if page_check db segment then with_err (Io "write page") (fs_write path db') else ret tt) ;;
  lift res.

(** [check_db]. *)
Definition check_db (path : string) : M S Q string unit :=
  with_err error_text
    (let! db := with_err (Io "open database") (fs_read path) in lift (check_db_file db)).

(** Applies the spooled segments in order, then [last]. *)
Fixpoint apply_run (db : string) (spool : list string) (last : Segment)
  : M S Q WalFmt.Error unit :=
  match spool with
  | [] => apply_segment_file db last
  | p :: spool =>
      let! bytes := with_err (Io "read spooled segment") (fs_read p) in
      let! segment := lift (decode_segment bytes) in
      apply_segment_file db segment ;;
      apply_run db spool last
  end.

Fixpoint remove_files {E} (paths : list string) : M S Q E unit :=
  match paths with
  | [] => ret tt
  | p :: paths => fs_remove_quietly p ;; remove_files paths
  end.

(** [st.replica = None], with the [Drop] of the replica it replaces. *)
Definition drop_replica {E} : M S Q E unit :=
  let! r := gets n_replica in
  (match r with Some r => remove_files (r_spool r) | None => ret tt end) ;;
  modify (put_replica None).
End FileOps.

(** ** Downloading the base *)

Section Download.
Context {S Q : Type} `{ObjectApi S} `{Codec} (cfg : Config).

(** [copy_hashing] into the file [path]: the byte count and the digest. A body
    that ends in an error leaves some bytes behind. *)
Definition copy_hashing (body : result string (list byte)) (path : string)
  : M S Q string (Z * string) :=
  let! b := lift body in
  fs_write path b ;;
  ret (zlen b, hex_encode (sha256 b)).

(** Whether the object GET returned is another one than HEAD described. *)
Definition replaced_since (expect : option HeadObjectOutput) (e_tag : option string) : bool :=
  match expect with
  | Some head => is_some (head_e_tag head) && is_some e_tag
                 && negb (bool_decide (head_e_tag head = e_tag))
  | None => false
  end.

Definition sha_mismatch (want : option string) (sha : string) : bool :=
  match want with
  | Some want => negb (eq_ignore_ascii_case want sha)
  | None => false
  end.

Definition download (dst : string) (expect : option HeadObjectOutput)
  : M S Q SyncError (bool * Z * option string) :=
  let! out := attempt (api_get (cfg_bucket cfg) (cfg_key cfg)) in
  match out with
  | Err e => if is_not_found e then ret (false, 0, None) else raise e
  | Ok out =>
      if replaced_since expect (get_e_tag out)
      then raise (Unavailable "snapshot replaced between HEAD and GET; retrying next cycle") else
      let want_sha := match expect with
                      | Some head => meta_value (head_metadata head) SHA256_META_KEY
                      | None => None
                      end in
      with_err (IoError "create objstore dir") (fs_create_dir_all dst) ;;
      let tmp := dst +:+ ".tmp" in
      with_err (IoError "create temp snapshot") (fs_write tmp []) ;;
      let! copied := attempt (copy_hashing (get_body out) tmp) in
      match copied with
      | Err e => fs_remove_quietly tmp ;; raise (IoError "download snapshot" e)
      | Ok (n, sha) =>
          if sha_mismatch want_sha sha then
            fs_remove_quietly tmp ;;
            raise (ObjectStore ("snapshot sha256 " +:+ sha +:+ " does not match the recorded "
                                +:+ default "" want_sha))
          else
          let! synced := attempt io_step in
          match synced with
          | Err e => fs_remove_quietly tmp ;; raise (IoError "sync snapshot" e)
          | Ok _ =>
          let! closed := attempt io_step in
          match closed with
          | Err e => fs_remove_quietly tmp ;; raise (IoError "close snapshot" e)
          | Ok _ =>
          let! committed := attempt (materialize tmp dst ;; fs_len dst) in
          match committed with
          | Err e => fs_remove_quietly tmp ;; raise (IoError "commit snapshot" e)
          | Ok _ => ret (true, n, get_e_tag out)
          end end end
      end
  end.
End Download.

(** ** The standby's copy *)

Section Follow.
Context {S Q : Type} `{ObjectApi S} `{Codec} (cfg : Config).

(** A downloaded segment, checked against the frame it must start at. *)
Definition decode_at (bytes : list byte) (want : Z) : result WalFmt.Error Segment :=
  let? seg := decode_segment bytes in
  if negb (s_first_frame seg =? want) then
    Err (Invalid ("segment starts at frame " +:+ pretty (s_first_frame seg) +:+ ", want "
                  +:+ pretty want))
  else Ok seg.

Definition get_bytes (context key : string) : M S Q SyncError (list byte) :=
  let! out := with_err (Context context) (api_get (cfg_bucket cfg) key) in
  with_err (IoError "download wal segment") (lift (get_body out)).

Definition spool_path (seq : Z) : string :=
  join (work_dir cfg) (SPOOL_FILE_PREFIX +:+ zero_padded 20 seq +:+ ".seg").

(** One segment that is the replica's next; returns the replica after it. *)
Definition apply_next (key : string) (seq : Z) (r : Replica) : M S Q SyncError Replica :=
  let! bytes := get_bytes "download wal segment" key in
  let! segment := lift (map_err (fun e => ObjectStore ("wal segment " +:+ key +:+ ": "
                                                       +:+ error_text e))
                          (decode_at bytes (r_next_frame r))) in
  let advance (spool : list string) :=
    mkReplica (r_generation r) (r_base_etag r) (r_path r) (r_next_seq r + 1)
      (r_next_frame r + zlen (s_frames segment)) spool in
  if ends_on_commit segment then
    let! applied := attempt (apply_run (r_path r) (r_spool r) segment) in
    match applied with
    | Ok _ => remove_files (r_spool r) ;; ret (advance [])
    | Err e =>
        fs_remove_quietly (r_path r) ;;
        fs_remove_with_prefix (work_dir cfg) SPOOL_FILE_PREFIX ;;
        modify (put_replica None) ;;
        raise (ObjectStore ("apply wal segment " +:+ key +:+ ": " +:+ error_text e))
    end
  else
    with_err (IoError "spool wal segment") (fs_write (spool_path seq) bytes) ;;
    ret (advance (r_spool r ++ [spool_path seq])).

(** The loop over the listed keys: whether a gap stopped it. *)
Fixpoint apply_loop (prefix : string) (keys : list string) (r : Replica) : M S Q SyncError bool :=
  match keys with
  | [] => ret false
  | key :: keys =>
      match segment_seq key prefix with
      | None => apply_loop prefix keys r
      | Some seq =>
          if seq <? r_next_seq r then apply_loop prefix keys r else
          if r_next_seq r <? seq then ret true else
          let! r := apply_next key seq r in
          modify (put_replica (Some r)) ;;
          apply_loop prefix keys r
      end
  end.

Definition apply_segments : M S Q SyncError bool :=
  let! r := gets n_replica in
  match r with
  | None => ret false
  | Some r =>
      let prefix := generation_prefix cfg (r_generation r) in
      let! keys := with_err (Context "list wal segments")
                     (api_list (cfg_bucket cfg) prefix) in
      apply_loop prefix keys r
  end.

(** Whether the copy at hand is of the generation and base HEAD describes. *)
Definition reusable (head : HeadObjectOutput) (generation : string) : M S Q SyncError bool :=
  let! r := gets n_replica in
  match r with
  | Some r =>
      if String.eqb (r_generation r) generation && is_some (r_base_etag r)
         && bool_decide (r_base_etag r = head_e_tag head)
      then fs_exists (r_path r) else ret false
  | None => ret false
  end.

(** Downloads the base as a fresh copy with nothing applied. *)
Definition fresh_replica (head : HeadObjectOutput) (generation : string) : M S Q SyncError unit :=
  drop_replica ;;
  let path := join (work_dir cfg) "replica.db" in
  let! (found, size, etag) :=
    with_err (Context "download wal base") (download cfg path (Some head)) in
  if negb found then raise (Unavailable "snapshot vanished during download") else
  with_err (fun e => ObjectStore ("wal base failed its check: " +:+ e)) (check_db path) ;;
  fs_remove_with_prefix (work_dir cfg) SPOOL_FILE_PREFIX ;;
  modify (put_replica (Some (mkReplica generation etag path 0 0 []))).

Definition follow_generation (head : HeadObjectOutput) (generation : string) (verify : bool)
  : M S Q SyncError string :=
  let! reuse := reusable head generation in
  (if (reuse : bool) then ret tt else fresh_replica head generation) ;;
  let! applied := attempt apply_segments in
  (match applied with
   | Ok true =>
       if verify then
         raise (Unavailable ("wal generation " +:+ generation
                             +:+ " is missing a segment; refusing a partial restore"))
       else ret tt
   | _ => ret tt
   end) ;;
  (if verify then
     let! now := with_err (Context "recheck snapshot")
                   (api_head (cfg_bucket cfg) (cfg_key cfg)) in
     if negb (bool_decide (head_e_tag now = head_e_tag head))
     then raise (Unavailable "snapshot replaced while catching up; retrying") else ret tt
   else ret tt) ;;
  let! r := gets n_replica in
  match r with
  | None => raise (ObjectStore "standby copy discarded after a failed replay")
  | Some r =>
      let! _ := lift applied in
      (if verify then
         with_err (fun e => ObjectStore ("replayed database failed its check: " +:+ e))
           (check_db (r_path r))
       else ret tt) ;;
      ret (r_path r)
  end.
End Follow.

Section Standby.
Context {S Q : Type} `{Sqlite Q} (cfg : Config).

(** The error is only logged. *)
Definition checkpoint_standby {E} : M S Q E unit :=
  if negb (cfg_manual_checkpoint cfg) then ret tt else
  let! _ := attempt (sql_acquire ;; let! _ := sql_checkpoint in ret tt) in
  ret tt.
End Standby.

(** ** Rebuilding from scratch *)

Record FetchedMetadata := mkFetched { fm_version : string; fm_size : Z }.

Section Fetch.
Context {S Q : Type} `{ObjectApi S} `{Codec} (bucket key : string).

(** The string that identifies a base and the segments on top of it. *)
Definition version_string (etag generation : string) (segments : Z) : string :=
  etag +:+ "|" +:+ generation +:+ "|" +:+ pretty segments.

(** HEAD, where a missing object is no error. *)
Definition head_opt : M S Q SyncError (option HeadObjectOutput) :=
  let! head := attempt (api_head bucket key) in
  match head with
  | Ok h => ret (Some h)
  | Err e => if is_not_found e then ret None else raise e
  end.

Definition metadata_version : M S Q SyncError (option string) :=
  let! head := head_opt in
  match head with
  | None => ret None
  | Some head =>
      let etag := default "" (head_e_tag head) in
      match generation_of head with
      | None => ret (Some etag)
      | Some generation =>
          let prefix := wal_prefix_for key +:+ generation +:+ "/" in
          let! keys := api_list bucket prefix in
          ret (Some (version_string etag generation (zlen (contiguous_segments keys prefix))))
      end
  end.

(** The loop over the segment keys, with the frame wanted next and the spooled
    files of an unfinished transaction. *)
Fixpoint replay_loop (seq : Z) (keys : list string) (db spool_dir : string)
    (next_frame : Z) (spool : list string) : M S Q SyncError unit :=
  match keys with
  | [] => ret tt
  | seg_key :: keys =>
      let! out := api_get bucket seg_key in
      let! bytes := with_err (IoError "download wal segment") (lift (get_body out)) in
      let spooled := join spool_dir (zero_padded 20 seq +:+ ".seg") in
      let! (frames, run) :=
        with_err (fun e => ObjectStore ("wal segment " +:+ seg_key +:+ ": " +:+ error_text e))
          (let! seg := lift (decode_at bytes next_frame) in
           if ends_on_commit seg then
             apply_run db spool seg ;;
             ret (zlen (s_frames seg), [])
           else
             with_err (Io "spool wal segment") (fs_write spooled bytes) ;;
             ret (zlen (s_frames seg), spool ++ [spooled])) in
      replay_loop (seq + 1) keys db spool_dir (next_frame + frames) run
  end.

Definition replay_keys (keys : list string) (db spool_dir : string) : M S Q SyncError unit :=
  replay_loop 0 keys db spool_dir 0 [].

(** The base, checked and materialized at [dst]. *)
Definition fetch_base (head : HeadObjectOutput) (dst : string) : M S Q SyncError unit :=
  let! out := api_get bucket key in
  if replaced_since (Some head) (get_e_tag out)
  then raise (Unavailable "snapshot replaced between HEAD and GET") else
  let tmp := dst +:+ ".download" in
  with_err (IoError "stage metadata") (fs_write tmp []) ;;
  let! copied := attempt (copy_hashing (get_body out) tmp) in
  match copied with
  | Err e => fs_remove_quietly tmp ;; raise (IoError "download metadata" e)
  | Ok (_, sha) =>
      let want := meta_value (head_metadata head) SHA256_META_KEY in
      if sha_mismatch want sha then
        fs_remove_quietly tmp ;;
        raise (ObjectStore ("snapshot sha256 " +:+ sha +:+ " does not match the recorded "
                            +:+ default "" want))
      else with_err (IoError "stage metadata") (materialize tmp dst)
  end.

(** The segments of the base's generation, replayed onto it; the version. *)
Definition fetch_segments (head : HeadObjectOutput) (dst : string) : M S Q SyncError string :=
  let etag := default "" (head_e_tag head) in
  match generation_of head with
  | None => ret etag
  | Some generation =>
      let prefix := wal_prefix_for key +:+ generation +:+ "/" in
      let! listed := api_list bucket prefix in
      let keys := contiguous_segments listed prefix in
      let spool_dir := dst +:+ ".spool" in
      with_err (IoError "create spool dir") (fs_create_dir_all spool_dir) ;;
      let! replayed := attempt (replay_keys keys dst spool_dir) in
      fs_remove_dir_all spool_dir ;;
      let! _ := lift replayed in
      ret (version_string etag generation (zlen keys))
  end.

Definition fetch_metadata (dst : string) : M S Q SyncError (option FetchedMetadata) :=
  let! head := head_opt in
  match head with
  | None => ret None
  | Some head =>
      fetch_base head dst ;;
      let! version := fetch_segments head dst in
      let! size := with_err (IoError "stat metadata") (fs_len dst) in
      ret (Some (mkFetched version size))
  end.
End Fetch.
