(* ===== verification/Replay.v ===== *)
(** * The standby's copy (objstore/metasync/walship.rs: apply_segments, replay_keys)

    The copy a standby keeps is always the generation's base with a whole
    number of transactions of the generation replayed onto it, whichever
    requests and file operations fail, and catching up reaches every segment
    that was in the bucket when it was listed.  Rebuilding from scratch gives
    the same database. *)

From stdpp Require Import prelude list strings pretty gmap sorting.
From Stdlib Require Import ZArith Lia.
From S2P Require Import Prelude Bytes Strings WalFmt Instances WalSegments WalReplay ObjectApi.
From S2P Require Import MemStore Node SnapCodec Fencing WalShip Keys Capture Shipping.
From S2P Require Import WalFollow.

(** ** Specification *)

(** The longest prefix of the segments that ends with a transaction. *)
Fixpoint complete (segs : list Segment) : list Segment :=
  match segs with
  | [] => []
  | s :: segs =>
      match complete segs with
      | [] => if ends_on_commit s then [s] else []
      | rest => s :: rest
      end
  end.

Definition frames_of (segs : list Segment) : list Frame := concat (map s_frames segs).

(** A segment that may be replayed onto a database of page size [p]. *)
Definition seg_ok (p : nat) (s : Segment) : Prop :=
  segment_ok s /\ s_page_size s = Z.of_nat p /\
  Forall (replayable (Z.of_nat p)) (s_frames s).

(** The database after the transactions the segments complete. *)
Definition database_after (p : nat) (base : list page) (segs : list Segment) : list byte :=
  concat (replay_pages p base (frames_of (complete segs))).

(** ** Prefixes of whole transactions *)

Lemma complete_app_nil l1 l2 : complete l2 = [] -> complete (l1 ++ l2) = complete l1.
Proof. intros E. induction l1 as [|s l1 IH]; [done|]. cbn. by rewrite IH. Qed.

Lemma complete_snoc l s :
  complete (l ++ [s]) = if ends_on_commit s then l ++ [s] else complete l.
Proof.
  destruct (ends_on_commit s) eqn:E.
  - induction l as [|x l IH]; cbn; [by rewrite E|]. rewrite IH. by destruct l.
  - apply complete_app_nil. cbn. by rewrite E.
Qed.

Lemma complete_prefix l : complete l `prefix_of` l.
Proof.
  induction l as [|s l IH]; [done|]. cbn. destruct (complete l) eqn:E.
  - destruct (ends_on_commit s); [|apply prefix_nil]. apply prefix_cons, prefix_nil.
  - by apply prefix_cons.
Qed.

Lemma complete_take l : complete l = take (length (complete l)) l.
Proof. destruct (complete_prefix l) as [k E]. rewrite E at 3. by rewrite take_app_length. Qed.

Lemma complete_rest l : complete l ++ drop (length (complete l)) l = l.
Proof. rewrite complete_take at 1. apply take_drop. Qed.

Lemma complete_take_length l i : (length (complete (take i l)) <= i)%nat.
Proof. pose proof (prefix_length _ _ (complete_prefix (take i l))). rewrite length_take in *. lia. Qed.

Lemma frames_of_app l1 l2 : frames_of (l1 ++ l2) = frames_of l1 ++ frames_of l2.
Proof. unfold frames_of. by rewrite map_app, concat_app. Qed.

Lemma seg_ok_replayable p segs :
  Forall (seg_ok p) segs -> Forall (replayable (Z.of_nat p)) (frames_of segs).
Proof.
  intros HF. apply Forall_concat, Forall_map. eapply Forall_impl; [exact HF|].
  by intros s (_ & _ & ?).
Qed.

(** ** Replaying onto a file *)

Section ApplyRun.
Context {S Q : Type} `{Codec} (p : nat).
Implicit Types n : Node S Q.

(** One segment, on a file that holds a database. *)
Lemma apply_segment_file_spec path seg db n n' r :
  apply_segment_file path seg n = (n', r) ->
  n_files n !! path = Some (concat db) -> db_ok p db -> seg_ok p seg ->
  (forall q, q <> path -> untouched q n n') /\
  (r = Ok tt -> n_files n' !! path = Some (concat (replay_pages p db (s_frames seg)))).
Proof.
  intros E Hf Hd (Hs & Hp & Hr). split.
  { intros q Hq. apply (run_keeps _ _ _ _ _ E). unfold apply_segment_file. solve_keeps. }
  intros ->. revert E. unfold apply_segment_file.
  intros (n1 & b & E1 & E)%bind_ok. unfold with_err in E1.
  destruct (fs_read path n) as [n0 r0] eqn:E0. destruct r0 as [b0|]; [|done].
  injection E1 as <- <-. apply fs_read_spec in E0 as [_ Hb].
  specialize (Hb b0 eq_refl). assert (b0 = concat db) as -> by congruence.
  rewrite (apply_segment_pages p) in E by done.
  assert (Hck : page_check (concat db) seg = true).
  { unfold page_check. destruct Hs as (Hps & _). rewrite Hp in Hps.
    apply page_size_ok_bounds in Hps.
    rewrite (db_page_size_ok p) by (lia || done). apply Z.eqb_eq. congruence. }
  rewrite Hck in E. apply bind_ok in E as (n2 & [] & E2 & [= <-]).
  unfold with_err in E2.
  destruct (fs_write path _ n0) as [n3 [[]|]] eqn:E3; [|done]. injection E2 as <-.
  rewrite (fs_write_ok _ _ _ _ E3). apply lookup_insert_eq.
Qed.

(** The spooled segments and the last one, in order. *)
Lemma apply_run_spec path spool segs last db n n' r :
  apply_run path spool last n = (n', r) ->
  n_files n !! path = Some (concat db) -> db_ok p db ->
  Forall (seg_ok p) segs -> seg_ok p last ->
  Forall2 (fun q s => q <> path /\ exists b, n_files n !! q = Some b /\ decode_segment b = Ok s)
    spool segs ->
  (forall q, q <> path -> untouched q n n') /\
  (r = Ok tt -> n_files n' !! path =
                Some (concat (replay_pages p db (frames_of (segs ++ [last]))))).
Proof.
  revert segs db n. induction spool as [|q spool IH]; intros segs db n E Hf Hd Hsegs Hlast H2.
  - apply Forall2_nil_inv_l in H2 as ->. cbn [apply_run] in E. cbn [app].
    destruct (apply_segment_file_spec _ _ _ _ _ _ E Hf Hd Hlast) as [Hu Hok].
    split; [done|]. unfold frames_of. cbn. by rewrite app_nil_r.
  - apply Forall2_cons_inv_l in H2 as (seg & segs' & (Hq & b & Hb & Hdec) & H2 & ->).
    apply Forall_cons in Hsegs as [Hseg Hsegs].
    cbn [apply_run] in E. unfold bind at 1, with_err in E.
    destruct (fs_read q n) as [n1 r1] eqn:E1. apply fs_read_spec in E1 as [Hf1 Hb1].
    destruct r1 as [b1|e]; cbn [map_err] in E.
    2:{ injection E as <- <-. split; [|done]. intros q' _. unfold untouched. by rewrite Hf1. }
    specialize (Hb1 b1 eq_refl). assert (b1 = b) as -> by congruence.
    unfold bind at 1, lift in E. rewrite Hdec in E. unfold bind in E.
    destruct (apply_segment_file path seg n1) as [n2 r2] eqn:E2.
    destruct (apply_segment_file_spec _ _ db _ _ _ E2) as [Hu Hok]; [by rewrite Hf1|done..|].
    assert (Hu' : forall q', q' <> path -> untouched q' n n2).
    { intros q' Hq'. unfold untouched in *. rewrite Hu by done. by rewrite Hf1. }
    destruct r2 as [[]|e]; [|injection E as <- <-; done].
    destruct (IH segs' (replay_pages p db (s_frames seg)) n2) as [IHu IHok]; try done.
    + by apply Hok.
    + apply db_ok_replay_pages; [done|]. by destruct Hseg as (_ & _ & ?).
    + eapply Forall2_impl; [exact H2|]. intros q' s' (Hq' & b' & Hb' & Hd').
      split; [done|]. exists b'. split; [|done]. rewrite <- Hb'. by apply Hu'.
    + split; [intros q' Hq'; by etransitivity; [apply Hu'|apply IHu]|].
      intros ->. rewrite IHok by done. unfold replay_pages, frames_of.
      cbn [app map concat]. by rewrite foldl_app.
Qed.
End ApplyRun.

(** ** What the file operations of a replay leave alone *)

Section Keeps.
Context {S Q : Type} `{Codec}.

Lemma keeps_apply_segment_file path seg :
  keeps (@same_but_files S Q) (apply_segment_file path seg).
Proof. unfold apply_segment_file. solve_keeps. Qed.
Hint Resolve keeps_apply_segment_file : keeps.

Lemma keeps_apply_run path spool last : keeps (@same_but_files S Q) (apply_run path spool last).
Proof. induction spool as [|q spool IH]; cbn; solve_keeps. Qed.

Lemma keeps_remove_files {E} paths : keeps (@same_but_files S Q) (remove_files (E := E) paths).
Proof. induction paths as [|q paths IH]; cbn; solve_keeps. Qed.

Lemma remove_files_ok {E} paths (n n' : Node S Q) (r : result E unit) :
  remove_files paths n = (n', r) -> r = Ok tt.
Proof.
  revert n. induction paths as [|q paths IH]; intros n; cbn; [by intros [= _ <-]|].
  rewrite fs_remove_quietly_bind. apply IH.
Qed.

(** What a failed replay does: the copy's files go, and the copy with them. *)
Lemma discard_copy_spec cfg path (e : SyncError) (n n' : Node S Q) (res : result SyncError Replica) :
  (fs_remove_quietly path ;;
   fs_remove_with_prefix (work_dir cfg) SPOOL_FILE_PREFIX ;;
   modify (put_replica None) ;;
   raise e) n = (n', res) ->
  exists n3, same_but_files n n3 /\ n' = put_replica None n3 /\ exists e', res = Err e'.
Proof.
  rewrite fs_remove_quietly_bind. set (n1 := (fs_remove_quietly path n).1).
  assert (Hk1 : same_but_files n n1).
  { apply (run_keeps same_but_files (fs_remove_quietly (E := SyncError) path) n n1
             (fs_remove_quietly path n).2); [by destruct (fs_remove_quietly path n)|].
    apply keeps_fs_remove_quietly. }
  unfold bind at 1.
  destruct (fs_remove_with_prefix (work_dir cfg) SPOOL_FILE_PREFIX n1) as [n2 r2] eqn:E2.
  pose proof (run_keeps same_but_files _ _ _ _ E2 (keeps_fs_remove_with_prefix _ _)) as Hk2.
  assert (Hk : same_but_files n n2) by (by etransitivity).
  destruct r2 as [[]|e2]; [|by apply fs_remove_with_prefix_ok in E2].
  cbn. intros [= <- <-]. exists n2. split_and!; eauto.
Qed.
End Keeps.

(** ** Catching up *)

Section CatchUp.
Context {S Q : Type} `{ObjectApiLaws S} `{Codec} (cfg : Config).
Context (g : string) (hist : list (list byte)) (segs : list Segment).
Context (p : nat) (base : list page).
Implicit Types (n : Node S Q) (s : S).
Abbreviation bucket := (cfg_bucket cfg).

(** The generation's segments decode, are numbered by their frames, and may be
    replayed onto the base. *)
Context (Hlen : zlen hist <= u64_max).
Context (Hdec : Forall2 (fun b seg => decode_segment b = Ok seg) hist segs).
Context (Hfirst : forall i seg, segs !! i = Some seg ->
  s_first_frame seg = zlen (frames_of (take i segs))).
Context (Hsegs : Forall (seg_ok p) segs) (Hbase : db_ok p base).

(** The leader only appends segments of the generation. *)
Context (Hgrows : forall s s' m, env s s' -> stored_prefix cfg g hist s m ->
  exists m', (m <= m')%nat /\ stored_prefix cfg g hist s' m').

(** The copy after the generation's first [i] segments. *)
Definition replica_at (n : Node S Q) (r : Replica) (i : nat) : Prop :=
  let done := length (complete (take i segs)) in
  (i <= length segs)%nat /\ r_generation r = g /\
  r_next_seq r = Z.of_nat i /\ r_next_frame r = zlen (frames_of (take i segs)) /\
  n_files n !! r_path r = Some (database_after p base (take i segs)) /\
  (forall seq, spool_path cfg seq <> r_path r) /\
  r_spool r = map (spool_path cfg) (seqZ (Z.of_nat done) (Z.of_nat i - Z.of_nat done)) /\
  (forall j, (done <= j < i)%nat -> n_files n !! spool_path cfg (Z.of_nat j) = hist !! j).

Lemma hist_decodes i b : hist !! i = Some b ->
  exists seg, segs !! i = Some seg /\ decode_segment b = Ok seg.
Proof. intros Hb. destruct (Forall2_lookup_l _ _ _ _ _ Hdec Hb) as (seg & ? & ?). eauto. Qed.

Lemma spool_path_inj x y :
  0 <= x <= u64_max -> 0 <= y <= u64_max -> spool_path cfg x = spool_path cfg y -> x = y.
Proof.
  intros Hx Hy. unfold spool_path, join. intros E%str_app_inj_l%str_app_inj_l.
  unfold SPOOL_FILE_PREFIX in E. apply str_app_inj_l in E.
  apply (segment_key_seq cfg g x y Hx Hy). unfold segment_key. by rewrite E.
Qed.

(** The spooled files hold the segments of the unfinished transaction. *)
Lemma replica_spool n r i :
  replica_at n r i ->
  Forall2 (fun q seg => q <> r_path r /\
             exists b, n_files n !! q = Some b /\ decode_segment b = Ok seg)
    (r_spool r) (drop (length (complete (take i segs))) (take i segs)).
Proof.
  intros (Hi & _ & _ & _ & _ & Hne & -> & Hsp).
  set (done := length (complete (take i segs))) in *.
  pose proof (complete_take_length segs i) as Hd. fold done in Hd.
  apply Forall2_same_length_lookup. split.
  { rewrite length_map, length_seqZ, length_drop, length_take. lia. }
  intros k q seg Hq Hseg.
  rewrite lookup_drop in Hseg. apply lookup_take_Some in Hseg as [Hseg Hk].
  rewrite list_lookup_fmap, fmap_Some in Hq. destruct Hq as (z & Hz & ->).
  apply lookup_seqZ in Hz as [-> Hz].
  split; [apply Hne|].
  destruct (Forall2_lookup_r _ _ _ _ _ Hdec Hseg) as (b & Hb & Hbd). exists b. split; [|done].
  rewrite <- Hb. replace (Z.of_nat done + Z.of_nat k) with (Z.of_nat (done + k)) by lia.
  apply Hsp. lia.
Qed.

(** The copy only depends on its own files. *)
Lemma replica_at_files n n' r i :
  (i <= length segs -> n_files n' !! r_path r = n_files n !! r_path r)%nat ->
  (forall j, (j < i)%nat -> n_files n' !! spool_path cfg (Z.of_nat j) =
                           n_files n !! spool_path cfg (Z.of_nat j)) ->
  replica_at n r i -> replica_at n' r i.
Proof.
  intros Hp Hs (Hi & E1 & E2 & E3 & E4 & Hne & E5 & Hsp).
  split_and!; try done; [by rewrite Hp|]. intros j Hj. rewrite Hs by lia. by apply Hsp.
Qed.

Lemma take_S_segs i seg : segs !! i = Some seg -> take (i + 1) segs = take i segs ++ [seg].
Proof. intros Hs. rewrite Nat.add_1_r. by apply take_S_r. Qed.

(** Spooling the next segment of an unfinished transaction. *)
Lemma replica_at_spool n n' r i b seg :
  replica_at n r i -> hist !! i = Some b -> segs !! i = Some seg ->
  ends_on_commit seg = false ->
  n_files n' = <[spool_path cfg (Z.of_nat i) := b]> (n_files n) ->
  replica_at n' (mkReplica (r_generation r) (r_base_etag r) (r_path r) (r_next_seq r + 1)
                   (r_next_frame r + zlen (s_frames seg))
                   (r_spool r ++ [spool_path cfg (Z.of_nat i)])) (i + 1).
Proof.
  intros (Hi & E1 & E2 & E3 & E4 & Hne & E5 & Hsp) Hb Hseg Hc Hf.
  pose proof (lookup_lt_Some _ _ _ Hseg) as Hlt. pose proof (lookup_lt_Some _ _ _ Hb) as Hltb.
  unfold replica_at. cbn [r_generation r_path r_next_seq r_next_frame r_spool].
  unfold database_after in *. rewrite (take_S_segs i seg Hseg), complete_snoc, Hc.
  set (done := length (complete (take i segs))) in *.
  pose proof (complete_take_length segs i) as Hd. fold done in Hd.
  split_and!; [lia|done|lia| | |done| |].
  - rewrite frames_of_app, zlen_app, E3. unfold frames_of at 3. cbn. by rewrite app_nil_r.
  - rewrite Hf, lookup_insert_ne by apply Hne. done.
  - rewrite E5. replace (Z.of_nat (i + 1) - Z.of_nat done)
      with ((Z.of_nat i - Z.of_nat done) + 1) by lia.
    rewrite seqZ_app by lia. rewrite map_app. f_equal.
    by replace (Z.of_nat done + (Z.of_nat i - Z.of_nat done)) with (Z.of_nat i) by lia.
  - intros j Hj. rewrite Hf. destruct (decide (j = i)) as [->|Hji].
    + by rewrite lookup_insert_eq.
    + rewrite lookup_insert_ne; [apply Hsp; lia|].
      intros E%spool_path_inj; unfold zlen in Hlen; lia.
Qed.

(** Applying the segment that ends the transaction. *)
Lemma replica_at_commit n n' r i seg :
  replica_at n r i -> segs !! i = Some seg -> ends_on_commit seg = true ->
  n_files n' !! r_path r =
    Some (concat (replay_pages p (replay_pages p base (frames_of (complete (take i segs))))
            (frames_of (drop (length (complete (take i segs))) (take i segs) ++ [seg])))) ->
  replica_at n' (mkReplica (r_generation r) (r_base_etag r) (r_path r) (r_next_seq r + 1)
                   (r_next_frame r + zlen (s_frames seg)) []) (i + 1).
Proof.
  intros (Hi & E1 & E2 & E3 & E4 & Hne & E5 & Hsp) Hseg Hc Hf.
  pose proof (lookup_lt_Some _ _ _ Hseg) as Hlt.
  unfold replica_at. cbn [r_generation r_path r_next_seq r_next_frame r_spool].
  unfold database_after in *. rewrite (take_S_segs i seg Hseg), complete_snoc, Hc.
  assert (Hl : length (take i segs ++ [seg]) = (i + 1)%nat)
    by (rewrite length_app, length_take_le by lia; done).
  rewrite Hl. split_and!; [lia|done|lia| | |done| |].
  - rewrite frames_of_app, zlen_app, E3. unfold frames_of at 3. cbn. by rewrite app_nil_r.
  - rewrite Hf. do 2 f_equal. unfold replay_pages. rewrite <- foldl_app, <- frames_of_app.
    by rewrite app_assoc, complete_rest.
  - by rewrite Z.sub_diag.
  - lia.
Qed.

Lemma get_bytes_spec context key n n' res :
  get_bytes cfg context key n = (n', res) ->
  exists s', n' = set_store s' n /\ env (n_store n) s' /\
    (forall b, res = Ok b -> exists o, objects s' bucket !! key = Some o /\ b = o_body o).
Proof.
  unfold get_bytes, bind, with_err, api_get, lift.
  destruct (get_object (n_store n) bucket key) as [s' [out|e]] eqn:E; cbn.
  - apply get_ok in E as (He & o & Ho & Hb & _). intros [= <- <-]. exists s'.
    split_and!; [done|done|]. intros b Eb. exists o. split; [done|].
    destruct (get_body out) as [b'|] eqn:Eg; [|done]. cbn in Eb. injection Eb as <-.
    by apply Hb.
  - apply get_err in E as [He _]. intros [= <- <-]. exists s'. by split_and!.
Qed.

Lemma remove_files_keeps paths q :
  q ∉ paths -> keeps (untouched q) (remove_files (S := S) (Q := Q) (E := SyncError) paths).
Proof.
  induction paths as [|x paths IH]; intros Hq; cbn; [solve_keeps|].
  apply not_elem_of_cons in Hq as [Hx Hq]. apply keeps_bind; [typeclasses eauto| |].
  - apply untouched_fs_remove_quietly. congruence.
  - intros _. by apply IH.
Qed.

(** A stored segment, downloaded. *)
Lemma stored_segment s s' m i o b :
  env s s' -> stored_prefix cfg g hist s m -> (i < m)%nat -> Z.of_nat i <= u64_max ->
  objects s' bucket !! segment_key cfg g (Z.of_nat i) = Some o -> b = o_body o ->
  hist !! i = Some b.
Proof.
  intros He Hs Hi Hu Ho ->. destruct (Hgrows _ _ _ He Hs) as (m' & Hm & _ & Hs').
  specialize (Hs' i Hu). rewrite Ho in Hs'. cbn in Hs'.
  by rewrite lookup_take_lt in Hs' by lia.
Qed.

(** The transaction the next segment ends, replayed onto the copy. *)
Lemma apply_run_replica n n' r i seg :
  replica_at n r i -> segs !! i = Some seg -> ends_on_commit seg = true ->
  apply_run (r_path r) (r_spool r) seg n = (n', Ok tt) ->
  forall n2, untouched (r_path r) n' n2 ->
  replica_at n2 (mkReplica (r_generation r) (r_base_etag r) (r_path r) (r_next_seq r + 1)
                   (r_next_frame r + zlen (s_frames seg)) []) (i + 1).
Proof.
  intros Hr Hseg Hc E n2 Hu. apply (replica_at_commit n); try done. rewrite Hu.
  eapply (apply_run_spec p _ _ (drop (length (complete (take i segs))) (take i segs))).
  - exact E.
  - by destruct Hr as (_ & _ & _ & _ & -> & _).
  - apply db_ok_replay_pages; [done|]. apply seg_ok_replayable.
    rewrite complete_take. by apply Forall_take, Forall_take.
  - by apply Forall_drop, Forall_take.
  - by apply (Forall_lookup_1 _ _ _ _ Hsegs Hseg).
  - by apply replica_spool.
  - done.
Qed.

(** A failed write of a spool file does not touch the copy. *)
Lemma replica_at_other_spool n n' r i :
  Z.of_nat i <= u64_max -> replica_at n r i ->
  (forall q, q <> spool_path cfg (Z.of_nat i) -> untouched q n n') -> replica_at n' r i.
Proof.
  intros Hiu Hr Hu.
  eapply replica_at_files; [| |exact Hr].
  - intros _. apply Hu. destruct Hr as (_ & _ & _ & _ & _ & Hne & _). congruence.
  - intros j Hj. apply Hu. intros E%spool_path_inj; lia.
Qed.

(** What taking the next segment leaves: the copy after it, the copy as it
    was, or no copy. *)
Definition next_outcome n (n' : Node S Q) r i (res : result SyncError Replica) : Prop :=
  match res with
  | Ok r' => n_replica n' = n_replica n /\ replica_at n' r' (i + 1)
  | Err _ => n_replica n' = None \/ n_replica n' = n_replica n /\ replica_at n' r i
  end.

Lemma apply_commit_spec n n' r i seg mk res :
  replica_at n r i -> segs !! i = Some seg -> ends_on_commit seg = true ->
  (let! applied := attempt (apply_run (r_path r) (r_spool r) seg) in
   match applied with
   | Ok _ =>
       remove_files (r_spool r) ;;
       ret (mkReplica (r_generation r) (r_base_etag r) (r_path r) (r_next_seq r + 1)
              (r_next_frame r + zlen (s_frames seg)) [])
   | Err e =>
       fs_remove_quietly (r_path r) ;;
       fs_remove_with_prefix (work_dir cfg) SPOOL_FILE_PREFIX ;;
       modify (put_replica None) ;;
       raise (mk e)
   end) n = (n', res) ->
  n_store n' = n_store n /\ next_outcome n n' r i res.
Proof.
  intros Hr Hseg Hc. unfold bind at 1, attempt.
  destruct (apply_run (r_path r) (r_spool r) seg n) as [n2 ra] eqn:E2.
  pose proof (run_keeps same_but_files _ _ _ _ E2 (keeps_apply_run _ _ _)) as Hk2.
  destruct ra as [[]|e]; intros E.
  - unfold bind in E. destruct (remove_files (r_spool r) n2) as [n3 r3] eqn:E3.
    pose proof (run_keeps same_but_files _ _ _ _ E3 (keeps_remove_files _)) as Hk3.
    assert (Hk : same_but_files n n3) by (by etransitivity).
    assert (r3 = Ok tt) as -> by (by apply remove_files_ok in E3).
    injection E as <- <-. split; [by rewrite Hk|]. split; [by rewrite Hk|].
    apply (apply_run_replica n n2); try done.
    apply (run_keeps (untouched (r_path r)) _ _ _ _ E3). apply remove_files_keeps.
    destruct Hr as (_ & _ & _ & _ & _ & Hne & -> & _).
    rewrite list_elem_of_fmap. by intros (z & Ez & _); apply (Hne z).
  - destruct (discard_copy_spec _ _ _ _ _ _ E) as (n3 & Hk3 & -> & [e' ->]).
    assert (Hk : same_but_files n n3) by (by etransitivity).
    split; [by rewrite Hk|by left].
Qed.

Lemma apply_next_spec n n' r i m res :
  replica_at n r i -> stored_prefix cfg g hist (n_store n) m -> (i < m)%nat ->
  apply_next cfg (segment_key cfg g (Z.of_nat i)) (Z.of_nat i) r n = (n', res) ->
  (exists m', (m <= m')%nat /\ stored_prefix cfg g hist (n_store n') m') /\
  next_outcome n n' r i res.
Proof.
  intros Hr Hs Him E. unfold apply_next in E.
  assert (Hiu : Z.of_nat i <= u64_max) by (destruct Hs; unfold zlen in Hlen; lia).
  unfold bind at 1 in E. destruct (get_bytes cfg _ _ n) as [n1 rb] eqn:E1.
  apply get_bytes_spec in E1 as (s' & -> & He & Hb).
  destruct (Hgrows _ _ _ He Hs) as (m' & Hm' & Hs').
  assert (Hr1 : replica_at (set_store s' n) r i) by exact Hr.
  destruct rb as [b|e]; [|injection E as <- <-; split; [by exists m'|by right]].
  destruct (Hb b eq_refl) as (o & Ho & Eo).
  pose proof (stored_segment _ _ _ _ _ _ He Hs Him Hiu Ho Eo) as Hhist.
  destruct (hist_decodes i b Hhist) as (seg & Hseg & Hd).
  assert (Hat : decode_at b (r_next_frame r) = Ok seg).
  { unfold decode_at. rewrite Hd. cbn. destruct Hr as (_ & _ & _ & -> & _).
    by rewrite (Hfirst _ _ Hseg), Z.eqb_refl. }
  unfold bind at 1, lift in E. rewrite Hat in E. cbn [map_err] in E.
  destruct (ends_on_commit seg) eqn:Hc.
  - apply (apply_commit_spec _ _ _ i) in E as [Est Hout]; try done. rewrite Est. split; [by exists m'|done].
  - unfold bind, with_err in E.
    destruct (fs_write (spool_path cfg (Z.of_nat i)) b (set_store s' n)) as [n2 rw] eqn:E2.
    pose proof (run_keeps same_but_files _ _ _ _ E2 (keeps_fs_write _ _)) as Hk2.
    assert (Est : n_store n2 = s') by (by rewrite Hk2).
    assert (Erep : n_replica n2 = n_replica n) by (by rewrite Hk2).
    destruct rw as [[]|e]; cbn in E; injection E as <- <-; rewrite Est; (split; [by exists m'|]).
    + split; [done|]. eapply (replica_at_spool (set_store s' n)); try done. by apply fs_write_ok.
    + right. split; [done|]. apply (replica_at_other_spool (set_store s' n)); try done.
      intros q Hq. apply (run_keeps _ _ _ _ _ E2). apply untouched_fs_write. congruence.
Qed.

(** The state of the standby: no copy, or a copy of the first [j] segments. *)
Definition standby_at n (j : nat) : Prop :=
  exists r, n_replica n = Some r /\ replica_at n r j.

Lemma filter_seqs_next l (i len : Z) :
  filter (fun s : Z => i <= s) l = seqZ (i + 1) len ->
  filter (fun s : Z => i + 1 <= s) l = seqZ (i + 1) len.
Proof.
  intros E. rewrite <- (list_filter_filter_l _ (fun s : Z => i <= s)) by (intros; lia).
  rewrite E. apply filter_all. intros y Hy%elem_of_seqZ. lia.
Qed.

Lemma filter_seqs_from (i m : nat) :
  (i <= m)%nat ->
  filter (fun s : Z => Z.of_nat i <= s) (seqZ 0 (Z.of_nat m)) =
  seqZ (Z.of_nat i) (Z.of_nat m - Z.of_nat i).
Proof.
  intros Him. replace (Z.of_nat m) with (Z.of_nat i + (Z.of_nat m - Z.of_nat i)) at 1 by lia.
  rewrite seqZ_app, filter_app by lia. rewrite filter_none, filter_all; [done| |].
  - intros y Hy%elem_of_seqZ. lia.
  - intros y Hy%elem_of_seqZ. lia.
Qed.

(** The loop over a listing whose segments, from [i] on, are [i .. m-1]. *)
Lemma apply_loop_spec keys n n' r i m m0 res :
  n_replica n = Some r -> replica_at n r i ->
  stored_prefix cfg g hist (n_store n) m0 -> (m <= m0)%nat ->
  filter (fun seq => Z.of_nat i <= seq) (listed_seqs keys (generation_prefix cfg g)) =
    seqZ (Z.of_nat i) (Z.of_nat m - Z.of_nat i) ->
  apply_loop cfg (generation_prefix cfg g) keys r n = (n', res) ->
  match res with
  | Ok gap => gap = false /\ standby_at n' (Nat.max i m)
  | Err _ => n_replica n' = None \/ exists j, (i <= j)%nat /\ standby_at n' j
  end.
Proof.
  revert n r i m0. induction keys as [|key keys IH]; intros n r i m0 Hrep Hr Hs Hm Hlist.
  { intros [= <- <-]. split; [done|]. exists r. split; [done|].
    assert (Hnil : seqZ (Z.of_nat i) (Z.of_nat m - Z.of_nat i) = []) by done.
    apply (f_equal length) in Hnil. rewrite length_seqZ in Hnil. cbn in Hnil.
    by replace (Nat.max i m) with i by lia. }
  cbn [apply_loop]. unfold listed_seqs in Hlist. cbn [omap list_omap] in Hlist.
  destruct (segment_seq key (generation_prefix cfg g)) as [seq|] eqn:Ek; [|by apply (IH _ _ _ m0)].
  fold (listed_seqs keys (generation_prefix cfg g)) in Hlist.
  rewrite filter_cons in Hlist. assert (Hseq : r_next_seq r = Z.of_nat i) by apply Hr.
  rewrite Hseq. destruct (Z.ltb_spec seq (Z.of_nat i)) as [Hlt|Hge].
  { rewrite decide_False in Hlist by lia. by apply (IH _ _ _ m0). }
  rewrite decide_True in Hlist by lia.
  assert (Him : (i < m)%nat).
  { destruct (decide (i < m)%nat); [done|]. rewrite seqZ_nil in Hlist by lia. done. }
  rewrite seqZ_cons in Hlist by lia. injection Hlist as -> Hlist.
  rewrite Z.ltb_irrefl. unfold bind at 1.
  apply segment_seq_spec in Ek as [-> _].
  destruct (apply_next cfg _ _ r n) as [n1 [r1|e]] eqn:E1;
    apply (apply_next_spec _ _ _ i m0) in E1 as [(m1 & Hm1 & Hs1) Hout]; try done; try lia.
  - destruct Hout as [_ Hr1]. cbn.
    assert (Hr2 : replica_at (put_replica (Some r1) n1) r1 (i + 1)) by exact Hr1.
    intros E. apply (IH _ _ (i + 1)%nat m1) in E; try done; try lia.
    + destruct res as [gap|e].
      * destruct E as [-> E]. split; [done|]. by replace (Nat.max i m) with (Nat.max (i + 1) m) by lia.
      * destruct E as [E|(j & Hj & E)]; [by left|]. right. exists j. split; [lia|done].
    + replace (Z.of_nat (i + 1)) with (Z.of_nat i + 1) by lia. apply filter_seqs_next.
      rewrite Hlist. f_equal; lia.
  - intros [= <- <-]. destruct Hout as [Hout|[Hrep' Hr']]; [by left|].
    right. exists i. split; [lia|]. exists r. by rewrite Hrep'.
Qed.

(** The listing of a bucket that holds the first [m] segments. *)
Lemma listed_prefix s' keys m :
  StronglySorted String.le keys -> NoDup keys ->
  (forall k, k ∈ keys <-> String.prefix (generation_prefix cfg g) k = true /\
                         is_Some (objects s' bucket !! k)) ->
  stored_prefix cfg g hist s' m ->
  listed_seqs keys (generation_prefix cfg g) = seqZ 0 (Z.of_nat m).
Proof.
  intros Hsort Hnd Hk [Hm Hs].
  pose proof (listed_seqs_sorted cfg g keys Hsort Hnd) as Hss.
  pose proof (seqZ_sorted 0 (Z.of_nat m)) as Hseq.
  apply (StronglySorted_unique_strong Z.lt); [intros; lia|done|done|].
  assert (Hnodup : forall l, StronglySorted Z.lt l -> NoDup l).
  { intros l. induction 1 as [|x l _ IH Hx]; constructor; [|done].
    intros Hin. rewrite Forall_forall in Hx. specialize (Hx _ Hin). lia. }
  apply NoDup_Permutation; [auto|auto|]. intros i.
  rewrite elem_of_seqZ. unfold listed_seqs. rewrite list_elem_of_omap. split.
  - intros (key & Hin & [-> Hb]%segment_seq_spec). apply Hk in Hin as [_ [o Ho]].
    specialize (Hs (Z.to_nat i) ltac:(lia)). rewrite Z2Nat.id, Ho in Hs by lia. cbn in Hs.
    symmetry in Hs. apply lookup_take_Some in Hs as [_ ?]. lia.
  - intros Hi. unfold zlen in Hlen. exists (segment_key cfg g i).
    split; [|apply segment_seq_spec; split; [done|lia]]. apply Hk.
    split; [apply prefix_app_true|].
    specialize (Hs (Z.to_nat i) ltac:(lia)). rewrite Z2Nat.id in Hs by lia.
    destruct (objects s' bucket !! segment_key cfg g i); [by eexists|].
    cbn in Hs. symmetry in Hs. apply lookup_take_None in Hs.
    destruct Hs as [Hs%lookup_ge_None|Hs]; lia.
Qed.

Lemma apply_segments_spec n n' i m res :
  standby_at n i -> (i <= m)%nat -> stored_prefix cfg g hist (n_store n) m ->
  apply_segments cfg n = (n', res) ->
  match res with
  | Ok gap => gap = false /\ exists j, (m <= j)%nat /\ standby_at n' j
  | Err _ => n_replica n' = None \/ exists j, (i <= j)%nat /\ standby_at n' j
  end.
Proof.
  intros (r & Hrep & Hr) Him Hs. unfold apply_segments, bind at 1, gets. rewrite Hrep.
  assert (Hgen : r_generation r = g) by apply Hr. rewrite Hgen.
  unfold bind at 1, with_err, api_list.
  destruct (list_keys (n_store n) bucket (generation_prefix cfg g)) as [s' [keys|e]] eqn:El.
  - apply list_ok in El as (He & Hsort & Hnd & Hk). cbn [map_err].
    destruct (Hgrows _ _ _ He Hs) as (m' & Hm' & Hs'). intros E.
    apply (apply_loop_spec _ _ _ _ i m' m') in E; try done.
    + destruct res as [gap|e]; [|done]. destruct E as [-> E]. split; [done|].
      exists (Nat.max i m'). split; [lia|done].
    + rewrite (listed_prefix s' keys m') by done. apply filter_seqs_from. lia.
  - apply list_err in El as He. cbn [map_err]. intros [= <- <-]. right. exists i.
    split; [lia|]. exists r. by split.
Qed.

(** A standby's copy only holds whole transactions, and catches up.
    Starting from a copy of the generation's first [i] segments, in which the
    segments after the last complete transaction wait in the spool, one
    [apply_segments] run leaves a copy of at least as many segments, or
    discards the copy; whichever requests or file operations fail, the copy is
    the base with exactly the complete transactions replayed onto it.  Without
    an error it reports no gap and has reached every segment the bucket held
    when the run began. *)
Theorem catch_up n n' i m res :
  standby_at n i -> (i <= m)%nat -> stored_prefix cfg g hist (n_store n) m ->
  apply_segments cfg n = (n', res) ->
  match res with
  | Ok gap => gap = false /\ exists j, (m <= j)%nat /\ standby_at n' j
  | Err _ => n_replica n' = None \/ exists j, (i <= j)%nat /\ standby_at n' j
  end.
Proof. apply apply_segments_spec. Qed.

(** ** Rebuilding from scratch *)

Section Rebuild.
Context (db spool_dir : string).
Context (Hspool : forall name, join spool_dir name <> db).

Definition spooled (seq : Z) : string := join spool_dir (zero_padded 20 seq +:+ ".seg").

Lemma spooled_inj x y : 0 <= x <= u64_max -> 0 <= y <= u64_max -> spooled x = spooled y -> x = y.
Proof.
  intros Hx Hy. unfold spooled, join. intros E%str_app_inj_l%str_app_inj_l.
  apply (segment_key_seq cfg g x y Hx Hy). unfold segment_key. by rewrite E.
Qed.

(** The file and the spool after the first [i] segments. *)
Definition rebuilt (n : Node S Q) (i : nat) (spool : list string) : Prop :=
  n_files n !! db = Some (database_after p base (take i segs)) /\
  Forall2 (fun q seg => (exists j, (j < i)%nat /\ q = spooled (Z.of_nat j)) /\
             exists b, n_files n !! q = Some b /\ decode_segment b = Ok seg)
    spool (drop (length (complete (take i segs))) (take i segs)).

Lemma rebuilt_commit n n' i spool seg :
  rebuilt n i spool -> segs !! i = Some seg -> ends_on_commit seg = true ->
  apply_run db spool seg n = (n', Ok tt) -> rebuilt n' (i + 1) [].
Proof.
  intros [Hf H2] Hseg Hc E. unfold rebuilt, database_after.
  rewrite (take_S_segs i seg Hseg), complete_snoc, Hc, drop_all. split; [|constructor].
  apply (apply_run_spec p _ _ (drop (length (complete (take i segs))) (take i segs)) _
           (replay_pages p base (frames_of (complete (take i segs))))) in E as [_ Hok].
  - rewrite Hok by done. do 2 f_equal. unfold replay_pages. rewrite <- foldl_app, <- frames_of_app.
    by rewrite app_assoc, complete_rest.
  - exact Hf.
  - apply db_ok_replay_pages; [done|]. apply seg_ok_replayable.
    rewrite complete_take. by apply Forall_take, Forall_take.
  - by apply Forall_drop, Forall_take.
  - by apply (Forall_lookup_1 _ _ _ _ Hsegs Hseg).
  - eapply Forall2_impl; [exact H2|]. intros q s' [(j & _ & ->) Hb]. split; [apply Hspool|done].
Qed.

Lemma rebuilt_spool n n' i spool seg b :
  rebuilt n i spool -> hist !! i = Some b -> segs !! i = Some seg ->
  ends_on_commit seg = false -> decode_segment b = Ok seg ->
  n_files n' = <[spooled (Z.of_nat i) := b]> (n_files n) ->
  rebuilt n' (i + 1) (spool ++ [spooled (Z.of_nat i)]).
Proof.
  intros [Hf H2] Hb Hseg Hc Hd E. unfold rebuilt, database_after in *.
  pose proof (lookup_lt_Some _ _ _ Hb) as Hlt.
  rewrite (take_S_segs i seg Hseg), complete_snoc, Hc. split.
  { rewrite E, lookup_insert_ne by apply Hspool. done. }
  rewrite drop_app_le by apply prefix_length, complete_prefix.
  apply Forall2_app; [|constructor; [|constructor]].
  - eapply Forall2_impl; [exact H2|]. intros q s' [(j & Hj & ->) (b' & Hb' & Hd')]. split.
    + exists j. split; [lia|done].
    + exists b'. split; [|done]. rewrite E, lookup_insert_ne; [done|].
      intros Eq%spooled_inj; unfold zlen in Hlen; lia.
  - split; [exists i; split; [lia|done]|]. exists b. by rewrite E, lookup_insert_eq.
Qed.

(** What one iteration does with a downloaded segment. *)
Lemma replay_step_spec n n' i spool seg b frames run :
  rebuilt n i spool -> hist !! i = Some b -> segs !! i = Some seg -> decode_segment b = Ok seg ->
  (let! seg := lift (decode_at b (zlen (frames_of (take i segs)))) in
   if ends_on_commit seg then apply_run db spool seg ;; ret (zlen (s_frames seg), [])
   else with_err (Io "spool wal segment") (fs_write (spooled (Z.of_nat i)) b) ;;
        ret (zlen (s_frames seg), spool ++ [spooled (Z.of_nat i)])) n = (n', Ok (frames, run)) ->
  n_store n' = n_store n /\ frames = zlen (s_frames seg) /\ rebuilt n' (i + 1) run.
Proof.
  intros Hr Hhist Hseg Hd E.
  assert (Hat : decode_at b (zlen (frames_of (take i segs))) = Ok seg).
  { unfold decode_at. rewrite Hd. cbn. by rewrite (Hfirst _ _ Hseg), Z.eqb_refl. }
  unfold bind at 1, lift in E. rewrite Hat in E. destruct (ends_on_commit seg) eqn:Hc.
  - unfold bind in E. destruct (apply_run db spool seg n) as [n2 [[]|]] eqn:E2; [|done].
    injection E as <- <- <-.
    pose proof (run_keeps same_but_files _ _ _ _ E2 (keeps_apply_run _ _ _)) as Hk.
    split; [by rewrite Hk|]. split; [done|]. by eapply rebuilt_commit.
  - unfold bind, with_err in E. destruct (fs_write _ b n) as [n2 [[]|]] eqn:E2; [|done].
    injection E as <- <- <-.
    pose proof (run_keeps same_but_files _ _ _ _ E2 (keeps_fs_write _ _)) as Hk.
    split; [by rewrite Hk|]. split; [done|]. apply fs_write_ok in E2. by eapply (rebuilt_spool n).
Qed.

Lemma replay_loop_spec m i m0 n n' spool :
  rebuilt n i spool -> stored_prefix cfg g hist (n_store n) m0 -> (i <= m <= m0)%nat ->
  replay_loop bucket (Z.of_nat i) (map (segment_key cfg g) (seqZ (Z.of_nat i) (Z.of_nat m - Z.of_nat i)))
    db spool_dir (zlen (frames_of (take i segs))) spool n = (n', Ok tt) ->
  n_files n' !! db = Some (database_after p base (take m segs)).
Proof.
  remember (m - i)%nat as k eqn:Ek. revert i m0 n spool Ek.
  induction k as [|k IH]; intros i m0 n spool Ek Hr Hs Him.
  { assert (i = m) as -> by lia. rewrite seqZ_nil by lia. intros [= <-]. apply Hr. }
  rewrite seqZ_cons by lia. cbn [map replay_loop].
  assert (Hiu : Z.of_nat i <= u64_max) by (destruct Hs; unfold zlen in Hlen; lia).
  unfold bind at 1, api_get.
  destruct (get_object (n_store n) bucket _) as [s' [out|e]] eqn:Eg; [|done].
  apply get_ok in Eg as (He & o & Ho & Hb & _).
  unfold bind at 1, with_err at 1, lift at 1.
  destruct (get_body out) as [b|] eqn:Eb; cbn [map_err]; [|done].
  assert (Him0 : (i < m0)%nat) by lia.
  pose proof (stored_segment _ _ _ _ _ _ He Hs Him0 Hiu Ho (Hb b eq_refl)) as Hhist.
  destruct (hist_decodes i b Hhist) as (seg & Hseg & Hd).
  destruct (Hgrows _ _ _ He Hs) as (m' & Hm' & Hs').
  intros (n1 & [frames run] & E1 & E)%bind_ok. unfold with_err in E1.
  match type of E1 with (let '(_, _) := ?m in _) = _ => destruct m as [n2 r2] eqn:E2 end.
  destruct r2 as [[frames2 run2]|]; [|done]. injection E1 as <- <- <-.
  apply (replay_step_spec (set_store s' n) _ i spool seg b) in E2 as (Est & -> & Hr1); try done.
  assert (Hfr : zlen (frames_of (take i segs)) + zlen (s_frames seg) =
                zlen (frames_of (take (i + 1) segs))).
  { rewrite (take_S_segs i seg Hseg), frames_of_app, zlen_app. unfold frames_of at 3. cbn.
    by rewrite app_nil_r. }
  rewrite Hfr in E. replace (Z.of_nat i + 1) with (Z.of_nat (i + 1)) in E by lia.
  apply (IH (i + 1)%nat m' n2 run2); [lia|done|by rewrite Est|lia|].
  rewrite <- E. do 4 f_equal; lia.
Qed.
End Rebuild.

(** C28: Rebuilding from the bucket agrees with following it.  Replaying the
    first [m] segments from scratch onto the base, when it succeeds, leaves the
    base with exactly the complete transactions of those segments replayed:
    the same file a standby that has applied [m] segments holds. *)
Theorem replay_keys_rebuilds n n' db spool_dir m m0 :
  (forall name, join spool_dir name <> db) ->
  n_files n !! db = Some (concat base) ->
  stored_prefix cfg g hist (n_store n) m0 -> (m <= m0)%nat ->
  replay_keys bucket (map (segment_key cfg g) (seqZ 0 (Z.of_nat m))) db spool_dir n = (n', Ok tt) ->
  n_files n' !! db = Some (database_after p base (take m segs)) /\
  forall n2 r, replica_at n2 r m -> n_files n2 !! r_path r = n_files n' !! db.
Proof.
  intros Hsp Hdb Hs Hm E.
  assert (Hfin : n_files n' !! db = Some (database_after p base (take m segs))).
  { eapply (replay_loop_spec db spool_dir Hsp m 0 m0 n n' []); [|exact Hs|lia|].
    - split; [by rewrite Hdb|constructor].
    - by rewrite Z.sub_0_r. }
  split; [exact Hfin|]. intros n2 r (_ & _ & _ & _ & -> & _). by rewrite Hfin.
Qed.
End CatchUp.

(** ** Concrete runs *)

(** A transaction in two segments, as stored in the bucket. *)
Definition demo_segments_bytes : list (list byte) :=
  map (fun s => match encode_segment (s_page_size s) (s_first_frame s) (s_frames s) with
                | Ok b => b
                | Err _ => []
                end) demo_two.

Definition demo_objects : gmap string Object :=
  list_to_map (imap (fun i b => (segment_key demo_config "g" (Z.of_nat i),
                                 {| o_body := b; o_e_tag := "v"; o_metadata := [] |}))
                 demo_segments_bytes).

Definition demo_bucket : MemStore := mkMem {[ "bucket" := demo_objects ]} 2 [].

Definition demo_replica_path : string := "/data/objstore/replica.db".

Definition standby_node : Node MemStore unit :=
  put_replica (Some (mkReplica "g" (Some "v0") demo_replica_path 0 0 []))
    (mkNode SyncState_default false 0 {[ demo_replica_path := concat demo_db ]}
       (mkDatabase [] None) demo_bucket tt [] 0 []).

Lemma demo_decodes :
  Forall2 (fun b seg => decode_segment b = Ok seg) demo_segments_bytes demo_two.
Proof. repeat constructor; vm_compute; reflexivity. Qed.

Lemma demo_first i seg :
  demo_two !! i = Some seg -> s_first_frame seg = zlen (frames_of (take i demo_two)).
Proof. destruct i as [|[|i]]; [by intros [= <-]..|done]. Qed.

Lemma demo_seg_ok : Forall (seg_ok 512) demo_two.
Proof. unfold seg_ok, segment_ok. demo_segments. Qed.

Lemma mem_grows cfg g hist (s s' : MemStore) m :
  env s s' -> stored_prefix cfg g hist s m ->
  exists m', (m <= m')%nat /\ stored_prefix cfg g hist s' m'.
Proof.
  intros He Hs. exists m. split; [done|]. revert Hs. apply stored_prefix_ext.
  intros i _. by apply mem_quiet.
Qed.

Lemma demo_stored : stored_prefix demo_config "g" demo_segments_bytes demo_bucket 2.
Proof.
  split; [cbn; lia|]. intros i Hi. destruct i as [|[|i]]; [vm_compute; reflexivity..|].
  rewrite lookup_take_ge by lia.
  destruct (objects demo_bucket (cfg_bucket demo_config) !! _) as [o|] eqn:E; [|done].
  exfalso. revert E.
  change (objects demo_bucket (cfg_bucket demo_config)) with demo_objects. unfold demo_objects.
  intros E%elem_of_list_to_map_2. apply elem_of_lookup_imap in E as (j & b & Ej & Hj).
  apply (f_equal fst) in Ej. cbn [fst] in Ej.
  pose proof (lookup_lt_Some _ _ _ Hj) as Hlt. change (length demo_segments_bytes) with 2%nat in Hlt.
  apply segment_key_seq in Ej; [lia|lia|]. unfold u64_max. lia.
Qed.

Lemma demo_standby :
  standby_at demo_config "g" demo_segments_bytes demo_two 512 demo_db standby_node 0.
Proof.
  eexists. split; [reflexivity|]. split_and!; try reflexivity.
  - cbn. lia.
  - intros seq E. cbn in E. discriminate E.
  - intros j Hj. cbn in Hj. lia.
Qed.

Lemma catch_up_witness :
  match apply_segments demo_config standby_node with
  | (n', Ok gap) => gap = false /\ exists j, (2 <= j)%nat /\
      standby_at demo_config "g" demo_segments_bytes demo_two 512 demo_db n' j
  | _ => False
  end.
Proof.
  assert (Hok : is_ok (apply_segments demo_config standby_node).2 = true)
    by (vm_compute; reflexivity).
  destruct (apply_segments demo_config standby_node) as [n' [gap|e]] eqn:E; [|discriminate Hok].
  apply (catch_up demo_config "g" demo_segments_bytes demo_two 512 demo_db
           ltac:(vm_compute; discriminate) demo_decodes demo_first demo_seg_ok demo_db_ok
           (mem_grows demo_config "g" demo_segments_bytes) standby_node n' 0 2 (Ok gap)
           demo_standby ltac:(lia) demo_stored E).
Defined.

Lemma replay_keys_rebuilds_witness :
  match replay_keys "bucket" (map (segment_key demo_config "g") (seqZ 0 2)) demo_replica_path
          "/data/objstore/spool" standby_node with
  | (n', Ok _) => n_files n' !! demo_replica_path = Some (database_after 512 demo_db demo_two)
  | _ => False
  end.
Proof.
  assert (Hok : is_ok (replay_keys "bucket" (map (segment_key demo_config "g") (seqZ 0 2))
                         demo_replica_path "/data/objstore/spool" standby_node).2 = true)
    by (vm_compute; reflexivity).
  destruct (replay_keys _ _ _ _ standby_node) as [n' [[]|e]] eqn:E; [|discriminate Hok].
  apply (replay_keys_rebuilds demo_config "g" demo_segments_bytes demo_two 512 demo_db
           ltac:(vm_compute; discriminate) demo_decodes demo_first demo_seg_ok demo_db_ok
           (mem_grows demo_config "g" demo_segments_bytes) standby_node n' demo_replica_path
           "/data/objstore/spool" 2 2); [|reflexivity|exact demo_stored|lia|exact E].
  intros name E'. cbn in E'. discriminate E'.
Defined.
