(* ===== verification/MetaSync.v ===== *)
(** * The metadata sync (objstore/metasync.rs)

    A leader publishes its database, as WAL segments or as whole snapshots; a
    standby keeps a copy of what is published and takes leadership on it.
    Every operation below runs under [sync_mu], so a run of the process is a
    sequence of them ([sync_step]); [sync] itself may do its first check
    before it holds the lock, which the step relation covers by letting any
    step follow any other.  The properties are in [Promotion]. *)

From stdpp Require Import prelude list strings pretty gmap.
From Stdlib Require Import ZArith Lia Ascii.
From S2P Require Import Prelude Bytes Strings WalFmt ObjectApi Node SnapCodec Fencing WalShip WalFollow.

(** ** Constants and small functions *)

Definition SyncMode_parse (s : string) : option SyncMode :=
  if decide (s = "" \/ s = "wal") then Some ModeWal
  else if decide (s = "snapshot") then Some ModeSnapshot
  else None.

Definition SyncMode_as_str (m : SyncMode) : string :=
  match m with ModeWal => "wal" | ModeSnapshot => "snapshot" end.

(** objstore.rs *)
Definition meta_key (prefix : string) : string :=
  let slash c := Ascii.eqb c "/"%char in
  let prefix := trim_end slash (trim_start slash prefix) in
  if str_is_empty prefix then "meta/forklift.db" else prefix +:+ "/meta/forklift.db".

Definition UPLOAD_BYTES_PER_HOUR : Z := Z.shiftl 4 30.
(** Durations are in milliseconds. *)
Definition MAX_UPLOAD_GAP : Z := 15 * 60 * 1000.
Definition SHIP_TICK : Z := 5 * 1000.

(** The minimum time after an upload of [size] bytes before the next one. *)
Definition upload_gap (size : Z) : Z :=
  let secs := size * 3600 / UPLOAD_BYTES_PER_HOUR in
  Z.min ((if secs <=? u64_max then secs else u64_max) * 1000) MAX_UPLOAD_GAP.

Inductive Upload : Type := Uploaded | Unchanged | Deferred.

Definition Upload_label (u : Upload) : string :=
  match u with Uploaded => "ok" | Unchanged => "unchanged" | Deferred => "deferred" end.

(** The period of the sync loop ([run]). *)
Definition sync_period (cfg : Config) : Z :=
  match cfg_mode cfg with
  | ModeWal => Z.min (cfg_interval cfg) SHIP_TICK
  | ModeSnapshot => cfg_interval cfg
  end.

(** [Instant::elapsed]. *)
Definition elapsed {S Q} (n : Node S Q) (at_ : Z) : Z := Z.max 0 (n_now n - at_).

(** ** State updates *)

Definition st_set_snapshot (path etag : option string) (st : SyncState) : SyncState :=
  mkSync path etag (st_watch st) (st_uploaded_version st) (st_have_uploaded st)
    (st_last_upload st) (st_ship st) (st_replica st) (st_last_standby st).
Definition st_set_watch (w : option nat) (st : SyncState) : SyncState :=
  mkSync (st_snapshot_path st) (st_snapshot_etag st) w (st_uploaded_version st)
    (st_have_uploaded st) (st_last_upload st) (st_ship st) (st_replica st) (st_last_standby st).
Definition st_set_uploaded (version : Z) (have : bool) (last : option (Z * Z)) (st : SyncState)
  : SyncState :=
  mkSync (st_snapshot_path st) (st_snapshot_etag st) (st_watch st) version have last
    (st_ship st) (st_replica st) (st_last_standby st).
Definition st_set_standby (at_ : option Z) (st : SyncState) : SyncState :=
  mkSync (st_snapshot_path st) (st_snapshot_etag st) (st_watch st) (st_uploaded_version st)
    (st_have_uploaded st) (st_last_upload st) (st_ship st) (st_replica st) at_.

Section MetaSync.
Context {S Q : Type} `{ObjectApi S} `{Sqlite Q} `{Codec} (cfg : Config).

Definition update_sync {E} (f : SyncState -> SyncState) : M S Q E unit :=
  modify (fun n => set_sync (f (n_sync n)) n).

(** ** The store (meta.rs) *)

(** [Store::snapshot]: [VACUUM INTO] a file that must not exist. *)
Definition snapshot (dst : string) : M S Q string unit :=
  let! removed := attempt (fs_remove dst) in
  (match removed with
   | Err e => if String.eqb e file_not_found then ret tt else raise e
   | Ok _ => ret tt
   end) ;;
  let! bytes := sql_vacuum in
  fs_write dst bytes.

(** Removing the WAL and the shared-memory file, missing ones ignored. *)
Definition remove_sidecars : M S Q string unit :=
  io_step ;;
  modify (fun n => set_database (mkDatabase (db_file (n_database n)) None) n) ;;
  io_step.

(** [Store::swap_from_snapshot]. *)
Definition swap_from_snapshot (path : string) : M S Q string unit :=
  sql_close ;;
  remove_sidecars ;;
  io_step ;;
  let! files := gets n_files in
  match files !! path with
  | None => raise file_not_found
  | Some b =>
      modify (fun n => set_files (delete path (n_files n))
                         (set_database (mkDatabase b (db_wal (n_database n))) n)) ;;
      sql_open
  end.

(** ** Uploading snapshots *)

Definition drop_watch {E} : M S Q E unit :=
  let! n := gets (fun n => n) in
  (match st_watch (n_sync n) with Some w => sql_unwatch w | None => ret tt end) ;;
  update_sync (fun st => st_set_uploaded (st_uploaded_version st) false None (st_set_watch None st)).

(** The version of the database, and whether it may differ from the one last
    uploaded. *)
Definition changed_since_upload {E} : M S Q E (Z * bool) :=
  let! n := gets (fun n => n) in
  let! w := match st_watch (n_sync n) with
            | Some w => ret (Some w)
            | None =>
                let! r := attempt sql_watch in
                match r with
                | Ok w => update_sync (st_set_watch (Some w)) ;; ret (Some w)
                | Err _ => ret None
                end
            end in
  match w with
  | None => ret (0, true)
  | Some w =>
      let! version := attempt (sql_data_version w) in
      match version with
      | Err _ => drop_watch ;; ret (0, true)
      | Ok v =>
          let! n := gets (fun n => n) in
          ret (v, negb (st_have_uploaded (n_sync n))
                  || negb (v =? st_uploaded_version (n_sync n)))
      end
  end.

Definition upload_snapshot (snap packed : string) (version : Z) : M S Q SyncError unit :=
  with_err MetaError (snapshot snap) ;;
  let! raw_size := with_err (IoError "open snapshot") (fs_len snap) in
  let! (body, size) :=
    match cfg_compression cfg with
    | CompressionNone => ret (snap, raw_size)
    | CompressionZstd =>
        let! size := with_err (IoError "compress snapshot") (compress snap packed) in
        fs_remove_quietly snap ;;
        ret (packed, size)
    end in
  put_fenced cfg body size [] ;;
  let! n := gets (fun n => n) in
  update_sync (st_set_uploaded version true (Some (n_now n, size))).

Definition upload (paced : bool) : M S Q SyncError Upload :=
  let! (version, changed) := changed_since_upload in
  if negb changed then ret Unchanged else
  let! n := gets (fun n => n) in
  if match st_last_upload (n_sync n) with
     | Some (at_, size) => paced && (elapsed n at_ <? upload_gap size)
     | None => false
     end then ret Deferred else
  with_err (IoError "create objstore dir") (fs_create_dir_all (work_dir cfg)) ;;
  let snap := join (work_dir cfg) "upload.db" in
  let packed := join (work_dir cfg) "upload.db.zst" in
  let! res := attempt (upload_snapshot snap packed version) in
  fs_remove_quietly snap ;;
  fs_remove_quietly packed ;;
  let! _ := lift res in
  ret Uploaded.

(** ** The cycle *)

(** [ship_detached], under the lock. *)
Definition ship_detached : M S Q SyncError unit :=
  let! leader := gets n_is_leader in
  if negb leader then ret tt else ship cfg false.

(** The leader's cycle in snapshot mode. *)
Definition sync_leader_snapshot : M S Q SyncError unit :=
  let! outcome := with_err (Context "upload snapshot") (upload true) in
  match outcome with
  | Uploaded => delete_generations_except cfg None
  | _ => ret tt
  end.

(** Downloads the snapshot and records it for promotion. *)
Definition sync_download : M S Q SyncError unit :=
  let dst := join (work_dir cfg) "forklift.db" in
  let! (found, size, etag) := with_err (Context "download snapshot") (download cfg dst None) in
  if negb found then ret tt else
  update_sync (st_set_snapshot (Some dst) etag).

(** Whether the recorded copy is of the object HEAD describes. *)
Definition copy_current (head : HeadObjectOutput) : M S Q SyncError bool :=
  let! n := gets (fun n => n) in
  match st_snapshot_path (n_sync n) with
  | Some path =>
      if is_some (st_snapshot_etag (n_sync n))
         && bool_decide (st_snapshot_etag (n_sync n) = head_e_tag head)
      then fs_exists path else ret false
  | None => ret false
  end.

(** The standby's cycle. *)
Definition sync_standby : M S Q SyncError unit :=
  let! n := gets (fun n => n) in
  if match cfg_mode cfg, st_last_standby (n_sync n) with
     | ModeWal, Some at_ => elapsed n at_ <? cfg_interval cfg
     | _, _ => false
     end then ret tt else
  update_sync (st_set_standby (Some (n_now n))) ;;
  checkpoint_standby cfg ;;
  let! head := attempt (api_head (cfg_bucket cfg) (cfg_key cfg)) in
  match head with
  | Ok h =>
      match generation_of h with
      | Some generation =>
          update_sync (st_set_snapshot None None) ;;
          let! _ := with_err (Context "follow wal generation")
                      (follow_generation cfg h generation false) in
          ret tt
      | None =>
          drop_replica ;;
          let! current := copy_current h in
          if (current : bool) then ret tt else sync_download
      end
  | Err e =>
      drop_replica ;;
      if is_not_found e then ret tt else sync_download
  end.

(** [sync] after it took the lock. *)
Definition sync_locked : M S Q SyncError unit :=
  let! leader := gets n_is_leader in
  if (leader : bool) then
    match cfg_mode cfg with
    | ModeWal => ship_detached
    | ModeSnapshot => sync_leader_snapshot
    end
  else sync_standby.

Definition sync : M S Q SyncError unit :=
  let! leader := gets n_is_leader in
  match cfg_mode cfg, leader with
  | ModeWal, true => ship_detached
  | _, _ => sync_locked
  end.

(** ** Restoring *)

(** The restore of a self-contained snapshot. *)
Definition restore_snapshot (head : option HeadObjectOutput) : M S Q SyncError unit :=
  let dst := join (work_dir cfg) "restore.db" in
  let! (found, _, _) := download cfg dst head in
  if negb found then ret tt else
  with_err (fun e => Context "apply boot snapshot" (MetaError e)) (swap_from_snapshot dst).

(** The restore of a generation. *)
Definition restore_generation (head : HeadObjectOutput) (generation : string)
  : M S Q SyncError unit :=
  let! path := with_err (Context "restore wal generation")
                 (follow_generation cfg head generation true) in
  drop_replica ;;
  with_err (fun e => Context "apply boot snapshot" (MetaError e)) (swap_from_snapshot path).

Definition restore_on_boot : M S Q SyncError unit :=
  let! head := attempt (api_head (cfg_bucket cfg) (cfg_key cfg)) in
  match head with
  | Ok h =>
      match generation_of h with
      | Some generation => restore_generation h generation
      | None => restore_snapshot (Some h)
      end
  | Err e =>
      if is_not_found e then restore_snapshot None else raise (Context "head snapshot" e)
  end.

(** ** Leadership *)

(** Leadership is recorded last. *)
Definition lead {E} : M S Q E unit :=
  modify (put_ship Shipper_default) ;;
  modify (set_leader true).

(** Promotion onto a generation. *)
Definition promote_generation (head : HeadObjectOutput) (generation : string)
  : M S Q SyncError unit :=
  let! path := attempt (follow_generation cfg head generation true) in
  drop_replica ;;
  match path with
  | Err e => raise (Context "catch up wal generation on promote" e)
  | Ok path =>
      with_err (fun e => Context "apply wal generation on promote" (MetaError e))
        (swap_from_snapshot path) ;;
      lead
  end.

(** Promotion onto a self-contained snapshot; [path] and [etag] are the copy
    the standby recorded. *)
Definition promote_snapshot (head : HeadObjectOutput) (path etag : option string)
  : M S Q SyncError unit :=
  drop_replica ;;
  let! path :=
    match path with
    | Some p =>
        if is_some etag && bool_decide (etag = head_e_tag head) then ret (Some p)
        else ret None
    | None => ret None
    end in
  let! path :=
    match path with
    | Some p => ret (Some p)
    | None =>
        let dst := join (work_dir cfg) "promote.db" in
        let! (found, _, _) := with_err (Context "download snapshot on promote")
                                (download cfg dst (Some head)) in
        ret (if (found : bool) then Some dst else None)
    end in
  match path with
  | None => modify (set_leader true)
  | Some path =>
      with_err (fun e => Context "apply snapshot on promote" (MetaError e))
        (swap_from_snapshot path) ;;
      lead
  end.

Definition promote (fence : Z) : M S Q SyncError unit :=
  modify (set_fence fence) ;;
  drop_watch ;;
  let! n := gets (fun n => n) in
  let path := st_snapshot_path (n_sync n) in
  let etag := st_snapshot_etag (n_sync n) in
  update_sync (st_set_snapshot None None) ;;
  let! head := attempt (api_head (cfg_bucket cfg) (cfg_key cfg)) in
  match head with
  | Err e =>
      if is_not_found e then modify (set_leader true)
      else raise (Context "head snapshot on promote" e)
  | Ok head =>
      match generation_of head with
      | Some generation => promote_generation head generation
      | None => promote_snapshot head path etag
      end
  end.

(** The outcome only reaches the log. *)
Definition final_flush {E} : M S Q E unit :=
  match cfg_mode cfg with
  | ModeWal => let! _ := attempt (ship cfg true) in ret tt
  | ModeSnapshot => let! _ := attempt (upload false) in ret tt
  end.

Definition demote {E} : M S Q E unit :=
  let! leader := gets n_is_leader in
  (if (leader : bool) then final_flush else ret tt) ;;
  modify (set_leader false) ;;
  drop_watch ;;
  discard.

Definition final_sync {E} : M S Q E unit :=
  let! leader := gets n_is_leader in
  if (leader : bool) then final_flush else ret tt.

(** ** The process *)

(** One critical section of the process, with its outcome.  Time passes and
    others write to the bucket in between only through the operations' own
    models. *)
Inductive sync_step : Node S Q -> result SyncError unit -> Node S Q -> Prop :=
| step_sync n n' r : sync n = (n', r) -> sync_step n r n'
| step_sync_locked n n' r : sync_locked n = (n', r) -> sync_step n r n'
| step_ship n n' r : ship_detached n = (n', r) -> sync_step n r n'
| step_promote n n' r fence :
    n_is_leader n = false -> promote fence n = (n', r) -> sync_step n r n'
| step_demote n n' r : demote n = (n', r) -> sync_step n r n'
| step_final n n' r : final_sync n = (n', r) -> sync_step n r n'
| step_clock n now : n_now n <= now ->
    sync_step n (Ok tt) (mkNode (n_sync n) (n_is_leader n) (n_fence n) (n_files n)
                   (n_database n) (n_store n) (n_sqlite n) (n_io n) now (n_entropy n)).
End MetaSync.
