(* ===== verification/Promotion.v ===== *)
(** * Taking and giving up leadership (objstore/metasync.rs)

    The bucket is the only authority: a process takes leadership on the object
    that is current, fully downloaded and verified, or on its own data only
    when the bucket has none.  Leadership is recorded after the database is in
    place, and a standby never holds shipping state. *)

From stdpp Require Import prelude list strings pretty gmap.
From Stdlib Require Import ZArith Lia Ascii.
From S2P Require Import Prelude Bytes Strings WalFmt Instances ObjectApi MemStore Node.
From S2P Require Import SnapCodec Fencing WalShip WalFollow MetaSync Capture Replay.

#[local] Arguments String.append : simpl nomatch.

(** ** Pacing *)

(** The pacing is bounded and effective: a longer gap follows a larger
    upload, no gap is longer than [MAX_UPLOAD_GAP], and any upload small enough
    not to hit that limit keeps the volume within [UPLOAD_BYTES_PER_HOUR], up
    to the second the gap is rounded down to. *)
Theorem upload_gap_bounds size :
  0 <= size <= u64_max ->
  0 <= upload_gap size <= MAX_UPLOAD_GAP /\
  (forall size', 0 <= size' <= size -> upload_gap size' <= upload_gap size) /\
  (upload_gap size < MAX_UPLOAD_GAP ->
   size * 3600 < (upload_gap size / 1000 + 1) * UPLOAD_BYTES_PER_HOUR).
Proof.
  intros Hs. unfold upload_gap. change UPLOAD_BYTES_PER_HOUR with 4294967296.
  change MAX_UPLOAD_GAP with 900000. unfold u64_max in *.
  assert (Hb : forall x, 0 <= x <= 2 ^ 64 - 1 -> 0 <= x * 3600 / 4294967296 <= 2 ^ 64 - 1).
  { intros x Hx. split; [apply Z.div_pos; lia|]. apply Z.div_le_upper_bound; lia. }
  pose proof (Hb size Hs) as Hz.
  destruct (Z.leb_spec (size * 3600 / 4294967296) (2 ^ 64 - 1)); [|lia].
  split_and!; [lia|lia| |].
  - intros x Hx. pose proof (Hb x ltac:(lia)).
    destruct (Z.leb_spec (x * 3600 / 4294967296) (2 ^ 64 - 1)); [|lia].
    assert (x * 3600 / 4294967296 <= size * 3600 / 4294967296) by (apply Z.div_le_mono; lia). lia.
  - intros Hlt. rewrite Z.min_l by lia. rewrite Z.div_mul by lia.
    pose proof (Z.mul_succ_div_gt (size * 3600) 4294967296 ltac:(lia)). lia.
Qed.

(** ** What an operation leaves alone *)

(** The value of [f] stays the same. *)
Definition frame {S Q X} (f : Node S Q -> X) (n n' : Node S Q) : Prop := f n' = f n.

#[export] Instance frame_preorder {S Q X} (f : Node S Q -> X) : PreOrder (frame f).
Proof. split; [by intros n|]. unfold frame. intros ? ? ? ? ?. congruence. Qed.

Lemma keeps_frame_files {S Q X E A} (f : Node S Q -> X) (m : M S Q E A) :
  (forall n io fs, f (set_io io (set_files fs n)) = f n) ->
  keeps same_but_files m -> keeps (frame f) m.
Proof. intros Hf Hk n. specialize (Hk n). unfold frame. rewrite Hk. apply Hf. Qed.

Lemma keeps_frame_modify {S Q X E} (f : Node S Q -> X) g :
  (forall n, f (g n) = f n) -> keeps (frame f) (modify (E := E) g).
Proof. intros Hg n. apply Hg. Qed.

(** All of the state but the files, the bucket and the standby's copy. *)
Definition standing {S Q} (n : Node S Q) :=
  (n_is_leader n, n_fence n, set_replica None (n_sync n), n_database n, n_sqlite n).

(** All of the state but the files and the bucket. *)
Definition local_state {S Q} (n : Node S Q) :=
  (n_is_leader n, n_fence n, n_sync n, n_database n, n_sqlite n).

Hint Extern 5 (keeps (frame _) _) =>
  apply keeps_frame_files; [reflexivity|solve [solve_keeps]] : keeps.
Hint Extern 4 (keeps (frame _) (modify _)) => apply keeps_frame_modify; reflexivity : keeps.

(** ** Downloading *)

Section Download.
Context {S Q : Type} `{ObjectApiLaws S} `{Codec} (cfg : Config).
Implicit Types n : Node S Q.
Abbreviation stored s := (objects s (cfg_bucket cfg) !! cfg_key cfg).

Definition digest_text (b : list byte) : string := hex_encode (sha256 b).

(** What a download that found the object establishes about [o]. *)
Definition downloaded (expect : option HeadObjectOutput) (o : Object) (etag : option string) : Prop :=
  (forall tag, etag = Some tag -> tag = o_e_tag o) /\
  (forall head, expect = Some head ->
     (forall tag, head_e_tag head = Some tag -> is_Some etag -> tag = o_e_tag o) /\
     (forall want, meta_value (head_metadata head) SHA256_META_KEY = Some want ->
        eq_ignore_ascii_case want (digest_text (o_body o)) = true)).

Lemma replaced_since_false head etag tag :
  replaced_since (Some head) etag = false -> head_e_tag head = Some tag -> is_Some etag ->
  etag = Some tag.
Proof.
  unfold replaced_since. intros Hr Ht [t ->]. rewrite Ht in Hr. cbn in Hr.
  apply negb_false_iff, bool_decide_eq_true in Hr. congruence.
Qed.

(** The steps after the body was copied to the temporary file. *)
Lemma with_err_ok {E F A} (f : E -> F) (m : M S Q E A) n n' a :
  with_err f m n = (n', Ok a) -> m n = (n', Ok a).
Proof. unfold with_err. destruct (m n) as [n1 [x|e]]; [by intros [= <- <-]|done]. Qed.

Lemma copy_hashing_ok body path n n' size sha :
  copy_hashing body path n = (n', Ok (size, sha)) ->
  exists b, body = Ok b /\ sha = digest_text b /\ n_files n' = <[path := b]> (n_files n).
Proof.
  unfold copy_hashing. intros (n1 & b & E1 & E)%bind_ok.
  apply bind_ok in E as (n2 & [] & E2 & [= <- _ <-]). unfold lift in E1. injection E1 as <- ->.
  exists b. split; [done|]. split; [done|]. by apply fs_write_ok.
Qed.

Lemma fs_len_ok path n n' len : fs_len path n = (n', Ok len) -> n_files n' = n_files n.
Proof.
  unfold fs_len. intros (n1 & b & E1 & [= <- _])%bind_ok. by apply fs_read_spec in E1 as [? _].
Qed.

Lemma same_but_files_store n n' : same_but_files n n' -> n_store n' = n_store n.
Proof. by intros ->. Qed.

Lemma keeps_materialize raw dst : keeps (@same_but_files S Q) (materialize raw dst).
Proof. unfold materialize, is_zstd, decompress. solve_keeps. Qed.

Lemma keeps_copy_hashing body path : keeps (@same_but_files S Q) (copy_hashing body path).
Proof. unfold copy_hashing. solve_keeps. Qed.

Hint Resolve keeps_materialize keeps_copy_hashing : keeps.

Lemma keeps_download dst expect : keeps (frame (@local_state S Q)) (download cfg dst expect).
Proof.
  unfold download. apply keeps_bind; [typeclasses eauto| |].
  - apply keeps_attempt. intros n. unfold api_get, frame. by destruct (get_object _ _ _).
  - solve_keeps.
Qed.

(** The part of [download] after the object was opened. *)
Lemma download_tail dst out want n n' res :
  (with_err (IoError "create objstore dir") (fs_create_dir_all dst) ;;
   with_err (IoError "create temp snapshot") (fs_write (dst +:+ ".tmp") []) ;;
   let! copied := attempt (copy_hashing (get_body out) (dst +:+ ".tmp")) in
   match copied with
   | Err e => fs_remove_quietly (dst +:+ ".tmp") ;; raise (IoError "download snapshot" e)
   | Ok (n, sha) =>
       if sha_mismatch want sha then
         fs_remove_quietly (dst +:+ ".tmp") ;;
         raise (ObjectStore ("snapshot sha256 " +:+ sha +:+ " does not match the recorded "
                             +:+ default "" want))
       else
       let! synced := attempt io_step in
       match synced with
       | Err e => fs_remove_quietly (dst +:+ ".tmp") ;; raise (IoError "sync snapshot" e)
       | Ok _ =>
       let! closed := attempt io_step in
       match closed with
       | Err e => fs_remove_quietly (dst +:+ ".tmp") ;; raise (IoError "close snapshot" e)
       | Ok _ =>
       let! committed := attempt (materialize (dst +:+ ".tmp") dst ;; fs_len dst) in
       match committed with
       | Err e => fs_remove_quietly (dst +:+ ".tmp") ;; raise (IoError "commit snapshot" e)
       | Ok _ => ret (true, n, get_e_tag out)
       end end end
   end) n = (n', res) ->
  same_but_files n n' /\
  forall found size etag, res = Ok (found, size, etag) ->
    found = true /\ etag = get_e_tag out /\
    exists b, get_body out = Ok b /\ sha_mismatch want (digest_text b) = false /\
      n_files n' !! dst = plain_content b /\ is_Some (plain_content b).
Proof.
  intros E. split; [apply (run_keeps same_but_files _ _ _ _ E); solve_keeps|].
  intros found size etag ->.
  assert (Hne : dst +:+ ".tmp" <> dst) by (by apply str_app_ne).
  apply bind_ok in E as (n1 & [] & _ & E). apply bind_ok in E as (n2 & [] & _ & E).
  unfold bind at 1, attempt in E.
  destruct (copy_hashing _ _ n2) as [n3 [[len sha]|e]] eqn:E3;
    [|rewrite fs_remove_quietly_bind in E; done].
  apply copy_hashing_ok in E3 as (b & Eb & -> & Ef).
  destruct (sha_mismatch want (digest_text b)) eqn:Esha;
    [rewrite fs_remove_quietly_bind in E; done|].
  unfold bind at 1 in E. destruct (io_step n3) as [n4 [[]|e]] eqn:E4;
    [|rewrite fs_remove_quietly_bind in E; done].
  unfold bind at 1 in E. destruct (io_step n4) as [n5 [[]|e]] eqn:E5;
    [|rewrite fs_remove_quietly_bind in E; done].
  unfold bind at 1 in E.
  destruct ((materialize (dst +:+ ".tmp") dst ;; fs_len dst) n5) as [n6 [len6|e]] eqn:E6;
    [|rewrite fs_remove_quietly_bind in E; done].
  injection E as <- <- _ <-. split; [done|]. split; [done|]. exists b.
  split; [done|]. split; [done|].
  apply bind_ok in E6 as (n7 & [] & E6 & E7). apply fs_len_ok in E7. rewrite E7.
  apply materialize_outcome in E6 as (b' & Hb' & Hd & Hp); [|done].
  apply io_step_files in E4, E5. rewrite E5, E4, Ef, lookup_insert_eq in Hb'.
  injection Hb' as <-. done.
Qed.

Lemma download_result dst expect n n' found size etag :
  download cfg dst expect n = (n', Ok (found, size, etag)) ->
  env (n_store n) (n_store n') /\
  if found : bool then
    exists o, stored (n_store n') = Some o /\ downloaded expect o etag /\
      n_files n' !! dst = plain_content (o_body o) /\ is_Some (plain_content (o_body o))
  else stored (n_store n') = None.
Proof.
  unfold download, bind at 1, attempt, api_get.
  destruct (get_object (n_store n) _ _) as [s' [out|e]] eqn:Eg.
  - apply get_ok in Eg as (He & o & Ho & Hb & Ht).
    destruct (replaced_since expect (get_e_tag out)) eqn:Erep; [done|].
    intros E. apply download_tail in E as [Hk Hres].
    destruct (Hres _ _ _ eq_refl) as (-> & -> & b & Ebody & Esha & Hf & Hp).
    assert (Es : n_store n' = s') by (apply same_but_files_store in Hk; done). rewrite Es.
    split; [done|]. pose proof (Hb b Ebody) as ->. exists o. split; [done|].
    split; [|done]. split; [exact Ht|]. intros head ->. split.
    + intros tag Htag Hsome. apply Ht. by apply (replaced_since_false head).
    + intros want Hw. rewrite Hw in Esha. unfold sha_mismatch in Esha.
      by apply negb_false_iff in Esha.
  - destruct (is_not_found e) eqn:En; [|done]. intros [= <- <- _ _].
    apply get_err in Eg as [He Hn]. split; [done|]. by apply Hn.
Qed.

(** A download is verified and atomic.  When it reports the object found,
    the destination holds exactly the plain database of an object the bucket
    held, which is the one HEAD described if both requests named an ETag, and
    whose digest is the one recorded with it, if any.  When it reports none,
    the bucket held none. *)
Theorem download_verified dst expect n n' found size etag :
  download cfg dst expect n = (n', Ok (found, size, etag)) ->
  env (n_store n) (n_store n') /\
  if found : bool then
    exists o, stored (n_store n') = Some o /\ downloaded expect o etag /\
      n_files n' !! dst = plain_content (o_body o) /\ is_Some (plain_content (o_body o))
  else stored (n_store n') = None.
Proof. apply download_result. Qed.
End Download.

(** ** Following leaves the rest of the state alone *)

Section FollowFrame.
Context {S Q : Type} `{ObjectApi S} `{Codec} (cfg : Config).
Abbreviation R := (frame (@standing S Q)).

Lemma keeps_standing_head b k : keeps R (api_head b k).
Proof. intros n. unfold api_head, frame. by destruct (head_object _ _ _). Qed.
Lemma keeps_standing_get b k : keeps R (api_get b k).
Proof. intros n. unfold api_get, frame. by destruct (get_object _ _ _). Qed.
Lemma keeps_standing_list b k : keeps R (api_list b k).
Proof. intros n. unfold api_list, frame. by destruct (list_keys _ _ _). Qed.
Lemma keeps_standing_replica {E} r : keeps R (modify (E := E) (put_replica r)).
Proof. by intros n. Qed.
Hint Resolve keeps_standing_head keeps_standing_get keeps_standing_list
  keeps_standing_replica keeps_apply_run keeps_remove_files : keeps.

Lemma keeps_standing_drop {E} : keeps R (drop_replica (E := E)).
Proof. unfold drop_replica. solve_keeps. Qed.

Lemma keeps_apply_next key seq r : keeps R (apply_next cfg key seq r).
Proof. unfold apply_next, get_bytes. solve_keeps. Qed.
Hint Resolve keeps_apply_next keeps_standing_drop : keeps.

Lemma keeps_apply_loop prefix keys r : keeps R (apply_loop cfg prefix keys r).
Proof. revert r. induction keys as [|key keys IH]; intros r; cbn; solve_keeps; apply IH. Qed.
Hint Resolve keeps_apply_loop : keeps.

Lemma keeps_standing_local {E A} (m : M S Q E A) :
  keeps (frame (@local_state S Q)) m -> keeps R m.
Proof.
  intros Hm n. specialize (Hm n). unfold frame, standing, local_state in *.
  by injection Hm as -> -> -> -> ->.
Qed.

Lemma keeps_standing_download dst expect : keeps R (download cfg dst expect).
Proof. apply keeps_standing_local, keeps_download. Qed.
Hint Resolve keeps_standing_download : keeps.

Lemma keeps_follow_generation head g verify :
  keeps R (follow_generation cfg head g verify).
Proof.
  unfold follow_generation, reusable, fresh_replica, apply_segments, check_db. solve_keeps.
Qed.
End FollowFrame.

#[export] Hint Resolve keeps_standing_head keeps_standing_drop keeps_standing_download
  keeps_follow_generation : keeps.

(** ** Opening the downloaded database *)

Section Swap.
Context {S Q : Type} `{Sqlite Q}.
Implicit Types n : Node S Q.

(** The database was opened from the file content [b], with no WAL. *)
Definition opened_from (b : list byte) (n : Node S Q) : Prop :=
  exists q, sqlite_open q (mkDatabase b None) = (n_sqlite n, n_database n, Ok tt).

Definition roles n := (n_is_leader n, n_fence n, n_sync n, n_store n).

Lemma keeps_swap path : keeps (frame roles) (swap_from_snapshot path).
Proof.
  unfold swap_from_snapshot, remove_sidecars, sql_close. solve_keeps.
  intros n. unfold sql_open, frame. by destruct (sqlite_open _ _) as [[? ?] ?].
Qed.

Lemma swap_ok path n n' :
  swap_from_snapshot path n = (n', Ok tt) ->
  exists b, n_files n !! path = Some b /\ opened_from b n'.
Proof.
  unfold swap_from_snapshot, sql_close. intros (n1 & [] & [= <-] & E)%bind_ok.
  apply bind_ok in E as (n2 & [] & E2 & E). unfold remove_sidecars in E2.
  apply bind_ok in E2 as (n3 & [] & E3 & E4).
  apply bind_ok in E4 as (n4 & [] & [= <-] & E4).
  pose proof (run_keeps same_but_files _ _ _ _ E4 (keeps_io_step)) as Hk4.
  apply io_step_files in E3, E4. apply bind_ok in E as (n5 & [] & E5 & E).
  pose proof (run_keeps same_but_files _ _ _ _ E5 (keeps_io_step)) as Hk5.
  apply io_step_files in E5. apply bind_ok in E as (n6 & fs & [= <- <-] & E).
  rewrite E5, E4 in E. cbn [n_files set_database] in E. rewrite E3 in E. cbn in E.
  destruct (n_files n !! path) as [b|]; [|done]. exists b. split; [done|].
  apply bind_ok in E as (n7 & [] & [= <-] & E). unfold sql_open in E. cbn in E.
  assert (Hw : db_wal (n_database n5) = None) by (rewrite Hk5, Hk4; done). rewrite Hw in E.
  destruct (sqlite_open _ _) as [[q' d] r] eqn:Eo. injection E as <- ->.
  eexists. exact Eo.
Qed.
End Swap.

(** ** Promotion *)

Section Promote.
Context {S Q : Type} `{ObjectApiLaws S} `{Sqlite Q} `{Codec} (cfg : Config).
Implicit Types n : Node S Q.
Abbreviation stored s := (objects s (cfg_bucket cfg) !! cfg_key cfg).

(** What every promotion leaves, whatever its outcome: the term is recorded
    and nothing of a previous term is. *)
Definition term_begun (fence : Z) n : Prop :=
  n_fence n = fence /\ st_snapshot_path (n_sync n) = None /\
  st_snapshot_etag (n_sync n) = None /\ st_watch (n_sync n) = None /\
  st_have_uploaded (n_sync n) = false /\ st_last_upload (n_sync n) = None.

(** The state after the preparation of [promote]. *)
Definition prepared (fence : Z) n : Node S Q :=
  let n1 := (drop_watch (E := SyncError) (set_fence fence n)).1 in
  set_sync (st_set_snapshot None None (n_sync n1)) n1.

Lemma promote_unfold fence n :
  promote cfg fence n =
  (let! head := attempt (api_head (cfg_bucket cfg) (cfg_key cfg)) in
   match head with
   | Err e =>
       if is_not_found e then modify (set_leader true)
       else raise (Context "head snapshot on promote" e)
   | Ok head =>
       match generation_of head with
       | Some generation => promote_generation cfg head generation
       | None => promote_snapshot cfg head (st_snapshot_path (n_sync n))
                   (st_snapshot_etag (n_sync n))
       end
   end) (prepared fence n).
Proof. unfold promote, prepared, drop_watch. by destruct n as [[? ? [w|] ? ? ? ? ? ?]]. Qed.

Lemma prepared_term fence n :
  term_begun fence (prepared fence n) /\ n_is_leader (prepared fence n) = n_is_leader n /\
  n_ship (prepared fence n) = n_ship n /\ n_files (prepared fence n) = n_files n /\
  n_store (prepared fence n) = n_store n /\ n_replica (prepared fence n) = n_replica n /\
  n_database (prepared fence n) = n_database n.
Proof. unfold prepared, drop_watch. by destruct n as [[? ? [w|] ? ? ? ? ? ?]]. Qed.

(** The parts of the state [term_begun] and the outcome are about. *)
Definition term n :=
  (n_is_leader n, n_fence n, set_replica None (n_sync n)).

Lemma keeps_term {E A} (m : M S Q E A) : keeps (frame standing) m -> keeps (frame term) m.
Proof.
  intros Hm n. exact (f_equal (fun x => let '(l, f, st, _, _) := x in (l, f, st)) (Hm n)).
Qed.

Lemma keeps_term_roles {E A} (m : M S Q E A) : keeps (frame roles) m -> keeps (frame term) m.
Proof.
  intros Hm n.
  exact (f_equal (fun x => let '(l, f, st, _) := x in (l, f, set_replica None st)) (Hm n)).
Qed.

(** A computation that only leads at its end. *)
Definition leads_last (m : M S Q SyncError unit) : Prop :=
  forall n n' r, m n = (n', r) ->
  match r with
  | Ok _ => term n' = (true, n_fence n, set_replica None (n_sync n)) \/
            term n' = (true, n_fence n, set_replica None (set_ship Shipper_default (n_sync n)))
  | Err _ => term n' = term n
  end.

Lemma leads_bind {A} (m : M S Q SyncError A) k :
  keeps (frame term) m -> (forall a, leads_last (k a)) -> leads_last (bind m k).
Proof.
  intros Hm Hk n n' r. unfold bind. specialize (Hm n). destruct (m n) as [n1 [a|e]].
  - intros E. apply Hk in E. unfold frame in Hm. cbn [fst] in Hm.
    pose proof (f_equal (fun x => x.1.2) Hm) as H2'. pose proof (f_equal snd Hm) as H3'.
    cbn in H2', H3'. destruct r as [[]|e]; [|congruence].
    assert (Hs : set_replica None (set_ship Shipper_default (n_sync n1)) =
                 set_replica None (set_ship Shipper_default (n_sync n))).
    { change (set_ship Shipper_default (set_replica None (n_sync n1)) =
              set_ship Shipper_default (set_replica None (n_sync n))). by rewrite H3'. }
    rewrite H2', H3', Hs in E. exact E.
  - intros [= <- <-]. exact Hm.
Qed.

Lemma leads_lead : leads_last lead.
Proof. intros n n' r [= <- <-]. by right. Qed.
Lemma leads_empty : leads_last (modify (set_leader true)).
Proof. intros n n' r [= <- <-]. by left. Qed.
Lemma leads_raise e : leads_last (raise e).
Proof. intros n n' r [= <- <-]. done. Qed.

Lemma keeps_term_swap f path :
  keeps (frame term) (with_err f (swap_from_snapshot path) : M S Q SyncError unit).
Proof. apply keeps_with_err, keeps_term_roles, keeps_swap. Qed.

Lemma promote_generation_leads head g : leads_last (promote_generation cfg head g).
Proof.
  unfold promote_generation. apply leads_bind; [apply keeps_term; solve_keeps|].
  intros res. apply leads_bind; [apply keeps_term; solve_keeps|]. intros _.
  destruct res as [path|e]; [|apply leads_raise].
  apply leads_bind; [apply keeps_term_swap|intros _; apply leads_lead].
Qed.

Lemma promote_snapshot_leads head path etag : leads_last (promote_snapshot cfg head path etag).
Proof.
  unfold promote_snapshot. apply leads_bind; [apply keeps_term; solve_keeps|]. intros _.
  apply leads_bind; [apply keeps_term; solve_keeps|]. intros cached.
  apply leads_bind; [apply keeps_term; solve_keeps|]. intros chosen.
  destruct chosen as [p|]; [|apply leads_empty].
  apply leads_bind; [apply keeps_term_swap|intros _; apply leads_lead].
Qed.

Lemma promote_term fence n n' r :
  promote cfg fence n = (n', r) -> n_ship n = Shipper_default ->
  term_begun fence n' /\ n_ship n' = Shipper_default /\
  n_is_leader n' = match r with Ok _ => true | Err _ => n_is_leader n end.
Proof.
  rewrite promote_unfold. pose proof (prepared_term fence n) as (Ht & Hl & Hs & _).
  intros E Hd. rewrite Hd in Hs. unfold n_ship in Hs.
  assert (Hlast : leads_last
    (let! head := attempt (api_head (cfg_bucket cfg) (cfg_key cfg)) in
     match head with
     | Err e => if is_not_found e then modify (set_leader true)
                else raise (Context "head snapshot on promote" e)
     | Ok head => match generation_of head with
                  | Some generation => promote_generation cfg head generation
                  | None => promote_snapshot cfg head (st_snapshot_path (n_sync n))
                              (st_snapshot_etag (n_sync n))
                  end
     end)).
  { apply leads_bind; [apply keeps_term; solve_keeps|]. intros [head|e].
    - destruct (generation_of head); [apply promote_generation_leads|apply promote_snapshot_leads].
    - destruct (is_not_found e); [apply leads_empty|apply leads_raise]. }
  apply Hlast in E. unfold term_begun, n_ship, term in *. rewrite <- Hl.
  destruct (n_sync n') as [], (n_sync (prepared fence n)) as []. cbn in *.
  destruct Ht as (? & ? & ? & ? & ? & ?).
  destruct r as [[]|e]; [destruct E as [E|E]|]; injection E; intros; split_and!; congruence.
Qed.

(** Leadership is recorded last and exactly once.  Whatever requests, file
    or database operations fail, a promotion that returns an error leaves the
    process in the role it had, and one that succeeds makes it the leader; in
    both cases it carries the new fence, starts with an empty shipping state,
    and forgets the copy, the watch and the upload record of earlier terms, so
    that the first upload of the term is unconditional. *)
Theorem promote_leads_last fence n n' r :
  promote cfg fence n = (n', r) -> n_ship n = Shipper_default ->
  term_begun fence n' /\ n_ship n' = Shipper_default /\
  n_is_leader n' = match r with Ok _ => true | Err _ => n_is_leader n end.
Proof. apply promote_term. Qed.
End Promote.

(** A 100 GiB upload hits the limit; a 1 GiB one waits a quarter of an hour. *)
Lemma upload_gap_bounds_witness :
  0 <= 2 ^ 30 <= u64_max /\ 0 <= upload_gap (2 ^ 30) <= MAX_UPLOAD_GAP.
Proof.
  split; [unfold u64_max; lia|].
  apply (upload_gap_bounds (2 ^ 30)). unfold u64_max. lia.
Defined.
