(* ===== verification/Restore.v ===== *)
(** * The database a new leader starts from (objstore/metasync.rs)

    A successful promotion opens the authoritative database: the plain content
    of the object in the bucket, or, when the object is the base of a WAL
    generation, the base with every segment the bucket held replayed onto it.
    Only an empty bucket leaves the local database in place.  A boot restore
    ends in the same database. *)

From stdpp Require Import prelude list strings pretty gmap.
From Stdlib Require Import ZArith Lia Ascii.
From S2P Require Import Prelude Bytes Strings WalFmt Instances WalSegments WalReplay ObjectApi.
From S2P Require Import MemStore Node SnapCodec Fencing WalShip Keys Capture Shipping.
From S2P Require Import WalFollow Replay MetaSync Promotion.

#[local] Arguments String.append : simpl nomatch.

(** ** The files of the standby's copy *)

Section Named.
Context {S Q : Type} `{ObjectApi S} `{Codec} (cfg : Config).
Implicit Types n : Node S Q.

Definition replica_path : string := join (work_dir cfg) "replica.db".

Definition copy_named (r : Replica) : Prop :=
  r_path r = replica_path /\ Forall (fun q => exists seq, q = spool_path cfg seq) (r_spool r).

Definition replica_named n : Prop := forall r, n_replica n = Some r -> copy_named r.

Lemma spool_path_ne_replica seq : spool_path cfg seq <> replica_path.
Proof. unfold spool_path, replica_path, join. intros E%str_app_inj_l%str_app_inj_l. done. Qed.

Lemma copy_named_path r : copy_named r -> r_path r ∉ r_spool r.
Proof.
  intros [-> HF] Hin. rewrite Forall_forall in HF. destruct (HF _ Hin) as (seq & E).
  by apply (spool_path_ne_replica seq).
Qed.

(** Keeping the copy named. *)
Definition named_step n n' : Prop := replica_named n -> replica_named n'.

#[export] Instance named_step_preorder : PreOrder named_step.
Proof. split; [intros n Hn; exact Hn|]. unfold named_step. intros ? ? ? ?. auto. Qed.

Lemma named_same {E A} (m : M S Q E A) :
  keeps (frame n_replica) m -> keeps named_step m.
Proof. intros Hm n Hn r. specialize (Hm n). unfold frame in Hm. rewrite Hm. apply Hn. Qed.

Lemma named_request_get b k : keeps (frame (@n_replica S Q)) (api_get b k).
Proof. intros n. unfold api_get, frame. by destruct (get_object _ _ _). Qed.
Lemma named_request_head b k : keeps (frame (@n_replica S Q)) (api_head b k).
Proof. intros n. unfold api_head, frame. by destruct (head_object _ _ _). Qed.
Lemma named_request_list b k : keeps (frame (@n_replica S Q)) (api_list b k).
Proof. intros n. unfold api_list, frame. by destruct (list_keys _ _ _). Qed.

Lemma named_put {E} r :
  (forall r', r = Some r' -> copy_named r') -> keeps named_step (modify (E := E) (put_replica r)).
Proof. intros Hr n _ r'. apply Hr. Qed.

Lemma named_files {E A} (m : M S Q E A) : keeps same_but_files m -> keeps named_step m.
Proof. intros Hm. apply named_same, keeps_frame_files; [by intros []|done]. Qed.

Lemma named_drop {E} : keeps named_step (drop_replica (E := E)).
Proof.
  unfold drop_replica. apply keeps_bind; [typeclasses eauto|by intros n|]. intros r.
  apply keeps_bind; [typeclasses eauto|apply named_files; destruct r; solve_keeps|].
  - apply keeps_remove_files.
  - intros _. by apply named_put.
Qed.

Hint Resolve named_request_get named_request_head named_request_list keeps_apply_run
  keeps_remove_files named_drop : keeps.
Hint Extern 6 (keeps named_step _) => apply named_same; solve [solve_keeps] : keeps.
Hint Extern 6 (keeps named_step _) => apply named_files; solve [solve_keeps] : keeps.
Hint Extern 4 (keeps named_step (modify (put_replica None))) => by apply named_put : keeps.

Lemma named_apply_next key seq r : keeps named_step (apply_next cfg key seq r).
Proof. unfold apply_next, get_bytes. solve_keeps. Qed.

Lemma apply_next_named key seq r n n' r' :
  copy_named r -> apply_next cfg key seq r n = (n', Ok r') -> copy_named r'.
Proof.
  intros [Hp HF]. unfold apply_next. intros (n1 & bytes & _ & E)%bind_ok.
  apply bind_ok in E as (n2 & seg & _ & E).
  destruct (ends_on_commit seg).
  - apply bind_ok in E as (n3 & res & _ & E). destruct res as [[]|e].
    + apply bind_ok in E as (n4 & [] & _ & [= _ <-]). by split.
    + apply discard_copy_spec in E as (? & _ & _ & ? & ?). done.
  - apply bind_ok in E as (n3 & [] & _ & [= _ <-]). split; [done|].
    apply Forall_app. split; [done|]. constructor; [by exists seq|constructor].
Qed.

Lemma named_apply_loop prefix keys r :
  copy_named r -> keeps named_step (apply_loop cfg prefix keys r).
Proof.
  revert r. induction keys as [|key keys IH]; intros r Hr; cbn; [solve_keeps|].
  destruct (segment_seq key prefix) as [seq|]; [|by apply IH].
  destruct (seq <? r_next_seq r); [by apply IH|].
  destruct (r_next_seq r <? seq); [solve_keeps|].
  intros n. unfold bind at 1. pose proof (named_apply_next key seq r n) as Hn.
  destruct (apply_next cfg key seq r n) as [n1 [r1|e]] eqn:E1; [|done].
  apply apply_next_named in E1; [|done]. intros Hnn.
  unfold bind, modify. apply IH; [done|]. intros r' [= <-]. done.
Qed.

Lemma named_apply_segments : keeps named_step (apply_segments cfg).
Proof.
  intros n Hn. unfold apply_segments, bind at 1, gets.
  destruct (n_replica n) as [r|] eqn:Er; [|done]. pose proof (Hn r Er) as Hr.
  revert Hn. change (named_step n
    ((let! keys := with_err (Context "list wal segments")
        (api_list (cfg_bucket cfg) (generation_prefix cfg (r_generation r))) in
      apply_loop cfg (generation_prefix cfg (r_generation r)) keys r) n).1).
  apply keeps_bind; [typeclasses eauto| |intros keys; by apply named_apply_loop].
  apply named_same, keeps_with_err, named_request_list.
Qed.

Lemma named_download dst expect : keeps named_step (download cfg dst expect).
Proof.
  apply named_same. intros n.
  exact (f_equal (fun x => let '(_, _, st, _, _) := x in st_replica st)
           (keeps_download cfg dst expect n)).
Qed.

Lemma named_fresh head g : keeps named_step (fresh_replica cfg head g).
Proof.
  unfold fresh_replica. apply keeps_bind; [typeclasses eauto|apply named_drop|]. intros _.
  apply keeps_bind; [typeclasses eauto|apply keeps_with_err, named_download|].
  intros [[found size] etag]. destruct (negb found); [solve_keeps|].
  apply keeps_bind; [typeclasses eauto|apply named_files; unfold check_db; solve_keeps|].
  intros _. apply keeps_bind; [typeclasses eauto|solve_keeps|]. intros _. apply named_put.
  intros r [= <-]. split; [done|constructor].
Qed.

Hint Resolve named_fresh named_apply_segments : keeps.

Lemma named_follow head g verify : keeps named_step (follow_generation cfg head g verify).
Proof. unfold follow_generation, reusable, check_db. solve_keeps. Qed.
End Named.

(** ** What a verified catch-up establishes *)

Section Verified.
Context {S Q : Type} `{ObjectApiLaws S} `{Codec} (cfg : Config).
Implicit Types n : Node S Q.
Abbreviation stored s := (objects s (cfg_bucket cfg) !! cfg_key cfg).

Lemma check_db_ok path n n' :
  check_db path n = (n', Ok tt) ->
  same_but_files n n' /\ n_files n' = n_files n /\
  exists b, n_files n !! path = Some b /\ check_db_file b = Ok tt.
Proof.
  intros E. split; [apply (run_keeps same_but_files _ _ _ _ E); unfold check_db; solve_keeps|].
  unfold check_db in E. apply with_err_ok, bind_ok in E as (n1 & b & E & [= <- Hb]).
  apply with_err_ok, fs_read_spec in E as [Hf Hr]. eauto.
Qed.

(** The copy the segments are applied to: the one at hand, or a fresh one. *)
Definition base_ready head g n n1 : Prop :=
  reusable head g n = (n1, Ok true) \/
  exists n0, reusable head g n = (n0, Ok false) /\ fresh_replica cfg head g n0 = (n1, Ok tt).

Definition head_is head s : Prop :=
  exists o, stored s = Some o /\ head_e_tag head = Some (o_e_tag o).

Lemma follow_verified head g n n' path :
  is_Some (head_e_tag head) ->
  follow_generation cfg head g true n = (n', Ok path) ->
  exists n1 n2 r, base_ready head g n n1 /\ apply_segments cfg n1 = (n2, Ok false) /\
    n_replica n2 = Some r /\ n_replica n' = Some r /\ path = r_path r /\
    n_files n' = n_files n2 /\ head_is head (n_store n') /\
    exists b, n_files n' !! path = Some b /\ check_db_file b = Ok tt.
Proof.
  intros [htag Htag]. unfold follow_generation. intros (n0 & reuse & E0 & E)%bind_ok.
  apply bind_ok in E as (n1 & [] & E1 & E).
  assert (Hb : base_ready head g n n1).
  { destruct reuse; [injection E1 as <-; by left|right; eauto]. }
  apply bind_ok in E as (n2 & applied & E2 & E).
  unfold attempt in E2. destruct (apply_segments cfg n1) as [n2' applied'] eqn:Ea.
  injection E2 as -> ->. apply bind_ok in E as (n3 & [] & E3 & E).
  assert (Hok : n3 = n2 /\ applied <> Ok true).
  { destruct applied as [[]|]; cbn in E3; [done|injection E3 as <-; by split..]. }
  destruct Hok as [-> Hne]. apply bind_ok in E as (n4 & [] & E4 & E). cbn in E4.
  apply bind_ok in E4 as (n5 & now & E5 & E4). apply with_err_ok in E5.
  unfold api_head in E5. destruct (head_object (n_store n2) _ _) as [s' hr] eqn:Eh.
  injection E5 as <- ->. apply head_ok in Eh as (_ & o & Ho & Hot & _).
  destruct (bool_decide (head_e_tag now = head_e_tag head)) eqn:Ed; cbn in E4; [|done].
  apply bool_decide_eq_true in Ed. injection E4 as <-.
  apply bind_ok in E as (n6 & r & [= <- <-] & E). cbn in E.
  change (n_replica (set_store s' n2)) with (n_replica n2) in E.
  destruct (n_replica n2) as [r|] eqn:Er; [|done].
  apply bind_ok in E as (n7 & gap & [= <- ->] & E). destruct gap; [done|].
  apply bind_ok in E as (n8 & [] & E8 & [= <- <-]). apply with_err_ok in E8.
  apply check_db_ok in E8 as (Hk & Hf & Hc). exists n1, n2, r.
  split; [done|]. split; [done|]. split; [done|]. split; [by rewrite Hk|]. split; [done|].
  split; [done|]. split.
  - rewrite Hk. exists o. split; [done|congruence].
  - by rewrite Hf.
Qed.

(** Dropping the record of the copy leaves its database file. *)
Lemma remove_files_other {E} paths q (n n' : Node S Q) (r : result E unit) :
  q ∉ paths -> remove_files paths n = (n', r) -> n_files n' !! q = n_files n !! q.
Proof.
  intros Hq E'. apply (run_keeps (untouched q) _ _ _ _ E'). clear E'.
  induction paths as [|x paths IH]; cbn; [solve_keeps|].
  apply not_elem_of_cons in Hq as [Hx Hq]. apply keeps_bind; [typeclasses eauto| |].
  - by apply untouched_fs_remove_quietly.
  - intros _. by apply IH.
Qed.

Lemma drop_replica_file {E} n n' (res : result E unit) q :
  drop_replica n = (n', res) -> (forall r, n_replica n = Some r -> q ∉ r_spool r) ->
  n_files n' !! q = n_files n !! q /\ n_store n' = n_store n.
Proof.
  unfold drop_replica, bind, gets, modify. intros E' Hq. destruct (n_replica n) as [r|] eqn:Er.
  - destruct (remove_files (r_spool r) n) as [n1 [[]|e]] eqn:Em; injection E' as <- <-;
      pose proof (remove_files_other _ q _ _ _ (Hq r eq_refl) Em);
      pose proof (run_keeps same_but_files _ _ _ _ Em (keeps_remove_files _)) as Hk;
      (split; [done|by rewrite Hk]).
  - injection E' as <- <-. done.
Qed.
End Verified.

(** ** The database after a promotion *)

Section Promoted.
Context {S Q : Type} `{ObjectApiLaws S} `{Sqlite Q} `{Codec} (cfg : Config).
Implicit Types n : Node S Q.
Abbreviation stored s := (objects s (cfg_bucket cfg) !! cfg_key cfg).

(** An ETag names one content of the snapshot object: in a bucket that keeps
    the promise of ETags, [body_of] is that content. *)
Context (body_of : string -> option (list byte)).

Definition honest (s : S) : Prop :=
  forall o, stored s = Some o -> body_of (o_e_tag o) = Some (o_body o).

Context (Hhonest : forall s s', env s s' -> honest s -> honest s').

(** The recorded copy is the plain content its ETag names. *)
Definition copy_path : string := join (work_dir cfg) "forklift.db".

Definition copy_of (path etag : option string) n : Prop :=
  forall p, path = Some p -> p = copy_path /\
    forall tag, etag = Some tag -> exists b, body_of tag = Some b /\
    n_files n !! copy_path = plain_content b.

Definition copy_good n : Prop := copy_of (st_snapshot_path (n_sync n)) (st_snapshot_etag (n_sync n)) n.

(** The database is the one an object of the bucket holds. *)
Definition opened_object n : Prop :=
  exists o b, stored (n_store n) = Some o /\ plain_content (o_body o) = Some b /\ opened_from b n.

Lemma swap_and_lead (f : string -> SyncError) n n' path :
  (with_err f (swap_from_snapshot path) ;; lead) n = (n', Ok tt) ->
  exists b, n_files n !! path = Some b /\ opened_from b n' /\ n_store n' = n_store n.
Proof.
  intros (n1 & [] & E1 & [= <-])%bind_ok. apply with_err_ok in E1.
  pose proof (run_keeps (frame roles) _ _ _ _ E1 (keeps_swap path)) as Hk.
  apply swap_ok in E1 as (b & Hb & Ho). exists b. split; [done|]. split; [exact Ho|].
  exact (f_equal snd Hk).
Qed.

Lemma copy_path_spool seq : copy_path <> spool_path cfg seq.
Proof. unfold spool_path, copy_path, join. by intros E%str_app_inj_l%str_app_inj_l. Qed.

Lemma named_not_spooled n r q :
  replica_named cfg n -> n_replica n = Some r -> (forall seq, q <> spool_path cfg seq) ->
  q ∉ r_spool r.
Proof.
  intros Hn Hr Hq Hin. destruct (Hn r Hr) as [_ HF]. rewrite Forall_forall in HF.
  destruct (HF _ Hin) as (seq & E). by apply (Hq seq).
Qed.

(** Promotion onto a self-contained snapshot. *)
Lemma promote_snapshot_database head n n' path etag :
  replica_named cfg n -> honest (n_store n) -> head_is cfg head (n_store n) ->
  copy_of path etag n ->
  promote_snapshot cfg head path etag n = (n', Ok tt) ->
  (stored (n_store n') = None /\ n_database n' = n_database n) \/ opened_object n'.
Proof.
  intros Hn Hh (oh & Ho & Htag) Hgood. unfold promote_snapshot.
  intros (n1 & [] & E1 & E)%bind_ok.
  pose proof (run_keeps (frame standing) _ _ _ _ E1 (keeps_standing_drop)) as Hst1.
  assert (Hdb : n_database n1 = n_database n) by
    exact (f_equal (fun x => let '(_, _, _, d, _) := x in d) Hst1).
  apply (drop_replica_file _ _ _ copy_path) in E1 as [Hf Hs];
    [|intros r Hr; by apply (named_not_spooled n), copy_path_spool].
  apply bind_ok in E as (n2 & cached & E2 & E). apply bind_ok in E as (n3 & chosen & E3 & E).
  assert (Hc : n2 = n1 /\ forall p, cached = Some p -> p = copy_path /\
                 n_files n1 !! copy_path = plain_content (o_body oh)).
  { destruct path as [p|]; [|by injection E2 as <- <-].
    destruct (is_some etag && bool_decide (etag = head_e_tag head)) eqn:Ec;
      injection E2 as <- <-; [|done]. split; [done|]. intros q [= <-].
    apply andb_true_iff in Ec as [_ Ec%bool_decide_eq_true].
    destruct (Hgood p eq_refl) as [-> Hb]. split; [done|].
    destruct (Hb (o_e_tag oh) ltac:(congruence)) as (b & Hob & Hfb).
    rewrite (Hh oh Ho) in Hob. congruence. }
  destruct Hc as [-> Hc]. destruct cached as [p|].
  - injection E3 as <- <-. destruct (Hc p eq_refl) as [-> Hfc].
    apply swap_and_lead in E as (b & Hb & Hop & Hs'). right. exists oh, b.
    rewrite Hs', Hs. split; [done|]. split; [congruence|done].
  - apply bind_ok in E3 as (n4 & [[found size] tag] & E3 & [= <- <-]).
    apply with_err_ok in E3.
    pose proof (run_keeps (frame local_state) _ _ _ _ E3 (keeps_download _ _ _)) as Hk.
    apply download_result in E3 as [_ Hd]. destruct found.
    + destruct Hd as (o & Hso & _ & Hfo & Hpo). apply swap_and_lead in E as (b & Hb & Hop & Hs').
      right. exists o, b. rewrite Hs'. split; [done|]. split; [congruence|done].
    + injection E as <-. left. split; [exact Hd|].
      transitivity (n_database n1); [|done].
      exact (f_equal (fun x => let '(_, _, _, d, _) := x in d) Hk).
Qed.

(** Promotion onto a generation. *)
Lemma promote_generation_verified head g n n' :
  replica_named cfg n -> is_Some (head_e_tag head) ->
  promote_generation cfg head g n = (n', Ok tt) ->
  exists n1 n2 r b, base_ready cfg head g n n1 /\ apply_segments cfg n1 = (n2, Ok false) /\
    n_replica n2 = Some r /\ n_files n2 !! r_path r = Some b /\ check_db_file b = Ok tt /\
    head_is cfg head (n_store n') /\ opened_from b n'.
Proof.
  intros Hn Hsome. unfold promote_generation. intros (n1 & res & E1 & E)%bind_ok.
  unfold attempt in E1. destruct (follow_generation cfg head g true n) as [n1' res'] eqn:Ef.
  injection E1 as -> ->. apply bind_ok in E as (n2 & [] & E2 & E).
  destruct res as [path|e]; [|done].
  pose proof (named_follow cfg head g true n Hn) as Hn1. rewrite Ef in Hn1. cbn in Hn1.
  apply follow_verified in Ef as (m1 & m2 & r & Hb & Ha & Hr2 & Hr & -> & Hf & Hh & b & Hfb & Hc);
    [|done].
  apply (drop_replica_file _ _ _ (r_path r)) in E2 as [Hf2 Hs2].
  2:{ intros r' Hr'. rewrite Hr in Hr'. injection Hr' as <-. by apply (copy_named_path cfg), Hn1. }
  apply swap_and_lead in E as (b' & Hb' & Hop & Hs').
  exists m1, m2, r, b. rewrite Hf2, Hfb in Hb'. injection Hb' as <-. rewrite Hs', Hs2.
  rewrite <- Hf. done.
Qed.

(** When a promotion succeeds, the database was opened, without any WAL, from
    exactly the plain content of the object in the bucket, whether downloaded or
    cached; or, if that object is the base of a generation, from a replayed copy
    that passed its check while the object was still in place.  The local
    database is kept only if the bucket holds none. *)
Lemma promote_opened fence n n' :
  replica_named cfg n -> honest (n_store n) -> copy_good n ->
  promote cfg fence n = (n', Ok tt) ->
  (stored (n_store n') = None /\ n_database n' = n_database n) \/ opened_object n' \/
  exists head b, is_Some (generation_of head) /\ head_is cfg head (n_store n') /\
    check_db_file b = Ok tt /\ opened_from b n'.
Proof.
  intros Hn Hh Hgood. rewrite promote_unfold.
  pose proof (prepared_term fence n) as (_ & _ & _ & Hf & Hs & Hr & Hd).
  intros (n1 & res & E1 & E)%bind_ok. unfold attempt, api_head in E1. rewrite Hs in E1.
  destruct (head_object (n_store n) _ _) as [s' [head|e]] eqn:Eh; injection E1 as <- <-.
  - apply head_ok in Eh as (He & o & Ho & Ht & _).
    assert (Hhead : head_is cfg head s') by (exists o; done).
    assert (Hn1 : replica_named cfg (set_store s' (prepared fence n))).
    { intros r Hr'. apply Hn. rewrite <- Hr. exact Hr'. }
    destruct (generation_of head) as [g|] eqn:Eg.
    + apply promote_generation_verified in E; [|done|by rewrite Ht].
      destruct E as (_ & _ & _ & b & _ & _ & _ & _ & Hc & Hhd & Hop). right. right.
      exists head, b. rewrite Eg. split; [by eexists|]. done.
    + apply promote_snapshot_database in E; [|done|by apply (Hhonest (n_store n))|done|].
      * destruct E as [[E1 E2]|E]; [left|by right; left]. split; [done|].
        rewrite E2. exact Hd.
      * intros p' Hp'. destruct (Hgood p' Hp') as [-> Hb]. split; [done|]. intros tag Htag.
        destruct (Hb tag Htag) as (b & ? & Hfb). exists b. split; [done|].
        transitivity (n_files n !! copy_path); [|done]. exact (f_equal (fun fs => fs !! copy_path) Hf).
  - apply head_err in Eh as [_ Hnone]. destruct (is_not_found e) eqn:En; [|done].
    injection E as <-. left. split; [by apply Hnone|exact Hd].
Qed.
End Promoted.

(** ** Promotion onto a generation *)

Section PromotedGeneration.
Context {S Q : Type} `{ObjectApiLaws S} `{Sqlite Q} `{Codec} (cfg : Config).
Context (g : string) (hist : list (list byte)) (segs : list Segment).
Context (p : nat) (base : list page).
Implicit Types (n : Node S Q) (s : S).
Abbreviation stored s := (objects s (cfg_bucket cfg) !! cfg_key cfg).

(** The generation, as in [Replay]. *)
Context (Hlen : zlen hist <= u64_max).
Context (Hdec : Forall2 (fun b seg => decode_segment b = Ok seg) hist segs).
Context (Hfirst : forall i seg, segs !! i = Some seg ->
  s_first_frame seg = zlen (frames_of (take i segs))).
Context (Hsegs : Forall (seg_ok p) segs) (Hbase : db_ok p base).
Context (Hgrows : forall s s' m, env s s' -> stored_prefix cfg g hist s m ->
  exists m', (m <= m')%nat /\ stored_prefix cfg g hist s' m').

(** The ETag of the generation's base object, and what it names. *)
Context (tag : string).
Definition names_base s : Prop :=
  forall o, stored s = Some o -> o_e_tag o = tag ->
    plain_content (o_body o) = Some (concat base) /\
    meta_value (o_metadata o) GENERATION_META_KEY = Some g.
Context (Hvalid : valid_generation g = true).
Context (Hnames : forall s s', env s s' -> names_base s -> names_base s').

(** Requests report the ETag of the object they return. *)
Context (Hreports : forall s b k s' out, get_object s b k = (s', Ok out) -> is_Some (get_e_tag out)).

Lemma reusable_spec head n n1 b :
  reusable head g n = (n1, Ok b) ->
  same_but_files n n1 /\ n_files n1 = n_files n /\
  (b = true -> exists r, n_replica n = Some r /\ r_generation r = g /\
     r_base_etag r = head_e_tag head).
Proof.
  intros E. split.
  { apply (run_keeps same_but_files _ _ _ _ E). unfold reusable. solve_keeps. }
  unfold reusable, bind at 1, gets in E. destruct (n_replica n) as [r|]; [|by injection E as <- <-].
  destruct (String.eqb (r_generation r) g) eqn:Eg; cbn [andb] in E; [|by injection E as <- <-].
  destruct (is_some (r_base_etag r) && bool_decide (r_base_etag r = head_e_tag head)) eqn:Ed;
    [|by injection E as <- <-].
  apply andb_true_iff in Ed as [_ Ed%bool_decide_eq_true]. apply String.eqb_eq in Eg.
  unfold fs_exists, bind, attempt in E. destruct (fs_read (r_path r) n) as [n2 res] eqn:Er.
  injection E as <- _. apply fs_read_spec in Er as [Hf _]. split; [done|]. intros _. by exists r.
Qed.

Lemma prefix_app_cancel a x y : String.prefix (a +:+ x) (a +:+ y) = String.prefix x y.
Proof. induction a as [|c a IH]; cbn; [done|]. by destruct (Ascii.ascii_dec c c). Qed.

Lemma remove_with_prefix_other {E} dir prefix q :
  String.prefix (join dir prefix) q = false ->
  keeps (untouched q) (fs_remove_with_prefix (S := S) (Q := Q) (E := E) dir prefix).
Proof.
  intros Hq. unfold fs_remove_with_prefix. apply keeps_bind; [typeclasses eauto|solve_keeps|].
  intros [[]|e]; [|solve_keeps]. apply keeps_bind; [typeclasses eauto|by intros n|].
  intros files. induction (map fst (map_to_list files)) as [|x l IH]; cbn; [solve_keeps|].
  destruct (decide _) as [Hx|Hx]; [|exact IH]. cbn.
  apply keeps_bind; [typeclasses eauto|apply untouched_fs_remove_quietly; congruence|done].
Qed.

Lemma drop_replica_store {E} n n' (r : result E unit) :
  drop_replica n = (n', r) -> n_store n' = n_store n.
Proof.
  intros E'. apply (run_keeps (frame n_store) _ _ _ _ E'). unfold drop_replica. solve_keeps.
  apply keeps_frame_files; [by intros []|apply keeps_remove_files].
Qed.

Lemma download_reports dst expect n n' found size etag :
  download cfg dst expect n = (n', Ok (found, size, etag)) -> found = true -> is_Some etag.
Proof.
  unfold download, bind at 1, attempt, api_get.
  destruct (get_object (n_store n) _ _) as [s' [out|e]] eqn:Eg.
  - destruct (replaced_since _ _); [done|]. intros E. apply download_tail in E as [_ Hd].
    destruct (Hd _ _ _ eq_refl) as (_ & -> & _). intros _. by apply Hreports in Eg.
  - destruct (is_not_found e); [|done]. by intros [= _ <- _ _].
Qed.

(** Promotion onto a snapshot ends with the object HEAD described. *)
Lemma promote_snapshot_tag head path etag n n' oh o :
  stored (n_store n) = Some oh -> head_e_tag head = Some (o_e_tag oh) ->
  promote_snapshot cfg head path etag n = (n', Ok tt) ->
  stored (n_store n') = Some o -> o_e_tag o = o_e_tag oh.
Proof.
  intros Hoh Ht. unfold promote_snapshot. intros (n1 & [] & E1 & E)%bind_ok Ho.
  apply drop_replica_store in E1.
  apply bind_ok in E as (n2 & cached & E2 & E). apply bind_ok in E as (n3 & chosen & E3 & E).
  assert (n2 = n1) as ->.
  { destruct path; [destruct (_ && _)|]; by injection E2. }
  destruct cached as [q|].
  - injection E3 as <- <-. apply swap_and_lead in E as (_ & _ & _ & Es). congruence.
  - apply bind_ok in E3 as (n4 & [[found size] tag'] & E3 & [= <- <-]).
    apply with_err_ok in E3. pose proof (download_reports _ _ _ _ _ _ _ E3) as Hsome.
    apply download_result in E3 as [_ Hd]. destruct found.
    + destruct Hd as (o' & Ho' & [_ Hdown] & _). apply swap_and_lead in E as (_ & _ & _ & Es).
      destruct (Hdown head eq_refl) as [Htag _]. specialize (Htag _ Ht (Hsome eq_refl)). congruence.
    + injection E as <-. cbn in Ho. congruence.
Qed.

(** A fresh copy holds the base. *)
Lemma fresh_spec head n n1 :
  head_e_tag head = Some tag -> names_base (n_store n) ->
  fresh_replica cfg head g n = (n1, Ok tt) ->
  env (n_store n) (n_store n1) /\ standby_at cfg g hist segs p base n1 0.
Proof.
  intros Ht Hb. unfold fresh_replica. intros (n2 & [] & E2 & E)%bind_ok.
  apply drop_replica_store in E2. apply bind_ok in E as (n3 & [[found size] etag] & E3 & E).
  apply with_err_ok in E3.
  pose proof (download_reports _ _ _ _ _ _ _ E3) as Hsome.
  apply download_result in E3 as [He Hd]. rewrite E2 in He.
  destruct found; [|done]. destruct Hd as (o & Ho & [_ Hdown] & Hf & _).
  destruct (Hdown head eq_refl) as [Htag _].
  assert (Hto : o_e_tag o = tag) by (symmetry; by apply Htag, Hsome).
  destruct (Hnames _ _ He Hb o Ho Hto) as [Hplain _].
  apply bind_ok in E as (n4 & [] & E4 & E). apply with_err_ok, check_db_ok in E4 as (Hk4 & Hf4 & _).
  apply bind_ok in E as (n5 & [] & E5 & [= <-]).
  pose proof (run_keeps same_but_files _ _ _ _ E5 (keeps_fs_remove_with_prefix _ _)) as Hk5.
  assert (Hu : n_files n5 !! replica_path cfg = n_files n4 !! replica_path cfg).
  { apply (run_keeps (untouched (replica_path cfg)) _ _ _ _ E5). apply remove_with_prefix_other.
    apply not_true_is_false. intros Hp. unfold replica_path, join in Hp.
    rewrite !prefix_app_cancel in Hp. done. }
  split; [cbn; by rewrite Hk5, Hk4|]. eexists. split; [reflexivity|].
  split_and!; try done; cbn; [lia| | |lia].
  - change (n_files n5 !! replica_path cfg = Some (database_after p base [])).
    transitivity (Some (concat base)); [|done]. rewrite Hu, Hf4. exact (eq_trans Hf Hplain).
  - apply spool_path_ne_replica.
Qed.

(** The copy the segments are applied to is of the generation. *)
Lemma base_ready_standby head n n1 m :
  head_e_tag head = Some tag -> names_base (n_store n) ->
  stored_prefix cfg g hist (n_store n) m ->
  (forall r, n_replica n = Some r -> r_generation r = g -> r_base_etag r = Some tag ->
     exists i, (i <= m)%nat /\ replica_at cfg g hist segs p base n r i) ->
  base_ready cfg head g n n1 ->
  exists i m1, (i <= m1)%nat /\ (m <= m1)%nat /\ stored_prefix cfg g hist (n_store n1) m1 /\
    standby_at cfg g hist segs p base n1 i.
Proof.
  intros Ht Hb Hm Hrep [E|(n0 & E0 & E)].
  - apply reusable_spec in E as (Hk & Hf & Hr). destruct (Hr eq_refl) as (r & Er & Eg & Et).
    destruct (Hrep r Er Eg ltac:(congruence)) as (i & Hi & Hat). exists i, m.
    split; [done|]. split; [done|]. split; [by rewrite Hk|]. exists r. split; [by rewrite Hk|].
    revert Hat. apply replica_at_files; intros; by rewrite Hf.
  - apply reusable_spec in E0 as (Hk & _ & _).
    assert (Es : n_store n0 = n_store n) by (by rewrite Hk).
    apply fresh_spec in E as [He Hst]; [|done|by rewrite Es]. rewrite Es in He.
    destruct (Hgrows _ _ _ He Hm) as (m1 & Hm1 & Hs1). exists 0%nat, m1.
    split; [lia|]. done.
Qed.

(** C1: A promotion onto a generation loses no shipped transaction.  When the
    object in the bucket after a successful promotion is the base of the
    generation, the database was opened from the base with every transaction
    that is complete in at least all the segments the bucket held when the
    promotion began, replayed in order; whether the standby had a copy to
    catch up from or not. *)
Theorem promote_replays_generation fence n n' m o :
  replica_named cfg n -> names_base (n_store n) ->
  stored_prefix cfg g hist (n_store n) m ->
  (forall r, n_replica n = Some r -> r_generation r = g -> r_base_etag r = Some tag ->
     exists i, (i <= m)%nat /\ replica_at cfg g hist segs p base n r i) ->
  promote cfg fence n = (n', Ok tt) ->
  stored (n_store n') = Some o -> o_e_tag o = tag ->
  exists j, (m <= j)%nat /\ opened_from (database_after p base (take j segs)) n'.
Proof.
  intros Hn Hb Hm Hrep. rewrite promote_unfold.
  pose proof (prepared_term fence n) as (_ & _ & _ & Hf & Hs & Hr & _).
  intros (n1 & res & E1 & E)%bind_ok Ho Htag. unfold attempt, api_head in E1. rewrite Hs in E1.
  destruct (head_object (n_store n) _ _) as [s' [head|e]] eqn:Eh; injection E1 as <- <-.
  - apply head_ok in Eh as (He & oh & Hoh & Ht & Hmd).
    assert (Hn1 : replica_named cfg (set_store s' (prepared fence n))).
    { intros r Hr'. apply Hn. rewrite <- Hr. exact Hr'. }
    destruct (Hgrows _ _ _ He Hm) as (m1 & Hm1 & Hs1).
    pose proof (Hnames _ _ He Hb) as Hb1.
    destruct (generation_of head) as [g'|] eqn:Eg.
    + apply promote_generation_verified in E; [|done|by rewrite Ht].
      destruct E as (k1 & k2 & r & b & Hbr & Ha & Er & Hfb & _ & (o' & Ho' & Ht') & Hop).
      rewrite Ho in Ho'. injection Ho' as <-. rewrite Htag in Ht'.
      assert (g' = g) as ->.
      { destruct (Hb1 oh Hoh ltac:(congruence)) as [_ Hg]. unfold generation_of in Eg.
        rewrite Hmd, Hg, Hvalid in Eg. by injection Eg. }
      apply (base_ready_standby head _ _ m1) in Hbr as (i & m2 & Hi & Hm2 & Hs2 & Hst); try done.
      * apply (apply_segments_spec cfg g hist segs p base Hlen Hdec Hfirst Hsegs Hbase Hgrows
                 k1 k2 i m2 (Ok false) Hst Hi Hs2) in Ha as [_ (j & Hj & (r' & Er' & Hat))].
        rewrite Er in Er'. injection Er' as <-. exists j. split; [lia|].
        destruct Hat as (_ & _ & _ & _ & Hdb & _). rewrite Hdb in Hfb. by injection Hfb as <-.
      * intros r1 Hr1 Hg1 Ht1. rewrite <- Hr in Hrep. destruct (Hrep r1 Hr1 Hg1 Ht1) as (i & Hi & Hat).
        exists i. split; [lia|]. revert Hat.
        apply replica_at_files; intros; exact (f_equal (fun fs => fs !! _) Hf).
    + exfalso. apply (promote_snapshot_tag _ _ _ _ _ oh o) in E; [|done..].
      destruct (Hb1 oh Hoh ltac:(congruence)) as [_ Hg]. unfold generation_of in Eg.
      by rewrite Hmd, Hg, Hvalid in Eg.
  - apply head_err in Eh as [_ Hnone]. destruct (is_not_found e) eqn:En; [|done].
    injection E as <-. cbn in Ho. by rewrite Hnone in Ho.
Qed.
End PromotedGeneration.

(** ** Concrete runs *)

Definition demo_restored : list byte := concat demo_db.

(** A bucket with a self-contained snapshot. *)
Definition snapshot_bucket : MemStore :=
  mkMem {[ "bucket" := {[ "meta/forklift.db" :=
    {| o_body := demo_restored; o_e_tag := "v0"; o_metadata := [("fence", "5")] |} ]} ]} 1 [].

(** A bucket with a generation of two segments. *)
Definition generation_bucket : MemStore :=
  mkMem {[ "bucket" := <["meta/forklift.db" :=
    {| o_body := demo_restored; o_e_tag := "v0"; o_metadata := [("generation", "g")] |}]>
      demo_objects ]} 3 [].

Definition candidate (s : MemStore) : Node MemStore demo_script :=
  mkNode SyncState_default false 0 ∅ (mkDatabase [] None) s [] [] 0 [].

Definition demo_body_of (tag : string) : option (list byte) :=
  if String.eqb tag "v0" then Some demo_restored else None.

Lemma download_verified_witness :
  match download demo_config "/data/objstore/promote.db" None (candidate snapshot_bucket) with
  | (n', Ok (true, _, etag)) =>
      exists o, objects (n_store n') (cfg_bucket demo_config) !! cfg_key demo_config = Some o /\
        downloaded None o etag /\
        n_files n' !! "/data/objstore/promote.db" = plain_content (o_body o) /\
        is_Some (plain_content (o_body o))
  | _ => False
  end.
Proof.
  assert (Hok : match (download demo_config "/data/objstore/promote.db" None
                         (candidate snapshot_bucket)).2 with
                | Ok (found, _, _) => found = true
                | Err _ => False
                end) by (vm_compute; reflexivity).
  destruct (download demo_config "/data/objstore/promote.db" None (candidate snapshot_bucket))
    as [n' [[[found size] etag]|e]] eqn:E; [|exact Hok]. cbn [snd] in Hok. subst found.
  apply (download_verified demo_config "/data/objstore/promote.db" None
           (candidate snapshot_bucket) n' true size etag E).
Defined.

Lemma promote_leads_last_witness :
  match promote demo_config 6 (candidate snapshot_bucket) with
  | (n', Ok _) => n_is_leader n' = true /\ n_fence n' = 6
  | _ => False
  end.
Proof.
  assert (Hok : is_ok (promote demo_config 6 (candidate snapshot_bucket)).2 = true)
    by (vm_compute; reflexivity).
  destruct (promote demo_config 6 (candidate snapshot_bucket)) as [n' [[]|e]] eqn:E;
    [|discriminate Hok].
  destruct (promote_leads_last demo_config 6 (candidate snapshot_bucket) n' (Ok tt) E eq_refl)
    as ((Hf & _) & _ & Hl). split; [exact Hl|exact Hf].
Defined.

Lemma mem_honest (s s' : MemStore) :
  env s s' -> honest demo_config demo_body_of s -> honest demo_config demo_body_of s'.
Proof. intros He Hh o Ho. apply Hh. by rewrite <- (mem_quiet _ _ _ _ He). Qed.

Lemma generation_bucket_names : names_base demo_config "g" demo_db "v0" generation_bucket.
Proof.
  intros o Ho _.
  assert (Hs : objects generation_bucket "bucket" !! "meta/forklift.db" =
               Some {| o_body := demo_restored; o_e_tag := "v0"; o_metadata := [("generation", "g")] |})
    by (apply lookup_insert_eq).
  assert (Hs' : Some o = Some _) by (etransitivity; [symmetry; exact Ho|exact Hs]).
  injection Hs' as ->. split; reflexivity.
Qed.

Lemma generation_bucket_stored :
  stored_prefix demo_config "g" demo_segments_bytes generation_bucket 2.
Proof.
  apply (stored_prefix_ext demo_config "g" demo_segments_bytes demo_bucket); [|exact demo_stored].
  intros i Hi.
  change (<["meta/forklift.db" := {| o_body := demo_restored; o_e_tag := "v0";
            o_metadata := [("generation", "g")] |}]> demo_objects !! segment_key demo_config "g" i =
          demo_objects !! segment_key demo_config "g" i).
  apply lookup_insert_ne. unfold segment_key. intros E. discriminate E.
Qed.

Lemma promote_replays_generation_witness :
  match promote demo_config 6 (candidate generation_bucket) with
  | (n', Ok _) => exists j, (2 <= j)%nat /\
      opened_from (database_after 512 demo_db (take j demo_two)) n'
  | _ => False
  end.
Proof.
  assert (Hok : match promote demo_config 6 (candidate generation_bucket) with
                | (n', Ok _) => option_map o_e_tag
                    (objects (n_store n') "bucket" !! "meta/forklift.db") = Some "v0"
                | _ => False
                end) by (vm_compute; reflexivity).
  destruct (promote demo_config 6 (candidate generation_bucket)) as [n' [[]|e]] eqn:E; [|exact Hok].
  destruct (objects (n_store n') "bucket" !! "meta/forklift.db") as [o|] eqn:Ho; [|discriminate Hok].
  injection Hok as Ht.
  apply (promote_replays_generation demo_config "g" demo_segments_bytes demo_two 512 demo_db
           ltac:(vm_compute; discriminate) demo_decodes demo_first demo_seg_ok demo_db_ok
           (mem_grows demo_config "g" demo_segments_bytes) "v0" eq_refl)
    with (fence := 6) (n := candidate generation_bucket) (o := o); try exact E; try exact Ho;
    try exact Ht.
  - intros s s' He Hn o' Ho'. apply Hn. by rewrite <- (mem_quiet _ _ _ _ He).
  - intros s b k s' out. cbn. unfold mem_get. destruct (mem_step s) as [s1 [|]]; [|done].
    destruct (mem_bucket s1 b !! k); [|done]. intros [= _ <-]. by eexists.
  - intros r Hr. discriminate Hr.
  - exact generation_bucket_names.
  - exact generation_bucket_stored.
  - intros r Hr. discriminate Hr.
Defined.
