(* ===== verification/Standing.v ===== *)
(** * The states a process goes through (objstore/metasync.rs)

    Between two critical sections of the metadata sync, whatever failed in the
    ones before, a standby holds no shipping state, a leader holds no recorded
    copy, and a recorded copy is exactly what its ETag names.  These are the
    facts promotion relies on. *)

From stdpp Require Import prelude list strings pretty gmap.
From Stdlib Require Import ZArith Lia Ascii.
From S2P Require Import Prelude Bytes Strings WalFmt Instances ObjectApi MemStore Node SnapCodec.
From S2P Require Import Fencing WalShip Capture WalFollow Replay MetaSync Promotion Restore.

#[local] Arguments String.append : simpl nomatch.

(** ** What the leader's operations leave alone *)

Section Leader.
Context {S Q : Type} `{ObjectApi S} `{Sqlite Q} `{Codec} (cfg : Config).

(** The role and what is recorded of the bucket. *)
Definition posture (n : Node S Q) :=
  (n_is_leader n, n_fence n, st_snapshot_path (n_sync n), st_snapshot_etag (n_sync n), n_replica n).
Abbreviation R := (frame posture).

Lemma posture_head b k : keeps R (api_head b k).
Proof. intros n. unfold api_head, frame. by destruct (head_object _ _ _). Qed.
Lemma posture_get b k : keeps R (api_get b k).
Proof. intros n. unfold api_get, frame. by destruct (get_object _ _ _). Qed.
Lemma posture_list b k : keeps R (api_list b k).
Proof. intros n. unfold api_list, frame. by destruct (list_keys _ _ _). Qed.
Lemma posture_delete b k : keeps R (api_delete b k).
Proof. intros n. unfold api_delete, frame. by destruct (delete_object _ _ _). Qed.
Lemma posture_put put : keeps R (api_put put).
Proof.
  unfold api_put. apply keeps_bind; [typeclasses eauto| |].
  - destruct (put_body put); [|by intros n]. apply keeps_with_err, keeps_frame_files; [by intros []|].
    apply keeps_fs_read.
  - intros body n. unfold frame. by destruct (put_object _ _ _).
Qed.
Lemma posture_acquire : keeps R sql_acquire.
Proof. intros n. unfold sql_acquire, frame. by destruct (sqlite_acquire _ _) as [[? ?] ?]. Qed.
Lemma posture_busy_timeout ms : keeps R (sql_busy_timeout ms).
Proof. intros n. unfold sql_busy_timeout, frame. by destruct (sqlite_busy_timeout _ _). Qed.
Lemma posture_checkpoint : keeps R sql_checkpoint.
Proof. intros n. unfold sql_checkpoint, frame. by destruct (sqlite_checkpoint _ _) as [[? ?] ?]. Qed.
Lemma posture_vacuum : keeps R sql_vacuum.
Proof. intros n. unfold sql_vacuum, frame. by destruct (sqlite_vacuum _ _). Qed.
Lemma posture_watch : keeps R sql_watch.
Proof. intros n. unfold sql_watch, frame. by destruct (sqlite_watch _). Qed.
Lemma posture_data_version w : keeps R (sql_data_version w).
Proof. intros n. unfold sql_data_version, frame. by destruct (sqlite_data_version _ _). Qed.
Lemma posture_unwatch {E} w : keeps R (sql_unwatch (E := E) w).
Proof. by intros n. Qed.
Lemma posture_ship {E} sh : keeps R (set_ship_of (E := E) sh).
Proof. by intros n. Qed.
Lemma posture_entropy {E} : keeps R (take_entropy (E := E)).
Proof. intros n. unfold take_entropy, frame. by destruct (n_entropy n). Qed.
Lemma posture_uploaded {E} v h l : keeps R (update_sync (E := E) (st_set_uploaded v h l)).
Proof. by intros n. Qed.
Lemma posture_set_watch {E} w : keeps R (update_sync (E := E) (st_set_watch w)).
Proof. by intros n. Qed.
Hint Resolve posture_head posture_get posture_list posture_delete posture_put posture_acquire
  posture_busy_timeout posture_checkpoint posture_vacuum posture_watch posture_data_version
  posture_unwatch posture_ship posture_entropy posture_uploaded posture_set_watch : keeps.
Hint Extern 5 (keeps (frame posture) _) =>
  apply keeps_frame_files; [by intros []|solve [eauto 2 with keeps typeclass_instances]] : keeps.

Lemma posture_reading fuel r : keeps R (reading_loop fuel r).
Proof.
  revert r. induction fuel as [|fuel IH]; intros r; cbn; [solve_keeps|].
  apply keeps_bind; [typeclasses eauto|unfold open_wal; solve_keeps|]. intros wal.
  apply keeps_bind; [typeclasses eauto|solve_keeps|]. intros read.
  destruct (reading_step r read) as [r' []]; [apply IH|solve_keeps].
Qed.

Lemma posture_capture c k ro rot rd : keeps R (capture c k ro rot rd).
Proof.
  unfold capture. apply keeps_bind; [typeclasses eauto| |].
  - destruct rd; [apply posture_reading|solve_keeps].
  - intros [r|]; [|solve_keeps]. unfold wal_metadata_len, checkpoint_truncate. solve_keeps.
Qed.

Lemma posture_put_fenced path size md : keeps R (put_fenced cfg path size md).
Proof. unfold put_fenced, fenced_condition. solve_keeps. Qed.
Hint Resolve posture_capture posture_put_fenced : keeps.

Lemma posture_compress src dst : keeps same_but_files (compress (S := S) (Q := Q) src dst).
Proof. unfold compress. solve_keeps. Qed.
Hint Resolve posture_compress : keeps.

Lemma posture_copy_base raw packed : keeps same_but_files (copy_base (S := S) (Q := Q) cfg raw packed).
Proof. unfold copy_base, sha256_file. solve_keeps. Qed.
Hint Resolve posture_copy_base : keeps.

Lemma posture_start_generation : keeps R (start_generation cfg).
Proof. unfold start_generation, remove_stale_bases. solve_keeps. Qed.

Lemma posture_upload_loop fence ps sh : keeps R (upload_loop cfg fence ps sh).
Proof.
  revert sh. induction ps as [|p ps IH]; intros sh; cbn [upload_loop]; [solve_keeps|].
  destruct (superseded sh p); [apply IH|]. apply keeps_bind; [typeclasses eauto|solve_keeps|].
  intros [out|e]; [apply IH|]. destruct (is_precondition_failed e); [|solve_keeps].
  apply keeps_bind; [typeclasses eauto|unfold same_object; solve_keeps|].
  intros same. destruct (negb same); [solve_keeps|apply IH].
Qed.

Lemma posture_delete_keys {E} keep keys : keeps R (delete_keys (E := E) cfg keep keys).
Proof.
  induction keys as [|key keys IH]; cbn; [solve_keeps|]. destruct keep as [k|].
  - destruct (starts_with k key); [apply IH|]. apply keeps_bind; [typeclasses eauto|solve_keeps|].
    intros [|]; [apply IH|solve_keeps].
  - apply keeps_bind; [typeclasses eauto|solve_keeps|]. intros [|]; [apply IH|solve_keeps].
Qed.
Hint Resolve posture_start_generation posture_upload_loop posture_delete_keys : keeps.

Lemma posture_delete_generations {E} keep :
  keeps R (delete_generations_except (E := E) cfg keep).
Proof. unfold delete_generations_except. solve_keeps. Qed.
Hint Resolve posture_delete_generations : keeps.

Lemma posture_ship_round final : keeps R (ship_round cfg final).
Proof. unfold ship_round, upload_pending, publish_base. solve_keeps. Qed.

Lemma posture_ship_all final : keeps R (ship cfg final).
Proof.
  unfold ship. induction MAX_ROUNDS as [|rounds IH]; cbn; [solve_keeps|].
  apply keeps_bind; [typeclasses eauto|apply posture_ship_round|].
  intros []; [solve_keeps|apply IH].
Qed.

Lemma posture_drop_watch {E} : keeps R (drop_watch (E := E)).
Proof. unfold drop_watch. intros n. cbn. by destruct (st_watch (n_sync n)). Qed.
Hint Resolve posture_drop_watch : keeps.

Lemma posture_upload paced : keeps R (upload cfg paced).
Proof.
  unfold upload, changed_since_upload, upload_snapshot, snapshot. solve_keeps.
Qed.
Hint Resolve posture_ship_all posture_upload : keeps.

Lemma posture_final_flush {E} : keeps R (final_flush (E := E) cfg).
Proof. unfold final_flush. destruct (cfg_mode cfg); solve_keeps. Qed.

Lemma posture_leader_snapshot : keeps R (sync_leader_snapshot cfg).
Proof. unfold sync_leader_snapshot. solve_keeps. Qed.
End Leader.

(** ** The invariant *)

Section Invariant.
Context {S Q : Type} `{ObjectApiLaws S} `{Sqlite Q} `{Codec} (cfg : Config).
Context (body_of : string -> option (list byte)).
Context (Hhonest : forall s s', env s s' -> honest cfg body_of s -> honest cfg body_of s').
Implicit Types n : Node S Q.

(** [clean] tells that no download has failed its final size check since the
    process last had no recorded copy. *)
Record standing_ok (clean : bool) n : Prop := {
  so_ship : n_is_leader n = false -> n_ship n = Shipper_default;
  so_copy : n_is_leader n = true -> st_snapshot_path (n_sync n) = None;
  so_named : replica_named cfg n;
  so_good : clean = true -> copy_good cfg body_of n;
}.

Lemma standing_ok_weaken clean n : standing_ok clean n -> standing_ok false n.
Proof. by intros [H1' H2' H3' _]. Qed.

(** The leader's operations keep it: they have no recorded copy to break. *)
Lemma leader_step_ok {E A} clean (m : M S Q E A) n :
  n_is_leader n = true -> standing_ok clean n -> keeps (frame posture) m -> standing_ok clean (m n).1.
Proof.
  intros Hl Hn Hm. specialize (Hm n). unfold frame, posture in Hm.
  assert (Hl' : n_is_leader (m n).1 = true)
    by (rewrite <- Hl; exact (f_equal (fun x => x.1.1.1.1) Hm)).
  assert (Hp : st_snapshot_path (n_sync (m n).1) = None)
    by (rewrite <- (so_copy _ _ Hn Hl); exact (f_equal (fun x => x.1.1.2) Hm)).
  assert (Hr : n_replica (m n).1 = n_replica n) by exact (f_equal snd Hm).
  split; [congruence|done| |].
  - intros r. rewrite Hr. apply (so_named _ _ Hn).
  - intros _ p. rewrite Hp. done.
Qed.

(** Forgetting the copy is always safe. *)
Lemma no_copy_good n : st_snapshot_path (n_sync n) = None -> copy_good cfg body_of n.
Proof. intros Hp p. by rewrite Hp. Qed.

Lemma named_swap (f : string -> SyncError) p :
  keeps (named_step cfg) (with_err f (swap_from_snapshot (S := S) p)).
Proof.
  apply named_same, keeps_with_err. intros n.
  exact (f_equal (fun x => let '(_, _, st, _) := x in st_replica st) (keeps_swap p n)).
Qed.

Lemma named_lead : keeps (named_step cfg) (lead (S := S) (Q := Q) (E := SyncError)).
Proof. apply named_same. by intros n. Qed.

Lemma named_promote_generation head g : keeps (named_step cfg) (promote_generation (Q := Q) cfg head g).
Proof.
  unfold promote_generation. apply keeps_bind; [typeclasses eauto|apply keeps_attempt, named_follow|].
  intros res. apply keeps_bind; [typeclasses eauto|apply named_drop|]. intros _.
  destruct res; [|apply keeps_raise; typeclasses eauto].
  apply keeps_bind; [typeclasses eauto|apply named_swap|intros _; apply named_lead].
Qed.

Lemma named_promote_snapshot head path etag :
  keeps (named_step cfg) (promote_snapshot (Q := Q) cfg head path etag).
Proof.
  unfold promote_snapshot. apply keeps_bind; [typeclasses eauto|apply named_drop|]. intros _.
  apply keeps_bind; [typeclasses eauto| |].
  { repeat (case_match; try (apply keeps_ret; typeclasses eauto)). }
  intros cached. apply keeps_bind; [typeclasses eauto| |].
  { destruct cached; [apply keeps_ret; typeclasses eauto|].
    apply keeps_bind; [typeclasses eauto|apply keeps_with_err, named_download|].
    intros [[found size] tag]. apply keeps_ret; typeclasses eauto. }
  intros [p|]; [|apply named_same; by intros n].
  apply keeps_bind; [typeclasses eauto|apply named_swap|intros _; apply named_lead].
Qed.

Lemma promote_named fence n : replica_named cfg n -> replica_named cfg (promote cfg fence n).1.
Proof.
  intros Hn. rewrite promote_unfold. pose proof (prepared_term fence n) as (_ & _ & _ & _ & _ & Hr & _).
  assert (Hp : replica_named cfg (prepared fence n)) by (intros r; rewrite Hr; apply Hn).
  revert Hp. apply keeps_bind; [typeclasses eauto|apply named_same, keeps_attempt, named_request_head|].
  intros [head|e].
  - destruct (generation_of head); [apply named_promote_generation|apply named_promote_snapshot].
  - destruct (is_not_found e); [apply named_same; by intros n1|apply keeps_raise; typeclasses eauto].
Qed.

Lemma promote_ok clean fence n :
  standing_ok clean n -> n_is_leader n = false -> standing_ok clean (promote cfg fence n).1.
Proof.
  intros Hn Hl. pose proof (so_ship _ _ Hn Hl) as Hsh.
  pose proof (promote_named fence n (so_named _ _ Hn)) as Hnamed.
  destruct (promote cfg fence n) as [n' r] eqn:E. cbn [fst] in *.
  apply promote_term in E as ((_ & Hp & _) & Hs & _); [|done].
  split; [done|done|done|intros _; by apply no_copy_good].
Qed.

Lemma final_flush_done {E} n : exists n', final_flush (E := E) cfg n = (n', Ok tt).
Proof.
  unfold final_flush, bind, attempt. destruct (cfg_mode cfg).
  - destruct (ship cfg true n) as [n' r]. by exists n'.
  - destruct (upload cfg false n) as [n' r]. by exists n'.
Qed.

(** Giving up leadership on a given state. *)
Definition stood_down n n' : Prop :=
  n_is_leader n' = false /\ n_fence n' = n_fence n /\ n_ship n' = Shipper_default /\
  st_watch (n_sync n') = None /\ st_have_uploaded (n_sync n') = false /\
  st_last_upload (n_sync n') = None /\ n_replica n' = n_replica n /\
  st_snapshot_path (n_sync n') = st_snapshot_path (n_sync n) /\
  st_snapshot_etag (n_sync n') = st_snapshot_etag (n_sync n).

Lemma stand_down {E} n :
  exists n', (modify (set_leader false) ;; drop_watch ;; discard (E := E)) n = (n', Ok tt) /\
    stood_down n n' /\
    (sh_generation (n_ship n) = None -> n_files n' = n_files n).
Proof.
  unfold bind at 1, modify. unfold bind at 1.
  destruct (drop_watch (set_leader false n)) as [n1 r1] eqn:E1.
  assert (H1' : r1 = Ok tt /\ n_is_leader n1 = false /\ n_fence n1 = n_fence n /\
    st_watch (n_sync n1) = None /\ st_have_uploaded (n_sync n1) = false /\
    st_last_upload (n_sync n1) = None /\ n_ship n1 = n_ship n /\ n_replica n1 = n_replica n /\
    st_snapshot_path (n_sync n1) = st_snapshot_path (n_sync n) /\
    st_snapshot_etag (n_sync n1) = st_snapshot_etag (n_sync n) /\ n_files n1 = n_files n).
  { revert E1. unfold drop_watch. destruct n as [[? ? [w|] ? ? ? ? ? ?]]; by intros [= <- <-]. }
  destruct H1' as (-> & Hl & Hf & Hw & Hh & Hu & Hs & Hr & Hp & He & Hfiles).
  unfold discard, bind at 1, gets. rewrite Hs.
  assert (Hdone : forall n2, frame posture n1 n2 -> same_but_files n1 n2 ->
    stood_down n (put_ship Shipper_default n2)).
  { intros n2 Hpo Hk. unfold stood_down. rewrite Hk. cbn.
    split_and!; done || congruence. }
  destruct (sh_generation (n_ship n)) as [g|] eqn:Eg.
  - destruct (g_base g) as [path ? ? ?|].
    + rewrite fs_remove_quietly_bind. destruct (fs_remove_quietly (E := E) path n1) as [n2 r2] eqn:E2.
      pose proof (run_keeps same_but_files _ _ _ _ E2 (keeps_fs_remove_quietly _)) as Hk.
      eexists. split; [reflexivity|]. split; [|done]. apply Hdone; [|done]. by rewrite Hk.
    + eexists. split; [reflexivity|]. split; [|done]. by apply Hdone; [|destruct n1].
  - eexists. split; [reflexivity|]. split; [|done]. by apply Hdone; [|destruct n1].
Qed.

Lemma demote_state {E} n :
  exists n1 n', (demote (E := E) cfg n) = (n', Ok tt) /\ stood_down n1 n' /\
    (if n_is_leader n then frame posture n n1 else n1 = n) /\
    (sh_generation (n_ship n1) = None -> n_files n' = n_files n1).
Proof.
  unfold demote, bind at 1, gets. destruct (n_is_leader n) eqn:El.
  - destruct (final_flush_done (E := E) n) as [n1 E1]. unfold bind at 1. rewrite E1.
    destruct (stand_down (E := E) n1) as (n' & E' & Hd & Hf). exists n1, n'. split; [exact E'|].
    split; [done|]. split; [|done]. apply (run_keeps (frame posture) _ _ _ _ E1), posture_final_flush.
  - destruct (stand_down (E := E) n) as (n' & E' & Hd & Hf). exists n, n'. done.
Qed.

(** Demotion always gives leadership up.  Whether the final flush
    succeeded or not, and whatever fails on the way, [demote] completes and
    leaves a standby of the same term with no shipping state, no watch and no
    upload record. *)
Theorem demote_stands_down n :
  exists n', demote (E := SyncError) cfg n = (n', Ok tt) /\
    n_is_leader n' = false /\ n_fence n' = n_fence n /\ n_ship n' = Shipper_default /\
    st_watch (n_sync n') = None /\ st_have_uploaded (n_sync n') = false /\
    st_last_upload (n_sync n') = None.
Proof.
  destruct (demote_state (E := SyncError) n) as (n1 & n' & E & (H1' & H2' & H3' & H4' & H5' & H6' & _) & Hb & _).
  exists n'. split_and!; try done. rewrite H2'. destruct (n_is_leader n); [|by subst].
  exact (f_equal (fun x => x.1.1.1.2) Hb).
Qed.

Lemma demote_ok {E} clean n : standing_ok clean n -> standing_ok clean (demote (E := E) cfg n).1.
Proof.
  intros Hn. destruct (demote_state (E := E) n) as (n1 & n' & -> & Hd & Hb & Hf). cbn [fst].
  destruct Hd as (Hl & _ & Hs & _ & _ & _ & Hr & Hp & He).
  destruct (n_is_leader n) eqn:El.
  - assert (Hp1 : st_snapshot_path (n_sync n1) = None)
      by (rewrite <- (so_copy _ _ Hn El); exact (f_equal (fun x => x.1.1.2) Hb)).
    assert (Hr1 : n_replica n1 = n_replica n) by exact (f_equal snd Hb).
    split; [done|congruence| |intros _; apply no_copy_good; congruence].
    intros r. rewrite Hr, Hr1. apply (so_named _ _ Hn).
  - subst n1. split; [done|congruence|intros r; rewrite Hr; apply (so_named _ _ Hn)|].
    assert (Hfs : n_files n' = n_files n) by (apply Hf; by rewrite (so_ship _ _ Hn El)).
    unfold copy_good, copy_of. rewrite Hp, He, Hfs. exact (so_good _ _ Hn).
Qed.

(** ** The standby's cycle *)

(** A download that fails before it commits leaves its destination alone. *)
Lemma download_untouched dst expect n n' res :
  download cfg dst expect n = (n', res) ->
  (forall size etag, res <> Ok (true, size, etag)) ->
  (forall e, res <> Err (IoError "commit snapshot" e)) ->
  untouched dst n n'.
Proof.
  intros E Hok Hcommit. assert (Ht : dst +:+ ".tmp" <> dst) by (by apply str_app_ne).
  assert (Hq : forall n0 (e : SyncError), untouched dst n0
    ((fs_remove_quietly (dst +:+ ".tmp") ;; raise (A := bool * Z * option string) e) n0).1).
  { intros n0 e. rewrite fs_remove_quietly_bind. by apply untouched_fs_remove_quietly. }
  revert E. unfold download, bind at 1, attempt, api_get.
  destruct (get_object (n_store n) _ _) as [s' [out|e]];
    [|destruct (is_not_found e); by intros [= <- <-]].
  destruct (replaced_since _ _); [by intros [= <- <-]|].
  set (n1 := set_store s' n). change (untouched dst n n') with (untouched dst n1 n').
  unfold bind at 1. destruct (with_err _ (fs_create_dir_all dst) n1) as [n2 [[]|e]] eqn:E2;
    pose proof (run_keeps (untouched dst) _ _ _ _ E2
      ltac:(unfold fs_create_dir_all; solve_keeps)) as Hu2; [|by intros [= <- <-]].
  unfold bind at 1. destruct (with_err _ (fs_write _ []) n2) as [n3 [[]|e]] eqn:E3;
    pose proof (run_keeps (untouched dst) _ _ _ _ E3
      ltac:(apply keeps_with_err; by apply untouched_fs_write)) as Hu3;
    [|intros [= <- <-]; by etransitivity].
  unfold bind at 1. destruct (copy_hashing _ _ n3) as [n4 [[len sha]|e]] eqn:E4;
    pose proof (run_keeps (untouched dst) _ _ _ _ E4
      ltac:(unfold copy_hashing; apply keeps_bind; [typeclasses eauto|solve_keeps|];
            intros b; apply keeps_bind; [typeclasses eauto|by apply untouched_fs_write|];
            solve_keeps)) as Hu4;
    assert (Hu : untouched dst n1 n4) by (do 2 (etransitivity; [eassumption|]); done).
  2:{ intros E. etransitivity; [exact Hu|]. specialize (Hq n4 (IoError "download snapshot" e)).
      by rewrite E in Hq. }
  destruct (sha_mismatch _ _).
  { intros E. etransitivity; [exact Hu|]. eapply eq_trans; [|apply Hq]. by rewrite E. }
  unfold bind at 1. destruct (io_step n4) as [n5 [[]|e]] eqn:E5; apply io_step_files in E5.
  2:{ intros E. etransitivity; [exact Hu|]. unfold untouched. rewrite <- E5.
      eapply eq_trans; [|apply Hq]. by rewrite E. }
  unfold bind at 1. destruct (io_step n5) as [n6 [[]|e]] eqn:E6; apply io_step_files in E6.
  2:{ intros E. etransitivity; [exact Hu|]. unfold untouched. rewrite <- E5, <- E6.
      eapply eq_trans; [|apply Hq]. by rewrite E. }
  unfold bind at 1. destruct ((_ ;; _) n6) as [n7 [len7|e]].
  - intros [= _ <-]. by destruct (Hok len (get_e_tag out)).
  - rewrite fs_remove_quietly_bind. intros [= _ <-]. by destruct (Hcommit e).
Qed.

(** The cycle ended in the one error after which the recorded copy's file may
    be newer than its recorded ETag. *)
Definition commit_error (r : result SyncError unit) : Prop :=
  exists e, r = Err (Context "download snapshot" (IoError "commit snapshot" e)).

Lemma sync_download_good n n' r :
  honest cfg body_of (n_store n) -> copy_good cfg body_of n ->
  sync_download cfg n = (n', r) -> ~ commit_error r -> copy_good cfg body_of n'.
Proof.
  intros Hh Hg. unfold sync_download, bind at 1, with_err.
  destruct (download cfg (join (work_dir cfg) "forklift.db") None n) as [n1 res] eqn:Ed.
  pose proof (run_keeps (frame local_state) _ _ _ _ Ed (keeps_download _ _ _)) as Hk.
  assert (Hsync : n_sync n1 = n_sync n)
    by exact (f_equal (fun x => let '(_, _, st, _, _) := x in st) Hk).
  assert (Hkeep : untouched (copy_path cfg) n n1 -> copy_good cfg body_of n1).
  { intros Hu. unfold copy_good, copy_of. rewrite Hsync, Hu. exact Hg. }
  destruct res as [[[[] size] etag]|e]; cbn [map_err negb].
  - intros [= <- <-] _ p [= <-]. split; [done|]. intros tag Htag. cbn in Htag.
    apply download_result in Ed as [He (o & Ho & [Ht _] & Hf & _)].
    exists (o_body o). rewrite (Ht tag Htag). split; [|exact Hf].
    by apply (Hhonest _ _ He Hh).
  - intros [= <- <-] _. apply Hkeep.
    apply (download_untouched _ _ _ _ _ Ed); intros; discriminate.
  - intros [= <- <-] Hne. apply Hkeep. apply (download_untouched _ _ _ _ _ Ed); [done|].
    intros e' [= ->]. apply Hne. by exists e'.
Qed.

(** The part of the state the standby's cycle does not touch. *)
Definition station n := (n_is_leader n, n_ship n).

Lemma station_standing {E A} (m : M S Q E A) : keeps (frame standing) m -> keeps (frame station) m.
Proof.
  intros Hm n.
  exact (f_equal (fun x => let '(l, _, st, _, _) := x in (l, st_ship st)) (Hm n)).
Qed.

Lemma checkpoint_standby_frame {E} n :
  let n' := (checkpoint_standby (E := E) cfg n).1 in
  checkpoint_standby (E := E) cfg n = (n', Ok tt) /\
  n_sync n' = n_sync n /\ n_files n' = n_files n /\ n_store n' = n_store n /\
  n_is_leader n' = n_is_leader n.
Proof.
  unfold checkpoint_standby. destruct (negb _); [done|]. unfold bind, attempt, sql_acquire.
  destruct (sqlite_acquire _ _) as [[q d] [[]|e]]; [|done]. unfold sql_checkpoint. cbn.
  by destruct (sqlite_checkpoint q d) as [[q' d'] [b|e]].
Qed.

Lemma copy_current_files head n n' res :
  copy_current head n = (n', res) -> same_but_files n n' /\ n_files n' = n_files n.
Proof.
  unfold copy_current, bind, gets.
  destruct (st_snapshot_path (n_sync n)) as [path|]; [|by intros [= <- _]].
  destruct (_ && _); [|by intros [= <- _]]. unfold fs_exists, bind, attempt.
  destruct (fs_read path n) as [n1 r] eqn:E.
  pose proof (run_keeps same_but_files _ _ _ _ E (keeps_fs_read _)) as Hk.
  apply fs_read_spec in E as [Hf _]. intros [= <- _]. done.
Qed.

(** The cycle after its HEAD request. *)
Definition standby_tail (head : result SyncError HeadObjectOutput) : M S Q SyncError unit :=
  match head with
  | Ok h =>
      match generation_of h with
      | Some generation =>
          update_sync (st_set_snapshot None None) ;;
          let! _ := with_err (Context "follow wal generation")
                      (follow_generation cfg h generation false) in
          ret tt
      | None =>
          drop_replica ;;
          let! current := copy_current h in
          if (current : bool) then ret tt else sync_download cfg
      end
  | Err e =>
      drop_replica ;;
      if is_not_found e then ret tt else sync_download cfg
  end.

Lemma drop_replica_good n n' (r : result SyncError unit) :
  standing_ok true n -> drop_replica n = (n', r) ->
  n_sync n' = set_replica None (n_sync n) /\ n_store n' = n_store n /\ copy_good cfg body_of n'.
Proof.
  intros Hn E. pose proof (drop_replica_store _ _ _ E) as Hs.
  assert (Hf : n_files n' !! copy_path cfg = n_files n !! copy_path cfg).
  { eapply (drop_replica_file _ _ _ _ E). intros r' Hr.
    by apply (named_not_spooled cfg n), copy_path_spool; [apply (so_named _ _ Hn)|]. }
  assert (Hsync : n_sync n' = set_replica None (n_sync n)).
  { pose proof (run_keeps (frame standing) _ _ _ _ E keeps_standing_drop) as Hk.
    assert (Hr : n_replica n' = None).
    { revert E. unfold drop_replica, bind, gets, modify. destruct (n_replica n) as [r'|].
      - destruct (remove_files (r_spool r') n) as [n1 r1] eqn:Er.
        rewrite (remove_files_ok _ _ _ _ Er). by intros [= <- _].
      - by intros [= <- _]. }
    pose proof (f_equal (fun x => let '(_, _, st, _, _) := x in st) Hk) as Hst. cbn in Hst.
    unfold n_replica in Hr. destruct (n_sync n'). cbn in *. subst. exact Hst. }
  split; [done|]. split; [done|]. unfold copy_good, copy_of. rewrite Hf, Hsync. exact (so_good _ _ Hn eq_refl).
Qed.

Lemma standby_tail_good head n n' r :
  standing_ok true n -> honest cfg body_of (n_store n) ->
  standby_tail head n = (n', r) -> ~ commit_error r -> copy_good cfg body_of n'.
Proof.
  intros Hn Hh. unfold standby_tail.
  assert (Hdrop : forall k, (forall n1, n_store n1 = n_store n -> copy_good cfg body_of n1 ->
      k n1 = (n', r) -> ~ commit_error r -> copy_good cfg body_of n') ->
    (drop_replica ;; k) n = (n', r) -> ~ commit_error r -> copy_good cfg body_of n').
  { intros k Hk. unfold bind at 1. destruct (drop_replica (E := SyncError) n) as [n1 r1] eqn:E1.
    apply drop_replica_good in E1 as Hd; [|done]. destruct Hd as (_ & Hs & Hg).
    destruct r1 as [[]|e]; [by apply Hk|by intros [= <- _] _]. }
  destruct head as [h|e].
  - destruct (generation_of h) as [g|].
    + unfold bind at 1, update_sync, modify. intros E _. apply no_copy_good.
      pose proof (run_keeps (frame standing) _ _ _ _ E ltac:(solve_keeps)) as Hk.
      pose proof (f_equal (fun x => let '(_, _, st, _, _) := x in st_snapshot_path st) Hk) as Hp.
      exact Hp.
    + apply Hdrop. intros n1 Hs1 Hg1. unfold bind at 1.
      destruct (copy_current h n1) as [n2 [[]|e]] eqn:E2; apply copy_current_files in E2 as [Hk Hf].
      * intros [= <- _] _. unfold copy_good, copy_of. rewrite Hf, Hk. exact Hg1.
      * apply sync_download_good; [by rewrite Hk; cbn; rewrite Hs1|].
        unfold copy_good, copy_of. rewrite Hf, Hk. exact Hg1.
      * intros [= <- _] _. unfold copy_good, copy_of. rewrite Hf, Hk. exact Hg1.
  - apply Hdrop. intros n1 Hs1 Hg1. destruct (is_not_found e); [by intros [= <- _]|].
    apply sync_download_good; [by rewrite Hs1|done].
Qed.

Lemma station_tail head : keeps (frame station) (standby_tail head).
Proof.
  unfold standby_tail. assert (Hd : keeps (frame station) (sync_download (Q := Q) cfg)).
  { unfold sync_download. apply keeps_bind; [typeclasses eauto| |].
    - apply keeps_with_err, station_standing, keeps_standing_download.
    - intros [[found size] etag]. destruct (negb found); [by intros n|by intros n]. }
  assert (Hr : keeps (frame station) (drop_replica (S := S) (Q := Q) (E := SyncError)))
    by apply station_standing, keeps_standing_drop.
  destruct head as [h|e].
  - destruct (generation_of h) as [g|].
    + apply keeps_bind; [typeclasses eauto|by intros n|]. intros _.
      apply station_standing. solve_keeps.
    + apply keeps_bind; [typeclasses eauto|done|]. intros _.
      apply keeps_bind; [typeclasses eauto| |intros []; [by intros n|done]].
      intros n. destruct (copy_current h n) as [n1 r] eqn:E. apply copy_current_files in E as [-> _].
      done.
  - apply keeps_bind; [typeclasses eauto|done|]. intros _. destruct (is_not_found e); [by intros n|done].
Qed.

Lemma named_tail head : keeps (named_step cfg) (standby_tail head).
Proof.
  unfold standby_tail. assert (Hd : keeps (named_step cfg) (sync_download (Q := Q) cfg)).
  { unfold sync_download. apply keeps_bind; [typeclasses eauto| |].
    - apply keeps_with_err, named_download.
    - intros [[found size] etag]. apply named_same. destruct (negb found); by intros n. }
  destruct head as [h|e].
  - destruct (generation_of h) as [g|].
    + apply keeps_bind; [typeclasses eauto|apply named_same; by intros n|]. intros _.
      apply keeps_bind; [typeclasses eauto|apply keeps_with_err, named_follow|].
      intros _. apply named_same. by intros n.
    + apply keeps_bind; [typeclasses eauto|apply named_drop|]. intros _.
      apply keeps_bind; [typeclasses eauto| |intros []; [apply named_same; by intros n|done]].
      intros n. destruct (copy_current h n) as [n1 r] eqn:E. apply copy_current_files in E as [-> _].
      intros Hn. exact Hn.
  - apply keeps_bind; [typeclasses eauto|apply named_drop|]. intros _.
    destruct (is_not_found e); [apply named_same; by intros n|done].
Qed.

Lemma sync_standby_ok clean n n' r :
  n_is_leader n = false -> standing_ok clean n -> honest cfg body_of (n_store n) ->
  sync_standby cfg n = (n', r) -> (clean = true -> ~ commit_error r) -> standing_ok clean n'.
Proof.
  intros Hl Hn Hh. unfold sync_standby, bind at 1, gets.
  match goal with |- context [if ?b then _ else _] => destruct b end; [by intros [= <- _]|].
  unfold bind at 1, update_sync, modify.
  set (n1 := set_sync (st_set_standby (Some (n_now n)) (n_sync n)) n).
  destruct (checkpoint_standby_frame (E := SyncError) n1) as (Ec & Hs2 & Hf2 & Hst2 & Hl2).
  unfold bind at 1. rewrite Ec. set (n2 := (checkpoint_standby cfg n1).1) in *. clearbody n2.
  unfold bind at 1, attempt, api_head. rewrite Hst2.
  destruct (head_object (n_store n1) _ _) as [s' head] eqn:Eh.
  assert (He : env (n_store n) s').
  { destruct head; [apply head_ok in Eh|apply head_err in Eh]; apply Eh. }
  set (n3 := set_store s' n2). change (standby_tail head n3 = (n', r) -> (clean = true -> ~ commit_error r) -> standing_ok clean n').
  assert (Hn3 : standing_ok clean n3).
  { split; cbn.
    - intros _. unfold n_ship. cbn. rewrite Hs2. exact (so_ship _ _ Hn Hl).
    - rewrite Hl2. cbn. congruence.
    - intros r'. unfold n_replica. cbn. rewrite Hs2. apply (so_named _ _ Hn).
    - unfold copy_good, copy_of. cbn. rewrite Hs2, Hf2. exact (so_good _ _ Hn). }
  intros E Hc. pose proof (run_keeps (frame station) _ _ _ _ E (station_tail head)) as Hk.
  pose proof (run_keeps (named_step cfg) _ _ _ _ E (named_tail head) (so_named _ _ Hn3)) as Hnm.
  assert (Hl3 : n_is_leader n3 = false) by (cbn; by rewrite Hl2).
  assert (Hl' : n_is_leader n' = false) by (rewrite <- Hl3; exact (f_equal fst Hk)).
  split; [|congruence|done|].
  2:{ intros ->. apply (standby_tail_good head n3 n' r); auto. by apply (Hhonest _ _ He). }
  intros _. rewrite <- (so_ship _ _ Hn3 Hl3). exact (f_equal snd Hk).
Qed.

(** ** Every critical section *)

Lemma ship_detached_ok clean n n' r :
  standing_ok clean n -> ship_detached cfg n = (n', r) -> standing_ok clean n'.
Proof.
  intros Hn. unfold ship_detached, bind at 1, gets.
  destruct (n_is_leader n) eqn:Hl; cbn [negb]; [|by intros [= <- _]]. intros E.
  replace n' with (ship cfg false n).1 by (by rewrite E).
  apply leader_step_ok; [done|done|apply posture_ship_all].
Qed.

Lemma sync_locked_ok clean n n' r :
  standing_ok clean n -> honest cfg body_of (n_store n) ->
  sync_locked cfg n = (n', r) -> (clean = true -> ~ commit_error r) -> standing_ok clean n'.
Proof.
  intros Hn Hh. unfold sync_locked, bind at 1, gets. destruct (n_is_leader n) eqn:Hl.
  - destruct (cfg_mode cfg); intros E _; [by apply (ship_detached_ok clean n n' r)|].
    replace n' with (sync_leader_snapshot cfg n).1 by (by rewrite E).
    apply leader_step_ok; [done|done|apply posture_leader_snapshot].
  - by apply sync_standby_ok.
Qed.

Lemma sync_step_ok clean n r n' :
  sync_step cfg n r n' -> standing_ok clean n -> honest cfg body_of (n_store n) ->
  (clean = true -> ~ commit_error r) -> standing_ok clean n'.
Proof.
  intros Hstep Hn Hh Hc. destruct Hstep as [? ? ? E|? ? ? E|? ? ? E|? ? ? fence Hl E|? ? ? E|? ? ? E|].
  - revert E. unfold sync, bind at 1, gets.
    destruct (cfg_mode cfg), (n_is_leader n); intros E;
      first [by apply (ship_detached_ok clean n n' r)|by apply (sync_locked_ok clean n n' r)].
  - by apply (sync_locked_ok clean n n' r).
  - by apply (ship_detached_ok clean n n' r).
  - replace n' with (promote cfg fence n).1 by (by rewrite E). by apply promote_ok.
  - replace n' with (demote (E := SyncError) cfg n).1 by (by rewrite E). by apply demote_ok.
  - revert E. unfold final_sync, bind at 1, gets. destruct (n_is_leader n) eqn:Hl; [|by intros [= <- _]].
    intros E. replace n' with (final_flush (E := SyncError) cfg n).1 by (by rewrite E).
    apply leader_step_ok; [done|done|apply posture_final_flush].
  - destruct Hn as [H1' H2' H3' H4']. by split.
Qed.

(** A run of the process against a bucket that keeps the promise of ETags.  The
    flag is lost when a cycle ends with the error of the final size check, and
    comes back once the process has no recorded copy. *)
Inductive running : bool -> Node S Q -> Prop :=
| running_boot n :
    n_is_leader n = false -> n_sync n = SyncState_default -> running true n
| running_step clean n r n' :
    running clean n -> honest cfg body_of (n_store n) -> sync_step cfg n r n' -> ~ commit_error r ->
    running clean n'
| running_commit_error clean n r n' :
    running clean n -> honest cfg body_of (n_store n) -> sync_step cfg n r n' -> commit_error r ->
    running false n'
| running_no_copy clean n :
    running clean n -> st_snapshot_path (n_sync n) = None -> running true n.

Lemma running_ok clean n : running clean n -> standing_ok clean n.
Proof.
  induction 1 as [n Hl Hs|clean n r n' _ IH Hh Hstep Hc|clean n r n' _ IH Hh Hstep _|clean n _ IH Hp].
  - split; unfold n_ship, copy_good, n_replica; rewrite ?Hs; [done|done| |done].
    intros r. unfold n_replica. by rewrite Hs.
  - by apply (sync_step_ok clean n r).
  - apply (sync_step_ok false n r); [done|by eapply standing_ok_weaken|done|done].
  - destruct IH as [H1' H2' H3' _]. split; [done|done|done|]. intros _. by apply no_copy_good.
Qed.


(** A process that is promoted in such a state leads, and has opened the
    object of the bucket, or a replica of its generation, or kept its own
    database when the bucket holds none. *)
Theorem running_promotes fence n n' :
  running true n -> n_is_leader n = false -> honest cfg body_of (n_store n) ->
  promote cfg fence n = (n', Ok tt) ->
  n_is_leader n' = true /\ n_fence n' = fence /\ n_ship n' = Shipper_default /\
  ((objects (n_store n') (cfg_bucket cfg) !! cfg_key cfg = None /\ n_database n' = n_database n) \/
   opened_object cfg n' \/
   exists head b, is_Some (generation_of head) /\ head_is cfg head (n_store n') /\
     check_db_file b = Ok tt /\ opened_from b n').
Proof.
  intros Hr Hl Hh E. pose proof (running_ok true n Hr) as Hn.
  pose proof (promote_term cfg fence n n' (Ok tt) E (so_ship _ _ Hn Hl)) as ((Hf & _) & Hs & Hl').
  split; [done|]. split; [done|]. split; [done|].
  by apply (promote_opened cfg body_of Hhonest fence n n' (so_named _ _ Hn) Hh (so_good _ _ Hn eq_refl)).
Qed.
End Invariant.

(** ** A concrete run *)

Lemma snapshot_bucket_honest : honest demo_config demo_body_of snapshot_bucket.
Proof.
  intros o Ho.
  assert (Hs : objects snapshot_bucket "bucket" !! "meta/forklift.db" =
               Some {| o_body := demo_restored; o_e_tag := "v0"; o_metadata := [("fence", "5")] |})
    by reflexivity.
  assert (Hs' : Some o = Some _) by (etransitivity; [symmetry; exact Ho|exact Hs]).
  injection Hs' as ->. reflexivity.
Qed.

Lemma running_candidate : running demo_config demo_body_of true (candidate snapshot_bucket).
Proof. by constructor. Qed.


Lemma running_promotes_witness :
  match promote demo_config 6 (candidate snapshot_bucket) with
  | (n', Ok _) =>
      n_is_leader n' = true /\ n_fence n' = 6 /\ n_ship n' = Shipper_default /\
      ((objects (n_store n') (cfg_bucket demo_config) !! cfg_key demo_config = None /\
        n_database n' = n_database (candidate snapshot_bucket)) \/ opened_object demo_config n' \/
       exists head b, is_Some (generation_of head) /\ head_is demo_config head (n_store n') /\
         check_db_file b = Ok tt /\ opened_from b n')
  | _ => False
  end.
Proof.
  assert (Hok : is_ok (promote demo_config 6 (candidate snapshot_bucket)).2 = true)
    by (vm_compute; reflexivity).
  destruct (promote demo_config 6 (candidate snapshot_bucket)) as [n' [[]|e]] eqn:E;
    [|discriminate Hok].
  apply (running_promotes demo_config demo_body_of mem_honest 6 (candidate snapshot_bucket) n'
           running_candidate eq_refl snapshot_bucket_honest E).
Defined.
