(* ===== verification/Retry.v ===== *)
(** * Retrying while the object store comes up (objstore.rs: retry_transient)

    A call is repeated with exponential backoff while it fails with a transient
    error, within a time budget.  Durations and clock readings are in
    milliseconds.  The call and the sleep act on an abstract state [W] with a
    monotonic clock; the loop carries fuel, and [retry_transient_ends] shows
    how much is enough. *)

From stdpp Require Import prelude list strings.
From Stdlib Require Import ZArith Lia.
From S2P Require Import Prelude Bytes ObjectApi.

Section Retry.
Context {W T : Type}.
(** The monotonic clock, [sleep], and the retried call. *)
Context (now : W -> Z) (sleep : Z -> W -> W) (f : W -> W * result SyncError T).

Definition MAX_DELAY : Z := 30 * 1000.

(** Whether a failed attempt is followed by another. *)
Definition retries (deadline delay : Z) (w : W) (r : result SyncError T) : bool :=
  match r with
  | Err e => is_transient e && (now w + delay <? deadline)
  | Ok _ => false
  end.

Fixpoint retry_loop (fuel : nat) (deadline delay : Z) (w : W)
  : W * option (result SyncError T) :=
  match fuel with
  | O => (w, None)
  | Datatypes.S fuel =>
      let '(w, r) := f w in
      if retries deadline delay w r
      then retry_loop fuel deadline (Z.min (delay * 2) MAX_DELAY) (sleep delay w)
      else (w, Some r)
  end.

Definition retry_transient (fuel : nat) (budget first_delay : Z) (w : W)
  : W * option (result SyncError T) :=
  retry_loop fuel (now w + budget) first_delay w.

(** ** Specification *)

(** One failed attempt and the sleep after it. *)
Inductive attempts (deadline : Z) : Z -> W -> Z -> W -> Prop :=
| attempts_none delay w : attempts deadline delay w delay w
| attempts_more delay w w1 e delay' w' :
    f w = (w1, Err e) -> is_transient e = true -> now w1 + delay < deadline ->
    attempts deadline (Z.min (delay * 2) MAX_DELAY) (sleep delay w1) delay' w' ->
    attempts deadline delay w delay' w'.

Context (Hsleep : forall d w, 0 <= d -> now w + d <= now (sleep d w)).
Context (Hf : forall w, now w <= now (f w).1).

Lemma retry_loop_spec fuel deadline delay w w' r :
  retry_loop fuel deadline delay w = (w', Some r) ->
  exists delay' w1, attempts deadline delay w delay' w1 /\ f w1 = (w', r) /\
    retries deadline delay' w' r = false.
Proof.
  revert delay w. induction fuel as [|fuel IH]; intros delay w; cbn; [done|].
  destruct (f w) as [w1 r1] eqn:Ef. destruct (retries deadline delay w1 r1) eqn:Er.
  - intros E. apply IH in E as (delay' & w2 & Ha & Hw & Hr). exists delay', w2.
    split; [|done]. unfold retries in Er. destruct r1 as [|e]; [done|].
    apply andb_true_iff in Er as [Ht Hlt%Z.ltb_lt]. by eapply attempts_more.
  - intros [= <- <-]. exists delay, w. split; [constructor|done].
Qed.

(** Each sleep takes at least [step] off what is left of the budget. *)
Lemma retry_loop_ends fuel deadline delay step w :
  0 < step <= MAX_DELAY -> step <= delay -> (0 < fuel)%nat ->
  deadline - now w <= Z.of_nat fuel * step ->
  exists w' r, retry_loop fuel deadline delay w = (w', Some r).
Proof.
  intros Hs. revert delay w.
  induction fuel as [|fuel IH]; intros delay w Hd Hpos Hfuel; cbn; [lia|].
  pose proof (Hf w) as Hmono. destruct (f w) as [w1 r1] eqn:Ef. cbn in Hmono.
  destruct (retries deadline delay w1 r1) eqn:Er; [|by do 2 eexists].
  unfold retries in Er. destruct r1 as [|e]; [done|].
  apply andb_true_iff in Er as [_ Hlt%Z.ltb_lt].
  pose proof (Hsleep delay w1 ltac:(lia)) as Hadv. apply IH; nia.
Qed.

(** The fuel for a budget. *)
Definition retry_fuel (budget first_delay : Z) : nat :=
  Z.to_nat (1 + budget / Z.min first_delay MAX_DELAY).

(** Retrying always ends, and only transient failures are retried.  With a
    positive first delay the loop returns within [retry_fuel] attempts; what it
    returns is the outcome of the last attempt, which every earlier attempt
    preceded with a transient error; and it gave up on a transient error only
    when the next sleep would have reached the deadline. *)
Theorem retry_transient_ends budget first_delay w :
  0 <= budget -> 0 < first_delay ->
  exists w' r, retry_transient (retry_fuel budget first_delay) budget first_delay w = (w', Some r) /\
  exists delay w1, attempts (now w + budget) first_delay w delay w1 /\ f w1 = (w', r) /\
    (forall e, r = Err e -> is_transient e = true -> now w + budget <= now w' + delay).
Proof.
  intros Hb Hd. unfold retry_transient.
  set (step := Z.min first_delay MAX_DELAY).
  assert (Hs : 0 < step <= MAX_DELAY) by (unfold step, MAX_DELAY; lia).
  assert (Hq : 0 <= budget / step) by (apply Z.div_pos; lia).
  destruct (retry_loop_ends (retry_fuel budget first_delay) (now w + budget) first_delay step w)
    as (w' & r & E); [done|lia|unfold retry_fuel; fold step; lia| |].
  { unfold retry_fuel. fold step. rewrite Z2Nat.id by lia.
    pose proof (Z.mul_succ_div_gt budget step ltac:(lia)). nia. }
  exists w', r. split; [done|]. apply retry_loop_spec in E as (delay & w1 & Ha & Hw & Hr).
  exists delay, w1. split; [done|]. split; [done|]. intros e -> Ht. unfold retries in Hr.
  rewrite Ht in Hr. by apply Z.ltb_ge in Hr.
Qed.
End Retry.

(** ** A concrete run *)

(** A store that comes up at its third attempt; the state is the clock and the
    number of attempts. *)
Definition coming_up (w : Z * Z) : (Z * Z) * result SyncError Z :=
  let '(t, n) := w in
  ((t + 10, n + 1), if n <? 2 then Err (Unavailable "503") else Ok n).

Lemma retry_transient_ends_witness :
  match retry_transient fst (fun d w => (w.1 + d, w.2)) coming_up (retry_fuel 60000 500)
          60000 500 (0, 0) with
  | (w', Some r) =>
      r = Ok 2 /\
      exists w1, coming_up w1 = (w', r)
  | _ => False
  end.
Proof.
  destruct (retry_transient_ends fst (fun d w => (w.1 + d, w.2)) coming_up
              ltac:(intros d w Hd; cbn; lia) ltac:(intros [t n]; cbn; lia)
              60000 500 (0, 0) ltac:(lia) ltac:(lia)) as (w' & r & E & delay & w1 & _ & Hw & _).
  rewrite E. split; [|by exists w1].
  assert (Hv : (retry_transient fst (fun d w => (w.1 + d, w.2)) coming_up (retry_fuel 60000 500)
          60000 500 (0, 0)).2 = Some (Ok 2)) by (vm_compute; reflexivity).
  rewrite E in Hv. by injection Hv.
Defined.
