(* ===== verification/Election.v ===== *)
(** * Leader election over a Kubernetes Lease (cluster.rs)

    A contender reads and writes one Lease object with optimistic concurrency:
    an update carries the version of the object it was made from.  The API
    server, the clocks and the conversions of the time libraries are
    parameters.  The future of an API call may be dropped by a [select!] or a
    timeout: the computation then ends there ([None]) though the call may have
    taken effect.  Durations and instants are in nanoseconds.  The properties
    are in [Lease]. *)

From stdpp Require Import prelude list strings pretty.
From Stdlib Require Import ZArith Lia Floats.SpecFloat.
From S2P Require Import Prelude Bytes.

(** ** The election record and its wire form *)

Record LeaderElectionRecord := mkRecord {
  holder_identity : string;
  lease_duration_seconds : Z;
  acquire_time : option Z;
  renew_time : option Z;
  leader_transitions : Z;
}.

Definition LeaderElectionRecord_default : LeaderElectionRecord := mkRecord "" 0 None None 0.

#[global] Instance LeaderElectionRecord_eq_dec : EqDecision LeaderElectionRecord.
Proof. solve_decision. Defined.

(** The fields of the Lease spec the module uses; the times are jiff
    timestamps, in nanoseconds. *)
Record LeaseSpec := mkSpec {
  spec_holder_identity : option string;
  spec_lease_duration_seconds : option Z;
  spec_acquire_time : option Z;
  spec_renew_time : option Z;
  spec_lease_transitions : option Z;
}.

(** A Lease object: its version and its spec. *)
Record Lease := mkLease {
  lease_version : string;
  lease_spec : option LeaseSpec;
}.

Definition NANOS : Z := 1000000000.
Definition i32_min : Z := - 2 ^ 31.
Definition i32_max : Z := 2 ^ 31 - 1.

(** [x as i32]. *)
Definition as_i32 (x : Z) : Z := (x + 2 ^ 31) `mod` 2 ^ 32 - 2 ^ 31.
(** [x as u32]. *)
Definition as_u32 (x : Z) : Z := x `mod` 2 ^ 32.

Section Times.
(** [chrono::DateTime::from_timestamp] and [jiff::Timestamp::new]: seconds and
    nanoseconds to an instant in nanoseconds, if in range. *)
Context (from_timestamp timestamp_new : Z -> Z -> option Z).

Definition micro_time_to_chrono (t : Z) : option Z :=
  from_timestamp (Z.quot t NANOS) (as_u32 (Z.rem t NANOS)).

Definition chrono_to_micro_time (t : Z) : option Z :=
  timestamp_new (t `div` NANOS) (t `mod` NANOS).

Definition lease_spec_to_record (spec : option LeaseSpec) : LeaderElectionRecord :=
  match spec with
  | None => LeaderElectionRecord_default
  | Some spec =>
      mkRecord (default "" (spec_holder_identity spec))
        (default 0 (spec_lease_duration_seconds spec))
        (spec_acquire_time spec ≫= micro_time_to_chrono)
        (spec_renew_time spec ≫= micro_time_to_chrono)
        (default 0 (spec_lease_transitions spec))
  end.

Definition record_to_lease_spec (r : LeaderElectionRecord) : LeaseSpec :=
  mkSpec (Some (holder_identity r)) (Some (as_i32 (lease_duration_seconds r)))
    (acquire_time r ≫= chrono_to_micro_time) (renew_time r ≫= chrono_to_micro_time)
    (Some (as_i32 (leader_transitions r))).
End Times.

(** ** Configuration *)

Record LeaderElectionConfig := mkElection {
  lease_duration : Z;
  renew_deadline : Z;
  retry_period : Z;
  release_on_cancel : bool;
}.

(** IEEE binary64. *)
Definition f64 : Type := spec_float.
Definition f64_of_Z (z : Z) : f64 := binary_normalize 53 1024 z 0 false.
Definition f64_add : f64 -> f64 -> f64 := SFadd 53 1024.
Definition f64_mul : f64 -> f64 -> f64 := SFmul 53 1024.
Definition f64_div : f64 -> f64 -> f64 := SFdiv 53 1024.

(** [Duration::as_secs_f64]. *)
Definition as_secs_f64 (d : Z) : f64 :=
  f64_add (f64_of_Z (d `div` NANOS)) (f64_div (f64_of_Z (d `mod` NANOS)) (f64_of_Z NANOS)).

(** The double nearest to 1.2. *)
Definition JITTER_FACTOR : f64 := f64_div (f64_of_Z 12) (f64_of_Z 10).

Definition validate (c : LeaderElectionConfig) : result string unit :=
  if lease_duration c <=? renew_deadline c then
    Err "leaseDuration must be greater than renewDeadline"
  else if SFleb (as_secs_f64 (renew_deadline c))
            (f64_mul (as_secs_f64 (retry_period c)) JITTER_FACTOR) then
    Err "renewDeadline must be greater than retryPeriod*JitterFactor"
  else if lease_duration c <? NANOS then Err "leaseDuration must be greater than zero"
  else if renew_deadline c <? NANOS then Err "renewDeadline must be greater than zero"
  else if retry_period c <? NANOS then Err "retryPeriod must be greater than zero"
  else Ok tt.

(** ** The API server *)

Inductive KubeError : Type :=
| ApiError (code : Z)
| TransportError (message : string).

Definition is_not_found (e : KubeError) : bool :=
  match e with ApiError code => code =? 404 | TransportError _ => false end.

Class LeaseApi (S : Type) := {
  lease_get : S -> S * result KubeError Lease;
  lease_create : S -> LeaseSpec -> S * result KubeError Lease;
  (** Replaces the object if its version is still the one given. *)
  lease_replace : S -> Lease -> S * result KubeError Lease;
}.

(** ** A contender *)

(** [LeaseLock]: the cached object carries the version of the next update. *)
Record LeaseLock := mkLock {
  lock_identity : string;
  lock_lease : option Lease;
}.

Record LeaderElector := mkElector {
  el_lock : LeaseLock;
  el_config : LeaderElectionConfig;
  observed_record : LeaderElectionRecord;
  observed_raw : option LeaderElectionRecord;
  observed_time : Z;
}.

(** What the loops report. *)
Inductive TermEvent : Type := StartedLeading | StoppedLeading.

(** The contender with its surroundings.  The lists are schedules: the clock
    readings, whether the next API calls are dropped half-way, and whether the
    next waits are ended by a cancellation or a deadline. *)
Record World (S : Type) := mkWorld {
  w_api : S;
  w_elector : LeaderElector;
  w_instants : list Z;
  w_utc : list Z;
  w_drops : list bool;
  w_interrupts : list bool;
  w_events : list TermEvent;
}.
Arguments mkWorld {S}. Arguments w_api {S}. Arguments w_elector {S}. Arguments w_instants {S}.
Arguments w_utc {S}. Arguments w_drops {S}. Arguments w_interrupts {S}. Arguments w_events {S}.

Section World.
Context {S : Type}.
Implicit Types w : World S.

Definition put_api (s : S) w : World S :=
  mkWorld s (w_elector w) (w_instants w) (w_utc w) (w_drops w) (w_interrupts w) (w_events w).
Definition put_elector (e : LeaderElector) w : World S :=
  mkWorld (w_api w) e (w_instants w) (w_utc w) (w_drops w) (w_interrupts w) (w_events w).
Definition put_instants (l : list Z) w : World S :=
  mkWorld (w_api w) (w_elector w) l (w_utc w) (w_drops w) (w_interrupts w) (w_events w).
Definition put_utc (l : list Z) w : World S :=
  mkWorld (w_api w) (w_elector w) (w_instants w) l (w_drops w) (w_interrupts w) (w_events w).
Definition put_drops (l : list bool) w : World S :=
  mkWorld (w_api w) (w_elector w) (w_instants w) (w_utc w) l (w_interrupts w) (w_events w).
Definition put_interrupts (l : list bool) w : World S :=
  mkWorld (w_api w) (w_elector w) (w_instants w) (w_utc w) (w_drops w) l (w_events w).
Definition put_events (l : list TermEvent) w : World S :=
  mkWorld (w_api w) (w_elector w) (w_instants w) (w_utc w) (w_drops w) (w_interrupts w) l.

Definition set_lease (l : option Lease) (e : LeaderElector) : LeaderElector :=
  mkElector (mkLock (lock_identity (el_lock e)) l) (el_config e) (observed_record e)
    (observed_raw e) (observed_time e).
Definition set_observed (r : LeaderElectionRecord) (at_ : Z) (e : LeaderElector) : LeaderElector :=
  mkElector (el_lock e) (el_config e) r (observed_raw e) at_.
Definition set_raw (r : option LeaderElectionRecord) (e : LeaderElector) : LeaderElector :=
  mkElector (el_lock e) (el_config e) (observed_record e) r (observed_time e).

(** A computation that a drop may end. *)
Definition Task (A : Type) : Type := World S -> World S * option A.

Definition done {A} (a : A) : Task A := fun w => (w, Some a).
Definition andthen {A B} (m : Task A) (k : A -> Task B) : Task B :=
  fun w => match m w with
           | (w, Some a) => k a w
           | (w, None) => (w, None)
           end.
Definition reads {A} (f : World S -> A) : Task A := fun w => (w, Some (f w)).
Definition updates (f : World S -> World S) : Task unit := fun w => (f w, Some tt).
(** Observes a drop: the other branch of [select!] or the timeout ran. *)
Definition dropped {A} (m : Task A) : Task (option A) :=
  fun w => let '(w, r) := m w in (w, Some r).
End World.

Arguments Task : clear implicits.

Declare Scope task_scope.
Notation "'wait' x := m 'in' k" := (andthen m (fun x => k))
  (at level 10, x pattern, m at level 100, k at level 200) : task_scope.
Notation "m ;; k" := (andthen m (fun _ => k))
  (at level 100, k at level 200, right associativity) : task_scope.
#[local] Open Scope task_scope.

Section Contender.
Context {S : Type} `{LeaseApi S} (from_timestamp timestamp_new : Z -> Z -> option Z).

(** An API call, which a drop may end after it reached the server. *)
Definition call {A} (op : S -> S * A) : Task S A :=
  fun w =>
    let '(s, r) := op (w_api w) in
    let w := put_api s w in
    match w_drops w with
    | true :: ds => (put_drops ds w, None)
    | false :: ds => (put_drops ds w, Some r)
    | [] => (w, Some r)
    end.

(** [Instant::now()] and [Utc::now()]. *)
Definition instant_now : Task S Z :=
  fun w => match w_instants w with
           | t :: ts => (put_instants ts w, Some t)
           | [] => (w, Some (observed_time (w_elector w)))
           end.
Definition utc_now : Task S Z :=
  fun w => match w_utc w with t :: ts => (put_utc ts w, Some t) | [] => (w, Some 0) end.

(** ** The lock *)

Definition lock_get : Task S (result KubeError LeaderElectionRecord) :=
  wait r := call lease_get in
  match r with
  | Err e => done (Err e)
  | Ok lease =>
      updates (fun w => put_elector (set_lease (Some lease) (w_elector w)) w) ;;
      done (Ok (lease_spec_to_record from_timestamp (lease_spec lease)))
  end.

Definition lock_create (record : LeaderElectionRecord) : Task S (result KubeError unit) :=
  wait r := call (fun s => lease_create s (record_to_lease_spec timestamp_new record)) in
  match r with
  | Err e => done (Err e)
  | Ok lease =>
      updates (fun w => put_elector (set_lease (Some lease) (w_elector w)) w) ;;
      done (Ok tt)
  end.

Definition kube_error_text (e : KubeError) : string :=
  match e with
  | ApiError code => "ApiError: " +:+ pretty code
  | TransportError m => m
  end.

Definition lock_update (record : LeaderElectionRecord) : Task S (result string unit) :=
  wait cached := reads (fun w => lock_lease (el_lock (w_elector w))) in
  match cached with
  | None => done (Err "lease not initialized, call get or create first")
  | Some lease =>
      let lease := mkLease (lease_version lease)
                     (Some (record_to_lease_spec timestamp_new record)) in
      wait r := call (fun s => lease_replace s lease) in
      match r with
      | Err e => done (Err (kube_error_text e))
      | Ok updated =>
          updates (fun w => put_elector (set_lease (Some updated) (w_elector w)) w) ;;
          done (Ok tt)
      end
  end.

(** ** The elector *)

(** [LeaderElector::new]. *)
Definition new_elector (lock : LeaseLock) (config : LeaderElectionConfig) (now : Z)
  : LeaderElector := mkElector lock config LeaderElectionRecord_default None now.

Definition is_leader (e : LeaderElector) : bool :=
  String.eqb (holder_identity (observed_record e)) (lock_identity (el_lock e)).

Definition is_lease_valid (e : LeaderElector) (now : Z) : bool :=
  now <? observed_time e
         + Z.max (lease_duration_seconds (observed_record e)) 0 * NANOS.

Definition set_observed_record (record : LeaderElectionRecord) : Task S unit :=
  wait now := instant_now in
  updates (fun w => put_elector (set_observed record now (w_elector w)) w).

(** Whether the record was written by this contender and is still valid. *)
Definition lease_valid_now : Task S bool :=
  wait now := instant_now in
  reads (fun w => is_lease_valid (w_elector w) now).

(** The record a contender writes, before its transitions are settled. *)
Definition own_record (e : LeaderElector) (now : Z) : LeaderElectionRecord :=
  mkRecord (lock_identity (el_lock e)) (lease_duration (el_config e) `div` NANOS)
    (Some now) (Some now) 0.

Definition with_term (record : LeaderElectionRecord) (acquired : option Z) (transitions : Z)
  : LeaderElectionRecord :=
  mkRecord (holder_identity record) (lease_duration_seconds record) acquired
    (renew_time record) transitions.

(** Step 1: the optimistic update; whether it settled the call. *)
Definition fast_path (record : LeaderElectionRecord) : Task S bool :=
  wait e := reads w_elector in
  if negb (is_leader e) then done false else
  wait valid := lease_valid_now in
  if negb valid then done false else
  let old := observed_record e in
  let record := with_term record (acquire_time old) (leader_transitions old) in
  wait r := lock_update record in
  match r with
  | Ok _ => set_observed_record record ;; done true
  | Err _ => done false
  end.

(** Steps 3 and 4: the record [old] was read. *)
Definition settle (record old : LeaderElectionRecord) : Task S bool :=
  wait e := reads w_elector in
  (if bool_decide (observed_raw e = Some old) then done tt
   else set_observed_record old ;;
        updates (fun w => put_elector (set_raw (Some old) (w_elector w)) w)) ;;
  wait e := reads w_elector in
  wait held :=
    (if String.eqb (holder_identity old) "" then done false
     else wait valid := lease_valid_now in done (valid && negb (is_leader e))) in
  if (held : bool) then done false else
  let record :=
    if is_leader e then with_term record (acquire_time old) (leader_transitions old)
    else with_term record (acquire_time record) (leader_transitions old + 1) in
  wait r := lock_update record in
  match r with
  | Err _ => done false
  | Ok _ => set_observed_record record ;; done true
  end.

Definition try_acquire_or_renew : Task S bool :=
  wait now := utc_now in
  wait e := reads w_elector in
  let record := own_record e now in
  wait fast := fast_path record in
  if (fast : bool) then done true else
  wait old := lock_get in
  match old with
  | Err err =>
      if is_not_found err then
        wait r := lock_create record in
        match r with
        | Err _ => done false
        | Ok _ => set_observed_record record ;; done true
        end
      else done false
  | Ok old => settle record old
  end.

Definition release : Task S bool :=
  wait e := reads w_elector in
  if negb (is_leader e) then done true else
  wait now := utc_now in
  let record := mkRecord "" 1 (Some now) (Some now)
                  (leader_transitions (observed_record e)) in
  wait r := dropped (lock_update record) in
  match r with
  | Some (Ok _) => set_observed_record record ;; done true
  | _ => done false
  end.

(** ** The loops *)

(** Whether the next check or wait was ended by a cancellation (or, inside
    [renew], by the deadline). *)
Definition interrupted : Task S bool :=
  fun w => match w_interrupts w with
           | b :: bs => (put_interrupts bs w, Some b)
           | [] => (w, Some true)
           end.

(** [None] when the fuel runs out. *)
Fixpoint acquire (fuel : nat) : Task S (option bool) :=
  match fuel with
  | O => done None
  | Datatypes.S fuel =>
      wait cancelled := interrupted in
      if (cancelled : bool) then done (Some false) else
      wait succeeded := dropped try_acquire_or_renew in
      match succeeded with
      | None => done (Some false)
      | Some true => done (Some true)
      | Some false =>
          wait cancelled := interrupted in
          if (cancelled : bool) then done (Some false) else acquire fuel
      end
  end.

(** The inner loop of [renew]: whether the lease was renewed. *)
Fixpoint renew_once (fuel : nat) : Task S (option bool) :=
  match fuel with
  | O => done None
  | Datatypes.S fuel =>
      wait renewed := dropped try_acquire_or_renew in
      match renewed with
      | None => done (Some false)
      | Some true => done (Some true)
      | Some false =>
          wait ended := interrupted in
          if (ended : bool) then done (Some false) else renew_once fuel
      end
  end.

Fixpoint renew_loop (fuel : nat) : Task S (option unit) :=
  match fuel with
  | O => done None
  | Datatypes.S fuel =>
      wait cancelled := interrupted in
      if (cancelled : bool) then done (Some tt) else
      wait renewed := renew_once fuel in
      match renewed with
      | None => done None
      | Some false => done (Some tt)
      | Some true =>
          wait cancelled := interrupted in
          if (cancelled : bool) then done (Some tt) else renew_loop fuel
      end
  end.

Definition renew (fuel : nat) : Task S (option unit) :=
  wait ended := renew_loop fuel in
  match ended with
  | None => done None
  | Some _ =>
      wait e := reads w_elector in
      (if release_on_cancel (el_config e) then wait _ := release in done tt else done tt) ;;
      done (Some tt)
  end.

Definition report (ev : TermEvent) : Task S unit :=
  updates (fun w => put_events (w_events w ++ [ev]) w).

(** [LeaderElector::run]: one term. *)
Definition run_term (fuel : nat) : Task S (option unit) :=
  wait acquired := acquire fuel in
  match acquired with
  | None => done None
  | Some true =>
      report StartedLeading ;;
      wait ended := renew fuel in
      match ended with
      | None => done None
      | Some _ => report StoppedLeading ;; done (Some tt)
      end
  | Some false => report StoppedLeading ;; done (Some tt)
  end.
End Contender.

(** ** The elector of the process (Elector) *)

Inductive ClusterError : Type := GetLease (e : KubeError).

Section Elector.
Context {S : Type} `{LeaseApi S}.

Definition leader_identity (s : S) : S * result ClusterError string :=
  let '(s, r) := lease_get s in
  (s, match r with
      | Ok lease => Ok (default "" (lease_spec lease ≫= spec_holder_identity))
      | Err e => if is_not_found e then Ok "" else Err (GetLease e)
      end).

Definition fencing_token (s : S) : S * result ClusterError Z :=
  let '(s, r) := lease_get s in
  (s, match r with
      | Ok lease => Ok (default 0 (lease_spec lease ≫= spec_lease_transitions))
      | Err e => if is_not_found e then Ok 0 else Err (GetLease e)
      end).
End Elector.

(** [term_cancel] holds the token of the current term, and whether it was
    cancelled. *)
Record TermState := mkTerm {
  leading : bool;
  stepping_down : bool;
  term_cancel : option bool;
}.

Definition TermState_default : TermState := mkTerm false false None.

Definition step_down (st : TermState) : TermState * bool :=
  match term_cancel st with
  | None => (st, false)
  | Some _ =>
      if negb (leading st) then (st, false)
      else (mkTerm (leading st) true (Some true), true)
  end.

(** The parts of [Elector::run]: the start of a term, the callbacks, and the
    end of a term with the back-off before the next. *)
Definition begin_term (st : TermState) : TermState :=
  mkTerm (leading st) (stepping_down st) (Some false).
Definition on_started (st : TermState) : TermState :=
  mkTerm true (stepping_down st) (term_cancel st).
Definition on_stopped (st : TermState) : TermState :=
  mkTerm false (stepping_down st) (term_cancel st).
Definition end_term (c : LeaderElectionConfig) (st : TermState) : TermState * Z :=
  if stepping_down st
  then (mkTerm (leading st) false None, lease_duration c + retry_period c)
  else (mkTerm (leading st) (stepping_down st) None, retry_period c).

(** Where [Elector::run] is. *)
Inductive TermPhase : Type := Idle | Contending | Leading | Stopped.

Inductive elector_step (c : LeaderElectionConfig)
  : TermPhase * TermState -> TermPhase * TermState -> Prop :=
| elector_begin st : elector_step c (Idle, st) (Contending, begin_term st)
| elector_started st : elector_step c (Contending, st) (Leading, on_started st)
| elector_stopped ph st : ph = Contending \/ ph = Leading ->
    elector_step c (ph, st) (Stopped, on_stopped st)
| elector_end st : elector_step c (Stopped, st) (Idle, (end_term c st).1)
| elector_step_down ph st : elector_step c (ph, st) (ph, (step_down st).1).
