(* ===== verification/Lease.v ===== *)
(** * Leadership terms (cluster.rs)

    Every write of a contender to the Lease is a renewal or a release by its
    holder, or an acquisition that raises the transition counter by one.  The
    counter is therefore a fencing token: no two contenders ever lead under the
    same value of it. *)

From stdpp Require Import prelude list strings pretty relations.
From Stdlib Require Import ZArith Lia.
From S2P Require Import Prelude Bytes Election.

#[local] Open Scope task_scope.

(** ** What contenders may do to the Lease *)

(** One write of a contender named [id], on the records read back. *)
Inductive lease_step : option LeaderElectionRecord -> option LeaderElectionRecord -> Prop :=
| lease_created id r :
    id <> "" -> holder_identity r = id -> leader_transitions r = 0 -> lease_step None (Some r)
| lease_renewed id r r' :
    id <> "" -> holder_identity r = id -> holder_identity r' = id ->
    leader_transitions r' = leader_transitions r -> lease_step (Some r) (Some r')
| lease_acquired id r r' :
    id <> "" -> holder_identity r <> id -> holder_identity r' = id ->
    leader_transitions r' = leader_transitions r + 1 -> lease_step (Some r) (Some r')
| lease_released r r' :
    holder_identity r <> "" -> holder_identity r' = "" ->
    leader_transitions r' = leader_transitions r -> lease_step (Some r) (Some r').

(** The history of a Lease after it held [r]: the counter only grows, and
    while it does not the holder can only go away. *)
Lemma lease_history r o' :
  rtc lease_step (Some r) o' ->
  exists r', o' = Some r' /\
    (leader_transitions r < leader_transitions r' \/
     (leader_transitions r' = leader_transitions r /\
      (holder_identity r' = holder_identity r \/ holder_identity r' = ""))).
Proof.
  revert o'. apply (rtc_ind_r (fun o' => exists r', o' = Some r' /\
    (leader_transitions r < leader_transitions r' \/
     (leader_transitions r' = leader_transitions r /\
      (holder_identity r' = holder_identity r \/ holder_identity r' = ""))))).
  - exists r. auto.
  - intros o1 o2 _ Hs (r1 & -> & Hr). inversion Hs as [|id r1' r2 Hid Hh Hh' Ht|
      id r1' r2 Hid Hh Hh' Ht|r1' r2 Hh Hh' Ht]; subst; eexists; (split; [reflexivity|]).
    + destruct Hr as [Hr|(Hr & [Hr'|Hr'])]; [left; lia|right|].
      * split; [lia|]. left. congruence.
      * destruct Hid. congruence.
    + left. destruct Hr as [Hr|[Hr _]]; lia.
    + destruct Hr as [Hr|(Hr & _)]; [left; lia|right]. split; [lia|]. by right.
Qed.

Lemma history_some r o' :
  rtc lease_step (Some r) o' -> exists r', o' = Some r' /\ leader_transitions r <= leader_transitions r'.
Proof.
  intros (r' & -> & Hr)%lease_history. exists r'. split; [done|]. destruct Hr as [|[]]; lia.
Qed.

(** ** The API server *)

Section Protocol.
Context {S : Type} `{LeaseApi S} (from_timestamp timestamp_new : Z -> Z -> option Z).

Definition record_of (l : Lease) : LeaderElectionRecord :=
  lease_spec_to_record from_timestamp (lease_spec l).

(** Optimistic concurrency: a version names one object the server returned, and
    a replacement succeeds only on the object its version names.  A failed
    write may have taken effect.  Nobody deletes the Lease. *)
Record LeaseLaws (current : S -> option Lease) (seen : S -> Lease -> Prop) (env : S -> S -> Prop)
  : Prop := {
  env_seen : forall s s' l, env s s' -> seen s l -> seen s' l;
  get_ok : forall s s' l, lease_get s = (s', Ok l) ->
    env s s' /\ current s' = Some l /\ seen s' l;
  get_err : forall s s' e, lease_get s = (s', Err e) ->
    env s s' /\ (is_not_found e = true -> current s' = None);
  create_lands : forall s spec s' r, lease_create s spec = (s', r) ->
    exists s1, env s s1 /\ (forall l, seen s1 l -> seen s' l) /\
      ((exists u, current s1 = None /\ current s' = Some u /\ lease_spec u = Some spec /\ seen s' u /\
         forall l, r = Ok l -> l = u) \/
       (current s' = current s1 /\ exists e, r = Err e));
  replace_lands : forall s l l0 s' r, lease_replace s l = (s', r) ->
    seen s l0 -> lease_version l = lease_version l0 ->
    exists s1, env s s1 /\ (forall l, seen s1 l -> seen s' l) /\
      ((exists u, current s1 = Some l0 /\ current s' = Some u /\ lease_spec u = lease_spec l /\
         seen s' u /\ forall l, r = Ok l -> l = u) \/
       (current s' = current s1 /\ exists e, r = Err e));
}.

Context (current : S -> option Lease) (seen : S -> Lease -> Prop) (env : S -> S -> Prop).
Context (Hlaws : LeaseLaws current seen env).

Definition stored (s : S) : option LeaderElectionRecord := option_map record_of (current s).

(** Everybody else who writes the Lease is a contender too, and leadership
    changes hands fewer than 2^31 - 1 times. *)
Context (Henv : forall s s', env s s' -> rtc lease_step (stored s) (stored s')).
Context (Hsmall : forall s l, seen s l -> 0 <= leader_transitions (record_of l) < i32_max).

(** The record read back after [r] was written. *)
Definition written (r : LeaderElectionRecord) : LeaderElectionRecord :=
  lease_spec_to_record from_timestamp (Some (record_to_lease_spec timestamp_new r)).

Lemma as_i32_id x : i32_min <= x <= i32_max -> as_i32 x = x.
Proof. unfold as_i32, i32_min, i32_max. intros Hx. rewrite Z.mod_small; lia. Qed.

Lemma written_holder r : holder_identity (written r) = holder_identity r.
Proof. done. Qed.

Lemma written_transitions r :
  0 <= leader_transitions r <= i32_max -> leader_transitions (written r) = leader_transitions r.
Proof. intros Hr. apply as_i32_id. unfold i32_min, i32_max in *. lia. Qed.

(** ** What a contender knows *)

Implicit Types w : World S.
Abbreviation T := (Task S).
Abbreviation lock_of w := (lock_lease (el_lock (w_elector w))).
Abbreviation observed w := (observed_record (w_elector w)).
Abbreviation raw w := (observed_raw (w_elector w)).

(** The cached Lease is one the server held, not newer than the current one. *)
Definition lock_ok (s : S) (lock : option Lease) : Prop :=
  forall l, lock = Some l -> seen s l /\
    exists r, stored s = Some r /\ leader_transitions (record_of l) <= leader_transitions r.

Lemma lock_ok_later s s' lock :
  (forall l, seen s l -> seen s' l) -> rtc lease_step (stored s) (stored s') ->
  lock_ok s lock -> lock_ok s' lock.
Proof.
  intros Hs Hr Hl l E. destruct (Hl l E) as (Hseen & r & Er & Hle). split; [auto|].
  rewrite Er in Hr. apply history_some in Hr as (r' & Er' & Hle'). exists r'. split; [done|lia].
Qed.

(** A call: what it did to the store, and that nothing else changed. *)
Lemma call_inv {A} (op : S -> S * A) w w' r :
  call op w = (w', r) ->
  exists a, op (w_api w) = (w_api w', a) /\ w_elector w' = w_elector w /\ (r = Some a \/ r = None).
Proof.
  unfold call. destruct (op (w_api w)) as [s a] eqn:E. destruct w as [? ? ? ? [|[] ds] ? ?]; cbn in *.
  - intros [= <- <-]. exists a. auto.
  - intros [= <- <-]. exists a. auto.
  - intros [= <- <-]. exists a. auto.
Qed.

(** The store moved by steps of contenders, and forgot nothing. *)
Definition moved (s s' : S) : Prop :=
  rtc lease_step (stored s) (stored s') /\ forall l, seen s l -> seen s' l.

#[local] Instance moved_preorder : PreOrder moved.
Proof.
  split; [by intros s|]. intros s1 s2 s3 [H1' H2'] [H3' H4']. split; [by etransitivity|auto].
Qed.

Lemma env_moved s s' : env s s' -> moved s s'.
Proof. intros He. split; [by apply Henv|]. intros l. by apply (env_seen _ _ _ Hlaws). Qed.

Lemma lock_ok_moved s s' lock : moved s s' -> lock_ok s lock -> lock_ok s' lock.
Proof. intros [? ?]. by apply lock_ok_later. Qed.

(** ** The calls of the lock *)

Lemma update_inv record w w' r l :
  lock_of w = Some l -> lock_ok (w_api w) (Some l) ->
  lease_step (Some (record_of l)) (Some (written record)) ->
  lock_update timestamp_new record w = (w', r) ->
  moved (w_api w) (w_api w') /\
  match r with
  | Some (Ok _) => exists u, w_elector w' = set_lease (Some u) (w_elector w) /\
      current (w_api w') = Some u /\ record_of u = written record /\ seen (w_api w') u
  | _ => w_elector w' = w_elector w
  end.
Proof.
  intros Hl Hok Hstep. destruct (Hok l eq_refl) as (Hseen & _).
  unfold lock_update, andthen, reads. rewrite Hl.
  destruct (call _ w) as [w1 r1] eqn:Ec. apply call_inv in Ec as (a & Eop & Eel & Hr).
  apply (replace_lands _ _ _ Hlaws _ _ l) in Eop as (s1 & He & Hs1 & Hland); [|done|done].
  assert (Hm : moved (w_api w) (w_api w1)).
  { etransitivity; [by apply env_moved|]. split; [|done].
    destruct Hland as [(u & E1 & E2 & Eu & _)|(E & _)].
    - unfold stored. rewrite E1, E2. apply rtc_once. cbn. unfold record_of in *.
      rewrite Eu. exact Hstep.
    - unfold stored. by rewrite E. }
  destruct Hr as [->| ->]; [|by intros [= <- <-]].
  destruct a as [u|e]; [|by intros [= <- <-]]. cbn. intros [= <- <-]. split; [done|].
  destruct Hland as [(u' & E1 & E2 & Eu & Hsu & Hu)|(_ & e & He')]; [|done].
  rewrite (Hu u eq_refl). exists u'. cbn. rewrite Eel. split; [done|]. split; [done|].
  split; [|done]. unfold record_of. by rewrite Eu.
Qed.

Lemma create_inv record w w' r :
  holder_identity record <> "" -> leader_transitions record = 0 ->
  lock_create timestamp_new record w = (w', r) ->
  moved (w_api w) (w_api w') /\
  match r with
  | Some (Ok _) => exists u, w_elector w' = set_lease (Some u) (w_elector w) /\
      current (w_api w') = Some u /\ record_of u = written record /\ seen (w_api w') u
  | _ => w_elector w' = w_elector w
  end.
Proof.
  intros Hid H0. unfold lock_create, andthen.
  destruct (call _ w) as [w1 r1] eqn:Ec. apply call_inv in Ec as (a & Eop & Eel & Hr).
  apply (create_lands _ _ _ Hlaws) in Eop as (s1 & He & Hs1 & Hland).
  assert (Hm : moved (w_api w) (w_api w1)).
  { etransitivity; [by apply env_moved|]. split; [|done].
    destruct Hland as [(u & E1 & E2 & Eu & _)|(E & _)].
    - unfold stored. rewrite E1, E2. apply rtc_once. cbn. unfold record_of. rewrite Eu.
      apply (lease_created (holder_identity record)); [done|done|].
      change (leader_transitions (written record) = 0).
      rewrite written_transitions; [done|]. unfold i32_max. lia.
    - unfold stored. by rewrite E. }
  destruct Hr as [->| ->]; [|by intros [= <- <-]].
  destruct a as [u|e]; [|by intros [= <- <-]]. cbn. intros [= <- <-]. split; [done|].
  destruct Hland as [(u' & E1 & E2 & Eu & Hsu & Hu)|(_ & e & He')]; [|done].
  rewrite (Hu u eq_refl). exists u'. cbn. rewrite Eel. split; [done|]. split; [done|].
  split; [|done]. unfold record_of. by rewrite Eu.
Qed.

Lemma get_inv w w' r :
  lock_get from_timestamp w = (w', r) ->
  moved (w_api w) (w_api w') /\
  match r with
  | Some (Ok old) => exists l, w_elector w' = set_lease (Some l) (w_elector w) /\
      current (w_api w') = Some l /\ old = record_of l /\ seen (w_api w') l
  | Some (Err e) => w_elector w' = w_elector w /\
      (is_not_found e = true -> current (w_api w') = None)
  | None => w_elector w' = w_elector w
  end.
Proof.
  unfold lock_get, andthen. destruct (call _ w) as [w1 r1] eqn:Ec.
  apply call_inv in Ec as (a & Eop & Eel & Hr). destruct a as [l|e].
  - apply (get_ok _ _ _ Hlaws) in Eop as (He & Hc & Hs). apply env_moved in He.
    destruct Hr as [->| ->]; [|by intros [= <- <-]]. cbn. intros [= <- <-]. split; [done|].
    exists l. cbn. by rewrite Eel.
  - apply (get_err _ _ _ Hlaws) in Eop as (He & Hc). apply env_moved in He.
    destruct Hr as [->| ->]; by intros [= <- <-].
Qed.

Lemma set_observed_inv r w w' x :
  set_observed_record r w = (w', x) ->
  x = Some tt /\ w_api w' = w_api w /\ exists t, w_elector w' = set_observed r t (w_elector w).
Proof.
  unfold set_observed_record, andthen, instant_now, updates.
  destruct (w_instants w); intros [= <- <-]; eauto.
Qed.

Lemma lease_valid_inv w w' x :
  lease_valid_now w = (w', x) ->
  (exists b, x = Some b) /\ w_api w' = w_api w /\ w_elector w' = w_elector w.
Proof.
  unfold lease_valid_now, andthen, instant_now, reads.
  destruct (w_instants w); intros [= <- <-]; eauto.
Qed.

(** ** The invariant of a contender *)

Record knows (id : string) (s : S) (e : LeaderElector) : Prop := {
  k_id : lock_identity (el_lock e) = id;
  k_lock : lock_ok s (lock_lease (el_lock e));
  k_own : holder_identity (observed_record e) = id ->
    exists l, lock_lease (el_lock e) = Some l /\ holder_identity (record_of l) = id /\
      leader_transitions (record_of l) = leader_transitions (observed_record e);
  k_raw : match observed_raw e with
          | None => observed_record e = LeaderElectionRecord_default \/
                    holder_identity (observed_record e) = id
          | Some r0 =>
              is_Some (lock_lease (el_lock e)) /\
              (holder_identity (observed_record e) <> id -> r0 = observed_record e) /\
              (holder_identity (observed_record e) = id ->
               (holder_identity r0 = id /\
                leader_transitions r0 = leader_transitions (observed_record e)) \/
               leader_transitions r0 < leader_transitions (observed_record e))
          end;
}.

(** The contender leads, and its counter is the stored one. *)
Definition leads (id : string) (s : S) (e : LeaderElector) : Prop :=
  exists u, current s = Some u /\ holder_identity (record_of u) = id /\
    holder_identity (observed_record e) = id /\
    leader_transitions (record_of u) = leader_transitions (observed_record e).

Lemma knows_moved id s s' e : moved s s' -> knows id s e -> knows id s' e.
Proof. intros Hm [H1' H2' H3' H4']. split; try done. by apply (lock_ok_moved s). Qed.

Lemma is_leader_spec id s e :
  knows id s e -> is_leader e = true <-> holder_identity (observed_record e) = id.
Proof. intros Hk. unfold is_leader. rewrite (k_id _ _ _ Hk). apply String.eqb_eq. Qed.

(** After a successful write of [record], read back as [u]. *)
Lemma knows_written id s e u record t :
  lock_identity (el_lock e) = id -> current s = Some u -> seen s u ->
  holder_identity (record_of u) = id -> holder_identity record = id ->
  leader_transitions (record_of u) = leader_transitions record ->
  (forall r0, observed_raw e = Some r0 ->
     (holder_identity r0 = id /\ leader_transitions r0 = leader_transitions record) \/
     leader_transitions r0 < leader_transitions record) ->
  let e' := set_observed record t (set_lease (Some u) e) in
  knows id s e' /\ leads id s e'.
Proof.
  intros Hid Hc Hs Hhu Hh Ht Hraw. split.
  - split; cbn; [done| | |].
    + intros l [= <-]. split; [done|]. exists (record_of u). unfold stored. rewrite Hc. split; [done|lia].
    + intros _. exists u. done.
    + destruct (observed_raw e) as [r0|]; [|by right]. split; [by eexists|]. split; [done|].
      intros _. by apply Hraw.
  - exists u. done.
Qed.

Section One.
Context (id : string) (Hid : id <> "").

(** The end of a successful update. *)
Lemma update_and_lead record l w w' r :
  knows id (w_api w) (w_elector w) -> lock_of w = Some l ->
  holder_identity record = id ->
  lease_step (Some (record_of l)) (Some (written record)) ->
  0 <= leader_transitions record <= i32_max ->
  (forall r0, raw w = Some r0 ->
     (holder_identity r0 = id /\ leader_transitions r0 = leader_transitions record) \/
     leader_transitions r0 < leader_transitions record) ->
  (wait u := lock_update timestamp_new record in
   match u with
   | Ok _ => set_observed_record record ;; done true
   | Err _ => done false
   end) w = (w', r) ->
  moved (w_api w) (w_api w') /\ knows id (w_api w') (w_elector w') /\
  (r = Some true -> leads id (w_api w') (w_elector w')) /\
  (r <> Some true -> w_elector w' = w_elector w).
Proof.
  intros Hk Hl Hh Hstep Ht Hraw. unfold andthen at 1.
  destruct (lock_update timestamp_new record w) as [w1 u] eqn:Eu.
  apply (update_inv _ _ _ _ l) in Eu as [Hm Hu]; [|done|rewrite <- Hl; by apply Hk|done].
  destruct u as [[[]|e]|].
  - destruct Hu as (u & Eel & Hc & Hru & Hs). unfold andthen.
    destruct (set_observed_record record w1) as [w2 x] eqn:Es.
    apply set_observed_inv in Es as (-> & Ea & t & Eo). intros [= <- <-].
    rewrite Ea, Eo, Eel. split; [done|].
    destruct (knows_written id (w_api w1) (w_elector w) u record t) as [Hk' Hld]; try done.
    + by apply Hk.
    + by rewrite Hru.
    + rewrite Hru. by apply written_transitions.
  - intros [= <- <-]. rewrite Hu. split; [done|]. split; [by apply (knows_moved _ (w_api w))|done].
  - intros [= <- <-]. rewrite Hu. split; [done|]. split; [by apply (knows_moved _ (w_api w))|done].
Qed.

Lemma fast_path_spec record w w' r :
  knows id (w_api w) (w_elector w) -> holder_identity record = id ->
  fast_path timestamp_new record w = (w', r) ->
  moved (w_api w) (w_api w') /\ knows id (w_api w') (w_elector w') /\
  (r = Some true -> leads id (w_api w') (w_elector w')).
Proof.
  intros Hk Hh. unfold fast_path, andthen at 1, reads.
  destruct (is_leader (w_elector w)) eqn:El; cbn [negb]; [|by intros [= <- <-]].
  unfold andthen at 1. destruct (lease_valid_now w) as [w1 v] eqn:Ev.
  apply lease_valid_inv in Ev as ((b & ->) & Ea & Ee).
  destruct b; cbn [negb]; [|intros [= <- <-]; by rewrite Ea, Ee].
  apply (is_leader_spec id (w_api w)) in El; [|done].
  destruct (k_own _ _ _ Hk El) as (l & Hl & Hhl & Htl).
  destruct (k_lock _ _ _ Hk l Hl) as (Hs & _). pose proof (Hsmall _ _ Hs) as Hb.
  intros E. apply (update_and_lead _ l) in E.
  - rewrite Ea in E. destruct E as (Hm & Hk' & Hld & _). done.
  - by rewrite Ea, Ee.
  - by rewrite Ee.
  - done.
  - apply (lease_renewed id); [done|done|done|].
    rewrite written_transitions; cbn; unfold i32_max in *; lia.
  - cbn. unfold i32_max in *. lia.
  - intros r0 Hr0. rewrite Ee in Hr0. pose proof (k_raw _ _ _ Hk) as Hr. rewrite Hr0 in Hr.
    destruct Hr as (_ & _ & Hr). cbn. by apply Hr.
Qed.

(** Step 3: what the contender knows after reading [old] from the lease [l]. *)
Definition observes (w w2 : World S) (old : LeaderElectionRecord) : Prop :=
  w_api w2 = w_api w /\ el_lock (w_elector w2) = el_lock (w_elector w) /\ raw w2 = Some old /\
  (holder_identity (observed w2) = id ->
     holder_identity old = id /\ leader_transitions old = leader_transitions (observed w2)) /\
  (holder_identity (observed w2) <> id -> old = observed w2).

Lemma observe_spec old w w' x :
  (forall r0, raw w = Some r0 ->
     (holder_identity (observed w) <> id -> r0 = observed w) /\
     (holder_identity (observed w) = id ->
       (holder_identity r0 = id /\ leader_transitions r0 = leader_transitions (observed w)) \/
       leader_transitions r0 < leader_transitions (observed w))) ->
  (holder_identity (observed w) = id -> leader_transitions (observed w) <= leader_transitions old) ->
  (if bool_decide (raw w = Some old) then done tt
   else set_observed_record old ;;
        updates (fun w => put_elector (set_raw (Some old) (w_elector w)) w)) w = (w', x) ->
  x = Some tt /\ observes w w' old.
Proof.
  intros Hraw Hle. case_bool_decide as Hd.
  - intros [= <- <-]. split; [done|]. destruct (Hraw old Hd) as [Hn Ho].
    split; [done|]. split; [done|]. split; [done|]. split; [|done].
    intros Hi. destruct (Ho Hi) as [|Hlt]; [done|]. specialize (Hle Hi). lia.
  - unfold andthen. destruct (set_observed_record old w) as [w1 y] eqn:Es.
    apply set_observed_inv in Es as (-> & Ea & t & Eo). intros [= <- <-]. split; [done|].
    unfold observes. cbn. rewrite Ea, Eo. done.
Qed.

Lemma settle_spec record l w w' r :
  lock_identity (el_lock (w_elector w)) = id -> holder_identity record = id ->
  lock_of w = Some l -> lock_ok (w_api w) (Some l) ->
  (forall r0, raw w = Some r0 ->
     (holder_identity (observed w) <> id -> r0 = observed w) /\
     (holder_identity (observed w) = id ->
       (holder_identity r0 = id /\ leader_transitions r0 = leader_transitions (observed w)) \/
       leader_transitions r0 < leader_transitions (observed w))) ->
  (holder_identity (observed w) = id ->
     leader_transitions (observed w) <= leader_transitions (record_of l)) ->
  settle timestamp_new record (record_of l) w = (w', r) ->
  moved (w_api w) (w_api w') /\ knows id (w_api w') (w_elector w') /\
  (r = Some true -> leads id (w_api w') (w_elector w')).
Proof.
  intros Hlid Hh Hl Hlok Hraw Hle. unfold settle, andthen at 1, reads.
  unfold andthen at 1.
  match goal with |- context [(if bool_decide ?P then ?a else ?b) w] =>
    destruct ((if bool_decide P then a else b) w) as [w1 x] eqn:E1 end.
  apply observe_spec in E1 as [-> (Ea & Elk & Eraw & Hown & Hother)]; [|done|done].
  assert (Hk : knows id (w_api w1) (w_elector w1)).
  { rewrite Ea. split; rewrite ?Elk; [done|by rewrite Hl| |].
    - intros Hi. destruct (Hown Hi) as [? ?]. exists l. done.
    - rewrite Eraw. split; [by rewrite Hl|]. split; [by apply Hother|].
      intros Hi. left. by apply Hown. }
  rewrite <- Ea. destruct (Hlok l eq_refl) as (Hseen & _). pose proof (Hsmall _ _ Hseen) as Hb.
  unfold andthen at 1. cbv beta iota. unfold andthen at 1.
  match goal with |- context [(if String.eqb ?a "" then ?b else ?c) w1] =>
    destruct ((if String.eqb a "" then b else c) w1) as [w2 held] eqn:E2 end.
  assert (H2' : (exists b, held = Some b) /\ w_api w2 = w_api w1 /\ w_elector w2 = w_elector w1).
  { revert E2. destruct (String.eqb _ ""); [intros [= <- <-]; eauto|].
    unfold andthen. destruct (lease_valid_now w1) as [w3 y] eqn:Ev.
    apply lease_valid_inv in Ev as ((b & ->) & ? & ?). intros [= <- <-]. eauto. }
  destruct H2' as ((b & ->) & Ea2 & Ee2).
  destruct b; [intros [= <- <-]; by rewrite Ea2, Ee2|].
  intros E. rewrite <- Ea2. rewrite <- Ea2, <- Ee2 in Hk.
  assert (Hl2 : lock_of w2 = Some l) by (by rewrite Ee2, Elk).
  destruct (is_leader (w_elector w1)) eqn:El.
  - rewrite <- Ee2 in El. apply (is_leader_spec id (w_api w2)) in El; [|done].
    rewrite Ee2 in El. destruct (Hown El) as [Hho Hto].
    apply (update_and_lead _ l) in E; try done.
    + destruct E as (Hm & Hk' & Hld & _). done.
    + apply (lease_renewed id); [done|done|done|].
      rewrite written_transitions; cbn; unfold i32_max in *; lia.
    + cbn. unfold i32_max in *. lia.
    + intros r0 Hr0. rewrite Ee2, Eraw in Hr0. injection Hr0 as <-. by left.
  - assert (Hnl : holder_identity (observed w1) <> id).
    { intros Hi. rewrite <- Ee2 in El, Hi. apply (is_leader_spec id (w_api w2)) in Hi; [|done].
      congruence. }
    pose proof (Hother Hnl) as Eold.
    apply (update_and_lead _ l) in E; try done.
    + destruct E as (Hm & Hk' & Hld & _). done.
    + apply (lease_acquired id); [done| |done|].
      * by rewrite Eold.
      * rewrite written_transitions; cbn; unfold i32_max in *; lia.
    + cbn. unfold i32_max in *. lia.
    + intros r0 Hr0. rewrite Ee2, Eraw in Hr0. injection Hr0 as <-. right. cbn. lia.
Qed.

Lemma try_spec w w' r :
  knows id (w_api w) (w_elector w) ->
  try_acquire_or_renew from_timestamp timestamp_new w = (w', r) ->
  moved (w_api w) (w_api w') /\ knows id (w_api w') (w_elector w') /\
  (r = Some true -> leads id (w_api w') (w_elector w')).
Proof.
  intros Hk. unfold try_acquire_or_renew, andthen at 1.
  destruct (utc_now w) as [w0 t] eqn:Et.
  assert (Hw0 : (exists now, t = Some now) /\ w_api w0 = w_api w /\ w_elector w0 = w_elector w).
  { revert Et. unfold utc_now. destruct (w_utc w); intros [= <- <-]; eauto. }
  destruct Hw0 as ((now & ->) & Ea0 & Ee0). unfold andthen at 1, reads.
  set (record := own_record (w_elector w0) now).
  assert (Hrec : holder_identity record = id) by (cbn; rewrite Ee0; by apply Hk).
  rewrite <- Ea0, <- Ee0 in Hk. rewrite <- Ea0. clear w Et Ea0 Ee0.
  unfold andthen at 1. destruct (fast_path timestamp_new record w0) as [w1 f] eqn:Ef.
  apply fast_path_spec in Ef as (Hm1 & Hk1 & Hld1); [|done|done].
  destruct f as [[]|]; [intros [= <- <-]; auto| |intros [= <- <-]; done].
  unfold andthen at 1. destruct (lock_get from_timestamp w1) as [w2 g] eqn:Eg.
  apply get_inv in Eg as [Hm2 Hg].
  assert (Hm02 : moved (w_api w0) (w_api w2)) by (by etransitivity).
  destruct g as [[old|e]|].
  - destruct Hg as (l & Eel & Hc & -> & Hs). intros E. apply settle_spec in E.
    + destruct E as (Hm3 & Hk3 & Hld3). split; [by etransitivity|done].
    + rewrite Eel. apply Hk1.
    + done.
    + by rewrite Eel.
    + intros l' [= <-]. split; [done|]. exists (record_of l). unfold stored. rewrite Hc. done.
    + intros r0 Hr0. rewrite Eel in Hr0 |- *. pose proof (k_raw _ _ _ Hk1) as Hr.
      cbn in Hr0. rewrite Hr0 in Hr. destruct Hr as (_ & ? & ?). done.
    + rewrite Eel. cbn. intros Hi. destruct (k_own _ _ _ Hk1 Hi) as (l1 & Hl1 & _ & Ht1).
      destruct (k_lock _ _ _ (knows_moved _ _ _ _ Hm2 Hk1) l1 Hl1) as (_ & rc & Hrc & Hle).
      unfold stored in Hrc. rewrite Hc in Hrc. injection Hrc as <-. lia.
  - destruct Hg as [Eel Hnf]. apply (knows_moved _ _ _ _ Hm2) in Hk1. rewrite <- Eel in Hk1.
    destruct (is_not_found e); [|by intros [= <- <-]]. specialize (Hnf eq_refl).
    assert (Hnone : raw w2 = None).
    { pose proof (k_raw _ _ _ Hk1) as Hr. destruct (raw w2) as [r0|]; [|done].
      destruct Hr as ([l Hl] & _). destruct (k_lock _ _ _ Hk1 l Hl) as (_ & rc & Hrc & _).
      unfold stored in Hrc. by rewrite Hnf in Hrc. }
    unfold andthen at 1. destruct (lock_create timestamp_new record w2) as [w3 c] eqn:Ecr.
    apply create_inv in Ecr as [Hm3 Hcr]; [|by rewrite Hrec|done].
    assert (Hm03 : moved (w_api w0) (w_api w3)) by (by etransitivity).
    destruct c as [[[]|ce]|].
    + destruct Hcr as (u & Eu & Hcu & Hru & Hsu). unfold andthen.
      destruct (set_observed_record record w3) as [w4 x] eqn:Es.
      apply set_observed_inv in Es as (-> & Ea & t & Eo). intros [= <- <-].
      rewrite Ea, Eo, Eu. split; [done|].
      destruct (knows_written id (w_api w3) (w_elector w2) u record t) as [Hk' Hld]; try done.
      * apply Hk1.
      * by rewrite Hru.
      * rewrite Hru. apply written_transitions. cbn. unfold i32_max. lia.
      * intros r0 Hr0. congruence.
    + intros [= <- <-]. rewrite Hcr. split; [done|]. split; [by apply (knows_moved _ (w_api w2))|done].
    + intros [= <- <-]. rewrite Hcr. split; [done|]. split; [by apply (knows_moved _ (w_api w2))|done].
  - intros [= <- <-]. rewrite Hg. split; [done|]. split; [by apply (knows_moved _ (w_api w1))|done].
Qed.

(** ** Whole terms *)

Definition keeps_knowing {A} (m : T A) : Prop :=
  forall w w' r, knows id (w_api w) (w_elector w) -> m w = (w', r) ->
    moved (w_api w) (w_api w') /\ knows id (w_api w') (w_elector w').

Lemma knowing_andthen {A B} (m : T A) (k : A -> T B) :
  keeps_knowing m -> (forall a, keeps_knowing (k a)) -> keeps_knowing (andthen m k).
Proof.
  intros Hm Hk w w' r Hw. unfold andthen. destruct (m w) as [w1 [a|]] eqn:E.
  - intros E2. destruct (Hm _ _ _ Hw E) as [Hm1 Hk1]. destruct (Hk _ _ _ _ Hk1 E2) as [Hm2 Hk2].
    split; [by etransitivity|done].
  - intros [= <- <-]. by apply (Hm _ _ None).
Qed.

Lemma knowing_pure {A} (m : T A) :
  (forall w, w_api (m w).1 = w_api w /\ w_elector (m w).1 = w_elector w) -> keeps_knowing m.
Proof.
  intros Hm w w' r Hw E. destruct (Hm w) as [Ha He]. rewrite E in Ha, He. cbn in *.
  rewrite Ha, He. done.
Qed.

Lemma knowing_try : keeps_knowing (dropped (try_acquire_or_renew from_timestamp timestamp_new)).
Proof.
  intros w w' r Hw. unfold dropped.
  destruct (try_acquire_or_renew _ _ w) as [w1 r1] eqn:E. apply try_spec in E as (? & ? & _); [|done].
  by intros [= <- <-].
Qed.

Lemma knowing_interrupted : keeps_knowing interrupted.
Proof. apply knowing_pure. intros w. unfold interrupted. by destruct (w_interrupts w). Qed.

Lemma knowing_done {A} (a : A) : keeps_knowing (done a).
Proof. by apply knowing_pure. Qed.

Lemma knowing_acquire fuel : keeps_knowing (acquire from_timestamp timestamp_new fuel).
Proof.
  induction fuel as [|fuel IH]; cbn; [apply knowing_done|].
  apply knowing_andthen; [apply knowing_interrupted|]. intros [|]; [apply knowing_done|].
  apply knowing_andthen; [apply knowing_try|]. intros [[|]|]; try apply knowing_done.
  apply knowing_andthen; [apply knowing_interrupted|]. intros [|]; [apply knowing_done|done].
Qed.

Lemma knowing_renew_once fuel : keeps_knowing (renew_once from_timestamp timestamp_new fuel).
Proof.
  induction fuel as [|fuel IH]; cbn; [apply knowing_done|].
  apply knowing_andthen; [apply knowing_try|]. intros [[|]|]; try apply knowing_done.
  apply knowing_andthen; [apply knowing_interrupted|]. intros [|]; [apply knowing_done|done].
Qed.

Lemma knowing_renew_loop fuel : keeps_knowing (renew_loop from_timestamp timestamp_new fuel).
Proof.
  induction fuel as [|fuel IH]; cbn; [apply knowing_done|].
  apply knowing_andthen; [apply knowing_interrupted|]. intros [|]; [apply knowing_done|].
  apply knowing_andthen; [apply knowing_renew_once|]. intros [[|]|]; try apply knowing_done.
  apply knowing_andthen; [apply knowing_interrupted|]. intros [|]; [apply knowing_done|done].
Qed.

(** What is left of the knowledge when a term ends. *)
Definition keeps_lock {A} (m : T A) : Prop :=
  forall w w' r, knows id (w_api w) (w_elector w) -> m w = (w', r) ->
    moved (w_api w) (w_api w') /\ lock_identity (el_lock (w_elector w')) = id /\
    lock_ok (w_api w') (lock_of w').

Lemma knowing_lock {A} (m : T A) : keeps_knowing m -> keeps_lock m.
Proof. intros Hm w w' r Hw E. destruct (Hm _ _ _ Hw E) as [? [? ? _ _]]. done. Qed.

Lemma lock_andthen {A B} (m : T A) (k : A -> T B) :
  keeps_knowing m -> (forall a, keeps_lock (k a)) -> keeps_lock (andthen m k).
Proof.
  intros Hm Hk w w' r Hw. unfold andthen. destruct (m w) as [w1 [a|]] eqn:E.
  - intros E2. destruct (Hm _ _ _ Hw E) as [Hm1 Hk1].
    destruct (Hk _ _ _ _ Hk1 E2) as (Hm2 & Hk2). split; [by etransitivity|done].
  - intros [= <- <-]. by apply (knowing_lock m Hm _ _ None).
Qed.

Lemma lock_release : keeps_lock (release timestamp_new).
Proof.
  intros w w' r Hw. unfold release, andthen at 1, reads.
  destruct (is_leader (w_elector w)) eqn:El; cbn [negb]; [|intros [= <- <-]; split; [done|split; apply Hw]].
  apply (is_leader_spec id (w_api w)) in El; [|done].
  destruct (k_own _ _ _ Hw El) as (l & Hl & Hhl & Htl).
  destruct (k_lock _ _ _ Hw l Hl) as (Hs & _). pose proof (Hsmall _ _ Hs) as Hb.
  unfold andthen at 1. destruct (utc_now w) as [w0 t] eqn:Et.
  assert (Hw0 : (exists now, t = Some now) /\ w_api w0 = w_api w /\ w_elector w0 = w_elector w).
  { revert Et. unfold utc_now. destruct (w_utc w); intros [= <- <-]; eauto. }
  destruct Hw0 as ((now & ->) & Ea0 & Ee0). rewrite <- Ea0. rewrite <- Ea0, <- Ee0 in Hw.
  rewrite <- Ee0 in Hl. unfold andthen at 1, dropped.
  destruct (lock_update timestamp_new _ w0) as [w1 u] eqn:Eu.
  apply (update_inv _ _ _ _ l) in Eu as [Hm Hu]; [|done|rewrite <- Hl; by apply Hw|].
  2:{ apply lease_released; [congruence|done|]. rewrite written_transitions; cbn; [congruence|].
      unfold i32_max in *. lia. }
  assert (Hsame : w_elector w1 = w_elector w0 ->
    lock_identity (el_lock (w_elector w1)) = id /\ lock_ok (w_api w1) (lock_of w1)).
  { intros ->. split; [apply Hw|]. apply (lock_ok_moved _ _ _ Hm), Hw. }
  destruct u as [[[]|e]|]; [|intros [= <- <-]; auto..].
  destruct Hu as (u & Eel & Hc & Hru & Hsu). unfold andthen.
  destruct (set_observed_record _ w1) as [w2 x] eqn:Es.
  apply set_observed_inv in Es as (-> & Ea & t & Eo). intros [= <- <-]. rewrite Ea, Eo, Eel.
  split; [done|]. split; [apply Hw|]. intros l' [= <-]. split; [done|]. exists (record_of u).
  unfold stored. rewrite Hc. split; [done|lia].
Qed.

Lemma lock_done {A} (a : A) : keeps_lock (done a).
Proof. apply knowing_lock, knowing_done. Qed.

Lemma lock_then_done {A B} (m : T A) (k : A -> T B) :
  keeps_lock m ->
  (forall a w, w_api (k a w).1 = w_api w /\ w_elector (k a w).1 = w_elector w) ->
  keeps_lock (andthen m k).
Proof.
  intros Hm Hk w w' r Hw. unfold andthen. destruct (m w) as [w1 [a|]] eqn:E.
  - intros E2. destruct (Hk a w1) as [Ha He]. rewrite E2 in Ha, He. cbn in Ha, He.
    rewrite Ha, He. by apply (Hm _ _ _ Hw E).
  - intros [= <- <-]. by apply (Hm _ _ None).
Qed.

Lemma lock_renew fuel : keeps_lock (renew from_timestamp timestamp_new fuel).
Proof.
  unfold renew. apply lock_andthen; [apply knowing_renew_loop|]. intros [[]|]; [|apply lock_done].
  apply lock_andthen; [by apply knowing_pure|]. intros e.
  apply lock_then_done; [|done]. destruct (release_on_cancel _); [|apply lock_done].
  apply lock_then_done; [apply lock_release|done].
Qed.

Lemma lock_run_term fuel : keeps_lock (run_term from_timestamp timestamp_new fuel).
Proof.
  unfold run_term. apply lock_andthen; [apply knowing_acquire|]. intros [[|]|]; [| |apply lock_done].
  - apply lock_andthen; [by apply knowing_pure|]. intros _.
    apply lock_then_done; [apply lock_renew|]. by intros [|].
  - apply lock_then_done; [apply knowing_lock; by apply knowing_pure|done].
Qed.

(** A new term starts with what the lock knows. *)
Lemma new_elector_knows s lock config now :
  lock_identity lock = id -> lock_ok s (lock_lease lock) ->
  knows id s (new_elector lock config now).
Proof.
  intros Hi Hl. split; cbn; [done|done|done|by left].
Qed.
End One.

(** A contender never breaks the protocol.  Over a whole term - contending,
    leading and releasing, with any calls failing, taking effect unnoticed or
    dropped half-way - every change it makes to the Lease is a creation, a
    renewal or a release by its holder, or an acquisition that raises the
    transition counter by one; and the lock it keeps is fit for its next
    term. *)
Theorem term_keeps_protocol id fuel config now w w' r :
  id <> "" -> lock_identity (el_lock (w_elector w)) = id -> lock_ok (w_api w) (lock_of w) ->
  w_elector w = new_elector (el_lock (w_elector w)) config now ->
  run_term from_timestamp timestamp_new fuel w = (w', r) ->
  rtc lease_step (stored (w_api w)) (stored (w_api w')) /\
  lock_identity (el_lock (w_elector w')) = id /\ lock_ok (w_api w') (lock_of w').
Proof.
  intros Hid Hi Hl He E.
  assert (Hk : knows id (w_api w) (w_elector w)) by (rewrite He; by apply new_elector_knows).
  destruct (lock_run_term id Hid fuel _ _ _ Hk E) as ([Hm _] & Hlock). done.
Qed.

(** C25: The transition counter is a fencing token.  If a contender acquired or
    renewed the Lease, and later, after any writes of contenders, another one
    did, the later counter is not smaller, and it is the same only if they are
    the same contender; the later one is the holder of the stored Lease. *)
Theorem fencing_token_unique a b wa wa' wb wb' :
  a <> "" -> b <> "" ->
  knows a (w_api wa) (w_elector wa) -> knows b (w_api wb) (w_elector wb) ->
  try_acquire_or_renew from_timestamp timestamp_new wa = (wa', Some true) ->
  rtc lease_step (stored (w_api wa')) (stored (w_api wb)) ->
  try_acquire_or_renew from_timestamp timestamp_new wb = (wb', Some true) ->
  let token w := leader_transitions (observed w) in
  token wa' <= token wb' /\ (token wa' = token wb' -> a = b) /\
  option_map holder_identity (stored (w_api wb')) = Some b.
Proof.
  intros Ha Hb Hka Hkb Ea Hbetween Eb.
  apply (try_spec a Ha) in Ea as (_ & _ & Hla); [|done].
  apply (try_spec b Hb) in Eb as ([Hm _] & _ & Hlb); [|done].
  destruct (Hla eq_refl) as (ua & Hca & Hha & _ & Hta).
  destruct (Hlb eq_refl) as (ub & Hcb & Hhb & _ & Htb). cbn zeta.
  assert (Hhist : rtc lease_step (Some (record_of ua)) (Some (record_of ub))).
  { etransitivity; [|etransitivity; [exact Hbetween|]].
    - unfold stored. by rewrite Hca.
    - unfold stored at 2 in Hm. by rewrite Hcb in Hm. }
  apply lease_history in Hhist as (r & [= <-] & Hr). rewrite <- Hta, <- Htb.
  split; [destruct Hr as [|[]]; lia|]. split.
  - intros Heq. destruct Hr as [?|(_ & [Hh|Hh])]; [lia|congruence|congruence].
  - unfold stored. by rewrite Hcb, <- Hhb.
Qed.
End Protocol.

(** ** Giving leadership up by hand *)

(** The states of [Elector::run]. *)
Definition elector_inv (ps : TermPhase * TermState) : Prop :=
  let '(ph, st) := ps in
  (leading st = true <-> ph = Leading) /\ (term_cancel st = None <-> ph = Idle) /\
  (stepping_down st = true -> ph <> Contending /\ term_cancel st = Some true).

Lemma elector_step_inv c ps ps' : elector_step c ps ps' -> elector_inv ps -> elector_inv ps'.
Proof.
  intros Hs. destruct Hs as [[l s t]|[l s t]|ph [l s t] Hph|[l s t]|ph [l s t]]; cbn.
  - intros (Hl & Ht & Hsd). destruct s.
    + destruct (Hsd eq_refl) as [_ H1']. destruct Ht as [_ Ht]. by rewrite Ht in H1'.
    + split; [destruct l; intuition congruence|]. by split.
  - intros (Hl & Ht & Hsd). split; [done|]. split; [intuition congruence|].
    intros ->. by destruct (Hsd eq_refl).
  - intros (Hl & Ht & Hsd). split; [done|]. split; [destruct Hph as [->| ->]; intuition congruence|].
    intros ->. by destruct (Hsd eq_refl).
  - intros (Hl & Ht & Hsd). assert (l = false) as -> by (destruct l; [destruct Hl; intuition congruence|done]).
    destruct s; cbn; by split_and!.
  - unfold step_down. cbn. intros (Hl & Ht & Hsd). destruct t as [tc|]; [|done].
    destruct l; cbn; [|done]. split; [done|]. split; [intuition congruence|].
    intros _. split; [|done]. destruct Hl as [Hl _]. by rewrite (Hl eq_refl).
Qed.

(** A manual step-down hands over.  In every reachable state of the elector
    [step_down] answers true exactly while the process leads; it then cancels
    the current term, and the pause before the process contends again is a
    whole lease duration longer than after any other end of a term. *)
Theorem step_down_hands_over c ph st :
  rtc (elector_step c) (Idle, TermState_default) (ph, st) ->
  ((step_down st).2 = true <-> ph = Leading) /\
  ((step_down st).2 = true -> term_cancel (step_down st).1 = Some true) /\
  (ph = Stopped -> end_term c st =
     (TermState_default, (if stepping_down st then lease_duration c else 0) + retry_period c)) /\
  (ph = Idle -> stepping_down st = false).
Proof.
  intros Hr. assert (Hi : elector_inv (ph, st)).
  { revert Hr. generalize (ph, st). apply rtc_ind_r; [by split_and!|].
    intros ps ps' _ Hs Hi. by apply (elector_step_inv c ps). }
  destruct Hi as (Hl & Ht & Hsd). destruct st as [l s t]. unfold step_down. cbn in *.
  split.
  - destruct t as [tc|]; cbn.
    + destruct l; cbn; [intuition congruence|]. split; [done|]. intros Hph. by apply Hl in Hph.
    + split; [done|]. intros ->. by destruct Ht as [Ht _]; specialize (Ht eq_refl).
  - split; [destruct t; [destruct l|]; done|]. split.
    + intros ->. assert (l = false) as -> by (destruct l; [destruct Hl; intuition congruence|done]).
      by destruct s.
    + intros ->. destruct s; [|done]. destruct (Hsd eq_refl) as [_ Hc].
      destruct Ht as [_ Ht]. by rewrite Ht in Hc.
Qed.

(** ** A concrete API server *)

(** The specs the Lease had, newest first; the version is their number. *)
Definition spec_ok (sp : LeaseSpec) : bool :=
  match spec_lease_transitions sp with
  | Some t => (0 <=? t) && (t <? i32_max)
  | None => true
  end.

Definition lease_log : Type := list LeaseSpec.

Definition log_specs (s : lease_log) : list LeaseSpec := filter (fun sp => spec_ok sp = true) s.

Definition log_lease (specs : list LeaseSpec) : option Lease :=
  match specs with
  | [] => None
  | sp :: _ => Some (mkLease (pretty (length specs)) (Some sp))
  end.

Definition log_push (s : lease_log) (sp : LeaseSpec) : lease_log * result KubeError Lease :=
  if spec_ok sp
  then (sp :: s, Ok (mkLease (pretty (Datatypes.S (length (log_specs s)))) (Some sp)))
  else (s, Err (ApiError 422)).

#[export] Instance log_api : LeaseApi lease_log := {|
  lease_get s := (s, match log_lease (log_specs s) with
                     | Some l => Ok l
                     | None => Err (ApiError 404)
                     end);
  lease_create s sp := match log_specs s with
                       | [] => log_push s sp
                       | _ => (s, Err (ApiError 409))
                       end;
  lease_replace s l := match log_lease (log_specs s), lease_spec l with
                       | Some cur, Some sp =>
                           if String.eqb (lease_version cur) (lease_version l) then log_push s sp
                           else (s, Err (ApiError 409))
                       | _, _ => (s, Err (ApiError 404))
                       end;
|}.

Definition log_current (s : lease_log) : option Lease := log_lease (log_specs s).
Definition log_seen (s : lease_log) (l : Lease) : Prop :=
  exists specs, specs `suffix_of` log_specs s /\ log_lease specs = Some l.

Lemma log_push_spec s sp s' r :
  log_push s sp = (s', r) ->
  (exists u, log_current s' = Some u /\ lease_spec u = Some sp /\ log_seen s' u /\
     (forall l, r = Ok l -> l = u) /\ (forall l, log_seen s l -> log_seen s' l)) \/
  (s' = s /\ exists e, r = Err e).
Proof.
  unfold log_push. destruct (spec_ok sp) eqn:Eok; intros [= <- <-]; [|right; eauto]. left.
  assert (Hspecs : log_specs (sp :: s) = sp :: log_specs s).
  { exact (filter_cons_True (fun sp => spec_ok sp = true) sp s Eok). }
  exists (mkLease (pretty (Datatypes.S (length (log_specs s)))) (Some sp)).
  unfold log_current, log_seen. rewrite Hspecs. split; [done|]. split; [done|].
  split; [by exists (sp :: log_specs s)|]. split; [by intros l [= <-]|].
  intros l (specs & Hsuf & Hl). exists specs. split; [by apply suffix_cons_r|done].
Qed.

Definition log_env (s s' : lease_log) : Prop := s' = s.

Lemma log_laws : LeaseLaws log_current log_seen log_env.
Proof.
  split; unfold log_env.
  - by intros s s' l ->.
  - intros s s' l. cbn. destruct (log_lease (log_specs s)) as [l0|] eqn:E; [|done].
    intros [= <- <-]. split; [done|]. split; [done|]. by exists (log_specs s).
  - intros s s' e. cbn. destruct (log_lease (log_specs s)) as [l0|] eqn:E; [done|].
    intros [= <- <-]. split; [done|]. intros _. exact E.
  - intros s sp s' r. cbn. destruct (log_specs s) as [|sp0 rest] eqn:E.
    + intros Hp. exists s. split; [done|].
      apply log_push_spec in Hp as [(u & ? & ? & ? & ? & ?)|[-> ?]]; [|by split; [|right]].
      split; [done|]. left. exists u. split; [|done]. unfold log_current. by rewrite E.
    + intros [= <- <-]. exists s. split; [done|]. split; [done|]. right. eauto.
  - intros s l l0 s' r. cbn. intros Hr (specs & Hsuf & Hl0) Hv. exists s. split; [done|].
    revert Hr. destruct (log_lease (log_specs s)) as [cur|] eqn:E;
      [|intros [= <- <-]; split; [done|right; eauto]].
    destruct (lease_spec l) as [sp|]; [|intros [= <- <-]; split; [done|right; eauto]].
    destruct (String.eqb_spec (lease_version cur) (lease_version l)) as [Hc|];
      [|intros [= <- <-]; split; [done|right; eauto]].
    intros Hp. apply log_push_spec in Hp as [(u & ? & ? & ? & ? & ?)|[-> ?]]; [|by split; [|right]].
    split; [done|]. left. exists u. split; [|done]. unfold log_current.
    assert (Hlen : specs = log_specs s).
    { rewrite Hv in Hc. destruct Hsuf as [pre Epre]. rewrite Epre in E.
      destruct specs as [|sp1 rest]; [done|]. cbn [log_lease] in Hl0. injection Hl0 as <-.
      destruct (pre ++ sp1 :: rest) as [|sp2 rest2] eqn:Ep; [done|]. injection E as <-.
      cbn [lease_version] in Hc. apply (inj pretty) in Hc.
      assert (Hpre : length pre = O).
      { apply (f_equal length) in Ep. rewrite length_app in Ep. cbn in Ep, Hc. lia. }
      apply nil_length_inv in Hpre as ->. cbn in Ep. by rewrite Epre, Ep. }
    by rewrite <- Hlen.
Qed.

Lemma log_env_steps ft s s' :
  log_env s s' -> rtc lease_step (stored ft log_current s) (stored ft log_current s').
Proof. by intros ->. Qed.

Lemma log_small ft s l :
  log_seen s l -> 0 <= leader_transitions (record_of ft l) < i32_max.
Proof.
  intros (specs & [pre Hpre] & Hl). destruct specs as [|sp specs]; [done|]. injection Hl as <-.
  assert (Hin : sp ∈ log_specs s) by (rewrite Hpre; set_solver).
  apply list_elem_of_filter in Hin as [Hok _]. unfold spec_ok in Hok. cbn.
  destruct (spec_lease_transitions sp) as [t|]; cbn; [|unfold i32_max; lia].
  apply andb_true_iff in Hok as [?%Z.leb_le ?%Z.ltb_lt]. lia.
Qed.

(** Seconds and nanoseconds, unbounded. *)
Definition demo_time (secs nanos : Z) : option Z := Some (secs * NANOS + nanos).

Definition demo_election : LeaderElectionConfig :=
  mkElection (15 * NANOS) (10 * NANOS) (2 * NANOS) true.

(** A contender at its first term; the clock is at [t] seconds. *)
Definition contender (id : string) (s : lease_log) (t : Z) (rounds : list bool) : World lease_log :=
  mkWorld s (new_elector (mkLock id None) demo_election (t * NANOS))
    (repeat (t * NANOS) 10) (repeat (t * NANOS) 10) [] rounds [].

Lemma contender_knows id s t rounds :
  id <> "" -> knows demo_time log_current log_seen id s (w_elector (contender id s t rounds)).
Proof. intros Hid. by apply new_elector_knows. Qed.

(** One term that acquires the free Lease, renews it once and releases it. *)
Lemma term_keeps_protocol_witness :
  let w := contender "forklift-0" [] 100 [false; false; false; true] in
  match run_term demo_time demo_time 5 w with
  | (w', Some (Some _)) =>
      w_events w' = [StartedLeading; StoppedLeading] /\
      rtc lease_step (stored demo_time log_current (w_api w)) (stored demo_time log_current (w_api w'))
  | _ => False
  end.
Proof.
  cbv zeta. set (w := contender "forklift-0" [] 100 [false; false; false; true]).
  assert (Hok : match run_term demo_time demo_time 5 w with
                | (w', Some (Some _)) => w_events w' = [StartedLeading; StoppedLeading]
                | _ => False
                end) by (vm_compute; reflexivity).
  destruct (run_term demo_time demo_time 5 w) as [w' [[u|]|]] eqn:E; [|exact Hok..].
  split; [exact Hok|].
  apply (term_keeps_protocol demo_time demo_time log_current log_seen log_env log_laws
           (log_env_steps demo_time) (log_small demo_time) "forklift-0" 5 demo_election
           (100 * NANOS) w w' (Some (Some u))).
  - discriminate.
  - reflexivity.
  - intros l Hl. discriminate Hl.
  - reflexivity.
  - exact E.
Defined.

(** The Lease after the first contender acquired it, and long after. *)
Definition first_leader : World lease_log :=
  (try_acquire_or_renew demo_time demo_time (contender "forklift-0" [] 100 [])).1.
Definition second_contender : World lease_log :=
  (try_acquire_or_renew demo_time demo_time (contender "forklift-1" (w_api first_leader) 110 [])).1.
Definition later (w : World lease_log) : World lease_log :=
  mkWorld (w_api w) (w_elector w) (repeat (200 * NANOS) 10) (repeat (200 * NANOS) 10) [] [] [].

Lemma second_knows :
  knows demo_time log_current log_seen "forklift-1" (w_api (later second_contender))
    (w_elector (later second_contender)).
Proof.
  pose proof (contender_knows "forklift-1" (w_api first_leader) 110 [] ltac:(done)) as Hk.
  unfold second_contender.
  destruct (try_acquire_or_renew demo_time demo_time
              (contender "forklift-1" (w_api first_leader) 110 [])) as [w' r] eqn:E.
  apply (try_spec demo_time demo_time log_current log_seen log_env log_laws
           (log_env_steps demo_time) (log_small demo_time) "forklift-1") in E as (_ & Hk' & _);
    [exact Hk'|done|exact Hk].
Qed.

Lemma fencing_token_unique_witness :
  let token w := leader_transitions (observed_record (w_elector w)) in
  match try_acquire_or_renew demo_time demo_time (contender "forklift-0" [] 100 []),
        try_acquire_or_renew demo_time demo_time (later second_contender) with
  | (wa', Some true), (wb', Some true) =>
      token wa' <= token wb' /\ (token wa' = token wb' -> "forklift-0" = "forklift-1") /\
      token wb' = 1
  | _, _ => False
  end.
Proof.
  cbv zeta.
  assert (Hok : match (try_acquire_or_renew demo_time demo_time (contender "forklift-0" [] 100 [])).2,
                      (try_acquire_or_renew demo_time demo_time (later second_contender)).2,
                      leader_transitions (observed_record (w_elector
                        (try_acquire_or_renew demo_time demo_time (later second_contender)).1)) with
                | Some true, Some true, t => t = 1
                | _, _, _ => False
                end) by (vm_compute; reflexivity).
  assert (Hapi : w_api (later second_contender) =
                 w_api (try_acquire_or_renew demo_time demo_time (contender "forklift-0" [] 100 [])).1)
    by (vm_compute; reflexivity).
  destruct (try_acquire_or_renew demo_time demo_time (contender "forklift-0" [] 100 []))
    as [wa' [[]|]] eqn:Ea; [|destruct Hok..].
  destruct (try_acquire_or_renew demo_time demo_time (later second_contender))
    as [wb' [[]|]] eqn:Eb; [|destruct Hok..]. cbn [fst snd] in Hok, Hapi.
  destruct (fencing_token_unique demo_time demo_time log_current log_seen log_env log_laws
              (log_env_steps demo_time) (log_small demo_time) "forklift-0" "forklift-1"
              (contender "forklift-0" [] 100 []) wa' (later second_contender) wb') as (Hle & Heq & _);
    [discriminate|discriminate|by apply contender_knows|exact second_knows|exact Ea| |exact Eb|].
  - rewrite Hapi. reflexivity.
  - split; [exact Hle|]. split; [exact Heq|exact Hok].
Defined.

Lemma step_down_hands_over_witness :
  exists st, rtc (elector_step demo_election) (Idle, TermState_default) (Stopped, st) /\
    end_term demo_election st = (TermState_default, 17 * NANOS).
Proof.
  set (st := mkTerm false true (Some true)).
  assert (Hr : rtc (elector_step demo_election) (Idle, TermState_default) (Stopped, st)).
  { eapply rtc_l; [apply elector_begin|]. eapply rtc_l; [apply elector_started|].
    eapply rtc_l; [apply elector_step_down|]. eapply rtc_l; [apply elector_stopped; by right|].
    reflexivity. }
  exists st. split; [exact Hr|].
  apply (step_down_hands_over demo_election Stopped st Hr). reflexivity.
Defined.
