(* ===== verification/Authz.v ===== *)
(** * Authorization (auth/authz.rs)

    Principals, the action vocabulary, the glob matcher of repository
    patterns, and the validation of token scopes and of names (api/auth.rs,
    api.rs).  The matcher is proved equal to the textbook meaning of [*]. *)

From stdpp Require Import prelude list strings.
From Stdlib Require Import ZArith Lia Ascii.
From S2P Require Import Prelude.
From S2P Require Import Strings.

(** ** Actions, permissions, principals *)

Definition ACTION_READ : string := "read".
Definition ACTION_WRITE : string := "write".
Definition ACTION_DELETE : string := "delete".
Definition ACTION_APPROVE : string := "approve".
Definition ACTION_AUDIT : string := "audit".
Definition ACTION_SECURITY : string := "security".
Definition ACTION_ADMIN : string := "admin".

(** [meta::Permission]; [actions] is a comma separated list. *)
Record Permission := mkPermission {
  perm_id : Z;
  role_id : Z;
  perm_repo_pattern : string;
  perm_actions : string;
  perm_managed : bool;
}.

Record Scope := mkScope {
  scope_repo_pattern : string;
  scope_actions : list string;
}.

Record Principal := mkPrincipal {
  username : string;
  source : string;
  impersonator : string;
  perms : list Permission;
  via_token : bool;
  token_scopes : list Scope;
}.

(** ** The glob matcher *)

Definition star : ascii := "*"%char.

(** The two pointers of the loop; [star_idx] is [None] where the source keeps
    [usize::MAX]. *)
Record Pointers := mkPointers {
  sx : nat;
  px : nat;
  star_idx : option nat;
  s_tmp : nat;
}.

(** The body of the first loop; [None] when it returns [false]. *)
Definition glob_step (pattern s : list ascii) (st : Pointers) : option Pointers :=
  if bool_decide (is_Some (pattern !! px st) /\ pattern !! px st = s !! sx st) then
    Some (mkPointers (sx st + 1) (px st + 1) (star_idx st) (s_tmp st))
  else if bool_decide (pattern !! px st = Some star) then
    Some (mkPointers (sx st) (px st + 1) (Some (px st)) (sx st))
  else match star_idx st with
       | Some k => Some (mkPointers (s_tmp st + 1) (k + 1) (Some k) (s_tmp st + 1))
       | None => None
       end.

(** The pattern position when the text is consumed; [None] when the matcher
    returned [false] or the fuel ran out. *)
Fixpoint glob_loop (fuel : nat) (pattern s : list ascii) (st : Pointers) : option (option nat) :=
  if Nat.ltb (sx st) (length s) then
    match fuel with
    | O => None
    | S fuel =>
        match glob_step pattern s st with
        | Some st => glob_loop fuel pattern s st
        | None => Some None
        end
    end
  else Some (Some (px st)).

(** The second loop: skips the stars at the end of the pattern. *)
Fixpoint skip_stars (p : list ascii) : list ascii :=
  match p with
  | c :: p' => if Ascii.eqb c star then skip_stars p' else p
  | [] => []
  end.

Definition glob_fuel (pattern s : list ascii) : nat :=
  (length s + 1) * (length pattern + 1).

Definition glob_match (pattern s : string) : option bool :=
  let p := String.list_ascii_of_string pattern in
  let t := String.list_ascii_of_string s in
  match glob_loop (glob_fuel p t) p t (mkPointers 0 0 None 0) with
  | None => None
  | Some None => Some false
  | Some (Some px) => Some (bool_decide (skip_stars (drop px p) = []))
  end.

Definition match_glob (pattern name : string) : bool :=
  if String.eqb pattern "*" then true
  else if str_is_empty name then false
  else default false (glob_match pattern name).

Definition match_repo_pattern (pattern name : string) : bool := match_glob pattern name.

(** ** Permission checks *)

(** [csv] contains the action, or admin. *)
Definition actions_contain (csv action : string) : bool :=
  existsb (fun a => String.eqb a ACTION_ADMIN || String.eqb a action)
    (map trim (split_on "," csv)).

Definition action_list_contains (l : list string) (action : string) : bool :=
  existsb (fun a => String.eqb a ACTION_ADMIN || String.eqb a action) l.

Definition scopes_allow (scopes : list Scope) (repo action : string) : bool :=
  existsb (fun s => match_glob (scope_repo_pattern s) repo
                    && action_list_contains (scope_actions s) action) scopes.

Definition roles_allow (p : Principal) (repo action : string) : bool :=
  existsb (fun q => match_glob (perm_repo_pattern q) repo
                    && actions_contain (perm_actions q) action) (perms p).

(** Authenticated by a token that carries scopes. *)
Definition scoped (p : Principal) : bool :=
  via_token p && negb (bool_decide (token_scopes p = [])).

Definition can (p : Principal) (repo action : string) : bool :=
  if negb (roles_allow p repo action) then false
  else if scoped p && negb (scopes_allow (token_scopes p) repo action) then false
  else true.

Definition is_admin (p : Principal) : bool := can p "" ACTION_ADMIN.

Definition can_approve_any (p : Principal) : bool :=
  if negb (existsb (fun q => actions_contain (perm_actions q) ACTION_APPROVE) (perms p))
  then false
  else if scoped p then
    existsb (fun s => action_list_contains (scope_actions s) ACTION_APPROVE) (token_scopes p)
  else true.

Definition can_audit_any (p : Principal) : bool :=
  if negb (existsb (fun q => actions_contain (perm_actions q) ACTION_AUDIT) (perms p))
  then false
  else if scoped p then
    existsb (fun s => action_list_contains (scope_actions s) ACTION_AUDIT) (token_scopes p)
  else true.

Definition can_security_any (p : Principal) : bool :=
  if negb (existsb (fun q => actions_contain (perm_actions q) ACTION_SECURITY) (perms p))
  then false
  else negb (scoped p).

(** ** Validation of tokens and names *)

Definition TOKEN_ACTIONS : list string := [ACTION_READ; ACTION_WRITE; ACTION_DELETE; ACTION_AUDIT].

(** The message for the first action a token may not carry. *)
Fixpoint validate_actions (l : list string) : option string :=
  match l with
  | [] => None
  | a :: l =>
      if negb (existsb (String.eqb a) TOKEN_ACTIONS)
      then Some ("invalid scope action: " +:+ a)
      else validate_actions l
  end.

Fixpoint validate_each (l : list Scope) : option string :=
  match l with
  | [] => None
  | s :: l =>
      if str_is_empty (trim (scope_repo_pattern s)) then Some "scope repo_pattern required"
      else if bool_decide (scope_actions s = []) then Some "scope actions required"
      else match validate_actions (scope_actions s) with
           | Some msg => Some msg
           | None => validate_each l
           end
  end.

Definition validate_scopes (scopes : list Scope) : option string :=
  if bool_decide (scopes = []) then Some "at least one scope required"
  else validate_each scopes.

Definition name_char (c : ascii) : bool :=
  is_ascii_alphanumeric c || Ascii.eqb c "-" || Ascii.eqb c "_".

Definition valid_name (name : string) : bool :=
  negb (str_is_empty name) && Nat.leb (String.length name) 64 && str_all name_char name.

(** ** The meaning of a pattern

    A star stands for any run of characters, another character for itself. *)
Inductive globs : list ascii -> list ascii -> Prop :=
| globs_nil : globs [] []
| globs_char c p s : c <> star -> globs p s -> globs (c :: p) (c :: s)
| globs_skip p s : globs p s -> globs (star :: p) s
| globs_more p c s : globs (star :: p) s -> globs (star :: p) (c :: s).

(** What the loop still has to decide. *)
Definition pending (pattern s : list ascii) (st : Pointers) : Prop :=
  match star_idx st with
  | None => globs (drop (px st) pattern) (drop (sx st) s)
  | Some k => globs (star :: drop (k + 1) pattern) (drop (s_tmp st) s)
  end.

(** The state of the loop: since the last star the text was matched
    character by character. *)
Definition glob_inv (pattern s : list ascii) (st : Pointers) : Prop :=
  (sx st <= length s)%nat /\ (px st <= length pattern)%nat /\ (s_tmp st <= sx st)%nat /\
  match star_idx st with
  | None => s_tmp st = O
  | Some k =>
      exists lits, (star ∉ lits) /\
        px st = (k + 1 + length lits)%nat /\ sx st = (s_tmp st + length lits)%nat /\
        drop (k + 1) pattern = lits ++ drop (px st) pattern /\
        drop (s_tmp st) s = lits ++ drop (sx st) s
  end.

(** Decreases at each turn of the loop. *)
Definition glob_measure (pattern s : list ascii) (st : Pointers) : nat :=
  (length s - s_tmp st) * (length pattern + 1) + (length pattern - px st).

(** ** Lemmas on patterns *)

Lemma globs_star p s : globs (star :: p) s <-> exists a b, s = a ++ b /\ globs p b.
Proof.
  split.
  - intros H. remember (star :: p) as q eqn:E. revert E.
    induction H as [|c q s Hc H IH|q s H IH|q c s H IH]; intros E; simplify_eq.
    + by exists [], s.
    + destruct IH as (a & b & -> & Hb); [done|]. by exists (c :: a), b.
  - intros (a & b & -> & H). induction a as [|c a IH]; simpl; by constructor.
Qed.

Lemma globs_literals l p s : star ∉ l -> globs (l ++ p) s <-> exists r, s = l ++ r /\ globs p r.
Proof.
  revert s. induction l as [|c l IH]; intros s Hl; simpl.
  - split; [by exists s|by intros (r & -> & H)].
  - apply not_elem_of_cons in Hl as [Hc Hl]. split.
    + intros H. inversion H; simplify_eq/=.
      match goal with H : globs (l ++ p) _ |- _ => apply (IH _ Hl) in H as (r & -> & ?) end.
      by exists r.
    + intros (r & -> & H). constructor; [done|]. apply IH; eauto.
Qed.

Lemma globs_empty_text p : globs p [] <-> skip_stars p = [].
Proof.
  induction p as [|c p IH]; simpl; [split; [done|constructor]|].
  destruct (Ascii.eqb_spec c star) as [->|Hc].
  - rewrite <- IH. split; [by inversion 1; simplify_eq|by constructor].
  - split; [by inversion 1; simplify_eq|done].
Qed.

Lemma globs_mismatch c p d s : c <> star -> c <> d -> ~ globs (c :: p) (d :: s).
Proof. intros ?? H. by inversion H. Qed.

Lemma globs_no_pattern s : globs [] s -> s = [].
Proof. by inversion 1. Qed.

(** A star after the literals may take over from the star before them. *)
Lemma globs_last_star l q s :
  star ∉ l -> globs (star :: (l ++ star :: q)) (l ++ s) <-> globs (star :: q) s.
Proof.
  intros Hl. rewrite !globs_star. split.
  - intros (a & b & E & H). apply (globs_literals _ _ _ Hl) in H as (r & -> & H).
    apply globs_star in H as (a' & b' & -> & H).
    rewrite !app_assoc in E. exists (drop (length l) ((a ++ l) ++ a')), b'. split; [|done].
    apply (f_equal (drop (length l))) in E. rewrite drop_app_length in E. subst s.
    rewrite drop_app_le; [done|]. rewrite !length_app. lia.
  - intros (a & b & -> & H). exists [], (l ++ a ++ b). split; [done|].
    apply globs_literals; [done|]. exists (a ++ b). split; [done|].
    apply globs_star. by exists a, b.
Qed.

(** When the literals after a star do not continue, the star takes one more
    character. *)
Lemma globs_backtrack q c s :
  ~ globs q (c :: s) -> globs (star :: q) (c :: s) <-> globs (star :: q) s.
Proof.
  intros Hn. split; [|by constructor].
  intros H. by inversion H; simplify_eq.
Qed.

(** ** The loop *)

Section Loop.
Context (p s : list ascii) (Hs : star ∉ s).
Implicit Types st : Pointers.

Lemma text_not_star i c : s !! i = Some c -> c <> star.
Proof. intros H ->. apply Hs. by eapply list_elem_of_lookup_2. Qed.

Lemma step_literal st c :
  glob_inv p s st -> p !! px st = Some c -> s !! sx st = Some c ->
  let st' := mkPointers (sx st + 1) (px st + 1) (star_idx st) (s_tmp st) in
  glob_inv p s st' /\ (pending p s st' <-> pending p s st).
Proof.
  intros (Hx & Hp & Ht & H) Hpc Hsc st'.
  pose proof (text_not_star _ _ Hsc) as Hc.
  pose proof (drop_S _ _ _ Hpc) as Dp. pose proof (drop_S _ _ _ Hsc) as Ds.
  apply lookup_lt_Some in Hpc, Hsc. unfold glob_inv, pending, st'. simpl.
  rewrite !Nat.add_1_r. destruct (star_idx st) as [k|]; split.
  - destruct H as (lits & Hl & E1 & E2 & E3 & E4). split_and!; [lia..|].
    exists (lits ++ [c]). rewrite not_elem_of_app, length_app, <- !app_assoc. simpl.
    rewrite <- Dp, <- Ds. split_and!; [done| |lia..|done|done].
    by apply not_elem_of_cons; split; [|apply not_elem_of_nil].
  - done.
  - split_and!; lia.
  - rewrite Dp, Ds. split; [by constructor|]. intros G. by inversion G; simplify_eq.
Qed.

Lemma step_star st :
  glob_inv p s st -> p !! px st = Some star ->
  let st' := mkPointers (sx st) (px st + 1) (Some (px st)) (sx st) in
  glob_inv p s st' /\ (pending p s st' <-> pending p s st).
Proof.
  intros (Hx & Hp & Ht & H) Hpc st'. pose proof (drop_S _ _ _ Hpc) as Dp.
  apply lookup_lt_Some in Hpc. unfold glob_inv, pending, st'. simpl. split.
  - split_and!; [lia..|]. exists []. simpl. rewrite !Nat.add_0_r.
    split_and!; [apply not_elem_of_nil|done..].
  - rewrite Nat.add_1_r. destruct (star_idx st) as [k|]; [|by rewrite Dp].
    destruct H as (lits & Hl & _ & _ & -> & ->). rewrite Dp. symmetry. by apply globs_last_star.
Qed.

Lemma step_backtrack st k c :
  glob_inv p s st -> star_idx st = Some k -> s !! sx st = Some c ->
  p !! px st <> Some c -> p !! px st <> Some star ->
  let st' := mkPointers (s_tmp st + 1) (k + 1) (Some k) (s_tmp st + 1) in
  glob_inv p s st' /\ (pending p s st' <-> pending p s st).
Proof.
  intros (Hx & Hp & Ht & H) Hk Hsc Hne Hns st'. unfold glob_inv, pending, st'. rewrite Hk in *.
  simpl. destruct H as (lits & Hl & E1 & E2 & E3 & E4).
  pose proof (drop_S _ _ _ Hsc) as Ds. pose proof (lookup_lt_Some _ _ _ Hsc) as Hlt.
  split.
  - split_and!; [lia..|]. exists []. simpl. rewrite !Nat.add_0_r.
    split_and!; [apply not_elem_of_nil|done..].
  - destruct (lookup_lt_is_Some_2 s (s_tmp st)) as [d Hd]; [lia|].
    pose proof (drop_S _ _ _ Hd) as Dt. rewrite (Nat.add_1_r (s_tmp st)), Dt. symmetry.
    apply globs_backtrack. rewrite <- Dt, E3, E4, Ds.
    intros (r & E & G)%globs_literals; [|done]. apply app_inv_head in E as <-.
    destruct (p !! px st) as [e|] eqn:Hpe.
    + rewrite (drop_S _ _ _ Hpe) in G. by eapply globs_mismatch in G; [|congruence..].
    + apply lookup_ge_None in Hpe. rewrite drop_ge in G by done. by apply globs_no_pattern in G.
Qed.

Lemma step_fails st c :
  star_idx st = None -> s !! sx st = Some c ->
  p !! px st <> Some c -> p !! px st <> Some star -> ~ pending p s st.
Proof.
  intros Hk Hsc Hne Hns. unfold pending. rewrite Hk, (drop_S _ _ _ Hsc).
  destruct (p !! px st) as [e|] eqn:Hpe.
  - rewrite (drop_S _ _ _ Hpe). apply globs_mismatch; congruence.
  - apply lookup_ge_None in Hpe. rewrite drop_ge by done. by intros ?%globs_no_pattern.
Qed.

Lemma glob_step_spec st :
  glob_inv p s st -> (sx st < length s)%nat ->
  match glob_step p s st with
  | Some st' =>
      glob_inv p s st' /\ (pending p s st' <-> pending p s st) /\
      (glob_measure p s st' < glob_measure p s st)%nat
  | None => ~ pending p s st
  end.
Proof.
  intros Hi Hlt. destruct (lookup_lt_is_Some_2 s (sx st) Hlt) as [c Hc].
  pose proof Hi as (_ & Hp & Ht & _). unfold glob_step.
  case_bool_decide as H1; [|case_bool_decide as H2].
  - destruct H1 as [[d Hd] E]. rewrite Hd, Hc in E. injection E as ->.
    apply lookup_lt_Some in Hd as Hlp.
    destruct (step_literal st c Hi Hd Hc) as [Hi' Hq]. split_and!; [done..|].
    unfold glob_measure. simpl. nia.
  - apply lookup_lt_Some in H2 as Hlp.
    destruct (step_star st Hi H2) as [Hi' Hq]. split_and!; [done..|].
    unfold glob_measure. simpl. nia.
  - assert (p !! px st <> Some c) by (intros E; apply H1; rewrite E, Hc; eauto).
    destruct (star_idx st) as [k|] eqn:Hk; [|by eapply step_fails].
    destruct (step_backtrack st k c Hi Hk Hc) as [Hi' Hq]; [done..|]. split_and!; [done..|].
    unfold glob_measure. simpl. nia.
Qed.

(** At the end of the text only stars may be left of the pattern. *)
Lemma pending_end st :
  glob_inv p s st -> sx st = length s -> pending p s st <-> globs (drop (px st) p) [].
Proof.
  intros (_ & _ & _ & H) E. unfold pending. destruct (star_idx st) as [k|].
  - destruct H as (lits & Hl & _ & _ & -> & ->). rewrite E, drop_all, app_nil_r.
    rewrite globs_star. split.
    + intros (a & b & E2 & (r & -> & G)%globs_literals); [|done].
      apply (f_equal length) in E2. rewrite !length_app in E2.
      destruct r; [done|simpl in E2; lia].
    + intros G. exists [], lits. split; [done|]. apply globs_literals; [done|].
      exists []. by rewrite app_nil_r.
  - by rewrite E, drop_all.
Qed.

Lemma glob_loop_spec fuel st :
  glob_inv p s st -> (glob_measure p s st <= fuel)%nat ->
  exists r, glob_loop fuel p s st = Some r /\
    (pending p s st <-> exists i, r = Some i /\ skip_stars (drop i p) = []).
Proof.
  revert st. induction fuel as [|fuel IH]; intros st Hi Hm; simpl;
    (destruct (Nat.ltb_spec (sx st) (length s)) as [Hlt|Hge];
     [pose proof (glob_step_spec st Hi Hlt) as Hstep
     |exists (Some (px st)); split; [done|];
      rewrite (pending_end st Hi), globs_empty_text by (destruct Hi; lia);
      split; [eauto|by intros (? & [= <-] & ?)]]).
  - destruct Hi as (_ & _ & Ht & _). unfold glob_measure in Hm. nia.
  - destruct (glob_step p s st) as [st'|]; [|exists None; split; [done|];
       split; [intros []%Hstep|by intros (? & ? & ?)]].
    destruct Hstep as (Hi' & Hq & Hm'). destruct (IH st' Hi') as (r & Hr & Hp); [lia|].
    exists r. split; [done|]. by rewrite <- Hq.
Qed.
End Loop.

Lemma glob_match_spec pattern s :
  star ∉ String.list_ascii_of_string s ->
  exists b, glob_match pattern s = Some b /\
    (b = true <-> globs (String.list_ascii_of_string pattern) (String.list_ascii_of_string s)).
Proof.
  intros Hs. unfold glob_match.
  set (p := String.list_ascii_of_string pattern). set (t := String.list_ascii_of_string s) in *.
  destruct (glob_loop_spec p t Hs (glob_fuel p t) (mkPointers 0 0 None 0)) as (r & -> & Hr).
  - split_and!; simpl; lia.
  - unfold glob_measure, glob_fuel. simpl. nia.
  - unfold pending in Hr. simpl in Hr. rewrite !drop_0 in Hr.
    destruct r as [i|];
      [exists (bool_decide (skip_stars (drop i p) = []))|exists false]; (split; [done|]);
      rewrite Hr, ?bool_decide_eq_true; split.
    + intros H. by exists i.
    + by intros (? & [= <-] & ?).
    + done.
    + by intros (? & ? & ?).
Qed.

(** ** Permission checks *)

Lemma action_list_contains_spec l action :
  action_list_contains l action = true <-> ACTION_ADMIN ∈ l \/ action ∈ l.
Proof.
  unfold action_list_contains. rewrite existsb_In. split.
  - intros (a & Ha & [->%String.eqb_eq| ->%String.eqb_eq]%orb_true_iff); auto.
  - intros [H|H]; (eexists; split; [exact H|]); by rewrite String.eqb_refl, ?orb_true_r.
Qed.

Lemma valid_name_no_star name :
  valid_name name = true -> star ∉ String.list_ascii_of_string name.
Proof.
  unfold valid_name. intros [_ H]%andb_true_iff. revert H.
  induction name as [|c s IH]; simpl; [intros _; apply not_elem_of_nil|].
  intros [Hc H]%andb_true_iff. apply not_elem_of_cons. split; [|by apply IH].
  intros <-. by vm_compute in Hc.
Qed.

Lemma validate_actions_spec l : validate_actions l = None <-> Forall (.∈ TOKEN_ACTIONS) l.
Proof.
  induction l as [|a l IH]; cbn [validate_actions]; [by split|].
  rewrite Forall_cons, <- IH. destruct (existsb (String.eqb a) TOKEN_ACTIONS) eqn:E; simpl.
  - apply existsb_In in E as (b & Hb & ->%String.eqb_eq). by intuition.
  - split; [done|]. intros [H _]. apply not_true_iff_false in E. exfalso. apply E.
    apply existsb_In. exists a. by rewrite String.eqb_refl.
Qed.

Lemma validate_scopes_spec scopes :
  validate_scopes scopes = None ->
  scopes <> [] /\ Forall (fun s => Forall (.∈ TOKEN_ACTIONS) (scope_actions s)) scopes.
Proof.
  unfold validate_scopes. case_bool_decide as Hne; [done|]. split; [done|]. clear Hne.
  induction scopes as [|s l IH]; cbn [validate_each] in *; [done|].
  repeat case_in H. constructor; [by apply validate_actions_spec|by apply IH].
Qed.

Lemma token_action_not_managing a :
  a ∈ TOKEN_ACTIONS -> a <> ACTION_ADMIN /\ a <> ACTION_APPROVE /\ a <> ACTION_SECURITY.
Proof.
  unfold TOKEN_ACTIONS. rewrite !elem_of_cons, elem_of_nil.
  by intros [->|[->|[->|[->|[]]]]].
Qed.

Lemma token_list_contains l action :
  Forall (.∈ TOKEN_ACTIONS) l -> action_list_contains l action = true <-> action ∈ l.
Proof.
  intros H. rewrite action_list_contains_spec. split; [|auto]. intros [Ha|Ha]; [|done].
  rewrite Forall_forall in H. by apply H, token_action_not_managing in Ha as (? & _).
Qed.

(** C39: A repository pattern means what it says.  For a name without a star,
    the two-pointer matcher returns, within its fuel, true exactly when the
    pattern, with each star standing for any run of characters, matches the
    whole name; only the pattern [*] itself matches the empty name of a global
    check.  The names the API accepts have no star. *)
Theorem match_glob_spec pattern name :
  star ∉ String.list_ascii_of_string name ->
  is_Some (glob_match pattern name) /\
  (match_glob pattern name = true <->
   pattern = "*" \/
   (name <> "" /\
    globs (String.list_ascii_of_string pattern) (String.list_ascii_of_string name))).
Proof.
  intros Hn. destruct (glob_match_spec pattern name Hn) as (b & E & Hb).
  unfold match_glob. rewrite E. split; [eauto|]. simpl.
  destruct (String.eqb_spec pattern "*") as [->|Hp]; [by intuition|].
  destruct name as [|c name]; simpl in *; [by intuition congruence|].
  rewrite Hb. split; [intros H; by right|by intros [?|[_ ?]]].
Qed.

(** C40: A token never widens what its user may do.  Authenticated with a token
    whose scopes passed the validation, a principal may perform an action
    exactly when the user's roles allow it and a matching scope lists that very
    action: so only reads, writes, deletions and audits, never an
    administration, an approval or a policy change. *)
Theorem token_never_escalates p repo action :
  via_token p = true -> validate_scopes (token_scopes p) = None ->
  (can p repo action = true <->
   roles_allow p repo action = true /\
   exists s, s ∈ token_scopes p /\ match_glob (scope_repo_pattern s) repo = true /\
             action ∈ scope_actions s) /\
  (can p repo action = true -> action ∈ TOKEN_ACTIONS) /\
  is_admin p = false /\ can_approve_any p = false /\ can_security_any p = false.
Proof.
  intros Hv [Hne Hall]%validate_scopes_spec. rewrite Forall_forall in Hall.
  assert (scoped p = true) as Hs by (unfold scoped; by rewrite Hv, bool_decide_false).
  assert (forall repo action, can p repo action = true <->
    roles_allow p repo action = true /\
    exists s, s ∈ token_scopes p /\ match_glob (scope_repo_pattern s) repo = true /\
              action ∈ scope_actions s) as Hcan.
  { intros r a. unfold can. rewrite Hs.
    assert (scopes_allow (token_scopes p) r a = true <->
      exists s, s ∈ token_scopes p /\ match_glob (scope_repo_pattern s) r = true /\
                a ∈ scope_actions s) as <-.
    { unfold scopes_allow. rewrite existsb_In. apply exist_proper. intros s.
      rewrite andb_true_iff. split; intros (H1 & H2 & H3); split_and!; try done;
        by eapply (token_list_contains _ a (Hall s H1)). }
    by destruct (roles_allow p r a), (scopes_allow _ r a); simpl; intuition. }
  assert (forall r a, can p r a = true -> a ∈ TOKEN_ACTIONS) as Htok.
  { intros r a (_ & s & Hin & _ & Ha)%Hcan. pose proof (Hall s Hin) as H.
    rewrite Forall_forall in H. by apply H. }
  split_and!; [apply Hcan|apply Htok|..].
  - apply not_true_iff_false. intros H. by apply Htok, token_action_not_managing in H as (? & _).
  - unfold can_approve_any. rewrite Hs. case_match; [done|].
    apply not_true_iff_false. intros (s & Hin & Ha)%existsb_In.
    apply (token_list_contains _ _ (Hall s Hin)) in Ha. pose proof (Hall s Hin) as Hf.
    rewrite Forall_forall in Hf. by apply Hf, token_action_not_managing in Ha as (_ & ? & _).
  - unfold can_security_any. rewrite Hs. by case_match.
Qed.

(** A name with a star would not be matched by a pattern that is that name's
    prefix and a star: the matcher takes the star of the name for itself. *)
Example glob_star_in_name : match_glob "a*" "a*b" = false.
Proof. reflexivity. Qed.

(** ** Witnesses *)

Lemma match_glob_spec_witness :
  match_glob "team-*-p*y" "team-a-proxy" = true /\ match_glob "team-*" "tea" = false /\
  is_Some (glob_match "team-*" "tea").
Proof.
  split_and!; [reflexivity|reflexivity|].
  apply (match_glob_spec "team-*" "tea"), (valid_name_no_star "tea"). reflexivity.
Defined.

Definition demo_token : Principal :=
  mkPrincipal "alice" "local" "" [mkPermission 1 1 "*" "admin" true] true
    [mkScope "maven-*" ["read"; "audit"]].

Lemma token_never_escalates_witness :
  can demo_token "maven-central" "read" = true /\ is_admin demo_token = false.
Proof.
  split; [reflexivity|].
  apply (token_never_escalates demo_token "maven-central" "read"); reflexivity.
Defined.
