(* ===== verification/BTree.v ===== *)
(** * Ordered maps of the standard library

    [BTreeMap<String, V>] as the list of its entries in key order; strings are
    ordered by their bytes.  A [BTreeSet<String>] is a map to [unit]. *)

From stdpp Require Import prelude list strings sorting.
From Stdlib Require Import ZArith Lia.
From S2P Require Import Prelude.

(** ** Definitions *)

Definition BTreeMap (V : Type) : Type := list (string * V).

Section BTree.
Context {V : Type}.
Implicit Types m : BTreeMap V.

Fixpoint bt_get (k : string) m : option V :=
  match m with
  | [] => None
  | (j, v) :: m =>
      match String.compare k j with
      | Eq => Some v
      | Lt => None
      | Gt => bt_get k m
      end
  end.

(** [*m.entry(k).or_default() = f(..)]: [f] is given the value there was. *)
Fixpoint bt_upsert (f : option V -> V) (k : string) m : BTreeMap V :=
  match m with
  | [] => [(k, f None)]
  | (j, v) :: m' =>
      match String.compare k j with
      | Eq => (j, f (Some v)) :: m'
      | Lt => (k, f None) :: m
      | Gt => (j, v) :: bt_upsert f k m'
      end
  end.
End BTree.

Definition str_lt (a b : string) : Prop := String.compare a b = Lt.

(** Keys in strictly ascending order. *)
Definition bt_sorted {V} (m : BTreeMap V) : Prop := StronglySorted str_lt m.*1.

(** ** Lemmas *)

Lemma str_compare_eq a b : String.compare a b = Eq <-> a = b.
Proof.
  split; [apply String.compare_eq_iff|]. intros ->.
  induction b as [|c b IH]; cbn; [done|]. unfold Ascii.compare. by rewrite N.compare_refl.
Qed.

Lemma str_compare_gt a b : String.compare a b = Gt <-> str_lt b a.
Proof. unfold str_lt. rewrite String.compare_antisym. by destruct (String.compare b a). Qed.

Lemma str_lt_irrefl a : ~ str_lt a a.
Proof. unfold str_lt. by rewrite (proj2 (str_compare_eq a a) eq_refl). Qed.

#[global] Instance str_lt_trans : Transitive str_lt.
Proof.
  unfold str_lt. intros a. induction a as [|x a IH]; intros [|y b] [|z c]; cbn; try done.
  unfold Ascii.compare. set (i := Ascii.N_of_ascii x). set (j := Ascii.N_of_ascii y).
  set (k := Ascii.N_of_ascii z). clearbody i j k. intros Hxy Hyz. specialize (IH b c).
  destruct (N.compare_spec i j) as [E|E|E]; destruct (N.compare_spec j k) as [E'|E'|E'];
    try done; destruct (N.compare_spec i k); auto; lia.
Qed.

Section Lemmas.
Context {V : Type}.
Implicit Types m : BTreeMap V.

Lemma bt_get_upsert f k m : bt_get k (bt_upsert f k m) = Some (f (bt_get k m)).
Proof.
  induction m as [|[j v] m IH]; cbn.
  - by rewrite (proj2 (str_compare_eq k k) eq_refl).
  - destruct (String.compare k j) eqn:E; cbn.
    + by rewrite E.
    + by rewrite (proj2 (str_compare_eq k k) eq_refl).
    + by rewrite E.
Qed.

Lemma bt_get_upsert_ne f k j m : j <> k -> bt_get j (bt_upsert f k m) = bt_get j m.
Proof.
  intros Hne. induction m as [|[i v] m IH]; cbn.
  - destruct (String.compare j k) eqn:E; [|done..]. by apply str_compare_eq in E.
  - destruct (String.compare k i) eqn:E; cbn.
    + apply str_compare_eq in E as <-.
      destruct (String.compare j k) eqn:E2; [by apply str_compare_eq in E2|done..].
    + destruct (String.compare j k) eqn:E2; [by apply str_compare_eq in E2| |done].
      by rewrite (str_lt_trans _ _ _ E2 E).
    + by rewrite IH.
Qed.

Lemma bt_upsert_key f k j m : j ∈ (bt_upsert f k m).*1 <-> j = k \/ j ∈ m.*1.
Proof.
  induction m as [|[i v] m IH]; cbn; [by rewrite !elem_of_cons|].
  destruct (String.compare k i) eqn:E; cbn; rewrite !elem_of_cons.
  - apply str_compare_eq in E as ->. by intuition.
  - done.
  - rewrite IH. by intuition.
Qed.

Lemma bt_upsert_sorted f k m : bt_sorted m -> bt_sorted (bt_upsert f k m).
Proof.
  unfold bt_sorted. induction m as [|[i v] m IH]; cbn; intros H; [by repeat constructor|].
  inversion_clear H as [|?? Hs Ha].
  destruct (String.compare k i) eqn:E; cbn; constructor; auto.
  - by constructor.
  - constructor; [done|]. eapply Forall_impl; [exact Ha|]. intros x Hx. by etrans.
  - apply Forall_forall. intros x [->|Hx]%bt_upsert_key; [by apply str_compare_gt|].
    rewrite Forall_forall in Ha. by apply Ha.
Qed.

(** In an ordered map the entries are what the look-ups find. *)
Lemma bt_get_entry k v m : bt_sorted m -> (k, v) ∈ m <-> bt_get k m = Some v.
Proof.
  unfold bt_sorted. induction m as [|[i w] m IH]; cbn; intros H; [by rewrite elem_of_nil|].
  inversion_clear H as [|?? Hs Ha]. rewrite Forall_forall in Ha. rewrite elem_of_cons.
  assert (Hm : (k, v) ∈ m -> str_lt i k).
  { intros Hin. by apply Ha, (list_elem_of_fmap_2 fst _ (k, v)). }
  destruct (String.compare k i) eqn:E.
  - apply str_compare_eq in E as ->. split; [|by intros [= ->]; left].
    intros [[= <-]|Hin]; [done|]. by apply Hm, str_lt_irrefl in Hin.
  - split; [|done]. intros [[= -> ->]|Hin]; [by apply str_lt_irrefl in E|].
    apply Hm in Hin. exfalso. eapply str_lt_irrefl, (str_lt_trans _ _ _ E Hin).
  - rewrite <- IH by done. split; [|by right]. intros [[= -> ->]|Hin]; [|done].
    by apply str_compare_gt, str_lt_irrefl in E.
Qed.

Lemma bt_get_key k m : bt_sorted m -> k ∈ m.*1 <-> is_Some (bt_get k m).
Proof.
  intros Hs. rewrite list_elem_of_fmap. split.
  - intros ([j v] & -> & H). exists v. by apply bt_get_entry.
  - intros [v Hv]. exists (k, v). split; [done|]. by apply bt_get_entry.
Qed.
End Lemmas.

#[export] Hint Resolve bt_upsert_sorted : forklift.
