(* ===== verification/Policy.v ===== *)
(** * The declarative RBAC policy (auth/policy.rs)

    Parsing of the ArgoCD-style policy text into managed roles and grants.
    The theorems tie the text to the authorization decisions of [Authz]: a
    role allows exactly what its lines say, and a wrong line refuses the whole
    text.  The messages of the errors are constructors with the values they
    quote. *)

From stdpp Require Import prelude list strings sorting.
From Stdlib Require Import ZArith Lia Ascii.
From S2P Require Import Prelude.
From S2P Require Import Strings.
From S2P Require Import Authz.
From S2P Require Import BTree.

(** ** The managed state *)

Record ManagedGrant := mkGrant { grant_subject : string; grant_role : string }.

Record ManagedRole := mkRole {
  role_name : string;
  role_description : string;
  role_permissions : list Permission;
}.

Record ManagedLocalUser := mkLocalUser {
  local_username : string;
  local_password_hash : string;
  local_email : string;
}.

Record ManagedRBAC := mkRBAC {
  roles : list ManagedRole;
  group_roles : list ManagedGrant;
  user_roles : list ManagedGrant;
  local_users : list ManagedLocalUser;
}.

(** ** Errors *)

Inductive StatementError : Type :=
| PermissionArity
| RoleOrObjectEmpty
| UnsupportedResource (resource : string)
| UnsupportedEffect (effect : string)
| InvalidAction (action : string)
| GrantArity
| SubjectOrRoleEmpty
| SubjectEmptyAfterPrefix.

(** The line is counted from 1. *)
Inductive PolicyError : Type :=
| LineError (line : nat) (e : StatementError)
| UnknownStatement (line : nat) (statement : string).

(** ** Parsing *)

Definition SUBJECT_USER_PREFIX : string := "user:".
Definition SUBJECT_GROUP_PREFIX : string := "group:".

Definition valid_role_action (action : string) : bool :=
  existsb (String.eqb action)
    [ACTION_READ; ACTION_WRITE; ACTION_DELETE; ACTION_APPROVE; ACTION_AUDIT; ACTION_SECURITY;
     ACTION_ADMIN].

Definition split_csv (line : string) : list string := map trim (split_on "," line).

Definition parse_permission_line (fields : list string)
  : result StatementError (string * string * string) :=
  match fields with
  | _ :: role :: resource :: action :: pattern :: rest =>
      match rest with
      | [] | [_] =>
          let effect := match rest with [effect] => effect | _ => "allow" end in
          if str_is_empty role || str_is_empty pattern then Err RoleOrObjectEmpty
          else if negb (String.eqb resource "repo") && negb (String.eqb resource "*") then
            Err (UnsupportedResource resource)
          else if negb (String.eqb effect "allow") then Err (UnsupportedEffect effect)
          else
            let action := if String.eqb action "*" then ACTION_ADMIN else action in
            if negb (valid_role_action action) then Err (InvalidAction action)
            else Ok (role, pattern, action)
      | _ => Err PermissionArity
      end
  | _ => Err PermissionArity
  end.

Definition parse_grant_line (fields : list string) : result StatementError (string * string) :=
  match fields with
  | [_; subject; role] =>
      if str_is_empty subject || str_is_empty role then Err SubjectOrRoleEmpty
      else if String.eqb subject SUBJECT_USER_PREFIX || String.eqb subject SUBJECT_GROUP_PREFIX
      then Err SubjectEmptyAfterPrefix
      else Ok (subject, role)
  | _ => Err GrantArity
  end.

(** The variables of the parsing loop. *)
Record Parsing := mkParsing {
  role_actions : BTreeMap (BTreeMap (list string));
  role_seen : BTreeMap unit;
  parsed_groups : list ManagedGrant;
  parsed_users : list ManagedGrant;
}.

(** The action joins the set of its role and pattern, in order, once. *)
Definition add_action (action : string) (actions : option (list string)) : list string :=
  let actions := default [] actions in
  if existsb (String.eqb action) actions then actions else actions ++ [action].

Definition add_permission (role pattern action : string) (st : Parsing) : Parsing :=
  mkParsing
    (bt_upsert (fun m => bt_upsert (add_action action) pattern (default [] m)) role
       (role_actions st))
    (bt_upsert (fun _ => tt) role (role_seen st))
    (parsed_groups st) (parsed_users st).

Definition add_grant (subject role : string) (st : Parsing) : Parsing :=
  match strip_prefix SUBJECT_GROUP_PREFIX subject with
  | Some name =>
      mkParsing (role_actions st) (role_seen st) (parsed_groups st ++ [mkGrant name role])
        (parsed_users st)
  | None =>
      let name := default subject (strip_prefix SUBJECT_USER_PREFIX subject) in
      mkParsing (role_actions st) (role_seen st) (parsed_groups st)
        (parsed_users st ++ [mkGrant name role])
  end.

(** The body of the loop, on the line of index [i]. *)
Definition policy_line (i : nat) (raw : string) (st : Parsing) : result PolicyError Parsing :=
  let line := trim raw in
  if str_is_empty line || starts_with "#" line then Ok st
  else
    let fields := split_csv line in
    let kind := default "" (head fields) in
    if String.eqb kind "p" then
      let? (role, pattern, action) :=
        map_err (LineError (i + 1)) (parse_permission_line fields) in
      Ok (add_permission role pattern action st)
    else if String.eqb kind "g" then
      let? (subject, role) := map_err (LineError (i + 1)) (parse_grant_line fields) in
      Ok (add_grant subject role st)
    else Err (UnknownStatement (i + 1) kind).

Fixpoint policy_lines (i : nat) (lines : list string) (st : Parsing)
  : result PolicyError Parsing :=
  match lines with
  | [] => Ok st
  | raw :: lines => let? st := policy_line i raw st in policy_lines (i + 1) lines st
  end.

Definition build_roles (seen : BTreeMap unit) (actions : BTreeMap (BTreeMap (list string)))
  : list ManagedRole :=
  map (fun '(name, _) =>
         mkRole name "Managed by declarative RBAC policy"
           (default []
              ((map (fun '(pattern, acts) => mkPermission 0 0 pattern (str_join "," acts) false))
                 <$> bt_get name actions)))
    seen.

Definition newline : ascii := "010"%char.

Definition parse_policy (text : string) : result PolicyError ManagedRBAC :=
  let? st := policy_lines 0 (split_on newline text) (mkParsing [] [] [] []) in
  Ok (mkRBAC (build_roles (role_seen st) (role_actions st)) (parsed_groups st)
        (parsed_users st) []).

(** ** What a line says *)

Inductive Statement : Type :=
| Grants (role pattern action : string)
| Assigns (subject role : string).

(** The statement of a line; [None] for a blank line or a comment. *)
Definition statement (i : nat) (raw : string) : result PolicyError (option Statement) :=
  let line := trim raw in
  if str_is_empty line || starts_with "#" line then Ok None
  else
    let fields := split_csv line in
    if String.eqb (default "" (head fields)) "p" then
      map_err (LineError (i + 1))
        (let? (role, pattern, action) := parse_permission_line fields in
         Ok (Some (Grants role pattern action)))
    else if String.eqb (default "" (head fields)) "g" then
      map_err (LineError (i + 1))
        (let? (subject, role) := parse_grant_line fields in Ok (Some (Assigns subject role)))
    else Err (UnknownStatement (i + 1) (default "" (head fields))).

(** The text has a statement. *)
Definition says (lines : list string) (s : Statement) : Prop :=
  exists i raw, lines !! i = Some raw /\ statement i raw = Ok (Some s).

(** What the parser adds for a statement. *)
Definition obey (s : Statement) (st : Parsing) : Parsing :=
  match s with
  | Grants role pattern action => add_permission role pattern action st
  | Assigns subject role => add_grant subject role st
  end.

(** The statements of the lines, in order; those of wrong lines left out. *)
Definition said (r : result PolicyError (option Statement)) : option Statement :=
  match r with Ok s => s | Err _ => None end.

Definition statements (i : nat) (lines : list string) : list Statement :=
  omap said (imap (fun j => statement (i + j)) lines).

(** The grants to groups, and those to users. *)
Definition group_grant (s : Statement) : option ManagedGrant :=
  match s with
  | Assigns subject role =>
      (fun name => mkGrant name role) <$> strip_prefix SUBJECT_GROUP_PREFIX subject
  | Grants _ _ _ => None
  end.

Definition user_grant (s : Statement) : option ManagedGrant :=
  match s with
  | Assigns subject role =>
      match strip_prefix SUBJECT_GROUP_PREFIX subject with
      | Some _ => None
      | None => Some (mkGrant (default subject (strip_prefix SUBJECT_USER_PREFIX subject)) role)
      end
  | Grants _ _ _ => None
  end.

(** ** Lines *)

#[local] Arguments String.append : simpl nomatch.
#[local] Arguments strip_prefix : simpl never.
#[local] Arguments valid_role_action : simpl never.
#[local] Arguments trim : simpl never.

Lemma policy_line_spec i raw st :
  policy_line i raw st =
  match statement i raw with
  | Ok None => Ok st
  | Ok (Some s) => Ok (obey s st)
  | Err e => Err e
  end.
Proof.
  unfold policy_line, statement. case_match; [done|]. case_match.
  - by destruct (parse_permission_line _) as [[[? ?] ?]|].
  - case_match; [|done]. by destruct (parse_grant_line _) as [[? ?]|].
Qed.

Lemma statements_cons i raw lines :
  statements i (raw :: lines) =
  match said (statement i raw) with
  | Some s => s :: statements (i + 1) lines
  | None => statements (i + 1) lines
  end.
Proof.
  unfold statements. simpl. rewrite Nat.add_0_r.
  assert (imap ((fun j => statement (i + j)) ∘ S) lines
          = imap (fun j => statement (i + 1 + j)) lines) as ->; [|done].
  apply imap_ext. intros j x _. simpl. f_equal. lia.
Qed.

Lemma policy_lines_ok i lines st st' :
  policy_lines i lines st = Ok st' ->
  st' = foldl (fun st s => obey s st) st (statements i lines).
Proof.
  revert i st. induction lines as [|raw lines IH]; intros i st; simpl; [by intros [= ->]|].
  rewrite policy_line_spec, statements_cons.
  destruct (statement i raw) as [[s|]|e]; [..|done]; apply IH.
Qed.

Lemma policy_lines_err i lines st e :
  policy_lines i lines st = Err e <->
  exists k raw, lines !! k = Some raw /\ statement (i + k) raw = Err e /\
    forall j raw', (j < k)%nat -> lines !! j = Some raw' -> is_ok (statement (i + j) raw') = true.
Proof.
  revert i st. induction lines as [|raw lines IH]; intros i st; simpl.
  - split; [done|]. by intros (k & raw & H & _).
  - rewrite policy_line_spec.
    destruct (statement i raw) as [o|e'] eqn:E.
    + assert (match o with Some s => Ok (obey s st) | None => Ok st end
              = Ok (E := PolicyError) (default st ((fun s => obey s st) <$> o))) as ->.
      { by destruct o. }
      rewrite IH. split.
      * intros (k & r & Hk & Hr & Hj). exists (S k), r. simpl.
        rewrite <- Nat.add_succ_comm, <- Nat.add_1_r. split_and!; [done..|].
        intros [|j] r' Hlt [= Hr']; [subst; by rewrite Nat.add_0_r, E|].
        rewrite <- Nat.add_succ_comm, <- Nat.add_1_r. apply (Hj j); [lia|done].
      * intros ([|k] & r & [= Hk] & Hr & Hj); [subst; rewrite Nat.add_0_r in Hr; congruence|].
        exists k, r. replace (i + 1 + k)%nat with (i + S k)%nat by lia. split_and!; [done..|].
        intros j r' Hlt Hr'. replace (i + 1 + j)%nat with (i + S j)%nat by lia.
        apply (Hj (S j)); [lia|done].
    + split.
      * intros [= ->]. exists O, raw. rewrite Nat.add_0_r. split_and!; [done..|]. lia.
      * intros ([|k] & r & [= Hk] & Hr & Hj); [subst; rewrite Nat.add_0_r in Hr; congruence|].
        specialize (Hj O raw). rewrite Nat.add_0_r, E in Hj. by discriminate Hj; [lia|].
Qed.

Lemma says_statements lines s : s ∈ statements 0 lines <-> says lines s.
Proof.
  unfold statements, says. rewrite list_elem_of_omap. setoid_rewrite elem_of_lookup_imap.
  split.
  - intros (r & (i & raw & -> & Hl) & Hr). exists i, raw. split; [done|].
    simpl in Hr. destruct (statement i raw); naive_solver.
  - intros (i & raw & Hl & Hr). exists (statement i raw). split; [by exists i, raw|].
    by rewrite Hr.
Qed.

(** ** The maps of the parser *)

Definition actions_of (ra : BTreeMap (BTreeMap (list string))) (role pattern : string)
  : list string := default [] (bt_get role ra ≫= bt_get pattern).

(** The maps hold the statements obeyed so far. *)
Record parsed (done : list Statement) (st : Parsing) : Prop := {
  parsed_seen : bt_sorted (role_seen st);
  parsed_keys : (role_seen st).*1 = (role_actions st).*1;
  parsed_patterns role m : bt_get role (role_actions st) = Some m ->
    m <> [] /\ bt_sorted m /\ forall pattern acts, bt_get pattern m = Some acts -> acts <> [];
  parsed_actions role pattern a :
    a ∈ actions_of (role_actions st) role pattern <-> Grants role pattern a ∈ done;
  parsed_group_roles : parsed_groups st = omap group_grant done;
  parsed_user_roles : parsed_users st = omap user_grant done;
}.

Lemma bt_upsert_keys {V W} (f : option V -> V) (g : option W -> W) k m m' :
  m.*1 = m'.*1 -> (bt_upsert f k m).*1 = (bt_upsert g k m').*1.
Proof.
  revert m'. induction m as [|[j v] m IH]; intros [|[j' v'] m']; cbn; try done.
  intros [= <- E]. destruct (String.compare k j); cbn; f_equal; auto. by f_equal.
Qed.

Lemma bt_upsert_nonempty {V} (f : option V -> V) k m : bt_upsert f k m <> [].
Proof. destruct m as [|[j v] m]; cbn; [done|]. by destruct (String.compare k j). Qed.

Lemma add_action_spec a acts b : b ∈ add_action a acts <-> b = a \/ b ∈ default [] acts.
Proof.
  unfold add_action. destruct (existsb _ _) eqn:E.
  - apply existsb_In in E as (x & Hx & ->%String.eqb_eq). by intuition congruence.
  - rewrite elem_of_app, list_elem_of_singleton. by intuition.
Qed.

Lemma add_action_nonempty a acts : add_action a acts <> [].
Proof.
  unfold add_action. destruct (existsb _ _) eqn:E; [by intros H; rewrite H in E|].
  by intros []%app_eq_nil.
Qed.

Lemma actions_of_add role pattern action ra role' pattern' a :
  a ∈ actions_of (bt_upsert (fun m => bt_upsert (add_action action) pattern (default [] m)) role ra)
        role' pattern' <->
  (role' = role /\ pattern' = pattern /\ a = action) \/ a ∈ actions_of ra role' pattern'.
Proof.
  unfold actions_of, BTreeMap in *. destruct (decide (role' = role)) as [->|Hr].
  - rewrite bt_get_upsert. simpl. destruct (decide (pattern' = pattern)) as [->|Hp].
    + rewrite bt_get_upsert. simpl. rewrite add_action_spec.
      destruct (bt_get role ra); simpl; by intuition.
    + rewrite bt_get_upsert_ne by done. destruct (bt_get role ra); simpl; by intuition.
  - rewrite bt_get_upsert_ne by done. by intuition.
Qed.

Lemma parsed_add_permission said st role pattern action :
  parsed said st ->
  parsed (said ++ [Grants role pattern action]) (add_permission role pattern action st).
Proof.
  intros []. split; simpl.
  - by apply bt_upsert_sorted.
  - by apply bt_upsert_keys.
  - intros role' m. destruct (decide (role' = role)) as [->|Hr].
    + rewrite bt_get_upsert. intros [= <-].
      assert (Hm : bt_sorted (default [] (bt_get role (role_actions st))) /\
                   forall p acts, bt_get p (default [] (bt_get role (role_actions st))) = Some acts
                                  -> acts <> []).
      { destruct (bt_get role _) eqn:E; [by eapply parsed_patterns0|]. by split; [constructor|]. }
      destruct Hm as [Hm1 Hm2]. split_and!; [apply bt_upsert_nonempty|by apply bt_upsert_sorted|].
      intros p acts. destruct (decide (p = pattern)) as [->|Hp].
      * rewrite bt_get_upsert. intros [= <-]. apply add_action_nonempty.
      * rewrite bt_get_upsert_ne by done. apply Hm2.
    + rewrite bt_get_upsert_ne by done. apply parsed_patterns0.
  - intros. rewrite actions_of_add, parsed_actions0, elem_of_app, list_elem_of_singleton.
    by intuition congruence.
  - rewrite omap_app, parsed_group_roles0. by rewrite app_nil_r.
  - rewrite omap_app, parsed_user_roles0. by rewrite app_nil_r.
Qed.

Lemma parsed_add_grant said st subject role :
  parsed said st -> parsed (said ++ [Assigns subject role]) (add_grant subject role st).
Proof.
  intros []. unfold add_grant.
  destruct (strip_prefix SUBJECT_GROUP_PREFIX subject) eqn:E; split; simpl; try done;
    try (intros; rewrite parsed_actions0, elem_of_app, list_elem_of_singleton;
         by intuition congruence);
    rewrite omap_app, ?parsed_group_roles0, ?parsed_user_roles0; simpl; rewrite E;
    by rewrite ?app_nil_r.
Qed.

Lemma parsed_statements l said st :
  parsed said st -> parsed (said ++ l) (foldl (fun st s => obey s st) st l).
Proof.
  revert said st. induction l as [|s l IH]; intros said st H; [by rewrite app_nil_r|].
  rewrite cons_middle, app_assoc. apply IH.
  destruct s; [by apply parsed_add_permission|by apply parsed_add_grant].
Qed.

Lemma parse_policy_parsed text d :
  parse_policy text = Ok d ->
  exists st, parsed (statements 0 (split_on newline text)) st /\
    d = mkRBAC (build_roles (role_seen st) (role_actions st)) (parsed_groups st)
          (parsed_users st) [].
Proof.
  unfold parse_policy. destruct (policy_lines _ _ _) as [st|] eqn:E; [|done]. intros [= <-].
  exists st. split; [|done]. apply policy_lines_ok in E as ->.
  apply (parsed_statements _ []). split; simpl; try done; [constructor|].
  intros. unfold actions_of. simpl. by rewrite !elem_of_nil.
Qed.

(** ** The actions of a permission *)

Lemma valid_action_plain a :
  valid_role_action a = true ->
  str_all (fun x => negb (Ascii.eqb x ",")) a = true /\ trim a = a.
Proof.
  unfold valid_role_action. intros (b & Hb & ->%String.eqb_eq)%existsb_In. revert b Hb.
  apply Forall_forall. repeat (constructor; [by vm_compute|]). constructor.
Qed.

Lemma joined_actions acts action :
  acts <> [] -> Forall (fun a => valid_role_action a = true) acts ->
  actions_contain (str_join "," acts) action = true <-> ACTION_ADMIN ∈ acts \/ action ∈ acts.
Proof.
  intros Hne H. unfold actions_contain. rewrite split_join; [|done|].
  - assert (map trim acts = acts) as ->.
    { clear Hne. induction H as [|a l Ha _ IH]; simpl; [done|].
      by rewrite IH, (proj2 (valid_action_plain _ Ha)). }
    apply action_list_contains_spec.
  - eapply Forall_impl; [exact H|]. by intros a [??]%valid_action_plain.
Qed.

Lemma permission_line_action fields role pattern a :
  parse_permission_line fields = Ok (role, pattern, a) -> valid_role_action a = true.
Proof.
  destruct fields as [|k [|r [|res [|act [|pat rest]]]]]; try done. cbn [parse_permission_line].
  set (act' := if String.eqb act "*" then _ else _).
  destruct (valid_role_action act') eqn:E; [|by repeat case_match].
  cbn [negb]. intros H. by repeat case_match; simplify_eq.
Qed.

Lemma granted_action_valid lines role pattern a :
  says lines (Grants role pattern a) -> valid_role_action a = true.
Proof.
  intros (i & raw & _ & H). unfold statement in H. repeat case_match; try done.
  destruct (parse_permission_line _) as [[[role' pattern'] b]|] eqn:E; [|done].
  simplify_eq/=. by eapply permission_line_action.
Qed.

(** ** The roles built *)

Lemma role_of_key l st role :
  parsed l st -> role ∈ (role_seen st).*1 <-> exists pattern a, Grants role pattern a ∈ l.
Proof.
  intros [? Hk Hp Ha _ _]. rewrite Hk, bt_get_key by (unfold bt_sorted; by rewrite <- Hk).
  setoid_rewrite <- Ha. unfold actions_of. split.
  - intros [m Hm]. rewrite Hm. simpl. destruct (Hp _ _ Hm) as (Hne & Hs & Hacts).
    destruct m as [|[pattern acts] m]; [done|].
    assert (bt_get pattern ((pattern, acts) :: m) = Some acts) as Hg.
    { apply bt_get_entry; [done|]. left. }
    destruct acts as [|a acts]; [by apply Hacts in Hg|]. exists pattern, a. rewrite Hg. left.
  - intros (pattern & a & H). destruct (bt_get role (role_actions st)); [done|].
    by apply elem_of_nil in H.
Qed.

(** The permissions of a role, as its holder sees them. *)
Lemma role_allows l st role p repo action :
  parsed l st ->
  (forall role pattern a, Grants role pattern a ∈ l -> valid_role_action a = true) ->
  perms p = default []
    (map (fun '(pattern, acts) => mkPermission 0 0 pattern (str_join "," acts) false)
       <$> bt_get role (role_actions st)) ->
  roles_allow p repo action = true <->
  exists pattern a, Grants role pattern a ∈ l /\ match_glob pattern repo = true /\
    (a = ACTION_ADMIN \/ a = action).
Proof.
  intros [_ Hk Hp Ha _ _] Hval Hperms. setoid_rewrite <- Ha.
  unfold roles_allow, actions_of in *. rewrite Hperms.
  destruct (bt_get role (role_actions st)) as [m|] eqn:Hm; simpl;
    [|split; [done|by intros (? & ? & ?%elem_of_nil & _)]].
  destruct (Hp _ _ Hm) as (_ & Hs & Hacts). rewrite existsb_In.
  assert (Hjoin : forall pattern acts, bt_get pattern m = Some acts ->
    actions_contain (str_join "," acts) action = true <->
    exists a, a ∈ acts /\ (a = ACTION_ADMIN \/ a = action)).
  { intros pattern acts Hg. rewrite joined_actions; [|by eapply Hacts|].
    { split; [intros [?|?]; eauto|by intros (? & ? & [-> | ->]); [left|right]]. }
    apply Forall_forall. intros a Hin. apply (Hval role pattern), Ha. by rewrite Hm; simpl; rewrite Hg. }
  split.
  - intros (q & Hq & [Hg Hact]%andb_true_iff).
    apply list_elem_of_fmap in Hq as ([pattern acts] & -> & Hin). simpl in *.
    apply bt_get_entry in Hin; [|done]. apply (Hjoin _ _ Hin) in Hact as (a & Hina & Hor).
    exists pattern, a. by rewrite Hin.
  - intros (pattern & a & Hin & Hg & Hor). destruct (bt_get pattern m) as [acts|] eqn:E;
      [|by apply elem_of_nil in Hin].
    exists (mkPermission 0 0 pattern (str_join "," acts) false). split.
    + apply list_elem_of_fmap. exists (pattern, acts). split; [done|]. by apply bt_get_entry.
    + apply andb_true_iff. split; [done|]. apply (Hjoin _ _ E). by exists a.
Qed.

(** C32: A managed role allows exactly what the policy text says.  When the text
    parses, the roles are those of its permission lines, in strictly ascending
    order; a holder of one of them is allowed an action on a repository if and
    only if some line of the role names a pattern that matches the repository
    and that action or [admin]; and the grants are those of the grant lines, in
    order. *)
Theorem parse_policy_exact text d :
  parse_policy text = Ok d ->
  let lines := split_on newline text in
  StronglySorted str_lt (map role_name (roles d)) /\
  (forall role, role ∈ map role_name (roles d) <->
     exists pattern a, says lines (Grants role pattern a)) /\
  (forall r p repo action, r ∈ roles d -> perms p = role_permissions r ->
     roles_allow p repo action = true <->
     exists pattern a, says lines (Grants (role_name r) pattern a) /\
       match_glob pattern repo = true /\ (a = ACTION_ADMIN \/ a = action)) /\
  group_roles d = omap group_grant (statements 0 lines) /\
  user_roles d = omap user_grant (statements 0 lines).
Proof.
  intros (st & Hst & ->)%parse_policy_parsed lines. simpl. fold lines in Hst.
  assert (map role_name (build_roles (role_seen st) (role_actions st)) = (role_seen st).*1) as ->.
  { unfold build_roles. rewrite map_map. by apply list_fmap_ext; intros ? [] ?. }
  setoid_rewrite <- says_statements.
  split_and!; [apply Hst|intros role; by apply role_of_key| |apply Hst|apply Hst].
  intros r p repo action Hr Hp.
  apply list_elem_of_fmap in Hr as ([name []] & -> & Hin). simpl in *.
  eapply role_allows; [done| |done].
  intros role pattern a H. eapply granted_action_valid, says_statements, H.
Qed.

(** A wrong line refuses the whole policy.  Parsing fails exactly when some
    line is wrong, with the error of the first such line and its number; what
    the other lines say is then not applied at all. *)
Theorem parse_policy_fails text e :
  parse_policy text = Err e <->
  exists i raw, split_on newline text !! i = Some raw /\ statement i raw = Err e /\
    forall j raw', (j < i)%nat -> split_on newline text !! j = Some raw' ->
      is_ok (statement j raw') = true.
Proof.
  unfold parse_policy. rewrite <- (policy_lines_err 0 _ (mkParsing [] [] [] [])).
  by destruct (policy_lines _ _ _); split; intros [= ->].
Qed.

(** ** Witnesses *)

Definition demo_policy : string :=
  str_join (String newline "")
    ["# roles"; "p, readonly, repo, read, *, allow"; "p, dev, repo, write, team-a-*";
     " p , dev , * , * , sandbox "; ""; "g, group:/platform, readonly"; "g, bob, dev"].

Lemma parse_policy_exact_witness :
  exists d, parse_policy demo_policy = Ok d /\
    map role_name (roles d) = ["dev"; "readonly"] /\
    user_roles d = omap user_grant (statements 0 (split_on newline demo_policy)).
Proof.
  assert (is_ok (parse_policy demo_policy) = true) as H by (vm_compute; reflexivity).
  destruct (parse_policy demo_policy) as [d|] eqn:E; [|discriminate H].
  exists d. split; [reflexivity|]. split.
  - vm_compute in E. injection E as <-. reflexivity.
  - apply (parse_policy_exact _ _ E).
Defined.
