(* ===== verification/Cron.v ===== *)
(** * Cron schedules (coverage/cron.rs)

    The five-field parser, the match of an instant and the search for the next
    firing.  The calendar and the time zones of chrono and chrono-tz are
    parameters.  Instants are nanoseconds since the epoch; dates are counted
    in days from it and stay in chrono's range.  Integer arithmetic is that of
    the release build: [i64] additions wrap, shift counts are taken modulo 64. *)

From stdpp Require Import prelude list strings.
From Stdlib Require Import ZArith Lia Ascii.
From S2P Require Import Prelude.
From S2P Require Import Strings.

(** ** Parsing *)

Record CronField := mkField { field_name : string; field_min : Z; field_max : Z }.

Definition CRON_FIELDS : list CronField :=
  [mkField "minute" 0 59; mkField "hour" 0 23; mkField "day of month" 1 31;
   mkField "month" 1 12; mkField "day of week" 0 6].

(** The messages, with the values they quote. *)
Inductive CronError : Type :=
| UnknownTimezone (timezone : string)
| WrongFieldCount (n : nat)
| EmptyField (name : string)
| InvalidStep (step name : string)
| InvalidField (name term : string)
| OutOfRange (name term : string).

(** The first word and what follows it. *)
Fixpoint take_word (s : string) : string * string :=
  match s with
  | EmptyString => (EmptyString, EmptyString)
  | String c s' =>
      if is_some (strip_whitespace s) then (EmptyString, s)
      else let '(w, rest) := take_word s' in (String c w, rest)
  end.

(** [str::split_whitespace]. *)
Fixpoint words (fuel : nat) (s : string) : list string :=
  match fuel with
  | O => []
  | S fuel =>
      let s := str_trim_start s in
      if str_is_empty s then [] else let '(w, rest) := take_word s in w :: words fuel rest
  end.

Definition split_whitespace (s : string) : list string := words (String.length s) s.

Definition i64_wrapping_add (a b : Z) : Z := (a + b + 2 ^ 63) mod 2 ^ 64 - 2 ^ 63.

(** [1u64 << (v as u32)]. *)
Definition bit_at (v : Z) : Z := Z.shiftl 1 (Z.land (v mod 2 ^ 32) 63).

Definition parse_step (f : CronField) (step_part : option string) : result CronError Z :=
  match step_part with
  | None => Ok 1
  | Some step_part =>
      match parse_i64 step_part with
      | Some n => if 0 <? n then Ok n else Err (InvalidStep step_part (field_name f))
      | None => Err (InvalidStep step_part (field_name f))
      end
  end.

(** A bare number with a step means from it to the end of the range. *)
Definition parse_range (f : CronField) (term range_part : string) (has_step : bool)
  : result CronError (Z * Z) :=
  let number s :=
    match parse_i64 s with Some n => Ok n | None => Err (InvalidField (field_name f) term) end in
  if String.eqb range_part "*" then Ok (field_min f, field_max f)
  else match split_once "-" range_part with
       | Some (a, b) => let? lo := number a in let? hi := number b in Ok (lo, hi)
       | None => let? n := number range_part in Ok (n, if has_step then field_max f else n)
       end.

(** The bounds and the step of one term of a list. *)
Definition parse_cron_term (f : CronField) (term : string) : result CronError (Z * Z * Z) :=
  let '(range_part, step_part) :=
    match split_once "/" term with Some (a, b) => (a, Some b) | None => (term, None) end in
  let? step := parse_step f step_part in
  let? (lo, hi) := parse_range f term range_part (is_some step_part) in
  if (lo <? field_min f) || (field_max f <? hi) || (hi <? lo)
  then Err (OutOfRange (field_name f) term)
  else Ok (lo, hi, step).

(** The loop that sets the bits; [None] when the fuel runs out. *)
Fixpoint fill (fuel : nat) (v hi step set : Z) : option Z :=
  if v <=? hi then
    match fuel with
    | O => None
    | S fuel => fill fuel (i64_wrapping_add v step) hi step (Z.lor set (bit_at v))
    end
  else Some set.

Definition FILL_FUEL : nat := 136.

Fixpoint parse_cron_terms (f : CronField) (terms : list string) (set : Z) : result CronError Z :=
  match terms with
  | [] => Ok set
  | term :: terms =>
      let? (lo, hi, step) := parse_cron_term f term in
      parse_cron_terms f terms (default 0 (fill FILL_FUEL lo hi step set))
  end.

Definition parse_cron_field (spec : string) (f : CronField) : result CronError Z :=
  if str_is_empty spec then Err (EmptyField (field_name f))
  else parse_cron_terms f (split_on "," spec) 0.

(** ** Time *)

(** The calendar and the zones: the month, day and weekday (from Sunday) of a
    date; the zones by name, the offset of a zone at a UTC second, and the
    earliest UTC second at which the clocks of a zone show a reading. *)
Class Chrono (Tz : Type) := {
  month_of : Z -> Z;
  day_of : Z -> Z;
  weekday_of : Z -> Z;
  tz_parse : string -> option Tz;
  tz_offset : Tz -> Z -> Z;
  tz_earliest : Tz -> Z -> option Z;
}.

Definition SECOND : Z := 1000000000.
Definition MINUTE : Z := 60 * SECOND.
Definition DAY : Z := 86400 * SECOND.

Record Schedule (Tz : Type) := mkSchedule {
  expr : string;
  loc : Tz;
  minute : Z;
  hour : Z;
  dom : Z;
  month : Z;
  dow : Z;
  dom_restricted : bool;
  dow_restricted : bool;
}.
Arguments mkSchedule {Tz}. Arguments expr {Tz}. Arguments loc {Tz}. Arguments minute {Tz}.
Arguments hour {Tz}. Arguments dom {Tz}. Arguments month {Tz}. Arguments dow {Tz}.
Arguments dom_restricted {Tz}. Arguments dow_restricted {Tz}.

Definition DEFAULT_CRON : string := "0 10 * * 1-5".
Definition DEFAULT_TIMEZONE : string := "UTC".

(** [bits & (1u64 << v) != 0], for [v] below 64. *)
Definition has_bit (bits v : Z) : bool := negb (Z.land bits (Z.shiftl 1 v) =? 0).

(** What the scan of a day found. *)
Inductive DayScan : Type :=
| Fires (t : Z)
| DayOver (t : Z).

Section Schedule.
Context {Tz : Type} `{Chrono Tz}.
Implicit Types s : Schedule Tz.

Fixpoint parse_fields (parts : list string) (fields : list CronField)
  : result CronError (list Z) :=
  match parts, fields with
  | part :: parts, f :: fields =>
      let? b := parse_cron_field part f in
      let? bs := parse_fields parts fields in Ok (b :: bs)
  | _, _ => Ok []
  end.

Definition parse_schedule (expr timezone : string) : result CronError (Schedule Tz) :=
  let timezone := if str_is_empty (trim timezone) then DEFAULT_TIMEZONE else timezone in
  match tz_parse timezone with
  | None => Err (UnknownTimezone timezone)
  | Some loc =>
      match split_whitespace expr with
      | [p0; p1; p2; p3; p4] as parts =>
          let? bits := parse_fields parts CRON_FIELDS in
          let bit i := nth i bits 0 in
          Ok (mkSchedule (str_join " " parts) loc (bit 0%nat) (bit 1%nat) (bit 2%nat)
                (bit 3%nat) (bit 4%nat) (negb (String.eqb p2 "*")) (negb (String.eqb p4 "*")))
      | parts => Err (WrongFieldCount (length parts))
      end
  end.

(** The clock of the zone, in seconds from the epoch of its own calendar. *)
Definition civil (tz : Tz) (t : Z) : Z := t / SECOND + tz_offset tz (t / SECOND).
Definition date (tz : Tz) (t : Z) : Z := civil tz t / 86400.
Definition clock_hour (tz : Tz) (t : Z) : Z := (civil tz t mod 86400) / 3600.
Definition clock_minute (tz : Tz) (t : Z) : Z := (civil tz t mod 3600) / 60.

Definition matches_day s (t : Z) : bool :=
  let dom_hit := has_bit (dom s) (day_of (date (loc s) t)) in
  let dow_hit := has_bit (dow s) (weekday_of (date (loc s) t)) in
  if dom_restricted s && dow_restricted s then dom_hit || dow_hit else dom_hit && dow_hit.

Definition matches s (t : Z) : bool :=
  if negb (has_bit (minute s) (clock_minute (loc s) t)) then false
  else if negb (has_bit (hour s) (clock_hour (loc s) t)) then false
  else if negb (has_bit (month s) (month_of (date (loc s) t))) then false
  else matches_day s t.

(** The first whole hour of the next date that the clocks show. *)
Definition start_of_next_day (tz : Tz) (t : Z) : Z :=
  let next_day := date tz t + 1 in
  match find_map (fun h => tz_earliest tz (next_day * 86400 + h * 3600)) (seqZ 0 24) with
  | Some resolved => resolved * SECOND
  | None => t + DAY
  end.

Definition NEXT_RUN_SEARCH_DAYS : Z := 366 * 4.

(** The minutes of one day from [cur]; [None] when the fuel runs out. *)
Fixpoint scan_day (fuel : nat) s (cur : Z) : option DayScan :=
  if has_bit (hour s) (clock_hour (loc s) cur) && has_bit (minute s) (clock_minute (loc s) cur)
  then Some (Fires cur)
  else
    let next := cur + MINUTE in
    if negb (day_of (date (loc s) next) =? day_of (date (loc s) cur)) then Some (DayOver next)
    else match fuel with O => None | S fuel => scan_day fuel s next end.

(** Three days of minutes: a date never lasts longer. *)
Definition DAY_FUEL : nat := Z.to_nat 4320.

(** The outer loop, of [days] turns. *)
Fixpoint search (days : nat) s (cur : Z) : option (option Z) :=
  match days with
  | O => Some None
  | S days =>
      if negb (has_bit (month s) (month_of (date (loc s) cur))) || negb (matches_day s cur)
      then search days s (start_of_next_day (loc s) cur)
      else
        match scan_day DAY_FUEL s cur with
        | None => None
        | Some (Fires t) => Some (Some t)
        | Some (DayOver t) =>
            search days s
              (if negb (clock_hour (loc s) t =? 0) || negb (clock_minute (loc s) t =? 0)
               then start_of_next_day (loc s) t else t)
        end
  end.

(** The top of the following minute. *)
Definition next_minute (t : Z) : Z :=
  t - t mod SECOND - ((t / SECOND) mod 60) * SECOND + MINUTE.

Definition next s (t : Z) : option (option Z) :=
  search (Z.to_nat (NEXT_RUN_SEARCH_DAYS + 1)) s (next_minute t).
End Schedule.
