(* ===== verification/CronFacts.v ===== *)
(** * Cron schedules: what a field means, and the next firing

    A parsed field has exactly the bits of the numbers its terms name; a
    schedule fires when its fields say so; and the search for the next firing
    returns the first one. *)

From stdpp Require Import prelude list strings.
From Stdlib Require Import ZArith Lia Ascii.
From S2P Require Import Prelude.
From S2P Require Import Strings.
From S2P Require Import Cron.

(** ** The bits of a field *)

(** The numbers a term names. *)
Definition in_term (f : CronField) (term : string) (v : Z) : Prop :=
  exists lo hi step, parse_cron_term f term = Ok (lo, hi, step) /\
    lo <= v <= hi /\ (v - lo) mod step = 0.

(** The numbers a field names. *)
Definition in_field (f : CronField) (spec : string) (v : Z) : Prop :=
  exists term, term ∈ split_on "," spec /\ in_term f term v.

(** No term of the field has a step near the end of [i64]. *)
Definition moderate (f : CronField) (spec : string) : Prop :=
  forall term lo hi step, term ∈ split_on "," spec ->
    parse_cron_term f term = Ok (lo, hi, step) -> step <= 2 ^ 62.

Lemma testbit_bit_at v k : 0 <= v <= 63 -> 0 <= k -> Z.testbit (bit_at v) k = (k =? v).
Proof.
  intros Hv Hk. unfold bit_at. rewrite (Z.mod_small v (2 ^ 32)) by lia.
  change 63 with (Z.ones 6) at 1. rewrite Z.land_ones, Z.mod_small by lia.
  rewrite Z.shiftl_mul_pow2, Z.mul_1_l, Z.pow2_bits_eqb by lia. apply Z.eqb_sym.
Qed.

Lemma has_bit_testbit bits v : 0 <= v -> has_bit bits v = Z.testbit bits v.
Proof.
  intros Hv. unfold has_bit. rewrite Z.shiftl_mul_pow2, Z.mul_1_l by done.
  apply eq_true_iff_eq. rewrite negb_true_iff, Z.eqb_neq. split.
  - intros Hne. apply not_false_iff_true. intros Hb. apply Hne, Z.bits_inj'. intros k Hk.
    rewrite Z.land_spec, Z.pow2_bits_eqb, Z.bits_0 by done.
    destruct (Z.eqb_spec v k) as [<-|_]; [by rewrite Hb|by rewrite andb_false_r].
  - intros Hb E. apply (f_equal (fun x => Z.testbit x v)) in E.
    rewrite Z.land_spec, Z.pow2_bits_true, Z.bits_0, Hb in E by done. done.
Qed.

Lemma i64_add_small a b : - 2 ^ 63 <= a + b < 2 ^ 63 -> i64_wrapping_add a b = a + b.
Proof. intros H. unfold i64_wrapping_add. rewrite Z.mod_small by lia. lia. Qed.

Lemma step_again v step k : 0 < step -> v + step <= k ->
  (k - v) mod step = (k - (v + step)) mod step.
Proof.
  intros Hs _. replace (k - v) with (k - (v + step) + 1 * step) by lia.
  by rewrite Z.mod_add by lia.
Qed.

Lemma step_between v step k : 0 < step -> v < k < v + step -> (k - v) mod step <> 0.
Proof. intros Hs Hk. rewrite Z.mod_small by lia. lia. Qed.

Lemma fill_spec fuel v hi step set :
  0 < step <= 2 ^ 62 -> 0 <= v -> hi <= 63 -> hi - v < Z.of_nat fuel ->
  exists set', fill fuel v hi step set = Some set' /\
    forall k, 0 <= k ->
      Z.testbit set' k = true <->
      Z.testbit set k = true \/ (v <= k <= hi /\ (k - v) mod step = 0).
Proof.
  revert v set. induction fuel as [|fuel IH]; intros v set Hs Hv Hhi Hf; simpl;
    (destruct (Z.leb_spec v hi) as [Hle|Hgt];
     [|exists set; split; [done|]; intros k Hk; intuition lia]); [lia|].
  rewrite i64_add_small by lia.
  destruct (IH (v + step) (Z.lor set (bit_at v))) as (set' & E & Hb); [lia..|].
  exists set'. split; [done|]. intros k Hk. rewrite Hb by done.
  rewrite Z.lor_spec, orb_true_iff, testbit_bit_at, Z.eqb_eq by lia. split.
  - intros [[H| ->]|[Hr Hm]]; [by left|right; rewrite Z.sub_diag; split; [lia|by apply Z.mod_0_l; lia]|].
    right. rewrite (step_again v step k) by lia. split; [lia|done].
  - intros [H|[Hr Hm]]; [by left; left|].
    destruct (decide (k = v)) as [->|Hne]; [by left; right|]. right.
    destruct (decide (k < v + step)) as [Hlt|Hge]; [by apply step_between in Hm; lia|].
    rewrite <- (step_again v step k) by lia. split; [lia|done].
Qed.

Lemma parse_step_pos f step_part n : parse_step f step_part = Ok n -> 0 < n.
Proof.
  destruct step_part as [part|]; cbn; [|by intros [= <-]].
  destruct (parse_i64 part) as [z|]; [|done]. destruct (0 <? z) eqn:Hz; [|done].
  intros [= <-]. by bool_to_prop.
Qed.

Lemma term_bounds f term lo hi step :
  parse_cron_term f term = Ok (lo, hi, step) ->
  field_min f <= lo /\ lo <= hi /\ hi <= field_max f /\ 0 < step.
Proof.
  unfold parse_cron_term. generalize (split_once "/" term). intros sp.
  destruct (match sp with Some _ => _ | None => _ end) as [range part].
  destruct (parse_step f part) as [n|] eqn:Hn; [|done].
  destruct (parse_range _ _ _ _) as [[a b]|]; [|done].
  destruct (_ || _) eqn:Hc; [done|]. intros [= -> -> ->].
  apply parse_step_pos in Hn. bool_to_prop. lia.
Qed.

Lemma parse_terms_spec f terms set set' :
  0 <= field_min f -> field_max f <= 63 ->
  (forall term lo hi step, term ∈ terms ->
     parse_cron_term f term = Ok (lo, hi, step) -> step <= 2 ^ 62) ->
  parse_cron_terms f terms set = Ok set' ->
  forall k, 0 <= k ->
    Z.testbit set' k = true <->
    Z.testbit set k = true \/ exists term, term ∈ terms /\ in_term f term k.
Proof.
  intros Hmin Hmax. revert set. induction terms as [|term terms IH]; intros set Hmod; cbn [parse_cron_terms].
  - intros [= ->] k Hk. split; [by left|by intros [?|(? & ?%elem_of_nil & _)]].
  - destruct (parse_cron_term f term) as [[[lo hi] step]|] eqn:E; [|done].
    pose proof (term_bounds _ _ _ _ _ E) as (? & ? & ? & ?).
    pose proof (Hmod term lo hi step ltac:(left) E) as Hstep.
    destruct (fill_spec FILL_FUEL lo hi step set) as (set1 & -> & Hb); [lia..| |].
    { change (Z.of_nat FILL_FUEL) with 136. lia. }
    intros Hp k Hk. rewrite (IH set1 ltac:(intros; eapply Hmod; [by right|done]) Hp k Hk), Hb by done.
    setoid_rewrite elem_of_cons. unfold in_term at 2. split.
    + intros [[Hk1|Hk1]|(t & ? & ?)]; [by left| |right; eauto].
      right. exists term. split; [by left|]. by exists lo, hi, step.
    + intros [Hk1|(t & [->|Ht] & Hin)]; [by left; left| |right; eauto].
      left. right. destruct Hin as (? & ? & ? & E' & Hin).
      rewrite E in E'. injection E' as <- <- <-. exact Hin.
Qed.

Lemma parse_field_spec f spec set :
  0 <= field_min f -> field_max f <= 63 -> moderate f spec ->
  parse_cron_field spec f = Ok set ->
  forall k, 0 <= k -> has_bit set k = true <-> in_field f spec k.
Proof.
  intros Hmin Hmax Hmod Hp k Hk. rewrite has_bit_testbit by done.
  unfold parse_cron_field in Hp. case_match; [done|].
  rewrite (parse_terms_spec _ _ _ _ Hmin Hmax Hmod Hp k Hk), Z.bits_0. unfold in_field.
  by intuition.
Qed.

(** ** Days *)

Section Time.
Context {Tz : Type} `{Chrono Tz}.
Implicit Types (tz : Tz) (s : Schedule Tz).

(** The clock reading at a UTC second. *)
Definition reading tz (u : Z) : Z := u + tz_offset tz u.

(** What the search relies on: offsets are whole minutes, less than a day; the
    earliest instant of a reading is that; and each date begins at midnight,
    the clocks being before it until then and never again. *)
Record ZoneLaws tz : Prop := {
  offset_bound u : - 86400 < tz_offset tz u < 86400;
  offset_minutes u : tz_offset tz u mod 60 = 0;
  earliest_some n u : tz_earliest tz n = Some u ->
    reading tz u = n /\ forall u', reading tz u' = n -> u <= u';
  earliest_none n : tz_earliest tz n = None -> forall u, reading tz u <> n;
  day_begins d : exists u, reading tz u = 86400 * d /\
    (forall u', u' < u -> reading tz u' < 86400 * d) /\
    (forall u', u <= u' -> 86400 * d <= reading tz u');
}.

(** Successive dates have different days of the month; the numbers of the
    calendar are not negative. *)
Record CalendarLaws : Prop := {
  day_changes d : day_of (d + 1) <> day_of d;
  day_nonneg d : 0 <= day_of d;
  month_nonneg d : 0 <= month_of d;
  weekday_nonneg d : 0 <= weekday_of d;
}.

(** An instant at which a minute begins. *)
Definition on_minute (t : Z) : Prop := t mod MINUTE = 0.

Lemma on_minute_seconds t : on_minute t -> t = t / SECOND * SECOND /\ (t / SECOND) mod 60 = 0.
Proof. unfold on_minute, MINUTE, SECOND. intros H1. Z.div_mod_to_equations. lia. Qed.

Lemma seconds_on_minute u : u mod 60 = 0 -> on_minute (u * SECOND) /\ u * SECOND / SECOND = u.
Proof. unfold on_minute, MINUTE, SECOND. intros H1. Z.div_mod_to_equations. lia. Qed.

(** The begin of the date after that of [t]. *)
Record next_midnight tz (t m : Z) : Prop := {
  midnight_minute : on_minute m;
  midnight_after : t < m;
  midnight_soon : m <= t + 3 * DAY;
  midnight_reading : civil tz m = 86400 * (date tz t + 1);
  midnight_before v : t <= v < m -> date tz v = date tz t;
  midnight_earliest : tz_earliest tz (86400 * (date tz t + 1)) = Some (m / SECOND);
}.

Lemma next_midnight_exists tz t : ZoneLaws tz -> exists m, next_midnight tz t m.
Proof.
  intros L. set (d := date tz t).
  destruct (day_begins _ L d) as (u0 & Hr0 & Hb0 & Ha0).
  destruct (day_begins _ L (d + 1)) as (u & Hr & Hb & Ha).
  assert (Hu : u mod 60 = 0).
  { pose proof (offset_minutes _ L u) as Ho. unfold reading in Hr. Z.div_mod_to_equations. lia. }
  destruct (seconds_on_minute u Hu) as [Hm Hdiv]. set (v0 := t / SECOND).
  assert (Hd : 86400 * d <= reading tz v0 < 86400 * (d + 1)).
  { unfold d, date, civil, reading. fold v0. Z.div_mod_to_equations. lia. }
  assert (Hge : u0 <= v0) by (destruct (Z.lt_ge_cases v0 u0) as [Hlt|]; [apply Hb0 in Hlt; lia|done]).
  assert (Hlt : v0 < u) by (destruct (Z.lt_ge_cases v0 u) as [|Hge']; [done|apply Ha in Hge'; lia]).
  exists (u * SECOND). split.
  - done.
  - unfold v0, SECOND in *. Z.div_mod_to_equations. lia.
  - pose proof (offset_bound _ L u). pose proof (offset_bound _ L v0). unfold reading in *.
    unfold DAY, v0, SECOND in *. Z.div_mod_to_equations. lia.
  - unfold civil. by rewrite Hdiv.
  - intros v Hv. assert (v0 <= v / SECOND < u).
    { unfold v0, SECOND in *. Z.div_mod_to_equations. lia. }
    specialize (Ha0 (v / SECOND) ltac:(lia)). specialize (Hb (v / SECOND) ltac:(lia)).
    unfold d in *. change (date tz v) with (reading tz (v / SECOND) / 86400).
    symmetry. apply Z.div_unique with (reading tz (v / SECOND) - 86400 * date tz t); lia.
  - rewrite Hdiv. fold d. destruct (tz_earliest tz (86400 * (d + 1))) as [w|] eqn:E.
    + apply (earliest_some _ L) in E as [Hw Hmin]. f_equal. specialize (Hmin u Hr).
      destruct (Z.lt_ge_cases w u) as [Hwu|]; [apply Hb in Hwu|]; lia.
    + by apply (earliest_none _ L) with (u := u) in E.
Qed.

Lemma midnight_date tz t m : next_midnight tz t m ->
  date tz m = date tz t + 1 /\ clock_hour tz m = 0 /\ clock_minute tz m = 0.
Proof.
  intros [_ _ _ Hr _ _]. unfold date at 1, clock_hour, clock_minute. rewrite Hr.
  rewrite (Z.mul_comm 86400), Z.div_mul, Z.mod_mul by done. split_and!; try done.
  replace ((date tz t + 1) * 86400) with (((date tz t + 1) * 24) * 3600) by lia.
  by rewrite Z.mod_mul.
Qed.

Lemma start_of_next_day_midnight tz t m : next_midnight tz t m -> start_of_next_day tz t = m.
Proof.
  intros [Hm _ _ _ _ He]. unfold start_of_next_day.
  assert (seqZ 0 24 = 0 :: seqZ 1 23) as -> by done. cbn [find_map].
  replace ((date tz t + 1) * 86400 + 0 * 3600) with (86400 * (date tz t + 1)) by lia.
  rewrite He. symmetry. by apply on_minute_seconds.
Qed.

(** ** The search *)

Lemma on_minute_step t : on_minute t -> on_minute (t + MINUTE).
Proof. unfold on_minute, MINUTE, SECOND. intros H1. Z.div_mod_to_equations. lia. Qed.

Lemma on_minute_between t v : on_minute t -> on_minute v -> t < v -> t + MINUTE <= v.
Proof. unfold on_minute, MINUTE, SECOND. intros H1 H2 H3. Z.div_mod_to_equations. lia. Qed.

(** The fields of the clock say so. *)
Definition clock_fires s (t : Z) : bool :=
  has_bit (hour s) (clock_hour (loc s) t) && has_bit (minute s) (clock_minute (loc s) t).
Definition day_fires s (t : Z) : bool :=
  has_bit (month s) (month_of (date (loc s) t)) && matches_day s t.

Lemma matches_split s t : matches s t = day_fires s t && clock_fires s t.
Proof.
  unfold matches, day_fires, clock_fires.
  by destruct (has_bit (minute s) _), (has_bit (hour s) _), (has_bit (month s) _),
    (matches_day s t).
Qed.

Lemma day_fires_date s t v : date (loc s) t = date (loc s) v -> day_fires s t = day_fires s v.
Proof. unfold day_fires, matches_day. by intros ->. Qed.

Lemma scan_day_spec s (C : CalendarLaws) fuel cur m :
  next_midnight (loc s) cur m -> on_minute cur ->
  m <= cur + (Z.of_nat fuel + 1) * MINUTE ->
  match scan_day fuel s cur with
  | Some (Fires t) => cur <= t < m /\ on_minute t /\ clock_fires s t = true /\
      forall v, on_minute v -> cur <= v < t -> clock_fires s v = false
  | Some (DayOver t) => t = m /\ forall v, on_minute v -> cur <= v < m -> clock_fires s v = false
  | None => False
  end.
Proof.
  assert (HM : 0 < MINUTE) by done.
  revert cur. induction fuel as [|fuel IH]; intros cur M Hcur Hf; cbn [scan_day];
    fold (clock_fires s cur); (destruct (clock_fires s cur) eqn:Hc;
      [pose proof (midnight_after _ _ _ M); split_and!; try done; lia|]);
    pose proof (on_minute_between cur m Hcur (midnight_minute _ _ _ M) (midnight_after _ _ _ M))
      as Hnext;
    (destruct (decide (cur + MINUTE = m)) as [E|Hne];
     [rewrite E; destruct (midnight_date _ _ _ M) as [-> _];
      rewrite (proj2 (Z.eqb_neq _ _) (day_changes C _)); cbn [negb]; split; [done|];
      intros v Hv Hr; destruct (decide (v = cur)) as [->|]; [done|];
      pose proof (on_minute_between cur v Hcur Hv ltac:(lia)); lia|]).
  - unfold MINUTE, SECOND in *. lia.
  - assert (Hd : date (loc s) (cur + MINUTE) = date (loc s) cur).
    { apply (midnight_before _ _ _ M). unfold MINUTE, SECOND in *. lia. }
    rewrite Hd, Z.eqb_refl. cbn [negb].
    assert (M' : next_midnight (loc s) (cur + MINUTE) m).
    { destruct M. split; rewrite ?Hd; try done; try (unfold MINUTE, SECOND, DAY in *; lia).
      intros v Hv. apply midnight_before0. unfold MINUTE, SECOND in *. lia. }
    specialize (IH _ M' (on_minute_step _ Hcur) ltac:(unfold MINUTE, SECOND in *; lia)).
    destruct (scan_day fuel s (cur + MINUTE)) as [[t|t]|]; [| |done].
    + destruct IH as (Hr & Ht & Hft & Hno). split_and!; try done; [lia..|].
      intros v Hv Hvr. destruct (decide (v = cur)) as [->|]; [done|].
      apply Hno; [done|]. pose proof (on_minute_between cur v Hcur Hv ltac:(lia)). lia.
    + destruct IH as (-> & Hno). split; [done|].
      intros v Hv Hvr. destruct (decide (v = cur)) as [->|]; [done|].
      apply Hno; [done|]. pose proof (on_minute_between cur v Hcur Hv ltac:(lia)). lia.
Qed.

Lemma search_spec s (C : CalendarLaws) (L : ZoneLaws (loc s)) days cur :
  on_minute cur ->
  exists r, search days s cur = Some r /\
    match r with
    | Some u => cur <= u /\ on_minute u /\ matches s u = true /\
        forall v, on_minute v -> cur <= v < u -> matches s v = false
    | None => forall v, on_minute v -> cur <= v ->
        date (loc s) v < date (loc s) cur + Z.of_nat days -> matches s v = false
    end.
Proof.
  revert cur. induction days as [|days IH]; intros cur Hcur; cbn [search].
  { exists None. split; [done|]. intros v _ Hv Hd. exfalso.
    destruct (day_begins _ L (date (loc s) cur)) as (u0 & _ & Hb & Ha).
    assert (86400 * date (loc s) cur <= reading (loc s) (v / SECOND)) as Hr.
    { apply Ha. destruct (Z.lt_ge_cases (v / SECOND) u0) as [Hlt|]; [|done].
      assert (cur / SECOND < u0) as Hlt'.
      { pose proof (Z.div_le_mono cur v SECOND). unfold SECOND in *. lia. }
      apply Hb in Hlt'. change (reading (loc s) (cur / SECOND)) with (civil (loc s) cur) in Hlt'.
      unfold date in Hlt'. Z.div_mod_to_equations. lia. }
    change (reading (loc s) (v / SECOND)) with (civil (loc s) v) in Hr. unfold date in *.
    Z.div_mod_to_equations. lia. }
  destruct (next_midnight_exists _ cur L) as [m M].
  destruct (midnight_date _ _ _ M) as (Hdate & Hh & Hmin).
  destruct (IH m (midnight_minute _ _ _ M)) as (r & Hr & Hspec). rewrite Hdate in Hspec.
  assert (Hgo : (forall v, on_minute v -> cur <= v < m -> matches s v = false) ->
    match r with
    | Some u => cur <= u /\ on_minute u /\ matches s u = true /\
        forall v, on_minute v -> cur <= v < u -> matches s v = false
    | None => forall v, on_minute v -> cur <= v ->
        date (loc s) v < date (loc s) cur + Z.of_nat (S days) -> matches s v = false
    end).
  { pose proof (midnight_after _ _ _ M) as Hlt. intros Hno. destruct r as [u|].
    - destruct Hspec as (? & ? & ? & Hbefore). split_and!; [lia|done..|].
      intros v Hv Hvu. destruct (Z.lt_ge_cases v m); [apply Hno|apply Hbefore]; auto with lia.
    - intros v Hv Hcv Hd. destruct (Z.lt_ge_cases v m); [apply Hno|apply Hspec]; auto with lia. }
  rewrite <- negb_andb. fold (day_fires s cur). destruct (day_fires s cur) eqn:Hday; cbn [negb].
  - pose proof (scan_day_spec s C DAY_FUEL cur m M Hcur) as Hscan.
    destruct (scan_day DAY_FUEL s cur) as [[t|t]|].
    + exists (Some t). split; [done|].
      destruct Hscan as (Hrange & Ht & Hf & Hno);
        [pose proof (midnight_soon _ _ _ M); change (Z.of_nat DAY_FUEL) with 4320;
         unfold DAY, MINUTE, SECOND in *; lia|].
      split_and!; [lia|done| |].
      * rewrite matches_split, Hf, (day_fires_date s t cur), Hday; [done|].
        by apply (midnight_before _ _ _ M).
      * intros v Hv Hvr. by rewrite matches_split, (Hno v Hv Hvr), andb_false_r.
    + destruct Hscan as (-> & Hno);
        [pose proof (midnight_soon _ _ _ M); change (Z.of_nat DAY_FUEL) with 4320;
         unfold DAY, MINUTE, SECOND in *; lia|].
      rewrite Hh, Hmin. cbn. rewrite Hr. exists r. split; [done|]. apply Hgo.
      intros v Hv Hvr. by rewrite matches_split, (Hno v Hv Hvr), andb_false_r.
    + destruct Hscan; pose proof (midnight_soon _ _ _ M); change (Z.of_nat DAY_FUEL) with 4320.
      unfold DAY, MINUTE, SECOND in *. lia.
  - rewrite (start_of_next_day_midnight _ _ _ M), Hr. exists r. split; [done|]. apply Hgo.
    intros v Hv Hvr. rewrite matches_split, (day_fires_date s v cur), Hday; [done|].
    by apply (midnight_before _ _ _ M).
Qed.

Lemma next_minute_spec t :
  on_minute (next_minute t) /\ t < next_minute t <= t + MINUTE /\
  forall v, on_minute v -> t < v -> next_minute t <= v.
Proof.
  unfold on_minute, next_minute, MINUTE, SECOND. split_and!.
  - Z.div_mod_to_equations. lia.
  - Z.div_mod_to_equations. lia.
  - Z.div_mod_to_equations. lia.
  - intros v Hv Htv. Z.div_mod_to_equations. lia.
Qed.

(** C35: The next run is the first one.  In a zone whose dates begin at
    midnight, the search always ends within its fuel; the instant it returns
    is later than the given one, begins a minute in which the schedule fires,
    and no minute between the two does; if it returns nothing, no minute of
    the current date and the four years after it fires. *)
Theorem next_is_first s t :
  CalendarLaws -> ZoneLaws (loc s) ->
  exists r, next s t = Some r /\
    match r with
    | Some u => t < u /\ on_minute u /\ matches s u = true /\
        forall v, on_minute v -> t < v < u -> matches s v = false
    | None => forall v, on_minute v -> t < v ->
        date (loc s) v <= date (loc s) (next_minute t) + NEXT_RUN_SEARCH_DAYS ->
        matches s v = false
    end.
Proof.
  intros C L. destruct (next_minute_spec t) as (Hm & Hlt & Hfirst).
  destruct (search_spec s C L (Z.to_nat (NEXT_RUN_SEARCH_DAYS + 1)) _ Hm) as (r & E & Hr).
  exists r. split; [done|]. destruct r as [u|].
  - destruct Hr as (? & ? & ? & Hno). split_and!; [lia|done..|].
    intros v Hv Hvu. apply Hno; [done|]. split; [|lia]. apply Hfirst; [done|lia].
  - intros v Hv Htv Hd. apply Hr; [done|by apply Hfirst|].
    rewrite Z2Nat.id by done. lia.
Qed.

(** A schedule fires when its fields say so.  For a parsed expression
    without overflowing steps, an instant matches exactly when the minute, the
    hour and the month of the zone's clock are named by their fields, and the
    day by the day fields: by either of them if both are restricted, by both
    otherwise. *)
Theorem fires_by_fields e z s :
  CalendarLaws -> parse_schedule e z = Ok s ->
  exists p0 p1 p2 p3 p4, split_whitespace e = [p0; p1; p2; p3; p4] /\
    (Forall2 moderate CRON_FIELDS [p0; p1; p2; p3; p4] -> forall t,
     matches s t = true <->
     in_field (mkField "minute" 0 59) p0 (clock_minute (loc s) t) /\
     in_field (mkField "hour" 0 23) p1 (clock_hour (loc s) t) /\
     in_field (mkField "month" 1 12) p3 (month_of (date (loc s) t)) /\
     let dom := in_field (mkField "day of month" 1 31) p2 (day_of (date (loc s) t)) in
     let dow := in_field (mkField "day of week" 0 6) p4 (weekday_of (date (loc s) t)) in
     if negb (String.eqb p2 "*") && negb (String.eqb p4 "*") then dom \/ dow else dom /\ dow).
Proof.
  intros C. unfold parse_schedule. destruct (tz_parse _) as [l|]; [|done].
  destruct (split_whitespace e) as [|p0 [|p1 [|p2 [|p3 [|p4 [|? ?]]]]]]; try done.
  cbn [parse_fields CRON_FIELDS].
  destruct (parse_cron_field p0 _) as [b0|] eqn:E0; [|done].
  destruct (parse_cron_field p1 _) as [b1|] eqn:E1; [|done].
  destruct (parse_cron_field p2 _) as [b2|] eqn:E2; [|done].
  destruct (parse_cron_field p3 _) as [b3|] eqn:E3; [|done].
  destruct (parse_cron_field p4 _) as [b4|] eqn:E4; [|done].
  intros [= <-]. exists p0, p1, p2, p3, p4. split; [done|]. intros Hmod t.
  unfold CRON_FIELDS in Hmod.
  repeat match goal with H : Forall2 _ (_ :: _) _ |- _ => inversion_clear H end.
  unfold matches, matches_day. cbn [minute hour dom month dow dom_restricted dow_restricted loc].
  destruct (negb (String.eqb p2 "*")), (negb (String.eqb p4 "*")); cbn [andb];
  repeat match goal with
  | E : parse_cron_field ?p ?f = Ok ?b, M : moderate ?f ?p |- context [has_bit ?b ?k] =>
      rewrite <- (parse_field_spec f p b ltac:(done) ltac:(done) M E k) by
        first [by apply day_nonneg|by apply month_nonneg|by apply weekday_nonneg
              |unfold clock_minute, clock_hour; Z.div_mod_to_equations; lia];
      clear E
  end;
  destruct (has_bit b0 _), (has_bit b1 _), (has_bit b3 _), (has_bit b2 _), (has_bit b4 _);
    simpl; intuition congruence.
Qed.
End Time.

(** ** Demonstration zones

    Months of thirty days; a zone at UTC+9, and one that leaves UTC+2 for UTC+3
    at the midnight that begins day 100, so that this day begins at one. *)

Inductive DemoZone : Type := Fixed | Jumping.

Definition jump_at : Z := 100 * 86400 - 7200.

Definition demo_offset (tz : DemoZone) (u : Z) : Z :=
  match tz with
  | Fixed => 32400
  | Jumping => if u <? jump_at then 7200 else 10800
  end.

Definition demo_earliest (tz : DemoZone) (n : Z) : option Z :=
  match tz with
  | Fixed => Some (n - 32400)
  | Jumping =>
      if n <? 100 * 86400 then Some (n - 7200)
      else if n <? 100 * 86400 + 3600 then None else Some (n - 10800)
  end.

#[local] Instance demo_chrono : Chrono DemoZone := {
  month_of d := (d / 30) mod 12 + 1;
  day_of d := d mod 30 + 1;
  weekday_of d := (d + 4) mod 7;
  tz_parse name :=
    if String.eqb name "Asia/Seoul" then Some Fixed
    else if String.eqb name "Africa/Cairo" then Some Jumping else None;
  tz_offset := demo_offset;
  tz_earliest := demo_earliest;
}.

Lemma demo_calendar : CalendarLaws (Tz := DemoZone).
Proof. split; intros d; simpl; Z.div_mod_to_equations; lia. Qed.

Lemma demo_zone : ZoneLaws Fixed.
Proof.
  split; unfold reading; simpl; try done.
  - intros n u [= <-]. split; [lia|]. intros u' Hu. lia.
  - intros d. exists (86400 * d - 32400). split_and!; intros; lia.
Qed.

(** Where a day begins at one o'clock the search may leave the whole day out:
    from noon of the day before, the next run of a daily schedule is found two
    days later though it fires the next day. *)
Lemma next_skips_day :
  exists s t v u, parse_schedule "0 10 * * *" "Africa/Cairo" = Ok s /\
    next s t = Some (Some u) /\ on_minute v /\ t < v /\ v < u /\ matches s v = true.
Proof.
  exists (mkSchedule "0 10 * * *" Jumping 1 1024 4294967294 8190 127 false false),
    ((jump_at - 43200) * SECOND), ((jump_at + 9 * 3600) * SECOND), ((jump_at + 33 * 3600) * SECOND).
  repeat (split; [vm_compute; reflexivity|]). vm_compute. reflexivity.
Qed.

(** A step near the end of [i64] wraps around and sets bits outside the field. *)
Lemma step_overflow :
  exists b, parse_cron_field "1/9223372036854775807" (mkField "day of month" 1 31) = Ok b /\
    has_bit b 0 = true /\ has_bit b 63 = true.
Proof.
  exists (2 ^ 63 + 3). repeat (split; [vm_compute; reflexivity|]). vm_compute. reflexivity.
Qed.

(** ** Witnesses *)

Lemma fires_by_fields_witness :
  exists s, parse_schedule DEFAULT_CRON "Asia/Seoul" = Ok s /\
    exists p0 p1 p2 p3 p4, split_whitespace DEFAULT_CRON = [p0; p1; p2; p3; p4].
Proof.
  assert (is_ok (parse_schedule DEFAULT_CRON "Asia/Seoul") = true) as Ho by (vm_compute; reflexivity).
  destruct (parse_schedule DEFAULT_CRON "Asia/Seoul") as [s|] eqn:E; [|discriminate Ho].
  exists s. split; [reflexivity|].
  destruct (fires_by_fields _ _ s demo_calendar E) as (p0 & p1 & p2 & p3 & p4 & Hp & _).
  exists p0, p1, p2, p3, p4. exact Hp.
Defined.

Definition demo_schedule : Schedule DemoZone :=
  mkSchedule DEFAULT_CRON Fixed 1 1024 4294967294 8190 62 false true.

Lemma next_is_first_witness :
  exists r, next demo_schedule 0 = Some r /\ r = Some (1 * 3600 * SECOND).
Proof.
  destruct (next_is_first demo_schedule 0 demo_calendar demo_zone) as (r & E & _).
  exists r. split; [exact E|]. vm_compute in E. injection E as <-. reflexivity.
Defined.
