(* ===== verification/Affected.v ===== *)
(** * Affected versions (vuln/affected.rs)

    The intervals of versions an advisory affects, swept from OSV range
    events.  The parser, the order and the printing of semantic versions are
    those of the semver crate, a parameter.  The sweep is proved equal to the
    evaluation algorithm of the OSV schema. *)

From stdpp Require Import prelude list strings sorting.
From Stdlib Require Import ZArith Lia Ascii.
From S2P Require Import Prelude.
From S2P Require Import Strings.

(** ** Events *)

Inductive Event : Type :=
| Introduced (v : string)
| Fixed (v : string)
| LastAffected (v : string).

(** Semantic versions. *)
Class Semver (V : Type) := {
  version_parse : string -> option V;
  version_show : V -> string;
  version_cmp : V -> V -> comparison;
}.

(** The order is total. *)
Class SemverLaws (V : Type) `{Semver V} : Prop := {
  version_cmp_eq (a b : V) : version_cmp a b = Eq <-> a = b;
  version_cmp_antisym (a b : V) : version_cmp b a = CompOpp (version_cmp a b);
  version_cmp_trans (a b c : V) :
    version_cmp a b = Lt -> version_cmp b c = Lt -> version_cmp a c = Lt;
}.

Inductive End (V : Type) : Type :=
| EndOpen
| EndFixed (hi : V)
| EndLastAffected (hi : V).
Arguments EndOpen {V}. Arguments EndFixed {V}. Arguments EndLastAffected {V}.

Record Interval (V : Type) := mkInterval { introduced : option V; end_ : End V }.
Arguments mkInterval {V}. Arguments introduced {V}. Arguments end_ {V}.

Record Affected (V : Type) := mkAffected { intervals : list (Interval V); versions : list string }.
Arguments mkAffected {V}. Arguments intervals {V}. Arguments versions {V}.

Section Affected.
Context {V : Type} `{Semver V}.
Implicit Types v lo hi : V.

Definition version_lt v w : bool := match version_cmp v w with Lt => true | _ => false end.
Definition version_le v w : bool := match version_cmp v w with Gt => false | _ => true end.

Definition interval_contains (i : Interval V) v : bool :=
  if match introduced i with Some lo => version_lt v lo | None => false end then false
  else match end_ i with
       | EndOpen => true
       | EndFixed hi => version_lt v hi
       | EndLastAffected hi => version_le v hi
       end.

Definition render (i : Interval V) : string :=
  let out := match introduced i with Some lo => ">=" +:+ version_show lo | None => "" end in
  let upper :=
    match end_ i with
    | EndOpen => None
    | EndFixed hi => Some ("<" +:+ version_show hi)
    | EndLastAffected hi => Some ("<=" +:+ version_show hi)
    end in
  let out :=
    match upper with
    | Some upper => (if str_is_empty out then out else out +:+ " ") +:+ upper
    | None => out
    end in
  if str_is_empty out then "*" else out.

(** [parse]: white space, then any of [v] and [=], are skipped. *)
Definition parse (v : string) : option V :=
  version_parse (trim_start (fun c => Ascii.eqb c "v" || Ascii.eqb c "=") (trim v)).

(** ** The sweep *)

Definition raw_version (e : Event) : string :=
  match e with Introduced v | Fixed v | LastAffected v => v end.

Definition is_introduced (e : Event) : bool :=
  match e with Introduced _ => true | _ => false end.

(** The version of an event; [Some None] is the introduction at "0". *)
Definition event_version (e : Event) : option (option V) :=
  if is_introduced e && String.eqb (trim (raw_version e)) "0" then Some None
  else Some <$> parse (raw_version e).

Fixpoint parse_events (events : list Event) : option (list (option V * Event)) :=
  match events with
  | [] => Some []
  | e :: events =>
      match event_version e with
      | None => None
      | Some version => (fun l => (version, e) :: l) <$> parse_events events
      end
  end.

(** [Option<Version>]'s order: [None] first. *)
Definition option_cmp (a b : option V) : comparison :=
  match a, b with
  | None, None => Eq
  | None, Some _ => Lt
  | Some _, None => Gt
  | Some a, Some b => version_cmp a b
  end.

(** [sort_by] on the versions, which is stable. *)
Fixpoint insert_event (x : option V * Event) (l : list (option V * Event)) :=
  match l with
  | [] => [x]
  | y :: l' =>
      match option_cmp (fst x) (fst y) with
      | Gt => y :: insert_event x l'
      | _ => x :: l
      end
  end.

Definition sort_events (l : list (option V * Event)) : list (option V * Event) :=
  foldr insert_event [] l.

(** The loop over the sorted events, from the open introduction and the
    intervals found. *)
Fixpoint sweep_loop (l : list (option V * Event)) (open : option (option V))
    (out : list (Interval V)) : option (list (Interval V)) :=
  match l with
  | [] =>
      Some (match open with Some lo => out ++ [mkInterval lo EndOpen] | None => out end)
  | (version, event) :: l =>
      match event, open with
      | Introduced _, None => sweep_loop l (Some version) out
      | Introduced _, Some lo => sweep_loop l (Some lo) out
      | Fixed _, Some lo =>
          match version with
          | Some hi => sweep_loop l None (out ++ [mkInterval lo (EndFixed hi)])
          | None => None
          end
      | LastAffected _, Some lo =>
          match version with
          | Some hi => sweep_loop l None (out ++ [mkInterval lo (EndLastAffected hi)])
          | None => None
          end
      | Fixed _, None | LastAffected _, None => sweep_loop l None out
      end
  end.

Definition sweep (events : list Event) : option (list (Interval V)) :=
  match parse_events events with
  | None => None
  | Some parsed => sweep_loop (sort_events parsed) None []
  end.

Definition Affected_new (ranges : list (list Event)) (versions : list string) : Affected V :=
  mkAffected (concat (omap sweep ranges)) versions.

Definition is_empty (a : Affected V) : bool :=
  match intervals a, versions a with [], [] => true | _, _ => false end.

Definition contains (a : Affected V) (version : string) : bool :=
  if existsb (fun s => String.eqb s version) (versions a) then true
  else match parse version with
       | Some v => existsb (fun i => interval_contains i v) (intervals a)
       | None => false
       end.

Definition npm_range (a : Affected V) : string :=
  match intervals a with
  | [] => str_join " || " (versions a)
  | l => str_join " || " (map render l)
  end.

(** ** The evaluation algorithm of the OSV schema

    The events in the order of their versions; an introduction at or before
    the version turns it vulnerable, a fix at or before it, or a last affected
    version before it, turns it back. *)
Definition osv_event (v : V) (vulnerable : bool) (x : option V * Event) : bool :=
  match x with
  | (None, _) => true
  | (Some w, Introduced _) => if version_le w v then true else vulnerable
  | (Some w, Fixed _) => if version_le w v then false else vulnerable
  | (Some w, LastAffected _) => if version_lt w v then false else vulnerable
  end.

Definition osv_vulnerable (v : V) (events : list (option V * Event)) : bool :=
  fold_left (osv_event v) (sort_events events) false.

(** The schema forbids mixing fixes and last affected versions in a range. *)
Definition unmixed (events : list Event) : Prop :=
  (forall s, Fixed s ∉ events) \/ (forall s, LastAffected s ∉ events).
End Affected.

(** ** Lemmas on the order *)

Section Order.
Context {V : Type} `{SemverLaws V}.
Implicit Types v w lo hi : V.

Definition opt_le (a b : option V) : Prop := option_cmp a b <> Gt.

Lemma option_cmp_antisym (a b : option V) : option_cmp b a = CompOpp (option_cmp a b).
Proof. destruct a, b; simpl; auto using version_cmp_antisym. Qed.

Lemma version_le_trans u v w :
  version_le u v = true -> version_le v w = true -> version_le u w = true.
Proof.
  unfold version_le.
  destruct (version_cmp u v) eqn:E1; [apply version_cmp_eq in E1 as ->; done| |done].
  destruct (version_cmp v w) eqn:E2; [|by rewrite (version_cmp_trans u v w)|done].
  apply version_cmp_eq in E2 as ->. by rewrite E1.
Qed.

Lemma version_lt_le v w : version_lt v w = negb (version_le w v).
Proof.
  unfold version_lt, version_le. rewrite (version_cmp_antisym v w). by destruct (version_cmp v w).
Qed.

Lemma version_le_false v w : version_le v w = false -> version_le w v = true.
Proof.
  unfold version_le. rewrite (version_cmp_antisym v w). by destruct (version_cmp v w).
Qed.

Lemma opt_le_some v w : opt_le (Some v) (Some w) <-> version_le v w = true.
Proof. unfold opt_le, version_le. simpl. by destruct (version_cmp v w). Qed.

#[global] Instance opt_le_trans : Transitive opt_le.
Proof.
  intros [a|] [b|] [c|]; rewrite ?opt_le_some; [apply version_le_trans|..];
    unfold opt_le; simpl; congruence.
Qed.

Definition event_le (x y : option V * Event) : Prop := opt_le (fst x) (fst y).

Lemma insert_event_perm x l : insert_event x l ≡ₚ x :: l.
Proof.
  induction l as [|y l IH]; simpl; [done|]. destruct (option_cmp _ _); try done.
  rewrite IH. by constructor.
Qed.

Lemma sort_events_perm l : sort_events l ≡ₚ l.
Proof. induction l as [|x l IH]; simpl; [done|]. by rewrite insert_event_perm, IH. Qed.

Lemma insert_event_sorted x l :
  StronglySorted event_le l -> StronglySorted event_le (insert_event x l).
Proof.
  induction 1 as [|y l Hs IH Ha]; simpl; [by repeat constructor|].
  destruct (option_cmp x.1 y.1) eqn:E.
  1, 2: assert (event_le x y) by (unfold event_le, opt_le; by rewrite E);
    constructor; [by constructor|]; constructor; [done|];
    eapply Forall_impl; [exact Ha|]; intros z Hz; unfold event_le in *; by etrans.
  constructor; [done|]. rewrite insert_event_perm. constructor; [|done].
  unfold event_le, opt_le. by rewrite option_cmp_antisym, E.
Qed.

Lemma sort_events_sorted l : StronglySorted event_le (sort_events l).
Proof. induction l; simpl; [constructor|by apply insert_event_sorted]. Qed.

(** ** The sweep is the evaluation of the schema *)

(** An event without a version is an introduction. *)
Definition well_formed (x : option V * Event) : Prop :=
  fst x = None -> is_introduced (snd x) = true.

Definition is_open (v : V) (open : option (option V)) : bool :=
  match open with
  | Some (Some lo) => version_le lo v
  | Some None => true
  | None => false
  end.

Lemma osv_stays v l :
  Forall (fun x => osv_event v true x = true) l -> fold_left (osv_event v) l true = true.
Proof. induction 1 as [|x l Hx _ IH]; simpl; [done|]. by rewrite Hx. Qed.

Definition is_fixed (e : Event) : bool := match e with Fixed _ => true | _ => false end.
Definition is_last (e : Event) : bool := match e with LastAffected _ => true | _ => false end.

Lemma interval_contains_open (lo : option V) (e : End V) v :
  interval_contains (mkInterval lo e) v =
  is_open v (Some lo) &&
  match e with
  | EndOpen => true
  | EndFixed hi => negb (version_le hi v)
  | EndLastAffected hi => version_le v hi
  end.
Proof.
  unfold interval_contains. simpl. destruct lo as [lo|]; simpl.
  - rewrite version_lt_le. destruct (version_le lo v); simpl; [|done].
    destruct e; by rewrite ?version_lt_le.
  - destruct e; by rewrite ?version_lt_le.
Qed.

(** After the end of an interval that contains [v] nothing changes for it. *)
Lemma closed_stays v hi l :
  Forall (fun x => opt_le (Some hi) (fst x)) l -> Forall well_formed l ->
  version_le hi v = false \/
    (version_le v hi = true /\ Forall (fun x => is_fixed (snd x) = false) l) ->
  fold_left (osv_event v) l true = true.
Proof.
  intros Hl Hw Hv. apply osv_stays, Forall_forall. intros [[w|] e] Hin; [|done].
  rewrite Forall_forall in Hl. pose proof (Hl _ Hin) as Hhi. apply opt_le_some in Hhi.
  simpl. destruct e; [by case_match|..].
  - destruct (version_le w v) eqn:E; [|done].
    destruct Hv as [Hv|[_ Hf]]; [by rewrite (version_le_trans hi w v) in Hv|].
    rewrite Forall_forall in Hf. by apply Hf in Hin.
  - rewrite version_lt_le. destruct (version_le v w) eqn:E; [done|].
    apply version_le_false in E as E'.
    destruct Hv as [Hv|[Hv _]]; [by rewrite (version_le_trans hi w v) in Hv|].
    by rewrite (version_le_trans v hi w) in E.
Qed.

(** The events after a last affected version fix nothing. *)
Definition apart (l : list (option V * Event)) : Prop :=
  Forall (fun x => is_fixed (snd x) = false) l \/ Forall (fun x => is_last (snd x) = false) l.

Lemma sweep_loop_spec v l open out :
  StronglySorted event_le l -> Forall well_formed l -> apart l ->
  match open with Some lo => Forall (fun x => opt_le lo (fst x)) l | None => True end ->
  exists res, sweep_loop l open out = Some res /\
    existsb (fun i => interval_contains i v) res =
    existsb (fun i => interval_contains i v) out || fold_left (osv_event v) l (is_open v open).
Proof.
  intros Hs. revert open out. induction Hs as [|[w e] l Hs IH Ha]; intros open out Hw Hap Ho; simpl.
  { eexists. split; [done|]. destruct open as [lo|]; simpl; [|by rewrite orb_false_r].
    rewrite existsb_app. simpl. by rewrite interval_contains_open, orb_false_r, andb_true_r. }
  inversion_clear Hw as [|?? Hwe Hwl].
  assert (Hap' : apart l) by (destruct Hap as [Hap|Hap]; inversion_clear Hap; [by left|by right]).
  destruct e as [s|s|s]; simpl in *.
  - assert (Hgo : forall lo : option V, is_open v (Some lo) = osv_event v (is_open v open) (w, Introduced s) ->
        Forall (fun x => opt_le lo (fst x)) l ->
        exists res, sweep_loop l (Some lo) out = Some res /\
          existsb (fun i => interval_contains i v) res =
          existsb (fun i => interval_contains i v) out ||
            fold_left (osv_event v) l (osv_event v (is_open v open) (w, Introduced s))).
    { intros lo <- Hlo. by apply IH. }
    destruct open as [lo|]; simpl in *; [|apply Hgo; [|done]; destruct w; simpl; by try case_match].
    inversion_clear Ho as [|?? Hw0 Ho']. apply Hgo; [|done].
    destruct lo as [lo|], w as [w|]; simpl; try done; [|by case_match].
    destruct (version_le w v) eqn:E; [|done]. apply opt_le_some in Hw0.
    by apply (version_le_trans lo w v).
  - destruct w as [hi|]; [|by discriminate (Hwe eq_refl)].
    destruct open as [lo|]; simpl.
    + inversion_clear Ho as [|?? Hw0 Ho'].
      destruct (IH None (out ++ [mkInterval lo (EndFixed hi)]) Hwl Hap' I) as (res & Hres & Hr).
      exists res. split; [exact Hres|]. rewrite Hr, existsb_app. simpl.
      rewrite interval_contains_open, orb_false_r, <- orb_assoc. f_equal. simpl.
      destruct (version_le hi v) eqn:E; simpl; [by rewrite andb_false_r|]. rewrite andb_true_r.
      destruct (match lo with Some _ => _ | None => _ end); simpl; [|done].
      symmetry. eapply closed_stays; [exact Ha|done|by left].
    + destruct (IH None out Hwl Hap' I) as (res & Hres & Hr).
      exists res. split; [exact Hres|]. rewrite Hr. simpl. by destruct (version_le hi v).
  - destruct w as [hi|]; [|by discriminate (Hwe eq_refl)].
    destruct open as [lo|]; simpl.
    + inversion_clear Ho as [|?? Hw0 Ho'].
      destruct (IH None (out ++ [mkInterval lo (EndLastAffected hi)]) Hwl Hap' I) as (res & Hres & Hr).
      exists res. split; [exact Hres|]. rewrite Hr, existsb_app. simpl.
      rewrite interval_contains_open, orb_false_r, <- orb_assoc, version_lt_le. f_equal. simpl.
      destruct (version_le v hi) eqn:E; simpl; [|by rewrite andb_false_r]. rewrite andb_true_r.
      destruct (match lo with Some _ => _ | None => _ end); simpl; [|done].
      symmetry. eapply closed_stays; [exact Ha|done|right; split; [done|]].
      destruct Hap as [Hap|Hap]; [by inversion_clear Hap|].
      apply Forall_inv in Hap. by simpl in Hap.
    + destruct (IH None out Hwl Hap' I) as (res & Hres & Hr).
      exists res. split; [exact Hres|]. rewrite Hr. simpl. by destruct (version_lt hi v).
Qed.
End Order.

Section Claims.
Context {V : Type} `{SemverLaws V}.

Lemma parse_events_spec (events : list Event) (parsed : list (option V * Event)) :
  parse_events events = Some parsed -> map snd parsed = events /\ Forall well_formed parsed.
Proof.
  revert parsed. induction events as [|e events IH]; intros parsed; simpl; [by intros [= <-]|].
  destruct (event_version e) as [w|] eqn:E; [|done].
  destruct (parse_events events) as [l|]; [|done]. simpl. intros [= <-].
  destruct (IH l eq_refl) as [<- Hl]. split; [done|]. constructor; [|done].
  intros Hw. simpl in *. subst w. unfold event_version in E.
  destruct (is_introduced e); [done|]. simpl in E. by destruct (parse _).
Qed.

Lemma unmixed_apart (events : list Event) (parsed : list (option V * Event)) :
  unmixed events -> map snd parsed = events -> apart (sort_events parsed).
Proof.
  intros Hu <-. unfold apart. rewrite !sort_events_perm.
  destruct Hu as [Hu|Hu]; [left|right]; apply Forall_forall; intros [w e] Hin; simpl;
    destruct e; try done; by destruct (Hu v); apply (list_elem_of_fmap_2 snd _ (w, _)).
Qed.

Lemma sweep_spec (events : list Event) (v : V) :
  unmixed events ->
  match parse_events events with
  | None => sweep (V := V) events = None
  | Some parsed => exists res, sweep events = Some res /\
      existsb (fun i => interval_contains i v) res = osv_vulnerable v parsed
  end.
Proof.
  intros Hu. unfold sweep, osv_vulnerable. destruct (parse_events events) as [parsed|] eqn:E; [|done].
  apply parse_events_spec in E as [Hs Hw].
  destruct (sweep_loop_spec v (sort_events parsed) None []) as (res & E & Hr); try done.
  - apply sort_events_sorted.
  - by rewrite sort_events_perm.
  - by eapply unmixed_apart.
  - by exists res.
Qed.

(** C36: The intervals are the meaning of the advisory.  If no range mixes fixes
    with last affected versions, a version is in the set exactly when it is
    listed, or it is a semantic version and the evaluation algorithm of the OSV
    schema, run on the events of some range whose versions all parse, finds it
    vulnerable; a range with another version contributes nothing. *)
Theorem affected_is_osv (ranges : list (list Event)) (listed : list string) (s : string) :
  Forall unmixed ranges ->
  contains (Affected_new (V := V) ranges listed) s = true <->
  s ∈ listed \/
  exists (v : V) events parsed, parse s = Some v /\ events ∈ ranges /\
    parse_events events = Some parsed /\ osv_vulnerable v parsed = true.
Proof.
  intros Hu. unfold contains, Affected_new. cbn [versions intervals].
  assert (existsb (fun x => String.eqb x s) listed = true <-> s ∈ listed) as Hl.
  { rewrite existsb_exists. setoid_rewrite <- list_elem_of_In. split.
    - by intros (x & Hx & ->%String.eqb_eq).
    - intros Hin. exists s. by rewrite String.eqb_refl. }
  destruct (existsb _ listed); [by intuition|].
  assert (forall v : V, existsb (fun i => interval_contains i v) (concat (omap sweep ranges)) = true
    <-> exists events parsed, events ∈ ranges /\ parse_events events = Some parsed /\
          osv_vulnerable v parsed = true) as Hc.
  { intros v. clear Hl. induction Hu as [|events ranges He _ IH]; simpl.
    - split; [done|]. by intros (? & ? & ?%elem_of_nil & _).
    - setoid_rewrite elem_of_cons. pose proof (sweep_spec events v He) as Hs.
      destruct (parse_events events) as [parsed|] eqn:E.
      + destruct Hs as (res & -> & Hr). simpl. rewrite existsb_app, orb_true_iff, Hr, IH. split.
        * intros [Ho|(e & p & ? & ? & ?)]; [exists events, parsed|exists e, p]; by auto.
        * intros (e & p & [->|Hin] & Hp & Ho); [left; congruence|right; by exists e, p].
      + rewrite Hs. simpl. rewrite IH. split; intros (e & p & Hin & Hp & Ho); exists e, p.
        * by auto.
        * destruct Hin as [->|Hin]; [congruence|done]. }
  destruct (parse s) as [v|] eqn:E.
  - rewrite Hc. split.
    + intros (e & p & ? & ? & ?). right. by exists v, e, p.
    + intros [Hin|(w & e & p & [= <-] & ? & ? & ?)]; [by apply Hl in Hin|by exists e, p].
  - split; [done|]. intros [Hin|(w & e & p & ? & _)]; [by apply Hl in Hin|done].
Qed.
End Claims.

(** ** Witness

    Versions that are one number. *)

#[local] Instance demo_semver : Semver Z := {
  version_parse := parse_u64;
  version_show := fun z => "";
  version_cmp := Z.compare;
}.

#[local] Instance demo_semver_laws : SemverLaws Z.
Proof.
  split; simpl.
  - apply Z.compare_eq_iff.
  - intros a b. apply Z.compare_antisym.
  - apply Z.lt_trans.
Qed.

Definition demo_ranges : list (list Event) :=
  [[Fixed "12"; Introduced "0"; Introduced " v20 "; Fixed "25"]; [Introduced "x"]].

Lemma demo_unmixed : Forall unmixed demo_ranges.
Proof.
  unfold demo_ranges. rewrite !Forall_cons, Forall_nil.
  split_and!; [right; intros s; by rewrite !elem_of_cons, elem_of_nil; intuition congruence..|done].
Qed.

Lemma affected_is_osv_witness :
  contains (Affected_new demo_ranges []) "21" = true /\
  (contains (Affected_new demo_ranges []) "15" = true <->
   "15" ∈ [] \/
   exists (v : Z) events parsed, parse "15" = Some v /\ events ∈ demo_ranges /\
     parse_events events = Some parsed /\ osv_vulnerable v parsed = true).
Proof.
  split; [vm_compute; reflexivity|]. apply affected_is_osv. exact demo_unmixed.
Defined.
