(* ===== verification/Flight.v ===== *)
(** * Single-flight coalescing of proxy fetches (repo/flight.rs)

    Concurrent calls for one key share one fetch.  The steps of the callers and
    of the detached fetch tasks interleave at the lock, the channel and the
    await points; a fetch may panic or be aborted, and a caller may be dropped
    while it waits.  The closure that builds the future is taken not to panic,
    as its callers pass [async] blocks. *)

From stdpp Require Import prelude gmap strings relations.
From Stdlib Require Import ZArith Lia.
From S2P Require Import Prelude.

(** ** Outcomes *)

Inductive FetchKind : Type := Stored | NotFound | AgeBlocked | Retry | FetchError.

Inductive UpstreamFailure : Type := Timeout | Connect | Transport | Blocked | Status | RateLimited.

Record FetchOutcome := mkOutcome {
  kind : FetchKind;
  status : Z;
  retry_after : string;
  failure : option UpstreamFailure;
}.

Definition FetchOutcome_default : FetchOutcome := mkOutcome Stored 0 "" None.
Definition FetchOutcome_stored : FetchOutcome := FetchOutcome_default.
Definition FetchOutcome_error : FetchOutcome :=
  mkOutcome FetchError (status FetchOutcome_default) (retry_after FetchOutcome_default)
    (failure FetchOutcome_default).

(** ** Tasks and callers *)

(** How a fetch task ended. *)
Inductive TaskEnd : Type :=
| Finished (out : FetchOutcome)
| Panicked
| Aborted.

(** Where a fetch task is: the two actions of [Publish]'s drop follow its end. *)
Inductive Phase : Type :=
| Fetching
| Leaving (e : TaskEnd)
| Deregistered (e : TaskEnd)
| Published (e : TaskEnd).

Record Fetch := mkFetch { fetch_key : string; phase : Phase }.

(** Where a caller of [do_call] is. *)
Inductive Caller : Type :=
| Entering (key : string)
| Spawning (key : string) (c : nat)
| Joining (key : string) (c : nat)
| Waiting (key : string) (c : nat)
| Returned (key : string) (out : FetchOutcome)
| Unwound (key : string)
| Dropped.

(** The map of calls in flight and the channels, by number; a fetch has the
    number of the channel it publishes on. *)
Record FlightState := mkFlight {
  calls : gmap string nat;
  channels : gmap nat (option FetchOutcome);
  fetches : gmap nat Fetch;
  callers : gmap nat Caller;
}.

Definition Flight_new : FlightState := mkFlight ∅ ∅ ∅ ∅.

Definition put_caller (i : nat) (x : Caller) (st : FlightState) : FlightState :=
  mkFlight (calls st) (channels st) (fetches st) (<[i := x]> (callers st)).

Definition put_phase (c : nat) (key : string) (p : Phase) (st : FlightState) : FlightState :=
  mkFlight (calls st) (channels st) (<[c := mkFetch key p]> (fetches st)) (callers st).

(** The decision of the role, under the lock; [c] is the new channel. *)
Definition take_role (i : nat) (key : string) (c : nat) (st : FlightState) : FlightState :=
  match calls st !! key with
  | Some rx => put_caller i (Waiting key rx) st
  | None =>
      put_caller i (Spawning key c)
        (mkFlight (<[key := c]> (calls st)) (<[c := None]> (channels st)) (fetches st)
           (callers st))
  end.

(** The leader starts the fetch on a task of its own. *)
Definition spawn_fetch (i : nat) (key : string) (c : nat) (st : FlightState) : FlightState :=
  put_caller i (Joining key c) (put_phase c key Fetching st).

(** [Publish::drop]: first the key is removed, *)
Definition deregister (c : nat) (key : string) (e : TaskEnd) (st : FlightState) : FlightState :=
  put_phase c key (Deregistered e)
    (mkFlight (delete key (calls st)) (channels st) (fetches st) (callers st)).

(** what is published: an explicit error if no outcome was recorded, *)
Definition published (e : TaskEnd) : FetchOutcome :=
  match e with Finished out => out | Panicked | Aborted => FetchOutcome_error end.

(** then the outcome is sent. *)
Definition publish (c : nat) (key : string) (e : TaskEnd) (st : FlightState) : FlightState :=
  put_phase c key (Published e)
    (mkFlight (calls st) (<[c := Some (published e)]> (channels st)) (fetches st) (callers st)).

(** What the leader makes of the join handle. *)
Definition joined (key : string) (e : TaskEnd) : Caller :=
  match e with
  | Finished out => Returned key out
  | Panicked => Unwound key
  | Aborted => Returned key FetchOutcome_error
  end.

(** The sender of the channel is gone: its fetch is over. *)
Definition closed (st : FlightState) (c : nat) : Prop :=
  (forall i key, callers st !! i <> Some (Spawning key c)) /\
  (forall f, fetches st !! c = Some f -> exists e, phase f = Published e).

Inductive flight_step (st : FlightState) : FlightState -> Prop :=
| step_call i key : callers st !! i = None ->
    flight_step st (put_caller i (Entering key) st)
| step_role i key c : callers st !! i = Some (Entering key) -> channels st !! c = None ->
    flight_step st (take_role i key c st)
| step_spawn i key c : callers st !! i = Some (Spawning key c) ->
    flight_step st (spawn_fetch i key c st)
| step_end c key e : fetches st !! c = Some (mkFetch key Fetching) ->
    flight_step st (put_phase c key (Leaving e) st)
| step_deregister c key e : fetches st !! c = Some (mkFetch key (Leaving e)) ->
    flight_step st (deregister c key e st)
| step_publish c key e : fetches st !! c = Some (mkFetch key (Deregistered e)) ->
    flight_step st (publish c key e st)
| step_join i key c e : callers st !! i = Some (Joining key c) ->
    fetches st !! c = Some (mkFetch key (Published e)) ->
    flight_step st (put_caller i (joined key e) st)
| step_observe i key c out : callers st !! i = Some (Waiting key c) ->
    channels st !! c = Some (Some out) ->
    flight_step st (put_caller i (Returned key out) st)
| step_closed i key c : callers st !! i = Some (Waiting key c) ->
    channels st !! c = Some None -> closed st c ->
    flight_step st (put_caller i (Returned key FetchOutcome_error) st)
| step_drop i key c : callers st !! i = Some (Waiting key c) \/ callers st !! i = Some (Joining key c) ->
    flight_step st (put_caller i Dropped st).

(** ** The invariant *)

(** The fetch is registered: not yet past the first action of its end. *)
Definition live (p : Phase) : Prop :=
  match p with Fetching | Leaving _ => True | Deregistered _ | Published _ => False end.

(** The channel is the one of a call for the key. *)
Inductive call_of (st : FlightState) (key : string) (c : nat) : Prop :=
| call_spawning i : callers st !! i = Some (Spawning key c) -> call_of st key c
| call_fetch p : fetches st !! c = Some (mkFetch key p) -> call_of st key c.

Record flight_inv (st : FlightState) : Prop := {
  registered key c : calls st !! key = Some c <->
    (exists i, callers st !! i = Some (Spawning key c)) \/
    (exists p, fetches st !! c = Some (mkFetch key p) /\ live p);
  spawning_once i j key key' c : callers st !! i = Some (Spawning key c) ->
    callers st !! j = Some (Spawning key' c) -> i = j;
  spawning_new i key c : callers st !! i = Some (Spawning key c) ->
    fetches st !! c = None /\ channels st !! c = Some None;
  fetch_channel c key p : fetches st !! c = Some (mkFetch key p) ->
    channels st !! c = Some (match p with Published e => Some (published e) | _ => None end);
  waiting_call i key c : callers st !! i = Some (Waiting key c) -> call_of st key c;
  joining_call i key c : callers st !! i = Some (Joining key c) ->
    exists p, fetches st !! c = Some (mkFetch key p);
  returned_published i key out : callers st !! i = Some (Returned key out) ->
    exists c e, fetches st !! c = Some (mkFetch key (Published e)) /\ out = published e;
}.

(** ** Preservation *)

(** Looks up updated maps at known keys. *)
Ltac look :=
  repeat match goal with
  | H : context [<[?i := _]> _ !! ?j] |- _ =>
      first [rewrite lookup_insert_eq in H | rewrite lookup_insert_ne in H by congruence]
  | |- context [<[?i := _]> _ !! ?j] =>
      first [rewrite lookup_insert_eq | rewrite lookup_insert_ne by congruence]
  end.

Section Preservation.
Context (st : FlightState) (I : flight_inv st).

(** A caller who is not the one to spawn a fetch moves on. *)
Definition may_become (x : Caller) : Prop :=
  match x with
  | Spawning _ _ => False
  | Waiting key c => call_of st key c
  | Joining key c => exists p, fetches st !! c = Some (mkFetch key p)
  | Returned key out =>
      exists c e, fetches st !! c = Some (mkFetch key (Published e)) /\ out = published e
  | _ => True
  end.

Lemma put_caller_other i x j y :
  callers (put_caller i x st) !! j = Some y -> (j = i /\ y = x) \/ callers st !! j = Some y.
Proof. simpl. intros [[-> ->]|[_ ?]]%lookup_insert_Some; auto. Qed.

Lemma put_caller_inv i x :
  may_become x -> (forall key c, callers st !! i <> Some (Spawning key c)) ->
  flight_inv (put_caller i x st).
Proof.
  intros Hx Hi.
  assert (Hsp : forall j key c, callers (put_caller i x st) !! j = Some (Spawning key c) <->
                                callers st !! j = Some (Spawning key c)).
  { intros j key c. split; [intros [[-> <-]|?]%put_caller_other; [done|done]|].
    intros Hj. simpl. rewrite lookup_insert_ne; [done|]. intros ->. by apply Hi in Hj. }
  assert (Hcall : forall key c, call_of st key c -> call_of (put_caller i x st) key c).
  { intros key c [j Hj|p Hp]; [by eapply call_spawning, Hsp|by eapply call_fetch]. }
  split.
  - intros key c. setoid_rewrite Hsp. apply (registered _ I).
  - intros j k key key' c. rewrite !Hsp. apply (spawning_once _ I).
  - intros j key c. rewrite Hsp. apply (spawning_new _ I).
  - apply (fetch_channel _ I).
  - intros j key c [[-> <-]|Hj]%put_caller_other; apply Hcall; [done|by apply (waiting_call _ I) in Hj].
  - intros j key c [[-> <-]|Hj]%put_caller_other; [done|by apply (joining_call _ I) in Hj].
  - intros j key out [[-> <-]|Hj]%put_caller_other; [done|by apply (returned_published _ I) in Hj].
Qed.

Lemma fresh_channel c : channels st !! c = None ->
  fetches st !! c = None /\ forall i key, callers st !! i <> Some (Spawning key c).
Proof.
  intros Hc. split.
  - destruct (fetches st !! c) as [[key p]|] eqn:E; [|done].
    apply (fetch_channel _ I) in E. congruence.
  - intros i key Hi. apply (spawning_new _ I) in Hi as [_ ?]. congruence.
Qed.

Lemma lead_inv i key c :
  callers st !! i = Some (Entering key) -> channels st !! c = None -> calls st !! key = None ->
  flight_inv (put_caller i (Spawning key c)
    (mkFlight (<[key := c]> (calls st)) (<[c := None]> (channels st)) (fetches st) (callers st))).
Proof.
  intros Hi Hc Hk. destruct (fresh_channel c Hc) as [Hf Hs].
  assert (Hcall : forall key' c', call_of st key' c' -> call_of (put_caller i (Spawning key c)
    (mkFlight (<[key := c]> (calls st)) (<[c := None]> (channels st)) (fetches st) (callers st)))
    key' c').
  { intros key' c' [j Hj|p Hp]; [|by eapply call_fetch].
    apply call_spawning with j. simpl. by rewrite lookup_insert_ne by congruence. }
  split; simpl.
  - intros key' c'. destruct (decide (key' = key)) as [->|Hne].
    + rewrite lookup_insert_eq. split.
      * intros [= <-]. left. exists i. by look.
      * intros [[j [[-> [= ->]]|[_ Hj]]%lookup_insert_Some]|Hl]; [done|..];
          exfalso;
          enough (calls st !! key = Some c') by congruence; apply (registered _ I); eauto.
    + rewrite lookup_insert_ne by done. rewrite (registered _ I). split.
      * intros [[j Hj]|?]; [left; exists j|by right]. by rewrite lookup_insert_ne by congruence.
      * intros [[j [[-> [= -> ->]]|[_ Hj]]%lookup_insert_Some]|?]; [done|by left; exists j|by right].
  - intros j k key1 key2 c'. rewrite !lookup_insert_Some.
    intros [[<- Ej]|[_ Hj]] [[<- Ek]|[_ Hk']]; simplify_eq; try done;
      [by apply Hs in Hk'|by apply Hs in Hj|by eapply (spawning_once _ I)].
  - intros j key' c' [[<- [= <- <-]]|[_ Hj]]%lookup_insert_Some; [by look|].
    apply (spawning_new _ I) in Hj as Hj'. split; [apply Hj'|].
    rewrite lookup_insert_ne; [apply Hj'|]. intros ->. by apply Hs in Hj.
  - intros c' key' p Hp. rewrite lookup_insert_ne by congruence. by eapply (fetch_channel _ I).
  - intros j key' c' [[<- [=]]|[_ Hj]]%lookup_insert_Some. apply Hcall. by eapply (waiting_call _ I).
  - intros j key' c' [[<- [=]]|[_ Hj]]%lookup_insert_Some. by eapply (joining_call _ I).
  - intros j key' out [[<- [=]]|[_ Hj]]%lookup_insert_Some. by eapply (returned_published _ I).
Qed.

Lemma spawn_inv i key c :
  callers st !! i = Some (Spawning key c) -> flight_inv (spawn_fetch i key c st).
Proof.
  intros Hi. destruct (spawning_new _ I _ _ _ Hi) as [Hf Hch].
  assert (Hcall : forall key' c', call_of st key' c' -> call_of (spawn_fetch i key c st) key' c').
  { intros key' c' [j Hj|p Hp].
    - destruct (decide (j = i)) as [->|Hne].
      + apply call_fetch with Fetching. simpl. simplify_eq. by look.
      + apply call_spawning with j. simpl. by look.
    - apply call_fetch with p. simpl. by rewrite lookup_insert_ne by congruence. }
  split; simpl.
  - intros key' c'. rewrite (registered _ I). split.
    + intros [[j Hj]|(p & Hp & Hl)].
      * destruct (decide (j = i)) as [->|Hne]; [|left; exists j; by look].
        right. simplify_eq. exists Fetching. by look.
      * right. exists p. by rewrite lookup_insert_ne by congruence.
    + intros [[j [[_ [=]]|[_ Hj]]%lookup_insert_Some]|(p & [[<- [= <- <-]]|[_ Hp]]%lookup_insert_Some & Hl)];
        [left; by exists j|left; by exists i|right; by exists p].
  - intros j k key1 key2 c' [[_ [=]]|[_ Hj]]%lookup_insert_Some [[_ [=]]|[_ Hk]]%lookup_insert_Some.
    by eapply (spawning_once _ I).
  - intros j key' c' [[_ [=]]|[Hne Hj]]%lookup_insert_Some.
    destruct (spawning_new _ I _ _ _ Hj) as [Hf' Hch']. split; [|done].
    rewrite lookup_insert_ne; [done|]. intros ->. by eapply Hne, (spawning_once _ I).
  - intros c' key' p [[<- [= <- <-]]|[_ Hp]]%lookup_insert_Some; [done|by eapply (fetch_channel _ I)].
  - intros j key' c' [[_ [=]]|[_ Hj]]%lookup_insert_Some. apply Hcall. by eapply (waiting_call _ I).
  - intros j key' c' [[<- [= <- <-]]|[_ Hj]]%lookup_insert_Some; [exists Fetching; by look|].
    destruct (joining_call _ I _ _ _ Hj) as [p Hp]. exists p. by rewrite lookup_insert_ne by congruence.
  - intros j key' out [[_ [=]]|[_ Hj]]%lookup_insert_Some.
    destruct (returned_published _ I _ _ _ Hj) as (c' & e & Hp & He). exists c', e.
    by rewrite lookup_insert_ne by congruence.
Qed.

Lemma fetch_not_spawning c key p : fetches st !! c = Some (mkFetch key p) ->
  forall i key', callers st !! i <> Some (Spawning key' c).
Proof. intros Hp i key' Hi. apply (spawning_new _ I) in Hi as [? _]. congruence. Qed.

(** Only a live fetch of the key may be registered for it. *)
Lemma registered_fetch c key p key' : fetches st !! c = Some (mkFetch key p) ->
  calls st !! key' = Some c -> key' = key /\ live p.
Proof.
  intros Hp [[i Hi]|(p' & Hp' & Hl)]%(registered _ I); [by eapply fetch_not_spawning in Hi|].
  by simplify_eq.
Qed.

(** A fetch moves on: [cs] and [chs] are the calls and the channels after. *)
Lemma move_inv c key p p' cs chs :
  fetches st !! c = Some (mkFetch key p) -> (forall e, p <> Published e) ->
  (live p' -> live p) ->
  (forall key' c', cs !! key' = Some c' <-> calls st !! key' = Some c' /\ (c' = c -> live p')) ->
  (forall c', chs !! c' =
     if decide (c' = c) then Some (match p' with Published e => Some (published e) | _ => None end)
     else channels st !! c') ->
  flight_inv (mkFlight cs chs (<[c := mkFetch key p']> (fetches st)) (callers st)).
Proof.
  intros Hp Hne Hlive Hcs Hchs. pose proof (fetch_not_spawning _ _ _ Hp) as Hns.
  assert (Hf : forall c' key' q, fetches st !! c' = Some (mkFetch key' q) ->
    exists q', <[c := mkFetch key p']> (fetches st) !! c' = Some (mkFetch key' q') /\
               (c' <> c -> q' = q)).
  { intros c' key' q Hq. destruct (decide (c' = c)) as [->|Hd]; [|exists q; by look].
    exists p'. look. by simplify_eq. }
  split; simpl.
  - intros key' c'. rewrite Hcs, (registered _ I). split.
    + intros [[?|(q & Hq & Hl)] Hc]; [by left|right]. destruct (decide (c' = c)) as [->|Hd].
      * exists p'. look. simplify_eq. auto.
      * exists q. by look.
    + intros [[i Hi]|(q & [[<- [= <- <-]]|[Hd Hq]]%lookup_insert_Some & Hl)].
      * split; [by left; exists i|]. intros ->. by apply Hns in Hi.
      * split; [right; exists p; auto|auto].
      * split; [right; by exists q|congruence].
  - apply (spawning_once _ I).
  - intros i key' c' Hi. destruct (spawning_new _ I _ _ _ Hi). rewrite Hchs.
    destruct (decide (c' = c)) as [->|Hd]; [by apply Hns in Hi|by look].
  - intros c' key' q Hq. rewrite Hchs. apply lookup_insert_Some in Hq as [[<- [= <- <-]]|[Hd Hq]].
    + by rewrite decide_True.
    + rewrite decide_False by congruence. by eapply (fetch_channel _ I).
  - intros i key' c' [j Hj|q Hq]%(waiting_call _ I); [by eapply call_spawning|].
    destruct (Hf _ _ _ Hq) as (q' & Hq' & _). by eapply call_fetch.
  - intros i key' c' [q Hq]%(joining_call _ I). destruct (Hf _ _ _ Hq) as (q' & Hq' & _).
    by exists q'.
  - intros i key' out (c' & e & Hq & He)%(returned_published _ I). exists c', e. split; [|done].
    rewrite lookup_insert_ne; [done|]. intros ->. simplify_eq. by eapply Hne.
Qed.

Lemma channel_unchanged c key p : fetches st !! c = Some (mkFetch key p) ->
  (forall e, p <> Published e) ->
  forall c', channels st !! c' = if decide (c' = c) then Some None else channels st !! c'.
Proof.
  intros Hp Hne c'. destruct (decide (c' = c)) as [->|]; [|done].
  rewrite (fetch_channel _ I _ _ _ Hp). destruct p as [| | |e]; try done. by destruct (Hne e).
Qed.
End Preservation.

Lemma step_inv st st' : flight_inv st -> flight_step st st' -> flight_inv st'.
Proof.
  intros I [].
  - apply put_caller_inv; [done|done|congruence].
  - unfold take_role. destruct (calls st !! key) as [rx|] eqn:Hk; [|by apply lead_inv].
    apply put_caller_inv; [done| |congruence].
    apply (registered _ I) in Hk as [[j Hj]|(p & Hp & _)]; [by eapply call_spawning|by eapply call_fetch].
  - by apply spawn_inv.
  - apply (move_inv st I c key Fetching); [exact H|done|done| |by eapply (channel_unchanged st I)].
    intros key' c'. by intuition.
  - apply (move_inv st I c key (Leaving e)); [exact H|done|done| |by eapply (channel_unchanged st I)].
    intros key' c'. simpl. rewrite lookup_delete_Some. split.
    + intros [Hd Hk]. split; [done|]. intros ->.
      by apply (registered_fetch _ I _ _ _ _ H) in Hk as [-> _].
    + intros [Hk Hc]. split; [|done]. intros <-. apply Hc.
      assert (calls st !! key = Some c) as Hr by
        (apply (registered _ I); right; by exists (Leaving e)).
      congruence.
  - apply (move_inv st I c key (Deregistered e)); [exact H|done|done| |].
    + intros key' c'. split; [|by intros [? _]]. intros Hk. split; [done|]. intros ->.
      by apply (registered_fetch _ I _ _ _ _ H) in Hk as [_ ?].
    + intros c'. simpl. destruct (decide (c' = c)) as [->|]; by look.
  - apply put_caller_inv; [done| |congruence].
    destruct e as [out| |]; [by exists c, (Finished out)|exact Logic.I|by exists c, Aborted].
  - apply put_caller_inv; [done| |congruence].
    destruct (waiting_call _ I _ _ _ H) as [j Hj|p Hp].
    + apply (spawning_new _ I) in Hj as [_ ?]. congruence.
    + pose proof (fetch_channel _ I _ _ _ Hp) as Hc. rewrite H0 in Hc.
      destruct p as [| | |e]; simplify_eq. by exists c, e.
  - apply put_caller_inv; [done| |congruence].
    destruct (waiting_call _ I _ _ _ H) as [j Hj|p Hp]; [by apply H1 in Hj|].
    destruct (proj2 H1 _ Hp) as [e He]. simpl in He. subst p.
    apply (fetch_channel _ I) in Hp. congruence.
  - apply put_caller_inv; [done|done|]. intros key' c' ?. destruct H; congruence.
Qed.

Lemma reachable_inv st : rtc flight_step Flight_new st -> flight_inv st.
Proof.
  intros Hr. assert (flight_inv Flight_new) as I.
  { split; simpl; intros; try by rewrite lookup_empty in *.
    rewrite lookup_empty. split; [done|].
    intros [[i Hi]|(p & Hp & _)]; [by rewrite lookup_empty in Hi|by rewrite lookup_empty in Hp]. }
  induction Hr; [done|]. by eauto using step_inv.
Qed.

(** ** Properties *)

(** The call of the key on channel [c] is registered: its leader is about to
    spawn the fetch, or the fetch is live. *)
Definition in_progress (st : FlightState) (key : string) (c : nat) : Prop :=
  (exists i, callers st !! i = Some (Spawning key c)) \/
  (exists p, fetches st !! c = Some (mkFetch key p) /\ live p).

(** How far the fetch of channel [c] is from its publication. *)
Definition stage (st : FlightState) (c : nat) : nat :=
  match fetches st !! c with
  | None => 4
  | Some f =>
      match phase f with Fetching => 3 | Leaving _ => 2 | Deregistered _ => 1 | Published _ => 0 end
  end.

(** The caller has its result. *)
Definition settled (st : FlightState) (i : nat) (key : string) : Prop :=
  (exists out, callers st !! i = Some (Returned key out)) \/ callers st !! i = Some (Unwound key).

Lemma stage_put_phase st c key p c' :
  stage (put_phase c key p st) c' =
  if decide (c' = c) then
    match p with Fetching => 3 | Leaving _ => 2 | Deregistered _ => 1 | Published _ => 0 end%nat
  else stage st c'.
Proof. unfold stage, put_phase. simpl. by destruct (decide (c' = c)) as [->|]; look. Qed.

Lemma stage_step st st' c : flight_inv st -> flight_step st st' -> (stage st' c <= stage st c)%nat.
Proof.
  intros I Hstep.
  assert (Hphase : forall c0 key p, fetches st !! c0 = Some (mkFetch key p) ->
    stage st c0 = match p with Fetching => 3 | Leaving _ => 2 | Deregistered _ => 1
                  | Published _ => 0 end%nat) by (intros c0 key p Hp; unfold stage; by rewrite Hp).
  destruct Hstep; try done.
  - unfold take_role. by destruct (calls st !! key).
  - unfold spawn_fetch. change (stage (put_phase c0 key Fetching st) c <= stage st c)%nat.
    rewrite stage_put_phase. destruct (decide (c = c0)) as [->|]; [|done].
    apply (spawning_new _ I) in H as [H _]. unfold stage. rewrite H. lia.
  - rewrite stage_put_phase. destruct (decide (c = c0)) as [->|]; [|done].
    rewrite (Hphase _ _ _ H). lia.
  - unfold deregister. rewrite stage_put_phase. destruct (decide (c = c0)) as [->|]; [|done].
    rewrite (Hphase _ _ _ H). lia.
  - unfold publish. rewrite stage_put_phase. destruct (decide (c = c0)) as [->|]; [|done].
    rewrite (Hphase _ _ _ H). lia.
Qed.

(** A call whose fetch is not over can go on. *)
Lemma call_moves st key c : call_of st key c -> stage st c <> O ->
  flight_inv st -> exists st', flight_step st st' /\ (stage st' c < stage st c)%nat.
Proof.
  intros Hc Hs I. destruct Hc as [i Hi|p Hp].
  - exists (spawn_fetch i key c st). split; [by constructor|].
    change (stage (put_phase c key Fetching st) c < stage st c)%nat.
    rewrite stage_put_phase, decide_True by done.
    apply (spawning_new _ I) in Hi as [Hf _]. unfold stage. rewrite Hf. lia.
  - unfold stage in *. rewrite Hp in *. simpl in *. destruct p as [|e|e|e]; [..|done].
    + exists (put_phase c key (Leaving Aborted) st). split; [by apply step_end|]. simpl. look. simpl. lia.
    + exists (deregister c key e st). split; [by apply step_deregister|]. simpl. look. simpl. lia.
    + exists (publish c key e st). split; [by apply step_publish|]. simpl. look. simpl. lia.
Qed.

(** C33: Concurrent calls for a key share one fetch.  In every reachable state at
    most one call of a key is registered - a leader about to spawn its fetch,
    or one fetch that has not ended - the registered calls are exactly these,
    and a result handed to any caller is what a fetch of that very key
    published: its outcome, or the explicit error when it panicked or was
    aborted.  The case of a channel closed without a value never arises. *)
Theorem flight_coalesces st :
  rtc flight_step Flight_new st ->
  (forall key c c', in_progress st key c -> in_progress st key c' -> c = c') /\
  (forall key c, calls st !! key = Some c <-> in_progress st key c) /\
  (forall i key out, callers st !! i = Some (Returned key out) ->
     exists c e, fetches st !! c = Some (mkFetch key (Published e)) /\ out = published e) /\
  (forall i key c, callers st !! i = Some (Waiting key c) -> channels st !! c = Some None ->
     ~ closed st c).
Proof.
  intros I%reachable_inv. split_and!.
  - intros key c c' Hc%(registered _ I) Hc'%(registered _ I). congruence.
  - apply (registered _ I).
  - apply (returned_published _ I).
  - intros i key c Hi Hch [Hs Hf]. destruct (waiting_call _ I _ _ _ Hi) as [j Hj|p Hp].
    + by apply Hs in Hj.
    + destruct (Hf _ Hp) as [e He]. simpl in He. subst p. apply (fetch_channel _ I) in Hp. congruence.
Qed.

(** No caller is left waiting and no key stays taken.  In every reachable
    state a caller that waits can get its result at once, or the fetch it waits
    for can take its next step towards publication, from which no step of
    anyone takes it back; a caller that leaves changes no fetch; and once no
    call is in progress no key is registered. *)
Theorem flight_never_wedges st :
  rtc flight_step Flight_new st ->
  (forall i key c, callers st !! i = Some (Waiting key c) \/ callers st !! i = Some (Joining key c) ->
     (exists st', flight_step st st' /\ settled st' i key) \/
     (exists st', flight_step st st' /\ (stage st' c < stage st c)%nat)) /\
  (forall st' c, flight_step st st' -> (stage st' c <= stage st c)%nat) /\
  ((forall key c, ~ in_progress st key c) -> calls st = ∅).
Proof.
  intros I%reachable_inv. split_and!.
  - intros i key c Hi. destruct (decide (stage st c = O)) as [Hz|Hnz].
    + left. unfold stage in Hz. destruct (fetches st !! c) as [[key' p]|] eqn:Hf; [|done].
      destruct p as [| | |e]; simpl in Hz; try done. destruct Hi as [Hi|Hi].
      * exists (put_caller i (Returned key (published e)) st). split.
        -- eapply step_observe; [exact Hi|]. by rewrite (fetch_channel _ I _ _ _ Hf).
        -- left. exists (published e). simpl. by look.
      * destruct (joining_call _ I _ _ _ Hi) as [p Hp].
        assert (key' = key) as -> by congruence.
        exists (put_caller i (joined key e) st). split; [by eapply step_join|].
        destruct e as [out| |]; [left; exists out|right|left; exists FetchOutcome_error]; simpl; by look.
    + right. destruct Hi as [Hi|Hi].
      * by eapply call_moves; [eapply (waiting_call _ I)| |].
      * destruct (joining_call _ I _ _ _ Hi) as [p Hp]. by eapply call_moves; [eapply call_fetch| |].
  - intros st' c. by apply stage_step.
  - intros Hno. apply map_empty. intros k. apply eq_None_not_Some. intros [c Hc].
    by apply (Hno k c), (registered _ I).
Qed.

(** ** Witnesses

    Two callers of one key; the fetch panics. *)

Definition demo_flight : FlightState :=
  publish 0 "k" Panicked (deregister 0 "k" Panicked (put_phase 0 "k" (Leaving Panicked)
    (take_role 1 "k" 7 (put_caller 1 (Entering "k")
       (spawn_fetch 0 "k" 0 (take_role 0 "k" 0 (put_caller 0 (Entering "k") Flight_new))))))).

Lemma demo_flight_reachable : rtc flight_step Flight_new demo_flight.
Proof.
  eapply rtc_l; [apply (step_call _ 0 "k"); reflexivity|].
  eapply rtc_l; [apply (step_role _ 0 "k" 0); reflexivity|].
  eapply rtc_l; [apply (step_spawn _ 0 "k" 0); reflexivity|].
  eapply rtc_l; [apply (step_call _ 1 "k"); reflexivity|].
  eapply rtc_l; [apply (step_role _ 1 "k" 7); reflexivity|].
  eapply rtc_l; [apply (step_end _ 0 "k" Panicked); reflexivity|].
  eapply rtc_l; [apply (step_deregister _ 0 "k" Panicked); reflexivity|].
  apply rtc_once, (step_publish _ 0 "k" Panicked). reflexivity.
Qed.

Lemma flight_coalesces_witness :
  callers demo_flight !! 1%nat = Some (Waiting "k" 0) /\
  (calls demo_flight !! "k" = Some 0%nat <-> in_progress demo_flight "k" 0).
Proof.
  split; [reflexivity|]. apply (flight_coalesces demo_flight demo_flight_reachable).
Defined.

Lemma flight_never_wedges_witness :
  (exists st', flight_step demo_flight st' /\ settled st' 1 "k") \/
  (exists st', flight_step demo_flight st' /\ (stage st' 0 < stage demo_flight 0)%nat).
Proof.
  apply (flight_never_wedges demo_flight demo_flight_reachable). left. reflexivity.
Defined.
