(* ===== verification/Pool.v ===== *)
(** * The connection pool of the metadata store (meta.rs)

    Statements run on connections of a pool guarded by a semaphore; a caller
    may be cancelled or time out while it waits, and a swap closes the pool
    under running statements.  The steps interleave at the atomics, the
    semaphore and the lock of the connections.  A write pool has one
    connection: the database then has one writer, which WAL shipping relies
    on. *)

From stdpp Require Import prelude list relations.
From Stdlib Require Import ZArith Lia.
From S2P Require Import Prelude.

(** ** State *)

Inductive ConnRole : Type := RoleWrite | RoleRead.

Definition READ_POOL_SIZE : nat := 8.

Inductive PoolFailure : Type := HandleClosed | Busy | Exhausted.

(** Where a caller of [Pool::run] is.  From [Permitted] on its permit is
    forgotten; from [Popped] on it, or the blocking task it started, owns the
    connection. *)
Inductive PoolTask : Type :=
| Starting
| Asking
| Queueing
| Permitted
| Popped (conn : nat)
| Holding (conn : nat)
| Returning (conn : nat)
| Pushing (conn : nat)
| Adding
| Failed (e : PoolFailure)
| Over.

(** How far [Pool::close] came. *)
Inductive Closing : Type := Open | Flagged | PermitsClosed | Cleared.

#[global] Instance Closing_eq_dec : EqDecision Closing.
Proof. solve_decision. Defined.

Record Pool := mkPool {
  size : nat;
  role : ConnRole;
  conns : list nat;
  permits : nat;
  in_use : Z;
  waiting : Z;
  wait_count : Z;
  closing : Closing;
  tasks : list PoolTask;
}.

(** The flag, and the semaphore. *)
Definition pool_closed (p : Pool) : bool :=
  match closing p with Open => false | _ => true end.
Definition permits_closed (p : Pool) : bool :=
  match closing p with Open | Flagged => false | _ => true end.

Definition Pool_open (size : nat) (role : ConnRole) : Pool :=
  mkPool size role (seq 0 size) size 0 0 0 Open [].

Definition set_tasks (l : list PoolTask) (p : Pool) : Pool :=
  mkPool (size p) (role p) (conns p) (permits p) (in_use p) (waiting p) (wait_count p) (closing p) l.
Definition set_conns (l : list nat) (p : Pool) : Pool :=
  mkPool (size p) (role p) l (permits p) (in_use p) (waiting p) (wait_count p) (closing p) (tasks p).
Definition set_permits (n : nat) (p : Pool) : Pool :=
  mkPool (size p) (role p) (conns p) n (in_use p) (waiting p) (wait_count p) (closing p) (tasks p).
Definition add_in_use (d : Z) (p : Pool) : Pool :=
  mkPool (size p) (role p) (conns p) (permits p) (in_use p + d) (waiting p) (wait_count p)
    (closing p) (tasks p).
Definition add_waiting (d : Z) (p : Pool) : Pool :=
  mkPool (size p) (role p) (conns p) (permits p) (in_use p) (waiting p + d) (wait_count p)
    (closing p) (tasks p).
Definition add_wait_count (p : Pool) : Pool :=
  mkPool (size p) (role p) (conns p) (permits p) (in_use p) (waiting p) (wait_count p + 1)
    (closing p) (tasks p).
Definition set_closing (c : Closing) (p : Pool) : Pool :=
  mkPool (size p) (role p) (conns p) (permits p) (in_use p) (waiting p) (wait_count p) c (tasks p).

(** ** The actions of a caller *)

(** [acquire]: the flag is read first. *)
Definition check_closed (p : Pool) : Pool * PoolTask :=
  (p, if pool_closed p then Failed HandleClosed else Asking).

(** [permits.try_acquire()]; otherwise the caller queues. *)
Definition try_permit (p : Pool) : Pool * PoolTask :=
  if permits_closed p || Nat.eqb (permits p) 0 then (add_waiting 1 p, Queueing)
  else (set_permits (permits p - 1) p, Permitted).

(** How the wait of a queued caller ends. *)
Inductive WaitEnd : Type := Granted | TimedOut | SemaphoreClosed | Cancelled.

(** Whether it may end so: writes may have a time limit. *)
Definition may_end (p : Pool) (e : WaitEnd) : Prop :=
  match e with
  | Granted => permits_closed p = false /\ permits p <> O
  | TimedOut => role p = RoleWrite
  | SemaphoreClosed => permits_closed p = true
  | Cancelled => True
  end.

Definition end_wait (e : WaitEnd) (p : Pool) : Pool * PoolTask :=
  let p := add_waiting (-1) p in
  match e with
  | Granted => (add_wait_count (set_permits (permits p - 1) p), Permitted)
  | TimedOut => (add_wait_count p, Failed Busy)
  | SemaphoreClosed => (add_wait_count p, Failed HandleClosed)
  | Cancelled => (p, Over)
  end.

(** [self.conns.lock().pop()]: the last one. *)
Definition pop_conn (p : Pool) : Pool * PoolTask :=
  match rev (conns p) with
  | c :: cs => (set_conns (rev cs) p, Popped c)
  | [] => (p, Failed Exhausted)
  end.

(** [release], in its four actions. *)
Definition uncount (c : nat) (p : Pool) : Pool * PoolTask := (add_in_use (-1) p, Returning c).
Definition check_release (c : nat) (p : Pool) : Pool * PoolTask :=
  (p, if pool_closed p then Over else Pushing c).
Definition push_conn (c : nat) (p : Pool) : Pool * PoolTask := (set_conns (conns p ++ [c]) p, Adding).
Definition add_permit (p : Pool) : Pool * PoolTask := (set_permits (permits p + 1) p, Over).

(** The next action of a caller; the statement runs between counting and
    uncounting the connection. *)
Inductive task_action (p : Pool) : PoolTask -> Pool * PoolTask -> Prop :=
| act_check : task_action p Starting (check_closed p)
| act_try : task_action p Asking (try_permit p)
| act_wait e : may_end p e -> task_action p Queueing (end_wait e p)
| act_pop : task_action p Permitted (pop_conn p)
| act_count c : task_action p (Popped c) (add_in_use 1 p, Holding c)
| act_finish c : task_action p (Holding c) (uncount c p)
| act_check_release c : task_action p (Returning c) (check_release c p)
| act_push c : task_action p (Pushing c) (push_conn c p)
| act_add : task_action p Adding (add_permit p).

(** [Pool::close]. *)
Definition close_action (p : Pool) : Pool :=
  match closing p with
  | Open => set_closing Flagged p
  | Flagged => set_closing PermitsClosed p
  | PermitsClosed => set_closing Cleared (set_conns [] p)
  | Cleared => p
  end.

Inductive pool_step (p : Pool) : Pool -> Prop :=
| step_start : pool_step p (set_tasks (tasks p ++ [Starting]) p)
| step_task l1 t l2 p' t' :
    tasks p = l1 ++ t :: l2 -> task_action p t (p', t') ->
    pool_step p (set_tasks (l1 ++ t' :: l2) p')
| step_close : pool_step p (close_action p).

(** [Pool::stats], but for the waiting time. *)
Record PoolStats := mkStats {
  max_open : Z;
  stat_in_use : Z;
  idle : Z;
  stat_wait_count : Z;
}.

Definition stats (p : Pool) : PoolStats :=
  mkStats (Z.of_nat (size p)) (in_use p) (Z.max 0 (Z.of_nat (size p) - in_use p)) (wait_count p).

(** ** Who holds what *)

(** The connection a caller owns. *)
Definition conn_of (t : PoolTask) : option nat :=
  match t with
  | Popped c | Holding c | Returning c | Pushing c => Some c
  | _ => None
  end.

Definition owned (p : Pool) : list nat := omap conn_of (tasks p).

Definition is_permitted (t : PoolTask) : bool := match t with Permitted => true | _ => false end.
Definition is_adding (t : PoolTask) : bool := match t with Adding => true | _ => false end.
Definition is_counted (t : PoolTask) : bool := match t with Holding _ => true | _ => false end.
Definition is_queueing (t : PoolTask) : bool := match t with Queueing => true | _ => false end.
Definition is_over (t : PoolTask) : bool := match t with Failed _ | Over => true | _ => false end.

Definition count (f : PoolTask -> bool) (l : list PoolTask) : nat :=
  list_sum (map (fun t => Nat.b2n (f t)) l).

(** ** The invariant *)

Record pool_inv (p : Pool) : Prop := {
  inv_conns : conns p ++ owned p ⊆+ seq 0 (size p);
  inv_permits : closing p <> Cleared ->
    length (conns p) = (permits p + count is_permitted (tasks p) + count is_adding (tasks p))%nat;
  inv_open : closing p = Open -> length (conns p ++ owned p) = size p;
  inv_in_use : in_use p = Z.of_nat (count is_counted (tasks p));
  inv_waiting : waiting p = Z.of_nat (count is_queueing (tasks p));
  inv_exhausted : Failed Exhausted ∈ tasks p -> closing p = Cleared;
}.

(** ** Preservation *)

Lemma count_middle f l1 t l2 :
  count f (l1 ++ t :: l2) = (count f l1 + Nat.b2n (f t) + count f l2)%nat.
Proof. unfold count. rewrite map_app, list_sum_app. simpl. lia. Qed.

Lemma count_snoc f l t : count f (l ++ [t]) = (count f l + Nat.b2n (f t))%nat.
Proof. rewrite count_middle. unfold count at 2. simpl. lia. Qed.

Lemma owned_middle l1 t l2 :
  omap conn_of (l1 ++ t :: l2) ≡ₚ option_list (conn_of t) ++ omap conn_of (l1 ++ l2).
Proof.
  rewrite !omap_app. simpl. destruct (conn_of t); simpl; [by rewrite <- Permutation_middle|done].
Qed.

Lemma set_closing_inv p c l :
  pool_inv p -> (closing p = Cleared -> c = Cleared) -> c <> Open ->
  l = (if decide (c = Cleared) then [] else conns p) -> pool_inv (set_closing c (set_conns l p)).
Proof.
  intros I Hc Ho ->. split; simpl; try done.
  - etrans; [|apply (inv_conns _ I)]. apply submseteq_app; [|done].
    destruct (decide (c = Cleared)); [apply submseteq_nil_l|done].
  - intros Hne. rewrite decide_False by done. apply (inv_permits _ I). auto.
  - apply (inv_in_use _ I).
  - apply (inv_waiting _ I).
  - intros H. by apply Hc, (inv_exhausted _ I).
Qed.

Lemma close_inv p : pool_inv p -> pool_inv (close_action p).
Proof.
  intros I. unfold close_action. destruct (closing p) eqn:E; [..|done].
  - by apply (set_closing_inv p Flagged (conns p) I); [rewrite E|..].
  - by apply (set_closing_inv p PermitsClosed (conns p) I); [rewrite E|..].
  - by apply (set_closing_inv p Cleared [] I).
Qed.

Lemma start_inv p : pool_inv p -> pool_inv (set_tasks (tasks p ++ [Starting]) p).
Proof.
  intros I. unfold owned. split; simpl; unfold owned; simpl;
    rewrite ?count_snoc, ?Nat.add_0_r; simpl; rewrite ?Nat.add_0_r;
    try (rewrite omap_app; simpl; rewrite app_nil_r); try apply I.
  intros [H|H%list_elem_of_singleton]%elem_of_app; [by apply (inv_exhausted _ I)|done].
Qed.

(** The numbers of a task that moves on from [t] to [t'] fit the pools. *)
Record accounted (p p' : Pool) (t t' : PoolTask) : Prop := {
  acc_size : size p' = size p;
  acc_closing : closing p' = closing p;
  acc_permits : (length (conns p') + permits p + Nat.b2n (is_permitted t) + Nat.b2n (is_adding t) =
    length (conns p) + permits p' + Nat.b2n (is_permitted t') + Nat.b2n (is_adding t'))%nat;
  acc_in_use : in_use p' = in_use p - Z.b2z (is_counted t) + Z.b2z (is_counted t');
  acc_waiting : waiting p' = waiting p - Z.b2z (is_queueing t) + Z.b2z (is_queueing t');
}.

Lemma step_task_inv p p' l1 t t' l2 :
  pool_inv p -> tasks p = l1 ++ t :: l2 -> accounted p p' t t' ->
  conns p' ++ option_list (conn_of t') ⊆+ conns p ++ option_list (conn_of t) ->
  (closing p = Open ->
   length (conns p' ++ option_list (conn_of t')) = length (conns p ++ option_list (conn_of t))) ->
  t' <> Failed Exhausted -> pool_inv (set_tasks (l1 ++ t' :: l2) p').
Proof.
  intros I Ht [Es Ec Ep Eu Ew] Hsub Hlen Hex.
  assert (forall b, Z.of_nat (Nat.b2n b) = Z.b2z b) as Hb by by intros [].
  pose proof (inv_permits _ I) as Ip. pose proof (inv_in_use _ I) as Iu.
  pose proof (inv_waiting _ I) as Iw. rewrite Ht in Ip, Iu, Iw.
  rewrite !count_middle in Ip. rewrite count_middle in Iu. rewrite count_middle in Iw.
  pose proof (inv_conns _ I) as Ic. pose proof (inv_open _ I) as Io. unfold owned in *.
  rewrite Ht, owned_middle, app_assoc in Ic. rewrite Ht, owned_middle, app_assoc in Io.
  split; unfold owned; simpl; rewrite ?count_middle, ?owned_middle, ?app_assoc, ?Es, ?Ec.
  - etrans; [|exact Ic]. by apply submseteq_app.
  - intros Hne. specialize (Ip Hne). lia.
  - intros Ho. specialize (Io Ho). specialize (Hlen Ho). rewrite !length_app in *. lia.
  - rewrite !Nat2Z.inj_add, Hb in *. lia.
  - rewrite !Nat2Z.inj_add, Hb in *. lia.
  - intros Hin. apply (inv_exhausted _ I). rewrite Ht.
    apply elem_of_app in Hin as [Hin|[E|Hin]%elem_of_cons]; [|by destruct Hex|];
      apply elem_of_app; [by left|right; by right].
Qed.

Lemma pop_inv p l1 l2 p' t' :
  pool_inv p -> tasks p = l1 ++ Permitted :: l2 -> pop_conn p = (p', t') ->
  pool_inv (set_tasks (l1 ++ t' :: l2) p').
Proof.
  intros I Ht. unfold pop_conn. destruct (rev (conns p)) as [|c cs] eqn:E; intros [= <- <-].
  - apply (f_equal (@length _)) in E as El. rewrite length_rev in El. simpl in El.
    assert (Hc : closing p = Cleared).
    { destruct (decide (closing p = Cleared)) as [|Hne]; [done|].
      pose proof (inv_permits _ I Hne) as Hp. rewrite Ht, !count_middle in Hp. simpl in Hp. lia. }
    pose proof (inv_in_use _ I) as Iu. pose proof (inv_waiting _ I) as Iw.
    pose proof (inv_conns _ I) as Ic. unfold owned in *.
    rewrite Ht, ?count_middle, ?owned_middle in *.
    split; unfold owned; simpl; rewrite ?count_middle, ?owned_middle; simpl; try done; by rewrite Hc.
  - apply (f_equal (@rev _)) in E as Er. rewrite rev_involutive in Er. simpl in Er.
    eapply step_task_inv; [exact I|exact Ht| | | |done].
    + split; simpl; try done; [|lia..]. rewrite Er, length_app. simpl. lia.
    + simpl. rewrite Er. by rewrite app_nil_r.
    + intros _. simpl. by rewrite Er, app_nil_r.
Qed.

Lemma action_inv p l1 t l2 r :
  pool_inv p -> tasks p = l1 ++ t :: l2 -> task_action p t r ->
  pool_inv (set_tasks (l1 ++ r.2 :: l2) r.1).
Proof.
  intros I Ht Ha. destruct Ha as [| |e He| |c|c|c|c|];
    [unfold check_closed; destruct (pool_closed p) eqn:Ec
    |unfold try_permit; destruct (permits_closed p || Nat.eqb (permits p) 0) eqn:Eb
    |destruct e| | | |unfold check_release; destruct (pool_closed p) eqn:Ec|..];
    try (destruct (pop_conn p) eqn:E; by eapply pop_inv); cbn [fst snd];
    (eapply step_task_inv; [exact I|exact Ht|split; simpl; try lia| | |]); simpl;
    rewrite ?length_app; try done; try (simpl in *; lia).
  - apply orb_false_iff in Eb as [_ ?%Nat.eqb_neq]. lia.
  - apply submseteq_app; [done|apply submseteq_nil_l].
  - unfold pool_closed in Ec. intros Ho. by rewrite Ho in Ec.
  - by rewrite app_nil_r.
Qed.

Lemma action_keeps p t r : task_action p t r -> size r.1 = size p /\ role r.1 = role p.
Proof.
  intros [| |e He| |c|c|c|c|]; try done.
  - unfold try_permit. by case_match.
  - by destruct e.
  - unfold pop_conn. by case_match.
Qed.

Lemma pool_step_inv p p' : pool_inv p -> pool_step p p' -> pool_inv p'.
Proof.
  intros I [|l1 t l2 q t' Ht Ha|]; [by apply start_inv| |by apply close_inv].
  by apply (action_inv p l1 t l2 (q, t')).
Qed.

Lemma pool_open_inv n r : pool_inv (Pool_open n r).
Proof.
  split; simpl; unfold owned; simpl; rewrite ?app_nil_r, ?length_seq; try done; [unfold count; simpl; lia|].
  by intros ?%elem_of_nil.
Qed.

Lemma pool_reachable_inv n r p : rtc pool_step (Pool_open n r) p -> pool_inv p /\ size p = n /\ role p = r.
Proof.
  intros Hr. remember (Pool_open n r) as p0 eqn:E.
  assert (pool_inv p0 /\ size p0 = n /\ role p0 = r) as H0.
  { subst. split; [apply pool_open_inv|done]. }
  clear E. induction Hr as [|p0 p1 p Hs _ IH]; [done|]. apply IH. destruct H0 as (I & <- & <-).
  split; [by eapply pool_step_inv|]. destruct Hs as [|l1 t l2 q t' Ht Ha|]; [done| |].
  - by apply action_keeps in Ha.
  - unfold close_action. by destruct (closing p0).
Qed.

(** ** Properties *)

Lemma count_all_over f l :
  (forall t, is_over t = true -> f t = false) -> Forall (fun t => is_over t = true) l -> count f l = O.
Proof.
  intros Hf. unfold count. induction 1 as [|t l Ht _ IH]; simpl; [done|]. by rewrite (Hf t Ht), IH.
Qed.

Lemma owned_all_over l : Forall (fun t => is_over t = true) l -> omap conn_of l = [].
Proof. induction 1 as [|[] l Ht _ IH]; simpl; done. Qed.

Lemma counted_owned l : (count is_counted l <= length (omap conn_of l))%nat.
Proof.
  induction l as [|t l IH]; [done|]. change (t :: l) with ([] ++ t :: l) at 1.
  rewrite count_middle. change (count is_counted []) with O. unfold omap in *. destruct t; simpl in *; lia.
Qed.

(** C34: Connections are exclusive and never lost.  In every reachable state of a
    pool of [n] connections, with callers cancelled, timing out or closing the
    pool at any point, no connection is owned twice, or owned while it is in
    the pool; at most [n] statements run - one in a write pool - and the
    statistics count them; an open pool is never found exhausted by a caller
    that has a permit; and once the callers of an open pool are done, every
    connection and every permit is back. *)
Theorem pool_exclusive n r p :
  rtc pool_step (Pool_open n r) p ->
  NoDup (conns p ++ owned p) /\
  (length (owned p) <= n)%nat /\
  0 <= stat_in_use (stats p) <= Z.of_nat n /\ 0 <= idle (stats p) /\
  (Failed Exhausted ∈ tasks p -> closing p = Cleared) /\
  (closing p = Open -> Forall (fun t => is_over t = true) (tasks p) ->
   conns p ≡ₚ seq 0 n /\ permits p = n).
Proof.
  intros (I & <- & <-)%pool_reachable_inv.
  pose proof (inv_conns _ I) as Hc. pose proof (submseteq_length _ _ Hc) as Hl.
  rewrite length_app, length_seq in Hl. pose proof (counted_owned (tasks p)) as Hu.
  change (omap conn_of (tasks p)) with (owned p) in Hu. split_and!.
  - apply submseteq_Permutation in Hc as [k Hk].
    pose proof (NoDup_seq 0 (size p)) as Hd. rewrite Hk in Hd. by apply NoDup_app in Hd as [? _].
  - lia.
  - simpl. rewrite (inv_in_use _ I). lia.
  - simpl. rewrite (inv_in_use _ I). lia.
  - simpl. lia.
  - apply (inv_exhausted _ I).
  - intros Ho Hall. pose proof (inv_permits _ I) as Hp. pose proof (inv_open _ I Ho) as Hlen.
    unfold owned in *. rewrite (owned_all_over _ Hall), app_nil_r in *.
    rewrite (count_all_over is_permitted), (count_all_over is_adding) in Hp;
      [|by intros []|exact Hall|by intros []|exact Hall].
    specialize (Hp ltac:(by rewrite Ho)). split.
    + apply submseteq_length_Permutation; [done|]. rewrite length_seq. lia.
    + rewrite Hlen in Hp. by rewrite Hp, !Nat.add_0_r.
Qed.

(** ** Witness

    A write pool: one caller holds the connection, another was cancelled while
    it queued. *)

Definition demo_pool : Pool :=
  mkPool 1 RoleWrite [] 0 1 0 0 Open [Holding 0; Over].

Lemma step_by p l1 t l2 r :
  tasks p = l1 ++ t :: l2 -> task_action p t r -> pool_step p (set_tasks (l1 ++ r.2 :: l2) r.1).
Proof. destruct r. apply step_task. Qed.

Lemma demo_pool_reachable : rtc pool_step (Pool_open 1 RoleWrite) demo_pool.
Proof.
  eapply rtc_l; [apply step_start|].
  eapply rtc_l; [eapply (step_by _ [] Starting []); [reflexivity|apply act_check]|].
  eapply rtc_l; [eapply (step_by _ [] Asking []); [reflexivity|apply act_try]|].
  eapply rtc_l; [eapply (step_by _ [] Permitted []); [reflexivity|apply act_pop]|].
  eapply rtc_l; [eapply (step_by _ [] (Popped 0) []); [reflexivity|apply act_count]|].
  eapply rtc_l; [apply step_start|].
  eapply rtc_l; [eapply (step_by _ [Holding 0] Starting []); [reflexivity|apply act_check]|].
  eapply rtc_l; [eapply (step_by _ [Holding 0] Asking []); [reflexivity|apply act_try]|].
  eapply rtc_l; [eapply (step_by _ [Holding 0] Queueing []);
                 [reflexivity|by apply (act_wait _ Cancelled)]|].
  apply rtc_refl.
Qed.

Lemma pool_exclusive_witness :
  owned demo_pool = [0%nat] /\ (length (owned demo_pool) <= 1)%nat.
Proof. split; [reflexivity|]. apply (pool_exclusive 1 RoleWrite demo_pool demo_pool_reachable). Defined.
