(* ===== verification/UpgradeStatus.v ===== *)
(** * The EKSUpgrade resource (kubernetes-upgrade-operator: crd/spec.rs,
    crd/status.rs, crd/types.rs, status.rs)

    The specification and the status of an upgrade, the helpers that change a
    status, and what the API server stores when a status is sent to it as a
    JSON merge patch: a field that the serializer skips keeps the stored value.
    Instants are nanoseconds since the epoch. *)

From stdpp Require Import prelude list strings pretty.
From Stdlib Require Import ZArith Lia Ascii.
From S2P Require Import Prelude.
From S2P Require Import Strings.

(** ** The specification *)

Inductive UpgradeMode : Type := Forward | Rollback.

(** The one strategy of the source, [Replace], is its display text. *)
Record KarpenterNodePoolsConfig := mkKarpenterConfig {
  enabled : bool;
  node_pools : list string;
  max_unavailable : string;
  node_drain_timeout_minutes : Z;
  controller_stable_timeout_minutes : Z;
}.

Record TimeoutConfig := mkTimeouts {
  control_plane_minutes : Z;
  nodegroup_minutes : Z;
}.

(** The map of add-on versions is used by lookups only. *)
Record EKSUpgradeSpec := mkSpec {
  cluster_name : string;
  target_version : string;
  region : string;
  upgrade_mode : UpgradeMode;
  assume_role_arn : option string;
  addon_versions : option (list (string * string));
  dry_run : bool;
  timeouts : option TimeoutConfig;
  karpenter_node_pools : option KarpenterNodePoolsConfig;
}.

#[global] Instance UpgradeMode_eq_dec : EqDecision UpgradeMode.
Proof. solve_decision. Defined.

Definition NODE_POOLS_ALL : string := "ALL".

Definition selects_all (cfg : KarpenterNodePoolsConfig) : bool :=
  match node_pools cfg with
  | [] => true
  | names => existsb (fun n => eq_ignore_ascii_case n NODE_POOLS_ALL) names
  end.

(** [usize::saturating_mul]. *)
Definition usize_saturating_mul (a b : Z) : Z := Z.min (a * b) u64_max.

Definition resolve_max_unavailable (cfg : KarpenterNodePoolsConfig) (total_nodes : Z) : Z :=
  let raw := trim (max_unavailable cfg) in
  let parsed :=
    match strip_suffix "%" raw with
    | None => parse_u64 raw
    | Some pct =>
        match parse_u64 (trim pct) with
        | Some p => Some (usize_saturating_mul total_nodes p / 100)
        | None => None
        end
    end in
  Z.max (default 1 parsed) 1.

(** ** The status *)

Inductive UpgradePhase : Type :=
| Pending
| Planning
| PreflightChecking
| UpgradingControlPlane
| UpgradingAddons
| UpgradingNodeGroups
| UpgradingKarpenterNodePools
| RollingBackNodeGroups
| RollingBackAddons
| RollingBackControlPlane
| Completed
| Failed.

Inductive ComponentStatus : Type := CPending | CInProgress | CCompleted | CFailed | CSkipped.

#[global] Instance UpgradePhase_eq_dec : EqDecision UpgradePhase.
Proof. solve_decision. Defined.
#[global] Instance ComponentStatus_eq_dec : EqDecision ComponentStatus.
Proof. solve_decision. Defined.

Record PlanningStatus := mkPlanning {
  source_version : option string;
  upgrade_path : list string;
}.

Record PreflightCheckStatus := mkCheckStatus {
  check_name : string;
  check_status : string;
  check_message : string;
  check_resources : list string;
}.

Record ControlPlaneStatus := mkControlPlane {
  current_step : Z;
  total_steps : Z;
  cp_target : option string;
  cp_update_id : option string;
  cp_started_at : option Z;
  cp_completed_at : option Z;
}.

Record AddonStatus := mkAddon {
  a_name : string;
  a_current_version : string;
  a_target_version : string;
  a_status : ComponentStatus;
  a_started_at : option Z;
  a_completed_at : option Z;
}.

Record NodegroupStatus := mkNodegroup {
  ng_name : string;
  ng_current_version : string;
  ng_target_version : string;
  ng_status : ComponentStatus;
  ng_update_id : option string;
  ng_started_at : option Z;
  ng_completed_at : option Z;
}.

Record CurrentBatchEntry := mkEntry {
  node_claim : string;
  node_name : option string;
  provider_id : option string;
  entry_state : string;
  entry_started_at : option Z;
  entry_controllers : list string;
}.

Record NodeClaimReplacement := mkReplacement {
  old_node_claim : string;
  new_node_claim : option string;
  old_node_name : option string;
}.

Record KarpenterPoolStatus := mkPool {
  pool_name : string;
  pool_status : ComponentStatus;
  pool_total_nodes : Z;
  pool_replaced_nodes : Z;
  completed_node_claims : list string;
  replacements : list NodeClaimReplacement;
  current_batch : list CurrentBatchEntry;
}.

Record KarpenterNodePoolsStatus := mkKarpenterStatus {
  strategy : string;
  active_pool : option string;
  kp_total_nodes : Z;
  kp_replaced_nodes : Z;
  pools : list KarpenterPoolStatus;
}.

Record PhaseStatuses := mkPhases {
  planning : option PlanningStatus;
  preflight : option (list PreflightCheckStatus);
  control_plane : option ControlPlaneStatus;
  addons : list AddonStatus;
  nodegroups : list NodegroupStatus;
  karpenter_pools : option KarpenterNodePoolsStatus;
}.

Record VersionLifecycleInfo := mkLifecycleInfo {
  li_version : string;
  li_status : string;
  end_of_standard_support_date : option Z;
  end_of_extended_support_date : option Z;
}.

Record LifecycleStatus := mkLifecycle {
  last_checked_time : Z;
  lc_current_version : option VersionLifecycleInfo;
  lc_target_version : option VersionLifecycleInfo;
  lc_error : option string;
}.

Record UpgradeCondition := mkCondition {
  c_type : string;
  c_status : string;
  c_reason : string;
  c_message : option string;
  last_transition_time : Z;
}.

Record AwsIdentity := mkIdentity { account_id : string; arn : string }.

Record TransitionRecord := mkTransition {
  t_mode : UpgradeMode;
  to_version : string;
  t_completed_at : Z;
}.

Record EKSUpgradeStatus := mkStatus {
  phase : option UpgradePhase;
  current_version : option string;
  progress : option string;
  phases : PhaseStatuses;
  conditions : list UpgradeCondition;
  started_at : option Z;
  observed_generation : Z;
  message : option string;
  completed_at : option Z;
  identity : option AwsIdentity;
  lifecycle : option LifecycleStatus;
  last_transition : option TransitionRecord;
}.

Definition PhaseStatuses_default : PhaseStatuses := mkPhases None None None [] [] None.

Definition EKSUpgradeStatus_default : EKSUpgradeStatus :=
  mkStatus None None None PhaseStatuses_default [] None 0 None None None None None.

(** ** Field updates *)

Definition with_phase p s := mkStatus p (current_version s) (progress s) (phases s) (conditions s)
  (started_at s) (observed_generation s) (message s) (completed_at s) (identity s) (lifecycle s)
  (last_transition s).
Definition with_current_version v s := mkStatus (phase s) v (progress s) (phases s) (conditions s)
  (started_at s) (observed_generation s) (message s) (completed_at s) (identity s) (lifecycle s)
  (last_transition s).
Definition with_progress p s := mkStatus (phase s) (current_version s) p (phases s) (conditions s)
  (started_at s) (observed_generation s) (message s) (completed_at s) (identity s) (lifecycle s)
  (last_transition s).
Definition with_phases p s := mkStatus (phase s) (current_version s) (progress s) p (conditions s)
  (started_at s) (observed_generation s) (message s) (completed_at s) (identity s) (lifecycle s)
  (last_transition s).
Definition with_conditions c s := mkStatus (phase s) (current_version s) (progress s) (phases s) c
  (started_at s) (observed_generation s) (message s) (completed_at s) (identity s) (lifecycle s)
  (last_transition s).
Definition with_started_at t s := mkStatus (phase s) (current_version s) (progress s) (phases s)
  (conditions s) t (observed_generation s) (message s) (completed_at s) (identity s) (lifecycle s)
  (last_transition s).
Definition with_observed_generation g s := mkStatus (phase s) (current_version s) (progress s)
  (phases s) (conditions s) (started_at s) g (message s) (completed_at s) (identity s) (lifecycle s)
  (last_transition s).
Definition with_message m s := mkStatus (phase s) (current_version s) (progress s) (phases s)
  (conditions s) (started_at s) (observed_generation s) m (completed_at s) (identity s) (lifecycle s)
  (last_transition s).
Definition with_completed_at t s := mkStatus (phase s) (current_version s) (progress s) (phases s)
  (conditions s) (started_at s) (observed_generation s) (message s) t (identity s) (lifecycle s)
  (last_transition s).
Definition with_identity i s := mkStatus (phase s) (current_version s) (progress s) (phases s)
  (conditions s) (started_at s) (observed_generation s) (message s) (completed_at s) i (lifecycle s)
  (last_transition s).
Definition with_lifecycle l s := mkStatus (phase s) (current_version s) (progress s) (phases s)
  (conditions s) (started_at s) (observed_generation s) (message s) (completed_at s) (identity s) l
  (last_transition s).
Definition with_last_transition t s := mkStatus (phase s) (current_version s) (progress s) (phases s)
  (conditions s) (started_at s) (observed_generation s) (message s) (completed_at s) (identity s)
  (lifecycle s) t.

Definition set_planning p (ps : PhaseStatuses) :=
  mkPhases p (preflight ps) (control_plane ps) (addons ps) (nodegroups ps) (karpenter_pools ps).
Definition set_preflight p (ps : PhaseStatuses) :=
  mkPhases (planning ps) p (control_plane ps) (addons ps) (nodegroups ps) (karpenter_pools ps).
Definition set_control_plane c (ps : PhaseStatuses) :=
  mkPhases (planning ps) (preflight ps) c (addons ps) (nodegroups ps) (karpenter_pools ps).
Definition set_addons a (ps : PhaseStatuses) :=
  mkPhases (planning ps) (preflight ps) (control_plane ps) a (nodegroups ps) (karpenter_pools ps).
Definition set_nodegroups n (ps : PhaseStatuses) :=
  mkPhases (planning ps) (preflight ps) (control_plane ps) (addons ps) n (karpenter_pools ps).
Definition set_karpenter_pools k (ps : PhaseStatuses) :=
  mkPhases (planning ps) (preflight ps) (control_plane ps) (addons ps) (nodegroups ps) k.

(** ** Status helpers (status.rs); [now] is the clock *)

Definition set_phase (now : Z) (p : UpgradePhase) (s : EKSUpgradeStatus) : EKSUpgradeStatus :=
  with_phase (Some p)
    (if decide (p = Completed) then with_completed_at (Some now) s else s).

Definition set_condition (now : Z) (condition_type condition_status reason : string)
  (msg : option string) (s : EKSUpgradeStatus) : EKSUpgradeStatus :=
  with_conditions
    (filter (fun c => c_type c <> condition_type) (conditions s)
       ++ [mkCondition condition_type condition_status reason msg now]) s.

Definition set_failed (now : Z) (msg : string) (s : EKSUpgradeStatus) : EKSUpgradeStatus :=
  set_condition now "Ready" "False" "UpgradeFailed" (Some msg)
    (with_message (Some msg) (with_completed_at (Some now) (with_phase (Some Failed) s))).

Definition is_done (c : ComponentStatus) : bool :=
  match c with CCompleted | CSkipped => true | _ => false end.

(** The number of elements whose status is done. *)
Definition count_done {A} (f : A -> ComponentStatus) (l : list A) : Z :=
  zlen (filter (fun x => is_done (f x) = true) l).

Definition saturating_sub (a b : Z) : Z := Z.max (a - b) 0.

(** The completed and the total units; the display of the pair is
    [completed/total]. *)
Definition progress_units (s : EKSUpgradeStatus) : option (Z * Z) :=
  let ps := phases s in
  let cp_total := match control_plane ps with Some c => total_steps c | None => 0 end in
  let kp := match karpenter_pools ps with Some k => pools k | None => [] end in
  let total := cp_total + zlen (addons ps) + zlen (nodegroups ps) + zlen kp in
  if total =? 0 then None
  else if decide (phase s = Some Completed) then Some (total, total)
  else
    let cp_done :=
      match control_plane ps with
      | Some c => if is_some (cp_completed_at c) then total_steps c
                  else saturating_sub (current_step c) 1
      | None => 0
      end in
    Some (cp_done + count_done a_status (addons ps) + count_done ng_status (nodegroups ps)
            + count_done pool_status kp, total).

Definition compute_progress (s : EKSUpgradeStatus) : option string :=
  match progress_units s with
  | Some (done, total) => Some (pretty done +:+ "/" +:+ pretty total)
  | None => None
  end.

(** ** The merge patch of a status

    [patch_status] sends the serialized status; the server merges it into the
    stored one (RFC 7396): objects field by field, arrays as a whole.  A field
    skipped by the serializer is absent from the patch. *)

Definition skip_none {A} (stored sent : option A) : option A :=
  match sent with Some a => Some a | None => stored end.

Definition skip_empty {A} (stored sent : list A) : list A :=
  match sent with [] => stored | _ => sent end.

Definition skip_empty_string (stored sent : string) : string :=
  if str_is_empty sent then stored else sent.

(** An optional object, absent from the patch when [None]. *)
Definition merge_object {A} (f : A -> A -> A) (stored sent : option A) : option A :=
  match stored, sent with
  | Some o, Some n => Some (f o n)
  | None, Some n => Some n
  | o, None => o
  end.

Definition merge_planning (o n : PlanningStatus) : PlanningStatus :=
  mkPlanning (skip_none (source_version o) (source_version n))
    (skip_empty (upgrade_path o) (upgrade_path n)).

Definition merge_control_plane (o n : ControlPlaneStatus) : ControlPlaneStatus :=
  mkControlPlane (current_step n) (total_steps n) (cp_target n) (cp_update_id n) (cp_started_at n)
    (skip_none (cp_completed_at o) (cp_completed_at n)).

Definition merge_karpenter (o n : KarpenterNodePoolsStatus) : KarpenterNodePoolsStatus :=
  mkKarpenterStatus (skip_empty_string (strategy o) (strategy n)) (active_pool n)
    (kp_total_nodes n) (kp_replaced_nodes n) (skip_empty (pools o) (pools n)).

Definition merge_phases (o n : PhaseStatuses) : PhaseStatuses :=
  mkPhases (merge_object merge_planning (planning o) (planning n))
    (merge_object skip_empty (preflight o) (preflight n))
    (merge_object merge_control_plane (control_plane o) (control_plane n))
    (skip_empty (addons o) (addons n))
    (skip_empty (nodegroups o) (nodegroups n))
    (merge_object merge_karpenter (karpenter_pools o) (karpenter_pools n)).

Definition merge_lifecycle_info (o n : VersionLifecycleInfo) : VersionLifecycleInfo :=
  mkLifecycleInfo (li_version n) (li_status n)
    (skip_none (end_of_standard_support_date o) (end_of_standard_support_date n))
    (skip_none (end_of_extended_support_date o) (end_of_extended_support_date n)).

Definition merge_lifecycle (o n : LifecycleStatus) : LifecycleStatus :=
  mkLifecycle (last_checked_time n)
    (merge_object merge_lifecycle_info (lc_current_version o) (lc_current_version n))
    (merge_object merge_lifecycle_info (lc_target_version o) (lc_target_version n))
    (skip_none (lc_error o) (lc_error n)).

Definition merge_status (o n : EKSUpgradeStatus) : EKSUpgradeStatus :=
  mkStatus (skip_none (phase o) (phase n)) (skip_none (current_version o) (current_version n))
    (skip_none (progress o) (progress n)) (merge_phases (phases o) (phases n))
    (skip_empty (conditions o) (conditions n)) (skip_none (started_at o) (started_at n))
    (observed_generation n) (skip_none (message o) (message n))
    (skip_none (completed_at o) (completed_at n)) (skip_none (identity o) (identity n))
    (merge_object merge_lifecycle (lifecycle o) (lifecycle n))
    (skip_none (last_transition o) (last_transition n)).

(** ** Facts *)

Lemma skip_none_same {A} (o : option A) : skip_none o o = o.
Proof. by destruct o. Qed.

Lemma skip_empty_same {A} (l : list A) : skip_empty l l = l.
Proof. by destruct l. Qed.

Lemma merge_object_same {A} (f : A -> A -> A) o : (forall a, f a a = a) -> merge_object f o o = o.
Proof. intros Hf. destruct o; simpl; [by rewrite Hf|done]. Qed.

Lemma merge_planning_same p : merge_planning p p = p.
Proof. destruct p. unfold merge_planning; simpl. by rewrite skip_none_same, skip_empty_same. Qed.

Lemma merge_control_plane_same c : merge_control_plane c c = c.
Proof. destruct c. unfold merge_control_plane; simpl. by rewrite skip_none_same. Qed.

Lemma merge_karpenter_same k : merge_karpenter k k = k.
Proof.
  destruct k. unfold merge_karpenter, skip_empty_string; simpl.
  rewrite skip_empty_same. by case_match.
Qed.

Lemma merge_lifecycle_info_same l : merge_lifecycle_info l l = l.
Proof. destruct l. unfold merge_lifecycle_info; simpl. by rewrite !skip_none_same. Qed.

Lemma merge_lifecycle_same l : merge_lifecycle l l = l.
Proof.
  destruct l. unfold merge_lifecycle; simpl.
  by rewrite !(merge_object_same _ _ merge_lifecycle_info_same), skip_none_same.
Qed.

Create Rewrite HintDb kuo_merge.
#[export] Hint Rewrite @skip_none_same @skip_empty_same merge_planning_same
  merge_control_plane_same merge_karpenter_same merge_lifecycle_same : kuo_merge.

Lemma count_done_bounds {A} (f : A -> ComponentStatus) l : 0 <= count_done f l <= zlen l.
Proof. unfold count_done, zlen. pose proof (length_filter (fun x => is_done (f x) = true) l). lia. Qed.
