(* ===== verification/KubeVersion.v ===== *)
(** * Kubernetes versions and upgrade paths (kubernetes-upgrade-operator:
    eks/version.rs, k8s/node.rs, error.rs)

    The errors of the operator, the parsing of versions, the path of minor
    versions from the current to the target one, in both directions, and the
    staleness of a kubelet. *)

From stdpp Require Import prelude list strings pretty.
From Stdlib Require Import ZArith Lia Ascii.
From S2P Require Import Prelude.
From S2P Require Import Strings.

Local Open Scope Z_scope.

Inductive KuoError : Type :=
| AwsSdk (component details : string)
| AwsCredentials (component details : string)
| AwsRegion (component details : string)
| ClusterNotFound (name : string)
| InvalidVersion (version : string)
| UpgradeNotPossible (reason : string)
| KubernetesApi (details : string)
| KubernetesForbidden (details : string).

Definition is_transient (e : KuoError) : bool :=
  match e with AwsSdk _ _ | KubernetesApi _ => true | _ => false end.

(** The [Display] of an error. *)
Definition kuo_text (e : KuoError) : string :=
  match e with
  | AwsSdk c d => "[" +:+ c +:+ "] " +:+ d
  | AwsCredentials c d => "[" +:+ c +:+ "] AWS credentials error: " +:+ d
  | AwsRegion c d => "[" +:+ c +:+ "] AWS region not configured: " +:+ d
  | ClusterNotFound n => "Cluster not found: " +:+ n
  | InvalidVersion v => "Invalid version format: " +:+ v
  | UpgradeNotPossible r => "Upgrade not possible: " +:+ r
  | KubernetesApi d => "Kubernetes API error: " +:+ d
  | KubernetesForbidden d => "Kubernetes permission denied: " +:+ d
  end.

(** [str::parse::<u32>]. *)
Definition parse_u32 (s : string) : option Z :=
  match parse_u64 s with
  | Some z => if z <=? u32_max then Some z else None
  | None => None
  end.

Definition parse_k8s_version (version : string) : result KuoError (Z * Z) :=
  match split_on "." version with
  | major :: minor :: _ =>
      match parse_u32 major with
      | None => Err (InvalidVersion version)
      | Some major =>
          match parse_u32 minor with
          | None => Err (InvalidVersion version)
          | Some minor => Ok (major, minor)
          end
      end
  | _ => Err (InvalidVersion version)
  end.

(** [format!("{major}.{minor}")]. *)
Definition version_string (major minor : Z) : string := pretty major +:+ "." +:+ pretty minor.

Definition calculate_upgrade_path (current target : string) : result KuoError (list string) :=
  let? (curr_major, curr_minor) := parse_k8s_version current in
  let? (target_major, target_minor) := parse_k8s_version target in
  if negb (curr_major =? target_major)
  then Err (UpgradeNotPossible "Cross-major version upgrades are not supported")
  else if target_minor =? curr_minor then Ok []
  else if target_minor <? curr_minor
  then Err (UpgradeNotPossible
              ("Target version " +:+ target +:+ " is lower than current version " +:+ current
                 +:+ " (downgrade not supported)"))
  else Ok (map (version_string curr_major)
             (seqZ (u32_wrapping_add curr_minor 1)
                (target_minor + 1 - u32_wrapping_add curr_minor 1))).

Definition calculate_rollback_path (current target : string) : result KuoError (list string) :=
  let? (curr_major, curr_minor) := parse_k8s_version current in
  let? (target_major, target_minor) := parse_k8s_version target in
  if negb (curr_major =? target_major)
  then Err (UpgradeNotPossible "Cross-major version rollbacks are not supported")
  else if target_minor =? curr_minor then Ok []
  else if curr_minor <? target_minor
  then Err (UpgradeNotPossible
              ("Target version " +:+ target +:+ " is higher than current version " +:+ current
                 +:+ " (use Forward mode to upgrade)"))
  else if negb (u32_wrapping_add target_minor 1 =? curr_minor)
  then Err (UpgradeNotPossible
              ("Rollback supports only a single minor version (N-1): cannot roll back from "
                 +:+ current +:+ " to " +:+ target +:+ ". Roll back one minor at a time."))
  else Ok [target].

(** The leading digits of a string. *)
Fixpoint take_digits (s : string) : string :=
  match s with
  | EmptyString => EmptyString
  | String c s' => if is_ascii_digit c then String c (take_digits s') else EmptyString
  end.

Definition parse_minor (version : string) : option Z :=
  let trimmed := trim_start (fun c => Ascii.eqb c "v") (trim version) in
  match split_on "." trimmed with
  | _ :: minor :: _ => parse_u32 (take_digits minor)
  | _ => None
  end.

Definition is_stale_kubelet (kubelet_version : string) (target_minor : Z) : bool :=
  match parse_minor kubelet_version with Some m => m <? target_minor | None => false end.

(** ** Facts *)

Lemma parse_digits_nonneg acc s z : 0 <= acc -> parse_digits acc s = Some z -> 0 <= z.
Proof.
  revert acc. induction s as [|c s IH]; intros acc Hacc; cbn [parse_digits]; [by intros [= <-]|].
  destruct (is_ascii_digit c) eqn:E; [|done]. apply IH.
  unfold is_ascii_digit in E. unfold digit_value. bool_to_prop. lia.
Qed.

Lemma parse_u64_nonneg s z : parse_u64 s = Some z -> 0 <= z.
Proof.
  unfold parse_u64. cbv zeta. generalize (match s with EmptyString => s | String _ _ => s end).
  intros _. destruct (str_is_empty _); [done|].
  destruct (parse_digits 0 _) as [v|] eqn:E; [|done].
  destruct (_ <=? _); [|done]. intros [= <-]. by apply parse_digits_nonneg in E.
Qed.

Lemma parse_u32_range s z : parse_u32 s = Some z -> is_u32 z.
Proof.
  unfold parse_u32. destruct (parse_u64 s) as [v|] eqn:E; [|done]. apply parse_u64_nonneg in E.
  case_match; [|done]. intros [= <-]. bool_to_prop. unfold is_u32, u32_max in *. lia.
Qed.

Lemma parse_u32_pretty z : is_u32 z -> parse_u32 (pretty z) = Some z.
Proof.
  intros Hz. unfold is_u32 in Hz. destruct (pretty_nonneg_spec z) as (Hne & Hall & Hp & _); [lia|].
  unfold parse_u32. rewrite (parse_u64_digits _ _ Hne Hall Hp).
  unfold u64_max, u32_max. rewrite (proj2 (Z.leb_le _ _)) by lia.
  by rewrite (proj2 (Z.leb_le _ _)) by lia.
Qed.

Lemma parse_k8s_version_range v major minor :
  parse_k8s_version v = Ok (major, minor) -> is_u32 major /\ is_u32 minor.
Proof.
  unfold parse_k8s_version. intros H. repeat case_in H.
  eauto using parse_u32_range.
Qed.

Lemma digits_without c s :
  is_ascii_digit c = false -> str_all is_ascii_digit s = true ->
  str_all (fun a => negb (Ascii.eqb a c)) s = true.
Proof.
  intros Hc. induction s as [|a s IH]; cbn [str_all]; [done|]. intros [Ha Hs]%andb_true_iff.
  rewrite (IH Hs), andb_true_r. apply negb_true_iff, Ascii.eqb_neq. congruence.
Qed.

(** A version the path names is read back. *)
Lemma parse_version_string major minor :
  is_u32 major -> is_u32 minor -> parse_k8s_version (version_string major minor) = Ok (major, minor).
Proof.
  intros H1 H2. unfold parse_k8s_version, version_string.
  destruct (pretty_nonneg_spec major) as (_ & Ha & _); [unfold is_u32 in H1; lia|].
  destruct (pretty_nonneg_spec minor) as (_ & Hb & _); [unfold is_u32 in H2; lia|].
  change ("." +:+ pretty minor) with (String "." (pretty minor)).
  rewrite split_on_app, split_on_none by (by apply digits_without).
  by rewrite !parse_u32_pretty.
Qed.

Section Paths.
Context (current target : string) (cmaj cmin tmaj tmin : Z).
Context (Hcurrent : parse_k8s_version current = Ok (cmaj, cmin)).
Context (Htarget : parse_k8s_version target = Ok (tmaj, tmin)).

Lemma upgrade_path_spec path :
  calculate_upgrade_path current target = Ok path <->
  tmaj = cmaj /\ cmin <= tmin /\ path = map (version_string cmaj) (seqZ (cmin + 1) (tmin - cmin)).
Proof.
  destruct (parse_k8s_version_range _ _ _ Hcurrent) as [_ Hc].
  destruct (parse_k8s_version_range _ _ _ Htarget) as [_ Ht]. unfold is_u32 in *.
  unfold calculate_upgrade_path. rewrite Hcurrent, Htarget.
  destruct (cmaj =? tmaj) eqn:E1; cbn [negb]; bool_to_prop; [|split; [done|intros (? & _); lia]].
  destruct (tmin =? cmin) eqn:E2; bool_to_prop.
  - subst. rewrite Z.sub_diag. cbn [seqZ]. rewrite seqZ_nil by lia. cbn [map].
    split; [by intros [= <-]|by intros (_ & _ & ->)].
  - destruct (tmin <? cmin) eqn:E3; bool_to_prop; [split; [done|intros (_ & ? & _); lia]|].
    unfold u32_wrapping_add. rewrite Z.mod_small by lia.
    replace (tmin + 1 - (cmin + 1)) with (tmin - cmin) by lia.
    split; [by intros [= <-]|by intros (_ & _ & ->)].
Qed.

Lemma rollback_path_spec path :
  calculate_rollback_path current target = Ok path <->
  tmaj = cmaj /\ (tmin = cmin /\ path = [] \/ tmin + 1 = cmin /\ path = [target]).
Proof.
  destruct (parse_k8s_version_range _ _ _ Hcurrent) as [_ Hc].
  destruct (parse_k8s_version_range _ _ _ Htarget) as [_ Ht]. unfold is_u32 in *.
  unfold calculate_rollback_path. rewrite Hcurrent, Htarget.
  destruct (cmaj =? tmaj) eqn:E1; cbn [negb]; bool_to_prop; [|split; [done|intros (? & _); lia]].
  destruct (tmin =? cmin) eqn:E2; bool_to_prop;
    [split; [by intros [= <-]; auto|intros (_ & [[_ ->]|[? _]]); [done|lia]]|].
  destruct (cmin <? tmin) eqn:E3; bool_to_prop; [split; [done|intros (_ & [[? _]|[? _]]); lia]|].
  unfold u32_wrapping_add. rewrite Z.mod_small by lia.
  destruct (tmin + 1 =? cmin) eqn:E4; cbn [negb]; bool_to_prop.
  - split; [by intros [= <-]; auto|intros (_ & [[? _]|[_ ->]]); [lia|done]].
  - split; [done|intros (_ & [[? _]|[? _]]); lia].
Qed.
End Paths.

(** the planned path is the right one.  For a forward upgrade it exists
    exactly when the majors agree and the target is not older; it then names
    every minor from the one after the current version up to the target, each
    in a form that reads back as that minor, so the control plane is never
    asked to skip one.  For a rollback it exists exactly when the target is the
    current minor (nothing to do) or the one before it. *)
Theorem version_paths current target cmaj cmin tmaj tmin :
  parse_k8s_version current = Ok (cmaj, cmin) ->
  parse_k8s_version target = Ok (tmaj, tmin) ->
  (forall path, calculate_upgrade_path current target = Ok path ->
     tmaj = cmaj /\ cmin <= tmin /\
     map parse_k8s_version path = map (fun m => Ok (cmaj, m)) (seqZ (cmin + 1) (tmin - cmin))) /\
  ((exists path, calculate_upgrade_path current target = Ok path) <-> tmaj = cmaj /\ cmin <= tmin) /\
  (forall path, calculate_rollback_path current target = Ok path <->
     tmaj = cmaj /\ (tmin = cmin /\ path = [] \/ tmin + 1 = cmin /\ path = [target])).
Proof.
  intros Hc Ht. pose proof (upgrade_path_spec _ _ _ _ _ _ Hc Ht) as Hup. split; [|split].
  - intros path (-> & Hle & ->)%Hup. split; [done|]. split; [done|].
    destruct (parse_k8s_version_range _ _ _ Hc) as [Hmaj Hmin].
    destruct (parse_k8s_version_range _ _ _ Ht) as [_ Hmax].
    rewrite map_map. apply map_ext_in. intros m Hm. apply parse_version_string; [done|].
    apply list_elem_of_In, elem_of_seqZ in Hm. unfold is_u32 in *. lia.
  - split; [intros (path & (-> & Hle & _)%Hup); done|]. intros [-> Hle].
    eexists. apply Hup. eauto.
  - by apply rollback_path_spec.
Qed.

Lemma version_paths_witness :
  calculate_upgrade_path "1.28" "1.31" = Ok ["1.29"; "1.30"; "1.31"] /\
  ((exists path, calculate_upgrade_path "1.28" "1.31" = Ok path) <-> 1 = 1 /\ 28 <= 31) /\
  calculate_rollback_path "1.31" "1.30" = Ok ["1.30"].
Proof.
  split; [vm_compute; reflexivity|]. split.
  - apply (version_paths "1.28" "1.31" 1 28 1 31); vm_compute; reflexivity.
  - apply (version_paths "1.31" "1.30" 1 31 1 30); [vm_compute; reflexivity|vm_compute; reflexivity|].
    split; [reflexivity|]. right. split; reflexivity.
Defined.
