(* ===== verification/Cloud.v ===== *)
(** * The cloud an upgrade works on (kubernetes-upgrade-operator: k8s/client.rs,
    k8s/karpenter.rs, k8s/node.rs, k8s/pdb.rs, k8s/workload.rs)

    AWS and the Kubernetes API servers are not part of the repository.  What
    one reconcile sees of them is a [World]: their answers to the calls it may
    make.  Calls that change the cluster are recorded in the order they are
    made, failed ones included, since a failed call may have taken effect.  The
    world also holds what [slice::sort_by] does with a comparison that is not a
    total order on the list, which the standard library leaves open: any list,
    or a panic, the [None] of [unordered_sort].  A
    computation returns a value or stops: with an error of the operator, with
    another error, or with a panic, which ends the process. *)

From stdpp Require Import prelude list strings pretty.
From Stdlib Require Import ZArith Lia Ascii.
From S2P Require Import Prelude.
From S2P Require Import Strings.
From S2P Require Import UpgradeStatus.
From S2P Require Import KubeVersion.

(** ** What the services return *)

Record ClusterInfo := mkCluster {
  ci_version : string;
  deletion_protection : option bool;
}.

Record VersionLifecycle := mkVersionLifecycle {
  vl_version : string;
  vl_status : string;
  end_of_standard_support : option Z;
  end_of_extended_support : option Z;
}.

Record AddonInfo := mkAddonInfo { ai_name : string; ai_current_version : string }.
Record AddonVersionInfo := mkAddonVersion { av_version : string; default_version : bool }.
Record NodeGroupInfo := mkNodeGroupInfo { ngi_name : string; ngi_version : option string }.

(** An insight as the list call returns it: its status, and what the describe
    call returns for it: its severity and the resources it names, as [type:id]. *)
Record Insight := mkInsight {
  insight_status : option string;
  insight_details : option (string * list string);
}.

(** A failed call of the Kubernetes client: the HTTP status and the text. *)
Record KubeError := mkKubeError { ke_code : option Z; ke_text : string }.

Record NodeClaimInfo := mkNodeClaim {
  nc_name : string;
  nc_node_name : option string;
  nc_provider_id : option string;
  nc_created_at : option Z;
}.

(** An entry of [amiSelectorTerms]: whether it has an [id], and its [alias]
    when it is a string. *)
Record AmiTerm := mkAmiTerm { ami_id : bool; ami_alias : option string }.

Record OwnerReference := mkOwner { o_kind : string; o_name : string; o_controller : option bool }.
Record Pod := mkPod { pod_namespace : option string; pod_owners : option (list OwnerReference) }.

(** A Deployment or a StatefulSet: the replicas of its spec, the ready replicas
    and the observed generation of its status, its generation. *)
Record Replicated := mkReplicated {
  r_replicas : option Z;
  r_status : option (option Z * option Z);
  r_generation : option Z;
}.

Record DaemonSet := mkDaemonSet {
  ds_status : option (Z * Z * option Z);
  ds_generation : option Z;
}.

Record PodDisruptionBudget := mkPdb {
  pdb_namespace : option string;
  pdb_name : option string;
  pdb_status : option (Z * Z);
}.

Record World := mkWorld {
  now : Z;
  aws_clients : result string unit;
  verify_identity : result string AwsIdentity;
  describe_cluster : string -> result KuoError (option ClusterInfo);
  update_cluster_version : string -> string -> result KuoError string;
  check_update_status : string -> string -> result KuoError string;
  describe_cluster_versions : list string -> result KuoError (list VersionLifecycle);
  addon_names : string -> result KuoError (list string);
  describe_addon : string -> string -> result KuoError (option AddonInfo);
  describe_addon_versions : string -> string -> result KuoError (list AddonVersionInfo);
  update_addon : string -> string -> string -> result KuoError string;
  poll_addon_status : string -> string -> result KuoError string;
  nodegroup_names : string -> result KuoError (list string);
  describe_nodegroup : string -> string -> result KuoError (option NodeGroupInfo);
  update_nodegroup_version : string -> string -> string -> result KuoError string;
  poll_nodegroup_update : string -> string -> string -> result KuoError string;
  insights : string -> string -> result KuoError (list Insight);
  build_kube_client : ClusterInfo -> option string -> result KuoError unit;
  get_pdbs : result KubeError (list PodDisruptionBudget);
  probe_nodepools : result KubeError unit;
  nodepool_names : result KubeError (list string);
  nodepool_class : string -> result KubeError (option string);
  class_ami_terms : string -> result KubeError (list AmiTerm);
  get_nodeclaims : string -> result KubeError (list NodeClaimInfo);
  get_nodeclaim : string -> result KubeError bool;
  remove_nodeclaim : string -> result KubeError unit;
  get_node : string -> result KubeError (option (option string));
  get_pods : string -> result KubeError (list Pod);
  get_replicaset : string -> string -> result KubeError (option (option (list OwnerReference)));
  get_deployment : string -> string -> result KubeError (option Replicated);
  get_statefulset : string -> string -> result KubeError (option Replicated);
  get_daemonset : string -> string -> result KubeError (option DaemonSet);
  unordered_sort : list AddonVersionInfo -> option (list AddonVersionInfo);
}.

(** ** Computations *)

Inductive Call : Type :=
| UpdateClusterVersion (version : string)
| UpdateAddon (name version : string)
| UpdateNodegroupVersion (name version : string)
| DeleteNodeClaim (name : string).

Inductive Stop : Type :=
| Kuo (e : KuoError)
| Anyhow (text : string)
| Panic (text : string).

Definition M (A : Type) : Type := list Call * result Stop A.

Definition ret {A} (a : A) : M A := ([], Ok a).
Definition stop {A} (e : Stop) : M A := ([], Err e).

Definition bind {A B} (m : M A) (f : A -> M B) : M B :=
  match m with
  | (cs, Ok a) => let '(cs', r) := f a in (cs ++ cs', r)
  | (cs, Err e) => (cs, Err e)
  end.

Declare Scope kuo_scope.
Delimit Scope kuo_scope with kuo.
Notation "'do!' x := m 'in' k" := (bind m (fun x => k))
  (at level 10, x pattern, m at level 100, k at level 200,
   format "'[v' 'do!'  x  :=  m  'in' '/' k ']'") : kuo_scope.
Open Scope kuo_scope.

(** The [?] on a call that reads, and on one that changes the cluster. *)
Definition lift {A} (r : result KuoError A) : M A :=
  ([], map_err Kuo r).
Definition perform {A} (c : Call) (r : result KuoError A) : M A := ([c], map_err Kuo r).

(** [ok_or_else] and a run-time check that panics. *)
Definition need {A} (e : Stop) (o : option A) : M A :=
  match o with Some a => ret a | None => stop e end.

Fixpoint each {A B} (f : A -> M B) (l : list A) : M (list B) :=
  match l with
  | [] => ret []
  | a :: l => do! b := f a in do! bs := each f l in ret (b :: bs)
  end.

(** ** The Kubernetes wrappers *)

Definition kube_error (context : string) (e : KubeError) : KuoError :=
  KubernetesApi (context +:+ ": " +:+ ke_text e).

Definition classify_api_error (context : string) (code : option Z) (detail : string) : KuoError :=
  if decide (code = Some 403) then KubernetesForbidden (context +:+ " (" +:+ detail +:+ ")")
  else KubernetesApi (context +:+ ": " +:+ detail).

Definition to_kuo_err (context : string) (e : KubeError) : KuoError :=
  classify_api_error context (ke_code e) (ke_text e).

Record ControllerRef := mkController { kind : string; namespace : string; cr_name : string }.

#[global] Instance ControllerRef_eq_dec : EqDecision ControllerRef.
Proof. solve_decision. Defined.

(** The derived order: kinds, then namespaces, then names. *)
Definition controller_cmp (a b : ControllerRef) : comparison :=
  match String.compare (kind a) (kind b) with
  | Eq => match String.compare (namespace a) (namespace b) with
          | Eq => String.compare (cr_name a) (cr_name b)
          | c => c
          end
  | c => c
  end.

(** [BTreeSet::insert]. *)
Fixpoint set_insert (c : ControllerRef) (l : list ControllerRef) : list ControllerRef :=
  match l with
  | [] => [c]
  | d :: l' => match controller_cmp c d with
               | Lt => c :: l
               | Eq => l
               | Gt => d :: set_insert c l'
               end
  end.

Definition dedup (refs : list ControllerRef) : list ControllerRef :=
  fold_left (fun set c => set_insert c set) refs [].

Definition find_controller (owners : list OwnerReference) : option OwnerReference :=
  List.find (fun o => bool_decide (o_controller o = Some true)) owners.

Definition controller_owner (pod : Pod) : option ControllerRef :=
  match pod_owners pod with
  | None => None
  | Some owners =>
      match find_controller owners with
      | Some o => Some (mkController (o_kind o) (default "" (pod_namespace pod)) (o_name o))
      | None => None
      end
  end.

Definition replicated_ready (d : Replicated) : bool :=
  match r_status d with
  | None => false
  | Some (ready, observed) =>
      (default 1 (r_replicas d) <=? default 0 ready)
      && (default 0 (r_generation d) <=? default 0 observed)
  end.

Definition daemonset_ready (d : DaemonSet) : bool :=
  match ds_status d with
  | None => false
  | Some (number_ready, desired, observed) =>
      (desired <=? number_ready) && (default 0 (ds_generation d) <=? default 0 observed)
  end.

Section World.
Context (w : World).

Definition resolve_client (spec : EKSUpgradeSpec) : M unit :=
  match assume_role_arn spec with
  | None => ret ()
  | Some role =>
      do! cluster := lift (describe_cluster w (cluster_name spec)) in
      do! cluster := need (Kuo (ClusterNotFound (cluster_name spec))) cluster in
      lift (build_kube_client w cluster (Some role))
  end.

Definition resolve_owner (pod : Pod) : M (option ControllerRef) :=
  match controller_owner pod with
  | None => ret None
  | Some owner =>
      if String.eqb (kind owner) "ReplicaSet" then
        do! rs := lift (map_err (kube_error ("Failed to get replicaset " +:+ cr_name owner))
                          (get_replicaset w (namespace owner) (cr_name owner))) in
        match rs with
        | Some (Some owners) =>
            match find_controller owners with
            | Some dep => ret (Some (mkController (o_kind dep) (namespace owner) (o_name dep)))
            | None => ret (Some owner)
            end
        | _ => ret (Some owner)
        end
      else ret (Some owner)
  end.

Definition resolve_controllers (pods : list Pod) : M (list ControllerRef) :=
  do! resolved := each resolve_owner pods in ret (dedup (omap id resolved)).

Definition controller_ready (c : ControllerRef) : M bool :=
  let context := "Failed to get " +:+ kind c +:+ " " +:+ cr_name c in
  if String.eqb (kind c) "Deployment" then
    do! d := lift (map_err (kube_error context) (get_deployment w (namespace c) (cr_name c))) in
    ret (from_option replicated_ready false d)
  else if String.eqb (kind c) "StatefulSet" then
    do! d := lift (map_err (kube_error context) (get_statefulset w (namespace c) (cr_name c))) in
    ret (from_option replicated_ready false d)
  else if String.eqb (kind c) "DaemonSet" then
    do! d := lift (map_err (kube_error context) (get_daemonset w (namespace c) (cr_name c))) in
    ret (from_option daemonset_ready false d)
  else ret true.

Definition unstable_controllers (controllers : list ControllerRef) : M (list ControllerRef) :=
  do! ready := each (fun c => do! r := controller_ready c in ret (c, r)) controllers in
  ret (omap (fun '(c, r) => if (r : bool) then None else Some c) ready).

Definition v1_available : M bool :=
  match probe_nodepools w with
  | Ok _ => ret true
  | Err e =>
      if decide (ke_code e = Some 404) then ret false
      else stop (Kuo (kube_error "Failed to probe Karpenter v1 API" e))
  end.

Definition list_nodepool_names : M (list string) :=
  lift (map_err (to_kuo_err "Failed to list NodePools") (nodepool_names w)).

Definition list_nodeclaims (nodepool : string) : M (list NodeClaimInfo) :=
  lift (map_err (to_kuo_err ("Failed to list NodeClaims for " +:+ nodepool))
          (get_nodeclaims w nodepool)).

Definition delete_nodeclaim (name : string) : M unit :=
  perform (DeleteNodeClaim name)
    (map_err (to_kuo_err ("Failed to delete NodeClaim " +:+ name)) (remove_nodeclaim w name)).

Definition nodeclaim_exists (name : string) : M bool :=
  lift (map_err (to_kuo_err ("Failed to get NodeClaim " +:+ name)) (get_nodeclaim w name)).

Definition nodepool_ami_terms (nodepool : string) : M (list AmiTerm) :=
  do! class := lift (map_err (to_kuo_err ("Failed to get NodePool " +:+ nodepool))
                       (nodepool_class w nodepool)) in
  do! class := need (Kuo (KubernetesApi ("NodePool " +:+ nodepool +:+ " has no nodeClassRef.name")))
                 class in
  lift (map_err (to_kuo_err ("Failed to get EC2NodeClass " +:+ class)) (class_ami_terms w class)).

Definition is_pinned_ami (terms : list AmiTerm) : bool :=
  existsb (fun t =>
    if ami_id t then true
    else match ami_alias t with
         | None => true
         | Some alias => negb (is_some (strip_suffix "@latest" alias))
         end) terms.

(** The number of budgets, and those that block a drain. *)
Definition check_pdbs : M (Z * list string) :=
  do! items := lift (map_err (kube_error "Failed to list PDBs") (get_pdbs w)) in
  ret (zlen items,
       omap (fun pdb =>
         match pdb_status pdb with
         | None => None
         | Some (disruptions_allowed, expected_pods) =>
             if (disruptions_allowed =? 0) && (0 <? expected_pods)
             then Some (default "default" (pdb_namespace pdb) +:+ "/"
                          +:+ default "unknown" (pdb_name pdb))
             else None
         end) items).
End World.

(** ** Facts on computations *)

Lemma bind_inv_ok {A B} (m : M A) (f : A -> M B) cs b :
  bind m f = (cs, Ok b) <->
  exists cs1 a cs2, m = (cs1, Ok a) /\ f a = (cs2, Ok b) /\ cs = cs1 ++ cs2.
Proof.
  unfold bind. destruct m as [cs1 [a|e]].
  - destruct (f a) as [cs2 r] eqn:E. split; [intros [= <- ->]; eauto 8|].
    intros (? & ? & ? & [= <- <-] & H & ->). congruence.
  - split; [done|]. by intros (? & ? & ? & [=] & _).
Qed.

Lemma bind_inv_err {A B} (m : M A) (f : A -> M B) cs e :
  bind m f = (cs, Err e) <->
  m = (cs, Err e) \/
  exists cs1 a cs2, m = (cs1, Ok a) /\ f a = (cs2, Err e) /\ cs = cs1 ++ cs2.
Proof.
  unfold bind. destruct m as [cs1 [a|e1]].
  - destruct (f a) as [cs2 r] eqn:E. split; [intros [= <- ->]; eauto 10|].
    intros [[=]|(? & ? & ? & [= <- <-] & H & ->)]. congruence.
  - split; [intros [= -> ->]; eauto|]. by intros [[= -> ->]|(? & ? & ? & [=] & _)].
Qed.

Lemma bind_done {A B} (a : A) (f : A -> M B) : bind ([], Ok a) f = f a.
Proof. unfold bind. by destruct (f a). Qed.

Lemma bind_ret {A B} (a : A) (f : A -> M B) : bind (ret a) f = f a.
Proof. apply bind_done. Qed.

Lemma bind_snd {A B} (m : M A) (f : A -> M B) :
  (bind m f).2 = match m.2 with Ok a => (f a).2 | Err e => Err e end.
Proof. unfold bind. destruct m as [cs [a|e]]; [|done]. cbn. by destruct (f a). Qed.

(** The calls of a computation satisfy [C], whatever its outcome. *)
Definition calls {A} (C : Call -> Prop) (m : M A) : Prop := Forall C m.1.

Lemma calls_bind {A B} C (m : M A) (f : A -> M B) :
  calls C m -> (forall cs a, m = (cs, Ok a) -> calls C (f a)) -> calls C (bind m f).
Proof.
  unfold calls, bind. destruct m as [cs [a|e]]; simpl; [|done]. intros Hm Hf.
  specialize (Hf _ _ eq_refl). destruct (f a) as [cs' r]. by apply Forall_app.
Qed.

Lemma calls_ret {A} C (a : A) : calls C (ret a).
Proof. apply Forall_nil_2. Qed.
Lemma calls_stop {A} C e : calls C (@stop A e).
Proof. apply Forall_nil_2. Qed.
Lemma calls_lift {A} C (r : result KuoError A) : calls C (lift r).
Proof. apply Forall_nil_2. Qed.
Lemma calls_need {A} C e (o : option A) : calls C (need e o).
Proof. destruct o; apply Forall_nil_2. Qed.
Lemma calls_perform {A} (C : Call -> Prop) c (r : result KuoError A) : C c -> calls C (perform c r).
Proof. intros. by apply Forall_singleton. Qed.
Lemma calls_each {A B} C (f : A -> M B) l : (forall a, calls C (f a)) -> calls C (each f l).
Proof.
  intros Hf. induction l as [|a l IH]; cbn [each]; [apply calls_ret|].
  apply calls_bind; [done|]. intros ? ? ?. apply calls_bind; [done|]. intros. apply calls_ret.
Qed.

Create HintDb kuo.
#[export] Hint Resolve calls_ret calls_stop calls_lift calls_need : kuo.

(** ** Add-on versions and plans (kubernetes-upgrade-operator: eks/addon.rs,
    eks/nodegroup.rs)

    The comparison of add-on versions, the preferred compatible version, the
    target of a rollback, and the add-ons and node groups a plan names. *)

Definition AddonVersion : Type := Z * Z * Z * Z.

Definition parse_addon_version (version : string) : option AddonVersion :=
  let s := default version (strip_prefix "v" version) in
  let parsed :=
    match split_once_str "-eksbuild." s with
    | Some (sem, eksbuild) =>
        match parse_u64 eksbuild with Some build => Some (sem, build) | None => None end
    | None => Some (s, 0)
    end in
  match parsed with
  | None => None
  | Some (semver_part, build) =>
      match split_on "." semver_part with
      | [major; minor; patch] =>
          match parse_u64 major, parse_u64 minor, parse_u64 patch with
          | Some major, Some minor, Some patch => Some (major, minor, patch, build)
          | _, _, _ => None
          end
      | _ => None
      end
  end.

(** The order of tuples. *)
Definition version_cmp (a b : AddonVersion) : comparison :=
  let '(a1, a2, a3, a4) := a in
  let '(b1, b2, b3, b4) := b in
  match a1 ?= b1 with
  | Eq => match a2 ?= b2 with
          | Eq => match a3 ?= b3 with Eq => a4 ?= b4 | c => c end
          | c => c
          end
  | c => c
  end.

Definition compare_addon_versions (a b : string) : comparison :=
  match parse_addon_version a, parse_addon_version b with
  | Some va, Some vb => version_cmp va vb
  | _, _ => String.compare a b
  end.

Definition le_version (u v : AddonVersionInfo) : bool :=
  match compare_addon_versions (av_version u) (av_version v) with Gt => false | _ => true end.

(** The comparison orders the list, as [sort_by] requires; of two versions one
    is always at most the other. *)
Definition total_order (l : list AddonVersionInfo) : bool :=
  forallb (fun u => forallb (fun v => forallb (fun x =>
    negb (le_version u v && le_version v x) || le_version u x) l) l) l.

(** Sorting, latest first; stable, as [sort_by] on an order. *)
Fixpoint insert_version (v : AddonVersionInfo) (l : list AddonVersionInfo) : list AddonVersionInfo :=
  match l with
  | [] => [v]
  | u :: l' =>
      match compare_addon_versions (av_version u) (av_version v) with
      | Lt => v :: l
      | _ => u :: insert_version v l'
      end
  end.

Definition sort_versions (w : World) (l : list AddonVersionInfo) : M (list AddonVersionInfo) :=
  if total_order l then ret (fold_left (fun sorted v => insert_version v sorted) l [])
  else need (Panic "user-provided comparison function does not correctly implement a total order")
         (unordered_sort w l).

Definition pick_latest_compatible (versions : list AddonVersionInfo) : option string :=
  match List.find default_version versions with
  | Some default => Some (av_version default)
  | None => match versions with v :: _ => Some (av_version v) | [] => None end
  end.

Definition resolve_rollback_target (current_version : string) (specified auto_resolved : option string)
  : option string :=
  match specified with
  | Some pinned => if String.eqb pinned current_version then None else Some pinned
  | None =>
      match auto_resolved with
      | None => None
      | Some resolved =>
          match compare_addon_versions resolved current_version with
          | Lt => Some resolved
          | _ => None
          end
      end
  end.

(** [HashMap::get]. *)
Definition lookup_version (name : string) (versions : list (string * string)) : option string :=
  find_map (fun '(n, v) => if String.eqb n name then Some v else None) versions.

(** The successful answers of calls made together; failures are dropped. *)
Definition successes {A B} (f : A -> result KuoError (option B)) (l : list A) : list B :=
  omap (fun a => match f a with Ok o => o | Err _ => None end) l.

Section Plan.
Context (w : World).

Definition list_addons (cluster : string) : M (list AddonInfo) :=
  do! names := lift (addon_names w cluster) in
  ret (successes (describe_addon w cluster) names).

Definition get_compatible_versions (addon k8s_version : string) : M (list AddonVersionInfo) :=
  do! versions := lift (describe_addon_versions w addon k8s_version) in
  sort_versions w versions.

Definition get_latest_compatible_version (addon k8s_version : string) : M (option string) :=
  do! versions := get_compatible_versions addon k8s_version in
  ret (pick_latest_compatible versions).

(** One add-on of the loop of [plan_addon_upgrades]: its target, if any. *)
Definition addon_upgrade (target_k8s_version : string) (specified : list (string * string))
  (addon : AddonInfo) : M (option (AddonInfo * string)) :=
  do! target :=
    match lookup_version (ai_name addon) specified with
    | Some v => ret (Some v)
    | None => get_latest_compatible_version (ai_name addon) target_k8s_version
    end in
  match target with
  | None => ret None
  | Some target =>
      ret (if String.eqb target (ai_current_version addon) then None else Some (addon, target))
  end.

Definition plan_addon_upgrades (cluster target_k8s_version : string)
  (specified : list (string * string)) : M (list (AddonInfo * string)) :=
  do! current := list_addons cluster in
  do! planned := each (addon_upgrade target_k8s_version specified) current in
  ret (omap id planned).

Definition addon_rollback (target_k8s_version : string) (specified : list (string * string))
  (addon : AddonInfo) : M (option (AddonInfo * string)) :=
  let pinned := lookup_version (ai_name addon) specified in
  do! auto_resolved :=
    if is_some pinned then ret None
    else get_latest_compatible_version (ai_name addon) target_k8s_version in
  ret (match resolve_rollback_target (ai_current_version addon) pinned auto_resolved with
       | Some target => Some (addon, target)
       | None => None
       end).

Definition plan_addon_rollbacks (cluster target_k8s_version : string)
  (specified : list (string * string)) : M (list (AddonInfo * string)) :=
  do! current := list_addons cluster in
  do! planned := each (addon_rollback target_k8s_version specified) current in
  ret (omap id planned).

Definition list_nodegroups (cluster : string) : M (list NodeGroupInfo) :=
  do! names := lift (nodegroup_names w cluster) in
  ret (successes (describe_nodegroup w cluster) names).

Definition plan_nodegroup_upgrades (cluster target_version : string) : M (list NodeGroupInfo) :=
  do! nodegroups := list_nodegroups cluster in
  ret (filter (fun ng => ngi_version ng <> Some target_version) nodegroups).
End Plan.

(** ** Facts *)

Lemma calls_list_addons w C cluster : calls C (list_addons w cluster).
Proof. apply calls_bind; eauto with kuo. Qed.

Lemma calls_sort w C l : calls C (sort_versions w l).
Proof. unfold sort_versions. case_match; auto with kuo. Qed.
#[export] Hint Resolve calls_sort : kuo.

Lemma calls_latest w C a v : calls C (get_latest_compatible_version w a v).
Proof. repeat (apply calls_bind; [|intros; auto with kuo]). auto with kuo. Qed.

#[export] Hint Resolve calls_list_addons calls_latest : kuo.

Lemma calls_plan_upgrades w C cluster target specified :
  calls C (plan_addon_upgrades w cluster target specified).
Proof.
  apply calls_bind; [auto with kuo|]. intros ? ? ?. apply calls_bind; [|auto with kuo].
  apply calls_each. intros addon. apply calls_bind; [case_match; auto with kuo|].
  intros ? [|] ?; auto with kuo.
Qed.

Lemma calls_plan_rollbacks w C cluster target specified :
  calls C (plan_addon_rollbacks w cluster target specified).
Proof.
  apply calls_bind; [auto with kuo|]. intros ? ? ?. apply calls_bind; [|auto with kuo].
  apply calls_each. intros addon. apply calls_bind; [case_match; auto with kuo|]. auto with kuo.
Qed.

Lemma calls_plan_nodegroups w C cluster target : calls C (plan_nodegroup_upgrades w cluster target).
Proof.
  apply calls_bind; [|auto with kuo]. apply calls_bind; auto with kuo.
Qed.

#[export] Hint Resolve calls_plan_upgrades calls_plan_rollbacks calls_plan_nodegroups : kuo.

(** The numeric order of versions is total and separates them. *)
Lemma version_cmp_antisym a b : version_cmp b a = CompOpp (version_cmp a b).
Proof.
  destruct a as [[[a1 a2] a3] a4], b as [[[b1 b2] b3] b4]. cbn.
  rewrite (Z.compare_antisym a1 b1), (Z.compare_antisym a2 b2), (Z.compare_antisym a3 b3),
    (Z.compare_antisym a4 b4).
  destruct (a1 ?= b1); cbn; [|done|done]. destruct (a2 ?= b2); cbn; [|done|done].
  by destruct (a3 ?= b3).
Qed.

Lemma version_cmp_le_trans a b c :
  version_cmp a b <> Gt -> version_cmp b c <> Gt -> version_cmp a c <> Gt.
Proof.
  destruct a as [[[a1 a2] a3] a4], b as [[[b1 b2] b3] b4], c as [[[c1 c2] c3] c4]. cbn.
  repeat match goal with |- context [?x ?= ?y] => destruct (Z.compare_spec x y); try done; try lia end.
Qed.

(** The lists of versions that the comparison orders: in particular those that
    all parse. *)
Lemma parsed_versions_ordered l :
  Forall (fun v => is_Some (parse_addon_version (av_version v))) l -> total_order l = true.
Proof.
  rewrite Forall_forall. intros H. unfold total_order.
  apply forallb_forall. intros u Hu. apply forallb_forall. intros v Hv. apply forallb_forall. intros x Hx.
  apply list_elem_of_In in Hu, Hv, Hx.
  destruct (H u Hu) as [a Ea], (H v Hv) as [b Eb], (H x Hx) as [c Ec].
  unfold le_version, compare_addon_versions. rewrite Ea, Eb, Ec.
  pose proof (version_cmp_le_trans a b c) as Ht.
  destruct (version_cmp a b), (version_cmp b c), (version_cmp a c); try done; by destruct Ht.
Qed.

(** EKS lists add-on versions that the comparison orders. *)
Definition orderly (w : World) : Prop :=
  forall addon k8s_version versions,
    describe_addon_versions w addon k8s_version = Ok versions -> total_order versions = true.

(** The mixed comparison is not transitive, so a list that holds a version
    that does not parse has no sorted order. *)
Example compare_addon_versions_cycle :
  compare_addon_versions "v1.9.0" "v1.10.0" = Lt /\
  compare_addon_versions "v1.10.0" "v1.2" = Lt /\
  compare_addon_versions "v1.2" "v1.9.0" = Lt.
Proof. vm_compute. auto. Qed.

Example cycle_not_ordered :
  total_order [mkAddonVersion "v1.9.0" false; mkAddonVersion "v1.10.0" false; mkAddonVersion "v1.2" false]
  = false.
Proof. vm_compute. reflexivity. Qed.
