(* ===== verification/Transition.v ===== *)
(** * The order of the phases (kubernetes-upgrade-operator:
    phases/transition.rs)

    The routing between the phases of an upgrade, and of a rollback, from the
    work the plan holds. *)

From stdpp Require Import prelude list strings pretty.
From Stdlib Require Import ZArith Lia.
From S2P Require Import Prelude.
From S2P Require Import UpgradeStatus.

Definition is_consecutive_rollback (mode : UpgradeMode) (last : option TransitionRecord) : bool :=
  match mode, last with
  | Rollback, Some t => match t_mode t with Rollback => true | Forward => false end
  | _, _ => false
  end.

Section Routing.
Context (status : EKSUpgradeStatus).

Definition has_cp_steps : bool :=
  match planning (phases status) with
  | Some p => match upgrade_path p with [] => false | _ => true end
  | None => false
  end.

Definition has_addons : bool := match addons (phases status) with [] => false | _ => true end.
Definition has_nodegroups : bool := match nodegroups (phases status) with [] => false | _ => true end.

Definition has_karpenter : bool :=
  match karpenter_pools (phases status) with
  | Some k => match pools k with [] => false | _ => true end
  | None => false
  end.

Definition after_preflight (mode : UpgradeMode) : UpgradePhase :=
  match mode with
  | Forward =>
      if has_cp_steps then UpgradingControlPlane
      else if has_addons then UpgradingAddons
      else if has_nodegroups then UpgradingNodeGroups
      else if has_karpenter then UpgradingKarpenterNodePools
      else Completed
  | Rollback =>
      if has_nodegroups then RollingBackNodeGroups
      else if has_addons then RollingBackAddons
      else if has_cp_steps then RollingBackControlPlane
      else Completed
  end.

Definition after_control_plane (mode : UpgradeMode) : UpgradePhase :=
  match mode with
  | Forward =>
      if has_addons then UpgradingAddons
      else if has_nodegroups then UpgradingNodeGroups
      else if has_karpenter then UpgradingKarpenterNodePools
      else Completed
  | Rollback => Completed
  end.

Definition after_addons (mode : UpgradeMode) : UpgradePhase :=
  match mode with
  | Forward =>
      if has_nodegroups then UpgradingNodeGroups
      else if has_karpenter then UpgradingKarpenterNodePools
      else Completed
  | Rollback => if has_cp_steps then RollingBackControlPlane else Completed
  end.

Definition after_nodegroups (mode : UpgradeMode) : UpgradePhase :=
  match mode with
  | Forward => if has_karpenter then UpgradingKarpenterNodePools else Completed
  | Rollback =>
      if has_addons then RollingBackAddons
      else if has_cp_steps then RollingBackControlPlane
      else Completed
  end.

Definition after_karpenter (mode : UpgradeMode) : UpgradePhase := Completed.
End Routing.

Definition transition_to (now : Z) (next : UpgradePhase) (s : EKSUpgradeStatus) : EKSUpgradeStatus :=
  let s' := set_phase now next s in
  if decide (next = Completed)
  then set_condition now "Ready" "True" "UpgradeCompleted" None s'
  else s'.

(** ** The phases of a mode, in order *)

(** The place of a phase in the run of a mode; [None] for a phase the mode
    never enters. *)
Definition rank (mode : UpgradeMode) (p : UpgradePhase) : option nat :=
  match mode, p with
  | _, Pending => Some 0%nat
  | _, Planning => Some 1%nat
  | _, PreflightChecking => Some 2%nat
  | Forward, UpgradingControlPlane | Rollback, RollingBackNodeGroups => Some 3%nat
  | Forward, UpgradingAddons | Rollback, RollingBackAddons => Some 4%nat
  | Forward, UpgradingNodeGroups | Rollback, RollingBackControlPlane => Some 5%nat
  | Forward, UpgradingKarpenterNodePools => Some 6%nat
  | _, Completed | _, Failed => Some 7%nat
  | _, _ => None
  end.

(** [p] comes before [q] in the run of the mode. *)
Definition before (mode : UpgradeMode) (p q : UpgradePhase) : Prop :=
  exists m n, rank mode p = Some m /\ rank mode q = Some n /\ (m < n)%nat.

Ltac routing :=
  unfold before;
  repeat match goal with |- context [if ?b then _ else _] => destruct b end;
  do 2 eexists; (split; [reflexivity|split; [reflexivity|lia]]).

Lemma after_preflight_later s mode : before mode PreflightChecking (after_preflight s mode).
Proof. unfold after_preflight. destruct mode; routing. Qed.

Lemma after_control_plane_later s mode p :
  p = UpgradingControlPlane \/ p = RollingBackControlPlane -> is_Some (rank mode p) ->
  before mode p (after_control_plane s mode).
Proof.
  unfold after_control_plane. intros [->| ->] [n Hn]; destruct mode; try discriminate Hn; routing.
Qed.

Lemma after_addons_later s mode p :
  p = UpgradingAddons \/ p = RollingBackAddons -> is_Some (rank mode p) ->
  before mode p (after_addons s mode).
Proof. unfold after_addons. intros [->| ->] [n Hn]; destruct mode; try discriminate Hn; routing. Qed.

Lemma after_nodegroups_later s mode p :
  p = UpgradingNodeGroups \/ p = RollingBackNodeGroups -> is_Some (rank mode p) ->
  before mode p (after_nodegroups s mode).
Proof.
  unfold after_nodegroups. intros [->| ->] [n Hn]; destruct mode; try discriminate Hn; routing.
Qed.

Lemma transition_to_phase now next s : phase (transition_to now next s) = Some next.
Proof. unfold transition_to, set_phase. by case_decide. Qed.

Lemma transition_to_phases now next s : phases (transition_to now next s) = phases s.
Proof. unfold transition_to, set_phase. by repeat case_decide. Qed.
