(* ===== verification/ControlPlane.v ===== *)
(** * The control plane phase (kubernetes-upgrade-operator:
    phases/control_plane.rs)

    One minor version per step: start the update of the step, poll it, move to
    the next step.  Durations are seconds; [None] asks for no requeue. *)

From stdpp Require Import prelude list strings pretty.
From Stdlib Require Import ZArith Lia.
From S2P Require Import Prelude.
From S2P Require Import UpgradeStatus.
From S2P Require Import KubeVersion.
From S2P Require Import Cloud.
From S2P Require Import Transition.

Open Scope kuo_scope.

Definition POLL_INTERVAL : Z := 30.

(** [TimeDelta::num_minutes] of the time since an instant. *)
Definition num_seconds (d : Z) : Z := Z.quot d 1000000000.
Definition num_minutes (d : Z) : Z := Z.quot (num_seconds d) 60.

(** [x as i64]. *)
Definition as_i64 (x : Z) : Z := (x + 2 ^ 63) mod 2 ^ 64 - 2 ^ 63.

(** A change of the control plane status, when there is one. *)
Definition map_control_plane (f : ControlPlaneStatus -> ControlPlaneStatus) (s : EKSUpgradeStatus)
  : EKSUpgradeStatus :=
  with_phases (set_control_plane (option_map f (control_plane (phases s))) (phases s)) s.

Definition clear_update (cp : ControlPlaneStatus) : ControlPlaneStatus :=
  mkControlPlane (current_step cp) (total_steps cp) (cp_target cp) None (cp_started_at cp)
    (cp_completed_at cp).

Definition step_done (next_step : Z) (cp : ControlPlaneStatus) : ControlPlaneStatus :=
  mkControlPlane next_step (total_steps cp) None None None (cp_completed_at cp).

Definition steps_done (now : Z) (cp : ControlPlaneStatus) : ControlPlaneStatus :=
  mkControlPlane (current_step cp) (total_steps cp) None None None (Some now).

Definition step_started (now : Z) (version update_id : string) (cp : ControlPlaneStatus)
  : ControlPlaneStatus :=
  mkControlPlane (current_step cp) (total_steps cp) (Some version) (Some update_id) (Some now)
    (cp_completed_at cp).

Definition advance_to_next_phase (now : Z) (mode : UpgradeMode) (s : EKSUpgradeStatus)
  : EKSUpgradeStatus :=
  let s := map_control_plane (steps_done now) s in
  transition_to now (after_control_plane s mode) s.

(** The new status with the requeue duration. *)
Definition Step : Type := EKSUpgradeStatus * option Z.

Definition process_update_result (now : Z) (status_str : string) (step total : Z)
  (target : string) (mode : UpgradeMode) (s : EKSUpgradeStatus) : M Step :=
  if String.eqb status_str "Successful" then
    let next_step := u32_wrapping_add step 1 in
    match control_plane (phases s) with
    | None => stop (Anyhow "control_plane status missing during upgrade")
    | Some _ =>
        let s := with_current_version (Some target) (map_control_plane (step_done next_step) s) in
        if total <? next_step then ret (advance_to_next_phase now mode s, None)
        else ret (s, Some 0)
    end
  else if String.eqb status_str "Failed" || String.eqb status_str "Cancelled" then
    ret (set_failed now ("Control plane upgrade to " +:+ target +:+ " failed")
           (map_control_plane clear_update s), None)
  else ret (s, Some POLL_INTERVAL).

Definition apply_cp_timeout (now : Z) (target : string) (elapsed_minutes timeout_minutes : Z)
  (update_id : string) (s : EKSUpgradeStatus) : EKSUpgradeStatus :=
  set_failed now
    ("Control plane upgrade to " +:+ target +:+ " timed out after " +:+ pretty elapsed_minutes
       +:+ " minutes (limit: " +:+ pretty timeout_minutes +:+ " minutes, update: "
       +:+ update_id +:+ ")")
    (map_control_plane clear_update s).

(** The elapsed minutes when the step has run out of time. *)
Definition timed_out (now : Z) (started_at : option Z) (timeout_minutes : Z) : option Z :=
  match started_at with
  | Some t =>
      let elapsed := num_minutes (now - t) in
      if as_i64 timeout_minutes <=? elapsed then Some elapsed else None
  | None => None
  end.

Definition execute (w : World) (spec : EKSUpgradeSpec) (s : EKSUpgradeStatus) : M Step :=
  do! cp := need (Anyhow "control_plane status must be set before this phase")
              (control_plane (phases s)) in
  let path := match planning (phases s) with Some p => upgrade_path p | None => [] end in
  let step := current_step cp in
  let total := total_steps cp in
  if total <? step then ret (advance_to_next_phase (now w) (upgrade_mode spec) s, None)
  else
    let path_index := Z.to_nat ((step - 1) mod 2 ^ 32) in
    do! target := need (Panic "index out of bounds") (path !! path_index) in
    let timeout_minutes := match timeouts spec with Some t => control_plane_minutes t | None => 30 end in
    match cp_update_id cp with
    | Some update_id =>
        match timed_out (now w) (cp_started_at cp) timeout_minutes with
        | Some elapsed =>
            ret (apply_cp_timeout (now w) target elapsed timeout_minutes update_id s, None)
        | None =>
            do! status_str := lift (check_update_status w (cluster_name spec) update_id) in
            process_update_result (now w) status_str step total target (upgrade_mode spec) s
        end
    | None =>
        do! update_id := perform (UpdateClusterVersion target)
                           (update_cluster_version w (cluster_name spec) target) in
        ret (map_control_plane (step_started (now w) target update_id) s, Some POLL_INTERVAL)
    end.
