(* ===== verification/AddonsPhase.v ===== *)
(** * The add-on phase (kubernetes-upgrade-operator: phases/addons.rs)

    The first add-on that is not done is updated or polled; when all are done
    the next phase begins. *)

From stdpp Require Import prelude list strings pretty.
From Stdlib Require Import ZArith Lia.
From S2P Require Import Prelude.
From S2P Require Import UpgradeStatus.
From S2P Require Import KubeVersion.
From S2P Require Import Cloud.
From S2P Require Import Transition.
From S2P Require Import ControlPlane.

Open Scope kuo_scope.

(** The first element whose status is not done, with its index. *)
Definition first_undone {A} (f : A -> ComponentStatus) (l : list A) : option (nat * A) :=
  list_find (fun x => is_done (f x) = false) l.

Definition POLL_INTERVAL : Z := 15.

Definition map_addon (idx : nat) (f : AddonStatus -> AddonStatus) (s : EKSUpgradeStatus)
  : EKSUpgradeStatus :=
  with_phases (set_addons (alter f idx (addons (phases s))) (phases s)) s.

Definition addon_finished (now : Z) (c : ComponentStatus) (a : AddonStatus) : AddonStatus :=
  mkAddon (a_name a) (a_current_version a) (a_target_version a) c (a_started_at a) (Some now).

Definition addon_started (now : Z) (a : AddonStatus) : AddonStatus :=
  mkAddon (a_name a) (a_current_version a) (a_target_version a) CInProgress (Some now)
    (a_completed_at a).

Definition addon_failed (poll_result : string) : bool :=
  existsb (String.eqb poll_result) ["CREATE_FAILED"; "UPDATE_FAILED"; "DELETE_FAILED"; "DEGRADED"].

Definition apply_addon_poll_result (now : Z) (idx : nat) (name poll_result : string)
  (s : EKSUpgradeStatus) : Step :=
  if String.eqb poll_result "ACTIVE" then (map_addon idx (addon_finished now CCompleted) s, Some 0)
  else if addon_failed poll_result then
    (set_failed now ("Addon " +:+ name +:+ " upgrade failed: " +:+ poll_result)
       (map_addon idx (addon_finished now CFailed) s), None)
  else (s, Some POLL_INTERVAL).

Definition advance_to_next_phase (now : Z) (mode : UpgradeMode) (s : EKSUpgradeStatus)
  : EKSUpgradeStatus :=
  transition_to now (after_addons s mode) s.

Definition execute (w : World) (spec : EKSUpgradeSpec) (s : EKSUpgradeStatus) : M Step :=
  match first_undone a_status (addons (phases s)) with
  | None => ret (advance_to_next_phase (now w) (upgrade_mode spec) s, None)
  | Some (idx, a) =>
      match a_status a with
      | CPending =>
          do! _ := perform (UpdateAddon (a_name a) (a_target_version a))
                     (update_addon w (cluster_name spec) (a_name a) (a_target_version a)) in
          ret (map_addon idx (addon_started (now w)) s, Some POLL_INTERVAL)
      | CInProgress =>
          do! status_str := lift (poll_addon_status w (cluster_name spec) (a_name a)) in
          ret (apply_addon_poll_result (now w) idx (a_name a) status_str s)
      | CFailed =>
          ret (set_failed (now w) ("Addon " +:+ a_name a +:+ " is in failed state") s, None)
      | _ => ret (s, Some 0)
      end
  end.
