(* ===== verification/NodegroupsPhase.v ===== *)
(** * The node group phase (kubernetes-upgrade-operator: phases/nodegroups.rs)

    The first node group that is not done is updated or polled, within its
    time limit; when all are done the next phase begins. *)

From stdpp Require Import prelude list strings pretty.
From Stdlib Require Import ZArith Lia.
From S2P Require Import Prelude.
From S2P Require Import UpgradeStatus.
From S2P Require Import KubeVersion.
From S2P Require Import Cloud.
From S2P Require Import Transition.
From S2P Require Import ControlPlane.
From S2P Require Import AddonsPhase.

Open Scope kuo_scope.

Definition POLL_INTERVAL : Z := 30.

Definition map_nodegroup (idx : nat) (f : NodegroupStatus -> NodegroupStatus) (s : EKSUpgradeStatus)
  : EKSUpgradeStatus :=
  with_phases (set_nodegroups (alter f idx (nodegroups (phases s))) (phases s)) s.

Definition nodegroup_completed (now : Z) (n : NodegroupStatus) : NodegroupStatus :=
  mkNodegroup (ng_name n) (ng_current_version n) (ng_target_version n) CCompleted None None (Some now).

Definition nodegroup_failed (n : NodegroupStatus) : NodegroupStatus :=
  mkNodegroup (ng_name n) (ng_current_version n) (ng_target_version n) CFailed None
    (ng_started_at n) (ng_completed_at n).

Definition nodegroup_started (now : Z) (update_id : string) (n : NodegroupStatus) : NodegroupStatus :=
  mkNodegroup (ng_name n) (ng_current_version n) (ng_target_version n) CInProgress (Some update_id)
    (Some now) (ng_completed_at n).

Definition apply_poll_result (now : Z) (idx : nat) (name poll_result : string)
  (s : EKSUpgradeStatus) : Step :=
  if String.eqb poll_result "Successful" then
    (map_nodegroup idx (nodegroup_completed now) s, Some 0)
  else if String.eqb poll_result "Failed" || String.eqb poll_result "Cancelled" then
    (set_failed now ("Nodegroup " +:+ name +:+ " upgrade failed: " +:+ poll_result)
       (map_nodegroup idx nodegroup_failed s), None)
  else (s, Some POLL_INTERVAL).

Definition apply_timeout (now : Z) (idx : nat) (name : string) (elapsed_minutes timeout_minutes : Z)
  (s : EKSUpgradeStatus) : EKSUpgradeStatus :=
  set_failed now
    ("Nodegroup " +:+ name +:+ " upgrade timed out after " +:+ pretty elapsed_minutes
       +:+ " minutes (limit: " +:+ pretty timeout_minutes +:+ " minutes)")
    (map_nodegroup idx nodegroup_failed s).

Definition find_active_nodegroup (s : EKSUpgradeStatus) : option (nat * NodegroupStatus) :=
  first_undone ng_status (nodegroups (phases s)).

Definition execute (w : World) (spec : EKSUpgradeSpec) (s : EKSUpgradeStatus) : M Step :=
  match find_active_nodegroup s with
  | None =>
      ret (transition_to (now w) (after_nodegroups s (upgrade_mode spec)) s, None)
  | Some (idx, n) =>
      let timeout_minutes := match timeouts spec with Some t => nodegroup_minutes t | None => 60 end in
      match ng_status n with
      | CPending =>
          do! update_id :=
            perform (UpdateNodegroupVersion (ng_name n) (ng_target_version n))
              (update_nodegroup_version w (cluster_name spec) (ng_name n) (ng_target_version n)) in
          ret (map_nodegroup idx (nodegroup_started (now w) update_id) s, Some POLL_INTERVAL)
      | CInProgress =>
          match timed_out (now w) (ng_started_at n) timeout_minutes with
          | Some elapsed =>
              ret (apply_timeout (now w) idx (ng_name n) elapsed timeout_minutes s, None)
          | None =>
              do! status_str :=
                lift (poll_nodegroup_update w (cluster_name spec) (ng_name n)
                        (default "unknown" (ng_update_id n))) in
              ret (apply_poll_result (now w) idx (ng_name n) status_str s)
          end
      | CFailed =>
          ret (set_failed (now w) ("Nodegroup " +:+ ng_name n +:+ " is in failed state") s, None)
      | _ => ret (s, Some 0)
      end
  end.
