(* ===== verification/Karpenter.v ===== *)
(** * Replacement of Karpenter nodes (kubernetes-upgrade-operator:
    phases/karpenter.rs)

    Pool after pool, the stale node claims are deleted in batches; an entry of
    a batch is done when its old node is gone and the controllers of its pods
    are ready again.  Log lines are not modelled. *)

From stdpp Require Import prelude list strings pretty.
From Stdlib Require Import ZArith Lia Ascii.
From S2P Require Import Prelude.
From S2P Require Import Strings.
From S2P Require Import UpgradeStatus.
From S2P Require Import KubeVersion.
From S2P Require Import Cloud.
From S2P Require Import Transition.
From S2P Require Import ControlPlane.

Open Scope kuo_scope.

Definition POLL_INTERVAL : Z := 30.
Definition STATE_DRAINING : string := "Draining".
Definition STATE_WAIT_STABLE : string := "WaitingControllerStable".

(** ** Decisions *)

Inductive EntryOutcome : Type :=
| Draining
| WaitStable
| Done
| EntryFailed (reason : string).

Definition decide_entry (state : string) (node_exists controllers_stable : bool)
  (elapsed_secs drain_to_secs stable_to_secs : Z) : EntryOutcome :=
  if String.eqb state STATE_DRAINING && node_exists then
    if drain_to_secs <? elapsed_secs
    then EntryFailed ("NodeDrainTimeout after " +:+ pretty (Z.quot drain_to_secs 60)
                        +:+ "m, the old node was not removed in time")
    else Draining
  else if controllers_stable then Done
  else if as_i64 (drain_to_secs + stable_to_secs) <? elapsed_secs
  then EntryFailed ("ControllerStableTimeout after " +:+ pretty (Z.quot stable_to_secs 60)
                      +:+ "m, workloads did not become Ready again in time")
  else WaitStable.

Definition contains (name : string) (l : list string) : bool := existsb (String.eqb name) l.

Definition stale_targets (candidates : list (string * option string)) (completed : list string)
  (target_minor : Z) : list string :=
  omap (fun '(name, kubelet) =>
    if negb (contains name completed)
       && match kubelet with Some kv => is_stale_kubelet kv target_minor | None => false end
    then Some name else None) candidates.

Definition pick_new_nodeclaim (candidates : list NodeClaimInfo) (known : list string)
  (after : option Z) : option string :=
  option_map nc_name
    (List.find (fun c => match after, nc_created_at c with
                         | Some a, Some created => a <=? created
                         | _, _ => true
                         end)
       (List.filter (fun c => negb (contains (nc_name c) known)) candidates)).

Definition select_batch (stale completed : list string) (max : Z) : list string :=
  take (Z.to_nat (Z.max max 1)) (List.filter (fun n => negb (contains n completed)) stale).

Definition encode_controller (c : ControllerRef) : string :=
  kind c +:+ "|" +:+ namespace c +:+ "|" +:+ cr_name c.

Definition decode_controller (s : string) : option ControllerRef :=
  match split_once "|" s with
  | Some (kind, rest) =>
      match split_once "|" rest with
      | Some (namespace, name) => Some (mkController kind namespace name)
      | None => None
      end
  | None => None
  end.

Definition pool_over (p : KarpenterPoolStatus) : bool :=
  match pool_status p with CCompleted | CSkipped | CFailed => true | _ => false end.

Definition active_pool_index (ps : list KarpenterPoolStatus) : option (nat * KarpenterPoolStatus) :=
  list_find (fun p => pool_over p = false) ps.

Definition elapsed_secs (started_at : option Z) (now : Z) : Z :=
  match started_at with Some s => num_seconds (now - s) | None => 0 end.

(** ** Pool updates *)

Definition with_pool_status c (p : KarpenterPoolStatus) :=
  mkPool (pool_name p) c (pool_total_nodes p) (pool_replaced_nodes p) (completed_node_claims p)
    (replacements p) (current_batch p).
Definition with_pool_total t (p : KarpenterPoolStatus) :=
  mkPool (pool_name p) (pool_status p) t (pool_replaced_nodes p) (completed_node_claims p)
    (replacements p) (current_batch p).
Definition with_batch b (p : KarpenterPoolStatus) :=
  mkPool (pool_name p) (pool_status p) (pool_total_nodes p) (pool_replaced_nodes p)
    (completed_node_claims p) (replacements p) b.

(** The entry of the batch was replaced by [new]. *)
Definition record_replacement (e : CurrentBatchEntry) (new : option string) (p : KarpenterPoolStatus) :=
  mkPool (pool_name p) (pool_status p) (pool_total_nodes p)
    (Z.min (pool_replaced_nodes p + 1) u32_max)
    (completed_node_claims p ++ [node_claim e])
    (replacements p ++ [mkReplacement (node_claim e) new (node_name e)])
    (current_batch p).

Definition with_entry_state st (e : CurrentBatchEntry) :=
  mkEntry (node_claim e) (node_name e) (provider_id e) st (entry_started_at e) (entry_controllers e).

Definition sum_u32 (l : list Z) : Z := fold_left u32_wrapping_add l 0.

Definition recompute_totals (kp : KarpenterNodePoolsStatus) : KarpenterNodePoolsStatus :=
  mkKarpenterStatus (strategy kp) (active_pool kp) (sum_u32 (map pool_total_nodes (pools kp)))
    (sum_u32 (map pool_replaced_nodes (pools kp))) (pools kp).

(** ** A step of a pool *)

Record StepResult := mkStepResult { after : Z; failure : option string }.

Record BatchProgress := mkProgress {
  remaining : list CurrentBatchEntry;
  completed : list CurrentBatchEntry;
  batch_failure : option string;
}.

Fixpoint advance_entries (observed : list (CurrentBatchEntry * bool * bool))
  (drain_to stable_to now : Z) : BatchProgress :=
  match observed with
  | [] => mkProgress [] [] None
  | (entry, node_exists, controllers_stable) :: observed =>
      match decide_entry (entry_state entry) node_exists controllers_stable
              (elapsed_secs (entry_started_at entry) now) drain_to stable_to with
      | EntryFailed reason => mkProgress [entry] [] (Some reason)
      | Draining =>
          let p := advance_entries observed drain_to stable_to now in
          mkProgress (with_entry_state STATE_DRAINING entry :: remaining p) (completed p)
            (batch_failure p)
      | WaitStable =>
          let p := advance_entries observed drain_to stable_to now in
          mkProgress (with_entry_state STATE_WAIT_STABLE entry :: remaining p) (completed p)
            (batch_failure p)
      | Done =>
          let p := advance_entries observed drain_to stable_to now in
          mkProgress (remaining p) (entry :: completed p) (batch_failure p)
      end
  end.

(** The replacements of the completed entries, named from the live claims. *)
Fixpoint record_completed (claims : list NodeClaimInfo) (known : list string)
  (entries : list CurrentBatchEntry) (p : KarpenterPoolStatus) : KarpenterPoolStatus :=
  match entries with
  | [] => p
  | e :: entries =>
      let new := pick_new_nodeclaim claims known (entry_started_at e) in
      record_completed claims (known ++ option_list new) entries (record_replacement e new p)
  end.

Section World.
Context (w : World).

Definition kubelet_of (claim : NodeClaimInfo) : M (string * option string) :=
  match nc_node_name claim with
  | None => ret (nc_name claim, None)
  | Some node =>
      do! n := lift (map_err (kube_error ("Failed to get node " +:+ node)) (get_node w node)) in
      ret (nc_name claim, default None n)
  end.

Definition resolve_stale (pool : string) (target_minor : Z) (done : list string)
  : M (list NodeClaimInfo * list string) :=
  do! claims := list_nodeclaims w pool in
  do! candidates := each kubelet_of claims in
  ret (claims, stale_targets candidates done target_minor).

(** One claim of a new batch: its controllers are read, then it is deleted. *)
Definition replace_claim (claims : list NodeClaimInfo) (name : string) : M CurrentBatchEntry :=
  let claim := List.find (fun c => String.eqb (nc_name c) name) claims in
  let node := claim ≫= nc_node_name in
  do! controllers :=
    match node with
    | None => ret []
    | Some nn =>
        do! pods := lift (map_err (kube_error ("Failed to list pods on node " +:+ nn)) (get_pods w nn)) in
        do! owners := resolve_controllers w pods in
        ret (map encode_controller owners)
    end in
  do! _ := delete_nodeclaim w name in
  ret (mkEntry name node (claim ≫= nc_provider_id) STATE_DRAINING (Some (now w)) controllers).

Definition start_next_batch (config : KarpenterNodePoolsConfig) (target_minor : Z)
  (pool : KarpenterPoolStatus) : M (KarpenterPoolStatus * StepResult) :=
  do! (claims, stale) := resolve_stale (pool_name pool) target_minor (completed_node_claims pool) in
  let pool := if pool_total_nodes pool =? 0
              then with_pool_total (Z.min (zlen stale) u32_max) pool else pool in
  match stale with
  | [] => ret (with_pool_status CCompleted pool, mkStepResult 0 None)
  | _ =>
      let max := resolve_max_unavailable config (pool_total_nodes pool) in
      let batch := select_batch stale (completed_node_claims pool) max in
      do! entries := each (replace_claim claims) batch in
      ret (with_batch (current_batch pool ++ entries) pool, mkStepResult POLL_INTERVAL None)
  end.

Definition observe (e : CurrentBatchEntry) : M (CurrentBatchEntry * bool * bool) :=
  do! node_exists := nodeclaim_exists w (node_claim e) in
  do! controllers_stable :=
    if (node_exists : bool) then ret false
    else
      do! unstable := unstable_controllers w (omap decode_controller (entry_controllers e)) in
      ret (match unstable with [] => true | _ => false end) in
  ret (e, node_exists, controllers_stable).

Definition advance_batch (drain_to stable_to : Z) (pool : KarpenterPoolStatus)
  : M (KarpenterPoolStatus * StepResult) :=
  do! observed := each observe (current_batch pool) in
  let progress := advance_entries observed drain_to stable_to (now w) in
  let pool := with_batch (remaining progress) pool in
  do! pool :=
    match completed progress with
    | [] => ret pool
    | entries =>
        do! claims := list_nodeclaims w (pool_name pool) in
        let known := completed_node_claims pool ++ map node_claim (current_batch pool)
                       ++ map node_claim entries in
        ret (record_completed claims known entries pool)
    end in
  match batch_failure progress with
  | Some reason => ret (pool, mkStepResult 0 (Some reason))
  | None =>
      ret (pool, mkStepResult (match current_batch pool with [] => 0 | _ => POLL_INTERVAL end) None)
  end.

(** The minutes of the configuration in seconds, as [i64]. *)
Definition timeout_secs (minutes : Z) : Z := Z.min (Z.min (minutes * 60) u64_max) (2 ^ 63 - 1).

Definition with_pools (ps : list KarpenterPoolStatus) (kp : KarpenterNodePoolsStatus) :=
  mkKarpenterStatus (strategy kp) (active_pool kp) (kp_total_nodes kp) (kp_replaced_nodes kp) ps.

Definition with_active_pool a (kp : KarpenterNodePoolsStatus) :=
  mkKarpenterStatus (strategy kp) a (kp_total_nodes kp) (kp_replaced_nodes kp) (pools kp).

Definition store (kp : KarpenterNodePoolsStatus) (s : EKSUpgradeStatus) : EKSUpgradeStatus :=
  with_phases (set_karpenter_pools (Some kp) (phases s)) s.

Definition pool_step (config : KarpenterNodePoolsConfig) (target_minor : Z)
  (pool : KarpenterPoolStatus) : M (KarpenterPoolStatus * StepResult) :=
  let pool := with_pool_status CInProgress pool in
  match current_batch pool with
  | [] => start_next_batch config target_minor pool
  | _ => advance_batch (timeout_secs (node_drain_timeout_minutes config))
           (timeout_secs (controller_stable_timeout_minutes config)) pool
  end.

Definition execute (spec : EKSUpgradeSpec) (s : EKSUpgradeStatus) : M Step :=
  do! config := need (Panic "karpenter phase entered without karpenterNodePools config")
                  (karpenter_node_pools spec) in
  match karpenter_pools (phases s) with
  | None => ret (transition_to (now w) Completed s, Some 0)
  | Some kp =>
      match active_pool_index (pools kp) with
      | None =>
          let s := store (with_active_pool None kp) s in
          ret (transition_to (now w) (after_karpenter (upgrade_mode spec)) s, Some 0)
      | Some (idx, pool) =>
          do! _ := resolve_client w spec in
          match parse_minor (target_version spec) with
          | None =>
              ret (set_failed (now w) ("Invalid target version: " +:+ target_version spec) s, None)
          | Some target_minor =>
              do! (pool', step) := pool_step config target_minor pool in
              match failure step with
              | Some reason =>
                  let kp := with_pools (<[idx := with_pool_status CFailed pool']> (pools kp)) kp in
                  ret (set_failed (now w)
                         ("Karpenter NodePool " +:+ pool_name pool +:+ " failed: " +:+ reason)
                         (store (recompute_totals kp) s), None)
              | None =>
                  let kp := with_active_pool (Some (pool_name pool))
                              (with_pools (<[idx := pool']> (pools kp)) kp) in
                  ret (store (recompute_totals kp) s, Some (after step))
              end
          end
      end
  end.
End World.
