(* ===== verification/PlanningPhase.v ===== *)
(** * The planning phase (kubernetes-upgrade-operator: phases/planning.rs,
    eks/upgrade.rs)

    The plan from the live cluster: the path of the control plane, the add-ons
    and node groups to change, the Karpenter pools with their stale nodes. *)

From stdpp Require Import prelude list strings pretty.
From Stdlib Require Import ZArith Lia.
From S2P Require Import Prelude.
From S2P Require Import Strings.
From S2P Require Import UpgradeStatus.
From S2P Require Import KubeVersion.
From S2P Require Import Cloud.
From S2P Require Import Transition.
From S2P Require Import ControlPlane.
From S2P Require Import Karpenter.

Open Scope kuo_scope.

Record UpgradePlan := mkPlan {
  plan_current_version : string;
  plan_path : list string;
  addon_upgrades : list (AddonInfo * string);
  nodegroup_upgrades : list NodeGroupInfo;
}.

Definition plan_is_empty (p : UpgradePlan) : bool :=
  match plan_path p, addon_upgrades p, nodegroup_upgrades p with
  | [], [], [] => true
  | _, _, _ => false
  end.

Definition planned_addon (x : AddonInfo * string) : AddonStatus :=
  mkAddon (ai_name x.1) (ai_current_version x.1) x.2 CPending None None.

Definition planned_nodegroup (target : string) (n : NodeGroupInfo) : NodegroupStatus :=
  mkNodegroup (ngi_name n) (default "unknown" (ngi_version n)) target CPending None None None.

Definition reject_consecutive_rollback (now : Z) (spec : EKSUpgradeSpec) (s : EKSUpgradeStatus)
  : option EKSUpgradeStatus :=
  if negb (is_consecutive_rollback (upgrade_mode spec) (last_transition s)) then None
  else
    let last_to := match last_transition s with Some t => to_version t | None => "unknown" end in
    let msg :=
      "Consecutive rollback rejected: the previous transition already rolled back to " +:+ last_to
      +:+ ". EKS only permits rolling back to a version the cluster was recently upgraded from, so "
      +:+ "rolling back further to " +:+ target_version spec
      +:+ " is not possible. Roll forward before rolling back again." in
    Some (set_condition now "Ready" "False" "ConsecutiveRollbackRejected" (Some msg)
            (set_failed now msg s)).

Section World.
Context (w : World).

Definition create_upgrade_plan (spec : EKSUpgradeSpec) : M UpgradePlan :=
  let name := cluster_name spec in
  let target := target_version spec in
  let specified := default [] (addon_versions spec) in
  do! cluster := lift (describe_cluster w name) in
  do! cluster := need (Kuo (ClusterNotFound name)) cluster in
  do! path := lift (match upgrade_mode spec with
                    | Forward => calculate_upgrade_path (ci_version cluster) target
                    | Rollback => calculate_rollback_path (ci_version cluster) target
                    end) in
  do! addon_upgrades := match upgrade_mode spec with
                        | Forward => plan_addon_upgrades w name target specified
                        | Rollback => plan_addon_rollbacks w name target specified
                        end in
  do! nodegroup_upgrades := plan_nodegroup_upgrades w name target in
  ret (mkPlan (ci_version cluster) path addon_upgrades nodegroup_upgrades).

Definition planned_pool (target_minor : option Z) (name : string) : M KarpenterPoolStatus :=
  do! total := match target_minor with
               | Some minor =>
                   do! (_, stale) := resolve_stale w name minor [] in
                   ret (Z.min (zlen stale) u32_max)
               | None => ret 0
               end in
  ret (mkPool name CPending total 0 [] [] []).

Definition plan_karpenter (spec : EKSUpgradeSpec) : M (list KarpenterPoolStatus) :=
  match karpenter_node_pools spec with
  | None => ret []
  | Some cfg =>
      if negb (enabled cfg) then ret []
      else
        do! _ := resolve_client w spec in
        do! names := if selects_all cfg then list_nodepool_names w else ret (node_pools cfg) in
        each (planned_pool (parse_minor (target_version spec))) names
  end.

Definition to_info (lifecycles : list VersionLifecycle) (ver : string) : option VersionLifecycleInfo :=
  option_map (fun l => mkLifecycleInfo (vl_version l) (vl_status l) (end_of_standard_support l)
                         (end_of_extended_support l))
    (List.find (fun l => String.eqb (vl_version l) ver) lifecycles).

Definition fetch_version_lifecycle (current target : string) : LifecycleStatus :=
  let versions := if String.eqb current target then [current] else [current; target] in
  match describe_cluster_versions w versions with
  | Err e => mkLifecycle (now w) None None
               (Some ("Failed to describe cluster versions: " +:+ kuo_text e))
  | Ok lifecycles =>
      mkLifecycle (now w) (to_info lifecycles current) (to_info lifecycles target) None
  end.

(** The status with the plan in it. *)
Definition populate (spec : EKSUpgradeSpec) (plan : UpgradePlan) (s : EKSUpgradeStatus)
  : EKSUpgradeStatus :=
  let source := match planning (phases s) ≫= source_version with
                | Some v => Some v
                | None => Some (plan_current_version plan)
                end in
  let total_steps := zlen (plan_path plan) mod 2 ^ 32 in
  let cp := mkControlPlane (if 0 <? total_steps then 1 else 0) total_steps None None None None in
  with_current_version (Some (plan_current_version plan))
    (with_phases
       (set_nodegroups (map (planned_nodegroup (target_version spec)) (nodegroup_upgrades plan))
          (set_addons (map planned_addon (addon_upgrades plan))
             (set_control_plane (Some cp)
                (set_planning (Some (mkPlanning source (plan_path plan))) (phases s))))) s).

Definition execute (spec : EKSUpgradeSpec) (s : EKSUpgradeStatus) : M EKSUpgradeStatus :=
  match reject_consecutive_rollback (now w) spec s with
  | Some rejected => ret rejected
  | None =>
      do! plan := create_upgrade_plan spec in
      let s := populate spec plan s in
      do! karpenter := plan_karpenter spec in
      let s := match karpenter, karpenter_node_pools spec with
               | _ :: _, Some cfg => store (mkKarpenterStatus "Replace" None 0 0 karpenter) s
               | _, _ => s
               end in
      let s := with_lifecycle
                 (Some (fetch_version_lifecycle (plan_current_version plan) (target_version spec))) s in
      match plan_is_empty plan, karpenter with
      | true, [] =>
          let msg := "All components already at target version" in
          ret (set_condition (now w) "Ready" "True" "AlreadyUpToDate" (Some msg)
                 (with_message (Some msg) (set_phase (now w) Completed s)))
      | _, _ =>
          ret (set_condition (now w) "Ready" "False" "UpgradeInProgress" None
                 (set_phase (now w) PreflightChecking s))
      end
  end.
End World.
