(* ===== verification/PreflightPhase.v ===== *)
(** * The preflight phase (kubernetes-upgrade-operator: phases/preflight.rs,
    phases/preflight/checks.rs, eks/insights.rs)

    The mandatory checks before any change, and the start of the first phase
    of the plan when none fails.  Log lines are not modelled. *)

From stdpp Require Import prelude list strings pretty.
From Stdlib Require Import ZArith Lia.
From S2P Require Import Prelude.
From S2P Require Import Strings.
From S2P Require Import UpgradeStatus.
From S2P Require Import KubeVersion.
From S2P Require Import Cloud.
From S2P Require Import Transition.
From S2P Require Import ControlPlane.

Open Scope kuo_scope.

(** ** Checks (every check is mandatory) *)

Inductive CheckStatus : Type := Pass | Fail.

#[global] Instance CheckStatus_eq_dec : EqDecision CheckStatus.
Proof. solve_decision. Defined.

Record PreflightCheckResult := mkCheck {
  cr_check : string;
  cr_status : CheckStatus;
  cr_summary : string;
  cr_resources : list string;
}.

Record SkippedCheck := mkSkipped { sk_name : string; sk_reason : string }.

Record PreflightResults := mkResults {
  checks : list PreflightCheckResult;
  skipped : list SkippedCheck;
}.

Definition push_check (c : PreflightCheckResult) (p : PreflightResults) : PreflightResults :=
  mkResults (checks p ++ [c]) (skipped p).
Definition push_skipped (c : SkippedCheck) (p : PreflightResults) : PreflightResults :=
  mkResults (checks p) (skipped p ++ [c]).

Definition check_deletion_protection (on : bool) : PreflightCheckResult :=
  mkCheck "EKS Deletion Protection" (if on then Pass else Fail)
    (if on then "Deletion protection is enabled" else "Deletion protection is disabled") [].

(** The counts of [list_insights]: critical, warning, passing, other, and the
    findings described. *)
Record InsightsSummary := mkSummary {
  critical_count : Z;
  warning_count : Z;
  passing_count : Z;
  info_count : Z;
  findings : list (string * list string);
}.

Definition is_critical (severity : string) : bool :=
  String.eqb severity "ERROR" || String.eqb severity "CRITICAL".

Definition count_insight (acc : InsightsSummary) (i : Insight) : InsightsSummary :=
  let status := default "UNKNOWN" (insight_status i) in
  let found := findings acc ++ option_list (insight_details i) in
  if is_critical status
  then mkSummary (critical_count acc + 1) (warning_count acc) (passing_count acc) (info_count acc) found
  else if String.eqb status "WARNING"
  then mkSummary (critical_count acc) (warning_count acc + 1) (passing_count acc) (info_count acc) found
  else if String.eqb status "PASSING"
  then mkSummary (critical_count acc) (warning_count acc) (passing_count acc + 1) (info_count acc) found
  else mkSummary (critical_count acc) (warning_count acc) (passing_count acc) (info_count acc + 1) found.

Definition list_insights (w : World) (cluster category : string) : M InsightsSummary :=
  do! items := lift (insights w cluster category) in
  ret (fold_left count_insight items (mkSummary 0 0 0 0 [])).

Definition has_critical_blockers (s : InsightsSummary) : bool := 0 <? critical_count s.

Definition cluster_insights (s : InsightsSummary) : PreflightCheckResult :=
  let tail := " (" +:+ pretty (zlen (findings s)) +:+ " total: " +:+ pretty (warning_count s)
              +:+ " warning, " +:+ pretty (passing_count s) +:+ " passing, "
              +:+ pretty (info_count s) +:+ " info)" in
  mkCheck "EKS Cluster Insights"
    (if has_critical_blockers s then Fail else Pass)
    (if has_critical_blockers s
     then pretty (critical_count s) +:+ " critical insight(s) found that may block upgrade" +:+ tail
     else "No critical insights" +:+ tail)
    (flat_map (fun '(severity, resources) => if is_critical severity then resources else [])
       (findings s)).

Definition karpenter_v1_api (available : bool) : PreflightCheckResult :=
  mkCheck "Karpenter v1 API" (if available then Pass else Fail)
    (if available then "Karpenter v1 API is served"
     else "Karpenter v1 API (NodePool/NodeClaim/EC2NodeClass) not found; v1beta1 and earlier are unsupported")
    [].

Definition karpenter_ami_selector (checked : Z) (pinned_pools : list string) : PreflightCheckResult :=
  mkCheck "Karpenter AMI Selector"
    (match pinned_pools with [] => Pass | _ => Fail end)
    (match pinned_pools with
     | [] => "All target NodePools resolve their AMI via alias @latest (" +:+ pretty checked
             +:+ " nodepools)"
     | _ => pretty (zlen pinned_pools) +:+ " of " +:+ pretty checked
            +:+ " NodePool(s) pin a fixed AMI instead of alias @latest. "
            +:+ "Replacing nodes would reprovision the same version"
     end) pinned_pools.

Definition pdb_drain_deadlock (total_pdbs : Z) (blocking : list string) : PreflightCheckResult :=
  mkCheck "PDB Drain Deadlock"
    (match blocking with [] => Pass | _ => Fail end)
    (match blocking with
     | [] => "No PodDisruptionBudget blocks node drain, " +:+ pretty total_pdbs +:+ " checked"
     | _ => pretty (zlen blocking) +:+ " of " +:+ pretty total_pdbs
            +:+ " PodDisruptionBudgets block node drain because they allow zero disruptions"
     end) blocking.

Definition skip_deletion_protection : string -> SkippedCheck := mkSkipped "EKS Deletion Protection".
Definition skip_cluster_insights : string -> SkippedCheck := mkSkipped "EKS Cluster Insights".
Definition skip_pdb_drain_deadlock : string -> SkippedCheck := mkSkipped "PDB Drain Deadlock".
Definition skip_karpenter : string -> SkippedCheck := mkSkipped "Karpenter NodePools".

Definition failed (c : PreflightCheckResult) : bool := bool_decide (cr_status c = Fail).

Definition has_mandatory_failures (p : PreflightResults) : bool := existsb failed (checks p).

Definition mandatory_failure_reasons (p : PreflightResults) : list string :=
  map (fun c =>
         let head := "[" +:+ cr_check c +:+ "] " +:+ cr_summary c in
         match cr_resources c with
         | [] => head
         | rs => head +:+ ": " +:+ str_join ", " rs
         end) (List.filter failed (checks p)).

Definition build_check_statuses (p : PreflightResults) : list PreflightCheckStatus :=
  map (fun c => mkCheckStatus (cr_check c) (match cr_status c with Pass => "Pass" | Fail => "Fail" end)
                  (cr_summary c) (cr_resources c)) (checks p)
  ++ map (fun s => mkCheckStatus (sk_name s) "Skip" (sk_reason s) []) (skipped p).

(** ** The phase *)

(** A computation whose error is not fatal here. *)
Definition attempt {A} (m : M A) : M (result Stop A) := (m.1, Ok m.2).

Section World.
Context (w : World).

(** The pools whose AMI is pinned; a pool that cannot be read is skipped. *)
Fixpoint pinned_pools (names : list string) (p : PreflightResults)
  : M (list string * PreflightResults) :=
  match names with
  | [] => ret ([], p)
  | np :: names =>
      do! terms := attempt (nodepool_ami_terms w np) in
      match terms with
      | Ok terms =>
          do! (pinned, p) := pinned_pools names p in
          ret (if is_pinned_ami terms then np :: pinned else pinned, p)
      | Err _ => pinned_pools names (push_skipped (skip_karpenter "unable to read EC2NodeClass") p)
      end
  end.

Definition run_karpenter_checks (cfg : KarpenterNodePoolsConfig) (p : PreflightResults)
  : M PreflightResults :=
  do! available := attempt (v1_available w) in
  match available with
  | Err _ => ret (push_skipped (skip_karpenter "Karpenter API probe failed") p)
  | Ok false => ret (push_check (karpenter_v1_api false) p)
  | Ok true =>
      let p := push_check (karpenter_v1_api true) p in
      do! names := if selects_all cfg then attempt (list_nodepool_names w)
                   else ret (Ok (node_pools cfg)) in
      match names with
      | Err _ => ret (push_skipped (skip_karpenter "unable to list NodePools") p)
      | Ok names =>
          do! (pinned, p) := pinned_pools names p in
          ret (push_check (karpenter_ami_selector (zlen names) pinned) p)
      end
  end.

Definition insights_check (spec : EKSUpgradeSpec) (p : PreflightResults) : M PreflightResults :=
  let category := match upgrade_mode spec with
                  | Forward => "UPGRADE_READINESS"
                  | Rollback => "ROLLBACK_READINESS"
                  end in
  do! summary := attempt (list_insights w (cluster_name spec) category) in
  ret (match summary with
       | Ok summary => push_check (cluster_insights summary) p
       | Err _ => push_skipped (skip_cluster_insights "EKS Insights API unavailable") p
       end).

Definition pdb_check (spec : EKSUpgradeSpec) (s : EKSUpgradeStatus) (p : PreflightResults)
  : M PreflightResults :=
  match nodegroups (phases s) with
  | [] => ret (push_skipped (skip_pdb_drain_deadlock "no managed node group upgrades") p)
  | _ =>
      do! client := attempt (resolve_client w spec) in
      match client with
      | Err _ => ret (push_skipped (skip_pdb_drain_deadlock "Kubernetes API unavailable") p)
      | Ok _ =>
          do! pdbs := attempt (check_pdbs w) in
          ret (match pdbs with
               | Ok (total, blocking) => push_check (pdb_drain_deadlock total blocking) p
               | Err _ => push_skipped (skip_pdb_drain_deadlock "Kubernetes API unavailable") p
               end)
      end
  end.

Definition karpenter_check (spec : EKSUpgradeSpec) (p : PreflightResults) : M PreflightResults :=
  match karpenter_node_pools spec with
  | Some cfg =>
      if enabled cfg then
        do! client := attempt (resolve_client w spec) in
        match client with
        | Ok _ => run_karpenter_checks cfg p
        | Err _ => ret (push_skipped (skip_karpenter "Kubernetes API unavailable") p)
        end
      else ret p
  | None => ret p
  end.

Definition run_checks (spec : EKSUpgradeSpec) (s : EKSUpgradeStatus) : M PreflightResults :=
  do! p := insights_check spec (mkResults [] []) in
  do! cluster := lift (describe_cluster w (cluster_name spec)) in
  do! cluster := need (Kuo (ClusterNotFound (cluster_name spec))) cluster in
  let p := match deletion_protection cluster with
           | Some on => push_check (check_deletion_protection on) p
           | None => push_skipped (skip_deletion_protection "unable to determine") p
           end in
  do! p := pdb_check spec s p in
  karpenter_check spec p.

Definition execute (spec : EKSUpgradeSpec) (s : EKSUpgradeStatus) : M EKSUpgradeStatus :=
  do! p := run_checks spec s in
  let s := with_phases (set_preflight (Some (build_check_statuses p)) (phases s)) s in
  if has_mandatory_failures p then
    ret (set_failed (now w)
           ("Preflight check failed: " +:+ str_join "; " (mandatory_failure_reasons p)) s)
  else if dry_run spec then
    let msg := "Dry-run: preflight passed, plan generated but not executed" in
    ret (set_condition (now w) "Ready" "True" "DryRunCompleted" (Some msg)
           (with_message (Some msg) (set_phase (now w) Completed s)))
  else ret (transition_to (now w) (after_preflight s (upgrade_mode spec)) s).
End World.
