(* ===== verification/Reconcile.v ===== *)
(** * The reconcile loop of the upgrade operator
    (kubernetes-upgrade-operator: controller.rs)

    One reconcile reads the resource, dispatches on its phase and sends the
    new status as a merge patch, which the API server may store or not,
    whatever it answers.  Metrics, events, log lines and notifications are not
    modelled; neither is a stale read of the resource: a reconcile sees the
    status last stored. *)

From stdpp Require Import prelude list strings pretty.
From Stdlib Require Import ZArith Lia.
From S2P Require Import Prelude.
From S2P Require Import UpgradeStatus.
From S2P Require Import KubeVersion.
From S2P Require Import Cloud.
From S2P Require Import Transition.
From S2P Require Import ControlPlane.
From S2P Require Import AddonsPhase.
From S2P Require Import NodegroupsPhase.
From S2P Require Import Karpenter.
From S2P Require Import PlanningPhase.
From S2P Require Import PreflightPhase.

Open Scope kuo_scope.

Record EKSUpgrade := mkUpgrade {
  spec : EKSUpgradeSpec;
  generation : Z;
  status : option EKSUpgradeStatus;
}.

(** What becomes of a patch: stored and acknowledged, stored though the call
    fails, or lost. *)
Inductive PatchOutcome : Type := Stored | StoredUnacknowledged | Lost.

Definition acknowledged (o : PatchOutcome) : bool := match o with Stored => true | _ => false end.

Definition patched (o : PatchOutcome) (stored sent : EKSUpgradeStatus) : EKSUpgradeStatus :=
  match o with Lost => stored | _ => merge_status stored sent end.

(** Milliseconds to the next reconcile; [None] waits for a change. *)
Definition Action : Type := option Z.

(** The stored status after [reset_status_patch]: what the patch names is
    replaced, the rest stays. *)
Definition reset_status (current : EKSUpgradeStatus) (generation : Z) (stored : EKSUpgradeStatus)
  : EKSUpgradeStatus :=
  mkStatus (Some Pending) None (progress stored)
    (mkPhases None None None [] [] (karpenter_pools (phases stored)))
    (filter (fun c => c_type c = "AWSAuthenticated") (conditions current))
    None generation None None (identity stored) None (last_transition stored).

Definition has_active_update (s : EKSUpgradeStatus) : bool :=
  match control_plane (phases s) with Some cp => is_some (cp_update_id cp) | None => false end
  || existsb (fun ng => is_some (ng_update_id ng)) (nodegroups (phases s)).

Definition polling (p : UpgradePhase) : bool :=
  match p with
  | Planning | PreflightChecking | UpgradingControlPlane | UpgradingAddons | UpgradingNodeGroups
  | RollingBackNodeGroups | RollingBackAddons | RollingBackControlPlane => true
  | _ => false
  end.

(** The handler of a phase; the requeue is in seconds. *)
Definition dispatch (w : World) (sp : EKSUpgradeSpec) (p : UpgradePhase) (s : EKSUpgradeStatus)
  : M Step :=
  match p with
  | Pending => ret (set_phase (now w) Planning (with_started_at (Some (now w)) s), Some 0)
  | Planning => do! s := PlanningPhase.execute w sp s in ret (s, Some 0)
  | PreflightChecking => do! s := PreflightPhase.execute w sp s in ret (s, Some 0)
  | UpgradingControlPlane | RollingBackControlPlane => ControlPlane.execute w sp s
  | UpgradingAddons | RollingBackAddons => AddonsPhase.execute w sp s
  | UpgradingNodeGroups | RollingBackNodeGroups => NodegroupsPhase.execute w sp s
  | UpgradingKarpenterNodePools => Karpenter.execute w sp s
  | Completed | Failed => ret (s, None)
  end.

(** The status a successful handler leaves to be sent. *)
Definition finish (w : World) (sp : EKSUpgradeSpec) (generation : Z) (s : EKSUpgradeStatus)
  : EKSUpgradeStatus :=
  let s := with_observed_generation generation s in
  let s := with_progress (compute_progress s) s in
  if decide (phase s = Some Completed)
  then with_last_transition (Some (mkTransition (upgrade_mode sp) (target_version sp) (now w))) s
  else s.

Definition stop_text (e : Stop) : string :=
  match e with Kuo e => kuo_text e | Anyhow t | Panic t => t end.

Definition transient (e : Stop) : bool := match e with Kuo e => is_transient e | _ => false end.

(** The status an error of a handler leaves to be sent. *)
Definition finish_error (w : World) (generation : Z) (e : Stop) (s : EKSUpgradeStatus)
  : EKSUpgradeStatus :=
  let s := with_observed_generation generation s in
  if transient e
  then set_condition (now w) "Ready" "False" "TransientError" (Some (stop_text e)) s
  else set_failed (now w) (stop_text e) s.

(** The status when AWS refuses the operator. *)
Definition auth_failed (w : World) (generation : Z) (prefix reason e : string)
  (s : EKSUpgradeStatus) : EKSUpgradeStatus :=
  with_observed_generation generation
    (set_condition (now w) "AWSAuthenticated" "False" reason (Some e)
       (set_failed (now w) (prefix +:+ e) s)).

Definition identity_verified (w : World) (generation : Z) (i : AwsIdentity) (s : EKSUpgradeStatus)
  : EKSUpgradeStatus :=
  with_observed_generation generation
    (with_identity (Some i)
       (set_condition (now w) "AWSAuthenticated" "True" "IdentityVerified"
          (Some ("account=" +:+ account_id i)) s)).

(** The outcome of a reconcile: the calls made on the cluster, the stored
    status and the action; [None] when the process panics. *)
Definition Outcome : Type := list Call * EKSUpgradeStatus * option Action.

Section Reconcile.
Context (w : World) (first second : PatchOutcome).

(** The dispatch and the final patch; [current] is the status read at the
    start, [stored] the one the server holds by then. *)
Definition run_phase (r : EKSUpgrade) (p : UpgradePhase) (current stored : EKSUpgradeStatus)
  : Outcome :=
  match dispatch w (spec r) p current with
  | (cs, Ok (s, requeue)) =>
      let s := finish w (spec r) (generation r) s in
      (cs, patched second stored s,
       Some (if acknowledged second then
               match requeue with
               | Some d => Some (if d =? 0 then 100 else d * 1000)
               | None => None
               end
             else Some 5000))
  | (cs, Err (Panic _)) => (cs, stored, None)
  | (cs, Err e) =>
      (cs, patched second stored (finish_error w (generation r) e current),
       Some (if transient e then Some 10000 else None))
  end.

Definition reconcile (r : EKSUpgrade) : Outcome :=
  let current := default EKSUpgradeStatus_default (status r) in
  let p := default Pending (phase current) in
  if decide (p = Completed \/ p = Failed) then
    if observed_generation current <? generation r then
      ([], match first with Lost => current | _ => reset_status current (generation r) current end,
       Some (Some (if acknowledged first then 100 else 5000)))
    else ([], current, Some None)
  else if (generation r <=? observed_generation current) && negb (bool_decide (p = Pending))
          && negb (has_active_update current) && negb (polling p)
  then ([], current, Some None)
  else
    match aws_clients w with
    | Err e =>
        ([], patched first current
               (auth_failed w (generation r) "AWS client error: " "AuthenticationFailed" e current),
         Some (Some 60000))
    | Ok _ =>
        match identity current with
        | Some _ => run_phase r p current current
        | None =>
            match verify_identity w with
            | Ok i =>
                run_phase r p current
                  (patched first current (identity_verified w (generation r) i current))
            | Err e =>
                ([], patched first current
                       (auth_failed w (generation r) "AWS authentication failed: "
                          "IdentityVerificationFailed" e current),
                 Some (Some 60000))
            end
        end
    end.
End Reconcile.

(** The resource after a reconcile. *)
Definition after_reconcile (r : EKSUpgrade) (o : Outcome) : EKSUpgrade :=
  mkUpgrade (spec r) (generation r) (Some o.1.2).

(** ** A cluster for the examples of the upgrade operator

    The answers of a cluster on 1.32 with one add-on, one node group and one
    Karpenter pool of a stale node, where every update succeeds at once, and a
    resource that asks for 1.34. *)

Definition demo_cloud (identity : result string AwsIdentity) (ami_alias version : string) (time : Z)
  : World := mkWorld
  time (Ok tt) identity
  (fun _ => Ok (Some (mkCluster version (Some true))))
  (fun _ _ => Ok "update-1") (fun _ _ => Ok "Successful") (fun _ => Ok [])
  (fun _ => Ok ["coredns"]) (fun _ name => Ok (Some (mkAddonInfo name "v1.11.1-eksbuild.4")))
  (fun _ _ => Ok [mkAddonVersion "v1.11.3-eksbuild.1" true; mkAddonVersion "v1.10.1-eksbuild.2" false])
  (fun _ _ _ => Ok "update-2") (fun _ _ => Ok "ACTIVE")
  (fun _ => Ok ["workers"]) (fun _ name => Ok (Some (mkNodeGroupInfo name (Some version))))
  (fun _ _ _ => Ok "update-3") (fun _ _ _ => Ok "Successful")
  (fun _ _ => Ok [mkInsight (Some "PASSING") None]) (fun _ _ => Ok tt)
  (Ok []) (Ok tt) (Ok ["default"]) (fun _ => Ok (Some "default"))
  (fun _ => Ok [mkAmiTerm false (Some ami_alias)])
  (fun _ => Ok [mkNodeClaim "default-abc" (Some "ip-10-0-0-1") None (Some 0)])
  (fun _ => Ok false) (fun _ => Ok tt) (fun _ => Ok (Some (Some "v1.32.1-eks-5d632ec"))) (fun _ => Ok [])
  (fun _ _ => Ok None) (fun _ _ => Ok None) (fun _ _ => Ok None) (fun _ _ => Ok None) (fun _ => None).

Definition demo_world : string -> Z -> World :=
  demo_cloud (Ok (mkIdentity "111122223333" "arn:aws:iam::111122223333:role/kuo")) "al2023@latest".

Definition demo_karpenter : KarpenterNodePoolsConfig := mkKarpenterConfig true ["ALL"] "10%" 15 10.

Definition demo_spec (mode : UpgradeMode) (target : string) (dry_run : bool)
  (karpenter : option KarpenterNodePoolsConfig) : EKSUpgradeSpec :=
  mkSpec "prod" target "ap-northeast-2" mode None None dry_run None karpenter.

(** A resource just created. *)
Definition demo_upgrade (mode : UpgradeMode) (target : string) (dry_run : bool)
  (karpenter : option KarpenterNodePoolsConfig) : EKSUpgrade :=
  mkUpgrade (demo_spec mode target dry_run karpenter) 1 None.

(** The turns of a cluster on one version, every patch stored. *)
Definition demo_turns (version : string) (n : nat) : list (World * PatchOutcome * PatchOutcome) :=
  repeat (demo_world version 1000, Stored, Stored) n.
