(* ===== verification/UpgradeInvariant.v ===== *)
(** * The invariant of an upgrade run

    What holds of the stored status between two reconciles of a run under one
    specification: nothing is planned before the planning phase has passed;
    afterwards the control plane status follows the path, and an update id is
    recorded only for a component being updated.  Each phase handler keeps it,
    goes to a later phase or stays, and sends a status that the merge patch
    stores unchanged. *)

From stdpp Require Import prelude list strings pretty.
From Stdlib Require Import ZArith Lia.
From S2P Require Import Prelude.
From S2P Require Import Strings.
From S2P Require Import UpgradeStatus.
From S2P Require Import KubeVersion.
From S2P Require Import Cloud.
From S2P Require Import Transition.
From S2P Require Import ControlPlane.
From S2P Require Import AddonsPhase.
From S2P Require Import NodegroupsPhase.
From S2P Require Import Karpenter.
From S2P Require Import PlanningPhase.
From S2P Require Import PreflightPhase.
From S2P Require Import Reconcile.

Open Scope kuo_scope.

Definition cp_phase (mode : UpgradeMode) : UpgradePhase :=
  match mode with Forward => UpgradingControlPlane | Rollback => RollingBackControlPlane end.
Definition addon_phase (mode : UpgradeMode) : UpgradePhase :=
  match mode with Forward => UpgradingAddons | Rollback => RollingBackAddons end.
Definition ng_phase (mode : UpgradeMode) : UpgradePhase :=
  match mode with Forward => UpgradingNodeGroups | Rollback => RollingBackNodeGroups end.

Definition terminal (p : UpgradePhase) : bool :=
  match p with Completed | Failed => true | _ => false end.

(** No plan yet. *)
Definition fresh_phases (ps : PhaseStatuses) : Prop :=
  planning ps = None /\ preflight ps = None /\ control_plane ps = None /\
  addons ps = [] /\ nodegroups ps = [].

Definition path_of (s : EKSUpgradeStatus) : list string :=
  match planning (phases s) with Some p => upgrade_path p | None => [] end.

(** The control plane status with respect to the path, in phase [p]. *)
Record cp_follows (mode : UpgradeMode) (p : UpgradePhase) (path : list string)
  (cp : ControlPlaneStatus) : Prop := {
  cp_total : total_steps cp = zlen path;
  cp_short : zlen path < u32_max;
  cp_idle : p <> cp_phase mode -> cp_update_id cp = None;
  cp_first : before mode p (cp_phase mode) -> current_step cp = Z.min 1 (zlen path);
  cp_range : p = cp_phase mode -> 1 <= current_step cp <= zlen path;
}.

Definition ng_follows (mode : UpgradeMode) (p : UpgradePhase) (n : NodegroupStatus) : Prop :=
  ng_status n <> CFailed /\
  (is_some (ng_update_id n) = true -> p = ng_phase mode /\ ng_status n = CInProgress).

(** The plan is there, in phase [p]. *)
Record planned (mode : UpgradeMode) (p : UpgradePhase) (ps : PhaseStatuses) : Prop := {
  planned_cp : exists pl cp, planning ps = Some pl /\ control_plane ps = Some cp /\
                 cp_follows mode p (upgrade_path pl) cp;
  planned_addons : Forall (fun a => a_status a <> CFailed) (addons ps);
  planned_nodegroups : Forall (ng_follows mode p) (nodegroups ps);
}.

Definition stage (mode : UpgradeMode) (p : UpgradePhase) (ps : PhaseStatuses) : Prop :=
  match p with
  | Pending | Planning => fresh_phases ps
  | PreflightChecking => preflight ps = None /\ planned mode p ps
  | Completed | Failed => True
  | _ => is_Some (rank mode p) /\ planned mode p ps
  end.

(** A handler may leave this status for [s] in phase [p]. *)
Record good_step (mode : UpgradeMode) (p : UpgradePhase) (s s' : EKSUpgradeStatus) : Prop := {
  step_phase : exists p', phase s' = Some p' /\ (p' = p \/ before mode p p') /\
                 stage mode p' (phases s');
  step_merge : merge_phases (phases s) (phases s') = phases s';
}.

(** ** Merging *)

Ltac merge_objects :=
  rewrite ?(merge_object_same _ _ merge_planning_same), ?(merge_object_same _ _ skip_empty_same),
    ?(merge_object_same _ _ merge_control_plane_same), ?(merge_object_same _ _ merge_karpenter_same).

Lemma merge_phases_same ps : merge_phases ps ps = ps.
Proof.
  destruct ps. unfold merge_phases; cbn.
  merge_objects.
  by rewrite !skip_empty_same.
Qed.

Lemma merge_set_control_plane cp cp' ps :
  control_plane ps = Some cp -> (cp_completed_at cp' = None -> cp_completed_at cp = None) ->
  merge_phases ps (set_control_plane (Some cp') ps) = set_control_plane (Some cp') ps.
Proof.
  intros Hcp Hc. destruct ps; cbn in *; subst. unfold merge_phases, set_control_plane; cbn.
  merge_objects. rewrite !skip_empty_same.
  do 2 f_equal. unfold merge_control_plane. destruct cp', cp; cbn in *.
  destruct cp_completed_at; cbn; [done|]. by rewrite Hc.
Qed.

Lemma skip_empty_alter {A} (f : A -> A) i l : skip_empty l (alter f i l) = alter f i l.
Proof. destruct l; [done|]. by destruct i. Qed.

Lemma merge_set_addons f i ps :
  merge_phases ps (set_addons (alter f i (addons ps)) ps) = set_addons (alter f i (addons ps)) ps.
Proof.
  destruct ps. unfold merge_phases, set_addons; cbn.
  merge_objects.
  by rewrite skip_empty_alter, skip_empty_same.
Qed.

Lemma merge_set_nodegroups f i ps :
  merge_phases ps (set_nodegroups (alter f i (nodegroups ps)) ps)
  = set_nodegroups (alter f i (nodegroups ps)) ps.
Proof.
  destruct ps. unfold merge_phases, set_nodegroups; cbn.
  merge_objects.
  by rewrite skip_empty_alter, skip_empty_same.
Qed.

(** ** From phase to phase *)

Lemma before_irrefl mode p : ~ before mode p p.
Proof. intros (m & n & Hm & Hn & Hlt). simplify_eq. lia. Qed.

Lemma before_trans mode p q r : before mode p q -> before mode q r -> before mode p r.
Proof.
  intros (m & n & Hm & Hn & Hmn) (n' & k & Hn' & Hk & Hnk). simplify_eq.
  exists m, k. split; [done|]. split; [done|lia].
Qed.

Lemma before_asym mode p q : before mode p q -> ~ before mode q p.
Proof. intros H1 H2. exact (before_irrefl _ _ (before_trans _ _ _ _ H1 H2)). Qed.

(** A plan between two phases: no update id is recorded. *)
Record settled (mode : UpgradeMode) (p : UpgradePhase) (ps : PhaseStatuses) : Prop := {
  settled_cp : exists pl cp, planning ps = Some pl /\ control_plane ps = Some cp /\
                 total_steps cp = zlen (upgrade_path pl) /\ zlen (upgrade_path pl) < u32_max /\
                 cp_update_id cp = None /\
                 (before mode p (cp_phase mode) ->
                  current_step cp = Z.min 1 (zlen (upgrade_path pl)));
  settled_addons : Forall (fun a => a_status a <> CFailed) (addons ps);
  settled_nodegroups :
    Forall (fun n => ng_status n <> CFailed /\ ng_update_id n = None) (nodegroups ps);
}.

(** The phases that change the cluster. *)
Definition working (mode : UpgradeMode) (p : UpgradePhase) : Prop :=
  before mode PreflightChecking p /\ terminal p = false.

Lemma stage_working mode p ps : working mode p -> stage mode p ps <-> is_Some (rank mode p) /\ planned mode p ps.
Proof.
  intros [(m & n & Hm & Hn & Hlt) Ht]. destruct p; try done; destruct mode; cbn in *; simplify_eq; lia.
Qed.

Lemma settled_stage mode p p' ps :
  settled mode p ps -> before mode p p' -> before mode PreflightChecking p' ->
  (p' = cp_phase mode -> exists pl, planning ps = Some pl /\ upgrade_path pl <> []) ->
  stage mode p' ps.
Proof.
  intros [Hcp Ha Hn] Hlt Hw Hne. destruct (terminal p') eqn:Et; [by destruct p'|].
  apply stage_working; [done|].
  split; [destruct Hlt as (? & ? & _ & -> & _); by eexists|]. split; [|done|].
  - destruct Hcp as (pl & cp & Hpl & Hcp & Htot & Hshort & Hid & Hfirst). exists pl, cp.
    split; [done|]. split; [done|]. split; [done|done|done| |].
    + intros Hb. apply Hfirst. by eapply before_trans.
    + intros ->. destruct Hne as (pl' & ? & Hne); [done|]. simplify_eq.
      rewrite Hfirst by done. unfold zlen. destruct (upgrade_path pl); [done|]. cbn [length]. lia.
  - eapply Forall_impl; [exact Hn|]. intros n [Hf Hid]. split; [done|]. by rewrite Hid.
Qed.

Lemma planned_settled mode p ps :
  planned mode p ps -> p <> cp_phase mode -> p <> ng_phase mode -> settled mode p ps.
Proof.
  intros [(pl & cp & Hpl & Hcp & [Htot Hshort Hidle Hfirst Hrange]) Ha Hn] H1 H2. split; [|done|].
  - exists pl, cp. eauto 10.
  - eapply Forall_impl; [exact Hn|]. intros n [Hf Hid]. split; [done|].
    destruct (ng_update_id n); [|done]. by destruct Hid.
Qed.

Lemma has_cp_steps_path s :
  has_cp_steps s = true -> exists pl, planning (phases s) = Some pl /\ upgrade_path pl <> [].
Proof.
  unfold has_cp_steps. destruct (planning _) as [p|]; [|done].
  destruct (upgrade_path p) eqn:E; [done|]. intros _. exists p. by rewrite E.
Qed.

Lemma has_cp_steps_phases s s' : phases s = phases s' -> has_cp_steps s = has_cp_steps s'.
Proof. unfold has_cp_steps. by intros ->. Qed.

Ltac cases_if := repeat match goal with
  | H : context [if ?b then _ else _] |- _ => destruct b eqn:?
  end.

Lemma after_preflight_cp s mode : after_preflight s mode = cp_phase mode -> has_cp_steps s = true.
Proof. unfold after_preflight. destruct mode; intros H; cbn [cp_phase] in H; cases_if; congruence. Qed.

Lemma after_addons_cp s mode : after_addons s mode = cp_phase mode -> has_cp_steps s = true.
Proof. unfold after_addons. destruct mode; intros H; cbn [cp_phase] in H; cases_if; congruence. Qed.

Lemma after_nodegroups_cp s mode : after_nodegroups s mode = cp_phase mode -> has_cp_steps s = true.
Proof. unfold after_nodegroups. destruct mode; intros H; cbn [cp_phase] in H; cases_if; congruence. Qed.

(** Going to a later phase without touching the plan. *)
Lemma good_transition now mode p p' s :
  settled mode p (phases s) -> before mode p p' -> before mode PreflightChecking p' ->
  (p' = cp_phase mode -> has_cp_steps s = true) ->
  good_step mode p s (transition_to now p' s).
Proof.
  intros Hs Hlt Hw Hcp. split.
  - exists p'. rewrite transition_to_phase, transition_to_phases. split; [done|]. split; [auto|].
    apply (settled_stage _ p); auto. intros E. by apply has_cp_steps_path, Hcp.
  - rewrite transition_to_phases. apply merge_phases_same.
Qed.

(** Failing is always possible. *)
Lemma good_failure now mode p msg s s' :
  is_Some (rank mode p) -> terminal p = false -> merge_phases (phases s) (phases s') = phases s' ->
  good_step mode p s (set_failed now msg s').
Proof.
  intros [n Hn] Ht Hm. split; [|done]. exists Failed. split; [done|]. split; [|done]. right.
  exists n, 7%nat. split; [done|]. split; [by destruct mode|].
  destruct mode, p; cbn in *; simplify_eq; lia.
Qed.

(** Staying in the phase. *)
Lemma good_stay mode p s s' :
  phase s' = Some p -> stage mode p (phases s') ->
  merge_phases (phases s) (phases s') = phases s' -> good_step mode p s s'.
Proof. intros Hp' Hst Hm. split; [|done]. eauto. Qed.

(** ** The handlers *)

Lemma terminal_idle mode p : working mode p -> is_Some (rank mode p).
Proof. intros [(m & n & _ & Hn & _) _]. by eexists. Qed.

Lemma working_cp mode : working mode (cp_phase mode).
Proof. split; [|by destruct mode]. exists 2%nat. destruct mode; cbn; eauto with lia. Qed.
Lemma working_addon mode : working mode (addon_phase mode).
Proof. split; [|by destruct mode]. exists 2%nat. destruct mode; cbn; eauto with lia. Qed.
Lemma working_ng mode : working mode (ng_phase mode).
Proof. split; [|by destruct mode]. exists 2%nat. destruct mode; cbn; eauto with lia. Qed.
#[export] Hint Resolve working_cp working_addon working_ng terminal_idle : kuo.

Lemma later_working mode p p' : working mode p -> before mode p p' -> before mode PreflightChecking p'.
Proof. intros [H _] H'. by eapply before_trans. Qed.

(** The control plane moves within its phase. *)
Lemma planned_set_cp mode cp pl ps :
  planned mode (cp_phase mode) ps -> planning ps = Some pl ->
  total_steps cp = zlen (upgrade_path pl) -> 1 <= current_step cp <= zlen (upgrade_path pl) ->
  planned mode (cp_phase mode) (set_control_plane (Some cp) ps).
Proof.
  intros [(pl' & cp' & Hpl & Hcp & [Htot Hshort Hidle Hfirst Hrange]) Ha Hn] Hpl' Ht Hr.
  assert (pl' = pl) as -> by congruence. split; [|done|done]. exists pl, cp. split; [done|]. split; [done|].
  split; try done. intros Hb. by apply before_irrefl in Hb.
Qed.

Lemma ng_settled_in_cp mode ps :
  Forall (ng_follows mode (cp_phase mode)) ps ->
  Forall (fun n => ng_status n <> CFailed /\ ng_update_id n = None) ps.
Proof.
  intros H. eapply Forall_impl; [exact H|]. intros n [Hf Hid]. split; [done|].
  destruct (ng_update_id n); [|done]. destruct Hid as [Hp _]; [done|]. by destruct mode.
Qed.

(** All steps are done: the phase is left. *)
Lemma good_advance now mode pl cp cp' s s' :
  planned mode (cp_phase mode) (phases s) -> planning (phases s) = Some pl ->
  control_plane (phases s) = Some cp ->
  phases s' = set_control_plane (Some cp') (phases s) ->
  total_steps cp' = zlen (upgrade_path pl) ->
  good_step mode (cp_phase mode) s (ControlPlane.advance_to_next_phase now mode s').
Proof.
  intros [(pl' & cp0 & Hpl & Hcp & [Htot Hshort _ _ _]) Ha Hn] Hpl' Hcp' Hps Ht.
  assert (pl' = pl) as -> by congruence. assert (cp0 = cp) as -> by congruence.
  unfold ControlPlane.advance_to_next_phase. set (s1 := map_control_plane (steps_done now) s').
  assert (E1 : phases s1 = set_control_plane (Some (steps_done now cp')) (phases s))
    by (unfold s1, map_control_plane; cbn; by rewrite Hps).
  assert (Hb : before mode (cp_phase mode) (after_control_plane s1 mode)).
  { apply after_control_plane_later; [destruct mode; auto|destruct mode; by eexists]. }
  assert (Hg : good_step mode (cp_phase mode) s1 (transition_to now (after_control_plane s1 mode) s1)).
  { apply good_transition; [|done|by apply (later_working mode (cp_phase mode)); auto with kuo|].
    - rewrite E1. split; cbn; [|done|by apply (ng_settled_in_cp mode)].
      exists pl, (steps_done now cp'). split; [done|]. split; [done|]. cbn.
      split; [done|]. split; [done|]. split; [done|]. intros Hx. by apply before_irrefl in Hx.
    - intros E. rewrite E in Hb. by apply before_irrefl in Hb. }
  destruct Hg as [Hph _]. split; [done|]. rewrite transition_to_phases, E1.
  apply (merge_set_control_plane cp); [done|]. by cbn.
Qed.

(** The possible outcomes of the control plane handler: [cp] and [path] are
    those of the status. *)
Inductive cp_outcome (mode : UpgradeMode) (s : EKSUpgradeStatus) (path : list string)
  (cp : ControlPlaneStatus) : list Call -> result Stop Step -> Prop :=
| CpAsked v e : path !! Z.to_nat (current_step cp - 1) = Some v ->
    cp_outcome mode s path cp [UpdateClusterVersion v] (Err (Kuo e))
| CpStarted now v id : path !! Z.to_nat (current_step cp - 1) = Some v ->
    cp_outcome mode s path cp [UpdateClusterVersion v]
      (Ok (map_control_plane (step_started now v id) s, Some ControlPlane.POLL_INTERVAL))
| CpPollFailed e : cp_outcome mode s path cp [] (Err (Kuo e))
| CpPolled : cp_outcome mode s path cp [] (Ok (s, Some ControlPlane.POLL_INTERVAL))
| CpFailed now msg :
    cp_outcome mode s path cp [] (Ok (set_failed now msg (map_control_plane clear_update s), None))
| CpStepDone v : is_some (cp_update_id cp) = true -> current_step cp < zlen path ->
    cp_outcome mode s path cp []
      (Ok (with_current_version (Some v)
             (map_control_plane (step_done (current_step cp + 1)) s), Some 0))
| CpAllDone now v : is_some (cp_update_id cp) = true -> current_step cp = zlen path ->
    cp_outcome mode s path cp []
      (Ok (ControlPlane.advance_to_next_phase now mode
             (with_current_version (Some v)
                (map_control_plane (step_done (current_step cp + 1)) s)), None)).

Lemma cp_execute_outcome w sp s pl cp cs r :
  planning (phases s) = Some pl -> control_plane (phases s) = Some cp ->
  cp_follows (upgrade_mode sp) (cp_phase (upgrade_mode sp)) (upgrade_path pl) cp ->
  ControlPlane.execute w sp s = (cs, r) ->
  cp_outcome (upgrade_mode sp) s (upgrade_path pl) cp cs r.
Proof.
  intros Hpl Hcp [Htot Hshort _ _ Hrange]. specialize (Hrange eq_refl).
  unfold ControlPlane.execute. rewrite Hcp, Hpl. cbn [need bind ret app].
  rewrite (proj2 (Z.ltb_ge _ _)) by lia.
  rewrite Z.mod_small by (unfold u32_max in Hshort; lia).
  destruct (lookup_lt_is_Some_2 (upgrade_path pl) (Z.to_nat (current_step cp - 1))) as [v Hv];
    [unfold zlen in *; lia|].
  rewrite Hv. cbn [need bind ret app].
  destruct (cp_update_id cp) as [id|] eqn:Hid.
  - destruct (timed_out _ _ _); cbn; [intros [= <- <-]; apply CpFailed|].
    destruct (check_update_status _ _ _) as [st|e]; cbn; [|intros [= <- <-]; apply CpPollFailed].
    unfold process_update_result. rewrite Hcp. unfold u32_wrapping_add.
    rewrite Z.mod_small by (unfold u32_max in Hshort; lia).
    destruct (String.eqb st "Successful"); cbn.
    + destruct (total_steps cp <? current_step cp + 1) eqn:E; bool_to_prop; intros [= <- <-].
      * apply CpAllDone; [by rewrite Hid|lia].
      * apply CpStepDone; [by rewrite Hid|lia].
    + destruct (String.eqb st "Failed" || String.eqb st "Cancelled"); intros [= <- <-];
        [apply CpFailed|apply CpPolled].
  - destruct (update_cluster_version _ _ _) as [id|e]; cbn; intros [= <- <-];
      [by apply CpStarted|by apply CpAsked].
Qed.

Lemma map_control_plane_phases f s cp :
  control_plane (phases s) = Some cp ->
  phases (map_control_plane f s) = set_control_plane (Some (f cp)) (phases s).
Proof. intros H. unfold map_control_plane. cbn. by rewrite H. Qed.

Lemma cp_outcome_good mode s pl cp cs s' rq :
  phase s = Some (cp_phase mode) -> planned mode (cp_phase mode) (phases s) ->
  planning (phases s) = Some pl -> control_plane (phases s) = Some cp ->
  cp_follows mode (cp_phase mode) (upgrade_path pl) cp ->
  cp_outcome mode s (upgrade_path pl) cp cs (Ok (s', rq)) ->
  good_step mode (cp_phase mode) s s'.
Proof.
  intros Hph Hplan Hpl Hcp [Htot Hshort _ _ Hrange] Ho. specialize (Hrange eq_refl).
  assert (Hmove : forall cp', total_steps cp' = zlen (upgrade_path pl) ->
            1 <= current_step cp' <= zlen (upgrade_path pl) ->
            stage mode (cp_phase mode) (set_control_plane (Some cp') (phases s))).
  { intros cp' Ht Hr. apply stage_working; [auto with kuo|]. split; [auto with kuo|].
    by apply (planned_set_cp _ _ pl). }
  inversion Ho; subst.
  - apply good_stay; [done| |]; rewrite (map_control_plane_phases _ _ _ Hcp); [by apply Hmove|].
    by apply (merge_set_control_plane cp).
  - apply good_stay; [done| |by apply merge_phases_same]. apply stage_working; auto with kuo.
  - apply good_failure; [auto with kuo|by destruct mode|].
    rewrite (map_control_plane_phases _ _ _ Hcp). by apply (merge_set_control_plane cp).
  - apply good_stay; [done| |]; cbn [phases with_current_version];
      rewrite (map_control_plane_phases _ _ _ Hcp); [by apply Hmove; cbn; lia|].
    by apply (merge_set_control_plane cp).
  - eapply (good_advance _ _ pl cp); [done..| |].
    + cbn [phases with_current_version]. by apply map_control_plane_phases.
    + done.
Qed.

(** ** Add-ons and node groups *)

Lemma first_undone_Some {A} (f : A -> ComponentStatus) l i x :
  first_undone f l = Some (i, x) -> l !! i = Some x /\ is_done (f x) = false.
Proof. unfold first_undone. intros (? & ? & _)%list_find_Some. done. Qed.

Lemma first_undone_None {A} (f : A -> ComponentStatus) l :
  first_undone f l = None <-> Forall (fun x => is_done (f x) = true) l.
Proof.
  unfold first_undone. rewrite list_find_None. apply Forall_proper; [|done].
  intros x. by rewrite not_false_iff_true.
Qed.

Inductive addon_outcome (mode : UpgradeMode) (s : EKSUpgradeStatus)
  : list Call -> result Stop Step -> Prop :=
| AddonsDone now : Forall (fun a => is_done (a_status a) = true) (addons (phases s)) ->
    addon_outcome mode s [] (Ok (AddonsPhase.advance_to_next_phase now mode s, None))
| AddonAsked i a e : addons (phases s) !! i = Some a -> a_status a = CPending ->
    addon_outcome mode s [UpdateAddon (a_name a) (a_target_version a)] (Err (Kuo e))
| AddonStarted i a now : addons (phases s) !! i = Some a -> a_status a = CPending ->
    addon_outcome mode s [UpdateAddon (a_name a) (a_target_version a)]
      (Ok (AddonsPhase.map_addon i (AddonsPhase.addon_started now) s, Some AddonsPhase.POLL_INTERVAL))
| AddonPollFailed e : addon_outcome mode s [] (Err (Kuo e))
| AddonPolled : addon_outcome mode s [] (Ok (s, Some AddonsPhase.POLL_INTERVAL))
| AddonCompleted i a now : addons (phases s) !! i = Some a -> a_status a = CInProgress ->
    addon_outcome mode s []
      (Ok (AddonsPhase.map_addon i (AddonsPhase.addon_finished now CCompleted) s, Some 0))
| AddonFailed i now now' msg :
    addon_outcome mode s []
      (Ok (set_failed now msg (AddonsPhase.map_addon i (AddonsPhase.addon_finished now' CFailed) s), None)).

Lemma addons_execute_outcome w sp s cs r :
  Forall (fun a => a_status a <> CFailed) (addons (phases s)) ->
  AddonsPhase.execute w sp s = (cs, r) -> addon_outcome (upgrade_mode sp) s cs r.
Proof.
  intros Hf. unfold AddonsPhase.execute. destruct (first_undone _ _) as [[i a]|] eqn:E.
  2:{ intros [= <- <-]. apply AddonsDone. by apply first_undone_None. }
  apply first_undone_Some in E as [Hi Hd]. pose proof (Forall_lookup_1 _ _ _ _ Hf Hi) as Hne.
  cbn beta in Hne. destruct (a_status a) eqn:Ea; try done.
  - destruct (update_addon _ _ _ _); cbn; intros [= <- <-];
      [by eapply AddonStarted|by eapply AddonAsked].
  - destruct (poll_addon_status _ _ _) as [st|e]; cbn; [|intros [= <- <-]; apply AddonPollFailed].
    unfold AddonsPhase.apply_addon_poll_result. intros [= <- <-].
    destruct (String.eqb st "ACTIVE"); [by eapply AddonCompleted|].
    destruct (AddonsPhase.addon_failed st); [apply AddonFailed|apply AddonPolled].
Qed.

Lemma planned_map_addons mode p i f ps :
  planned mode p ps -> (forall a, a_status (f a) <> CFailed) ->
  planned mode p (set_addons (alter f i (addons ps)) ps).
Proof. intros [Hc Ha Hn] Hf. split; [done| |done]. cbn. apply Forall_alter; auto. Qed.

Lemma addon_outcome_good mode s cs s' rq :
  phase s = Some (addon_phase mode) -> planned mode (addon_phase mode) (phases s) ->
  addon_outcome mode s cs (Ok (s', rq)) -> good_step mode (addon_phase mode) s s'.
Proof.
  intros Hph Hplan Ho.
  assert (Hstay : forall ps, planned mode (addon_phase mode) ps -> stage mode (addon_phase mode) ps)
    by (intros; apply stage_working; auto with kuo).
  inversion Ho; subst.
  - assert (Hb : before mode (addon_phase mode) (after_addons s mode))
      by (apply after_addons_later; destruct mode; auto; by eexists).
    apply good_transition; [|done|by apply (later_working mode (addon_phase mode)); auto with kuo|].
    + apply planned_settled; [done|by destruct mode..].
    + apply after_addons_cp.
  - apply good_stay; [done| |apply merge_set_addons]. by apply Hstay, planned_map_addons.
  - apply good_stay; [done|by apply Hstay|apply merge_phases_same].
  - apply good_stay; [done| |apply merge_set_addons]. by apply Hstay, planned_map_addons.
  - apply good_failure; [auto with kuo|by destruct mode|apply merge_set_addons].
Qed.

Inductive ng_outcome (mode : UpgradeMode) (s : EKSUpgradeStatus)
  : list Call -> result Stop Step -> Prop :=
| NodegroupsDone now : Forall (fun n => is_done (ng_status n) = true) (nodegroups (phases s)) ->
    ng_outcome mode s [] (Ok (transition_to now (after_nodegroups s mode) s, None))
| NodegroupAsked i n e : nodegroups (phases s) !! i = Some n -> ng_status n = CPending ->
    ng_outcome mode s [UpdateNodegroupVersion (ng_name n) (ng_target_version n)] (Err (Kuo e))
| NodegroupStarted i n now id : nodegroups (phases s) !! i = Some n -> ng_status n = CPending ->
    ng_outcome mode s [UpdateNodegroupVersion (ng_name n) (ng_target_version n)]
      (Ok (NodegroupsPhase.map_nodegroup i (NodegroupsPhase.nodegroup_started now id) s,
           Some NodegroupsPhase.POLL_INTERVAL))
| NodegroupPollFailed e : ng_outcome mode s [] (Err (Kuo e))
| NodegroupPolled : ng_outcome mode s [] (Ok (s, Some NodegroupsPhase.POLL_INTERVAL))
| NodegroupCompleted i n now : nodegroups (phases s) !! i = Some n -> ng_status n = CInProgress ->
    ng_outcome mode s []
      (Ok (NodegroupsPhase.map_nodegroup i (NodegroupsPhase.nodegroup_completed now) s, Some 0))
| NodegroupFailed i now msg :
    ng_outcome mode s []
      (Ok (set_failed now msg (NodegroupsPhase.map_nodegroup i NodegroupsPhase.nodegroup_failed s), None)).

Lemma nodegroups_execute_outcome w sp s cs r :
  Forall (fun n => ng_status n <> CFailed) (nodegroups (phases s)) ->
  NodegroupsPhase.execute w sp s = (cs, r) -> ng_outcome (upgrade_mode sp) s cs r.
Proof.
  intros Hf. unfold NodegroupsPhase.execute, NodegroupsPhase.find_active_nodegroup.
  destruct (first_undone _ _) as [[i n]|] eqn:E.
  2:{ intros [= <- <-]. apply NodegroupsDone. by apply first_undone_None. }
  apply first_undone_Some in E as [Hi Hd]. pose proof (Forall_lookup_1 _ _ _ _ Hf Hi) as Hne.
  cbn beta in Hne. destruct (ng_status n) eqn:En; try done.
  - destruct (update_nodegroup_version _ _ _ _); cbn; intros [= <- <-];
      [by eapply NodegroupStarted|by eapply NodegroupAsked].
  - destruct (timed_out _ _ _); cbn; [intros [= <- <-]; apply NodegroupFailed|].
    destruct (poll_nodegroup_update _ _ _ _) as [st|e]; cbn;
      [|intros [= <- <-]; apply NodegroupPollFailed].
    unfold NodegroupsPhase.apply_poll_result. intros [= <- <-].
    destruct (String.eqb st "Successful"); [by eapply NodegroupCompleted|].
    destruct (String.eqb st "Failed" || String.eqb st "Cancelled");
      [apply NodegroupFailed|apply NodegroupPolled].
Qed.

Lemma planned_map_nodegroups mode p i f ps :
  planned mode p ps -> (forall n, ng_follows mode p (f n)) ->
  planned mode p (set_nodegroups (alter f i (nodegroups ps)) ps).
Proof. intros [Hc Ha Hn] Hf. split; [done|done|]. cbn. apply Forall_alter; auto. Qed.

Lemma nodegroups_done_settled mode ps :
  planned mode (ng_phase mode) ps -> Forall (fun n => is_done (ng_status n) = true) (nodegroups ps) ->
  settled mode (ng_phase mode) ps.
Proof.
  intros [(pl & cp & Hpl & Hcp & [Htot Hshort Hidle Hfirst _]) Ha Hn] Hd. split; [|done|].
  - exists pl, cp. split; [done|]. split; [done|]. split; [done|]. split; [done|].
    split; [apply Hidle; by destruct mode|done].
  - apply Forall_forall. intros n Hin. rewrite Forall_forall in Hn, Hd.
    destruct (Hn _ Hin) as [Hf Hid]. split; [done|]. specialize (Hd _ Hin). cbn beta in Hd.
    destruct (ng_update_id n); [|done]. destruct Hid as [_ Hst]; [done|]. by rewrite Hst in Hd.
Qed.

Lemma ng_outcome_good mode s cs s' rq :
  phase s = Some (ng_phase mode) -> planned mode (ng_phase mode) (phases s) ->
  ng_outcome mode s cs (Ok (s', rq)) -> good_step mode (ng_phase mode) s s'.
Proof.
  intros Hph Hplan Ho.
  assert (Hstay : forall ps, planned mode (ng_phase mode) ps -> stage mode (ng_phase mode) ps)
    by (intros; apply stage_working; auto with kuo).
  inversion Ho; subst.
  - assert (Hb : before mode (ng_phase mode) (after_nodegroups s mode))
      by (apply after_nodegroups_later; destruct mode; auto; by eexists).
    apply good_transition; [|done|by apply (later_working mode (ng_phase mode)); auto with kuo|].
    + by apply nodegroups_done_settled.
    + apply after_nodegroups_cp.
  - apply good_stay; [done| |apply merge_set_nodegroups]. apply Hstay, planned_map_nodegroups; done.
  - apply good_stay; [done|by apply Hstay|apply merge_phases_same].
  - apply good_stay; [done| |apply merge_set_nodegroups]. apply Hstay, planned_map_nodegroups; done.
  - apply good_failure; [auto with kuo|by destruct mode|apply merge_set_nodegroups].
Qed.

(** ** Preflight and planning *)

(** A computation that only reads and panics only if [P]. *)
Definition quiet (P : Prop) {A} (m : M A) : Prop :=
  m.1 = [] /\ match m.2 with Err (Panic _) => P | _ => True end.

Lemma quiet_bind {P} {A B} (m : M A) (f : A -> M B) :
  quiet P m -> (forall a, quiet P (f a)) -> quiet P (bind m f).
Proof.
  intros [Hc Hp] Hf. unfold bind. destruct m as [cs [a|e]]; cbn in *; subst; [|done].
  destruct (Hf a) as [Hc' Hp']. by destruct (f a) as [cs' r].
Qed.

Lemma quiet_ret {P} {A} (a : A) : quiet P (ret a).
Proof. done. Qed.
Lemma quiet_lift {P} {A} (r : result KuoError A) : quiet P (lift r).
Proof. split; [done|]. by destruct r. Qed.
Lemma quiet_kuo {P} {A} e : quiet P (@stop A (Kuo e)).
Proof. done. Qed.
Lemma quiet_need {P} {A} e (o : option A) : quiet P (need (Kuo e) o).
Proof. by destruct o. Qed.
Lemma quiet_attempt {P} {A} (m : M A) : quiet P m -> quiet P (attempt m).
Proof. intros [H _]. by split. Qed.
#[export] Hint Resolve quiet_ret quiet_lift quiet_kuo quiet_need quiet_attempt : kuo.

(** Splits a chain of binds and case analyses into reads. *)
Ltac quiet_tac :=
  repeat first
    [ solve [auto with kuo]
    | apply quiet_bind; [|intros ?]
    | apply quiet_attempt
    | match goal with |- quiet _ (match ?x with _ => _ end) => destruct x end ].

Lemma quiet_each {P} {A B} (f : A -> M B) l : (forall a, quiet P (f a)) -> quiet P (each f l).
Proof. intros Hf. induction l; cbn [each]; quiet_tac. Qed.
#[export] Hint Resolve quiet_each : kuo.

Lemma quiet_resolve_client {P} w sp : quiet P (resolve_client w sp).
Proof. unfold resolve_client. quiet_tac. Qed.
#[export] Hint Resolve quiet_resolve_client : kuo.

Lemma quiet_resolve_stale {P} w pool minor done_ : quiet P (resolve_stale w pool minor done_).
Proof.
  unfold resolve_stale, list_nodeclaims. quiet_tac. apply quiet_each. intros c.
  unfold kubelet_of. quiet_tac.
Qed.
#[export] Hint Resolve quiet_resolve_stale : kuo.

Lemma quiet_plan_karpenter {P} w sp : quiet P (plan_karpenter w sp).
Proof.
  unfold plan_karpenter, list_nodepool_names. quiet_tac. apply quiet_each. intros name.
  unfold planned_pool. quiet_tac.
Qed.

Lemma quiet_list_addons {P} w c : quiet P (list_addons w c).
Proof. unfold list_addons. quiet_tac. Qed.

(** Only the sort may panic, and only on versions that are not ordered. *)
Lemma quiet_latest w a v : quiet (~ orderly w) (get_latest_compatible_version w a v).
Proof.
  unfold get_latest_compatible_version, get_compatible_versions.
  apply quiet_bind; [|intros; apply quiet_ret].
  unfold bind, lift. destruct (describe_addon_versions w a v) as [versions|e] eqn:E; [|done].
  unfold sort_versions. cbn. destruct (total_order versions) eqn:Et; [done|].
  destruct (unordered_sort w versions); (split; [done|]); cbn; [done|].
  intros H. specialize (H _ _ _ E). congruence.
Qed.
#[export] Hint Resolve quiet_list_addons quiet_latest : kuo.

Lemma quiet_create_plan w sp : quiet (~ orderly w) (create_upgrade_plan w sp).
Proof.
  unfold create_upgrade_plan, plan_addon_upgrades, plan_addon_rollbacks, plan_nodegroup_upgrades,
    list_nodegroups.
  quiet_tac; apply quiet_each; intros ?; unfold addon_upgrade, addon_rollback; cbv zeta; quiet_tac.
Qed.
#[export] Hint Resolve quiet_plan_karpenter quiet_create_plan : kuo.

Lemma quiet_planning w sp s : quiet (~ orderly w) (PlanningPhase.execute w sp s).
Proof. unfold PlanningPhase.execute. cbv zeta. quiet_tac. Qed.

Lemma quiet_pinned_pools {P} w names p : quiet P (pinned_pools w names p).
Proof.
  revert p. induction names as [|np names IH]; intros p; cbn [pinned_pools]; [done|].
  apply quiet_bind; [apply quiet_attempt; unfold nodepool_ami_terms; quiet_tac|].
  intros [terms|e]; quiet_tac.
Qed.
#[export] Hint Resolve quiet_pinned_pools : kuo.

Lemma quiet_run_checks {P} w sp s : quiet P (run_checks w sp s).
Proof.
  unfold run_checks, insights_check, list_insights, pdb_check, check_pdbs, karpenter_check,
    run_karpenter_checks, v1_available, list_nodepool_names. cbv zeta.
  quiet_tac.
Qed.
#[export] Hint Resolve quiet_run_checks quiet_planning : kuo.

Lemma quiet_preflight {P} w sp s : quiet P (PreflightPhase.execute w sp s).
Proof. unfold PreflightPhase.execute. quiet_tac. Qed.

(** The target minor is not the last one a [u32] can hold, so counting its
    steps does not wrap. *)
Definition target_in_range (sp : EKSUpgradeSpec) : Prop :=
  forall major minor, parse_k8s_version (target_version sp) = Ok (major, minor) -> minor < u32_max.

(** The path the mode asks for. *)
Definition path_for (sp : EKSUpgradeSpec) (current : string) : result KuoError (list string) :=
  match upgrade_mode sp with
  | Forward => calculate_upgrade_path current (target_version sp)
  | Rollback => calculate_rollback_path current (target_version sp)
  end.

Lemma path_for_parsed sp current path :
  path_for sp current = Ok path ->
  exists a b c d, parse_k8s_version current = Ok (a, b) /\
                  parse_k8s_version (target_version sp) = Ok (c, d).
Proof.
  unfold path_for, calculate_upgrade_path, calculate_rollback_path. intros H.
  destruct (parse_k8s_version current) as [[a b]|]; [|by destruct (upgrade_mode sp)].
  destruct (parse_k8s_version (target_version sp)) as [[c d]|]; [|by destruct (upgrade_mode sp)].
  eauto 10.
Qed.

Lemma path_for_short sp current path :
  target_in_range sp -> path_for sp current = Ok path -> zlen path < u32_max.
Proof.
  intros Ht H. destruct (path_for_parsed _ _ _ H) as (a & b & c & d & Hc & Hd).
  specialize (Ht _ _ Hd). destruct (parse_k8s_version_range _ _ _ Hc) as [_ Hb].
  unfold path_for in H. unfold is_u32 in Hb. destruct (upgrade_mode sp).
  - destruct (proj1 (upgrade_path_spec _ _ _ _ _ _ Hc Hd _) H) as (? & ? & Hp).
    rewrite Hp. unfold zlen. rewrite length_map, length_seqZ. lia.
  - destruct (proj1 (rollback_path_spec _ _ _ _ _ _ Hc Hd _) H) as (? & [[? Hp]|[? Hp]]);
      rewrite Hp; unfold zlen, u32_max; cbn; lia.
Qed.

Lemma create_plan_path w sp cs plan :
  create_upgrade_plan w sp = (cs, Ok plan) ->
  path_for sp (plan_current_version plan) = Ok (plan_path plan).
Proof.
  unfold create_upgrade_plan, path_for. intros H.
  apply bind_inv_ok in H as (? & c & ? & _ & H & _). apply bind_inv_ok in H as (? & cl & ? & _ & H & _).
  apply bind_inv_ok in H as (? & path & ? & Hp & H & _). apply bind_inv_ok in H as (? & ad & ? & _ & H & _).
  apply bind_inv_ok in H as (? & ng & ? & _ & H & _). injection H as _ <-. cbn.
  unfold lift in Hp. injection Hp as _ Hp. destruct (upgrade_mode sp); cbn in *;
    match type of Hp with map_err _ ?r = _ => destruct r; cbn in Hp; congruence end.
Qed.

Lemma skip_empty_nil {A} (l : list A) : skip_empty [] l = l.
Proof. by destruct l. Qed.

(** The phases a plan is stored in. *)
Definition with_plan (sp : EKSUpgradeSpec) (plan : UpgradePlan) (karpenter : list KarpenterPoolStatus)
  (s : EKSUpgradeStatus) : EKSUpgradeStatus :=
  match karpenter, karpenter_node_pools sp with
  | _ :: _, Some cfg => store (mkKarpenterStatus "Replace" None 0 0 karpenter) (populate sp plan s)
  | _, _ => populate sp plan s
  end.

Lemma with_plan_planned sp plan karpenter s :
  zlen (plan_path plan) < u32_max ->
  planned (upgrade_mode sp) PreflightChecking (phases (with_plan sp plan karpenter s)).
Proof.
  intros Hshort. pose proof (zlen_nonneg (plan_path plan)) as Hpos.
  assert (H : planned (upgrade_mode sp) PreflightChecking (phases (populate sp plan s))).
  { split; cbn.
    - do 2 eexists. split; [done|]. split; [done|]. cbn. unfold u32_max in *.
      rewrite Z.mod_small by lia. split; cbn; try done.
      + intros _. case_match; bool_to_prop; lia.
      + by destruct (upgrade_mode sp).
    - apply Forall_fmap, Forall_true. done.
    - apply Forall_fmap, Forall_true. intros n. split; done. }
  unfold with_plan. destruct karpenter; [done|]. destruct (karpenter_node_pools sp); [|done].
  by destruct H.
Qed.

Lemma with_plan_merge sp plan karpenter s :
  fresh_phases (phases s) ->
  merge_phases (phases s) (phases (with_plan sp plan karpenter s))
  = phases (with_plan sp plan karpenter s).
Proof.
  intros (H1 & H2 & H3 & H4 & H5). unfold with_plan, merge_phases.
  assert (Hk : forall k, merge_object merge_karpenter k k = k)
    by (intros; apply merge_object_same, merge_karpenter_same).
  destruct karpenter as [|k0 ks]; [|destruct (karpenter_node_pools sp)];
    cbn; unfold set_nodegroups, set_addons, set_control_plane, set_planning, set_karpenter_pools; cbn;
    rewrite H1, ?H2, H3, H4, H5, ?Hk, !skip_empty_nil; cbn; rewrite ?H2; try done.
  by destruct (karpenter_pools (phases s)).
Qed.

Lemma with_plan_preflight sp plan karpenter s :
  preflight (phases (with_plan sp plan karpenter s)) = preflight (phases s).
Proof. unfold with_plan. by repeat case_match. Qed.

Lemma planning_good w sp s cs s' :
  fresh_phases (phases s) -> target_in_range sp ->
  PlanningPhase.execute w sp s = (cs, Ok s') -> good_step (upgrade_mode sp) Planning s s'.
Proof.
  intros Hf Ht H. assert (Hr : is_Some (rank (upgrade_mode sp) Planning))
    by (destruct (upgrade_mode sp); by eexists).
  unfold PlanningPhase.execute, reject_consecutive_rollback in H.
  destruct (negb _); cbn iota zeta in H.
  2:{ injection H as _ <-.
      destruct (good_failure (now w) (upgrade_mode sp) Planning "" s s Hr eq_refl (merge_phases_same _))
        as [Hp Hm]. split; [exact Hp|exact Hm]. }
  apply bind_inv_ok in H as (? & plan & ? & Hplan & H & _).
  apply bind_inv_ok in H as (? & karpenter & ? & _ & H & _).
  apply create_plan_path in Hplan. apply path_for_short in Hplan; [|done].
  fold (with_plan sp plan karpenter s) in H.
  assert (Hgood : forall s1, phases s1 = phases (with_plan sp plan karpenter s) ->
            phase s1 = Some Completed \/ phase s1 = Some PreflightChecking ->
            good_step (upgrade_mode sp) Planning s s1).
  { intros s1 E Hp. split; [|rewrite E; by apply with_plan_merge]. rewrite E.
    destruct Hp as [->| ->]; eexists; (split; [done|]).
    - split; [|done]. right. exists 1%nat, 7%nat. destruct (upgrade_mode sp); cbn; auto with lia.
    - split; [right; exists 1%nat, 2%nat; destruct (upgrade_mode sp); cbn; auto|].
      split; [|by apply with_plan_planned].
      rewrite with_plan_preflight. by destruct Hf as (_ & ? & _). }
  destruct (plan_is_empty plan); [destruct karpenter|];
    injection H as _ <-; apply Hgood; cbn; auto.
Qed.

Lemma preflight_good w sp s cs s' :
  preflight (phases s) = None -> planned (upgrade_mode sp) PreflightChecking (phases s) ->
  PreflightPhase.execute w sp s = (cs, Ok s') -> good_step (upgrade_mode sp) PreflightChecking s s'.
Proof.
  intros Hnone Hplan H. unfold PreflightPhase.execute in H.
  apply bind_inv_ok in H as (? & p & ? & Hp & H & _).
  set (s1 := with_phases (set_preflight (Some (build_check_statuses p)) (phases s)) s) in H.
  assert (Hm : merge_phases (phases s) (phases s1) = phases s1).
  { unfold s1, merge_phases, set_preflight; cbn. merge_objects. rewrite !skip_empty_same.
    by rewrite Hnone. }
  assert (Hs : settled (upgrade_mode sp) PreflightChecking (phases s1)).
  { apply planned_settled in Hplan; [|by destruct (upgrade_mode sp)..]. destruct Hplan as [Hc Ha Hn].
    split; [exact Hc|exact Ha|exact Hn]. }
  assert (Hr : is_Some (rank (upgrade_mode sp) PreflightChecking))
    by (destruct (upgrade_mode sp); by eexists).
  destruct (has_mandatory_failures p); [|destruct (dry_run sp)]; injection H as _ <-.
  - by apply good_failure.
  - split; [|exact Hm]. exists Completed. split; [done|]. split; [|done].
    right. exists 2%nat, 7%nat. destruct (upgrade_mode sp); cbn; auto with lia.
  - assert (Hb := after_preflight_later s1 (upgrade_mode sp)).
    destruct (good_transition (now w) (upgrade_mode sp) PreflightChecking
                (after_preflight s1 (upgrade_mode sp)) s1) as [Hph _]; [done|done|done|by apply after_preflight_cp|].
    split; [done|]. rewrite transition_to_phases. done.
Qed.

(** ** The dispatch *)

(** The phase that makes a call. *)
Definition call_phase (mode : UpgradeMode) (c : Call) : UpgradePhase :=
  match c with
  | UpdateClusterVersion _ => cp_phase mode
  | UpdateAddon _ _ => addon_phase mode
  | UpdateNodegroupVersion _ _ => ng_phase mode
  | DeleteNodeClaim _ => UpgradingKarpenterNodePools
  end.

(** What a handler of phase [p] may do from status [s]. *)
Definition dispatched (w : World) (mode : UpgradeMode) (p : UpgradePhase) (s : EKSUpgradeStatus)
  (m : M Step) : Prop :=
  Forall (fun c => call_phase mode c = p) m.1 /\
  match m.2 with
  | Ok (s', _) => good_step mode p s s'
  | Err (Panic _) => m.1 = [] /\ ~ orderly w
  | Err _ => True
  end.

Lemma quiet_dispatched w mode p s (m : M EKSUpgradeStatus) :
  quiet (~ orderly w) m -> (forall cs s', m = (cs, Ok s') -> good_step mode p s s') ->
  dispatched w mode p s (do! s' := m in ret (s', Some 0)).
Proof.
  intros [Hc Hp] Hg. destruct m as [cs [s'|e]]; cbn in *; subst; split; cbn; auto.
  - by eapply Hg.
  - by destruct e.
Qed.

Lemma cp_dispatched w sp s :
  phase s = Some (cp_phase (upgrade_mode sp)) ->
  planned (upgrade_mode sp) (cp_phase (upgrade_mode sp)) (phases s) ->
  dispatched w (upgrade_mode sp) (cp_phase (upgrade_mode sp)) s (ControlPlane.execute w sp s).
Proof.
  intros Hp Hplan. destruct (planned_cp _ _ _ Hplan) as (pl & cp & Hpl & Hcp & Hf).
  destruct (ControlPlane.execute w sp s) as [cs r] eqn:E.
  eapply cp_execute_outcome in E; [|done..]. split; cbn.
  - inversion E; subst; repeat constructor.
  - destruct r as [[s' rq]|e]; [by eapply cp_outcome_good|]. by inversion E.
Qed.

Lemma addons_dispatched w sp s :
  phase s = Some (addon_phase (upgrade_mode sp)) ->
  planned (upgrade_mode sp) (addon_phase (upgrade_mode sp)) (phases s) ->
  dispatched w (upgrade_mode sp) (addon_phase (upgrade_mode sp)) s (AddonsPhase.execute w sp s).
Proof.
  intros Hp Hplan. destruct (AddonsPhase.execute w sp s) as [cs r] eqn:E.
  eapply addons_execute_outcome in E; [|by apply Hplan]. split; cbn.
  - inversion E; subst; repeat constructor.
  - destruct r as [[s' rq]|e]; [by eapply addon_outcome_good|]. by inversion E.
Qed.

Lemma nodegroups_dispatched w sp s :
  phase s = Some (ng_phase (upgrade_mode sp)) ->
  planned (upgrade_mode sp) (ng_phase (upgrade_mode sp)) (phases s) ->
  dispatched w (upgrade_mode sp) (ng_phase (upgrade_mode sp)) s (NodegroupsPhase.execute w sp s).
Proof.
  intros Hp Hplan. destruct (NodegroupsPhase.execute w sp s) as [cs r] eqn:E.
  eapply nodegroups_execute_outcome in E.
  2:{ eapply Forall_impl; [apply Hplan|]. by intros n [H _]. }
  split; cbn.
  - inversion E; subst; repeat constructor.
  - destruct r as [[s' rq]|e]; [by eapply ng_outcome_good|]. by inversion E.
Qed.

(** The phase the resource is in. *)
Definition current_phase (s : EKSUpgradeStatus) : UpgradePhase := default Pending (phase s).

Lemma phase_cases mode p :
  is_Some (rank mode p) -> terminal p = false -> p <> UpgradingKarpenterNodePools ->
  p = Pending \/ p = Planning \/ p = PreflightChecking \/
  p = cp_phase mode \/ p = addon_phase mode \/ p = ng_phase mode.
Proof. intros [n Hn] Ht Hk. destruct mode, p; try done; cbn; auto 10. Qed.

Lemma dispatch_cp w sp mode s : dispatch w sp (cp_phase mode) s = ControlPlane.execute w sp s.
Proof. by destruct mode. Qed.
Lemma dispatch_addons w sp mode s : dispatch w sp (addon_phase mode) s = AddonsPhase.execute w sp s.
Proof. by destruct mode. Qed.
Lemma dispatch_nodegroups w sp mode s : dispatch w sp (ng_phase mode) s = NodegroupsPhase.execute w sp s.
Proof. by destruct mode. Qed.

Lemma dispatch_good w sp s p :
  current_phase s = p -> is_Some (rank (upgrade_mode sp) p) -> stage (upgrade_mode sp) p (phases s) ->
  target_in_range sp -> terminal p = false -> p <> UpgradingKarpenterNodePools ->
  dispatched w (upgrade_mode sp) p s (dispatch w sp p s).
Proof.
  intros Hp Hr Hst Ht Hterm Hk.
  assert (Hsome : p <> Pending -> phase s = Some p).
  { unfold current_phase in Hp. destruct (phase s); cbn in Hp; congruence. }
  destruct (phase_cases _ _ Hr Hterm Hk) as [->|[->|[->|[->|[->| ->]]]]].
  - split; [constructor|]. cbn. split; [|apply merge_phases_same]. exists Planning.
    split; [done|]. split; [|done]. right. exists 0%nat, 1%nat.
    destruct (upgrade_mode sp); cbn; auto with lia.
  - apply quiet_dispatched; [apply quiet_planning|]. intros cs s'. by apply planning_good.
  - apply quiet_dispatched; [apply quiet_preflight|]. intros cs s'. by apply preflight_good; apply Hst.
  - rewrite dispatch_cp. apply stage_working in Hst as [_ Hst]; [|auto with kuo].
    apply cp_dispatched; [|done]. apply Hsome. by destruct (upgrade_mode sp).
  - rewrite dispatch_addons. apply stage_working in Hst as [_ Hst]; [|auto with kuo].
    apply addons_dispatched; [|done]. apply Hsome. by destruct (upgrade_mode sp).
  - rewrite dispatch_nodegroups. apply stage_working in Hst as [_ Hst]; [|auto with kuo].
    apply nodegroups_dispatched; [|done]. apply Hsome. by destruct (upgrade_mode sp).
Qed.

(** ** The invariant of the stored status *)

Record invariant (sp : EKSUpgradeSpec) (generation : Z) (s : EKSUpgradeStatus) : Prop := {
  inv_rank : is_Some (rank (upgrade_mode sp) (current_phase s));
  inv_stage : stage (upgrade_mode sp) (current_phase s) (phases s);
  inv_observed : before (upgrade_mode sp) Planning (current_phase s) ->
                 generation <= observed_generation s;
}.

(** A status that differs from [s] at most in what the identity patch names. *)
Record same_run (generation : Z) (s s' : EKSUpgradeStatus) : Prop := {
  same_phase : phase s' = phase s;
  same_phases : phases s' = phases s;
  same_last : last_transition s' = last_transition s;
  same_observed : observed_generation s <= observed_generation s' \/
                  generation <= observed_generation s';
}.

Lemma same_run_invariant sp generation s s' :
  same_run generation s s' -> invariant sp generation s -> invariant sp generation s'.
Proof.
  intros [Hp Hps _ Ho] [Hr Hst Hobs].
  assert (E : current_phase s' = current_phase s) by (unfold current_phase; by rewrite Hp).
  split; rewrite E, ?Hps; [done|done|]. intros Hb. specialize (Hobs Hb). lia.
Qed.

Lemma same_run_identity w generation i s o :
  same_run generation s (patched o s (identity_verified w generation i s)).
Proof.
  assert (H : same_run generation s (merge_status s (identity_verified w generation i s))).
  { split; cbn; [apply skip_none_same|apply merge_phases_same|apply skip_none_same|lia]. }
  destruct o; [exact H|exact H|]. split; [done|done|done|cbn; lia].
Qed.

(** Storing a status that a handler, or an error, left. *)
Lemma stored_invariant sp generation s stored s' :
  same_run generation s stored ->
  (exists p', phase s' = Some p' /\ is_Some (rank (upgrade_mode sp) p') /\
              stage (upgrade_mode sp) p' (phases s')) ->
  merge_phases (phases s) (phases s') = phases s' -> generation <= observed_generation s' ->
  invariant sp generation (merge_status stored s') /\
  phase (merge_status stored s') = phase s' /\ phases (merge_status stored s') = phases s'.
Proof.
  intros [Hp Hps _ Ho] (p' & Hp' & Hr & Hst) Hm Hobs.
  assert (E1 : phase (merge_status stored s') = Some p') by (cbn; by rewrite Hp').
  assert (E2 : phases (merge_status stored s') = phases s') by (cbn; by rewrite Hps).
  split; [|by rewrite E1, E2].
  split; unfold current_phase; rewrite E1, ?E2; cbn [default]; [done|done|].
  intros _. done.
Qed.
