(* ===== verification/KarpenterSafety.v ===== *)
(** * What the replacement of Karpenter nodes may do

    A step of a pool deletes node claims only when no batch is in flight, only
    claims of the pool whose node is behind the target, and no more than the
    configuration allows; a claim is recorded as replaced only when it is gone
    and the controllers of its pods are ready. *)

From stdpp Require Import prelude list strings pretty.
From Stdlib Require Import ZArith Lia.
From S2P Require Import Prelude.
From S2P Require Import Strings.
From S2P Require Import UpgradeStatus.
From S2P Require Import KubeVersion.
From S2P Require Import Cloud.
From S2P Require Import Transition.
From S2P Require Import ControlPlane.
From S2P Require Import Karpenter.
From S2P Require Import UpgradeInvariant.
From S2P Require Import Reconcile.

Open Scope kuo_scope.

(** A claim of the pool whose node runs a kubelet behind the minor version. *)
Definition behind (w : World) (pool : string) (minor : Z) (name : string) : Prop :=
  exists claims c node kubelet, get_nodeclaims w pool = Ok claims /\ c ∈ claims /\ nc_name c = name /\
    nc_node_name c = Some node /\ get_node w node = Ok (Some (Some kubelet)) /\
    is_stale_kubelet kubelet minor = true.

(** ** Reads and deletions *)

Lemma bind_calls_quiet {P} {A B} (m : M A) (f : A -> M B) :
  quiet P m -> (bind m f).1 = match m.2 with Ok a => (f a).1 | Err _ => [] end.
Proof. intros [Hm _]. unfold bind. destruct m as [cs [a|e]]; cbn in *; subst; [|done]. by destruct (f a). Qed.

Lemma each_elem {A B} (f : A -> M B) l cs bs :
  each f l = (cs, Ok bs) -> forall b, b ∈ bs -> exists a cs', a ∈ l /\ f a = (cs', Ok b).
Proof.
  revert cs bs. induction l as [|a l IH]; intros cs bs H b Hb; cbn [each] in H.
  { injection H as _ <-. by apply elem_of_nil in Hb. }
  apply bind_inv_ok in H as (cs1 & b0 & ? & Ha & H & _). apply bind_inv_ok in H as (cs2 & bs0 & ? & Hl & H & _).
  injection H as _ <-. apply elem_of_cons in Hb as [->|Hb].
  - exists a, cs1. split; [apply list_elem_of_here|done].
  - destruct (IH _ _ Hl _ Hb) as (a' & cs' & Hin & Hf). exists a', cs'. split; [by apply list_elem_of_further|done].
Qed.

Lemma contains_spec name l : contains name l = true <-> name ∈ l.
Proof.
  unfold contains. rewrite existsb_In. split.
  - by intros (x & Hx & ->%String.eqb_eq).
  - intros H. exists name. split; [done|apply String.eqb_refl].
Qed.

Section Pool.
Context (w : World).

Lemma resolve_stale_behind pool minor completed cs claims stale :
  resolve_stale w pool minor completed = (cs, Ok (claims, stale)) ->
  cs = [] /\ forall name, name ∈ stale -> behind w pool minor name /\ name ∉ completed.
Proof.
  intros H. pose proof (quiet_resolve_stale (P := False) w pool minor completed) as [Hq _]. rewrite H in Hq.
  split; [exact Hq|]. intros name Hin. unfold resolve_stale in H.
  apply bind_inv_ok in H as (? & claims' & ? & Hc & H & _).
  apply bind_inv_ok in H as (? & candidates & ? & Hk & H & _). injection H as _ <- <-.
  unfold list_nodeclaims, lift in Hc. destruct (get_nodeclaims w pool) as [l|] eqn:El; [|done].
  injection Hc as _ <-. unfold stale_targets in Hin.
  apply list_elem_of_omap in Hin as ([name' kubelet] & Hin & Hs).
  destruct (negb _ && _) eqn:Eb; [|done]. injection Hs as ->. apply andb_true_iff in Eb as [Hn Hkv].
  destruct kubelet as [kv|]; [|done].
  destruct (each_elem _ _ _ _ Hk _ Hin) as (c & cs' & Hc & Hf). split.
  - unfold kubelet_of in Hf. destruct (nc_node_name c) as [node|] eqn:Enode; [|done].
    apply bind_inv_ok in Hf as (? & o & ? & Hg & Hf & _). injection Hf as _ Hname Ho.
    unfold lift in Hg. destruct (get_node w node) as [n|] eqn:En; [|done]. injection Hg as _ <-.
    destruct n as [n|]; [|done]. cbn in Ho. subst n. exists l, c, node, kv. eauto 10.
  - intros Hd. apply contains_spec in Hd. by rewrite Hd in Hn.
Qed.

(** Replacing a claim deletes it, or stops before. *)
Lemma replace_claim_calls claims name :
  (replace_claim w claims name).1 = [DeleteNodeClaim name] \/
  (replace_claim w claims name).1 = [] /\ exists e, (replace_claim w claims name).2 = Err e.
Proof.
  unfold replace_claim. cbv zeta.
  assert (Hq : quiet False (match List.find (fun c => String.eqb (nc_name c) name) claims ≫= nc_node_name with
    | None => ret []
    | Some nn =>
        do! pods := lift (map_err (kube_error ("Failed to list pods on node " +:+ nn)) (get_pods w nn)) in
        do! owners := resolve_controllers w pods in ret (map encode_controller owners)
    end)).
  { case_match; [|apply quiet_ret]. apply quiet_bind; [apply quiet_lift|]. intros pods.
    apply quiet_bind; [|intros; apply quiet_ret]. unfold resolve_controllers.
    apply quiet_bind; [|intros; apply quiet_ret]. apply quiet_each. intros pod. unfold resolve_owner.
    quiet_tac. }
  rewrite bind_calls_quiet by exact Hq. destruct Hq as [Hq _].
  match type of Hq with ?m.1 = [] => destruct m as [cs [controllers|e]]; cbn in Hq; subst; cbn end.
  - left. by destruct (remove_nodeclaim w name).
  - right. split; [done|]. by exists e.
Qed.

Lemma replace_claim_entry claims name cs e :
  replace_claim w claims name = (cs, Ok e) -> node_claim e = name /\ entry_state e = STATE_DRAINING.
Proof.
  unfold replace_claim. intros (? & ? & ? & _ & H & _)%bind_inv_ok. apply bind_inv_ok in H as (? & ? & ? & _ & H & _).
  by injection H as _ <-.
Qed.

Lemma replace_claims claims names :
  let m := each (replace_claim w claims) names in
  m.1 `prefix_of` map DeleteNodeClaim names /\
  forall es, m.2 = Ok es -> m.1 = map DeleteNodeClaim (map node_claim es) /\ map node_claim es = names.
Proof.
  cbn zeta. induction names as [|name names [IHp IHe]]; [by split; [|intros es [= <-]]|].
  cbn [each map]. destruct (replace_claim_calls claims name) as [Hc|[Hc [e He]]].
  2:{ destruct (replace_claim w claims name) as [cs r]. cbn in *. subst. cbn.
      split; [apply prefix_nil|done]. }
  destruct (replace_claim w claims name) as [cs [en|e]] eqn:E; cbn in Hc; subst cs; cbn [bind fst snd].
  2:{ split; [|done]. exists (map DeleteNodeClaim names). done. }
  destruct (replace_claim_entry _ _ _ _ E) as [Hn _].
  destruct (each (replace_claim w claims) names) as [cs [es|e]]; cbn in *.
  - rewrite app_nil_r. split; [by apply prefix_cons|]. intros es' [= <-]. cbn.
    destruct (IHe es eq_refl) as [-> ->]. by rewrite Hn.
  - split; [by apply prefix_cons|done].
Qed.
End Pool.

(** ** A step of a pool *)

(** The total a step computes the size of a batch from. *)
Definition batch_total (pool : KarpenterPoolStatus) (stale : list string) : Z :=
  if pool_total_nodes pool =? 0 then Z.min (zlen stale) u32_max else pool_total_nodes pool.

Lemma resolve_max_pos cfg total : 1 <= resolve_max_unavailable cfg total.
Proof. unfold resolve_max_unavailable. lia. Qed.

Lemma select_batch_spec stale completed max :
  1 <= max -> zlen (select_batch stale completed max) <= max /\
  forall name, name ∈ select_batch stale completed max -> name ∈ stale.
Proof.
  intros Hmax. unfold select_batch. split.
  - unfold zlen. rewrite length_take. lia.
  - intros name Hin. apply elem_of_take in Hin as (i & Hi & _). apply list_elem_of_lookup_2 in Hi.
    apply list_elem_of_In, filter_In in Hi as [Hi _]. by apply list_elem_of_In.
Qed.

Lemma quiet_ready {P} w c : quiet P (controller_ready w c).
Proof. unfold controller_ready. cbv zeta. quiet_tac. Qed.

Lemma quiet_unstable {P} w l : quiet P (unstable_controllers w l).
Proof.
  unfold unstable_controllers. apply quiet_bind; [|intros; apply quiet_ret].
  apply quiet_each. intros c. apply quiet_bind; [apply quiet_ready|intros; apply quiet_ret].
Qed.
#[export] Hint Resolve quiet_unstable : kuo.

Lemma quiet_advance_batch {P} w drain stable pool : quiet P (advance_batch w drain stable pool).
Proof.
  unfold advance_batch. apply quiet_bind.
  - apply quiet_each. intros e. unfold observe, nodeclaim_exists. quiet_tac.
  - intros observed. cbv zeta. apply quiet_bind; [|intros p; case_match; apply quiet_ret].
    case_match; [apply quiet_ret|]. unfold list_nodeclaims. quiet_tac.
Qed.

Lemma prefix_map {A B} (f : A -> B) (l : list A) (k : list B) :
  k `prefix_of` map f l -> exists l', k = map f l' /\ l' `prefix_of` l.
Proof.
  revert k. induction l as [|a l IH]; intros k H; cbn in H.
  - apply prefix_nil_inv in H. exists []. by subst.
  - destruct k as [|b k]; [exists []; split; [done|apply prefix_nil]|].
    pose proof (prefix_cons_inv_1 _ _ _ _ H) as ->. apply prefix_cons_inv_2 in H.
    destruct (IH _ H) as (l' & -> & Hl). exists (a :: l'). split; [done|by apply prefix_cons].
Qed.

(** A batch that is started: what is deleted, and what is recorded. *)
Lemma batch_started {A} w claims names (f : list CurrentBatchEntry -> A) :
  let m := do! es := each (replace_claim w claims) names in ret (f es) in
  exists gone, m.1 = map DeleteNodeClaim gone /\ gone `prefix_of` names /\
    forall a, m.2 = Ok a -> exists es, a = f es /\ map node_claim es = gone.
Proof.
  cbn zeta. destruct (replace_claims w claims names) as [Hpre Hok].
  destruct (prefix_map _ _ _ Hpre) as (gone & Hg & Hgp).
  destruct (each (replace_claim w claims) names) as [cs [es|e]]; cbn in *; exists gone.
  - rewrite app_nil_r. split; [done|]. split; [done|]. intros a [= <-]. exists es. split; [done|].
    destruct (Hok es eq_refl) as [E1 E2]. assert (Hl : length gone = length names).
    { apply (f_equal length) in E1. rewrite Hg, !length_map in E1.
      rewrite E1. rewrite <- E2. by rewrite length_map. }
    rewrite E2. symmetry. by apply prefix_length_eq; [|lia].
  - done.
Qed.

(** The claims a step may delete. *)
Record may_delete (w : World) (config : KarpenterNodePoolsConfig) (minor : Z)
  (pool : KarpenterPoolStatus) (names : list string) : Prop := {
  delete_behind : Forall (fun name => behind w (pool_name pool) minor name /\
                                      name ∉ completed_node_claims pool) names;
  delete_at_most : forall claims stale,
    (resolve_stale w (pool_name pool) minor (completed_node_claims pool)).2 = Ok (claims, stale) ->
    zlen names <= resolve_max_unavailable config (batch_total pool stale);
}.

Lemma may_delete_nil w config minor pool : may_delete w config minor pool [].
Proof.
  split; [constructor|]. intros claims stale _.
  pose proof (resolve_max_pos config (batch_total pool stale)). unfold zlen. cbn [length]. lia.
Qed.

Lemma start_next_batch_deletes w config minor pool :
  current_batch pool = [] ->
  let m := start_next_batch w config minor pool in
  exists names, m.1 = map DeleteNodeClaim names /\ may_delete w config minor pool names /\
    forall pool' step, m.2 = Ok (pool', step) -> map node_claim (current_batch pool') = names.
Proof.
  intros Eb. cbn zeta. unfold start_next_batch.
  destruct (resolve_stale w (pool_name pool) minor (completed_node_claims pool))
    as [cs [[claims stale]|e]] eqn:Er.
  2:{ pose proof (quiet_resolve_stale (P := False) w (pool_name pool) minor (completed_node_claims pool)) as [Hq _].
      rewrite Er in Hq. cbn in Hq. subst cs. exists []. split; [done|]. split; [apply may_delete_nil|done]. }
  destruct (resolve_stale_behind _ _ _ _ _ _ _ Er) as [-> Hbehind]. rewrite bind_done. cbv zeta.
  set (pool1 := if pool_total_nodes pool =? 0 then _ else _).
  assert (Et : pool_total_nodes pool1 = batch_total pool stale /\
               completed_node_claims pool1 = completed_node_claims pool /\ current_batch pool1 = [])
    by (unfold pool1, batch_total; destruct (pool_total_nodes pool =? 0); cbn; auto).
  destruct Et as (Et & Ec & Ecb).
  destruct stale as [|s0 ss] eqn:Es.
  { exists []. split; [done|]. split; [apply may_delete_nil|]. intros pool' step [= <- _].
    cbn. by rewrite Ecb. }
  rewrite <- Es in *. rewrite Ec, Et.
  destruct (select_batch_spec stale (completed_node_claims pool)
              (resolve_max_unavailable config (batch_total pool stale)) (resolve_max_pos _ _)) as [Hlen Hin].
  destruct (batch_started w claims
    (select_batch stale (completed_node_claims pool) (resolve_max_unavailable config (batch_total pool stale)))
    (fun es => (with_batch (current_batch pool1 ++ es) pool1, mkStepResult POLL_INTERVAL None)))
    as (gone & Hg & Hpre & Hok).
  exists gone. split; [exact Hg|]. split; [split|].
  - apply Forall_forall. intros name Hn. apply Hbehind, Hin.
    destruct Hpre as [rest ->]. apply elem_of_app. by left.
  - intros claims' stale'. rewrite Er. cbn. intros [= _ <-]. etrans; [|exact Hlen].
    apply prefix_length in Hpre. unfold zlen. lia.
  - intros pool' step Hs. destruct (Hok _ Hs) as (es & [= -> _] & He). cbn. by rewrite Ecb.
Qed.

(** replacement is careful.  A step of a pool with a batch in flight
    deletes nothing.  A step without one deletes claims of the pool whose
    nodes are behind the target and that were not replaced before, as many as
    [maxUnavailable] allows at most; when it succeeds, the claims deleted are
    exactly those of the new batch, and when it fails half-way nothing else
    was deleted. *)
Theorem pool_step_deletes w config minor pool :
  let m := pool_step w config minor pool in
  exists names, m.1 = map DeleteNodeClaim names /\
    (current_batch pool <> [] -> names = []) /\
    Forall (fun name => behind w (pool_name pool) minor name /\
                        name ∉ completed_node_claims pool) names /\
    (forall claims stale,
       (resolve_stale w (pool_name pool) minor (completed_node_claims pool)).2 = Ok (claims, stale) ->
       zlen names <= resolve_max_unavailable config (batch_total pool stale)) /\
    (forall pool' step, m.2 = Ok (pool', step) -> current_batch pool = [] ->
       map node_claim (current_batch pool') = names).
Proof.
  cbn zeta. unfold pool_step. cbv zeta.
  change (current_batch (with_pool_status _ _)) with (current_batch pool).
  destruct (current_batch pool) as [|b bs] eqn:Eb.
  - destruct (start_next_batch_deletes w config minor (with_pool_status CInProgress pool) Eb)
      as (names & Hn & [Hbehind Hmost] & Hok).
    exists names. split; [exact Hn|]. split; [done|]. split; [exact Hbehind|].
    split; [exact Hmost|]. intros pool' step Hs _. by eapply Hok.
  - exists []. destruct (quiet_advance_batch (P := False) w (timeout_secs (node_drain_timeout_minutes config))
      (timeout_secs (controller_stable_timeout_minutes config)) (with_pool_status CInProgress pool))
      as [-> _].
    destruct (may_delete_nil w config minor pool) as [H1 H2]. by repeat (split; [done|]).
Qed.

(** ** What counts as replaced *)

(** The claim is gone and the controllers of its pods are ready. *)
Definition recovered (w : World) (e : CurrentBatchEntry) : Prop :=
  get_nodeclaim w (node_claim e) = Ok false /\
  (unstable_controllers w (omap decode_controller (entry_controllers e))).2 = Ok [].

Lemma observe_entry_spec w e x :
  (observe w e).2 = Ok x ->
  x.1.1 = e /\ (x.1.2 = true -> x.2 = false) /\ (x.2 = true -> recovered w e).
Proof.
  unfold observe, nodeclaim_exists. rewrite bind_snd. unfold lift.
  destruct (get_nodeclaim w (node_claim e)) as [[|]|err] eqn:E; [|cbn [snd map_err]|done].
  - cbn. by intros [= <-].
  - rewrite bind_snd, bind_snd.
    destruct ((unstable_controllers w _).2) as [unstable|err] eqn:Eu; [|done]. cbn.
    intros [= <-]. split; [done|]. split; [done|]. cbn. destruct unstable; [|done]. by split.
Qed.

Lemma decide_entry_done state stable elapsed drain stable_to exists_ :
  (exists_ = true -> stable = false) ->
  decide_entry state exists_ stable elapsed drain stable_to = Done -> stable = true.
Proof.
  intros Hx. unfold decide_entry. destruct stable; [done|].
  by repeat match goal with |- context [if ?b then _ else _] => destruct b end.
Qed.

(** The entries of a batch are kept, finished, or left unread by a failure. *)
Lemma advance_entries_spec w observed drain stable now :
  Forall (fun x => (x.1.2 = true -> x.2 = false) /\ (x.2 = true -> recovered w x.1.1)) observed ->
  let p := advance_entries observed drain stable now in
  Forall (recovered w) (completed p) /\
  Forall (fun e => exists x, x ∈ observed /\ x.1.1 = e) (completed p) /\
  (batch_failure p = None ->
   map node_claim (remaining p) ++ map node_claim (completed p)
     ≡ₚ map (fun x => node_claim x.1.1) observed).
Proof.
  cbn zeta. induction 1 as [|[[e exists_] ready] observed [Hx Hr] _ (IH1 & IH2 & IH3)];
    [by repeat split|]. cbn [advance_entries fst snd] in *.
  assert (IH2' : Forall (fun e' => exists x, x ∈ (e, exists_, ready) :: observed /\ x.1.1 = e')
            (completed (advance_entries observed drain stable now))).
  { eapply Forall_impl; [exact IH2|]. intros e' (x & Hin & <-). exists x.
    split; [by apply list_elem_of_further|done]. }
  destruct (decide_entry _ _ _ _ _ _) eqn:Ed; cbn.
  - split; [done|]. split; [done|]. intros Hf. by rewrite (IH3 Hf).
  - split; [done|]. split; [done|]. intros Hf. by rewrite (IH3 Hf).
  - apply decide_entry_done in Ed; [|done]. split; [by constructor; [apply Hr|]|].
    split; [constructor; [|done]; eexists; split; [apply list_elem_of_here|done]|].
    intros Hf. rewrite <- (IH3 Hf). symmetry. apply Permutation_middle.
  - split; [constructor|]. split; [constructor|done].
Qed.

Lemma record_completed_claims claims known entries p :
  completed_node_claims (record_completed claims known entries p)
    = completed_node_claims p ++ map node_claim entries /\
  current_batch (record_completed claims known entries p) = current_batch p.
Proof.
  revert known p. induction entries as [|e entries IH]; intros known p; cbn [record_completed map];
    [by rewrite app_nil_r|].
  destruct (IH (known ++ option_list (pick_new_nodeclaim claims known (entry_started_at e)))
              (record_replacement e (pick_new_nodeclaim claims known (entry_started_at e)) p)) as [-> ->].
  cbn. by rewrite <- app_assoc.
Qed.

Lemma each_observe w l cs observed :
  each (observe w) l = (cs, Ok observed) ->
  map (fun x => x.1.1) observed = l /\
  Forall (fun x => (x.1.2 = true -> x.2 = false) /\ (x.2 = true -> recovered w x.1.1)) observed.
Proof.
  revert cs observed. induction l as [|e l IH]; intros cs observed H; cbn [each] in H.
  { injection H as _ <-. by split. }
  apply bind_inv_ok in H as (cs1 & x & ? & Hx & H & _). apply bind_inv_ok in H as (cs2 & xs & ? & Hl & H & _).
  injection H as _ <-. destruct (IH _ _ Hl) as [IH1 IH2]. cbn.
  destruct (observe_entry_spec w e x) as (He & H1 & H2); [by rewrite Hx|]. rewrite IH1, He.
  split; [done|]. constructor; [by rewrite He|done].
Qed.

(** a node counts as replaced only when its workloads have recovered.  A
    step over a batch in flight adds to the completed claims exactly entries
    of the batch whose claim is gone and whose recorded controllers are all
    ready; unless a time limit has passed, every entry of the batch is either
    kept or completed, and none is lost. *)
Theorem replaced_after_recovery w config minor pool cs pool' step :
  pool_step w config minor pool = (cs, Ok (pool', step)) -> current_batch pool <> [] ->
  exists done_,
    completed_node_claims pool' = completed_node_claims pool ++ map node_claim done_ /\
    Forall (fun e => e ∈ current_batch pool /\ recovered w e) done_ /\
    (failure step = None ->
     map node_claim (current_batch pool') ++ map node_claim done_ ≡ₚ map node_claim (current_batch pool)).
Proof.
  unfold pool_step. cbv zeta. change (current_batch (with_pool_status _ _)) with (current_batch pool).
  intros H Hne. destruct (current_batch pool) as [|b bs] eqn:Eb; [done|]. rewrite <- Eb in *. clear Hne.
  unfold advance_batch in H. apply bind_inv_ok in H as (cs1 & observed & ? & Ho & H & _).
  change (current_batch (with_pool_status _ _)) with (current_batch pool) in Ho.
  destruct (each_observe _ _ _ _ Ho) as [Hmap Hobs]. cbv zeta in H.
  set (p := advance_entries _ _ _ _) in H.
  destruct (advance_entries_spec w observed (timeout_secs (node_drain_timeout_minutes config))
    (timeout_secs (controller_stable_timeout_minutes config)) (now w) Hobs) as (H1 & H2 & H3).
  fold p in H1, H2, H3. apply bind_inv_ok in H as (cs2 & pool2 & ? & Hp & H & _).
  assert (E : completed_node_claims pool2 = completed_node_claims pool ++ map node_claim (completed p) /\
              current_batch pool2 = remaining p).
  { destruct (completed p) as [|e es]; [injection Hp as _ <-; cbn; by rewrite app_nil_r|].
    apply bind_inv_ok in Hp as (? & claims & ? & _ & Hp & _). injection Hp as _ <-.
    exact (record_completed_claims claims _ (e :: es) (with_batch (remaining p) (with_pool_status CInProgress pool))). }
  destruct E as [E1 E2]. exists (completed p).
  assert (Hs : pool' = pool2 /\ failure step = batch_failure p)
    by (destruct (batch_failure p); by injection H as _ <- <-).
  destruct Hs as [-> ->]. split; [done|]. split.
  - apply Forall_forall. intros e Hin. rewrite Forall_forall in H1, H2. split; [|by apply H1].
    destruct (H2 _ Hin) as (y & Hy & <-). rewrite <- Hmap.
    exact (list_elem_of_fmap_2 (fun y => y.1.1) observed y Hy).
  - intros Hf. rewrite E2, (H3 Hf), <- Hmap. by rewrite map_map.
Qed.

(** ** The theorems at work *)

Definition demo_pool (batch : list CurrentBatchEntry) : KarpenterPoolStatus :=
  mkPool "default" CPending 0 0 [] [] batch.

Definition demo_entry : CurrentBatchEntry :=
  mkEntry "default-abc" (Some "ip-10-0-0-1") None STATE_DRAINING (Some 0) [].

(** The stale claim of the cluster is deleted. *)
Example demo_pool_step_deletes :
  (pool_step (demo_world "1.32" 1000) demo_karpenter 34 (demo_pool [])).1
  = [DeleteNodeClaim "default-abc"].
Proof. vm_compute. reflexivity. Qed.

Lemma replaced_after_recovery_witness :
  exists done_,
    ["default-abc"] = [] ++ map node_claim done_ /\
    Forall (fun e => e ∈ [demo_entry] /\ recovered (demo_world "1.32" 1000) e) done_ /\
    (None = None :> option string ->
     map node_claim [] ++ map node_claim done_ ≡ₚ map node_claim [demo_entry]).
Proof.
  apply (replaced_after_recovery (demo_world "1.32" 1000) demo_karpenter 34 (demo_pool [demo_entry]) []
    (mkPool "default" CInProgress 0 1 ["default-abc"]
       [mkReplacement "default-abc" None (Some "ip-10-0-0-1")] []) (mkStepResult 0 None));
    [vm_compute; reflexivity|discriminate].
Defined.
