(* ===== verification/UpgradeRun.v ===== *)
(** * Runs of an upgrade

    The theorems on sequences of reconciles under one specification, from a
    resource that waits to be planned: the process does not panic while EKS lists
    add-on versions in an order, components are changed in the order of the mode,
    and the control plane goes through the path one version at a time.  The guard against a second rollback, and what a
    dry run does to it.  Examples show what a change of the specification
    leaves behind. *)

From stdpp Require Import prelude list strings pretty sorting.
From Stdlib Require Import ZArith Lia.
From S2P Require Import Prelude.
From S2P Require Import Strings.
From S2P Require Import UpgradeStatus.
From S2P Require Import KubeVersion.
From S2P Require Import Cloud.
From S2P Require Import Transition.
From S2P Require Import ControlPlane.
From S2P Require Import AddonsPhase.
From S2P Require Import NodegroupsPhase.
From S2P Require Import Karpenter.
From S2P Require Import PlanningPhase.
From S2P Require Import PreflightPhase.
From S2P Require Import Reconcile.
From S2P Require Import UpgradeInvariant.

Open Scope kuo_scope.

(** ** Runs *)

(** One reconcile: the world it sees and what becomes of its two patches. *)
Definition Turn : Type := World * PatchOutcome * PatchOutcome.

Definition turn (t : Turn) (r : EKSUpgrade) : Outcome :=
  let '(w, first, second) := t in reconcile w first second r.

(** The calls of a run and the resource after it; [None] after a panic. *)
Fixpoint run (ts : list Turn) (r : EKSUpgrade) : list Call * option EKSUpgrade :=
  match ts with
  | [] => ([], Some r)
  | t :: ts =>
      let o := turn t r in
      match o.2 with
      | None => (o.1.1, None)
      | Some _ => let '(cs, r') := run ts (after_reconcile r o) in (o.1.1 ++ cs, r')
      end
  end.

Definition stored_status (r : EKSUpgrade) : EKSUpgradeStatus := default EKSUpgradeStatus_default (status r).

(** Waiting to be planned: a new resource, or one just reset. *)
Definition waiting (r : EKSUpgrade) : Prop :=
  current_phase (stored_status r) = Pending /\ fresh_phases (phases (stored_status r)).

(** ** One reconcile *)

(** A reconcile that leaves the plan alone. *)
Definition unchanged (s s' : EKSUpgradeStatus) : Prop :=
  phases s' = phases s /\ last_transition s' = last_transition s /\
  (phase s' = phase s \/ phase s' = Some Failed).

(** What one reconcile does: nothing to the cluster and the plan, or the work
    of the handler, whose status is stored or not. *)
Inductive turned (w : World) (sp : EKSUpgradeSpec) (s s' : EKSUpgradeStatus) : list Call -> Prop :=
| TurnIdle : unchanged s s' -> turned w sp s s' []
| TurnKept cs res :
    terminal (current_phase s) = false -> current_phase s <> UpgradingKarpenterNodePools ->
    dispatch w sp (current_phase s) s = (cs, res) -> unchanged s s' -> turned w sp s s' cs
| TurnStored cs s1 rq :
    terminal (current_phase s) = false -> current_phase s <> UpgradingKarpenterNodePools ->
    dispatch w sp (current_phase s) s = (cs, Ok (s1, rq)) ->
    phase s' = phase s1 -> phases s' = phases s1 ->
    (phase s1 <> Some Completed -> last_transition s1 = last_transition s ->
     last_transition s' = last_transition s) ->
    (phase s1 = Some Completed ->
     exists t, last_transition s' = Some t /\ t_mode t = upgrade_mode sp /\
               to_version t = target_version sp) ->
    turned w sp s s' cs.

Lemma rank_before mode p q : rank mode p = Some 7%nat -> ~ before mode p q.
Proof. intros Hp (m & n & Hm & Hn & Hlt). destruct mode, p, q; cbn in *; simplify_eq; lia. Qed.

Lemma failed_stored sp s :
  is_Some (rank (upgrade_mode sp) Failed) /\ stage (upgrade_mode sp) Failed (phases s).
Proof. split; [by destruct (upgrade_mode sp); eexists|done]. Qed.

Section Step.
Context (sp : EKSUpgradeSpec) (gen : Z) (s : EKSUpgradeStatus).
Context (Htarget : target_in_range sp) (Hinv : invariant sp gen s).

Lemma karpenter_idle :
  current_phase s = UpgradingKarpenterNodePools ->
  gen <= observed_generation s /\ has_active_update s = false.
Proof.
  intros E. destruct Hinv as [[n Hr] Hst Hobs]. rewrite E in *. destruct (upgrade_mode sp) eqn:Em; [|done].
  split; [apply Hobs; exists 1%nat, 6%nat; cbn; auto with lia|].
  destruct Hst as [_ [(pl & cp & _ & Hcp & Hf) _ Hn]]. unfold has_active_update. rewrite Hcp.
  rewrite (cp_idle _ _ _ _ Hf) by done. cbn. apply not_true_iff_false.
  intros (ng & Hin & Hid)%existsb_In. rewrite Forall_forall in Hn.
  by destruct (Hn _ Hin) as [_ [? _]].
Qed.

(** A failure stored over the status. *)
Lemma stored_failure w e o stored :
  same_run gen s stored ->
  invariant sp gen (patched o stored (finish_error w gen e s)) /\
  unchanged s (patched o stored (finish_error w gen e s)).
Proof.
  intros Hs. assert (Hkept : invariant sp gen stored /\ unchanged s stored).
  { split; [by eapply same_run_invariant|]. destruct Hs. unfold unchanged. auto. }
  assert (Hnew : invariant sp gen (merge_status stored (finish_error w gen e s)) /\
                 unchanged s (merge_status stored (finish_error w gen e s))).
  { assert (E2 : phases (finish_error w gen e s) = phases s)
      by (unfold finish_error; destruct (transient e); done).
    assert (El : last_transition (merge_status stored (finish_error w gen e s)) = last_transition s).
    { replace (last_transition (merge_status _ _)) with (skip_none (last_transition stored) (last_transition s))
        by (unfold finish_error; destruct (transient e); done).
      rewrite (same_last _ _ _ Hs). apply skip_none_same. }
    destruct (transient e) eqn:Et.
    - destruct Hinv as [Hr Hst Hobs]. assert (Ep : phase (finish_error w gen e s) = phase s)
        by (unfold finish_error; by rewrite Et).
      assert (Eobs : observed_generation (finish_error w gen e s) = gen)
        by (unfold finish_error; by rewrite Et).
      assert (Em : phase (merge_status stored (finish_error w gen e s)) = phase s).
      { cbn. rewrite Ep, (same_phase _ _ _ Hs). apply skip_none_same. }
      assert (Emp : phases (merge_status stored (finish_error w gen e s)) = phases s).
      { cbn. rewrite E2, (same_phases _ _ _ Hs). apply merge_phases_same. }
      split; [|unfold unchanged; auto]. split; unfold current_phase; rewrite Em, ?Emp; [done|done|].
      intros _. cbn. lia.
    - destruct (stored_invariant sp gen s stored (finish_error w gen e s)) as (Hi & Hp & Hps);
        [done| | | |].
      + exists Failed. unfold finish_error at 1. rewrite Et. split; [done|].
        rewrite E2. by apply failed_stored.
      + rewrite E2. apply merge_phases_same.
      + unfold finish_error. rewrite Et. cbn. lia.
      + split; [done|]. split; [by rewrite Hps|]. split; [done|]. right. rewrite Hp.
        unfold finish_error. by rewrite Et. }
  destruct o; [exact Hnew|exact Hnew|exact Hkept].
Qed.

Lemma auth_failure w prefix reason e o :
  invariant sp gen (patched o s (auth_failed w gen prefix reason e s)) /\
  unchanged s (patched o s (auth_failed w gen prefix reason e s)).
Proof.
  assert (H : invariant sp gen (merge_status s (auth_failed w gen prefix reason e s)) /\
              unchanged s (merge_status s (auth_failed w gen prefix reason e s))).
  { destruct (stored_invariant sp gen s s (auth_failed w gen prefix reason e s)) as (Hi & Hp & Hps).
    - split; [done|done|done|lia].
    - exists Failed. split; [done|]. apply failed_stored.
    - apply merge_phases_same.
    - cbn. lia.
    - split; [done|]. split; [by rewrite Hps|]. split; [apply skip_none_same|]. right. by rewrite Hp. }
  destruct o; [exact H|exact H|]. split; [done|]. unfold unchanged. auto.
Qed.
End Step.

Section Reconcile.
Context (r : EKSUpgrade).
Local Abbreviation s := (stored_status r).
Context (Htarget : target_in_range (spec r)) (Hinv : invariant (spec r) (generation r) s).

(** A reconcile ends with an action and a status that keeps the invariant, or
    with a panic before any call, on add-on versions that are not ordered. *)
Definition turns_to (w : World) (o : Outcome) : Prop :=
  (exists cs s' act, o = (cs, s', Some act) /\
     turned w (spec r) s s' cs /\ invariant (spec r) (generation r) s') \/
  (exists s', o = ([], s', None) /\ ~ orderly w).

Lemma run_phase_turn w o stored :
  same_run (generation r) s stored ->
  terminal (current_phase s) = false -> current_phase s <> UpgradingKarpenterNodePools ->
  turns_to w (run_phase w o r (current_phase s) s stored).
Proof.
  intros Hs Ht Hk. destruct Hinv as [Hr Hst Hobs].
  destruct (dispatch_good w (spec r) s (current_phase s) eq_refl Hr Hst Htarget Ht Hk) as [_ Hd].
  assert (Hkept : unchanged s stored) by (destruct Hs; unfold unchanged; auto).
  assert (Hstored : invariant (spec r) (generation r) stored) by (by eapply same_run_invariant).
  unfold run_phase. destruct (dispatch w (spec r) (current_phase s) s) as [cs [[s1 rq]|e]] eqn:Ed;
    cbn in Hd.
  - destruct Hd as [(p' & Hp' & Hmove & Hst') Hm].
    set (s2 := finish w (spec r) (generation r) s1).
    assert (E1 : phase s2 = phase s1) by (unfold s2, finish; by case_decide).
    assert (E2 : phases s2 = phases s1) by (unfold s2, finish; by case_decide).
    assert (Hr' : is_Some (rank (upgrade_mode (spec r)) p')).
    { destruct Hmove as [->|(? & ? & _ & ? & _)]; [done|by eexists]. }
    left. do 3 eexists. split; [done|].
    assert (Hnew : turned w (spec r) s (merge_status stored s2) cs /\
                   invariant (spec r) (generation r) (merge_status stored s2)).
    { destruct (stored_invariant (spec r) (generation r) s stored s2) as (Hi & Hp & Hps);
        [done|exists p'; rewrite E1, E2; eauto|by rewrite E2| |].
      - unfold s2, finish. by case_decide.
      - split; [|done]. eapply TurnStored; [done..| | | |]; [congruence|congruence| |].
        + intros Hne Hl. cbn. unfold s2, finish. rewrite decide_False by (cbn; exact Hne). cbn.
          rewrite Hl, (same_last _ _ _ Hs). apply skip_none_same.
        + intros Hc. eexists. cbn. unfold s2, finish. rewrite decide_True by (cbn; exact Hc).
          split; [reflexivity|done]. }
    destruct o; [exact Hnew|exact Hnew|]. split; [by eapply TurnKept|done].
  - destruct e; [| |right; destruct Hd as [-> Hd]; by eexists];
      (left; do 3 eexists; split; [done|]);
      match goal with |- context [finish_error _ _ ?e _] =>
        destruct (stored_failure (spec r) (generation r) s Hinv w e o stored Hs) as [Hi Hu] end;
      (split; [by eapply TurnKept|exact Hi]).
Qed.

Lemma idle_turn w : turns_to w ([], s, Some None).
Proof. left. do 3 eexists. split; [done|]. split; [|done]. apply TurnIdle. unfold unchanged. auto. Qed.

Lemma reconcile_turn w first second :
  turns_to w (reconcile w first second r).
Proof.
  unfold reconcile. fold s. change (default Pending (phase s)) with (current_phase s).
  destruct (decide _) as [Hterm|Hterm].
  - assert (Hobs : generation r <= observed_generation s).
    { apply Hinv. exists 1%nat, 7%nat. destruct Hterm as [->| ->], (upgrade_mode (spec r)); cbn; auto with lia. }
    rewrite (proj2 (Z.ltb_ge _ _)) by done. apply idle_turn.
  - assert (Ht : terminal (current_phase s) = false) by (destruct (current_phase s); try done; tauto).
    destruct (decide (current_phase s = UpgradingKarpenterNodePools)) as [Hk|Hk].
    + destruct (karpenter_idle _ _ _ Hinv Hk) as [Hobs Hact].
      rewrite (proj2 (Z.leb_le _ _)) by done. rewrite Hk, Hact. cbn.
      rewrite bool_decide_false by done. apply idle_turn.
    + replace (_ && negb (polling (current_phase s))) with false.
      2:{ destruct (current_phase s); cbn; by rewrite ?andb_false_r. }
      destruct (aws_clients w) as [_|e].
      2:{ left. do 3 eexists. split; [done|].
          destruct (auth_failure (spec r) (generation r) s Hinv w "AWS client error: "
                      "AuthenticationFailed" e first) as [Hi Hu].
          split; [by apply TurnIdle|done]. }
      destruct (identity s).
      { apply run_phase_turn; [|done|done]. split; [done|done|done|lia]. }
      destruct (verify_identity w) as [i|e].
      { apply run_phase_turn; [|done|done]. apply same_run_identity. }
      left. do 3 eexists. split; [done|].
      destruct (auth_failure (spec r) (generation r) s Hinv w "AWS authentication failed: "
                  "IdentityVerificationFailed" e first) as [Hi Hu].
      split; [by apply TurnIdle|done].
Qed.
End Reconcile.

(** ** Runs keep the invariant *)

Lemma waiting_invariant r : waiting r -> invariant (spec r) (generation r) (stored_status r).
Proof.
  intros [Hp Hf]. split; rewrite Hp; [by destruct (upgrade_mode (spec r)); eexists|done|].
  intros (m & n & Hm & Hn & Hlt). destruct (upgrade_mode (spec r)); cbn in *; simplify_eq; lia.
Qed.

(** Induction over the turns of a run. *)
Lemma run_ind_invariant (P : list Turn -> EKSUpgrade -> list Call * option EKSUpgrade -> Prop) :
  (forall r, invariant (spec r) (generation r) (stored_status r) -> P [] r ([], Some r)) ->
  (forall w a b ts r s' cs act o,
     target_in_range (spec r) -> invariant (spec r) (generation r) (stored_status r) ->
     reconcile w a b r = (cs, s', Some act) -> turned w (spec r) (stored_status r) s' cs ->
     invariant (spec r) (generation r) s' ->
     run ts (mkUpgrade (spec r) (generation r) (Some s')) = o ->
     P ts (mkUpgrade (spec r) (generation r) (Some s')) o -> P ((w, a, b) :: ts) r (cs ++ o.1, o.2)) ->
  (forall w a b ts r, ~ orderly w -> P ((w, a, b) :: ts) r ([], None)) ->
  forall ts r, target_in_range (spec r) ->
    invariant (spec r) (generation r) (stored_status r) -> P ts r (run ts r).
Proof.
  intros Hnil Hcons Hpanic ts. induction ts as [|[[w a] b] ts IH]; intros r Ht Hinv; [by apply Hnil|].
  destruct (reconcile_turn r Ht Hinv w a b) as [(cs & s' & act & E & Hturn & Hinv')|(s' & E & Hw)].
  2:{ cbn [run turn]. rewrite E. by apply Hpanic. }
  specialize (IH (mkUpgrade (spec r) (generation r) (Some s')) Ht Hinv').
  cbn [run turn]. rewrite E. cbn. unfold after_reconcile. cbn.
  specialize (Hcons w a b ts r s' cs act _ Ht Hinv E Hturn Hinv' eq_refl IH).
  destruct (run ts _) as [cs' r']. exact Hcons.
Qed.

(** ** The order of the changes *)

Definition phase_rank (mode : UpgradeMode) (p : UpgradePhase) : nat := default 7%nat (rank mode p).
Definition call_rank (mode : UpgradeMode) (c : Call) : nat := phase_rank mode (call_phase mode c).

Lemma phase_rank_before mode p q : before mode p q -> (phase_rank mode p < phase_rank mode q)%nat.
Proof. unfold phase_rank. by intros (m & n & -> & -> & H). Qed.

Lemma turned_calls w sp gen s s' cs :
  target_in_range sp -> invariant sp gen s -> turned w sp s s' cs ->
  Forall (fun c => call_phase (upgrade_mode sp) c = current_phase s) cs /\
  (cs <> [] -> current_phase s <> UpgradingKarpenterNodePools) /\
  (phase_rank (upgrade_mode sp) (current_phase s) <= phase_rank (upgrade_mode sp) (current_phase s'))%nat.
Proof.
  intros Ht [Hr Hst _] Hturn.
  assert (Hun : unchanged s s' ->
    (phase_rank (upgrade_mode sp) (current_phase s) <= phase_rank (upgrade_mode sp) (current_phase s'))%nat).
  { intros (_ & _ & [E|E]).
    - unfold current_phase. rewrite E. lia.
    - replace (current_phase s') with Failed by (unfold current_phase; by rewrite E).
      apply Nat.leb_le. by destruct (upgrade_mode sp), (current_phase s). }
  inversion Hturn as [Hu|? res Hterm Hk Hd Hu|? s1 rq Hterm Hk Hd Hp Hps _ _]; subst; [by auto| |];
    destruct (dispatch_good w sp s (current_phase s) eq_refl Hr Hst Ht Hterm Hk) as [Hc Hg];
    rewrite Hd in Hc, Hg; cbn in Hc, Hg; (split; [done|]); (split; [done|]); [by auto|].
  destruct Hg as [(p' & Hp' & Hmove & _) _].
  replace (current_phase s') with p' by (unfold current_phase; by rewrite Hp, Hp').
  destruct Hmove as [->|Hb]; [lia|]. by apply Nat.lt_le_incl, phase_rank_before.
Qed.

(** C8: a run never panics as long as EKS lists add-on versions that their
    comparison orders, in particular versions that all parse.  From a resource
    that waits to be planned, under one specification, every sequence of
    reconciles ends with the operator still running, whatever else the clusters
    and AWS answer and whichever status patches are lost: the step of the
    control plane always indexes the path, and no handler runs without the
    configuration it expects. *)
Theorem upgrade_never_panics ts r :
  waiting r -> target_in_range (spec r) -> Forall (fun t : Turn => orderly t.1.1) ts ->
  exists cs r', run ts r = (cs, Some r') /\ spec r' = spec r.
Proof.
  intros Hw Ht Hts.
  assert (H : Forall (fun t : Turn => orderly t.1.1) ts ->
    exists r', (run ts r).2 = Some r' /\ spec r' = spec r).
  { apply (run_ind_invariant (fun ts r o => Forall (fun t : Turn => orderly t.1.1) ts ->
      exists r', o.2 = Some r' /\ spec r' = spec r)); [eauto| | |done|by apply waiting_invariant].
    - intros w a b ts' r0 s' cs act o _ _ _ _ _ _ IH [_ Hts']%Forall_cons. by apply IH.
    - by intros w a b ts' r0 Hno [Ho _]%Forall_cons. }
  destruct (H Hts) as (r' & E & Hs). exists (run ts r).1, r'. split; [|done]. rewrite <- E.
  by destruct (run ts r).
Qed.

(** C11: components are changed in the order of the mode.  In every run the
    calls that change the cluster come sorted: control plane, add-ons, node
    groups for an upgrade; node groups, add-ons, control plane for a rollback;
    a component never changes again once a later kind has started. *)
Theorem upgrade_changes_in_order ts r :
  waiting r -> target_in_range (spec r) ->
  StronglySorted (fun c d => (call_rank (upgrade_mode (spec r)) c
                              <= call_rank (upgrade_mode (spec r)) d)%nat) (run ts r).1.
Proof.
  intros Hw Ht.
  apply (run_ind_invariant (fun _ r o =>
    StronglySorted (fun c d => (call_rank (upgrade_mode (spec r)) c
                                <= call_rank (upgrade_mode (spec r)) d)%nat) o.1 /\
    Forall (fun c => (phase_rank (upgrade_mode (spec r)) (current_phase (stored_status r))
                      <= call_rank (upgrade_mode (spec r)) c)%nat) o.1));
    [by intros; split; constructor| |by intros; split; constructor|done|by apply waiting_invariant].
  clear. intros w a b ts r s' cs act o Ht Hinv _ Hturn _ _ [Hs Hall]. cbn in Hs, Hall. cbn [fst].
  destruct (turned_calls _ _ _ _ _ _ Ht Hinv Hturn) as (Hc & _ & Hle).
  assert (Hcr : Forall (fun c => call_rank (upgrade_mode (spec r)) c =
                  phase_rank (upgrade_mode (spec r)) (current_phase (stored_status r))) cs)
    by (eapply Forall_impl; [exact Hc|]; intros c E; unfold call_rank; by rewrite E).
  change (stored_status (mkUpgrade _ _ (Some s'))) with s' in Hall.
  split.
  - apply StronglySorted_app. split; [|split; [|done]].
    + intros c d Hin Hin'. rewrite Forall_forall in Hcr, Hall.
      rewrite (Hcr _ Hin). specialize (Hall _ Hin'). cbn in Hall. lia.
    + clear -Hcr. induction Hcr as [|c cs E Hcr IH]; constructor; [done|].
      eapply Forall_impl; [exact Hcr|]. intros d Ed. cbn in *. lia.
  - apply Forall_app. split; [eapply Forall_impl; [exact Hcr|]|eapply Forall_impl; [exact Hall|]];
      intros c E; cbn in *; lia.
Qed.

(** Karpenter nodes are never replaced.  A run reaches the phase that
    replaces them and stays there: the reconcile loop does not poll in that
    phase, so no node claim is ever deleted. *)
Theorem karpenter_never_runs ts r name :
  waiting r -> target_in_range (spec r) -> DeleteNodeClaim name ∉ (run ts r).1.
Proof.
  intros Hw Ht.
  apply (run_ind_invariant (fun _ r o => DeleteNodeClaim name ∉ o.1));
    [intros; apply not_elem_of_nil| |intros; apply not_elem_of_nil|done|by apply waiting_invariant].
  clear. intros w a b ts r s' cs act o Ht Hinv _ Hturn _ _ Hno. cbn [fst].
  destruct (turned_calls _ _ _ _ _ _ Ht Hinv Hturn) as (Hc & Hk & _).
  rewrite not_elem_of_app. split; [|done]. intros Hin. rewrite Forall_forall in Hc.
  specialize (Hc _ Hin). apply Hk; [by intros ->; apply elem_of_nil in Hin|].
  rewrite <- Hc. done.
Qed.

(** ** The versions the control plane is asked for *)

Definition cluster_versions (cs : list Call) : list string :=
  omap (fun c => match c with UpdateClusterVersion v => Some v | _ => None end) cs.

(** Repeated requests for the same version count once. *)
Fixpoint destutter (l : list string) : list string :=
  match l with
  | [] => []
  | x :: l' =>
      match l' with
      | y :: _ => if String.eqb x y then destutter l' else x :: destutter l'
      | [] => [x]
      end
  end.

Lemma destutter_nonempty x l : exists k, destutter (x :: l) = x :: k.
Proof.
  revert x. induction l as [|y l IH]; intros x; [by exists []|].
  change (destutter (x :: y :: l))
    with (if String.eqb x y then destutter (y :: l) else x :: destutter (y :: l)).
  destruct (String.eqb_spec x y) as [->|_]; [apply IH|by eexists].
Qed.

Lemma destutter_snoc l v :
  destutter (l ++ [v])
  = if decide (last l = Some v) then destutter l else destutter l ++ [v].
Proof.
  induction l as [|x l IH]; [done|]. destruct l as [|y l].
  - cbn. destruct (String.eqb_spec x v) as [->|Hne]; [by rewrite decide_True|].
    rewrite decide_False by congruence. done.
  - change (destutter ((x :: y :: l) ++ [v]))
      with (if String.eqb x y then destutter ((y :: l) ++ [v]) else x :: destutter ((y :: l) ++ [v])).
    change (destutter (x :: y :: l))
      with (if String.eqb x y then destutter (y :: l) else x :: destutter (y :: l)).
    change (last (x :: y :: l)) with (last (y :: l)). rewrite IH.
    by repeat case_match.
Qed.

Lemma last_destutter l : last (destutter l) = last l.
Proof.
  induction l as [|x l IH]; [done|]. destruct l as [|y l]; [done|].
  change (destutter (x :: y :: l))
    with (if String.eqb x y then destutter (y :: l) else x :: destutter (y :: l)).
  change (last (x :: y :: l)) with (last (y :: l)). rewrite <- IH.
  destruct (String.eqb x y); [done|]. by destruct (destutter_nonempty y l) as [k ->].
Qed.

(** The plan comes from the version it records. *)
Definition plan_ok (sp : EKSUpgradeSpec) (s : EKSUpgradeStatus) : Prop :=
  match planning (phases s) with
  | None => True
  | Some pl => exists v, source_version pl = Some v /\ path_for sp v = Ok (upgrade_path pl)
  end.

Lemma path_for_NoDup sp v path : path_for sp v = Ok path -> NoDup path.
Proof.
  intros H. destruct (path_for_parsed _ _ _ H) as (a & b & c & d & Hc & Hd).
  destruct (parse_k8s_version_range _ _ _ Hc) as [Ha Hb].
  destruct (parse_k8s_version_range _ _ _ Hd) as [_ Hdr].
  unfold path_for in H. destruct (upgrade_mode sp).
  - destruct (proj1 (upgrade_path_spec _ _ _ _ _ _ Hc Hd _) H) as (_ & _ & ->).
    apply (NoDup_fmap_1 parse_k8s_version). 
    replace (parse_k8s_version <$> map (version_string a) (seqZ (b + 1) (d - b)))
      with ((fun m => Ok (a, m) : result KuoError (Z * Z)) <$> seqZ (b + 1) (d - b)).
    + apply NoDup_fmap; [|apply NoDup_seqZ]. intros m n E. congruence.
    + change (map (version_string a) (seqZ (b + 1) (d - b)))
        with (version_string a <$> seqZ (b + 1) (d - b)). rewrite <- list_fmap_compose.
      apply list_fmap_ext. intros i m Hm. apply list_elem_of_lookup_2, elem_of_seqZ in Hm.
      cbn. rewrite parse_version_string; [done|done|]. unfold is_u32 in *. lia.
  - destruct (proj1 (rollback_path_spec _ _ _ _ _ _ Hc Hd _) H) as (_ & [[_ ->]|[_ ->]]).
    + constructor.
    + apply NoDup_singleton.
Qed.

Lemma plan_ok_NoDup sp s : plan_ok sp s -> NoDup (path_of s).
Proof.
  unfold plan_ok, path_of. destruct (planning _) as [pl|]; [|constructor].
  intros (v & _ & H). by eapply path_for_NoDup.
Qed.

Lemma planning_plan w sp s cs s' :
  fresh_phases (phases s) -> PlanningPhase.execute w sp s = (cs, Ok s') -> plan_ok sp s'.
Proof.
  intros (Hf & _) H. unfold PlanningPhase.execute, reject_consecutive_rollback in H.
  destruct (negb _); cbn iota zeta in H.
  2:{ injection H as _ <-. unfold plan_ok. cbn. by rewrite Hf. }
  apply bind_inv_ok in H as (? & plan & ? & Hplan & H & _).
  apply bind_inv_ok in H as (? & karpenter & ? & _ & H & _).
  apply create_plan_path in Hplan. fold (with_plan sp plan karpenter s) in H.
  assert (E : planning (phases (with_plan sp plan karpenter s))
              = Some (mkPlanning (Some (plan_current_version plan)) (plan_path plan))).
  { unfold with_plan. destruct karpenter; [|destruct (karpenter_node_pools sp)]; cbn; by rewrite Hf. }
  assert (Hok : forall s1, phases s1 = phases (with_plan sp plan karpenter s) -> plan_ok sp s1)
    by (intros s1 E1; unfold plan_ok; rewrite E1, E; eauto).
  destruct (plan_is_empty plan); [destruct karpenter|]; injection H as _ <-; by apply Hok.
Qed.

Lemma preflight_planning w sp s cs s' :
  PreflightPhase.execute w sp s = (cs, Ok s') ->
  planning (phases s') = planning (phases s) /\ control_plane (phases s') = control_plane (phases s).
Proof.
  unfold PreflightPhase.execute. intros (? & p & ? & _ & H & _)%bind_inv_ok.
  destruct (has_mandatory_failures p); [|destruct (dry_run sp)]; injection H as _ <-; [done|done|].
  by rewrite transition_to_phases.
Qed.

Lemma cp_outcome_planning mode s path cp cs s' rq :
  cp_outcome mode s path cp cs (Ok (s', rq)) -> planning (phases s') = planning (phases s).
Proof.
  inversion 1; subst; try done. unfold ControlPlane.advance_to_next_phase. by rewrite transition_to_phases.
Qed.

Lemma addon_outcome_planning mode s cs s' rq :
  addon_outcome mode s cs (Ok (s', rq)) ->
  planning (phases s') = planning (phases s) /\ control_plane (phases s') = control_plane (phases s).
Proof.
  inversion 1; subst; try done. unfold AddonsPhase.advance_to_next_phase. by rewrite transition_to_phases.
Qed.

Lemma ng_outcome_planning mode s cs s' rq :
  ng_outcome mode s cs (Ok (s', rq)) ->
  planning (phases s') = planning (phases s) /\ control_plane (phases s') = control_plane (phases s).
Proof. inversion 1; subst; try done. by rewrite transition_to_phases. Qed.

(** The requests [L] made so far, against the status. *)
Record logged (mode : UpgradeMode) (s : EKSUpgradeStatus) (L : list string) : Prop := {
  log_prefix : destutter L `prefix_of` path_of s;
  log_before : before mode (current_phase s) (cp_phase mode) -> L = [];
  log_during : current_phase s = cp_phase mode ->
    forall cp, control_plane (phases s) = Some cp ->
    exists n, destutter L = take n (path_of s) /\
      current_step cp - 1 <= Z.of_nat n <= current_step cp /\
      (is_some (cp_update_id cp) = true -> Z.of_nat n = current_step cp);
}.

Lemma path_of_planning s s' :
  planning (phases s') = planning (phases s) -> path_of s' = path_of s.
Proof. unfold path_of. by intros ->. Qed.

Lemma plan_ok_planning sp s s' :
  planning (phases s') = planning (phases s) -> plan_ok sp s -> plan_ok sp s'.
Proof. unfold plan_ok. by intros ->. Qed.

Lemma no_cluster_calls mode p cs :
  Forall (fun c => call_phase mode c = p) cs -> p <> cp_phase mode -> cluster_versions cs = [].
Proof.
  intros H Hp. induction H as [|c cs E H IH]; [done|]. destruct c; cbn in *; [congruence|done..].
Qed.

(** Asking for the version of the current step. *)
Lemma log_request path L n step v :
  NoDup path -> destutter L = take n path -> 1 <= step ->
  step - 1 <= Z.of_nat n <= step -> path !! Z.to_nat (step - 1) = Some v ->
  destutter (L ++ [v]) = take (Z.to_nat step) path.
Proof.
  intros Hnd HL Hstep Hn Hv. rewrite destutter_snoc, <- last_destutter, HL.
  pose proof (lookup_lt_Some _ _ _ Hv) as Hlt.
  assert (Hsucc : Z.to_nat step = S (Z.to_nat (step - 1))) by lia.
  destruct (decide (Z.of_nat n = step)) as [E|E].
  - replace n with (S (Z.to_nat (step - 1))) by lia. rewrite Hsucc, (take_S_r _ _ _ Hv).
    by rewrite last_snoc, decide_True.
  - replace n with (Z.to_nat (step - 1)) by lia. rewrite Hsucc, (take_S_r _ _ _ Hv).
    rewrite decide_False; [done|]. intros Hl. rewrite last_lookup, length_take in Hl.
    apply lookup_take_Some in Hl as [Hl Hi].
    pose proof (NoDup_lookup _ _ _ _ Hnd Hl Hv). lia.
Qed.

Lemma logged_after mode s s' L :
  logged mode s L -> planning (phases s') = planning (phases s) ->
  ~ before mode (current_phase s') (cp_phase mode) -> current_phase s' <> cp_phase mode ->
  logged mode s' L.
Proof.
  intros [Hp _ _] E Hb Hne. split; [by rewrite (path_of_planning s s')|done|done].
Qed.

Lemma logged_unchanged mode s s' L : logged mode s L -> unchanged s s' -> logged mode s' L.
Proof.
  intros Hl (E & _ & [Ep|Ep]).
  - destruct Hl as [H1 H2 H3]. unfold current_phase, path_of in *.
    by split; unfold current_phase, path_of; rewrite ?E, ?Ep.
  - assert (Ec : current_phase s' = Failed) by (unfold current_phase; by rewrite Ep).
    apply (logged_after _ s); [done|by rewrite E| |]; rewrite Ec; [|by destruct mode].
    apply rank_before. by destruct mode.
Qed.

(** Nothing was asked for, and the control plane status is that of the plan. *)
Lemma logged_enter mode s s' p :
  before mode p (cp_phase mode) -> planned mode p (phases s) ->
  planning (phases s') = planning (phases s) -> control_plane (phases s') = control_plane (phases s) ->
  logged mode s' [].
Proof.
  intros Hb [(pl & cp & Hpl & Hcp & [Htot Hshort Hidle Hfirst _]) _ _] E1 E2.
  split; [apply prefix_nil|done|]. intros _ cp' Hcp'. rewrite E2 in Hcp'.
  assert (cp' = cp) as -> by congruence. exists 0%nat.
  split; [by rewrite take_0|]. rewrite (Hfirst Hb). pose proof (zlen_nonneg (upgrade_path pl)).
  split; [lia|]. rewrite Hidle; [done|]. intros ->. by apply before_irrefl in Hb.
Qed.

Lemma planning_phase w sp s cs s' :
  PlanningPhase.execute w sp s = (cs, Ok s') ->
  current_phase s' = Failed \/ current_phase s' = Completed \/ current_phase s' = PreflightChecking.
Proof.
  unfold PlanningPhase.execute, reject_consecutive_rollback. intros H.
  destruct (negb _); cbn iota zeta in H; [|injection H as _ <-; by left].
  apply bind_inv_ok in H as (? & plan & ? & _ & H & _).
  apply bind_inv_ok in H as (? & karpenter & ? & _ & H & _).
  destruct (plan_is_empty plan); [destruct karpenter|]; injection H as _ <-; cbn; auto.
Qed.

(** The requests after a step of the control plane handler. *)
Lemma log_asked mode s L path cp cs res n :
  NoDup path -> 1 <= current_step cp -> destutter L = take n path ->
  current_step cp - 1 <= Z.of_nat n <= current_step cp -> cp_outcome mode s path cp cs res ->
  exists m, destutter (L ++ cluster_versions cs) = take m path /\
    (cs = [] -> m = n) /\ (cs <> [] -> Z.of_nat m = current_step cp) /\
    current_step cp - 1 <= Z.of_nat m <= current_step cp.
Proof.
  intros Hnd Hrange Hn Hstep Ho.
  inversion Ho; subst; cbn [cluster_versions omap list_omap];
    try (exists n; rewrite app_nil_r; split; [done|]; split; [done|]; split; [congruence|done]);
    (exists (Z.to_nat (current_step cp)); split; [by eapply log_request; eauto; lia|];
     split; [done|]; split; lia).
Qed.

(** The control plane handler. *)
Lemma logged_cp mode s s' L pl cp cs res :
  NoDup (path_of s) -> logged mode s L -> current_phase s = cp_phase mode ->
  planning (phases s) = Some pl -> control_plane (phases s) = Some cp ->
  cp_follows mode (cp_phase mode) (upgrade_path pl) cp ->
  cp_outcome mode s (upgrade_path pl) cp cs res ->
  match res with
  | Ok (s1, _) => good_step mode (cp_phase mode) s s1 /\ phase s' = phase s1 /\ phases s' = phases s1
  | Err _ => False
  end \/ unchanged s s' ->
  logged mode s' (L ++ cluster_versions cs).
Proof.
  intros Hnd Hlog Hph Hpl Hcp Hf Ho Hs. pose proof (cp_range _ _ _ _ Hf eq_refl) as Hrange.
  destruct (log_during _ _ _ Hlog Hph cp Hcp) as (n & Hn & Hstep & Hid).
  assert (Hpath : path_of s = upgrade_path pl) by (unfold path_of; by rewrite Hpl).
  rewrite Hpath in *.
  destruct (log_asked _ _ _ _ _ _ _ _ Hnd (proj1 Hrange) Hn Hstep Ho) as (m & Hm & Hm0 & Hm1 & Hm2).
  assert (Hprefix : forall s2, planning (phases s2) = Some pl ->
            destutter (L ++ cluster_versions cs) `prefix_of` path_of s2).
  { intros s2 E. unfold path_of. rewrite E, Hm. exists (drop m (upgrade_path pl)).
    by rewrite take_drop. }
  destruct Hs as [Hs|(E & _ & [Ep|Ep])].
  2:{ split; [apply Hprefix; by rewrite E| |].
      - unfold current_phase. rewrite Ep. fold (current_phase s). rewrite Hph.
        intros Hx. by apply before_irrefl in Hx.
      - intros _ cp' Hcp'. assert (cp' = cp) as -> by congruence. exists m.
        unfold path_of. rewrite E, Hpl. split; [done|]. split; [done|]. intros Hsome.
        destruct (decide (cs = [])); [rewrite Hm0 by done; auto|auto]. }
  2:{ assert (Ec : current_phase s' = Failed) by (unfold current_phase; by rewrite Ep).
      split; [apply Hprefix; by rewrite E| |]; rewrite Ec; [|by destruct mode].
      intros Hx. exfalso. revert Hx. apply rank_before. by destruct mode. }
  destruct res as [[s1 rq]|e]; [|done]. destruct Hs as ((Hg & _) & Ep & Eps).
  assert (Epl : planning (phases s') = Some pl).
  { rewrite Eps, (cp_outcome_planning _ _ _ _ _ _ _ Ho). done. }
  destruct Hg as (p' & Hp' & Hmove & _).
  assert (Ec : current_phase s' = p') by (unfold current_phase; by rewrite Ep, Hp').
  split; [by apply Hprefix| |].
  - rewrite Ec. intros Hx. destruct Hmove as [->|Hb]; [by apply before_irrefl in Hx|].
    by apply before_asym in Hx.
  - rewrite Ec. intros ->. destruct Hmove as [_|Hb]; [|by apply before_irrefl in Hb].
    intros cp' Hcp'. rewrite Eps in Hcp'. unfold path_of. rewrite Epl.
    inversion Ho; subst; cbn in Hp', Hcp'; rewrite ?Hcp in Hcp'; cbn in Hcp'; simplify_eq; cbn.
    + exists m. split; [done|]. split; [lia|]. intros _. by apply Hm1.
    + exists m. split; [done|]. split; [lia|]. rewrite Hm0 by done. auto.
    + by destruct mode.
    + exists m. rewrite Hm0 in * by done. split; [done|]. split; [|done].
      rewrite Hid by done. lia.
    + exfalso. unfold ControlPlane.advance_to_next_phase in Hp'.
      rewrite transition_to_phase in Hp'. unfold after_control_plane in Hp'.
      destruct mode; cbn in Hp'; cases_if; congruence.
Qed.

Lemma before_or_after_cp mode p :
  is_Some (rank mode p) -> p <> cp_phase mode ->
  before mode p (cp_phase mode) \/ before mode (cp_phase mode) p.
Proof.
  intros [n Hn] Hne. unfold before. destruct mode, p; cbn in *; simplify_eq; eauto 10 with lia.
Qed.

Lemma logged_nothing mode s : current_phase s <> cp_phase mode -> logged mode s [].
Proof. intros H. split; [apply prefix_nil|done|done]. Qed.

(** A handler that leaves the control plane and the plan alone. *)
Lemma logged_elsewhere mode s s' L p' :
  is_Some (rank mode (current_phase s)) -> current_phase s <> cp_phase mode ->
  planned mode (current_phase s) (phases s) -> logged mode s L ->
  planning (phases s') = planning (phases s) /\ control_plane (phases s') = control_plane (phases s) ->
  current_phase s' = p' -> p' = current_phase s \/ before mode (current_phase s) p' ->
  logged mode s' L.
Proof.
  intros Hr Hne Hplan Hlog [E1 E2] Hp' Hmove.
  destruct (before_or_after_cp _ _ Hr Hne) as [Hb|Hb].
  - rewrite (log_before _ _ _ Hlog Hb). by eapply logged_enter.
  - assert (Hb' : before mode (cp_phase mode) p')
      by (destruct Hmove as [->|?]; [done|by eapply before_trans]).
    apply (logged_after _ s); rewrite ?Hp'; [done|done|by apply before_asym|].
    intros ->. by apply before_irrefl in Hb'.
Qed.

(** After planning, a handler keeps the plan, and the status of the control
    plane unless it is its phase. *)
Lemma dispatch_keeps w sp s cs s1 rq :
  is_Some (rank (upgrade_mode sp) (current_phase s)) ->
  stage (upgrade_mode sp) (current_phase s) (phases s) -> terminal (current_phase s) = false ->
  current_phase s <> UpgradingKarpenterNodePools -> current_phase s <> Pending ->
  current_phase s <> Planning -> dispatch w sp (current_phase s) s = (cs, Ok (s1, rq)) ->
  planned (upgrade_mode sp) (current_phase s) (phases s) /\
  planning (phases s1) = planning (phases s) /\
  (current_phase s <> cp_phase (upgrade_mode sp) -> control_plane (phases s1) = control_plane (phases s)).
Proof.
  intros Hr Hst Hterm Hk H1 H2 Hd.
  destruct (phase_cases _ _ Hr Hterm Hk) as [E|[E|[E|[E|[E|E]]]]]; rewrite E in *; try done.
  - apply bind_inv_ok in Hd as (? & s2 & ? & Hd & [= _ -> _] & _). apply preflight_planning in Hd as [? ?].
    split; [apply Hst|auto].
  - apply stage_working in Hst as [_ Hst]; [|auto with kuo].
    destruct (planned_cp _ _ _ Hst) as (pl & cp & Hpl & Hcp & Hf).
    rewrite dispatch_cp in Hd. eapply cp_execute_outcome in Hd; [|done..].
    split; [done|]. split; [by eapply cp_outcome_planning|done].
  - apply stage_working in Hst as [_ Hst]; [|auto with kuo].
    rewrite dispatch_addons in Hd. eapply addons_execute_outcome in Hd; [|by apply Hst].
    apply addon_outcome_planning in Hd as [? ?]. auto.
  - apply stage_working in Hst as [_ Hst]; [|auto with kuo].
    rewrite dispatch_nodegroups in Hd. eapply nodegroups_execute_outcome in Hd.
    2:{ eapply Forall_impl; [apply Hst|]. by intros n [H _]. }
    apply ng_outcome_planning in Hd as [? ?]. auto.
Qed.

(** Before and during planning. *)
Lemma early_plan_ok w sp s cs s1 rq :
  stage (upgrade_mode sp) (current_phase s) (phases s) -> plan_ok sp s ->
  current_phase s = Pending \/ current_phase s = Planning ->
  dispatch w sp (current_phase s) s = (cs, Ok (s1, rq)) ->
  plan_ok sp s1 /\ before (upgrade_mode sp) (current_phase s) (cp_phase (upgrade_mode sp)) /\
  current_phase s1 <> cp_phase (upgrade_mode sp).
Proof.
  intros Hst Hok [E|E] Hd; rewrite E in *.
  - injection Hd as _ <- _. split; [exact Hok|]. split; [|by destruct (upgrade_mode sp)].
    exists 0%nat. destruct (upgrade_mode sp); cbn; eauto with lia.
  - apply bind_inv_ok in Hd as (? & s2 & ? & Hd & [= _ -> _] & _).
    split; [exact (planning_plan w sp s _ s1 Hst Hd)|]. split.
    + exists 1%nat. destruct (upgrade_mode sp); cbn; eauto with lia.
    + destruct (planning_phase _ _ _ _ _ Hd) as [->|[->| ->]]; by destruct (upgrade_mode sp).
Qed.

Lemma logged_turn w sp gen s s' cs L :
  target_in_range sp -> invariant sp gen s -> plan_ok sp s -> logged (upgrade_mode sp) s L ->
  turned w sp s s' cs ->
  plan_ok sp s' /\ logged (upgrade_mode sp) s' (L ++ cluster_versions cs).
Proof.
  intros Ht Hinv Hok Hlog Hturn.
  destruct (turned_calls _ _ _ _ _ _ Ht Hinv Hturn) as (Hcalls & _).
  pose proof (plan_ok_NoDup _ _ Hok) as Hnd. destruct Hinv as [Hr Hst _].
  assert (Hun : unchanged s s' -> plan_ok sp s')
    by (intros [E _]; apply (plan_ok_planning _ s); [by rewrite E|done]).
  assert (Hnone : current_phase s <> cp_phase (upgrade_mode sp) -> L ++ cluster_versions cs = L)
    by (intros Hne; by rewrite (no_cluster_calls _ _ _ Hcalls Hne), app_nil_r).
  inversion Hturn as [Hu|? res Hterm Hk Hd Hu|? s1 rq Hterm Hk Hd Hp Hps _ _]; subst.
  - split; [auto|]. rewrite app_nil_r. by eapply logged_unchanged.
  - split; [auto|]. destruct (decide (current_phase s = cp_phase (upgrade_mode sp))) as [E|Hne].
    + rewrite E in *. apply stage_working in Hst as [_ Hst]; [|auto with kuo].
      destruct (planned_cp _ _ _ Hst) as (pl & cp & Hpl & Hcp & Hf).
      rewrite dispatch_cp in Hd. eapply cp_execute_outcome in Hd; [|done..].
      eapply logged_cp; eauto.
    + rewrite Hnone by done. by eapply logged_unchanged.
  - destruct (dispatch_good w sp s _ eq_refl Hr Hst Ht Hterm Hk) as [_ Hg]. rewrite Hd in Hg.
    cbn in Hg. pose proof (step_phase _ _ _ _ Hg) as (p' & Hp' & Hmove & _).
    assert (Ec : current_phase s' = p') by (unfold current_phase; by rewrite Hp, Hp').
    assert (Hplan_ok : plan_ok sp s1 -> plan_ok sp s') by (unfold plan_ok; by rewrite Hps).
    destruct (decide (current_phase s = Pending \/ current_phase s = Planning)) as [Hearly|Hlate].
    { destruct (early_plan_ok w sp s _ _ _ Hst Hok Hearly Hd) as (Hok1 & Hb & Hne).
      split; [auto|]. rewrite Hnone by (intros Heq; rewrite Heq in Hb; by apply before_irrefl in Hb).
      rewrite (log_before _ _ _ Hlog Hb). apply logged_nothing. unfold current_phase.
      rewrite Hp. exact Hne. }
    assert (current_phase s <> Pending /\ current_phase s <> Planning) as [Hl1 Hl2] by tauto.
    destruct (dispatch_keeps w sp s _ _ _ Hr Hst Hterm Hk Hl1 Hl2 Hd) as (Hplan & E1 & E2).
    split; [apply Hplan_ok; by apply (plan_ok_planning _ s)|].
    destruct (decide (current_phase s = cp_phase (upgrade_mode sp))) as [E|Hne].
    + destruct (planned_cp _ _ _ Hplan) as (pl & cp & Hpl & Hcp & Hf). rewrite E in *.
      rewrite dispatch_cp in Hd. eapply cp_execute_outcome in Hd; [|done..].
      eapply logged_cp; eauto.
    + rewrite Hnone by done. apply (logged_elsewhere _ s s' L p'); rewrite ?Hps; auto.
Qed.

Lemma run_logged ts r :
  waiting r -> target_in_range (spec r) ->
  forall r', (run ts r).2 = Some r' ->
  plan_ok (spec r) (stored_status r') /\
  destutter (cluster_versions (run ts r).1) `prefix_of` path_of (stored_status r').
Proof.
  intros Hw Ht.
  assert (H : forall L r', plan_ok (spec r) (stored_status r) ->
    logged (upgrade_mode (spec r)) (stored_status r) L -> (run ts r).2 = Some r' ->
    plan_ok (spec r) (stored_status r') /\
    destutter (L ++ cluster_versions (run ts r).1) `prefix_of` path_of (stored_status r')).
  { apply (run_ind_invariant (fun _ r o => forall L r', plan_ok (spec r) (stored_status r) ->
      logged (upgrade_mode (spec r)) (stored_status r) L -> o.2 = Some r' ->
      plan_ok (spec r) (stored_status r') /\
      destutter (L ++ cluster_versions o.1) `prefix_of` path_of (stored_status r')));
      [| |done|done|by apply waiting_invariant].
    - clear. intros r Hinv L r' Hok Hlog [= <-]. split; [done|]. rewrite app_nil_r. apply Hlog.
    - clear. intros w a b ts r s' cs act o Ht Hinv _ Hturn _ _ IH L r' Hok Hlog Ho.
      destruct (logged_turn _ _ _ _ _ _ _ Ht Hinv Hok Hlog Hturn) as [Hok' Hlog'].
      cbn [fst snd] in *. unfold cluster_versions. rewrite omap_app, app_assoc.
      exact (IH _ _ Hok' Hlog' Ho). }
  destruct Hw as [Hp Hf]. intros r' Hr'. apply (H [] r'); [| |done].
  - unfold plan_ok. by rewrite (proj1 Hf).
  - apply logged_nothing. rewrite Hp. by destruct (upgrade_mode (spec r)).
Qed.

(** One minor version at a time: upwards from [current] to [target], or the one
    step down. *)
Definition minor_steps (mode : UpgradeMode) (current target : string) (path : list string) : Prop :=
  exists major from to,
    parse_k8s_version current = Ok (major, from) /\ parse_k8s_version target = Ok (major, to) /\
    match mode with
    | Forward => from <= to /\ path = map (version_string major) (seqZ (from + 1) (to - from))
    | Rollback => to = from /\ path = [] \/ to + 1 = from /\ path = [target]
    end.

Lemma path_for_steps sp v path :
  path_for sp v = Ok path -> minor_steps (upgrade_mode sp) v (target_version sp) path.
Proof.
  intros H. destruct (path_for_parsed _ _ _ H) as (a & b & c & d & Hc & Hd).
  unfold path_for in H. unfold minor_steps. rewrite Hc, Hd. destruct (upgrade_mode sp).
  - destruct (proj1 (upgrade_path_spec _ _ _ _ _ _ Hc Hd _) H) as (-> & Hle & Hp). by exists a, b, d.
  - destruct (proj1 (rollback_path_spec _ _ _ _ _ _ Hc Hd _) H) as (-> & Hp). by exists a, b, d.
Qed.

(** C3: The control plane goes one minor version at a time.  The versions a
    run asks for, leaving out repetitions (a request whose status was not
    stored is made again), are the beginning of the path stored in the plan,
    in its order, and that path holds every minor version from the one the plan
    records as its source up to the target, or for a rollback the one below;
    nothing is asked for without a plan. *)
Theorem control_plane_follows_path ts r cs r' :
  waiting r -> target_in_range (spec r) -> run ts r = (cs, Some r') ->
  match planning (phases (stored_status r')) with
  | None => cluster_versions cs = []
  | Some pl =>
      exists v, source_version pl = Some v /\
                minor_steps (upgrade_mode (spec r)) v (target_version (spec r)) (upgrade_path pl) /\
                destutter (cluster_versions cs) `prefix_of` upgrade_path pl
  end.
Proof.
  intros Hw Ht Hrun. destruct (run_logged ts r Hw Ht r') as [Hok Hpre]; [by rewrite Hrun|].
  rewrite Hrun in Hpre. cbn [fst] in Hpre. unfold plan_ok, path_of in *.
  destruct (planning (phases (stored_status r'))) as [pl|].
  - destruct Hok as (v & Hv & Hpath). exists v. split; [done|]. split; [by apply path_for_steps|done].
  - apply prefix_nil_inv in Hpre. destruct (cluster_versions cs) as [|x l]; [done|].
    destruct (destutter_nonempty x l) as [k E]. congruence.
Qed.

(** ** Rollbacks and dry runs *)

(** The phases before any change, and the ends of a run. *)
Definition untouched (p : UpgradePhase) : bool :=
  match p with Pending | Planning | PreflightChecking | Completed | Failed => true | _ => false end.

Lemma early_calls w sp s p cs res :
  target_in_range sp -> current_phase s = p -> is_Some (rank (upgrade_mode sp) p) ->
  stage (upgrade_mode sp) p (phases s) -> untouched p = true -> terminal p = false ->
  dispatch w sp p s = (cs, res) -> cs = [].
Proof.
  intros Ht Hp Hr Hst Hu Hterm Hd.
  destruct (dispatch_good w sp s p Hp Hr Hst Ht Hterm) as [Hc _]; [by intros ->|].
  rewrite Hd in Hc. cbn in Hc. destruct cs as [|c cs]; [done|].
  apply Forall_cons in Hc as [Hc _]. destruct p, c; cbn in *; try done; by destruct (upgrade_mode sp).
Qed.

(** A status that only waits, fails, or has completed what [Q] allows. *)
Lemma run_untouched (Q : EKSUpgradeStatus -> Prop) ts r :
  waiting r -> target_in_range (spec r) -> Q (stored_status r) ->
  (forall w gen s s' cs, invariant (spec r) gen s -> Q s -> untouched (current_phase s) = true ->
     turned w (spec r) s s' cs -> Q s' /\ untouched (current_phase s') = true) ->
  (run ts r).1 = [] /\
  forall r', (run ts r).2 = Some r' -> Q (stored_status r') /\ untouched (current_phase (stored_status r')) = true.
Proof.
  intros Hw Ht HQ Hstep.
  assert (H : spec r = spec r -> untouched (current_phase (stored_status r)) = true ->
    Q (stored_status r) -> (run ts r).1 = [] /\ forall r', (run ts r).2 = Some r' ->
    Q (stored_status r') /\ untouched (current_phase (stored_status r')) = true).
  { apply (run_ind_invariant (fun _ r0 o => spec r0 = spec r ->
      untouched (current_phase (stored_status r0)) = true -> Q (stored_status r0) ->
      o.1 = [] /\ forall r', o.2 = Some r' ->
      Q (stored_status r') /\ untouched (current_phase (stored_status r')) = true));
      [| |done|done|by apply waiting_invariant].
    - intros r0 _ _ Hu HQ0. split; [done|]. by intros r' [= <-].
    - intros w a b ts0 r0 s' cs act o Ht0 Hinv _ Hturn _ _ IH E Hu HQ0. cbn [fst snd] in *.
      assert (Hcs : cs = []).
      { inversion Hturn; subst; [done| |]; eapply early_calls; eauto; apply Hinv. }
      rewrite E in Hinv, Hturn. destruct (Hstep _ _ _ _ _ Hinv HQ0 Hu Hturn) as [HQ' Hu'].
      destruct (IH E Hu' HQ') as [Ho Hr']. by rewrite Hcs, Ho. }
  apply H; [done| |done]. by rewrite (proj1 Hw).
Qed.

(** What the handlers of the early phases leave. *)
Lemma early_dispatch w sp s p cs s1 rq :
  untouched p = true -> terminal p = false -> dispatch w sp p s = (cs, Ok (s1, rq)) ->
  last_transition s1 = last_transition s.
Proof.
  destruct p; try done; intros _ _ Hd; cbn in Hd.
  - by injection Hd as _ <- _.
  - apply bind_inv_ok in Hd as (? & s2 & ? & Hd & [= _ -> _] & _).
    unfold PlanningPhase.execute, reject_consecutive_rollback in Hd.
    destruct (negb _); cbn iota zeta in Hd; [|by injection Hd as _ <-].
    apply bind_inv_ok in Hd as (? & plan & ? & _ & H & _).
    apply bind_inv_ok in H as (? & karpenter & ? & _ & H & _). fold (with_plan sp plan karpenter s) in H.
    assert (E : last_transition (with_plan sp plan karpenter s) = last_transition s)
      by (unfold with_plan; destruct karpenter; [|destruct (karpenter_node_pools sp)]; done).
    destruct (plan_is_empty plan); [destruct karpenter|]; by injection H as _ <-.
  - apply bind_inv_ok in Hd as (? & s2 & ? & Hd & [= _ -> _] & _). unfold PreflightPhase.execute in Hd.
    apply bind_inv_ok in Hd as (? & q & ? & _ & H & _).
    destruct (has_mandatory_failures q); [|destruct (dry_run sp)]; injection H as _ <-; [done|done|].
    unfold transition_to, set_phase. by repeat case_decide.
Qed.

(** no rollback follows a rollback.  When the last transition recorded is
    a rollback, a run in rollback mode changes nothing in the cluster and never
    completes: the resource waits, plans, or has failed. *)
Theorem second_rollback_refused ts r t :
  waiting r -> target_in_range (spec r) -> upgrade_mode (spec r) = Rollback ->
  last_transition (stored_status r) = Some t -> t_mode t = Rollback ->
  (run ts r).1 = [] /\
  forall r', (run ts r).2 = Some r' ->
  current_phase (stored_status r') = Pending \/ current_phase (stored_status r') = Planning \/
  current_phase (stored_status r') = Failed.
Proof.
  intros Hw Ht Hm Hlast Htm.
  set (Q s := last_transition s = Some t /\
    (current_phase s = Pending \/ current_phase s = Planning \/ current_phase s = Failed)).
  destruct (run_untouched Q ts r Hw Ht) as [Hc Hr].
  - split; [done|]. left. apply Hw.
  - clear -Hm Htm. intros w gen s s' cs _ [Hl Hp] _ Hturn.
    assert (Hgoal : last_transition s' = last_transition s ->
      (current_phase s' = Pending \/ current_phase s' = Planning \/ current_phase s' = Failed) ->
      Q s' /\ untouched (current_phase s') = true).
    { intros El Ep. split; [split; [congruence|done]|]. by destruct Ep as [->|[->| ->]]. }
    assert (Hu : unchanged s s' -> Q s' /\ untouched (current_phase s') = true).
    { intros (_ & El & [Ep|Ep]); apply Hgoal; try done.
      - unfold current_phase. by rewrite Ep.
      - right; right. unfold current_phase. by rewrite Ep. }
    inversion Hturn as [?|? res Hterm Hk Hd ?|? s1 rq Hterm Hk Hd Ep Eps Elast _]; subst; [auto|auto|].
    assert (Hs1 : current_phase s1 = Planning \/ current_phase s1 = Failed).
    { destruct Hp as [Hp|[Hp|Hp]]; rewrite Hp in *; [|  |done].
      - cbn in Hd. injection Hd as _ <- _. by left.
      - cbn in Hd. unfold PlanningPhase.execute, reject_consecutive_rollback in Hd.
        unfold is_consecutive_rollback in Hd. rewrite Hm, Hl, Htm in Hd. cbn in Hd.
        injection Hd as _ <- _. by right. }
    assert (Ec : current_phase s' = current_phase s1) by (unfold current_phase; by rewrite Ep).
    apply Hgoal; [|rewrite Ec; tauto]. apply Elast.
    + intros E. unfold current_phase in Hs1. rewrite E in Hs1. by destruct Hs1.
    + apply (early_dispatch w (spec r) s (current_phase s) cs s1 rq); [|done|done].
      by destruct Hp as [-> |[->| ->]].
  - split; [done|]. intros r' Hr'. by apply Hr.
Qed.

(** a dry run changes nothing in the cluster, yet it counts as a
    transition: once completed, it is recorded as an upgrade or a rollback to
    its target.  A dry run of a rollback therefore makes the real rollback
    refused, and a dry run of an upgrade lifts the refusal. *)
Theorem dry_run_recorded_as_transition ts r :
  waiting r -> target_in_range (spec r) -> dry_run (spec r) = true ->
  (run ts r).1 = [] /\
  forall r', (run ts r).2 = Some r' -> current_phase (stored_status r') = Completed ->
  exists t, last_transition (stored_status r') = Some t /\
            t_mode t = upgrade_mode (spec r) /\ to_version t = target_version (spec r).
Proof.
  intros Hw Ht Hdry.
  set (Q s := current_phase s = Completed ->
    exists t, last_transition s = Some t /\ t_mode t = upgrade_mode (spec r) /\
              to_version t = target_version (spec r)).
  destruct (run_untouched Q ts r Hw Ht) as [Hc Hr].
  - unfold Q. by rewrite (proj1 Hw).
  - clear -Hdry Ht. intros w gen s s' cs Hinv HQ Hu Hturn.
    assert (Hun : unchanged s s' -> Q s' /\ untouched (current_phase s') = true).
    { intros (_ & El & Ep). unfold Q. unfold current_phase in *.
      destruct Ep as [->| ->]; [rewrite El; by split|by split]. }
    inversion Hturn as [?|? res Hterm Hk Hd ?|? s1 rq Hterm Hk Hd Ep Eps _ Ecomp]; subst; [auto|auto|].
    assert (Ec : current_phase s' = current_phase s1) by (unfold current_phase; by rewrite Ep).
    split.
    + unfold Q. rewrite Ec. unfold current_phase. destruct (phase s1) as [p|]; [|done]. cbn.
      intros ->. by apply Ecomp.
    + rewrite Ec. destruct (current_phase s); try done; cbn in Hd.
      * by injection Hd as _ <- _.
      * apply bind_inv_ok in Hd as (? & s2 & ? & Hd & [= _ -> _] & _).
        by destruct (planning_phase _ _ _ _ _ Hd) as [->|[->| ->]].
      * apply bind_inv_ok in Hd as (? & s2 & ? & Hd & [= _ -> _] & _). unfold PreflightPhase.execute in Hd.
        apply bind_inv_ok in Hd as (? & q & ? & _ & H & _). rewrite Hdry in H.
        by destruct (has_mandatory_failures q); injection H as _ <-.
  - split; [done|]. intros r' Hr' Hp. by apply Hr.
Qed.

(** ** The theorems at work *)

Lemma demo_waiting mode target dry karpenter : waiting (demo_upgrade mode target dry karpenter).
Proof. done. Qed.

Lemma demo_target mode dry karpenter v a b :
  parse_k8s_version v = Ok (a, b) -> b < u32_max ->
  target_in_range (spec (demo_upgrade mode v dry karpenter)).
Proof. intros Hv Hb major minor H. cbn in H. rewrite Hv in H. by injection H as <- <-. Qed.

(** The specification is edited: a new generation of the resource. *)
Definition edit (sp : EKSUpgradeSpec) (r : EKSUpgrade) : EKSUpgrade :=
  mkUpgrade sp (generation r + 1) (status r).

Definition demo_end (ts : list Turn) (r : EKSUpgrade) : option UpgradePhase :=
  option_map (fun r => current_phase (stored_status r)) (run ts r).2.

Lemma demo_orderly identity alias version time : orderly (demo_cloud identity alias version time).
Proof. intros addon k8s versions [= <-]. vm_compute. reflexivity. Qed.

Lemma upgrade_never_panics_witness :
  exists cs r', run (demo_turns "1.32" 20) (demo_upgrade Forward "1.34" false None) = (cs, Some r') /\
                spec r' = demo_spec Forward "1.34" false None.
Proof.
  apply (upgrade_never_panics (demo_turns "1.32" 20) (demo_upgrade Forward "1.34" false None));
    [apply demo_waiting|apply (demo_target _ _ _ _ 1 34); vm_compute; reflexivity|].
  apply Forall_forall. intros t Ht%list_elem_of_In%repeat_spec. subst t. apply demo_orderly.
Defined.

(** Versions that no order sorts may end the process. *)
Definition unordered_world : World :=
  let w := demo_world "1.32" 1000 in
  mkWorld (now w) (aws_clients w) (verify_identity w) (describe_cluster w) (update_cluster_version w)
    (check_update_status w) (describe_cluster_versions w) (addon_names w) (describe_addon w)
    (fun _ _ => Ok (map (fun v => mkAddonVersion v false) ["v1.9.0"; "v1.10.0"; "v1.2"]))
    (update_addon w) (poll_addon_status w) (nodegroup_names w) (describe_nodegroup w)
    (update_nodegroup_version w) (poll_nodegroup_update w) (insights w) (build_kube_client w) (get_pdbs w)
    (probe_nodepools w) (nodepool_names w) (nodepool_class w) (class_ami_terms w) (get_nodeclaims w)
    (get_nodeclaim w) (remove_nodeclaim w) (get_node w) (get_pods w) (get_replicaset w)
    (get_deployment w) (get_statefulset w) (get_daemonset w) (unordered_sort w).

Example unordered_versions_panic :
  run (repeat (unordered_world, Stored, Stored) 2) (demo_upgrade Forward "1.34" false None) = ([], None).
Proof. vm_compute. reflexivity. Qed.

Lemma upgrade_changes_in_order_witness :
  (run (demo_turns "1.32" 20) (demo_upgrade Rollback "1.31" false None)).1
    = [UpdateNodegroupVersion "workers" "1.31"; UpdateClusterVersion "1.31"] /\
  StronglySorted (fun c d => (call_rank Rollback c <= call_rank Rollback d)%nat)
    (run (demo_turns "1.32" 20) (demo_upgrade Rollback "1.31" false None)).1.
Proof.
  split; [vm_compute; reflexivity|].
  apply (upgrade_changes_in_order (demo_turns "1.32" 20) (demo_upgrade Rollback "1.31" false None));
    [apply demo_waiting|apply (demo_target _ _ _ _ 1 31); vm_compute; reflexivity].
Defined.

Lemma karpenter_never_runs_witness :
  demo_end (demo_turns "1.32" 20) (demo_upgrade Forward "1.34" false (Some demo_karpenter))
    = Some UpgradingKarpenterNodePools /\
  DeleteNodeClaim "default-abc"
    ∉ (run (demo_turns "1.32" 20) (demo_upgrade Forward "1.34" false (Some demo_karpenter))).1.
Proof.
  split; [vm_compute; reflexivity|].
  apply (karpenter_never_runs (demo_turns "1.32" 20)
           (demo_upgrade Forward "1.34" false (Some demo_karpenter)));
    [apply demo_waiting|apply (demo_target _ _ _ _ 1 34); vm_compute; reflexivity].
Defined.

Definition demo_done : EKSUpgrade :=
  default (demo_upgrade Forward "1.34" false None)
    (run (demo_turns "1.32" 20) (demo_upgrade Forward "1.34" false None)).2.

Lemma control_plane_follows_path_witness :
  match planning (phases (stored_status demo_done)) with
  | None => cluster_versions [UpdateClusterVersion "1.33"; UpdateClusterVersion "1.34";
              UpdateAddon "coredns" "v1.11.3-eksbuild.1"; UpdateNodegroupVersion "workers" "1.34"] = []
  | Some pl =>
      exists v, source_version pl = Some v /\
        minor_steps Forward v "1.34" (upgrade_path pl) /\
        destutter (cluster_versions [UpdateClusterVersion "1.33"; UpdateClusterVersion "1.34";
          UpdateAddon "coredns" "v1.11.3-eksbuild.1"; UpdateNodegroupVersion "workers" "1.34"])
        `prefix_of` upgrade_path pl
  end.
Proof.
  apply (control_plane_follows_path (demo_turns "1.32" 20) (demo_upgrade Forward "1.34" false None));
    [apply demo_waiting|apply (demo_target _ _ _ _ 1 34); vm_compute; reflexivity|
     vm_compute; reflexivity].
Defined.

(** After a dry run of a rollback. *)
Definition demo_rehearsed : EKSUpgrade :=
  mkUpgrade (demo_spec Rollback "1.31" false None) 2
    (Some (mkStatus (Some Pending) None (Some "2/2") PhaseStatuses_default [] None 2 None None
             (Some (mkIdentity "111122223333" "arn:aws:iam::111122223333:role/kuo")) None
             (Some (mkTransition Rollback "1.31" 1000)))).

(** The rehearsed resource is the one a dry run leaves, its specification
    edited to run for real. *)
Example dry_run_then_edit :
  option_map (fun r => reset_status (stored_status r) 2 (stored_status r))
    (run (demo_turns "1.32" 20) (demo_upgrade Rollback "1.31" true None)).2
  = option_map (fun s => with_conditions
                   [mkCondition "AWSAuthenticated" "True" "IdentityVerified"
                      (Some "account=111122223333") 1000] s) (status demo_rehearsed).
Proof. vm_compute. reflexivity. Qed.

Lemma second_rollback_refused_witness :
  (run (demo_turns "1.32" 20) demo_rehearsed).1 = [] /\
  forall r', (run (demo_turns "1.32" 20) demo_rehearsed).2 = Some r' ->
  current_phase (stored_status r') = Pending \/ current_phase (stored_status r') = Planning \/
  current_phase (stored_status r') = Failed.
Proof.
  apply (second_rollback_refused (demo_turns "1.32" 20) demo_rehearsed
           (mkTransition Rollback "1.31" 1000)).
  - split; [reflexivity|]. repeat split.
  - apply (demo_target Rollback false None "1.31" 1 31); vm_compute; reflexivity.
  - reflexivity.
  - reflexivity.
  - reflexivity.
Defined.

Lemma dry_run_recorded_as_transition_witness :
  demo_end (demo_turns "1.32" 20) (demo_upgrade Rollback "1.31" true None) = Some Completed /\
  (run (demo_turns "1.32" 20) (demo_upgrade Rollback "1.31" true None)).1 = [].
Proof.
  split; [vm_compute; reflexivity|].
  apply (dry_run_recorded_as_transition (demo_turns "1.32" 20) (demo_upgrade Rollback "1.31" true None));
    [apply demo_waiting|apply (demo_target _ _ _ _ 1 31); vm_compute; reflexivity|reflexivity].
Defined.

(** A run stuck in the Karpenter phase panics once the configuration of the
    pools is taken out of its specification. *)
Example karpenter_config_removed :
  option_map (fun r => (run (demo_turns "1.34" 1) (edit (demo_spec Forward "1.34" false None) r)).2)
    (run (demo_turns "1.32" 20) (demo_upgrade Forward "1.34" false (Some demo_karpenter))).2
  = Some None.
Proof. vm_compute. reflexivity. Qed.

Definition auth_status (s : EKSUpgradeStatus) : list string :=
  map c_status (List.filter (fun c => String.eqb (c_type c) "AWSAuthenticated") (conditions s)).

(** An authentication failure, corrected, and the specification edited: the
    upgrade then completes with its identity recorded, but the condition still
    says that the operator is not authenticated. *)
Example auth_condition_stays_false :
  option_map (fun r => (current_phase (stored_status r), is_some (identity (stored_status r)),
                        auth_status (stored_status r)))
    (match (run [(demo_cloud (Err "AccessDenied") "al2023@latest" "1.32" 1000, Stored, Stored)] (demo_upgrade Forward "1.34" false None)).2 with
     | Some r => (run (demo_turns "1.32" 20) (edit (demo_spec Forward "1.34" false None) r)).2
     | None => None
     end)
  = Some (Completed, true, ["False"]).
Proof. vm_compute. reflexivity. Qed.

(** A preflight check refuses a pinned AMI; the specification is edited to
    leave Karpenter alone.  The pools of the failed run survive the reset, and
    the new run ends in the phase that replaces their nodes, for good. *)
Example karpenter_pools_survive :
  option_map (fun r => (current_phase (stored_status r), karpenter_node_pools (spec r)))
    (match (run (repeat (demo_cloud (Ok (mkIdentity "111122223333" "arn")) "al2023@v20250101" "1.32" 1000,
                         Stored, Stored) 5)
              (demo_upgrade Forward "1.34" false (Some demo_karpenter))).2 with
     | Some r => (run (demo_turns "1.32" 40) (edit (demo_spec Forward "1.34" false None) r)).2
     | None => None
     end)
  = Some (UpgradingKarpenterNodePools, None).
Proof. vm_compute. reflexivity. Qed.
