(* ===== verification/UpgradeProgress.v ===== *)
(** * What [Completed] means

    The work a plan has left, and the components each phase has behind it: a
    run that is not a dry run is only completed with every planned component
    done. *)

From stdpp Require Import prelude list strings pretty.
From Stdlib Require Import ZArith Lia.
From S2P Require Import Prelude.
From S2P Require Import Strings.
From S2P Require Import UpgradeStatus.
From S2P Require Import KubeVersion.
From S2P Require Import Cloud.
From S2P Require Import Transition.
From S2P Require Import ControlPlane.
From S2P Require Import AddonsPhase.
From S2P Require Import NodegroupsPhase.
From S2P Require Import Karpenter.
From S2P Require Import PlanningPhase.
From S2P Require Import PreflightPhase.
From S2P Require Import Reconcile.
From S2P Require Import UpgradeInvariant.
From S2P Require Import UpgradeRun.

Open Scope kuo_scope.

(** ** The work that is left, in reconciles *)

(** A step of the control plane is asked for, then polled. *)
Definition cp_left (ps : PhaseStatuses) : nat :=
  match control_plane ps with
  | Some cp =>
      2 * Z.to_nat (total_steps cp + 1 - Z.max 1 (current_step cp))
        - (if is_some (cp_update_id cp) then 1 else 0)
  | None => 0
  end.

Definition component_left (c : ComponentStatus) : nat :=
  match c with CPending => 2 | CInProgress => 1 | _ => 0 end.

Definition addons_left (ps : PhaseStatuses) : nat :=
  sum_list_with (fun a => component_left (a_status a)) (addons ps).
Definition nodegroups_left (ps : PhaseStatuses) : nat :=
  sum_list_with (fun n => component_left (ng_status n)) (nodegroups ps).

Definition addons_done (ps : PhaseStatuses) : Prop :=
  Forall (fun a => is_done (a_status a) = true) (addons ps).
Definition nodegroups_done (ps : PhaseStatuses) : Prop :=
  Forall (fun n => is_done (ng_status n) = true) (nodegroups ps).

(** ** The components a phase has behind it *)

Record passed (mode : UpgradeMode) (p : UpgradePhase) (ps : PhaseStatuses) : Prop := {
  passed_cp : (phase_rank mode (cp_phase mode) < phase_rank mode p)%nat -> cp_left ps = 0%nat;
  passed_addons : (phase_rank mode (addon_phase mode) < phase_rank mode p)%nat -> addons_done ps;
  passed_nodegroups : (phase_rank mode (ng_phase mode) < phase_rank mode p)%nat -> nodegroups_done ps;
}.

Lemma passed_early mode p ps : (phase_rank mode p <= 3)%nat -> passed mode p ps.
Proof. intros H. destruct mode; split; cbn in *; intros; lia. Qed.

Lemma no_steps mode p s :
  planned mode p (phases s) -> has_cp_steps s = false -> cp_left (phases s) = 0%nat.
Proof.
  intros [(pl & cp & Hpl & Hcp & [Htot _ _ _ _]) _ _]. unfold has_cp_steps, cp_left.
  rewrite Hpl, Hcp, Htot. destruct (upgrade_path pl); [|done]. intros _.
  replace (Z.to_nat _) with 0%nat by (unfold zlen; cbn [length]; lia). done.
Qed.

Lemma no_addons s : has_addons s = false -> addons_done (phases s).
Proof. unfold has_addons, addons_done. destruct (addons _); [constructor|done]. Qed.
Lemma no_nodegroups s : has_nodegroups s = false -> nodegroups_done (phases s).
Proof. unfold has_nodegroups, nodegroups_done. destruct (nodegroups _); [constructor|done]. Qed.
#[export] Hint Resolve no_addons no_nodegroups : kuo.

(** Opens the routing functions and the components each branch skips. *)
Ltac skipped mode :=
  destruct mode; split; cbn in *; intros;
  repeat match goal with
  | H : context [if ?b then _ else _] |- _ => destruct b eqn:?
  end; cbn in *; try lia; auto with kuo.

Section Skip.
Context (mode : UpgradeMode) (s : EKSUpgradeStatus).
Context (Hcp : has_cp_steps s = false -> cp_left (phases s) = 0%nat).

Lemma passed_after_preflight : passed mode (after_preflight s mode) (phases s).
Proof. unfold after_preflight. skipped mode. Qed.

Lemma passed_after_control_plane :
  passed mode (cp_phase mode) (phases s) -> cp_left (phases s) = 0%nat ->
  passed mode (after_control_plane s mode) (phases s).
Proof. intros [H1 H2 H3] H. unfold after_control_plane. skipped mode; (apply H2 || apply H3); lia. Qed.

Lemma passed_after_addons :
  passed mode (addon_phase mode) (phases s) -> addons_done (phases s) ->
  passed mode (after_addons s mode) (phases s).
Proof. intros [H1 H2 H3] H. unfold after_addons. skipped mode; (apply H1 || apply H3); lia. Qed.

Lemma passed_after_nodegroups :
  passed mode (ng_phase mode) (phases s) -> nodegroups_done (phases s) ->
  passed mode (after_nodegroups s mode) (phases s).
Proof. intros [H1 H2 H3] H. unfold after_nodegroups. skipped mode; (apply H1 || apply H2); lia. Qed.
End Skip.

(** ** Completed means done *)

Lemma current_transition now p s : current_phase (transition_to now p s) = p.
Proof. unfold current_phase. by rewrite transition_to_phase. Qed.

(** The status is still in the phase of the hypothesis. *)
Ltac same_phase :=
  match goal with H : current_phase ?x = _ |- _ =>
    change (current_phase _) with (current_phase x); rewrite H end.

(** The handlers leave the components of the other phases alone. *)
Definition still_passed (mode : UpgradeMode) (s1 : EKSUpgradeStatus) : Prop :=
  current_phase s1 = Failed \/ passed mode (current_phase s1) (phases s1).

Lemma cp_still_passed mode s pl cp cs s1 rq :
  current_phase s = cp_phase mode -> planned mode (cp_phase mode) (phases s) ->
  planning (phases s) = Some pl -> control_plane (phases s) = Some cp ->
  cp_follows mode (cp_phase mode) (upgrade_path pl) cp ->
  cp_outcome mode s (upgrade_path pl) cp cs (Ok (s1, rq)) ->
  passed mode (cp_phase mode) (phases s) -> still_passed mode s1.
Proof.
  intros Hph Hplan Hpl Hcp [Htot Hshort _ _ Hrange] Ho Hpass. specialize (Hrange eq_refl).
  assert (Hsame : forall cp', passed mode (cp_phase mode) (set_control_plane (Some cp') (phases s))).
  { intros cp'. destruct Hpass as [_ H2 H3]. by split; [lia| |]. }
  inversion Ho; subst; unfold still_passed.
  - right. rewrite (map_control_plane_phases _ _ _ Hcp).
    same_phase. apply Hsame.
  - right. by rewrite Hph.
  - by left.
  - right. cbn [phases with_current_version]. rewrite (map_control_plane_phases _ _ _ Hcp).
    same_phase. apply Hsame.
  - right. unfold ControlPlane.advance_to_next_phase. rewrite current_transition, transition_to_phases.
    set (s2 := map_control_plane _ (with_current_version _ _)).
    assert (E : phases s2 = set_control_plane
                  (Some (steps_done now (step_done (current_step cp + 1) cp))) (phases s))
      by (unfold s2, map_control_plane; cbn; by rewrite Hcp).
    assert (E0 : cp_left (phases s2) = 0%nat).
    { rewrite E. unfold cp_left; cbn. rewrite Htot. by replace (Z.to_nat _) with 0%nat by lia. }
    apply passed_after_control_plane; [done| |done]. rewrite E. apply Hsame.
Qed.

Lemma addons_still_passed mode s cs s1 rq :
  current_phase s = addon_phase mode -> planned mode (addon_phase mode) (phases s) ->
  addon_outcome mode s cs (Ok (s1, rq)) ->
  passed mode (addon_phase mode) (phases s) -> still_passed mode s1.
Proof.
  intros Hph Hplan Ho Hpass. pose proof (no_steps _ _ _ Hplan) as Hno.
  assert (Hsame : forall l, passed mode (addon_phase mode) (set_addons l (phases s))).
  { intros l. destruct Hpass as [H1 _ H3]. by split; [|lia|]. }
  inversion Ho; subst; unfold still_passed; 
    [|first [by left|right; same_phase; first [apply Hsame|done]]..].
  right. unfold AddonsPhase.advance_to_next_phase. rewrite current_transition, transition_to_phases.
  by apply passed_after_addons.
Qed.

Lemma nodegroups_still_passed mode s cs s1 rq :
  current_phase s = ng_phase mode -> planned mode (ng_phase mode) (phases s) ->
  ng_outcome mode s cs (Ok (s1, rq)) ->
  passed mode (ng_phase mode) (phases s) -> still_passed mode s1.
Proof.
  intros Hph Hplan Ho Hpass. pose proof (no_steps _ _ _ Hplan) as Hno.
  assert (Hsame : forall l, passed mode (ng_phase mode) (set_nodegroups l (phases s))).
  { intros l. destruct Hpass as [H1 H2 _]. by split; [| |lia]. }
  inversion Ho; subst; unfold still_passed; 
    [|first [by left|right; same_phase; first [apply Hsame|done]]..].
  right. rewrite current_transition, transition_to_phases. by apply passed_after_nodegroups.
Qed.

Lemma planning_still_passed w sp s cs s1 :
  fresh_phases (phases s) -> PlanningPhase.execute w sp s = (cs, Ok s1) ->
  still_passed (upgrade_mode sp) s1.
Proof.
  intros (_ & _ & _ & _ & _) H. unfold PlanningPhase.execute, reject_consecutive_rollback in H.
  destruct (negb _); cbn iota zeta in H; [|injection H as _ <-; by left].
  apply bind_inv_ok in H as (? & plan & ? & _ & H & _).
  apply bind_inv_ok in H as (? & karpenter & ? & _ & H & _). right.
  destruct (plan_is_empty plan) eqn:Ee; [destruct karpenter|]; injection H as _ <-;
    [|change (current_phase _) with PreflightChecking; apply passed_early;
      destruct (upgrade_mode sp); cbn; lia..].
  unfold plan_is_empty in Ee. destruct (plan_path plan) eqn:E1; [|done].
  destruct (addon_upgrades plan) eqn:E2; [|done]. destruct (nodegroup_upgrades plan) eqn:E3; [|done].
  change (phases _) with (phases (populate sp plan s)).
  split; intros _; unfold cp_left, addons_done, nodegroups_done; cbn; rewrite ?E1, ?E2, ?E3;
    first [done|constructor].
Qed.

Lemma preflight_still_passed w sp s cs s1 :
  planned (upgrade_mode sp) PreflightChecking (phases s) -> dry_run sp = false ->
  PreflightPhase.execute w sp s = (cs, Ok s1) -> still_passed (upgrade_mode sp) s1.
Proof.
  intros Hplan Hdry H. unfold PreflightPhase.execute in H.
  apply bind_inv_ok in H as (? & p & ? & _ & H & _). rewrite Hdry in H.
  destruct (has_mandatory_failures p); injection H as _ <-; [by left|]. right.
  rewrite current_transition, transition_to_phases. apply passed_after_preflight.
  exact (no_steps _ _ s Hplan).
Qed.

Lemma dispatch_passed w sp s cs s1 rq :
  dry_run sp = false -> is_Some (rank (upgrade_mode sp) (current_phase s)) ->
  stage (upgrade_mode sp) (current_phase s) (phases s) ->
  terminal (current_phase s) = false -> current_phase s <> UpgradingKarpenterNodePools ->
  passed (upgrade_mode sp) (current_phase s) (phases s) ->
  dispatch w sp (current_phase s) s = (cs, Ok (s1, rq)) -> still_passed (upgrade_mode sp) s1.
Proof.
  intros Hdry Hr Hst Hterm Hk Hpass Hd.
  destruct (phase_cases _ _ Hr Hterm Hk) as [E|[E|[E|[E|[E|E]]]]]; rewrite E in *.
  - injection Hd as _ <- _. right. apply passed_early. destruct (upgrade_mode sp); cbn; lia.
  - apply bind_inv_ok in Hd as (? & s2 & ? & Hd & [= _ -> _] & _). by eapply planning_still_passed.
  - apply bind_inv_ok in Hd as (? & s2 & ? & Hd & [= _ -> _] & _).
    eapply preflight_still_passed; [apply Hst|done..].
  - apply stage_working in Hst as [_ Hst]; [|auto with kuo].
    destruct (planned_cp _ _ _ Hst) as (pl & cp & Hpl & Hcp & Hf).
    rewrite dispatch_cp in Hd. eapply cp_execute_outcome in Hd; [|done..].
    by eapply cp_still_passed.
  - apply stage_working in Hst as [_ Hst]; [|auto with kuo].
    rewrite dispatch_addons in Hd. eapply addons_execute_outcome in Hd; [|by apply Hst].
    by eapply addons_still_passed.
  - apply stage_working in Hst as [_ Hst]; [|auto with kuo].
    rewrite dispatch_nodegroups in Hd. eapply nodegroups_execute_outcome in Hd.
    2:{ eapply Forall_impl; [apply Hst|]. by intros n [H _]. }
    by eapply nodegroups_still_passed.
Qed.

(** C10: [Completed] is only reported when everything planned is done.  In a
    run that is not a dry run, whatever fails on the way, a resource that is
    [Completed] has no step of the control plane left, and every add-on and
    every node group of its plan is done. *)
Theorem completed_means_done ts r cs r' :
  waiting r -> target_in_range (spec r) -> dry_run (spec r) = false ->
  run ts r = (cs, Some r') -> current_phase (stored_status r') = Completed ->
  cp_left (phases (stored_status r')) = 0%nat /\
  addons_done (phases (stored_status r')) /\ nodegroups_done (phases (stored_status r')).
Proof.
  intros Hw Ht Hdry Hrun Hc.
  assert (H : still_passed (upgrade_mode (spec r)) (stored_status r')).
  { assert (H : forall r', (run ts r).2 = Some r' -> still_passed (upgrade_mode (spec r)) (stored_status r')).
    { apply (run_ind_invariant (fun _ r o => dry_run (spec r) = false ->
        still_passed (upgrade_mode (spec r)) (stored_status r) -> forall r', o.2 = Some r' ->
        still_passed (upgrade_mode (spec r)) (stored_status r')));
        [by intros ? _ ? ? ? [= <-]| |done|done|by apply waiting_invariant|done|].
      2:{ right. rewrite (proj1 Hw). apply passed_early. destruct (upgrade_mode (spec r)); cbn; lia. }
      clear. intros w a b ts r s' cs act o _ [Hr Hst _] _ Hturn _ _ IH Hdry Hs. apply IH; [done|].
      change (stored_status (mkUpgrade _ _ (Some s'))) with s'. cbn [spec].
      assert (Hun : unchanged (stored_status r) s' -> still_passed (upgrade_mode (spec r)) s').
      { intros (E & _ & [Ep|Ep]); unfold still_passed, current_phase; rewrite E, Ep; [exact Hs|by left]. }
      inversion Hturn as [Hu|? res Hterm Hk Hd Hu|? s1 rq Hterm Hk Hd Hp Hps _ _]; subst; [auto|auto|].
      destruct Hs as [Hs|Hs]; [by rewrite Hs in Hterm|].
      eapply dispatch_passed in Hd; [|done..]. unfold still_passed, current_phase.
      by rewrite Hp, Hps. }
    apply H. by rewrite Hrun. }
  destruct H as [H|[H1 H2 H3]]; [congruence|]. rewrite Hc in *.
  split; [apply H1|split; [apply H2|apply H3]]; destruct (upgrade_mode (spec r)); cbn; lia.
Qed.
