(* ===== verification/UpgradeLiveness.v ===== *)
(** * An upgrade is completed

    A run in which the services answer and the patches are stored is completed
    after a number of reconciles that the size of the plan bounds, when it has
    no Karpenter nodes to replace. *)

From stdpp Require Import prelude list strings pretty.
From Stdlib Require Import ZArith Lia.
From S2P Require Import Prelude.
From S2P Require Import Strings.
From S2P Require Import UpgradeStatus.
From S2P Require Import KubeVersion.
From S2P Require Import Cloud.
From S2P Require Import Transition.
From S2P Require Import ControlPlane.
From S2P Require Import AddonsPhase.
From S2P Require Import NodegroupsPhase.
From S2P Require Import Karpenter.
From S2P Require Import PlanningPhase.
From S2P Require Import PreflightPhase.
From S2P Require Import Reconcile.
From S2P Require Import UpgradeInvariant.
From S2P Require Import UpgradeRun.
From S2P Require Import UpgradeProgress.

Open Scope kuo_scope.

(** ** Favourable conditions *)

(** The services answer, no check fails, the add-on versions are ordered, no
    update fails, and the plan has at
    most [n] components and steps. *)
Record helpful (n : nat) (sp : EKSUpgradeSpec) (w : World) : Prop := {
  help_aws : aws_clients w = Ok tt;
  help_identity : exists i, verify_identity w = Ok i;
  help_plan : exists c path names groups,
    describe_cluster w (cluster_name sp) = Ok (Some c) /\ deletion_protection c <> Some false /\
    path_for sp (ci_version c) = Ok path /\ addon_names w (cluster_name sp) = Ok names /\
    nodegroup_names w (cluster_name sp) = Ok groups /\
    (length path + length names + length groups <= n)%nat;
  help_versions : forall a v, exists l, describe_addon_versions w a v = Ok l;
  help_orderly : orderly w;
  help_insights : forall c l, insights w (cluster_name sp) c = Ok l ->
    Forall (fun i => is_critical (default "UNKNOWN" (insight_status i)) = false) l;
  help_pdbs : forall total blocking, (check_pdbs w).2 = Ok (total, blocking) -> blocking = [];
  help_cluster : forall v, exists id, update_cluster_version w (cluster_name sp) v = Ok id;
  help_cluster_status : forall id, exists st, check_update_status w (cluster_name sp) id = Ok st /\
    st <> "Failed" /\ st <> "Cancelled";
  help_addon : forall a v, exists id, update_addon w (cluster_name sp) a v = Ok id;
  help_addon_status : forall a, exists st, poll_addon_status w (cluster_name sp) a = Ok st /\
    addon_failed st = false;
  help_nodegroup : forall g v, exists id, update_nodegroup_version w (cluster_name sp) g v = Ok id;
  help_nodegroup_status : forall g id, exists st,
    poll_nodegroup_update w (cluster_name sp) g id = Ok st /\ st <> "Failed" /\ st <> "Cancelled";
}.

(** Every update asked for is over. *)
Record swift (sp : EKSUpgradeSpec) (w : World) : Prop := {
  swift_cluster : forall id, check_update_status w (cluster_name sp) id = Ok "Successful";
  swift_addon : forall a, poll_addon_status w (cluster_name sp) a = Ok "ACTIVE";
  swift_nodegroup : forall g id, poll_nodegroup_update w (cluster_name sp) g id = Ok "Successful";
}.

(** No update has run out of time. *)
Definition in_time (sp : EKSUpgradeSpec) (w : World) (s : EKSUpgradeStatus) : Prop :=
  (forall cp, control_plane (phases s) = Some cp ->
     timed_out (now w) (cp_started_at cp)
       (match timeouts sp with Some t => control_plane_minutes t | None => 30 end) = None) /\
  Forall (fun g => timed_out (now w) (ng_started_at g)
     (match timeouts sp with Some t => nodegroup_minutes t | None => 60 end) = None)
    (nodegroups (phases s)).

(** A run in such conditions, with [k] turns that find every update over. *)
Inductive favourable (n : nat) : nat -> list Turn -> EKSUpgrade -> Prop :=
| FavEnd r : favourable n 0 [] r
| FavSlow k w ts r : helpful n (spec r) w -> in_time (spec r) w (stored_status r) ->
    favourable n k ts (after_reconcile r (reconcile w Stored Stored r)) ->
    favourable n k ((w, Stored, Stored) :: ts) r
| FavSwift k w ts r : helpful n (spec r) w -> in_time (spec r) w (stored_status r) ->
    swift (spec r) w ->
    favourable n k ts (after_reconcile r (reconcile w Stored Stored r)) ->
    favourable n (S k) ((w, Stored, Stored) :: ts) r.

Definition no_karpenter (sp : EKSUpgradeSpec) : Prop :=
  match karpenter_node_pools sp with Some cfg => enabled cfg = false | None => True end.

(** The reconciles left in a phase, at most. *)
Definition work_at (n : nat) (p : UpgradePhase) (ps : PhaseStatuses) : nat :=
  match p with
  | Pending => 2 * n + 5
  | Planning => 2 * n + 4
  | PreflightChecking => 3 + cp_left ps + addons_left ps + nodegroups_left ps
  | UpgradingControlPlane => cp_left ps + S (addons_left ps) + S (nodegroups_left ps)
  | UpgradingAddons => S (addons_left ps) + S (nodegroups_left ps)
  | UpgradingNodeGroups => S (nodegroups_left ps)
  | RollingBackNodeGroups => S (nodegroups_left ps) + S (addons_left ps) + cp_left ps
  | RollingBackAddons => S (addons_left ps) + cp_left ps
  | RollingBackControlPlane => cp_left ps
  | _ => 0
  end.

Definition work (n : nat) (s : EKSUpgradeStatus) : nat := work_at n (current_phase s) (phases s).

(** ** Planning *)

Lemma each_ok {A B} (f : A -> M B) l :
  (forall a, exists b, f a = ([], Ok b)) ->
  exists bs, each f l = ([], Ok bs) /\ length bs = length l.
Proof.
  intros Hf. induction l as [|a l (bs & IH & Hl)]; [by exists []|].
  destruct (Hf a) as [b Hb]. exists (b :: bs). cbn [each]. rewrite Hb. cbn. rewrite IH. cbn.
  by rewrite Hl.
Qed.

Lemma length_omap {A B} (f : A -> option B) l : (length (omap f l) <= length l)%nat.
Proof. induction l as [|a l IH]; cbn; [lia|]. destruct (f a); cbn; lia. Qed.

Section Helpful.
Context (n : nat) (sp : EKSUpgradeSpec) (w : World) (Hhelp : helpful n sp w).

Lemma helpful_latest a v : exists x, get_latest_compatible_version w a v = ([], Ok x).
Proof.
  unfold get_latest_compatible_version, get_compatible_versions.
  destruct (help_versions _ _ _ Hhelp a v) as [l Hl]. rewrite Hl. cbn. unfold sort_versions.
  rewrite (help_orderly _ _ _ Hhelp _ _ _ Hl). by eexists.
Qed.

Lemma helpful_addons names :
  addon_names w (cluster_name sp) = Ok names ->
  exists ups, match upgrade_mode sp with
              | Forward => plan_addon_upgrades w (cluster_name sp) (target_version sp)
                             (default [] (addon_versions sp))
              | Rollback => plan_addon_rollbacks w (cluster_name sp) (target_version sp)
                              (default [] (addon_versions sp))
              end = ([], Ok ups) /\ (length ups <= length names)%nat.
Proof.
  intros Hn. set (infos := successes (describe_addon w (cluster_name sp)) names).
  assert (Hinfos : (length infos <= length names)%nat) by apply length_omap.
  assert (Hlist : list_addons w (cluster_name sp) = ([], Ok infos))
    by (unfold list_addons; by rewrite Hn).
  unfold plan_addon_upgrades, plan_addon_rollbacks. rewrite Hlist, !bind_done.
  assert (Hmap : forall f : AddonInfo -> M (option (AddonInfo * string)),
    (forall a, exists b, f a = ([], Ok b)) ->
    exists ups, (do! planned := each f infos in ret (omap id planned)) = ([], Ok ups) /\
                (length ups <= length names)%nat).
  { intros f Hf. destruct (each_ok f infos Hf) as (bs & Hb & Hl). rewrite Hb. cbn.
    eexists. split; [done|]. pose proof (length_omap id bs). lia. }
  destruct (upgrade_mode sp); apply Hmap; intros a; unfold addon_upgrade, addon_rollback;
    destruct (helpful_latest (ai_name a) (target_version sp)) as [x Hx].
  - destruct (lookup_version _ _); cbn; [by eexists|]. rewrite Hx. cbn. by destruct x; eexists.
  - cbv zeta. destruct (is_some _); cbn; [by eexists|]. rewrite Hx. cbn. by eexists.
Qed.

Lemma helpful_create_plan :
  exists plan, create_upgrade_plan w sp = ([], Ok plan) /\
    (length (plan_path plan) + length (addon_upgrades plan) + length (nodegroup_upgrades plan) <= n)%nat.
Proof.
  destruct (help_plan _ _ _ Hhelp) as (c & path & names & groups & Hc & _ & Hp & Hn & Hg & Hle).
  destruct (helpful_addons names Hn) as (ups & Hups & Hul).
  unfold create_upgrade_plan. cbv zeta. rewrite Hc. cbn [lift map_err bind need ret app].
  unfold path_for in Hp. rewrite Hups. unfold plan_nodegroup_upgrades, list_nodegroups. rewrite Hg.
  destruct (upgrade_mode sp); rewrite Hp; cbn; (eexists; split; [done|]); cbn;
    pose proof (length_filter (fun ng => ngi_version ng <> Some (target_version sp))
      (successes (describe_nodegroup w (cluster_name sp)) groups));
    pose proof (length_omap (fun a => match describe_nodegroup w (cluster_name sp) a with
                                      | Ok o => o | Err _ => None end) groups);
    unfold successes in *; lia.
Qed.

(** A plan just made has [2 * n] reconciles of updates at most. *)
Lemma populate_left plan s :
  let ps := phases (populate sp plan s) in
  (cp_left ps + addons_left ps + nodegroups_left ps
   <= 2 * (length (plan_path plan) + length (addon_upgrades plan) + length (nodegroup_upgrades plan)))%nat.
Proof.
  cbn zeta. unfold cp_left, addons_left, nodegroups_left. cbn.
  assert (H : 0 <= zlen (plan_path plan) mod 2 ^ 32 <= zlen (plan_path plan)).
  { pose proof (zlen_nonneg (plan_path plan)). split; [by apply Z.mod_pos_bound|by apply Z.mod_le]. }
  unfold zlen in *. set (total := Z.of_nat _ mod 2 ^ 32) in *.
  assert (Ha : forall l, sum_list_with (fun a => component_left (a_status a)) (map planned_addon l)
                         = (2 * length l)%nat) by (induction l; cbn in *; lia).
  assert (Hn : forall l, sum_list_with (fun g => component_left (ng_status g))
                 (map (planned_nodegroup (target_version sp)) l) = (2 * length l)%nat)
    by (induction l; cbn in *; lia).
  rewrite Ha, Hn. destruct (0 <? _); lia.
Qed.

Lemma planning_progress s :
  no_karpenter sp -> is_consecutive_rollback (upgrade_mode sp) (last_transition s) = false ->
  karpenter_pools (phases s) = None ->
  exists s1, PlanningPhase.execute w sp s = ([], Ok s1) /\ karpenter_pools (phases s1) = None /\
    (current_phase s1 = Completed \/ current_phase s1 = PreflightChecking) /\
    (work n s1 <= 2 * n + 3)%nat.
Proof.
  intros Hk Hguard Hnone. unfold PlanningPhase.execute, reject_consecutive_rollback. rewrite Hguard.
  cbn [negb]. destruct (helpful_create_plan) as (plan & Hplan & Hle). rewrite Hplan, bind_done.
  assert (Hpk : plan_karpenter w sp = ([], Ok [])).
  { unfold plan_karpenter. unfold no_karpenter in Hk. destruct (karpenter_node_pools sp); [|done].
    by rewrite Hk. }
  rewrite Hpk, bind_done. cbv zeta. pose proof (populate_left plan s) as Hleft. cbn zeta in Hleft.
  destruct (plan_is_empty plan); eexists; (split; [reflexivity|]); (split; [done|]);
    (split; [first [by left|by right]|]); [cbn; lia|]. unfold work.
  change (current_phase _) with PreflightChecking. cbn [work_at].
  change (phases _) with (phases (populate sp plan s)). lia.
Qed.

(** ** Preflight *)

Lemma push_check_failures c p :
  failed c = false -> has_mandatory_failures (push_check c p) = has_mandatory_failures p.
Proof.
  unfold has_mandatory_failures, push_check. cbn. intros H. rewrite existsb_app. cbn. rewrite H.
  by rewrite !orb_false_r.
Qed.

Lemma no_critical l acc :
  Forall (fun i => is_critical (default "UNKNOWN" (insight_status i)) = false) l ->
  critical_count (fold_left count_insight l acc) = critical_count acc.
Proof.
  intros H. revert acc. induction H as [|i l Hi H IH]; intros acc; [done|]. cbn. rewrite IH.
  unfold count_insight. rewrite Hi. by repeat case_match.
Qed.

Lemma insights_pass p :
  exists p', (insights_check w sp p).2 = Ok p' /\ has_mandatory_failures p' = has_mandatory_failures p.
Proof.
  unfold insights_check. cbv zeta. rewrite bind_snd. cbn [attempt snd].
  unfold list_insights. rewrite bind_snd.
  destruct (insights w _ _) as [l|e] eqn:E; cbn; [|eexists; by split].
  eexists. split; [done|]. apply push_check_failures. unfold failed, cluster_insights, has_critical_blockers.
  rewrite no_critical by (eapply help_insights; eauto). done.
Qed.

Lemma pdbs_pass s p :
  exists p', (pdb_check w sp s p).2 = Ok p' /\ has_mandatory_failures p' = has_mandatory_failures p.
Proof.
  unfold pdb_check. destruct (nodegroups _); [by eexists|]. rewrite bind_snd. cbn [attempt snd].
  destruct ((resolve_client w sp).2) as [u|e]; [|by eexists]. rewrite bind_snd.
  cbn [attempt snd]. destruct ((check_pdbs w).2) as [[total blocking]|e] eqn:E; [|by eexists].
  rewrite (help_pdbs _ _ _ Hhelp _ _ E). eexists. split; [done|]. by apply push_check_failures.
Qed.

Lemma preflight_passes s :
  no_karpenter sp -> exists p, (run_checks w sp s).2 = Ok p /\ has_mandatory_failures p = false.
Proof.
  intros Hk. unfold run_checks. rewrite bind_snd.
  destruct (insights_pass (mkResults [] [])) as (p1 & -> & H1). rewrite bind_snd.
  destruct (help_plan _ _ _ Hhelp) as (c & _ & _ & _ & Hc & Hd & _). rewrite Hc. cbn [lift snd map_err].
  rewrite bind_snd. cbn [need ret snd]. cbv zeta. rewrite bind_snd.
  set (p2 := match deletion_protection c with Some _ => _ | None => _ end).
  assert (H2 : has_mandatory_failures p2 = false).
  { transitivity (has_mandatory_failures p1); [|by rewrite H1]. unfold p2. destruct (deletion_protection c) as [[|]|]; [|done|done].
    by apply push_check_failures. }
  destruct (pdbs_pass s p2) as (p3 & -> & H3). unfold karpenter_check, no_karpenter in *.
  destruct (karpenter_node_pools sp); [rewrite Hk|]; exists p3; (split; [done|congruence]).
Qed.

(** ** The handlers *)

(** A handler does not fail, and leaves less work when the update it polls,
    if any, is over. *)
Record moved (s : EKSUpgradeStatus) (s1 : EKSUpgradeStatus) : Prop := {
  moved_phase : current_phase s1 <> Failed /\ current_phase s1 <> UpgradingKarpenterNodePools;
  moved_karpenter : karpenter_pools (phases s1) = None;
  moved_last : current_phase s1 = Pending \/ current_phase s1 = Planning ->
    last_transition s1 = last_transition s;
  moved_work : (work n s1 <= work n s)%nat;
  moved_swift : swift sp w -> (work n s1 < work n s)%nat;
}.

(** A phase a run in such conditions goes on to. *)
Definition onward (p : UpgradePhase) : bool :=
  match p with Pending | Planning | UpgradingKarpenterNodePools | Failed => false | _ => true end.

Lemma no_pools s : karpenter_pools (phases s) = None -> has_karpenter s = false.
Proof. unfold has_karpenter. by intros ->. Qed.

(** Every routing function goes on with less work, and not to Karpenter. *)
Ltac routed mode :=
  rewrite ?no_pools by done; destruct mode;
  repeat match goal with |- context [if ?b then _ else _] => destruct b end;
  cbn; (split; [lia|done]).

Lemma route_preflight mode s :
  karpenter_pools (phases s) = None ->
  let p := after_preflight s mode in
  (work_at n p (phases s) < work_at n PreflightChecking (phases s))%nat /\
  onward p = true.
Proof. intros H. unfold after_preflight. cbn zeta. routed mode. Qed.

Lemma route_control_plane mode s ps :
  karpenter_pools (phases s) = None -> addons (phases s) = addons ps ->
  nodegroups (phases s) = nodegroups ps -> (0 < cp_left ps)%nat ->
  let p := after_control_plane s mode in
  (work_at n p (phases s) < work_at n (cp_phase mode) ps)%nat /\
  onward p = true.
Proof.
  intros H Ha Hn Hpos. assert (addons_left (phases s) = addons_left ps) by (unfold addons_left; by rewrite Ha).
  assert (nodegroups_left (phases s) = nodegroups_left ps) by (unfold nodegroups_left; by rewrite Hn).
  unfold after_control_plane. cbn zeta. routed mode.
Qed.

Lemma route_addons mode s :
  karpenter_pools (phases s) = None ->
  let p := after_addons s mode in
  (work_at n p (phases s) < work_at n (addon_phase mode) (phases s))%nat /\
  onward p = true.
Proof. intros H. unfold after_addons. cbn zeta. routed mode. Qed.

Lemma route_nodegroups mode s :
  karpenter_pools (phases s) = None ->
  let p := after_nodegroups s mode in
  (work_at n p (phases s) < work_at n (ng_phase mode) (phases s))%nat /\
  onward p = true.
Proof. intros H. unfold after_nodegroups. cbn zeta. routed mode. Qed.

Lemma moved_onward s s1 :
  onward (current_phase s1) = true -> karpenter_pools (phases s1) = None ->
  (work n s1 < work n s)%nat -> moved s s1.
Proof.
  intros Ho Hk Hlt. split; [|done| |lia|lia]; destruct (current_phase s1); try done; by intros [|].
Qed.

Lemma moved_transition s s1 p :
  karpenter_pools (phases s1) = None ->
  (work_at n p (phases s1) < work n s)%nat /\ onward p = true ->
  moved s (transition_to (now w) p s1).
Proof.
  intros Hk [Hlt Ho]. apply moved_onward; [by rewrite current_transition|by rewrite transition_to_phases|].
  unfold work at 1. by rewrite current_transition, transition_to_phases.
Qed.

Lemma planning_moved s :
  current_phase s = Planning -> no_karpenter sp ->
  is_consecutive_rollback (upgrade_mode sp) (last_transition s) = false ->
  karpenter_pools (phases s) = None ->
  exists s1, PlanningPhase.execute w sp s = ([], Ok s1) /\ moved s s1.
Proof.
  intros Hp Hk Hguard Hnone.
  destruct (planning_progress s Hk Hguard Hnone) as (s1 & E & Hk1 & Hph & Hle).
  exists s1. split; [done|]. apply moved_onward; [by destruct Hph as [->| ->]|done|].
  unfold work at 2. rewrite Hp. cbn. lia.
Qed.

Lemma preflight_moved s :
  current_phase s = PreflightChecking -> no_karpenter sp -> karpenter_pools (phases s) = None ->
  exists s1, (PreflightPhase.execute w sp s).2 = Ok s1 /\ moved s s1.
Proof.
  intros Hp Hk Hnone. destruct (preflight_passes s Hk) as (p & Hrun & Hpass).
  unfold PreflightPhase.execute. rewrite bind_snd, Hrun, Hpass. cbv zeta.
  set (s' := with_phases _ s).
  assert (Hw : work n s = work_at n PreflightChecking (phases s')) by (unfold work; by rewrite Hp).
  destruct (dry_run sp); (eexists; split; [reflexivity|]).
  - apply moved_onward; [done|done|]. rewrite Hw. cbn. lia.
  - apply moved_transition; [done|]. rewrite Hw. by apply route_preflight.
Qed.

(** ** Add-ons and node groups *)

Lemma sum_alter {A} (f : A -> nat) (g : A -> A) i l x :
  l !! i = Some x -> (f (g x) < f x)%nat -> (sum_list_with f (alter g i l) < sum_list_with f l)%nat.
Proof.
  revert i. induction l as [|y l IH]; intros [|i] Hi Hlt; cbn in *; simplify_eq; [lia|].
  specialize (IH i Hi Hlt). lia.
Qed.

Lemma moved_stay s s1 p :
  current_phase s = p -> current_phase s1 = p -> onward p = true ->
  karpenter_pools (phases s1) = None ->
  (work_at n p (phases s1) < work_at n p (phases s))%nat -> moved s s1.
Proof.
  intros E E1 Ho Hk Hlt. apply moved_onward; [by rewrite E1|done|]. unfold work. by rewrite E, E1.
Qed.

Lemma moved_wait s :
  onward (current_phase s) = true -> karpenter_pools (phases s) = None ->
  (swift sp w -> False) -> moved s s.
Proof. intros Ho Hk Hs. split; [by destruct (current_phase s)|done|done|lia|by intros ?%Hs]. Qed.

Lemma addons_moved s :
  current_phase s = addon_phase (upgrade_mode sp) -> karpenter_pools (phases s) = None ->
  Forall (fun a => a_status a <> CFailed) (addons (phases s)) ->
  exists s1 rq, (AddonsPhase.execute w sp s).2 = Ok (s1, rq) /\ moved s s1.
Proof.
  intros Hp Hk Hf. unfold AddonsPhase.execute.
  assert (Ho : onward (addon_phase (upgrade_mode sp)) = true) by (by destruct (upgrade_mode sp)).
  assert (Hstep : forall i a f, addons (phases s) !! i = Some a ->
    (component_left (a_status (f a)) < component_left (a_status a))%nat ->
    moved s (AddonsPhase.map_addon i f s)).
  { intros i a f Hi Hlt. apply (moved_stay _ _ (addon_phase (upgrade_mode sp))); try done.
    pose proof (sum_alter (fun a => component_left (a_status a)) f i _ a Hi Hlt).
    destruct (upgrade_mode sp); cbn; unfold addons_left; cbn; unfold nodegroups_left, cp_left; cbn; lia. }
  destruct (first_undone _ _) as [[i a]|] eqn:E.
  2:{ do 2 eexists. split; [reflexivity|]. apply moved_transition; [done|].
      unfold work. rewrite Hp. by apply route_addons. }
  apply first_undone_Some in E as [Hi Hd]. pose proof (Forall_lookup_1 _ _ _ _ Hf Hi) as Hne.
  cbn beta in Hne. destruct (a_status a) eqn:Ea; try done.
  - destruct (help_addon _ _ _ Hhelp (a_name a) (a_target_version a)) as [id ->].
    do 2 eexists. split; [reflexivity|]. apply (Hstep i a); [done|]. rewrite Ea. cbn. lia.
  - destruct (help_addon_status _ _ _ Hhelp (a_name a)) as (st & Hst & Hfail). rewrite Hst.
    do 2 eexists. split; [rewrite bind_snd; cbn; f_equal; apply surjective_pairing|].
    unfold AddonsPhase.apply_addon_poll_result. rewrite Hfail.
    destruct (String.eqb_spec st "ACTIVE") as [_|Hna].
    + apply (Hstep i a); [done|]. rewrite Ea. cbn. lia.
    + change (moved s s). apply moved_wait; [by rewrite Hp|done|]. intros Hs.
      rewrite (swift_addon _ _ Hs) in Hst. congruence.
Qed.

Lemma nodegroups_moved s :
  current_phase s = ng_phase (upgrade_mode sp) -> karpenter_pools (phases s) = None ->
  Forall (fun g => ng_status g <> CFailed) (nodegroups (phases s)) -> in_time sp w s ->
  exists s1 rq, (NodegroupsPhase.execute w sp s).2 = Ok (s1, rq) /\ moved s s1.
Proof.
  intros Hp Hk Hf [_ Htime]. unfold NodegroupsPhase.execute, NodegroupsPhase.find_active_nodegroup.
  assert (Ho : onward (ng_phase (upgrade_mode sp)) = true) by (by destruct (upgrade_mode sp)).
  assert (Hstep : forall i g f, nodegroups (phases s) !! i = Some g ->
    (component_left (ng_status (f g)) < component_left (ng_status g))%nat ->
    moved s (NodegroupsPhase.map_nodegroup i f s)).
  { intros i g f Hi Hlt. apply (moved_stay _ _ (ng_phase (upgrade_mode sp))); try done.
    pose proof (sum_alter (fun g => component_left (ng_status g)) f i _ g Hi Hlt).
    destruct (upgrade_mode sp); cbn; unfold nodegroups_left; cbn; unfold addons_left, cp_left; cbn; lia. }
  destruct (first_undone _ _) as [[i g]|] eqn:E.
  2:{ do 2 eexists. split; [reflexivity|]. apply moved_transition; [done|].
      unfold work. rewrite Hp. by apply route_nodegroups. }
  apply first_undone_Some in E as [Hi Hd]. pose proof (Forall_lookup_1 _ _ _ _ Hf Hi) as Hne.
  pose proof (Forall_lookup_1 _ _ _ _ Htime Hi) as Hnt. cbn beta in Hne, Hnt.
  destruct (ng_status g) eqn:Eg; try done.
  - destruct (help_nodegroup _ _ _ Hhelp (ng_name g) (ng_target_version g)) as [id ->].
    do 2 eexists. split; [reflexivity|]. apply (Hstep i g); [done|]. rewrite Eg. cbn. lia.
  - cbv zeta. rewrite Hnt.
    destruct (help_nodegroup_status _ _ _ Hhelp (ng_name g) (default "unknown" (ng_update_id g)))
      as (st & Hst & Hnf & Hnc). rewrite Hst.
    do 2 eexists. split; [rewrite bind_snd; cbn; f_equal; apply surjective_pairing|].
    unfold NodegroupsPhase.apply_poll_result.
    destruct (String.eqb_spec st "Successful") as [_|Hna].
    + apply (Hstep i g); [done|]. rewrite Eg. cbn. lia.
    + rewrite (proj2 (String.eqb_neq _ _) Hnf), (proj2 (String.eqb_neq _ _) Hnc).
      change (moved s s). apply moved_wait; [by rewrite Hp|done|]. intros Hs.
      rewrite (swift_nodegroup _ _ Hs) in Hst. congruence.
Qed.

(** ** The control plane *)

Lemma cp_left_range ps cp :
  control_plane ps = Some cp -> 1 <= current_step cp <= total_steps cp ->
  cp_left ps = (2 * Z.to_nat (total_steps cp + 1 - current_step cp)
                - (if is_some (cp_update_id cp) then 1 else 0))%nat.
Proof. intros H Hr. unfold cp_left. rewrite H. by replace (Z.max 1 (current_step cp)) with (current_step cp) by lia. Qed.

Lemma control_plane_moved s :
  current_phase s = cp_phase (upgrade_mode sp) -> karpenter_pools (phases s) = None ->
  planned (upgrade_mode sp) (cp_phase (upgrade_mode sp)) (phases s) -> in_time sp w s ->
  exists s1 rq, (ControlPlane.execute w sp s).2 = Ok (s1, rq) /\ moved s s1.
Proof.
  intros Hp Hk [(pl & cp & Hpl & Hcp & [Htot Hshort _ _ Hrange]) _ _] [Htime _].
  specialize (Hrange eq_refl). specialize (Htime cp Hcp).
  assert (Ho : onward (cp_phase (upgrade_mode sp)) = true) by (by destruct (upgrade_mode sp)).
  assert (Hleft := cp_left_range _ _ Hcp ltac:(lia)).
  assert (Hpos : (0 < cp_left (phases s))%nat) by (rewrite Hleft; destruct (is_some _); lia).
  assert (Hstep : forall s1 cp', current_phase s1 = current_phase s ->
    phases s1 = set_control_plane (Some cp') (phases s) ->
    (cp_left (phases s1) < cp_left (phases s))%nat -> moved s s1).
  { intros s1 cp' E1 E2 Hlt. apply (moved_stay _ _ (cp_phase (upgrade_mode sp))); try done;
      [by rewrite E1|by rewrite E2|].
    destruct (upgrade_mode sp); cbn; unfold addons_left, nodegroups_left; rewrite E2 in *; cbn in *; lia. }
  unfold ControlPlane.execute. rewrite Hcp, Hpl. cbn [need].
  rewrite bind_ret. cbv zeta.
  rewrite (proj2 (Z.ltb_ge _ _)) by lia. rewrite Z.mod_small by (unfold u32_max in Hshort; lia).
  destruct (lookup_lt_is_Some_2 (upgrade_path pl) (Z.to_nat (current_step cp - 1))) as [v Hv];
    [unfold zlen in *; lia|].
  rewrite Hv. cbn [need]. rewrite bind_ret. destruct (cp_update_id cp) as [id|] eqn:Hid.
  2:{ destruct (help_cluster _ _ _ Hhelp v) as [id ->]. do 2 eexists. split; [reflexivity|].
      eapply Hstep; [done|by apply map_control_plane_phases|].
      rewrite Hleft, (map_control_plane_phases _ _ _ Hcp). unfold cp_left. cbn.
      rewrite Z.max_r by lia. lia. }
  rewrite Htime. destruct (help_cluster_status _ _ _ Hhelp id) as (st & Hst & Hnf & Hnc). rewrite Hst.
  unfold lift. cbn [map_err]. rewrite bind_done. unfold process_update_result. rewrite Hcp. unfold u32_wrapping_add.
  rewrite Z.mod_small by (unfold u32_max in Hshort; lia).
  destruct (String.eqb_spec st "Successful") as [_|Hna]; cbn zeta.
  2:{ rewrite (proj2 (String.eqb_neq _ _) Hnf), (proj2 (String.eqb_neq _ _) Hnc). cbn [orb].
      do 2 eexists. split; [reflexivity|]. apply moved_wait; [by rewrite Hp|done|]. intros Hs.
      rewrite (swift_cluster _ _ Hs) in Hst. congruence. }
  set (s' := with_current_version _ _).
  assert (E' : phases s' = set_control_plane (Some (step_done (current_step cp + 1) cp)) (phases s))
    by (unfold s'; cbn; by rewrite Hcp).
  destruct (total_steps cp <? current_step cp + 1) eqn:Elast; bool_to_prop.
  - do 2 eexists. split; [reflexivity|]. unfold ControlPlane.advance_to_next_phase. cbn zeta.
    apply moved_transition; [unfold s'; cbn; by rewrite Hk|]. unfold work. rewrite Hp.
    apply route_control_plane; unfold s'; cbn; by rewrite ?Hk.
  - do 2 eexists. split; [reflexivity|]. eapply Hstep; [done|exact E'|]. rewrite E', Hleft.
    unfold cp_left. cbn. rewrite Z.max_r by lia. lia.
Qed.

(** ** One reconcile *)

Lemma dispatch_moved s :
  no_karpenter sp -> is_Some (rank (upgrade_mode sp) (current_phase s)) ->
  stage (upgrade_mode sp) (current_phase s) (phases s) ->
  terminal (current_phase s) = false -> current_phase s <> UpgradingKarpenterNodePools ->
  karpenter_pools (phases s) = None -> in_time sp w s ->
  (current_phase s = Planning -> is_consecutive_rollback (upgrade_mode sp) (last_transition s) = false) ->
  exists s1 rq, (dispatch w sp (current_phase s) s).2 = Ok (s1, rq) /\ moved s s1.
Proof.
  intros Hk Hr Hst Hterm Hne Hnone Htime Hguard.
  destruct (phase_cases _ _ Hr Hterm Hne) as [E|[E|[E|[E|[E|E]]]]]; rewrite E in Hst |- *.
  - do 2 eexists. split; [reflexivity|]. split; [done|done|done|..]; unfold work; rewrite E; cbn; lia.
  - destruct (planning_moved s E Hk (Hguard E) Hnone) as (s1 & Hd & Hm).
    exists s1, (Some 0). split; [|done]. cbn [dispatch]. rewrite bind_snd. by rewrite Hd.
  - destruct (preflight_moved s E Hk Hnone) as (s1 & Hd & Hm).
    exists s1, (Some 0). split; [|done]. cbn [dispatch]. rewrite bind_snd. by rewrite Hd.
  - rewrite dispatch_cp. apply stage_working in Hst as [_ Hst]; [|auto with kuo].
    by apply control_plane_moved.
  - rewrite dispatch_addons. apply stage_working in Hst as [_ Hst]; [|auto with kuo].
    apply addons_moved; [done|done|apply Hst].
  - rewrite dispatch_nodegroups. apply stage_working in Hst as [_ Hst]; [|auto with kuo].
    apply nodegroups_moved; [done|done| |done].
    eapply Forall_impl; [apply Hst|]. by intros g [H _].
Qed.

End Helpful.

(** ** Runs *)

Record on_track (sp : EKSUpgradeSpec) (gen : Z) (s : EKSUpgradeStatus) : Prop := {
  track_invariant : invariant sp gen s;
  track_phase : current_phase s <> Failed /\ current_phase s <> UpgradingKarpenterNodePools;
  track_karpenter : karpenter_pools (phases s) = None;
  track_guard : current_phase s = Pending \/ current_phase s = Planning ->
    is_consecutive_rollback (upgrade_mode sp) (last_transition s) = false;
}.

(** The status a handler leaves, stored. *)
Lemma stored_moved n sp gen w w' s stored s1 :
  on_track sp gen s -> same_run gen s stored -> good_step (upgrade_mode sp) (current_phase s) s s1 ->
  moved n sp w s s1 ->
  let s' := merge_status stored (finish w' sp gen s1) in
  on_track sp gen s' /\ work n s' = work n s1.
Proof.
  intros [[Hr Hst _] _ _ Hguard] Hs [(p' & Hp' & Hmove & Hst') Hm] [Hph Hk Hlast _ _]. cbn zeta.
  set (s2 := finish w' sp gen s1).
  assert (E1 : phase s2 = phase s1) by (unfold s2, finish; by case_decide).
  assert (E2 : phases s2 = phases s1) by (unfold s2, finish; by case_decide).
  destruct (stored_invariant sp gen s stored s2) as (Hi & Hp & Hps); [done| |by rewrite E2| |].
  - exists p'. rewrite E1, E2. split; [done|]. split; [|done].
    destruct Hmove as [->|(? & ? & _ & ? & _)]; [done|by eexists].
  - unfold s2, finish. by case_decide.
  - assert (Ec : current_phase (merge_status stored s2) = current_phase s1)
      by (unfold current_phase; by rewrite Hp, E1).
    split; [|unfold work; by rewrite Ec, Hps, E2].
    split; [done|by rewrite Ec|by rewrite Hps, E2|]. rewrite Ec. intros Hearly.
    assert (El : last_transition s2 = last_transition s).
    { rewrite <- (Hlast Hearly). unfold s2, finish. rewrite decide_False; [done|]. cbn.
      intros E. unfold current_phase in Hearly. rewrite E in Hearly. by destruct Hearly. }
    change (last_transition (merge_status stored s2))
      with (skip_none (last_transition stored) (last_transition s2)).
    rewrite El, (same_last _ _ _ Hs), skip_none_same. apply Hguard.
    destruct Hmove as [->|Hb]; [unfold current_phase in Hearly; rewrite Hp' in Hearly; exact Hearly|].
    left. unfold current_phase in Hearly at 1 2. rewrite Hp' in Hearly. cbn in Hearly.
    destruct Hb as (a & b & Ha & Hb & Hlt).
    destruct Hearly as [-> | ->], (upgrade_mode sp), (current_phase s); cbn in *; simplify_eq; (done || lia).
Qed.

Lemma reconcile_moved n w r :
  target_in_range (spec r) -> no_karpenter (spec r) -> helpful n (spec r) w ->
  in_time (spec r) w (stored_status r) -> on_track (spec r) (generation r) (stored_status r) ->
  exists cs s' act, reconcile w Stored Stored r = (cs, s', Some act) /\
    on_track (spec r) (generation r) s' /\
    (work n s' <= work n (stored_status r))%nat /\
    (swift (spec r) w -> (work n s' <= pred (work n (stored_status r)))%nat).
Proof.
  intros Htarget Hk Hhelp Htime Htrack. pose proof Htrack as [[Hr Hst Hobs] [Hf Hnk] Hnone Hguard].
  unfold reconcile. fold (stored_status r).
  set (s := stored_status r) in *. change (default Pending (phase s)) with (current_phase s).
  destruct (decide _) as [Hterm|Hterm].
  { destruct Hterm as [Hterm|]; [|done]. rewrite (proj2 (Z.ltb_ge _ _)).
    2:{ apply Hobs. exists 1%nat, 7%nat. rewrite Hterm. destruct (upgrade_mode (spec r)); cbn; auto with lia. }
    do 3 eexists. split; [done|]. split; [done|]. unfold work. rewrite Hterm. cbn. lia. }
  assert (Ht : terminal (current_phase s) = false) by (destruct (current_phase s); try done; tauto).
  replace (_ && negb (polling (current_phase s))) with false
    by (destruct (current_phase s); cbn; by rewrite ?andb_false_r).
  rewrite (help_aws _ _ _ Hhelp).
  destruct (dispatch_moved n (spec r) w Hhelp s) as (s1 & rq & Hd & Hm); try done; [by auto|].
  destruct (dispatch_good w (spec r) s (current_phase s) eq_refl Hr Hst Htarget Ht Hnk) as [_ Hg].
  rewrite Hd in Hg.
  assert (Hrun : forall stored, same_run (generation r) s stored ->
    exists cs s' act, run_phase w Stored r (current_phase s) s stored = (cs, s', Some act) /\
      on_track (spec r) (generation r) s' /\ (work n s' <= work n s)%nat /\
      (swift (spec r) w -> (work n s' <= pred (work n s))%nat)).
  { intros stored Hs. unfold run_phase.
    destruct (dispatch w (spec r) (current_phase s) s) as [cs res]. cbn in Hd. subst res. cbv beta iota zeta.
    destruct (stored_moved n (spec r) (generation r) w w s stored s1 Htrack Hs Hg Hm) as [Ho Hw].
    do 3 eexists. split; [reflexivity|]. split; [exact Ho|]. cbn [patched]. rewrite Hw.
    destruct Hm as [_ _ _ Hle Hlt]. split; [done|]. intros Hsw. specialize (Hlt Hsw). lia. }
  destruct (identity s); [apply Hrun; by split; auto with lia|].
  destruct (help_identity _ _ _ Hhelp) as [i ->]. apply Hrun. apply same_run_identity.
Qed.

Lemma favourable_completes n k ts r :
  favourable n k ts r -> target_in_range (spec r) -> no_karpenter (spec r) ->
  on_track (spec r) (generation r) (stored_status r) -> (work n (stored_status r) <= k)%nat ->
  exists cs r', run ts r = (cs, Some r') /\ work n (stored_status r') = 0%nat /\
    on_track (spec r') (generation r') (stored_status r').
Proof.
  intros H. induction H as [r|k w ts r Hh Ht _ IH|k w ts r Hh Ht Hs _ IH];
    intros Htarget Hk Htrack Hle; [exists [], r; split; [done|]; split; [lia|done]| |];
    destruct (reconcile_moved n w r Htarget Hk Hh Ht Htrack) as (cs & s' & act & E & Htrack' & Hw & Hw');
    cbn [run turn]; rewrite E in *; unfold after_reconcile in *; cbn [fst snd spec generation] in *;
    (destruct (IH Htarget Hk Htrack') as (cs' & r' & Hrun & Hdone);
      [change (stored_status _) with s'; try specialize (Hw' Hs); lia|]);
    rewrite Hrun; by eexists _, r'.
Qed.

(** No work is left only in the phase [Completed]. *)
Lemma no_work n sp gen s : on_track sp gen s -> work n s = 0%nat -> current_phase s = Completed.
Proof.
  intros [[[a Ha] Hst _] [Hf Hk] _ _]. unfold work.
  destruct (current_phase s) eqn:E; try done; cbn [work_at]; try lia.
  destruct Hst as [_ [(pl & cp & Hpl & Hcp & Hfol) _ _]]. destruct (upgrade_mode sp) eqn:Em; [done|].
  pose proof (cp_range _ _ _ _ Hfol eq_refl) as Hrange. pose proof (cp_total _ _ _ _ Hfol) as Htot.
  rewrite (cp_left_range _ cp Hcp) by lia. destruct (is_some _); lia.
Qed.

(** C9: an upgrade that meets no failure is completed, in both modes.  Its
    specification replaces no Karpenter nodes and no pools are left from an
    earlier one; it is not a rollback after a rollback.  When the services
    answer, the preflight checks pass, EKS lists add-on versions that its
    comparison orders, no update fails or runs out of time, and the status
    patches are stored, a resource whose plan has at most [n] steps and
    components is completed once [2 * n + 5] reconciles have found the updates
    asked for over, however many more had to wait. *)
Theorem upgrade_completes n ts r :
  waiting r -> target_in_range (spec r) -> no_karpenter (spec r) ->
  karpenter_pools (phases (stored_status r)) = None ->
  is_consecutive_rollback (upgrade_mode (spec r)) (last_transition (stored_status r)) = false ->
  favourable n (2 * n + 5) ts r ->
  exists cs r', run ts r = (cs, Some r') /\ current_phase (stored_status r') = Completed.
Proof.
  intros Hw Htarget Hk Hnone Hguard Hfav.
  assert (Htrack : on_track (spec r) (generation r) (stored_status r)).
  { split; [by apply waiting_invariant|by rewrite (proj1 Hw)|done|done]. }
  destruct (favourable_completes n _ ts r Hfav Htarget Hk Htrack) as (cs & r' & Hrun & Hdone & Htrack').
  - unfold work. by rewrite (proj1 Hw).
  - exists cs, r'. split; [done|]. by apply (no_work n _ _ _ Htrack').
Qed.

(** ** The theorems at work *)

(** [in_time] along a run, as a check. *)
Definition in_time_check (sp : EKSUpgradeSpec) (w : World) (s : EKSUpgradeStatus) : bool :=
  match control_plane (phases s) with
  | Some cp => bool_decide (timed_out (now w) (cp_started_at cp)
      (match timeouts sp with Some t => control_plane_minutes t | None => 30 end) = None)
  | None => true
  end
  && forallb (fun g => bool_decide (timed_out (now w) (ng_started_at g)
      (match timeouts sp with Some t => nodegroup_minutes t | None => 60 end) = None))
       (nodegroups (phases s)).

Lemma in_time_check_spec sp w s : in_time_check sp w s = true -> in_time sp w s.
Proof.
  unfold in_time_check. intros [Hc Hn]%andb_true_iff. split.
  - intros cp Hcp. rewrite Hcp in Hc. by apply bool_decide_eq_true in Hc.
  - apply Forall_forall. intros g Hg. rewrite forallb_forall in Hn.
    apply list_elem_of_In in Hg. specialize (Hn _ Hg). by apply bool_decide_eq_true in Hn.
Qed.

Fixpoint in_time_run (ws : list World) (r : EKSUpgrade) : bool :=
  match ws with
  | [] => true
  | w :: ws =>
      in_time_check (spec r) w (stored_status r)
      && in_time_run ws (after_reconcile r (reconcile w Stored Stored r))
  end.

Lemma swift_favourable n sp ws r :
  spec r = sp -> Forall (fun w => helpful n sp w /\ swift sp w) ws -> in_time_run ws r = true ->
  favourable n (length ws) (map (fun w => (w, Stored, Stored)) ws) r.
Proof.
  intros Hr H. revert r Hr. induction H as [|w ws [Hh Hs] _ IH]; intros r <- Ht; [constructor|].
  cbn [in_time_run] in Ht. apply andb_true_iff in Ht as [Ht1 Ht2].
  apply FavSwift; [done|by apply in_time_check_spec|done|by apply IH].
Qed.

Lemma demo_helpful time :
  helpful 4 (demo_spec Forward "1.34" false None) (demo_world "1.32" time) /\
  swift (demo_spec Forward "1.34" false None) (demo_world "1.32" time).
Proof.
  split; [|by split]. split; try apply demo_orderly; try (by repeat intros ?; eexists); try done.
  - do 4 eexists. split; [reflexivity|]. split; [done|]. split; [vm_compute; reflexivity|].
    split; [reflexivity|]. split; [reflexivity|]. cbn. lia.
  - intros c l [= <-]. by repeat constructor.
  - by intros total blocking [= _ <-].
Qed.

Lemma completed_means_done_witness :
  cp_left (phases (stored_status demo_done)) = 0%nat /\
  addons_done (phases (stored_status demo_done)) /\
  nodegroups_done (phases (stored_status demo_done)).
Proof.
  apply (completed_means_done (demo_turns "1.32" 20) (demo_upgrade Forward "1.34" false None)
           (run (demo_turns "1.32" 20) (demo_upgrade Forward "1.34" false None)).1);
    [apply demo_waiting|apply (demo_target _ _ _ _ 1 34); vm_compute; reflexivity|reflexivity|
     vm_compute; reflexivity|vm_compute; reflexivity].
Defined.

Lemma upgrade_completes_witness :
  exists cs r',
    run (map (fun w => (w, Stored, Stored)) (repeat (demo_world "1.32" 1000) 13))
      (demo_upgrade Forward "1.34" false None) = (cs, Some r') /\
    current_phase (stored_status r') = Completed.
Proof.
  apply (upgrade_completes 4); [apply demo_waiting|
    apply (demo_target _ _ _ _ 1 34); vm_compute; reflexivity|exact I|reflexivity|reflexivity|].
  apply (swift_favourable 4 (demo_spec Forward "1.34" false None) (repeat (demo_world "1.32" 1000) 13));
    [reflexivity| |vm_compute; reflexivity].
  apply Forall_forall. intros w Hw%list_elem_of_In%repeat_spec. subst w. apply demo_helpful.
Defined.
