(* ===== verification/F64.v ===== *)
(** * Floating point

    [f64] is IEEE binary64, computed by the Standard Library's specification of
    floating point: a sign, a mantissa and an exponent, rounded to nearest
    even.  The conversions and roundings the source uses are added here. *)

From Corelib Require Import SpecFloat.
From stdpp Require Import prelude strings pretty.
From Stdlib Require Import ZArith Lia Ascii.
From S2P Require Import Prelude.
From S2P Require Import Strings.

(** ** Arithmetic *)

Definition f64 : Type := spec_float.

Definition f64_add (x y : f64) : f64 := SFadd 53 1024 x y.
Definition f64_mul (x y : f64) : f64 := SFmul 53 1024 x y.
Definition f64_div (x y : f64) : f64 := SFdiv 53 1024 x y.
Definition f64_lt (x y : f64) : bool := SFltb x y.
Definition f64_le (x y : f64) : bool := SFleb x y.

(** [f64::from(z)] and [z as f64]: to the nearest. *)
Definition f64_of_Z (z : Z) : f64 := binary_normalize 53 1024 z 0 false.

Definition is_nan (x : f64) : bool :=
  match x with S754_nan => true | _ => false end.

Definition is_finite (x : f64) : bool :=
  match x with S754_zero _ | S754_finite _ _ _ => true | _ => false end.

(** [f64::max], [f64::min]: a NaN loses. *)
Definition f64_max (x y : f64) : f64 :=
  if is_nan x then y else if is_nan y then x else if f64_lt x y then y else x.
Definition f64_min (x y : f64) : f64 :=
  if is_nan x then y else if is_nan y then x else if f64_lt y x then y else x.

(** [f64::clamp]: a NaN stays. *)
Definition f64_clamp (x lo hi : f64) : f64 :=
  if f64_lt x lo then lo else if f64_lt hi x then hi else x.

(** [x.mul_add(a, b)]: [x * a + b] rounded once. *)
Definition f64_mul_add (x a b : f64) : f64 :=
  match x, a, b with
  | S754_finite sx mx ex, S754_finite sa ma ea, S754_finite sb mb eb =>
      let sign (s : bool) (m : positive) := if s then Zneg m else Zpos m in
      let e := Z.min (ex + ea) eb in
      binary_normalize 53 1024
        (Z.shiftl (sign sx mx * sign sa ma) (ex + ea - e) + Z.shiftl (sign sb mb) (eb - e)) e false
  | _, _, _ => f64_add (f64_mul x a) b
  end.

Definition f64_sub (x y : f64) : f64 := SFsub 53 1024 x y.
Definition f64_abs (x : f64) : f64 := SFabs x.
Definition f64_neg (x : f64) : f64 := SFopp x.

(** ** Rounding to integers *)

(** The value is [n / 2 ^ k] with [k] at least 0: [(n, k)]. *)
Definition fraction (s : bool) (m : positive) (e : Z) : Z * Z :=
  let n := cond_Zopp s (Zpos m) in
  if e <? 0 then (n, - e) else (n * 2 ^ e, 0).

(** A rounding towards an integer: exact on what is not finite. *)
Definition f64_rounding (f : Z -> Z -> Z) (x : f64) : f64 :=
  match x with
  | S754_finite s m e =>
      if e <? 0 then
        let '(n, k) := fraction s m e in
        binary_normalize 53 1024 (f n (2 ^ k)) 0 s
      else x
  | _ => x
  end.

Definition f64_floor : f64 -> f64 := f64_rounding Z.div.
Definition f64_ceil : f64 -> f64 := f64_rounding (fun n d => - (- n / d)).

(** [f64::round]: halves away from zero. *)
Definition f64_round : f64 -> f64 :=
  f64_rounding (fun n d => Z.sgn n * ((2 * Z.abs n + d) / (2 * d))).

(** [x as iN] with the bounds of the type: towards zero, saturating, 0 for a
    NaN. *)
Definition f64_as (lo hi : Z) (x : f64) : Z :=
  match x with
  | S754_zero _ | S754_nan => 0
  | S754_infinity s => if s then lo else hi
  | S754_finite s m e =>
      let '(n, k) := fraction s m e in Z.max lo (Z.min hi (Z.quot n (2 ^ k)))
  end.

Definition i32_max : Z := 2 ^ 31 - 1.
Definition i32_min : Z := - 2 ^ 31.

Definition f64_as_i32 : f64 -> Z := f64_as i32_min i32_max.
Definition f64_as_u64 : f64 -> Z := f64_as 0 u64_max.

(** ** Literals *)

(** The nearest to [m / 10 ^ k], for [m] at least 0. *)
Definition f64_decimal (m k : Z) : f64 :=
  match m, 10 ^ k with
  | Zpos n, Zpos d => f64_div (S754_finite false n 0) (S754_finite false d 0)
  | _, _ => S754_zero false
  end.

(** [num.parse::<f64>()] of a string of digits and points: at least a digit and
    at most a point. *)
Definition parse_f64 (s : string) : option f64 :=
  let '(whole, frac) := default (s, EmptyString) (split_once "."%char s) in
  if str_is_empty (whole +:+ frac) then None
  else m ← parse_digits 0 (whole +:+ frac); Some (f64_decimal m (Z.of_nat (String.length frac))).

(** ** Text *)

(** [n / d] to the nearest, ties to even, for [n] at least 0. *)
Definition div_even (n d : Z) : Z :=
  let '(q, r) := Z.div_eucl n d in
  if (d <? 2 * r) || ((2 * r =? d) && Z.odd q) then q + 1 else q.

(** [{:.k}]: the exact value with [k] decimals. *)
Definition f64_fixed (k : nat) (x : f64) : string :=
  let digits (n : Z) : string :=
    if Nat.eqb k 0 then pretty n
    else pretty (n / 10 ^ Z.of_nat k) +:+ "." +:+ zero_padded k (n mod 10 ^ Z.of_nat k) in
  let signed (s : bool) (w : string) : string := if s then "-" +:+ w else w in
  match x with
  | S754_nan => "NaN"
  | S754_infinity s => signed s "inf"
  | S754_zero s => signed s (digits 0)
  | S754_finite s m e =>
      let '(n, d) := fraction false m e in signed s (digits (div_even (n * 10 ^ Z.of_nat k) (2 ^ d)))
  end.

(** ** Bounds *)

Definition is_i32 (z : Z) : Prop := i32_min <= z <= i32_max.

Lemma f64_as_bounds lo hi x : lo <= 0 <= hi -> lo <= f64_as lo hi x <= hi.
Proof.
  intros H. unfold f64_as, fraction. destruct x as [s|s| |s m e]; try destruct s; try lia;
    destruct (e <? 0); lia.
Qed.

Lemma f64_as_i32_range x : is_i32 (f64_as_i32 x).
Proof. apply f64_as_bounds. unfold i32_min, i32_max. lia. Qed.

#[export] Hint Resolve f64_as_i32_range : forklift.

(** ** Examples *)

Example f64_decimals :
  (f64_decimal 1 1 = S754_finite false 7205759403792794 (-56)) /\
  (parse_f64 "0.1" = Some (f64_decimal 1 1)) /\
  (parse_f64 ".5" = Some (f64_decimal 5 1)) /\ (parse_f64 "5." = Some (f64_of_Z 5)) /\
  (parse_f64 "." = None) /\ (parse_f64 "1.2.3" = None).
Proof. vm_compute. done. Qed.

Example f64_rounded :
  (map (f64_as_i32 ∘ f64_floor) [f64_decimal 3007 1; f64_of_Z 7] = [300; 7]) /\
  (map (f64_as_i32 ∘ f64_ceil) [f64_decimal 3007 1; f64_of_Z 7; f64_of_Z (-7)] = [301; 7; -7]) /\
  (map (f64_as_i32 ∘ f64_round) [f64_decimal 5 1; f64_decimal 15 1; f64_decimal 149 2] = [1; 2; 1]) /\
  f64_as_i32 (f64_mul (f64_of_Z (2 ^ 20)) (f64_of_Z (2 ^ 20))) = i32_max.
Proof. vm_compute. done. Qed.

Example f64_texts :
  map (f64_fixed 1) [f64_decimal 25 2; f64_decimal 35 2; f64_of_Z 10; f64_decimal 1999 2] =
    ["0.2"; "0.3"; "10.0"; "20.0"] /\
  map (f64_fixed 0) [f64_decimal 5 1; f64_decimal 15 1; f64_decimal 25 1; f64_of_Z (2 ^ 40)] =
    ["0"; "2"; "2"; "1099511627776"].
Proof. vm_compute. done. Qed.
