(* ===== verification/Autoscaler.v ===== *)
(** * What the two autoscalers share (volume-autoscaler: autoscaler.rs, k8s.rs)

    The step rules of [behavior.scaleUp], cooldowns, Kubernetes quantities, and
    the conditions of a status.  Times are nanoseconds since the epoch, as
    chrono keeps them; a [Duration] that is read from a cooldown is a number of
    seconds below 2^64. *)

From Corelib Require Import SpecFloat.
From stdpp Require Import prelude list strings pretty sorting.
From Stdlib Require Import ZArith Lia Ascii.
From S2P Require Import Prelude.
From S2P Require Import Strings.
From S2P Require Import BTree.
From S2P Require Import F64.

(** ** Times *)

Definition NANOS : Z := 10 ^ 9.

(** [DateTime::<Utc>::MAX_UTC], the end of the year 262142. *)
Definition chrono_max : Z := 8210266876799 * NANOS + 999999999.
(** The seconds of [TimeDelta::MAX]. *)
Definition time_delta_max_secs : Z := 9223372036854775.

(** [TimeDelta::from_std(Duration::from_secs(secs)).unwrap_or_default()]. *)
Definition delta_from_secs (secs : Z) : Z :=
  if secs <=? time_delta_max_secs then secs * NANOS else 0.

(** [t + delta]: [None] where chrono panics. *)
Definition time_add (t delta : Z) : option Z :=
  if t + delta <=? chrono_max then Some (t + delta) else None.

(** Kubernetes times, in milliseconds: those jiff cannot represent become the
    epoch. *)
Definition jiff_min_ms : Z := -377705023201000.
Definition jiff_max_ms : Z := 253402207200999.
Definition k8s_time (t : Z) : Z :=
  let ms := t / 10 ^ 6 in
  if (jiff_min_ms <=? ms) && (ms <=? jiff_max_ms) then ms else 0.
Definition from_k8s_time (ms : Z) : Z := ms * 10 ^ 6.

(** ** Text *)

(** [str::parse::<i32>]. *)
Definition parse_i32 (s : string) : option Z :=
  z ← parse_i64 s; if (i32_min <=? z) && (z <=? i32_max) then Some z else None.

(** [humanize::go_duration], of nanoseconds. *)
Definition fraction_digits (w : nat) (z : Z) : string := trim_end (Ascii.eqb "0") (zero_padded w z).

Definition go_duration (d : Z) : string :=
  if d =? 0 then "0s"
  else if d <? NANOS then
    if d <? 1000 then pretty d +:+ "ns" else
    let '(unit, scale, width) := if 10 ^ 6 <=? d then ("ms", 10 ^ 6, 6%nat) else ("µs", 10 ^ 3, 3%nat) in
    if d mod scale =? 0 then pretty (d / scale) +:+ unit
    else pretty (d / scale) +:+ "." +:+ fraction_digits width (d mod scale) +:+ unit
  else
    let total := d / NANOS in
    let hours := total / 3600 in
    let mins := total mod 3600 / 60 in
    let secs := total mod 60 in
    (if 0 <? hours then pretty hours +:+ "h" else EmptyString) +:+
    (if (0 <? hours) || (0 <? mins) then pretty mins +:+ "m" else EmptyString) +:+
    (if d mod NANOS =? 0 then pretty secs +:+ "s"
     else pretty secs +:+ "." +:+ fraction_digits 9 (d mod NANOS) +:+ "s").

(** The first [n] characters of UTF-8 text: bytes that continue a character do
    not count. *)
Definition continues (c : ascii) : bool := let n := N_of_ascii c in (128 <=? n)%N && (n <? 192)%N.

Fixpoint char_count (s : string) : nat :=
  match s with
  | EmptyString => 0
  | String c s => if continues c then char_count s else S (char_count s)
  end.

Fixpoint take_chars (n : nat) (s : string) : string :=
  match s with
  | EmptyString => EmptyString
  | String c s' =>
      if continues c then String c (take_chars n s')
      else match n with O => EmptyString | S n => String c (take_chars n s') end
  end.

Definition MAX_MESSAGE_CHARS : nat := 256.

Definition brief (s : string) : string :=
  if Nat.leb (char_count s) MAX_MESSAGE_CHARS then s
  else take_chars MAX_MESSAGE_CHARS s +:+ "...".

(** ** Steps *)

Inductive SelectPolicy := SelectMax | SelectMin | SelectDisabled.
Inductive ScalingPolicyType := PercentPolicy | GiBPolicy.
Record ScalingPolicy := mkScalingPolicy { type_ : ScalingPolicyType; value : Z }.
Inductive Step := Percent (p : Z) | GiB (g : Z).

Record ScalingRules := mkScalingRules {
  select_policy : SelectPolicy;
  policies : list ScalingPolicy;
  cooldown_duration : option string;
}.
Definition default_rules : ScalingRules := mkScalingRules SelectMax [] None.

#[export] Instance SelectPolicy_eq : EqDecision SelectPolicy.
Proof. solve_decision. Defined.

Definition DEFAULT_UTILIZATION_PERCENT : Z := 80.
Definition DEFAULT_STEP_PERCENT : Z := 10.
Definition DEFAULT_STEP_GIB : Z := 1.

Definition compile_step (p : ScalingPolicy) : result string Step :=
  if value p <=? 0 then Err ("scaleUp policy value must be positive, got " +:+ pretty (value p))
  else Ok match type_ p with PercentPolicy => Percent (value p) | GiBPolicy => GiB (value p) end.

Fixpoint collect {E A} (l : list (result E A)) : result E (list A) :=
  match l with
  | [] => Ok []
  | r :: l => let? x := r in let? xs := collect l in Ok (x :: xs)
  end.

Definition compile_steps (ps : list ScalingPolicy) : result string (list Step) :=
  if decide (ps = []) then Ok [Percent DEFAULT_STEP_PERCENT; GiB DEFAULT_STEP_GIB]
  else collect (map compile_step ps).

(** Division of [i64] truncates. *)
Definition step_size (current : Z) (s : Step) : Z :=
  match s with Percent p => Z.quot (current * p + 99) 100 | GiB g => g end.

Definition step_up (current : Z) (steps : list Step) (select_min : bool) : Z :=
  let step :=
    match map (step_size current) steps with
    | [] => 0
    | z :: zs => if select_min then foldl Z.min z zs else foldl Z.max z zs
    end in
  Z.min (Z.max (current + step) (current + 1)) i32_max.

(** ** Cooldowns *)

(** Six hours, in seconds. *)
Definition MIN_COOLDOWN : Z := 6 * 3600.

Definition u64_saturating_mul (a b : Z) : Z := Z.min (a * b) u64_max.

Definition unit_of (c : ascii) : option Z :=
  if Ascii.eqb c "h" then Some 3600
  else if Ascii.eqb c "m" then Some 60
  else if Ascii.eqb c "s" then Some 1 else None.

(** The loop over the characters: the total so far and the digits read since the
    last unit. *)
Fixpoint cooldown_chars (total : Z) (digits : string) (s : string) : option (Z * string) :=
  match s with
  | EmptyString => Some (total, digits)
  | String c s =>
      if is_ascii_digit c then cooldown_chars total (digits +:+ String c EmptyString) s
      else
        unit ← unit_of c;
        n ← parse_u64 digits;
        cooldown_chars (u64_saturating_add total (u64_saturating_mul n unit)) EmptyString s
  end.

Definition parse_cooldown (raw : string) : result string Z :=
  let bad := Err ("invalid duration " +:+ str_debug raw +:+ ": use h, m, and s such as 6h30m") in
  match cooldown_chars 0 EmptyString raw with
  | Some (total, digits) =>
      if str_is_empty raw || negb (str_is_empty digits) then bad else Ok total
  | None => bad
  end.

Definition cooldown_part (n : Z) (u : ascii) : string :=
  if 0 <? n then pretty n +:+ String u EmptyString else EmptyString.

Definition format_cooldown (s : Z) : string :=
  let out := cooldown_part (s / 3600) "h" +:+ cooldown_part (s mod 3600 / 60) "m" +:+
    cooldown_part (s mod 60) "s" in
  if str_is_empty out then "0s" else out.

(** ** Quantities *)

(** A Kubernetes [Quantity] is the text it was written as. *)
Definition Quantity : Type := string.

Definition gib_quantity (gib : Z) : Quantity := pretty gib +:+ "Gi".
Definition GIB : f64 := f64_of_Z (2 ^ 30).

(** [raw.split_at] the first character that is neither a digit nor a point. *)
Fixpoint split_number (s : string) : string * string :=
  match s with
  | EmptyString => (EmptyString, EmptyString)
  | String c s' =>
      if is_ascii_digit c || Ascii.eqb c "." then
        let '(num, suffix) := split_number s' in (String c num, suffix)
      else (EmptyString, s)
  end.

Section Quantities.
(** [10f64.powi(e)], whose rounding the language leaves open. *)
Context (powi10 : Z -> f64).

Definition multiplier (raw suffix : string) : result string f64 :=
  match suffix with
  | "" => Ok (f64_of_Z 1)
  | "Ki" => Ok (f64_of_Z (2 ^ 10))
  | "Mi" => Ok (f64_of_Z (2 ^ 20))
  | "Gi" => Ok GIB
  | "Ti" => Ok (f64_of_Z (2 ^ 40))
  | "Pi" => Ok (f64_of_Z (2 ^ 50))
  | "Ei" => Ok (f64_of_Z (2 ^ 60))
  | "n" => Ok (f64_decimal 1 9)
  | "u" => Ok (f64_decimal 1 6)
  | "m" => Ok (f64_decimal 1 3)
  | "k" => Ok (f64_of_Z (10 ^ 3))
  | "M" => Ok (f64_of_Z (10 ^ 6))
  | "G" => Ok (f64_of_Z (10 ^ 9))
  | "T" => Ok (f64_of_Z (10 ^ 12))
  | "P" => Ok (f64_of_Z (10 ^ 15))
  | "E" => Ok (f64_of_Z (10 ^ 18))
  | String c (String d exp) =>
      if Ascii.eqb c "e" || Ascii.eqb c "E" then
        match parse_i32 (String d exp) with
        | Some e => Ok (powi10 e)
        | None => Err ("invalid quantity exponent in " +:+ str_debug raw)
        end
      else Err ("unsupported quantity suffix " +:+ str_debug suffix +:+ " in " +:+ str_debug raw)
  | _ => Err ("unsupported quantity suffix " +:+ str_debug suffix +:+ " in " +:+ str_debug raw)
  end.

Definition quantity_bytes (q : Quantity) : result string f64 :=
  let raw := trim q in
  let '(num, suffix) := split_number raw in
  match parse_f64 num with
  | Some value => let? m := multiplier raw suffix in Ok (f64_mul value m)
  | None => Err ("invalid quantity " +:+ str_debug raw)
  end.

Definition quantity_gib (q : Quantity) : result string Z :=
  let? bytes := quantity_bytes q in
  let gib := f64_ceil (f64_div bytes GIB) in
  if f64_le (f64_of_Z 0) gib && f64_le gib (f64_of_Z i32_max) then Ok (f64_as_i32 gib)
  else Err ("quantity " +:+ str_debug (trim q) +:+ " out of range").
End Quantities.

(** ** Conditions *)

Definition CONDITION_ABLE_TO_SCALE : string := "AbleToScale".
Definition CONDITION_SCALING_ACTIVE : string := "ScalingActive".
Definition CONDITION_SCALING_LIMITED : string := "ScalingLimited".
Definition STATUS_TRUE : string := "True".
Definition STATUS_FALSE : string := "False".
Definition STATUS_UNKNOWN : string := "Unknown".
Definition REASON_BELOW_TARGET : string := "BelowTarget".
Definition REASON_SUCCEEDED_RESCALE : string := "SucceededRescale".
Definition REASON_FAILED_RESCALE : string := "FailedRescale".
Definition REASON_COOLDOWN : string := "Cooldown".
Definition REASON_MAX_CAPACITY : string := "MaxCapacityReached".
Definition REASON_SCALING_DISABLED : string := "ScalingDisabled".
Definition REASON_DRY_RUN : string := "DryRun".
Definition REASON_FAILED_METRIC : string := "FailedGetResourceMetric".
Definition REASON_FAILED_GET_SCALE : string := "FailedGetScale".
Definition REASON_AMBIGUOUS : string := "AmbiguousSelector".
Definition REASON_VALID_METRIC : string := "ValidMetricFound".
Definition REASON_READY_FOR_NEW_SCALE : string := "ReadyForNewScale".
Definition REASON_WITHIN_RANGE : string := "DesiredWithinRange".
Definition REASON_READY : string := "Ready".

Record Condition := mkCondition {
  c_type : string;
  c_status : string;
  c_reason : string;
  c_message : string;
  observed_generation : option Z;
  last_transition_time : Z;
}.

#[export] Instance Condition_eq : EqDecision Condition.
Proof. solve_decision. Defined.

Definition condition (cs : list Condition) (t : string) : option Condition :=
  List.find (fun c => String.eqb (c_type c) t) cs.

(** [conditions.iter().position(..).map(|i| conditions.remove(i))]: the first of
    the type and the others. *)
Fixpoint take_condition (t : string) (cs : list Condition) : option Condition * list Condition :=
  match cs with
  | [] => (None, [])
  | c :: cs =>
      if String.eqb (c_type c) t then (Some c, cs)
      else let '(found, rest) := take_condition t cs in (found, c :: rest)
  end.

(** A stable sort by a string key. *)
Section SortBy.
Context {A : Type} (key : A -> string).

Fixpoint insert_by (x : A) (l : list A) : list A :=
  match l with
  | [] => [x]
  | y :: l' =>
      match String.compare (key x) (key y) with
      | Gt => y :: insert_by x l'
      | _ => x :: l
      end
  end.
Definition sort_by (l : list A) : list A := foldr insert_by [] l.
End SortBy.

Definition set_condition (cs : list Condition) (t status reason message : string)
    (generation : option Z) (now : Z) : list Condition :=
  let '(found, rest) := take_condition t cs in
  let last :=
    match found with
    | Some c => if String.eqb (c_status c) status then last_transition_time c else k8s_time now
    | None => k8s_time now
    end in
  sort_by c_type (rest ++ [mkCondition t status reason message generation last]).

Definition summary_reason (cs : list Condition) : string :=
  match cs with
  | [] => EmptyString
  | _ =>
      let unless t healthy :=
        match condition cs t with
        | Some c => if String.eqb (c_status c) healthy then None else Some (c_reason c)
        | None => None
        end in
      match unless CONDITION_SCALING_ACTIVE STATUS_TRUE with
      | Some r => r
      | None =>
          match unless CONDITION_ABLE_TO_SCALE STATUS_TRUE with
          | Some r => r
          | None => default REASON_READY (unless CONDITION_SCALING_LIMITED STATUS_FALSE)
          end
      end
  end.

(** The later of two optional times. *)
Definition latest (a b : option Z) : option Z :=
  match a, b with
  | Some a, Some b => if from_k8s_time a <? from_k8s_time b then Some b else Some a
  | Some a, None => Some a
  | None, b => b
  end.

(** ** Steps: facts *)

Definition step_value (s : Step) : Z := match s with Percent p => p | GiB g => g end.

Lemma compile_steps_positive ps steps :
  compile_steps ps = Ok steps -> Forall (fun s => 0 < step_value s) steps.
Proof.
  unfold compile_steps. case_decide; [intros [= <-]; repeat constructor|].
  generalize dependent steps. clear H. induction ps as [|p ps IH]; cbn; [intros ? [= <-]; constructor|].
  intros steps. unfold compile_step at 1. destruct (value p <=? 0) eqn:E; [done|]. bool_to_prop.
  destruct (collect _) as [l|]; [|done]. intros [= <-]. constructor; [|by apply IH].
  by destruct (type_ p); cbn; lia.
Qed.

Lemma foldl_min_le l z x : x ∈ z :: l -> foldl Z.min z l <= x.
Proof.
  revert z x. induction l as [|y l IH]; cbn; intros z x Hx; [apply list_elem_of_singleton in Hx; lia|].
  assert (Hle : forall v, foldl Z.min v l <= v) by (intros v; apply IH; constructor).
  apply elem_of_cons in Hx as [->|[->|Hx]%elem_of_cons].
  - specialize (Hle (Z.min z y)). lia.
  - specialize (Hle (Z.min z y)). lia.
  - apply IH. by right.
Qed.

Lemma foldl_max_ge l z x : x ∈ z :: l -> x <= foldl Z.max z l.
Proof.
  revert z x. induction l as [|y l IH]; cbn; intros z x Hx; [apply list_elem_of_singleton in Hx; lia|].
  assert (Hle : forall v, v <= foldl Z.max v l) by (intros v; apply IH; constructor).
  apply elem_of_cons in Hx as [->|[->|Hx]%elem_of_cons].
  - specialize (Hle (Z.max z y)). lia.
  - specialize (Hle (Z.max z y)). lia.
  - apply IH. by right.
Qed.

(** A step never shrinks a volume, grows it by at least a GiB below the largest
    size an [i32] holds, and stays an [i32]. *)
Lemma step_up_grows current steps select_min :
  is_i32 current ->
  is_i32 (step_up current steps select_min) /\ current <= step_up current steps select_min /\
  (current < i32_max -> current < step_up current steps select_min).
Proof.
  intros Hc. unfold step_up, is_i32, i32_min, i32_max in *. lia.
Qed.

(** ** Cooldowns: facts *)

Lemma str_app_nil_r s : s +:+ EmptyString = s.
Proof. induction s as [|c s IH]; [done|]. change (String c (s +:+ EmptyString) = String c s). by rewrite IH. Qed.

Lemma cooldown_digits total ds w s :
  str_all is_ascii_digit w = true ->
  cooldown_chars total ds (w +:+ s) = cooldown_chars total (ds +:+ w) s.
Proof.
  revert ds. induction w as [|c w IH]; intros ds Hw; cbn [str_all] in Hw.
  - by rewrite str_app_nil_r.
  - apply andb_true_iff in Hw as [Hc Hw]. change (String c w +:+ s) with (String c (w +:+ s)).
    cbn [cooldown_chars]. rewrite Hc, IH by done.
    by rewrite str_app_assoc.
Qed.

Lemma cooldown_unit total n c unit s :
  is_ascii_digit c = false -> unit_of c = Some unit -> 0 <= n -> 0 < unit -> 0 <= total ->
  total + n * unit <= u64_max ->
  cooldown_chars total EmptyString (cooldown_part n c +:+ s) = cooldown_chars (total + n * unit) EmptyString s.
Proof.
  intros Hc Hu Hn Hu0 Ht Hb. unfold cooldown_part. destruct (0 <? n) eqn:E; bool_to_prop.
  - destruct (pretty_nonneg_spec n Hn) as (Hne & Hall & Hp & _).
    rewrite str_app_assoc, cooldown_digits by done. change (EmptyString +:+ pretty n) with (pretty n).
    change (String c EmptyString +:+ s) with (String c s). cbn [cooldown_chars]. rewrite Hc, Hu.
    assert (n <= u64_max) by nia.
    rewrite (parse_u64_digits _ n) by done. rewrite (proj2 (Z.leb_le _ _)) by done. cbn.
    unfold u64_saturating_add, u64_saturating_mul. do 2 f_equal. lia.
  - replace n with 0 by lia. change (EmptyString +:+ s) with s. f_equal. lia.
Qed.

Lemma cooldown_part_empty n c : 0 <= n -> str_is_empty (cooldown_part n c) = true -> n = 0.
Proof.
  intros Hn. unfold cooldown_part. destruct (0 <? n) eqn:E; bool_to_prop; [|lia].
  by destruct (pretty n).
Qed.

Lemma str_empty_app a b : str_is_empty (a +:+ b) = str_is_empty a && str_is_empty b.
Proof. by destruct a. Qed.

(** What [format_cooldown] writes, [parse_cooldown] reads back, for every
    duration in whole seconds a [u64] holds. *)
Theorem cooldown_round_trip d : 0 <= d <= u64_max -> parse_cooldown (format_cooldown d) = Ok d.
Proof.
  intros Hd. pose proof (Z.div_mod d 3600 ltac:(lia)) as E1.
  pose proof (Z.div_mod (d mod 3600) 60 ltac:(lia)) as E2.
  pose proof (Z.mod_pos_bound d 3600 ltac:(lia)). pose proof (Z.mod_pos_bound d 60 ltac:(lia)).
  pose proof (Z.div_pos d 3600). pose proof (Z.div_pos (d mod 3600) 60).
  replace (d mod 3600 mod 60) with (d mod 60) in E2
    by (rewrite Z.mod_mod_divide; [done|by exists 60]).
  unfold format_cooldown. destruct (str_is_empty _) eqn:Hempty.
  - rewrite !str_empty_app in Hempty. bool_to_prop.
    repeat match goal with H : str_is_empty (cooldown_part _ _) = true |- _ =>
      apply cooldown_part_empty in H; [|lia] end.
    replace d with 0 by lia. done.
  - unfold parse_cooldown. rewrite Hempty. cbn [orb].
    rewrite <- (str_app_nil_r (cooldown_part (d mod 60) "s")).
    rewrite (cooldown_unit 0 (d / 3600) "h" 3600) by (done || lia).
    rewrite (cooldown_unit _ (d mod 3600 / 60) "m" 60) by (done || lia).
    rewrite (cooldown_unit _ (d mod 60) "s" 1) by (done || lia).
    cbn. f_equal. lia.
Qed.

Lemma cooldown_round_trip_witness :
  0 <= 23400 <= u64_max /\ parse_cooldown (format_cooldown 23400) = Ok 23400.
Proof. split; [by vm_compute|]. apply (cooldown_round_trip 23400). by vm_compute. Defined.

Example go_durations :
  map go_duration [0; 17; 1500; 436421432; 5000000; 10 * NANOS; 5400 * NANOS; 3661 * NANOS + 500000000] =
  ["0s"; "17ns"; "1.5µs"; "436.421432ms"; "5ms"; "10s"; "1h30m0s"; "1h1m1.5s"].
Proof. vm_compute. done. Qed.

Example cooldown_formats :
  map format_cooldown [0; 21600; 23400; 3630] = ["0s"; "6h"; "6h30m"; "1h30s"] /\
  parse_cooldown "90m" = Ok 5400 /\ is_ok (parse_cooldown "6") = false /\ is_ok (parse_cooldown "") = false.
Proof. vm_compute. done. Qed.

(** ** Conditions: facts *)

Section SortFacts.
Context {A : Type} (key : A -> string).

Lemma insert_by_perm x l : insert_by key x l ≡ₚ x :: l.
Proof.
  induction l as [|y l IH]; cbn; [done|].
  destruct (String.compare _ _); [done..|]. rewrite IH. by constructor.
Qed.

Lemma sort_by_perm l : sort_by key l ≡ₚ l.
Proof. induction l as [|x l IH]; cbn; [done|]. by rewrite insert_by_perm, IH. Qed.

Lemma insert_by_sorted x l :
  StronglySorted str_lt (key <$> l) -> key x ∉ key <$> l ->
  StronglySorted str_lt (key <$> insert_by key x l).
Proof.
  induction l as [|y l IH]; cbn; intros Hs Hx; [by repeat constructor|].
  apply not_elem_of_cons in Hx as [Hne Hx]. apply StronglySorted_inv in Hs as [Hs Hy].
  destruct (String.compare (key x) (key y)) eqn:E.
  - by apply str_compare_eq in E.
  - cbn. constructor; [by constructor|]. constructor; [done|].
    eapply Forall_impl; [exact Hy|]. intros z Hz. by trans (key y).
  - cbn. constructor; [by apply IH|]. rewrite (fmap_Permutation key _ _ (insert_by_perm x l)).
    cbn. constructor; [|done].
    by apply str_compare_gt.
Qed.

Lemma sort_by_sorted l : NoDup (key <$> l) -> StronglySorted str_lt (key <$> sort_by key l).
Proof.
  induction l as [|x l IH]; cbn; intros Hnd; [constructor|].
  apply NoDup_cons in Hnd as [Hx Hnd]. apply insert_by_sorted; [by apply IH|].
  intros Hin. apply Hx. revert Hin. by rewrite (fmap_Permutation key _ _ (sort_by_perm l)).
Qed.
End SortFacts.

Lemma str_sorted_nodup l : StronglySorted str_lt l -> NoDup l.
Proof.
  induction 1 as [|x l _ IH Hx]; constructor; [|done].
  intros Hin. rewrite Forall_forall in Hx. by eapply str_lt_irrefl, Hx.
Qed.

Lemma condition_elem cs c :
  NoDup (c_type <$> cs) -> condition cs (c_type c) = Some c <-> c ∈ cs.
Proof.
  unfold condition. induction cs as [|d cs IH]; cbn; intros Hnd; [by rewrite elem_of_nil|].
  apply NoDup_cons in Hnd as [Hd Hnd]. rewrite elem_of_cons.
  destruct (String.eqb_spec (c_type d) (c_type c)) as [E|E].
  - split; [intros [= ->]; by left|]. intros [->|Hc]; [done|].
    exfalso. apply Hd. rewrite E. by apply list_elem_of_fmap_2.
  - rewrite IH by done. split; [by right|]. by intros [->|?].
Qed.

Lemma condition_None cs t : condition cs t = None <-> t ∉ c_type <$> cs.
Proof.
  unfold condition. induction cs as [|d cs IH]; cbn; [split; [intros _ ?%elem_of_nil|]; done|].
  rewrite not_elem_of_cons. destruct (String.eqb_spec (c_type d) t) as [->|E].
  - split; [done|]. by intros [? _].
  - rewrite IH. split; [by intros ?; split|by intros [_ ?]].
Qed.

Lemma condition_type cs t c : condition cs t = Some c -> c_type c = t /\ c ∈ cs.
Proof.
  unfold condition. intros [Hin E]%find_some. apply String.eqb_eq in E.
  split; [done|]. by apply list_elem_of_In.
Qed.

Lemma condition_perm cs ds t :
  NoDup (c_type <$> cs) -> cs ≡ₚ ds -> condition cs t = condition ds t.
Proof.
  intros Hnd Hp. assert (Hnd' : NoDup (c_type <$> ds)) by (by rewrite <- Hp).
  destruct (condition cs t) as [c|] eqn:E.
  - apply condition_type in E as [<- Hc]. symmetry. apply condition_elem; [done|]. by rewrite <- Hp.
  - symmetry. apply condition_None. rewrite <- Hp. by apply condition_None.
Qed.

Lemma take_condition_spec t cs :
  NoDup (c_type <$> cs) ->
  (take_condition t cs).1 = condition cs t /\
  (take_condition t cs).2 = filter (fun c => c_type c <> t) cs.
Proof.
  unfold condition. induction cs as [|d cs IH]; intros Hnd; [done|].
  cbn [take_condition List.find]. rewrite fmap_cons in Hnd.
  apply NoDup_cons in Hnd as [Hd Hnd]. rewrite filter_cons.
  destruct (String.eqb_spec (c_type d) t) as [E|E].
  - rewrite decide_False by (by intros []). split; [done|]. cbn. symmetry. apply filter_all.
    intros c Hc Ht. apply Hd. rewrite E, <- Ht. by apply list_elem_of_fmap_2.
  - rewrite decide_True by done. destruct (take_condition t cs) as [f r]. cbn in *.
    destruct (IH Hnd) as [-> ->]. done.
Qed.

(** A status holds at most one condition of a type, in the order of the types. *)
Definition conditions_ok (cs : list Condition) : Prop := StronglySorted str_lt (c_type <$> cs).

Lemma set_condition_perm cs t status reason message generation now :
  conditions_ok cs ->
  set_condition cs t status reason message generation now ≡ₚ
    filter (fun c => c_type c <> t) cs ++
    [mkCondition t status reason message generation
       match condition cs t with
       | Some c => if String.eqb (c_status c) status then last_transition_time c else k8s_time now
       | None => k8s_time now
       end].
Proof.
  intros Hok. destruct (take_condition_spec t cs) as [E1 E2]; [by apply str_sorted_nodup|].
  unfold set_condition. destruct (take_condition t cs) as [f r]. cbn in E1, E2. subst.
  apply sort_by_perm.
Qed.

Lemma set_condition_nodup cs t c :
  NoDup (c_type <$> cs) -> c_type c = t -> NoDup (c_type <$> filter (fun c => c_type c <> t) cs ++ [c]).
Proof.
  intros Hnd Ht. rewrite fmap_app. apply NoDup_app. split_and!.
  - eapply sublist_NoDup; [exact Hnd|]. apply fmap_sublist, sublist_filter.
  - intros x [d [-> Hd]]%list_elem_of_fmap. apply list_elem_of_filter in Hd as [Hd _].
    cbn. rewrite list_elem_of_singleton. congruence.
  - apply NoDup_singleton.
Qed.

Lemma set_condition_facts cs t status reason message generation now :
  conditions_ok cs ->
  let cs' := set_condition cs t status reason message generation now in
  conditions_ok cs' /\
  (forall t', t' <> t -> condition cs' t' = condition cs t') /\
  exists c, condition cs' t = Some c /\ c_status c = status /\ c_reason c = reason /\
    c_message c = message /\ observed_generation c = generation /\
    last_transition_time c =
      match condition cs t with
      | Some old => if String.eqb (c_status old) status then last_transition_time old else k8s_time now
      | None => k8s_time now
      end.
Proof.
  intros Hok cs'. pose proof (str_sorted_nodup _ Hok) as Hnd.
  pose proof (set_condition_perm cs t status reason message generation now Hok) as Hp. fold cs' in Hp.
  set (c := mkCondition _ _ _ _ _ _) in Hp.
  pose proof (set_condition_nodup cs t c Hnd eq_refl) as Hnd'.
  assert (Hcs : NoDup (c_type <$> cs')) by (by rewrite Hp).
  split_and!.
  - subst cs'. unfold set_condition in *. destruct (take_condition t cs) as [f r]. apply sort_by_sorted.
    by rewrite sort_by_perm in Hcs.
  - intros t' Ht'. rewrite (condition_perm cs' _ t' Hcs Hp).
    destruct (condition cs t') as [d|] eqn:E.
    + apply condition_type in E as [<- Hd]. apply condition_elem; [done|].
      apply elem_of_app. left. by apply list_elem_of_filter.
    + apply condition_None in E. apply condition_None. rewrite fmap_app. intros [Hin|Hin]%elem_of_app.
      * apply list_elem_of_fmap in Hin as [d [-> Hd]]. apply list_elem_of_filter in Hd as [_ Hd].
        by apply E, list_elem_of_fmap_2.
      * apply list_elem_of_singleton in Hin. done.
  - exists c. split_and!; try done. rewrite (condition_perm cs' _ t Hcs Hp).
    change t with (c_type c). apply condition_elem; [done|]. apply elem_of_app. right. by left.
Qed.

(** Two lists of conditions that agree on every type are the same. *)
Lemma conditions_ext cs ds :
  conditions_ok cs -> conditions_ok ds -> (forall t, condition cs t = condition ds t) -> cs = ds.
Proof.
  intros Hc Hd Heq. assert (Hin : forall c, c ∈ cs <-> c ∈ ds).
  { intros c. rewrite <- (condition_elem cs c), <- (condition_elem ds c) by (by apply str_sorted_nodup).
    by rewrite Heq. }
  clear Heq. revert ds Hd Hin. induction cs as [|c cs IH]; intros ds Hd Hin.
  - destruct ds as [|d ds]; [done|]. exfalso. by apply (not_elem_of_nil d), Hin, list_elem_of_here.
  - destruct ds as [|d ds]; [exfalso; by apply (not_elem_of_nil c), Hin, list_elem_of_here|].
    unfold conditions_ok in *. cbn [fmap list_fmap] in Hc, Hd.
    apply StronglySorted_inv in Hc as [Hc Hcs], Hd as [Hd Hds]. rewrite Forall_forall in Hcs, Hds.
    assert (Hlt_c : forall x, x ∈ cs -> str_lt (c_type c) (c_type x)) by (intros x Hx; by apply Hcs, list_elem_of_fmap_2).
    assert (Hlt_d : forall x, x ∈ ds -> str_lt (c_type d) (c_type x)) by (intros x Hx; by apply Hds, list_elem_of_fmap_2).
    assert (E : c = d).
    { assert (H1 : c ∈ d :: ds) by (apply Hin; left). assert (H2 : d ∈ c :: cs) by (apply Hin; left).
      apply elem_of_cons in H1 as [?|H1]; [done|]. apply elem_of_cons in H2 as [?|H2]; [done|].
      exfalso. apply (str_lt_irrefl (c_type c)). trans (c_type d); [by apply Hlt_c|by apply Hlt_d]. }
    subst d. f_equal. apply IH; [done..|]. intros x. specialize (Hin x). rewrite !elem_of_cons in Hin. split.
    + intros Hx. destruct (proj1 Hin (or_intror Hx)) as [->|?]; [|done].
      exfalso. by eapply str_lt_irrefl, Hlt_c.
    + intros Hx. destruct (proj2 Hin (or_intror Hx)) as [->|?]; [|done].
      exfalso. by eapply str_lt_irrefl, Hlt_d.
Qed.

(** Setting a condition again changes nothing, whatever the time. *)
Lemma set_condition_again cs t status reason message generation now now' :
  conditions_ok cs ->
  let cs' := set_condition cs t status reason message generation now in
  set_condition cs' t status reason message generation now' = cs'.
Proof.
  intros Hok cs'. destruct (set_condition_facts cs t status reason message generation now Hok)
    as (Hok' & _ & c & Hc & Hst & Hr & Hm & Hg & _). fold cs' in Hok', Hc.
  destruct (set_condition_facts cs' t status reason message generation now' Hok')
    as (Hok2 & Hother & d & Hd & Hst2 & Hr2 & Hm2 & Hg2 & Hlast).
  apply conditions_ext; [done..|]. intros t'. destruct (decide (t' = t)) as [->|Hne]; [|by apply Hother].
  rewrite Hd, Hc. f_equal. rewrite Hc in Hlast. rewrite Hst, String.eqb_refl in Hlast.
  apply condition_type in Hd as [Htd _], Hc as [Htc _].
  destruct c, d; cbn in *. congruence.
Qed.

(** Setting a condition leaves one condition of each type, in order, and the
    other types as they were; its transition time only moves when its status
    changes. *)
Theorem set_condition_spec cs t status reason message generation now :
  conditions_ok cs ->
  let cs' := set_condition cs t status reason message generation now in
  conditions_ok cs' /\
  (forall t', t' <> t -> condition cs' t' = condition cs t') /\
  exists c, condition cs' t = Some c /\ c_status c = status /\ c_reason c = reason /\
    c_message c = message /\ observed_generation c = generation /\
    last_transition_time c =
      match condition cs t with
      | Some old => if String.eqb (c_status old) status then last_transition_time old else k8s_time now
      | None => k8s_time now
      end.
Proof. intros Hok. by apply set_condition_facts. Qed.

Lemma set_condition_spec_witness :
  conditions_ok [] /\
  conditions_ok (set_condition [] CONDITION_ABLE_TO_SCALE STATUS_TRUE REASON_READY "ok" None 5000000).
Proof.
  assert (H : conditions_ok []) by constructor. split; [done|].
  apply (set_condition_spec [] CONDITION_ABLE_TO_SCALE STATUS_TRUE REASON_READY "ok" None 5000000 H).
Defined.
