(* ===== verification/VolumePolicy.v ===== *)
(** * Which autoscaler grows which instance (volume-autoscaler:
    autoscaler/instance_volume/crd.rs, autoscaler/instance_volume/policy.rs)

    An [InstanceVolumeAutoscaler] is compiled into a target and effective
    settings; a pass assigns the discovered instances to the autoscalers that
    target them.  An autoscaler that shares an instance with another is
    ambiguous, and none of its instances is managed. *)

From Corelib Require Import SpecFloat.
From stdpp Require Import prelude list strings pretty sorting.
From Stdlib Require Import ZArith Lia Ascii.
From S2P Require Import Prelude.
From S2P Require Import Strings.
From S2P Require Import BTree.
From S2P Require Import F64.
From S2P Require Import Autoscaler.

(** ** Data *)

(** A discovered instance and its root volume (awsx/types.rs). *)
Record Instance_ := mkInstance {
  inst_id : string;
  inst_name : string;
  inst_tags : BTreeMap string;
  root_device_name : string;
  root_volume_id : string;
  root_volume_size_gib : Z;
}.

Inductive TargetKind := InstanceKind | TagSelector.

Record ScaleTargetRef := mkTargetRef {
  kind : TargetKind;
  ref_name : option string;
  ref_tags : option (BTreeMap string);
}.

(** A metric is the one of storage: its average utilization. *)
Record InstanceVolumeAutoscalerSpec := mkIvaSpec {
  scale_target_ref : ScaleTargetRef;
  max_capacity : Quantity;
  metrics : list Z;
  behavior : option (option ScalingRules);
  spec_alert_enabled : bool;
}.

Record InstanceStatus := mkInstanceStatus {
  is_instance_id : string;
  is_name : string;
  is_volume_id : string;
  is_current_capacity : option Quantity;
  is_desired_capacity : option Quantity;
  is_current_utilization : option Z;
  is_last_scale_time : option Z;
  is_cooldown_until : option Z;
  is_reason : string;
  is_message : string;
}.

Record InstanceVolumeAutoscalerStatus := mkIvaStatus {
  st_target : string;
  st_utilization : string;
  st_reason : string;
  st_cooldown_duration : string;
  st_observed_generation : option Z;
  st_last_scale_time : option Z;
  st_current_volumes : Z;
  st_instances : list InstanceStatus;
  st_conditions : list Condition;
}.

Record InstanceVolumeAutoscaler := mkIva {
  iva_name : option string;
  iva_uid : option string;
  iva_generation : option Z;
  iva_spec : InstanceVolumeAutoscalerSpec;
  iva_status : option InstanceVolumeAutoscalerStatus;
}.

(** The resolved settings of one autoscaler. *)
Record Effective := mkEffective {
  policy : string;
  uid : string;
  generation : option Z;
  paused : bool;
  alert_enabled : bool;
  usage_threshold_percent : Z;
  select_min : bool;
  steps : list Step;
  max_volume_size_gib : Z;
  cooldown : Z;
}.

Inductive Target := TInstance (id : string) | TTags (tags : BTreeMap string).

Record Compiled := mkCompiled { target : Target; effective : Effective }.

Definition matches (t : Target) (inst : Instance_) : bool :=
  match t with
  | TInstance id => String.eqb (inst_id inst) id
  | TTags tags =>
      forallb (fun '(k, v) => match bt_get k (inst_tags inst) with
                              | Some w => String.eqb w v
                              | None => false
                              end) tags
  end.

(** ** Compiling *)

Definition is_instance_id_ (s : string) : bool :=
  match strip_prefix "i-" s with
  | Some hex =>
      (8 <=? Z.of_nat (String.length hex)) && (Z.of_nat (String.length hex) <=? 17) &&
      str_all (fun c => is_ascii_digit c || ((97 <=? N_of_ascii c)%N && (N_of_ascii c <=? 102)%N)) hex
  | None => false
  end.

Definition compile_target (r : ScaleTargetRef) : result string Target :=
  match kind r with
  | InstanceKind =>
      if is_some (ref_tags r) then Err "scaleTargetRef.tags is not allowed with kind Instance" else
      match ref_name r with
      | Some id =>
          if is_instance_id_ id then Ok (TInstance id)
          else Err ("scaleTargetRef.name " +:+ str_debug id +:+ " is not an EC2 instance ID")
      | None => Err "scaleTargetRef.name is required with kind Instance"
      end
  | TagSelector =>
      if is_some (ref_name r) then Err "scaleTargetRef.name is not allowed with kind TagSelector" else
      let tags := default [] (ref_tags r) in
      if decide (tags = []) then Err "scaleTargetRef.tags is required with kind TagSelector"
      else if existsb (fun '(k, v) => str_is_empty k || str_is_empty v) tags then
        Err "scaleTargetRef.tags entries need a non-empty key and value"
      else if (50 <? zlen tags) ||
              existsb (fun '(k, v) => (128 <? Z.of_nat (String.length k)) ||
                                      (256 <? Z.of_nat (String.length v))) tags then
        Err "scaleTargetRef.tags allows up to 50 tags with keys up to 128 and values up to 256 characters"
      else Ok (TTags tags)
  end.

Definition cooldown_of (raw : option string) : result string Z :=
  match raw with
  | None => Ok MIN_COOLDOWN
  | Some raw =>
      let? d := map_err (fun e => "behavior.scaleUp.cooldownDuration: " +:+ e) (parse_cooldown raw) in
      if d <? MIN_COOLDOWN then
        Err ("behavior.scaleUp.cooldownDuration " +:+ str_debug raw +:+
             " is shorter than 6h, which keeps a volume within the EBS limit of four modifications in 24 hours")
      else Ok d
  end.

Section Compile.
Context (powi10 : Z -> f64).

Definition compile (iva : InstanceVolumeAutoscaler) : result string Compiled :=
  let name := default EmptyString (iva_name iva) in
  let spec := iva_spec iva in
  let? target := compile_target (scale_target_ref spec) in
  let? max := map_err (fun e => "maxCapacity: " +:+ e) (quantity_gib powi10 (max_capacity spec)) in
  let bytes := match quantity_bytes powi10 (max_capacity spec) with
               | Ok b => b
               | Err _ => f64_of_Z 0
               end in
  if f64_lt bytes GIB then Err "maxCapacity must be at least 1Gi" else
  let threshold := match metrics spec with m :: _ => m | [] => DEFAULT_UTILIZATION_PERCENT end in
  if 1 <? zlen (metrics spec) then Err "metrics supports a single storage metric" else
  if negb ((1 <=? threshold) && (threshold <=? 100)) then
    Err ("averageUtilization must be between 1 and 100, got " +:+ pretty threshold) else
  let rules := default default_rules (mjoin (behavior spec)) in
  let select := select_policy rules in
  let? steps := compile_steps (policies rules) in
  let? cooldown := cooldown_of (cooldown_duration rules) in
  Ok {| target := target;
        effective :=
          {| policy := name;
             uid := default EmptyString (iva_uid iva);
             generation := iva_generation iva;
             paused := bool_decide (select = SelectDisabled);
             alert_enabled := spec_alert_enabled spec;
             usage_threshold_percent := threshold;
             select_min := bool_decide (select = SelectMin);
             steps := steps;
             max_volume_size_gib := max;
             cooldown := cooldown |} |}.

(** ** The autoscalers of a pass *)

Record Resolver := mkResolver {
  autoscalers : list Compiled;
  invalid : list (string * string);
}.

Definition name_of (c : Compiled) : string := policy (effective c).

Definition resolver_push (r : Resolver) (iva : InstanceVolumeAutoscaler) : Resolver :=
  match compile iva with
  | Ok c => mkResolver (autoscalers r ++ [c]) (invalid r)
  | Err err => mkResolver (autoscalers r) (invalid r ++ [(default EmptyString (iva_name iva), err)])
  end.

Definition resolver_new (ivas : list InstanceVolumeAutoscaler) : Resolver :=
  let r := foldl resolver_push (mkResolver [] []) ivas in
  mkResolver (sort_by name_of (autoscalers r)) (invalid r).
End Compile.

Definition names (r : Resolver) : list string := map name_of (autoscalers r).

Definition resolver_get (r : Resolver) (name : string) : option Compiled :=
  List.find (fun c => String.eqb (name_of c) name) (autoscalers r).

Definition matching (r : Resolver) (inst : Instance_) : list Compiled :=
  List.filter (fun c => matches (target c) inst) (autoscalers r).

(** ** The plan of a pass *)

(** [BTreeSet<String>]. *)
Definition BTreeSet : Type := BTreeMap unit.
Definition set_add (x : string) (s : BTreeSet) : BTreeSet := bt_upsert (fun _ => tt) x s.
Definition set_extend (xs : list string) (s : BTreeSet) : BTreeSet := foldl (fun s x => set_add x s) s xs.

Record Plan := mkPlan {
  managed : list (nat * Effective);
  refused : list (nat * list string);
  unmanaged : nat;
  conflicts : BTreeMap BTreeSet;
}.

(** The overlaps one instance shows: each of its autoscalers and the others. *)
Definition overlaps_of (m : list Compiled) : list (string * list string) :=
  if Nat.ltb (length m) 2 then []
  else map (fun c => (name_of c,
              map name_of (List.filter (fun o => negb (String.eqb (name_of o) (name_of c))) m))) m.

Definition add_overlap (conflicts : BTreeMap BTreeSet) (o : string * list string) : BTreeMap BTreeSet :=
  bt_upsert (fun s => set_extend o.2 (default [] s)) o.1 conflicts.

Definition conflicts_of (ms : list (list Compiled)) : BTreeMap BTreeSet :=
  foldl add_overlap [] (flat_map overlaps_of ms).

Definition assign (conflicts : BTreeMap BTreeSet) (p : Plan) (im : nat * list Compiled) : Plan :=
  let '(i, m) := im in
  let refuse := mkPlan (managed p) (refused p ++ [(i, map name_of m)]) (unmanaged p) conflicts in
  match m with
  | [] => mkPlan (managed p) (refused p) (S (unmanaged p)) conflicts
  | [c] =>
      if is_some (bt_get (name_of c) conflicts) then refuse
      else mkPlan (managed p ++ [(i, effective c)]) (refused p) (unmanaged p) conflicts
  | _ => refuse
  end.

Definition plan (r : Resolver) (instances : list Instance_) : Plan :=
  let ms := map (matching r) instances in
  let conflicts := conflicts_of ms in
  foldl (assign conflicts) (mkPlan [] [] 0 conflicts) (imap pair ms).

(** ** Facts *)

Definition conflicts_ok (cs : BTreeMap BTreeSet) : Prop :=
  bt_sorted cs /\ forall k s, bt_get k cs = Some s -> bt_sorted s.

Lemma is_some_spec {A} (o : option A) : is_some o = true <-> is_Some o.
Proof. by destruct o. Qed.

(** [x] is an element of the set stored for [k]. *)
Definition conflicting (cs : BTreeMap BTreeSet) (k x : string) : Prop :=
  exists s, bt_get k cs = Some s /\ x ∈ s.*1.

Lemma set_extend_spec xs s :
  bt_sorted s -> bt_sorted (set_extend xs s) /\ forall x, x ∈ (set_extend xs s).*1 <-> x ∈ xs \/ x ∈ s.*1.
Proof.
  unfold set_extend. revert s. induction xs as [|y xs IH]; cbn; intros s Hs.
  { split; [done|]. intros x. rewrite elem_of_nil. by intuition. }
  destruct (IH (set_add y s)) as [Hs' Hx]; [by apply bt_upsert_sorted|]. split; [done|].
  intros x. rewrite Hx, elem_of_cons. unfold set_add. rewrite bt_upsert_key. by intuition.
Qed.

Lemma add_overlap_spec cs o :
  conflicts_ok cs ->
  conflicts_ok (add_overlap cs o) /\
  (forall k, is_Some (bt_get k (add_overlap cs o)) <-> k = o.1 \/ is_Some (bt_get k cs)) /\
  (forall k x, conflicting (add_overlap cs o) k x <-> (k = o.1 /\ x ∈ o.2) \/ conflicting cs k x).
Proof.
  intros [Hs Hsets]. destruct o as [n xs]. cbn. set (f := fun s => set_extend xs (default [] s)).
  assert (Hdef : bt_sorted (default [] (bt_get n cs)))
    by (destruct (bt_get n cs) eqn:E; [by eapply Hsets|constructor]).
  destruct (set_extend_spec xs _ Hdef) as [Hn Hnx].
  assert (Hget : forall k, bt_get k (add_overlap cs (n, xs)) =
                           if decide (k = n) then Some (f (bt_get n cs)) else bt_get k cs).
  { intros k. unfold add_overlap. cbn. case_decide as E; [subst k; by rewrite bt_get_upsert|].
    by rewrite bt_get_upsert_ne. }
  split_and!.
  - split; [by apply bt_upsert_sorted|]. intros k s. rewrite Hget. case_decide; [intros [= <-]; done|].
    apply Hsets.
  - intros k. rewrite Hget. case_decide as E; [subst k; by intuition|]. split; [by right|].
    by intros [?|?].
  - intros k x. unfold conflicting. rewrite Hget. case_decide as E.
    + subst k. split.
      * intros (s & [= <-] & Hx). apply Hnx in Hx as [Hx|Hx]; [by left|]. right.
        destruct (bt_get n cs) as [s|]; [by exists s|by apply elem_of_nil in Hx].
      * intros [[_ Hx]|(s & E & Hx)]; (eexists; split; [done|]; apply Hnx); [by left|].
        right. by rewrite E.
    + split; [by right|]. by intros [[-> _]|?].
Qed.

Lemma add_overlaps_spec os cs :
  conflicts_ok cs ->
  conflicts_ok (foldl add_overlap cs os) /\
  (forall k, is_Some (bt_get k (foldl add_overlap cs os)) <-> k ∈ os.*1 \/ is_Some (bt_get k cs)) /\
  (forall k x, conflicting (foldl add_overlap cs os) k x <->
               (exists xs, (k, xs) ∈ os /\ x ∈ xs) \/ conflicting cs k x).
Proof.
  revert cs. induction os as [|[n ys] os IH]; cbn; intros cs Hok.
  { split_and!; [done|intros k; rewrite elem_of_nil; by intuition|].
    intros k x. split; [by right|]. intros [(xs & []%elem_of_nil & _)|?]; done. }
  destruct (add_overlap_spec cs (n, ys) Hok) as (H1 & H2 & H3). cbn in H2, H3.
  destruct (IH _ H1) as (J1 & J2 & J3). split_and!; [done|..].
  - intros k. rewrite J2, H2, elem_of_cons. by intuition.
  - intros k x. rewrite J3, H3. split.
    + intros [(xs & Hin & Hx)|[[-> Hx]|?]]; [left; exists xs; split; [by right|done]| |by right].
      left. exists ys. split; [by left|done].
    + intros [(xs & [[= -> ->]|Hin]%elem_of_cons & Hx)|?]; [by right; left| |by right; right].
      left. by exists xs.
Qed.

(** Two autoscalers target one instance of the pass. *)
Definition shares (ms : list (list Compiled)) (k x : string) : Prop :=
  exists m c o, m ∈ ms /\ c ∈ m /\ o ∈ m /\ name_of c = k /\ name_of o = x /\ k <> x.

Lemma overlaps_of_elem m k xs :
  (k, xs) ∈ overlaps_of m <->
  (2 <= length m)%nat /\ exists c, c ∈ m /\ name_of c = k /\
    xs = map name_of (List.filter (fun o => negb (String.eqb (name_of o) k)) m).
Proof.
  unfold overlaps_of. destruct (Nat.ltb_spec (length m) 2).
  - rewrite elem_of_nil. split; [done|lia].
  - rewrite list_elem_of_In, in_map_iff. split.
    + intros (c & [= <- <-] & Hc). split; [done|]. exists c. by rewrite list_elem_of_In.
    + intros (_ & c & Hc & <- & ->). exists c. by rewrite <- list_elem_of_In.
Qed.

Lemma conflicts_of_spec ms :
  Forall (fun m => NoDup (map name_of m)) ms ->
  (forall k, is_Some (bt_get k (conflicts_of ms)) <-> exists x, shares ms k x) /\
  (forall k x, conflicting (conflicts_of ms) k x <-> shares ms k x).
Proof.
  intros Hnd. destruct (add_overlaps_spec (flat_map overlaps_of ms) []) as (_ & H2 & H3).
  { split; [constructor|done]. }
  assert (Hx : forall k x, conflicting (conflicts_of ms) k x <-> shares ms k x).
  { intros k x. unfold conflicts_of. rewrite H3. split.
    - intros [(xs & Hin & Hx)|(s & ? & _)]; [|done].
      apply list_elem_of_In, in_flat_map in Hin as (m & Hm & Hin).
      apply list_elem_of_In, overlaps_of_elem in Hin as (_ & c & Hc & Hk & ->).
      apply list_elem_of_In, in_map_iff in Hx as (o & Ho & Hin). apply filter_In in Hin as [Hin Hne].
      exists m, c, o. rewrite !list_elem_of_In. split_and!; try done; [by apply list_elem_of_In|].
      intros ->. by rewrite Ho, String.eqb_refl in Hne.
    - intros (m & c & o & Hm & Hc & Ho & Hk & Hx & Hne). left.
      exists (map name_of (List.filter (fun o => negb (String.eqb (name_of o) k)) m)). split.
      + apply list_elem_of_In, in_flat_map. exists m. split; [by apply list_elem_of_In|].
        apply list_elem_of_In, overlaps_of_elem. split; [|by exists c].
        destruct m as [|a [|b m]]; cbn; [by apply elem_of_nil in Ho| |lia].
        apply list_elem_of_singleton in Ho, Hc. congruence.
      + apply list_elem_of_In, in_map_iff. exists o. split; [done|]. apply filter_In.
        split; [by apply list_elem_of_In|]. apply negb_true_iff, String.eqb_neq. congruence. }
  split; [|done]. intros k. unfold conflicts_of at 1. rewrite H2. split.
  - intros [Hk|[? ?]]; [|done]. apply list_elem_of_fmap in Hk as ([k' xs] & -> & Hin). cbn.
    pose proof Hin as Hin'. apply list_elem_of_In, in_flat_map in Hin as (m & Hm & Hin).
    apply list_elem_of_In, overlaps_of_elem in Hin as (Hlen & c & Hc & Hk & ->).
    rewrite Forall_forall in Hnd. specialize (Hnd m (proj2 (list_elem_of_In _ _) Hm)).
    destruct m as [|a [|b m]]; cbn in Hlen; [lia..|].
    cbn [map] in Hnd. apply NoDup_cons in Hnd as [Hab _].
    destruct (decide (name_of a = k')) as [E|E].
    + exists (name_of b). exists (a :: b :: m), c, b. rewrite !list_elem_of_In in *.
      split_and!; try done; [by right; left|]. rewrite <- E. intros Heq. apply Hab. rewrite Heq. by left.
    + exists (name_of a). exists (a :: b :: m), c, a. rewrite !list_elem_of_In in *.
      split_and!; try done. by left.
  - intros [x Hx']. apply Hx in Hx' as (s & E & _). unfold conflicts_of in E.
    rewrite <- H2. by rewrite E.
Qed.

(** The autoscaler of that name targets the instance. *)
Definition targets (r : Resolver) (name : string) (inst : Instance_) : Prop :=
  exists c, c ∈ autoscalers r /\ name_of c = name /\ matches (target c) inst = true.

(** Another autoscaler targets an instance this one targets. *)
Definition ambiguous (r : Resolver) (instances : list Instance_) (name : string) : Prop :=
  exists inst other, inst ∈ instances /\ other <> name /\ targets r name inst /\ targets r other inst.

Definition managed_one (cs : BTreeMap BTreeSet) (im : nat * list Compiled) : option (nat * Effective) :=
  match im.2 with
  | [c] => if is_some (bt_get (name_of c) cs) then None else Some (im.1, effective c)
  | _ => None
  end.

Definition refused_one (cs : BTreeMap BTreeSet) (im : nat * list Compiled) : option (nat * list string) :=
  match im.2 with
  | [] => None
  | [c] => if is_some (bt_get (name_of c) cs) then Some (im.1, map name_of im.2) else None
  | _ => Some (im.1, map name_of im.2)
  end.

Lemma assign_fold cs l p :
  let q := foldl (assign cs) p l in
  managed q = managed p ++ omap (managed_one cs) l /\
  refused q = refused p ++ omap (refused_one cs) l /\
  unmanaged q = (unmanaged p + length (filter (fun im => im.2 = []) l))%nat.
Proof.
  revert p. induction l as [|[i m] l IH]; intros p; cbn [foldl omap list_omap].
  { rewrite !app_nil_r. split_and!; [done..|]. rewrite filter_nil. cbn. lia. }
  destruct (IH (assign cs p (i, m))) as (H1 & H2 & H3). rewrite filter_cons. cbn [snd].
  unfold managed_one at 1, refused_one at 1. cbn [fst snd] in *.
  destruct m as [|c [|d m]]; [rewrite decide_True by done|rewrite decide_False by done..];
    cbn [assign] in *; [split_and!; try done; cbn in *; lia| |].
  - destruct (is_some (bt_get (name_of c) cs)); cbn in *; rewrite ?H1, ?H2, <- ?app_assoc; done.
  - cbn in *. rewrite H1, H2, <- app_assoc. done.
Qed.

Lemma matching_elem r inst c :
  c ∈ matching r inst <-> c ∈ autoscalers r /\ matches (target c) inst = true.
Proof. unfold matching. by rewrite !list_elem_of_In, filter_In. Qed.

Lemma matching_names r inst : NoDup (names r) -> NoDup (map name_of (matching r inst)).
Proof.
  unfold names, matching. induction (autoscalers r) as [|c l IH]; cbn; intros Hnd; [constructor|].
  apply NoDup_cons in Hnd as [Hc Hnd]. destruct (matches (target c) inst); cbn; [|by apply IH].
  apply NoDup_cons. split; [|by apply IH]. intros Hin. apply Hc.
  apply list_elem_of_In, in_map_iff in Hin as (d & <- & Hd). apply filter_In in Hd as [Hd _].
  by apply list_elem_of_In, in_map.
Qed.

Lemma targets_matching r name inst :
  targets r name inst <-> exists c, c ∈ matching r inst /\ name_of c = name.
Proof.
  unfold targets. split.
  - intros (c & Hc & Hn & Hm). exists c. by rewrite matching_elem.
  - intros (c & [Hc Hm]%matching_elem & Hn). by exists c.
Qed.

Lemma shares_targets r instances k x :
  shares (map (matching r) instances) k x <->
  k <> x /\ exists inst, inst ∈ instances /\ targets r k inst /\ targets r x inst.
Proof.
  unfold shares. split.
  - intros (m & c & o & Hm & Hc & Ho & Hk & Hx & Hne). split; [done|].
    apply list_elem_of_In, in_map_iff in Hm as (inst & <- & Hin). exists inst.
    rewrite !targets_matching. split_and!; [by apply list_elem_of_In|by exists c|by exists o].
  - intros (Hne & inst & Hin & (c & Hc & Hk)%targets_matching & (o & Ho & Hx)%targets_matching).
    exists (matching r inst), c, o. split_and!; try done.
    apply list_elem_of_In, in_map_iff. exists inst. by rewrite <- list_elem_of_In.
Qed.

Lemma conflicts_plan r instances :
  NoDup (names r) ->
  (forall k, is_some (bt_get k (conflicts_of (map (matching r) instances))) = true <-> ambiguous r instances k) /\
  (forall k x, conflicting (conflicts_of (map (matching r) instances)) k x <->
     k <> x /\ exists inst, inst ∈ instances /\ targets r k inst /\ targets r x inst).
Proof.
  intros Hnd. destruct (conflicts_of_spec (map (matching r) instances)) as [H1 H2].
  { apply Forall_forall. intros m Hm. apply list_elem_of_In, in_map_iff in Hm as (inst & <- & _).
    by apply matching_names. }
  split.
  - intros k. trans (is_Some (bt_get k (conflicts_of (map (matching r) instances)))).
    { by rewrite is_some_spec. }
    rewrite H1. unfold ambiguous. split.
    + intros [x (Hne & inst & Hin & Hk & Hx)%shares_targets]. by exists inst, x.
    + intros (inst & x & Hin & Hne & Hk & Hx). exists x. apply shares_targets. split; [done|]. by exists inst.
  - intros k x. by rewrite H2, shares_targets.
Qed.

Lemma imap_pair_elem {A} (l : list A) i x : (i, x) ∈ imap pair l <-> l !! i = Some x.
Proof.
  rewrite list_elem_of_lookup. setoid_rewrite list_lookup_imap_Some. split.
  - by intros (j & y & Hy & [= -> ->]).
  - intros H. by exists i, x.
Qed.

Lemma managed_one_elem cs ms i eff :
  (i, eff) ∈ omap (managed_one cs) (imap pair ms) <->
  exists c, ms !! i = Some [c] /\ effective c = eff /\ is_some (bt_get (name_of c) cs) = false.
Proof.
  rewrite list_elem_of_omap. split.
  - intros ([j m] & Hin & E). apply imap_pair_elem in Hin. unfold managed_one in E. cbn in E.
    destruct m as [|c [|]]; [done| |done]. destruct (is_some _) eqn:Hs; [done|].
    injection E as <- <-. by exists c.
  - intros (c & Hm & <- & Hs). exists (i, [c]). rewrite imap_pair_elem. unfold managed_one. cbn. by rewrite Hs.
Qed.

Lemma refused_one_elem cs ms i ns :
  (i, ns) ∈ omap (refused_one cs) (imap pair ms) <->
  exists m, ms !! i = Some m /\ m <> [] /\ ns = map name_of m /\
    forall c, m = [c] -> is_some (bt_get (name_of c) cs) = true.
Proof.
  rewrite list_elem_of_omap. split.
  - intros ([j m] & Hin & E). apply imap_pair_elem in Hin. unfold refused_one in E. cbn in E.
    destruct m as [|c [|d m]]; [done|destruct (is_some _) eqn:Hs; [|done]|]; injection E as <- <-;
      eexists; split_and!; try done. by intros ? [= <-].
  - intros (m & Hm & Hne & -> & Hs). exists (i, m). rewrite imap_pair_elem. split; [done|].
    unfold refused_one. cbn. destruct m as [|c [|d m]]; [done|by rewrite (Hs c)|done].
Qed.

Lemma omap_pair_nodup {A B} (f : nat * A -> option (nat * B)) (l : list A) :
  (forall im x, f im = Some x -> x.1 = im.1) -> NoDup (omap f (imap pair l)).*1.
Proof.
  intros Hf. assert (Hs : (omap f (imap pair l)).*1 `sublist_of` (imap pair l).*1).
  { generalize (imap pair l). intros k. induction k as [|im k IH]; cbn; [constructor|].
    destruct (f im) as [x|] eqn:E; cbn; [rewrite (Hf _ _ E)|]; by constructor. }
  eapply sublist_NoDup; [|exact Hs]. rewrite fmap_imap.
  rewrite (imap_ext _ (fun i _ => i)) by done. apply NoDup_alt. intros i j x Hi Hj.
  apply list_lookup_imap_Some in Hi as (? & _ & ->), Hj as (? & _ & E). done.
Qed.

Lemma assign_conflicts cs l q : conflicts q = cs -> conflicts (foldl (assign cs) q l) = cs.
Proof.
  revert q. induction l as [|[i m] l IH]; cbn; intros q Hq; [done|]. apply IH.
  destruct m as [|c [|]]; cbn; [done|by destruct (is_some _)|done].
Qed.

Lemma plan_counts cs (l : list (nat * list Compiled)) :
  (length (omap (managed_one cs) l) + length (omap (refused_one cs) l) +
   length (filter (fun im : nat * list Compiled => im.2 = []) l))%nat = length l.
Proof.
  induction l as [|[i m] l IH]; [done|]. rewrite filter_cons. cbn [omap list_omap snd].
  unfold managed_one at 1, refused_one at 1. cbn [fst snd].
  destruct m as [|c [|d m]]; [rewrite decide_True by done|rewrite decide_False by done..]; cbn.
  - lia.
  - destruct (is_some _); cbn; lia.
  - lia.
Qed.

Lemma plan_managed r instances i eff :
  (i, eff) ∈ managed (plan r instances) ->
  exists inst c, instances !! i = Some inst /\ matching r inst = [c] /\ effective c = eff /\
    is_some (bt_get (name_of c) (conflicts_of (map (matching r) instances))) = false.
Proof.
  unfold plan. set (cs := conflicts_of _).
  destruct (assign_fold cs (imap pair (map (matching r) instances)) (mkPlan [] [] 0 cs)) as (Em & _ & _).
  cbn [managed app] in Em. rewrite Em, managed_one_elem. intros (c & Hm & He & Hs).
  apply list_lookup_fmap_Some in Hm as (inst & Hm & Hi). by exists inst, c.
Qed.

(** What compiling guarantees of the settings. *)
Definition effective_ok (eff : Effective) : Prop :=
  1 <= usage_threshold_percent eff <= 100 /\ Forall (fun s => 0 < step_value s) (steps eff) /\
  MIN_COOLDOWN <= cooldown eff.

Lemma cooldown_of_least raw d : cooldown_of raw = Ok d -> MIN_COOLDOWN <= d.
Proof.
  unfold cooldown_of. destruct raw as [raw|]; [|by intros [= <-]].
  destruct (map_err _ _) as [x|]; [|done]. destruct (x <? MIN_COOLDOWN) eqn:E; [done|].
  intros [= <-]. by bool_to_prop.
Qed.

Lemma compile_ok powi10 iva c : compile powi10 iva = Ok c -> effective_ok (effective c).
Proof.
  unfold compile. destruct (compile_target _); [|done]. destruct (map_err _ _); [|done].
  destruct (f64_lt _ _); [done|]. destruct (1 <? _); [done|].
  set (threshold := match metrics _ with [] => _ | _ => _ end). destruct (negb _) eqn:Et; [done|].
  destruct (compile_steps _) as [ss|] eqn:Es; [|done]. destruct (cooldown_of _) as [d|] eqn:Ec; [|done].
  intros [= <-]. unfold effective_ok. cbn. bool_to_prop. split_and!; try lia.
  - by eapply compile_steps_positive.
  - by eapply cooldown_of_least.
Qed.

Lemma resolver_elem powi10 ivas c :
  c ∈ autoscalers (resolver_new powi10 ivas) <-> exists iva, iva ∈ ivas /\ compile powi10 iva = Ok c.
Proof.
  unfold resolver_new. cbn. rewrite (sort_by_perm name_of).
  assert (H : forall r, c ∈ autoscalers (foldl (resolver_push powi10) r ivas) <->
    c ∈ autoscalers r \/ exists iva, iva ∈ ivas /\ compile powi10 iva = Ok c).
  { induction ivas as [|iva ivas IH]; intros r; cbn.
    - split; [by left|]. by intros [?|(iva & ?%elem_of_nil & _)].
    - rewrite IH. unfold resolver_push. setoid_rewrite elem_of_cons. destruct (compile powi10 iva) as [d|] eqn:E; cbn.
      + rewrite elem_of_app, list_elem_of_singleton. split.
        * intros [[?| ->]|(v & ? & ?)]; eauto.
        * intros [?|(v & [->|?] & Hc)]; eauto. left. right. congruence.
      + split; [intros [?|(v & ? & ?)]; eauto|]. intros [?|(v & [->|?] & ?)]; eauto. congruence. }
  rewrite H. cbn. split; [|eauto]. intros [?%elem_of_nil|?]; done.
Qed.

(** A pass manages an instance exactly when one autoscaler targets it and that
    autoscaler shares no instance of the pass with another; every other targeted
    instance is refused under the names of all its autoscalers, and every
    instance is managed, refused or unmanaged, once. *)
Theorem plan_assigns r instances :
  NoDup (names r) ->
  let p := plan r instances in
  (forall i eff, (i, eff) ∈ managed p <->
     exists inst c, instances !! i = Some inst /\ matching r inst = [c] /\ effective c = eff /\
       ~ ambiguous r instances (name_of c)) /\
  (forall i ns, (i, ns) ∈ refused p <->
     exists inst, instances !! i = Some inst /\ ns = map name_of (matching r inst) /\ ns <> [] /\
       forall name, ns = [name] -> ambiguous r instances name) /\
  (forall k x, conflicting (conflicts p) k x <->
     k <> x /\ exists inst, inst ∈ instances /\ targets r k inst /\ targets r x inst) /\
  NoDup (managed p).*1 /\ NoDup (refused p).*1 /\
  (length (managed p) + length (refused p) + unmanaged p)%nat = length instances.
Proof.
  intros Hnd p. destruct (conflicts_plan r instances Hnd) as [Hamb Hconf].
  set (cs := conflicts_of (map (matching r) instances)) in *.
  destruct (assign_fold cs (imap pair (map (matching r) instances)) (mkPlan [] [] 0 cs)) as (Em & Er & Eu).
  cbn [managed refused unmanaged app Nat.add] in Em, Er, Eu.
  assert (Hl : forall i m, map (matching r) instances !! i = Some m <->
    exists inst, instances !! i = Some inst /\ matching r inst = m).
  { intros i m. rewrite list_lookup_fmap_Some. split; intros (inst & H1 & H2); by exists inst. }
  split_and!.
  - intros i eff. unfold p, plan. fold cs. rewrite Em, managed_one_elem. split.
    + intros (c & (inst & Hi & Hm)%Hl & He & Hs). exists inst, c. split_and!; try done.
      intros Ha. apply Hamb in Ha. fold cs in Ha. congruence.
    + intros (inst & c & Hi & Hm & He & Ha). exists c. rewrite Hl. split_and!; [by exists inst|done|].
      destruct (is_some _) eqn:Hs; [|done]. by apply Hamb in Hs.
  - intros i ns. unfold p, plan. fold cs. rewrite Er, refused_one_elem. split.
    + intros (m & (inst & Hi & <-)%Hl & Hne & -> & Hs). exists inst. split_and!; try done.
      * by destruct (matching r inst).
      * intros name E. destruct (matching r inst) as [|c [|]]; [done| |done]. injection E as <-.
        by apply Hamb, Hs.
    + intros (inst & Hi & -> & Hne & Ha). exists (matching r inst). rewrite Hl. split_and!; [by exists inst| |done|].
      * by destruct (matching r inst).
      * intros c E. apply Hamb, Ha. by rewrite E.
  - intros k x. rewrite <- Hconf. unfold p, plan. fold cs. by rewrite assign_conflicts.
  - unfold p, plan. fold cs. rewrite Em. apply omap_pair_nodup. intros [i m] x. unfold managed_one. cbn.
    destruct m as [|c [|]]; [done| |done]. destruct (is_some _); [done|]. by intros [= <-].
  - unfold p, plan. fold cs. rewrite Er. apply omap_pair_nodup. intros [i m] x. unfold refused_one. cbn.
    destruct m as [|c [|]]; [done| |by intros [= <-]]. destruct (is_some _); [|done]. by intros [= <-].
  - unfold p, plan. fold cs. rewrite Em, Er, Eu, plan_counts, length_imap. apply length_map.
Qed.

(** *** An example: two autoscalers overlap on one of four instances, a third
    targets another one alone. *)

Definition demo_effective (name : string) : Effective :=
  mkEffective name ("uid-" +:+ name) (Some 1) false true 80 false [Percent 10; GiB 1] 100 MIN_COOLDOWN.

Definition demo_instance (id : string) (tags : BTreeMap string) (size : Z) : Instance_ :=
  mkInstance id id tags "/dev/xvda" ("vol-" +:+ id) size.

Definition demo_resolver : Resolver :=
  mkResolver [mkCompiled (TTags [("Role", "db")]) (demo_effective "db");
              mkCompiled (TInstance "i-1") (demo_effective "one");
              mkCompiled (TInstance "i-3") (demo_effective "three")] [].

Definition demo_instances : list Instance_ :=
  [demo_instance "i-1" [("Role", "db")] 10; demo_instance "i-2" [("Role", "db")] 20;
   demo_instance "i-3" [] 30; demo_instance "i-4" [] 40].

Example demo_plan :
  plan demo_resolver demo_instances =
  mkPlan [(2%nat, demo_effective "three")] [(0%nat, ["db"; "one"]); (1%nat, ["db"])] 1
    [("db", [("one", tt)]); ("one", [("db", tt)])].
Proof. vm_compute. done. Qed.

Lemma plan_assigns_witness :
  NoDup (names demo_resolver) /\
  (length (managed (plan demo_resolver demo_instances)) +
   length (refused (plan demo_resolver demo_instances)) +
   unmanaged (plan demo_resolver demo_instances))%nat = 4%nat.
Proof.
  assert (H : NoDup (names demo_resolver)) by (apply (bool_decide_unpack (NoDup (names demo_resolver))); by vm_compute).
  split; [done|]. destruct (plan_assigns demo_resolver demo_instances H) as (_ & _ & _ & _ & _ & E).
  exact E.
Defined.

Example demo_compile :
  let spec ref cooldown :=
    mkIvaSpec ref "100Gi" [70] (Some (Some (mkScalingRules SelectMin [mkScalingPolicy GiBPolicy 5] cooldown))) true in
  let iva ref cooldown := mkIva (Some "a") (Some "u") (Some 3) (spec ref cooldown) None in
  let one := mkTargetRef InstanceKind (Some "i-0123456789abcdef0") None in
  compile (fun _ => S754_nan) (iva one (Some "8h")) =
    Ok (mkCompiled (TInstance "i-0123456789abcdef0")
         (mkEffective "a" "u" (Some 3) false true 70 true [GiB 5] 100 28800)) /\
  is_ok (compile (fun _ => S754_nan) (iva one (Some "5h"))) = false /\
  is_ok (compile (fun _ => S754_nan) (iva (mkTargetRef InstanceKind (Some "i-XYZ") None) None)) = false /\
  is_ok (compile (fun _ => S754_nan) (iva (mkTargetRef TagSelector None None) None)) = false.
Proof. vm_compute. done. Qed.
