(* ===== verification/RecStore.v ===== *)
(** * Throughput recommendations (volume-autoscaler: recstore.rs,
    throughput/decide.rs, throughput.rs,
    autoscaler/instance_volume/resizer/piggyback.rs)

    The recommender turns what it observes of a node's volume into a decision
    and publishes it in a store of the process; the resizer folds a fresh
    increase into a size change it makes anyway. *)

From Corelib Require Import SpecFloat.
From stdpp Require Import prelude list strings pretty gmap.
From Stdlib Require Import ZArith Lia.
From S2P Require Import Prelude.
From S2P Require Import Strings.
From S2P Require Import F64.
From S2P Require Import Autoscaler.

(** ** The store *)

Record Entry := mkEntry {
  node_name : string;
  node_uid : string;
  action : string;
  throughput_mibps : Z;
  iops : Z;
  current_mibps : Z;
  current_iops : Z;
  observed_at : option Z;
}.

Definition Store : Type := gmap string Entry.

Definition publish (volume_id : string) (e : Entry) (s : Store) : Store :=
  if str_is_empty volume_id then s else <[volume_id := e]> s.

Definition store_delete (volume_id : string) (s : Store) : Store := delete volume_id s.

Definition retain (keep : gset string) (s : Store) : Store := filter (fun kv => kv.1 ∈ keep) s.

(** [TimeDelta::MAX], in nanoseconds. *)
Definition time_delta_max : Z := i64_max * 10 ^ 6.

Definition lookup_fresh (now : Z) (volume_id : string) (max_age : Z) (s : Store) : option Entry :=
  e ← s !! volume_id;
  observed ← observed_at e;
  if Z.min max_age time_delta_max <? now - observed then None else Some e.

Definition node_ref (volume_id : string) (s : Store) : option (string * string) :=
  e ← s !! volume_id;
  if str_is_empty (node_name e) then None else Some (node_name e, node_uid e).

(** ** The decision *)

Definition VOLUME_TYPE_GP3 : string := "gp3".
Definition GP3_MIN_THROUGHPUT_MIBPS : Z := 125.
Definition GP3_MAX_THROUGHPUT_MIBPS : Z := 1000.
Definition GP3_MIN_IOPS : Z := 3000.
Definition GP3_MAX_IOPS : Z := 16000.
Definition GP3_IOPS_PER_MIBPS : Z := 4.

Definition ACTION_INCREASE : string := "increase".
Definition ACTION_DECREASE : string := "decrease".
Definition ACTION_NONE : string := "none".
Definition ACTION_UNKNOWN : string := "unknown".

Definition REASON_FITS : string := "observed_peak_within_provisioned".
Definition REASON_BELOW_PROVISIONED : string := "observed_peak_far_below_provisioned".
Definition REASON_ABOVE_PROVISIONED : string := "observed_peak_above_provisioned".
Definition REASON_INSTANCE_BANDWIDTH_CAP : string := "clamped_to_instance_bandwidth".
Definition REASON_VOLUME_MAX_CAP : string := "clamped_to_gp3_maximum".
Definition REASON_INSUFFICIENT_DATA : string := "insufficient_samples".
Definition REASON_NODE_TOO_YOUNG : string := "node_younger_than_window".
Definition REASON_UNSUPPORTED_VOLUME_TYPE : string := "unsupported_volume_type".
Definition REASON_MULTIPLE_VOLUMES : string := "multiple_attached_volumes".
Definition REASON_NO_VOLUME : string := "no_attached_volume".
Definition REASON_NOT_EC2_NODE : string := "not_an_ec2_node".
Definition REASON_NO_METRICS : string := "no_metrics_for_node".

Record Settings := mkSettings {
  headroom_percent : Z;
  step_mibps : Z;
  min_throughput_mibps : Z;
  max_throughput_mibps : Z;
  min_samples : Z;
}.

Record Input := mkInput {
  volume_type : string;
  current_throughput : Z;
  input_iops : Z;
  peak_mibps : f64;
  samples : Z;
  instance_max_mibps : f64;
}.

Record Decision := mkDecision {
  d_action : string;
  d_reason : string;
  recommended_throughput_mibps : Z;
  recommended_iops : Z;
  capped : bool;
}.

Definition decision_unknown (reason : string) : Decision := mkDecision ACTION_UNKNOWN reason 0 0 false.

(** [i32] arithmetic of a release build wraps. *)
Definition i32_wrap (z : Z) : Z := (z + 2 ^ 31) mod 2 ^ 32 - 2 ^ 31.

Definition ceil_to_step (v : f64) (step : Z) : Z :=
  if step <=? 0 then f64_as_i32 (f64_ceil v)
  else i32_wrap (f64_as_i32 (f64_ceil (f64_div v (f64_of_Z step))) * step).

Definition bounds (s : Settings) (instance_max : f64) : Z * Z * string :=
  let floor := Z.max (min_throughput_mibps s) GP3_MIN_THROUGHPUT_MIBPS in
  let ceiling :=
    if (0 <? max_throughput_mibps s) && (max_throughput_mibps s <? GP3_MAX_THROUGHPUT_MIBPS)
    then max_throughput_mibps s else GP3_MAX_THROUGHPUT_MIBPS in
  let '(ceiling, cap_reason) :=
    if f64_lt (f64_of_Z 0) instance_max then
      let instance_ceiling := f64_as_i32 (f64_floor instance_max) in
      if instance_ceiling <? ceiling then (instance_ceiling, REASON_INSTANCE_BANDWIDTH_CAP)
      else (ceiling, REASON_VOLUME_MAX_CAP)
    else (ceiling, REASON_VOLUME_MAX_CAP) in
  (if ceiling <? floor then ceiling else floor, ceiling, cap_reason).

Definition clamp (x lo hi : Z) : Z := if x <? lo then lo else if hi <? x then hi else x.

Definition required_iops (throughput current : Z) : Z :=
  clamp (Z.max current (i32_wrap (throughput * GP3_IOPS_PER_MIBPS))) GP3_MIN_IOPS GP3_MAX_IOPS.

Definition decide_throughput (i : Input) (s : Settings) : Decision :=
  if negb (String.eqb (volume_type i) VOLUME_TYPE_GP3) then decision_unknown REASON_UNSUPPORTED_VOLUME_TYPE
  else if samples i <? min_samples s then decision_unknown REASON_INSUFFICIENT_DATA
  else if negb (is_finite (peak_mibps i)) || f64_lt (peak_mibps i) (f64_of_Z 0) then
    decision_unknown REASON_INSUFFICIENT_DATA
  else
    let desired := f64_mul (peak_mibps i)
      (f64_add (f64_of_Z 1) (f64_div (f64_of_Z (headroom_percent s)) (f64_of_Z 100))) in
    let target := ceil_to_step desired (step_mibps s) in
    let '(floor, ceiling, cap_reason) := bounds s (instance_max_mibps i) in
    let capped := ceiling <? target in
    let target := Z.min (Z.max target floor) ceiling in
    let iops := required_iops target (input_iops i) in
    if current_throughput i <? target then
      mkDecision ACTION_INCREASE (if capped then cap_reason else REASON_ABOVE_PROVISIONED) target iops capped
    else if target <=? i32_wrap (current_throughput i - step_mibps s) then
      mkDecision ACTION_DECREASE REASON_BELOW_PROVISIONED target iops capped
    else
      mkDecision ACTION_NONE (if capped then cap_reason else REASON_FITS)
        (current_throughput i) (input_iops i) capped.

(** ** The recommender *)

Definition BYTES_PER_MB : f64 := f64_of_Z (10 ^ 6).
Definition BYTES_PER_MIB : f64 := f64_of_Z (2 ^ 20).
Definition mbps_to_mibps (mbps : f64) : f64 := f64_div (f64_mul mbps BYTES_PER_MB) BYTES_PER_MIB.

Record Volume := mkVolume {
  v_id : string;
  v_kind : string;
  v_throughput_mibps : Z;
  v_iops : Z;
}.

(** A node, with its annotations left out. *)
Record Node_ := mkNode {
  n_name : string;
  n_uid : string;
  n_instance_id : string;
  n_instance_type : string;
  n_created_at : option Z;
}.

Definition no_volume : Volume := mkVolume EmptyString EmptyString 0 0.
Definition no_input : Input := mkInput EmptyString 0 0 (f64_of_Z 0) 0 (f64_of_Z 0).

Record Observation_ := mkObservation {
  o_node : Node_;
  o_volume : Volume;
  o_input : Input;
  has_metrics : bool;
  blocked : string;
}.

(** [caps] is the maximum bandwidth of each instance type, in MB/s. *)
Definition observe (n : Node_) (volumes : gmap string (list Volume)) (caps : gmap string f64)
    (peaks sample_counts : gmap string f64) (too_young : bool) : Observation_ :=
  let block v reason := mkObservation n v no_input false reason in
  if str_is_empty (n_instance_id n) then block no_volume REASON_NOT_EC2_NODE else
  match default [] (volumes !! n_instance_id n) with
  | [] => block no_volume REASON_NO_VOLUME
  | [v] =>
      if too_young then block v REASON_NODE_TOO_YOUNG else
      match peaks !! n_name n with
      | None => block v REASON_NO_METRICS
      | Some peak =>
          let count := f64_as_u64 (f64_max (default (f64_of_Z 0) (sample_counts !! n_name n)) (f64_of_Z 0)) in
          let max := match caps !! n_instance_type n with
                     | Some c => mbps_to_mibps c
                     | None => f64_of_Z 0
                     end in
          mkObservation n v (mkInput (v_kind v) (v_throughput_mibps v) (v_iops v) peak count max) true
            EmptyString
      end
  | _ => block no_volume REASON_MULTIPLE_VOLUMES
  end.

Definition decide_or_block (obs : Observation_) (s : Settings) : Decision :=
  if str_is_empty (blocked obs) then decide_throughput (o_input obs) s
  else decision_unknown (blocked obs).

Definition hand_off (at_ : Z) (obs : Observation_) (d : Decision) (sink : Store) : Store :=
  if str_is_empty (v_id (o_volume obs)) then sink
  else if String.eqb (d_action d) ACTION_UNKNOWN then store_delete (v_id (o_volume obs)) sink
  else publish (v_id (o_volume obs))
         (mkEntry (n_name (o_node obs)) (n_uid (o_node obs)) (d_action d)
            (recommended_throughput_mibps d) (recommended_iops d)
            (v_throughput_mibps (o_volume obs)) (v_iops (o_volume obs)) (Some at_)) sink.

(** What the services answer in one pass: the nodes, the two queries of a batch
    of node names, the attached volumes by instance, the bandwidths by instance
    type. *)
Record Sample := mkSample { labels : gmap string string; sample_value : f64 }.

Record Answers := mkAnswers {
  a_nodes : result string (list Node_);
  a_peak : list string -> result string (list Sample);
  a_sample_count : list string -> result string (list Sample);
  a_volumes : list string -> result string (gmap string (list Volume));
  a_caps : list string -> result string (gmap string f64);
}.

Record RecommenderConfig := mkRecommender {
  node_label : string;
  min_node_age : Z;
  settings : Settings;
}.

Definition NODE_BATCH : nat := 200.

Definition query_by_node (label : string) (answer : list Sample) : gmap string f64 :=
  foldl (fun out s =>
    match labels s !! label with
    | Some name => if str_is_empty name then out else <[name := sample_value s]> out
    | None => out
    end) ∅ answer.

Fixpoint query_batches (label : string) (query : list string -> result string (list Sample))
    (out : gmap string f64) (batches : list (list string)) : result string (gmap string f64) :=
  match batches with
  | [] => Ok out
  | b :: batches =>
      let? answer := query b in
      query_batches label query (query_by_node label answer ∪ out) batches
  end.

(** [names.chunks(NODE_BATCH)]: the last chunk may be shorter. *)
Fixpoint batches_fuel (fuel : nat) (l : list string) : list (list string) :=
  match fuel, l with
  | O, _ | _, [] => []
  | S fuel, _ => take NODE_BATCH l :: batches_fuel fuel (drop NODE_BATCH l)
  end.
Definition query_per_batch (label : string) (names : list string)
    (query : list string -> result string (list Sample)) : result string (gmap string f64) :=
  query_batches label query ∅ (batches_fuel (length names) names).

Definition too_young (min_age now : Z) (n : Node_) : bool :=
  match n_created_at n with Some created => now - created <? min_age | None => false end.

Definition describe (a : Answers) (nodes : list Node_)
    : result string (gmap string (list Volume) * gmap string f64) :=
  let present (f : Node_ -> string) := List.filter (fun x => negb (str_is_empty x)) (map f nodes) in
  let? volumes := map_err (fun e => "describe attached volumes: " +:+ e) (a_volumes a (present n_instance_id)) in
  let? caps := map_err (fun e => "describe instance type EBS caps: " +:+ e) (a_caps a (present n_instance_type)) in
  Ok (volumes, caps).

(** The loop over the nodes: the store and the volumes seen.  [at_] is the time at
    which a node is handed off. *)
Definition evaluate (s : Settings) (at_ : string -> Z) (obs : Node_ -> Observation_)
    (acc : Store * gset string) (n : Node_) : Store * gset string :=
  let '(sink, seen) := acc in
  let o := obs n in
  let seen := if str_is_empty (v_id (o_volume o)) then seen else {[v_id (o_volume o)]} ∪ seen in
  (hand_off (at_ (n_name n)) o (decide_or_block o s) sink, seen).

(** The two queries and the two calls of EC2; what is observed of a node then. *)
Definition gather (cfg : RecommenderConfig) (now : Z) (a : Answers) (nodes : list Node_)
    : result string (Node_ -> Observation_) :=
  let young := map n_name (List.filter (too_young (min_node_age cfg) now) nodes) in
  let names := map n_name (List.filter (fun n => negb (too_young (min_node_age cfg) now n)) nodes) in
  let? peaks := map_err (fun e => "query peak throughput: " +:+ e)
                  (query_per_batch (node_label cfg) names (a_peak a)) in
  let? counts := map_err (fun e => "query sample count: " +:+ e)
                   (query_per_batch (node_label cfg) names (a_sample_count a)) in
  let? described := describe a nodes in
  Ok (fun n => observe n described.1 described.2 peaks counts (bool_decide (n_name n ∈ young))).

Definition recommend (cfg : RecommenderConfig) (now : Z) (at_ : string -> Z) (a : Answers) (sink : Store)
    : Store * result string Z :=
  match a_nodes a with
  | Err err => (sink, Err ("list nodes: " +:+ err))
  | Ok [] => (retain ∅ sink, Ok 0)
  | Ok nodes =>
      match gather cfg now a nodes with
      | Err e => (sink, Err e)
      | Ok obs =>
          let '(sink, seen) := foldl (evaluate (settings cfg) at_ obs) (sink, ∅) nodes in
          (retain seen sink, Ok (zlen nodes))
      end
  end.

(** The settings of the recommender (throughput/defaults.rs). *)
Definition recommender_settings (min_samples : Z) : Settings :=
  mkSettings 30 125 GP3_MIN_THROUGHPUT_MIBPS GP3_MAX_THROUGHPUT_MIBPS min_samples.

(** ** The resizer's side *)

Definition STALE_FACTOR : Z := 2.
Definition recommendation_max_age (interval : Z) : Z := interval * STALE_FACTOR.

Definition APPLY_SKIP_NO_RECOMMENDATION : string := "no_recommendation".
Definition APPLY_SKIP_STALE : string := "stale".
Definition APPLY_SKIP_NOT_INCREASE : string := "not_increase".

Record ThroughputConfig := mkThroughput { apply_on_resize : bool; interval : Z }.

(** [recs] is absent when the recommender is off. *)
Definition throughput_piggyback (tr : ThroughputConfig) (recs : option Store) (now : Z) (volume_id : string)
    : option Entry * string :=
  match recs with
  | None => (None, EmptyString)
  | Some recs =>
      if negb (apply_on_resize tr) then (None, EmptyString) else
      match lookup_fresh now volume_id (recommendation_max_age (interval tr)) recs with
      | None =>
          (None, if is_some (node_ref volume_id recs) then APPLY_SKIP_STALE else APPLY_SKIP_NO_RECOMMENDATION)
      | Some rec =>
          if negb (String.eqb (action rec) ACTION_INCREASE) || (throughput_mibps rec <=? current_mibps rec)
          then (None, APPLY_SKIP_NOT_INCREASE)
          else (Some rec, EmptyString)
      end
  end.

(** ** The decision: facts *)

(** What gp3 can be provisioned with. *)
Definition provisionable (throughput iops : Z) : Prop :=
  GP3_MIN_THROUGHPUT_MIBPS <= throughput <= GP3_MAX_THROUGHPUT_MIBPS /\
  GP3_MIN_IOPS <= iops <= GP3_MAX_IOPS /\ throughput <= iops / GP3_IOPS_PER_MIBPS.

Lemma bounds_spec s instance_max floor ceiling reason :
  bounds s instance_max = (floor, ceiling, reason) ->
  floor <= ceiling <= GP3_MAX_THROUGHPUT_MIBPS /\
  (0 < max_throughput_mibps s -> ceiling <= max_throughput_mibps s) /\
  (f64_lt (f64_of_Z 0) instance_max = true -> ceiling <= f64_as_i32 (f64_floor instance_max)).
Proof.
  unfold bounds, GP3_MAX_THROUGHPUT_MIBPS.
  set (most := if (0 <? max_throughput_mibps s) && (max_throughput_mibps s <? 1000)
    then max_throughput_mibps s else 1000).
  assert (Hm : most <= 1000 /\ (0 < max_throughput_mibps s -> most <= max_throughput_mibps s))
    by (subst most; case_match; bool_to_prop; lia).
  clearbody most. destruct (f64_lt _ _); [destruct (_ <? most) eqn:Hi|];
    intros [= <- <- _]; split_and!; intros; repeat case_match; bool_to_prop; lia || done.
Qed.

Lemma required_iops_spec throughput current :
  GP3_MIN_THROUGHPUT_MIBPS <= throughput <= GP3_MAX_THROUGHPUT_MIBPS ->
  GP3_MIN_IOPS <= required_iops throughput current <= GP3_MAX_IOPS /\
  throughput * GP3_IOPS_PER_MIBPS <= required_iops throughput current /\
  (current <= GP3_MAX_IOPS -> current <= required_iops throughput current).
Proof.
  unfold required_iops, GP3_MIN_THROUGHPUT_MIBPS, GP3_MAX_THROUGHPUT_MIBPS, GP3_IOPS_PER_MIBPS, GP3_MIN_IOPS,
    GP3_MAX_IOPS, clamp, i32_wrap.
  intros Ht. rewrite (Z.mod_small (throughput * 4 + 2 ^ 31)) by lia.
  repeat case_match; bool_to_prop; lia.
Qed.

(** An increase is always above the throughput provisioned, within the limits
    of gp3 and of the instance, with enough IOPS for it, and lowers no IOPS. *)
Theorem increase_provisionable i s :
  GP3_MIN_THROUGHPUT_MIBPS <= current_throughput i ->
  d_action (decide_throughput i s) = ACTION_INCREASE ->
  let d := decide_throughput i s in
  provisionable (recommended_throughput_mibps d) (recommended_iops d) /\
  current_throughput i < recommended_throughput_mibps d /\
  (input_iops i <= GP3_MAX_IOPS -> input_iops i <= recommended_iops d) /\
  (f64_lt (f64_of_Z 0) (instance_max_mibps i) = true ->
   recommended_throughput_mibps d <= f64_as_i32 (f64_floor (instance_max_mibps i))).
Proof.
  intros Hc Ha d. subst d. unfold decide_throughput in *.
  destruct (negb _); [done|]. destruct (_ <? min_samples s); [done|]. destruct (_ || _); [done|].
  destruct (bounds s (instance_max_mibps i)) as [[floor ceiling] reason] eqn:Hb.
  apply bounds_spec in Hb as (Hf & _ & Hi). set (target := Z.min _ ceiling) in *.
  destruct (_ <? target) eqn:Ht; [|by destruct (target <=? _)]. bool_to_prop. cbn.
  assert (Hr : GP3_MIN_THROUGHPUT_MIBPS <= target <= GP3_MAX_THROUGHPUT_MIBPS) by lia.
  destruct (required_iops_spec target (input_iops i) Hr) as (H1 & H2 & H3).
  split_and!; [|lia|done|intros Hm; specialize (Hi Hm); lia].
  split_and!; try lia. apply Z.div_le_lower_bound; [done|]. lia.
Qed.

Definition demo_settings : Settings := recommender_settings 10.
Definition demo_input (peak current iops : Z) (max : f64) : Input :=
  mkInput VOLUME_TYPE_GP3 current iops (f64_of_Z peak) 100 max.

Lemma increase_provisionable_witness :
  provisionable 300 3000.
Proof.
  apply (increase_provisionable (demo_input 400 125 3000 (f64_decimal 3007 1)) demo_settings);
    [by vm_compute|by vm_compute].
Defined.

Example demo_decisions :
  decide_throughput (demo_input 200 125 3000 (f64_of_Z 0)) demo_settings =
    mkDecision ACTION_INCREASE REASON_ABOVE_PROVISIONED 375 3000 false /\
  decide_throughput (demo_input 50 500 4000 (f64_of_Z 0)) demo_settings =
    mkDecision ACTION_DECREASE REASON_BELOW_PROVISIONED 125 4000 false /\
  decide_throughput (demo_input 900 500 3000 (f64_of_Z 0)) demo_settings =
    mkDecision ACTION_INCREASE REASON_VOLUME_MAX_CAP 1000 4000 true /\
  d_reason (decide_throughput (mkInput VOLUME_TYPE_GP3 125 3000 S754_nan 100 (f64_of_Z 0)) demo_settings) =
    REASON_INSUFFICIENT_DATA.
Proof. vm_compute. done. Qed.

(** A decrease is not always within the limits of gp3: where the instance drives
    less than the least throughput of a volume, the floor collapses to the
    ceiling. *)
Example decrease_below_minimum :
  decide_throughput (demo_input 50 250 3000 (f64_of_Z 90)) demo_settings =
    mkDecision ACTION_DECREASE REASON_BELOW_PROVISIONED 90 3000 true.
Proof. vm_compute. done. Qed.

(** A peak the steps of which do not fit 32 bits wraps to a decrease. *)
Example peak_overflow :
  decide_throughput (demo_input 2200000000 250 3000 (f64_of_Z 0)) demo_settings =
    mkDecision ACTION_DECREASE REASON_BELOW_PROVISIONED 125 3000 false.
Proof. vm_compute. done. Qed.

(** ** The store: facts *)

(** The entry comes from this pass: a node with that volume was evaluated, and
    its decision was not unknown. *)
Definition from_pass (s : Settings) (at_ : string -> Z) (obs : Node_ -> Observation_) (nodes : list Node_)
    (volume_id : string) (e : Entry) : Prop :=
  exists n, n ∈ nodes /\ v_id (o_volume (obs n)) = volume_id /\
    let d := decide_or_block (obs n) s in
    d_action d <> ACTION_UNKNOWN /\
    e = mkEntry (n_name (o_node (obs n))) (n_uid (o_node (obs n))) (d_action d)
          (recommended_throughput_mibps d) (recommended_iops d)
          (v_throughput_mibps (o_volume (obs n))) (v_iops (o_volume (obs n))) (Some (at_ (n_name n))).

Lemma evaluate_spec s at_ obs sink seen n sink' seen' :
  evaluate s at_ obs (sink, seen) n = (sink', seen') ->
  (forall v, v ∈ seen' <-> v ∈ seen \/ (v = v_id (o_volume (obs n)) /\ v <> EmptyString)) /\
  (forall v e, sink' !! v = Some e ->
     from_pass s at_ obs [n] v e \/ (sink !! v = Some e /\ (v = v_id (o_volume (obs n)) -> v = EmptyString))).
Proof.
  unfold Store, evaluate, hand_off, store_delete, publish, from_pass in *. intros [= <- <-].
  set (v0 := v_id (o_volume (obs n))). destruct (str_is_empty v0) eqn:Hv0.
  - assert (v0 = EmptyString) as -> by (by destruct v0). split; [by intuition|]. intros v e. by right.
  - assert (Hne : v0 <> EmptyString) by (by destruct v0). split.
    { intros v. rewrite elem_of_union, elem_of_singleton. split; [|by intros [?|[? _]]; auto].
      intros [->|?]; [by right|by left]. }
    intros v e. destruct (String.eqb_spec (d_action (decide_or_block (obs n) s)) ACTION_UNKNOWN) as [Hu|Hu].
    + rewrite lookup_delete_Some. intros [Hn ?]. right. split; [done|]. by intros ->.
    + rewrite lookup_insert_Some. intros [[<- <-]|[Hn ?]]; [left|right; split; [done|by intros ->]].
      exists n. split_and!; try done. by left.
Qed.

Lemma evaluate_fold s at_ obs nodes sink seen sink' seen' :
  foldl (evaluate s at_ obs) (sink, seen) nodes = (sink', seen') ->
  (forall v, v ∈ seen' <-> v ∈ seen \/ (v <> EmptyString /\ exists n, n ∈ nodes /\ v_id (o_volume (obs n)) = v)) /\
  (forall v e, sink' !! v = Some e -> from_pass s at_ obs nodes v e \/
     (sink !! v = Some e /\ forall n, n ∈ nodes -> v_id (o_volume (obs n)) = v -> v = EmptyString)).
Proof.
  revert sink seen. induction nodes as [|n nodes IH]; intros sink seen; cbn [foldl].
  { intros [= <- <-]. split; [|by right; split; [|intros n []%elem_of_nil]].
    intros v. split; [by left|]. by intros [|(_ & n & []%elem_of_nil & _)]. }
  destruct (evaluate s at_ obs (sink, seen) n) as [sink1 seen1] eqn:E1. intros E.
  apply evaluate_spec in E1 as [Hs1 Hk1]. apply IH in E as [Hs Hk]. split.
  - intros v. rewrite Hs, Hs1. setoid_rewrite elem_of_cons. split.
    + intros [[?|[-> ?]]|(? & m & ? & ?)]; [by left|right; split; [done|]; exists n; auto|].
      right. split; [done|]. exists m. auto.
    + intros [?|(? & m & [->|?] & Hm)]; [by left; left|left; right; by rewrite Hm|]. right. eauto.
  - intros v e H. apply Hk in H as [(m & Hm & ?)|[H Hm]].
    { left. exists m. split; [by right|done]. }
    apply Hk1 in H as [(m & ->%list_elem_of_singleton & ?)|[H Hn]].
    { left. exists n. split; [by left|done]. }
    right. split; [done|]. intros m [->|Hin]%elem_of_cons Hv; [by apply Hn|by apply (Hm m)].
Qed.

(** After a pass of the recommender that succeeds, everything in the store was
    decided in that pass, for a volume it saw: no older recommendation is left. *)
Theorem recommend_store cfg now at_ a sink sink' n :
  recommend cfg now at_ a sink = (sink', Ok n) ->
  (exists nodes, a_nodes a = Ok nodes /\ n = zlen nodes) /\
  exists obs nodes, a_nodes a = Ok nodes /\
    forall v e, sink' !! v = Some e -> v <> EmptyString /\ from_pass (settings cfg) at_ obs nodes v e.
Proof.
  unfold recommend. destruct (a_nodes a) as [nodes|]; [|done].
  assert (Hempty : forall v e, retain ∅ sink !! v <> Some e).
  { intros v e H. apply map_lookup_filter_Some in H as [_ H]. by apply elem_of_empty in H. }
  destruct nodes as [|n0 nodes'].
  { intros [= <- <-]. split; [by exists []|]. exists (fun n => observe n ∅ ∅ ∅ ∅ false), [].
    split; [done|]. intros v e H. by apply Hempty in H. }
  set (nodes := n0 :: nodes').
  destruct (gather cfg now a nodes) as [obs|]; [|done].
  destruct (foldl _ (sink, ∅) nodes) as [sink1 seen] eqn:E. intros [= <- <-].
  apply evaluate_fold in E as [Hs Hk]. split; [by exists nodes|]. exists obs, nodes. split; [done|].
  intros v e [H Hseen]%map_lookup_filter_Some. cbn in Hseen.
  apply Hs in Hseen as [[]%elem_of_empty|(Hne & m & Hm & Hv)]. split; [done|].
  apply Hk in H as [H|[H Hall]]; [done|]. exfalso. by apply Hne, (Hall m).
Qed.

(** *** Stores that passes reach *)

Record RecommenderPass := mkPass { p_now : Z; p_at : string -> Z; p_answers : Answers }.

(** The store after some passes of a process, whether they succeed or not. *)
Definition passes (cfg : RecommenderConfig) (ps : list RecommenderPass) : Store :=
  foldl (fun sink p => (recommend cfg (p_now p) (p_at p) (p_answers p) sink).1) ∅ ps.

Definition entry_ok (e : Entry) : Prop :=
  action e = ACTION_INCREASE -> GP3_MIN_THROUGHPUT_MIBPS <= current_mibps e ->
  provisionable (throughput_mibps e) (iops e) /\ current_mibps e < throughput_mibps e /\
  (current_iops e <= GP3_MAX_IOPS -> current_iops e <= iops e).

Lemma observe_input n volumes caps peaks counts young :
  let o := observe n volumes caps peaks counts young in
  blocked o = EmptyString ->
  current_throughput (o_input o) = v_throughput_mibps (o_volume o) /\ input_iops (o_input o) = v_iops (o_volume o).
Proof.
  unfold observe. destruct (str_is_empty _); [done|].
  destruct (default [] _) as [|v [|]]; [done| |done]. destruct young; [done|].
  by destruct (peaks !! n_name n).
Qed.

Lemma from_pass_ok s at_ volumes caps peaks counts young nodes v e :
  from_pass s at_ (fun n => observe n volumes caps peaks counts (young n)) nodes v e -> entry_ok e.
Proof.
  intros (n & _ & _ & Hu & ->). unfold entry_ok. cbn. intros Ha Hc. unfold decide_or_block in *.
  destruct (str_is_empty _) eqn:Hb; [|done].
  assert (blocked (observe n volumes caps peaks counts (young n)) = EmptyString) as Hb'
    by (by destruct (blocked _)).
  apply observe_input in Hb' as [H1 H2]. rewrite <- H1 in *. rewrite <- H2.
  by destruct (increase_provisionable _ _ Hc Ha) as (? & ? & ? & _).
Qed.

Lemma gather_spec cfg now a nodes obs :
  gather cfg now a nodes = Ok obs ->
  exists volumes caps peaks counts young, obs = fun n => observe n volumes caps peaks counts (young n).
Proof.
  unfold gather. cbv zeta.
  destruct (map_err _ _) as [peaks|]; [|done]. destruct (map_err _ _) as [counts|]; [|done].
  destruct (describe a nodes) as [[volumes caps]|]; [|done]. intros [= <-]. by eexists _, _, _, _, _.
Qed.

Lemma recommend_keeps cfg now at_ a sink :
  map_Forall (fun _ => entry_ok) sink ->
  map_Forall (fun _ => entry_ok) (recommend cfg now at_ a sink).1.
Proof.
  intros Hok. unfold recommend. destruct (a_nodes a) as [[|n0 nodes']|]; [|..|done].
  { cbn. intros v e [H _]%map_lookup_filter_Some. by eapply Hok. }
  set (nodes := n0 :: nodes'). destruct (gather cfg now a nodes) as [obs|] eqn:Eg; [|done].
  apply gather_spec in Eg as (volumes & caps & peaks & counts & young & ->).
  destruct (foldl _ (sink, ∅) nodes) as [sink1 seen] eqn:E. cbn [fst].
  intros v e [H _]%map_lookup_filter_Some. apply evaluate_fold in E as [_ Hk].
  apply Hk in H as [H|[H _]]; [|by eapply Hok]. by eapply from_pass_ok in H.
Qed.

Lemma passes_ok cfg ps : map_Forall (fun _ => entry_ok) (passes cfg ps).
Proof.
  unfold passes. assert (H : map_Forall (fun _ => entry_ok) (∅ : Store)) by apply map_Forall_empty.
  revert H. generalize (∅ : Store). induction ps as [|p ps IH]; cbn; intros sink H; [done|].
  by apply IH, recommend_keeps.
Qed.

(** Whatever passes a process has made, failed ones included, the recommendation
    the resizer folds into a size change is one of at most two intervals ago, it
    raises the throughput of the volume, lowers no IOPS, and gp3 can be
    provisioned with it. *)
Theorem piggyback_provisionable cfg ps tr now volume_id e reason :
  throughput_piggyback tr (Some (passes cfg ps)) now volume_id = (Some e, reason) ->
  GP3_MIN_THROUGHPUT_MIBPS <= current_mibps e ->
  passes cfg ps !! volume_id = Some e /\
  (exists observed, observed_at e = Some observed /\ now - observed <= interval tr * 2) /\
  provisionable (throughput_mibps e) (iops e) /\ current_mibps e < throughput_mibps e /\
  (current_iops e <= GP3_MAX_IOPS -> current_iops e <= iops e).
Proof.
  unfold throughput_piggyback, lookup_fresh. destruct (negb (apply_on_resize tr)); [done|].
  destruct (passes cfg ps !! volume_id) as [x|] eqn:Hx; cbn; [|by destruct (is_some _)].
  destruct (observed_at x) as [observed|] eqn:Ho; cbn; [|by destruct (is_some _)].
  destruct (_ <? now - observed) eqn:Hage; [by destruct (is_some _)|].
  destruct (negb _ || _) eqn:Hd; [done|]. intros [= <- <-] Hc.
  apply orb_false_iff in Hd as [Ha%negb_false_iff%String.eqb_eq Ht]. bool_to_prop.
  split; [done|]. split.
  - exists observed. split; [done|]. unfold recommendation_max_age, STALE_FACTOR in Hage. lia.
  - by apply (passes_ok cfg ps _ _ Hx).
Qed.

(** *** An example: a pass over a node with one gp3 volume. *)

Definition demo_pass : RecommenderPass :=
  let answer z := Ok [mkSample {["node" := "ip-1"]} (f64_of_Z z)] in
  mkPass 1000 (fun _ => 1000)
    (mkAnswers (Ok [mkNode "ip-1" "uid-1" "i-1" "m6i.large" None])
       (fun _ => answer 200) (fun _ => answer 500)
       (fun _ => Ok {["i-1" := [mkVolume "vol-i-1" VOLUME_TYPE_GP3 125 3000]]})
       (fun _ => Ok ∅)).

Definition demo_recommender : RecommenderConfig := mkRecommender "node" 0 demo_settings.
Definition demo_recs : Store := passes demo_recommender [demo_pass].

Definition demo_entry : Entry :=
  mkEntry "ip-1" "uid-1" ACTION_INCREASE 375 3000 125 3000 (Some 1000).

Example demo_recs_entry : map_to_list demo_recs = [("vol-i-1", demo_entry)].
Proof. vm_compute. done. Qed.

Lemma recommend_store_witness :
  exists sink', recommend demo_recommender 1000 (fun _ => 1000) (p_answers demo_pass) ∅ = (sink', Ok 1) /\
    exists obs nodes, a_nodes (p_answers demo_pass) = Ok nodes /\
      forall v e, sink' !! v = Some e ->
        v <> EmptyString /\ from_pass demo_settings (fun _ => 1000) obs nodes v e.
Proof.
  destruct (recommend demo_recommender 1000 (fun _ => 1000) (p_answers demo_pass) ∅) as [sink' r] eqn:E.
  assert (r = Ok 1) as -> by (change r with (sink', r).2; rewrite <- E; by vm_compute).
  exists sink'. split; [done|]. exact (proj2 (recommend_store _ _ _ _ _ _ _ E)).
Defined.

Lemma piggyback_provisionable_witness :
  throughput_piggyback (mkThroughput true 3600) (Some demo_recs) 2000 "vol-i-1" = (Some demo_entry, EmptyString) /\
  provisionable 375 3000.
Proof.
  assert (E : throughput_piggyback (mkThroughput true 3600) (Some (passes demo_recommender [demo_pass])) 2000
                "vol-i-1" = (Some demo_entry, EmptyString)) by (vm_compute; done).
  split; [exact E|].
  destruct (piggyback_provisionable _ _ _ _ _ _ _ E) as (_ & _ & Hp & _); [by vm_compute|exact Hp].
Defined.
