(* ===== verification/VolumeStatus.v ===== *)
(** * The status of an instance autoscaler (volume-autoscaler:
    autoscaler/instance_volume/resizer/status.rs,
    autoscaler/instance_volume/crd.rs, autoscaler/instance_volume/api.rs)

    What happened to each instance in a pass becomes an entry; the entries and
    the previous status become the next status, which is sent as a JSON merge
    patch. *)

From Corelib Require Import SpecFloat.
From stdpp Require Import prelude list strings pretty sorting.
From Stdlib Require Import ZArith Lia Ascii.
From S2P Require Import Prelude.
From S2P Require Import Strings.
From S2P Require Import BTree.
From S2P Require Import F64.
From S2P Require Import Autoscaler.
From S2P Require Import VolumePolicy.

(** ** Reasons *)

Definition REASON_NO_ROOT_VOLUME : string := "NoRootVolume".
Definition REASON_NO_INSTANCES : string := "NoMatchingInstances".
Definition REASON_INVALID_SPEC : string := "InvalidSpec".
Definition REASON_AWAITING_PASS : string := "AwaitingReconcile".

(** ** Observations and entries *)

Record Observation := mkObs {
  capacity_gib : Z;
  usage : option Z;
  desired_gib : option Z;
  reason : string;
  message : string;
  scaled_at : option Z;
  cooldown_until : option Z;
}.

Definition observation_new (capacity : Z) : Observation :=
  mkObs capacity None None EmptyString EmptyString None None.

Definition obs_set (o : Observation) (r m : string) : Observation :=
  mkObs (capacity_gib o) (usage o) (desired_gib o) r m (scaled_at o) (cooldown_until o).

Definition obs_with_reason (o : Observation) (r : string) : Observation := obs_set o r (message o).
Definition obs_with_message (o : Observation) (m : string) : Observation := obs_set o (reason o) m.
Definition obs_with_usage (o : Observation) (u : option Z) : Observation :=
  mkObs (capacity_gib o) u (desired_gib o) (reason o) (message o) (scaled_at o) (cooldown_until o).
Definition obs_with_desired (o : Observation) (d : Z) : Observation :=
  mkObs (capacity_gib o) (usage o) (Some d) (reason o) (message o) (scaled_at o) (cooldown_until o).
Definition obs_with_cooldown (o : Observation) (c : option Z) : Observation :=
  mkObs (capacity_gib o) (usage o) (desired_gib o) (reason o) (message o) (scaled_at o) c.
Definition obs_scaled (o : Observation) (capacity at_ until : Z) : Observation :=
  mkObs capacity (usage o) (desired_gib o) (reason o) (message o) (Some at_) (Some until).

Definition entry (o : Observation) (inst : Instance_) : InstanceStatus :=
  mkInstanceStatus (inst_id inst) (inst_name inst) (root_volume_id inst)
    (if 0 <? capacity_gib o then Some (gib_quantity (capacity_gib o)) else None)
    (option_map gib_quantity (desired_gib o)) (usage o)
    (option_map k8s_time (scaled_at o)) (option_map k8s_time (cooldown_until o))
    (reason o) (brief (message o)).

(** Why an autoscaler as a whole is not scaling. *)
Record Inactive := mkInactive { inactive_reason : string; inactive_message : string }.

(** ** Building the status *)

Definition set_last_scale_time (t : option Z) (e : InstanceStatus) : InstanceStatus :=
  mkInstanceStatus (is_instance_id e) (is_name e) (is_volume_id e) (is_current_capacity e)
    (is_desired_capacity e) (is_current_utilization e) t (is_cooldown_until e) (is_reason e) (is_message e).

(** The time recorded for an instance: of the last of its entries that has one. *)
Definition prev_time (prev : option InstanceVolumeAutoscalerStatus) (id : string) : option Z :=
  last (omap (fun i => if String.eqb (is_instance_id i) id then is_last_scale_time i else None)
          (from_option st_instances [] prev)).

Definition carry_time (prev : option InstanceVolumeAutoscalerStatus) (e : InstanceStatus) : InstanceStatus :=
  match is_last_scale_time e with
  | Some _ => e
  | None => set_last_scale_time (prev_time prev (is_instance_id e)) e
  end.

Definition count_reason (entries : list InstanceStatus) (r : string) : nat :=
  length (List.filter (fun e => String.eqb (is_reason e) r) entries).

Definition active_condition (entries : list InstanceStatus) (inactive : option Inactive)
    : string * string * string :=
  match inactive with
  | Some i => (STATUS_FALSE, inactive_reason i, brief (inactive_message i))
  | None =>
      if decide (entries = []) then
        (STATUS_FALSE, REASON_NO_INSTANCES, "no discovered instance matches scaleTargetRef")
      else if Nat.eqb (count_reason entries REASON_FAILED_METRIC) (length entries) then
        (STATUS_FALSE, REASON_FAILED_METRIC,
          "root filesystem usage could not be measured on any target instance")
      else
        (STATUS_TRUE, REASON_VALID_METRIC,
          "measuring root filesystem usage of " +:+ pretty (length entries) +:+ " " +:+
          if Nat.eqb (length entries) 1 then "instance" else "instances")
  end.

Definition able_condition (entries : list InstanceStatus) : string * string * string :=
  let has := count_reason entries in
  if Nat.ltb 0 (has REASON_FAILED_RESCALE) then
    (STATUS_FALSE, REASON_FAILED_RESCALE, pretty (has REASON_FAILED_RESCALE) +:+ " target volume(s) failed to grow")
  else if Nat.ltb 0 (has REASON_COOLDOWN) then
    (STATUS_FALSE, REASON_COOLDOWN,
      pretty (has REASON_COOLDOWN) +:+ " target volume(s) wait for the modification cooldown")
  else if Nat.ltb 0 (has REASON_SUCCEEDED_RESCALE) then
    (STATUS_TRUE, REASON_SUCCEEDED_RESCALE,
      pretty (has REASON_SUCCEEDED_RESCALE) +:+ " target volume(s) grown this pass")
  else (STATUS_TRUE, REASON_READY_FOR_NEW_SCALE, "the controller can grow any target volume").

Definition limited_condition (entries : list InstanceStatus) : string * string * string :=
  let limited := count_reason entries REASON_MAX_CAPACITY in
  if Nat.ltb 0 limited then
    (STATUS_TRUE, REASON_MAX_CAPACITY, pretty limited +:+ " target volume(s) would exceed maxCapacity")
  else (STATUS_FALSE, REASON_WITHIN_RANGE, "every desired capacity is within maxCapacity").

Definition set_condition_of (t : string) (c : string * string * string) (generation : option Z) (now : Z)
    (cs : list Condition) : list Condition :=
  let '(status, r, m) := c in set_condition cs t status r m generation now.

Definition build (prev : option InstanceVolumeAutoscalerStatus) (generation : option Z)
    (entries : list InstanceStatus) (inactive : option Inactive) (now : Z) : InstanceVolumeAutoscalerStatus :=
  let entries := map (carry_time prev) (sort_by is_instance_id entries) in
  let last_time := foldl (fun l e => latest l (is_last_scale_time e)) (mbind st_last_scale_time prev) entries in
  let conditions :=
    set_condition_of CONDITION_SCALING_LIMITED (limited_condition entries) generation now
      (set_condition_of CONDITION_ABLE_TO_SCALE (able_condition entries) generation now
        (set_condition_of CONDITION_SCALING_ACTIVE (active_condition entries inactive) generation now
          (from_option st_conditions [] prev))) in
  let volumes := zlen (List.filter (fun e => negb (str_is_empty (is_volume_id e))) entries) in
  mkIvaStatus EmptyString EmptyString EmptyString EmptyString generation last_time
    (Z.min volumes i32_max) entries conditions.

(** ** The summary fields *)

Definition SUMMARY_TAGS : nat := 3.

Definition target_summary (r : ScaleTargetRef) : string :=
  match kind r with
  | InstanceKind => default EmptyString (ref_name r)
  | TagSelector =>
      let tags := map (fun '(k, v) => k +:+ "=" +:+ v) (default [] (ref_tags r)) in
      if Nat.ltb SUMMARY_TAGS (length tags) then
        str_join "," (take SUMMARY_TAGS tags) +:+ ",+" +:+ pretty (length tags - SUMMARY_TAGS)%nat +:+ " more"
      else str_join "," tags
  end.

Definition target_utilization (spec : InstanceVolumeAutoscalerSpec) : Z :=
  match metrics spec with m :: _ => m | [] => DEFAULT_UTILIZATION_PERCENT end.

Definition shown_cooldown (raw : option string) (least : Z) : string :=
  match raw with
  | None => format_cooldown least
  | Some r => match parse_cooldown r with Ok d => format_cooldown d | Err _ => r end
  end.

Definition refresh_summary (spec : InstanceVolumeAutoscalerSpec) (s : InstanceVolumeAutoscalerStatus)
    : InstanceVolumeAutoscalerStatus :=
  let goal := pretty (target_utilization spec) +:+ "%" in
  let utilization :=
    match omap is_current_utilization (st_instances s) with
    | [] => "<unknown>/" +:+ goal
    | u :: us => pretty (foldl Z.max u us) +:+ "%/" +:+ goal
    end in
  let raw := rules ← mjoin (behavior spec); cooldown_duration rules in
  mkIvaStatus (target_summary (scale_target_ref spec)) utilization (summary_reason (st_conditions s))
    (shown_cooldown raw MIN_COOLDOWN) (st_observed_generation s) (st_last_scale_time s)
    (st_current_volumes s) (st_instances s) (st_conditions s).

(** ** What the API server stores *)

(** A merge patch leaves a field that the serializer skips as it was. *)
Definition merged_text (stored new : string) : string := if str_is_empty new then stored else new.
Definition merged_option {A} (stored new : option A) : option A :=
  match new with Some _ => new | None => stored end.
Definition merged_list {A} (stored new : list A) : list A :=
  match new with [] => stored | _ => new end.

Definition status_default : InstanceVolumeAutoscalerStatus :=
  mkIvaStatus EmptyString EmptyString EmptyString EmptyString None None 0 [] [].

Definition merge_patch (stored : option InstanceVolumeAutoscalerStatus) (new : InstanceVolumeAutoscalerStatus)
    : InstanceVolumeAutoscalerStatus :=
  let s := default status_default stored in
  mkIvaStatus (merged_text (st_target s) (st_target new)) (merged_text (st_utilization s) (st_utilization new))
    (merged_text (st_reason s) (st_reason new)) (merged_text (st_cooldown_duration s) (st_cooldown_duration new))
    (merged_option (st_observed_generation s) (st_observed_generation new))
    (merged_option (st_last_scale_time s) (st_last_scale_time new)) (st_current_volumes new)
    (merged_list (st_instances s) (st_instances new)) (merged_list (st_conditions s) (st_conditions new)).

(** ** The validator *)

#[export] Instance InstanceStatus_eq : EqDecision InstanceStatus.
Proof. solve_decision. Defined.
#[export] Instance Status_eq : EqDecision InstanceVolumeAutoscalerStatus.
Proof. solve_decision. Defined.

Definition with_conditions (s : InstanceVolumeAutoscalerStatus) (cs : list Condition) : InstanceVolumeAutoscalerStatus :=
  mkIvaStatus (st_target s) (st_utilization s) (st_reason s) (st_cooldown_duration s)
    (st_observed_generation s) (st_last_scale_time s) (st_current_volumes s) (st_instances s) cs.

Definition with_generation (s : InstanceVolumeAutoscalerStatus) (g : option Z) : InstanceVolumeAutoscalerStatus :=
  mkIvaStatus (st_target s) (st_utilization s) (st_reason s) (st_cooldown_duration s)
    g (st_last_scale_time s) (st_current_volumes s) (st_instances s) (st_conditions s).

Definition validation_status (powi10 : Z -> f64) (iva : InstanceVolumeAutoscaler) (now : Z)
    : option InstanceVolumeAutoscalerStatus :=
  let g := iva_generation iva in
  let current := default status_default (iva_status iva) in
  let active := condition (st_conditions current) CONDITION_SCALING_ACTIVE in
  let cs :=
    match compile powi10 iva with
    | Err err => set_condition (st_conditions current) CONDITION_SCALING_ACTIVE STATUS_FALSE
                   REASON_INVALID_SPEC err g now
    | Ok _ =>
        if from_option (fun c => String.eqb (c_reason c) REASON_INVALID_SPEC) true active then
          set_condition (st_conditions current) CONDITION_SCALING_ACTIVE STATUS_UNKNOWN REASON_AWAITING_PASS
            "the spec is valid and waits for the next resize pass" g now
        else st_conditions current
    end in
  let changed := bool_decide (cs <> st_conditions current) in
  let s := refresh_summary (iva_spec iva) (with_conditions current cs) in
  if bool_decide (s = current) then None
  else Some (if changed then with_generation s g else s).

(** ** Facts: the times of a status *)

(** [t] is not after what [l] holds. *)
Definition not_after (t : Z) (l : option Z) : Prop := exists t', l = Some t' /\ from_k8s_time t <= from_k8s_time t'.

Lemma latest_left a b t : not_after t a -> not_after t (latest a b).
Proof.
  intros (t' & -> & Hle). unfold latest. destruct b as [b|]; [|by exists t'].
  destruct (_ <? _) eqn:E; bool_to_prop; [exists b|exists t']; (split; [done|lia]).
Qed.

Lemma latest_right a t : not_after t (latest a (Some t)).
Proof.
  unfold latest. destruct a as [a|]; [|by exists t].
  destruct (_ <? _) eqn:E; bool_to_prop; [exists t|exists a]; (split; [done|lia]).
Qed.

Lemma latest_fold l z t :
  not_after t z \/ Some t ∈ map is_last_scale_time l ->
  not_after t (foldl (fun z e => latest z (is_last_scale_time e)) z l).
Proof.
  revert z. induction l as [|e l IH]; cbn; intros z [H|H]; [done|by apply elem_of_nil in H|..]; apply IH.
  - left. by apply latest_left.
  - apply elem_of_cons in H as [H|H]; [left|by right]. rewrite <- H. apply latest_right.
Qed.

Lemma set_condition_of_ok t c g now cs :
  conditions_ok cs -> conditions_ok (set_condition_of t c g now cs) /\
  (forall t', t' <> t -> condition (set_condition_of t c g now cs) t' = condition cs t') /\
  exists d, condition (set_condition_of t c g now cs) t = Some d /\
    c_status d = c.1.1 /\ c_reason d = c.1.2 /\ c_message d = c.2.
Proof.
  destruct c as [[st r] m]. intros Hok. cbn.
  destruct (set_condition_facts cs t st r m g now Hok) as (H1 & H2 & d & Hd & Hs & Hr & Hm & _).
  split_and!; [done|done|]. by exists d.
Qed.

Lemma carry_time_id prev e : is_instance_id (carry_time prev e) = is_instance_id e.
Proof. unfold carry_time. by destruct (is_last_scale_time e). Qed.

Lemma count_reason_pos es r :
  Nat.ltb 0 (count_reason es r) = true <-> exists e, e ∈ es /\ is_reason e = r.
Proof.
  unfold count_reason. induction es as [|e es IH]; cbn [List.filter].
  - split; [done|]. by intros (e & ?%elem_of_nil & _).
  - destruct (String.eqb_spec (is_reason e) r) as [E|E].
    + split; [|done]. intros _. exists e. split; [left|done].
    + rewrite IH. setoid_rewrite elem_of_cons. split; [intros (x & ? & ?); eauto|].
      intros (x & [->|?] & ?); [done|eauto].
Qed.

Lemma count_reason_all es r :
  Nat.eqb (count_reason es r) (length es) = false <-> exists e, e ∈ es /\ is_reason e <> r.
Proof.
  unfold count_reason. induction es as [|e es IH]; cbn [List.filter length].
  - split; [done|]. by intros (e & ?%elem_of_nil & _).
  - assert (Hle : (length (List.filter (fun e => String.eqb (is_reason e) r) es) <= length es)%nat)
      by apply filter_length_le.
    setoid_rewrite elem_of_cons. destruct (String.eqb_spec (is_reason e) r) as [E|E].
    + cbn [length Nat.eqb]. rewrite IH. split; [intros (x & ? & ?); eauto|].
      intros (x & [->|?] & ?); [done|eauto].
    + rewrite Nat.eqb_neq. split; [|lia]. intros _. exists e. by split; [left|].
Qed.

Lemma able_status es :
  (able_condition es).1.1 = STATUS_FALSE <->
  exists e, e ∈ es /\ (is_reason e = REASON_FAILED_RESCALE \/ is_reason e = REASON_COOLDOWN).
Proof.
  pose proof (count_reason_pos es REASON_FAILED_RESCALE) as H1.
  pose proof (count_reason_pos es REASON_COOLDOWN) as H2. unfold able_condition.
  destruct (Nat.ltb 0 (count_reason es REASON_FAILED_RESCALE)) eqn:E1.
  { split; [|done]. intros _. destruct (proj1 H1 eq_refl) as (e & ? & ?). exists e. auto. }
  destruct (Nat.ltb 0 (count_reason es REASON_COOLDOWN)) eqn:E2.
  { split; [|done]. intros _. destruct (proj1 H2 eq_refl) as (e & ? & ?). exists e. auto. }
  split; [intros E; by destruct (Nat.ltb 0 (count_reason es REASON_SUCCEEDED_RESCALE)) in E|]. intros (e & He & [Hr|Hr]).
  - discriminate (proj2 H1 (ex_intro _ e (conj He Hr))).
  - discriminate (proj2 H2 (ex_intro _ e (conj He Hr))).
Qed.

Lemma limited_status es :
  (limited_condition es).1.1 = STATUS_TRUE <-> exists e, e ∈ es /\ is_reason e = REASON_MAX_CAPACITY.
Proof. rewrite <- count_reason_pos. unfold limited_condition. destruct (Nat.ltb 0 _); by split. Qed.

Lemma active_status es inactive :
  (active_condition es inactive).1.1 = STATUS_TRUE <->
  inactive = None /\ exists e, e ∈ es /\ is_reason e <> REASON_FAILED_METRIC.
Proof.
  rewrite <- count_reason_all. unfold active_condition. destruct inactive as [i|]; [split; [done|by intros []]|].
  destruct (decide (es = [])) as [->|Hne]; [split; [done|by intros []]|].
  destruct (Nat.eqb _ _); [split; [done|by intros []]|done].
Qed.

Lemma carry_time_kept prev e :
  is_last_scale_time (carry_time prev e) = None -> prev_time prev (is_instance_id (carry_time prev e)) = None.
Proof. rewrite carry_time_id. unfold carry_time. by destruct (is_last_scale_time e) eqn:E; [rewrite E|]. Qed.

(** The status of a pass lists the entries of the pass by instance; the last
    scale time of an instance and of the autoscaler is never lost and never goes
    back; there is one condition of each type, in order, and the three the
    autoscaler reports say what the entries do. *)
Theorem build_keeps_history prev generation entries inactive now :
  conditions_ok (from_option st_conditions [] prev) ->
  let s := build prev generation entries inactive now in
  is_instance_id <$> st_instances s ≡ₚ is_instance_id <$> entries /\
  (forall t, mbind st_last_scale_time prev = Some t -> not_after t (st_last_scale_time s)) /\
  (forall e t, e ∈ st_instances s -> is_last_scale_time e = Some t -> not_after t (st_last_scale_time s)) /\
  (forall e, e ∈ st_instances s -> is_last_scale_time e = None -> prev_time prev (is_instance_id e) = None) /\
  conditions_ok (st_conditions s) /\
  exists able limited active,
    condition (st_conditions s) CONDITION_ABLE_TO_SCALE = Some able /\
    condition (st_conditions s) CONDITION_SCALING_LIMITED = Some limited /\
    condition (st_conditions s) CONDITION_SCALING_ACTIVE = Some active /\
    (c_status able = STATUS_FALSE <-> exists e, e ∈ st_instances s /\
       (is_reason e = REASON_FAILED_RESCALE \/ is_reason e = REASON_COOLDOWN)) /\
    (c_status limited = STATUS_TRUE <-> exists e, e ∈ st_instances s /\ is_reason e = REASON_MAX_CAPACITY) /\
    (c_status active = STATUS_TRUE <-> inactive = None /\ exists e, e ∈ st_instances s /\
       is_reason e <> REASON_FAILED_METRIC).
Proof.
  intros Hok s. set (es := map (carry_time prev) (sort_by is_instance_id entries)).
  assert (Hes : st_instances s = es) by done. rewrite Hes.
  destruct (set_condition_of_ok CONDITION_SCALING_ACTIVE (active_condition es inactive) generation now _ Hok)
    as (Hok1 & _ & active & Ha & Hsa & _).
  destruct (set_condition_of_ok CONDITION_ABLE_TO_SCALE (able_condition es) generation now _ Hok1)
    as (Hok2 & Ho2 & able & Hb & Hsb & _).
  destruct (set_condition_of_ok CONDITION_SCALING_LIMITED (limited_condition es) generation now _ Hok2)
    as (Hok3 & Ho3 & limited & Hl & Hsl & _).
  split_and!.
  - unfold es. trans (is_instance_id <$> sort_by is_instance_id entries);
      [|apply fmap_Permutation, sort_by_perm]. apply reflexive_eq.
    generalize (sort_by is_instance_id entries). intros l. induction l as [|e l IH]; cbn; [done|].
    by rewrite carry_time_id, IH.
  - intros t Ht. apply latest_fold. left. exists t. by rewrite Ht.
  - intros e t He Het. apply latest_fold. right. rewrite <- Het.
    by apply list_elem_of_In, in_map, list_elem_of_In.
  - intros e He. apply list_elem_of_In, in_map_iff in He as (e0 & <- & _). apply carry_time_kept.
  - exact Hok3.
  - exists able, limited, active. split_and!; [by rewrite <- Hb; apply Ho3|done| |..].
    + rewrite <- Ha. trans (condition (set_condition_of CONDITION_ABLE_TO_SCALE (able_condition es) generation now
        (set_condition_of CONDITION_SCALING_ACTIVE (active_condition es inactive) generation now
          (from_option st_conditions [] prev))) CONDITION_SCALING_ACTIVE); [by apply Ho3|by apply Ho2].
    + rewrite Hsb. apply able_status.
    + rewrite Hsl. apply limited_status.
    + rewrite Hsa. apply active_status.
Qed.

Definition demo_entry_of (id reason : string) (at_ : option Z) : InstanceStatus :=
  mkInstanceStatus id id ("vol-" +:+ id) None None (Some 91) at_ None reason EmptyString.

Definition demo_status : InstanceVolumeAutoscalerStatus :=
  build None (Some 1) [demo_entry_of "i-2" REASON_SUCCEEDED_RESCALE (Some 5000); demo_entry_of "i-1" REASON_BELOW_TARGET None]
    None 7000000.

Lemma build_keeps_history_witness :
  conditions_ok (from_option st_conditions [] (Some demo_status)) /\
  conditions_ok (st_conditions (build (Some demo_status) (Some 1)
    [demo_entry_of "i-2" REASON_COOLDOWN None] None 9000000)).
Proof.
  assert (H : conditions_ok (st_conditions demo_status)).
  { unfold conditions_ok. vm_compute. repeat constructor. }
  split; [exact H|].
  apply (build_keeps_history (Some demo_status) (Some 1) [demo_entry_of "i-2" REASON_COOLDOWN None] None 9000000 H).
Defined.

Example demo_history :
  let s := build (Some demo_status) (Some 1) [demo_entry_of "i-2" REASON_COOLDOWN None] None 9000000 in
  st_last_scale_time s = Some 5000 /\ map is_last_scale_time (st_instances s) = [Some 5000] /\
  map c_status (st_conditions s) = [STATUS_FALSE; STATUS_TRUE; STATUS_FALSE].
Proof. vm_compute. done. Qed.

(** ** Facts: the validator *)

Section Validator.
Context (powi10 : Z -> f64).

(** The conditions the validator wants. *)
Definition validated_conditions (iva : InstanceVolumeAutoscaler) (cs : list Condition) (now : Z) : list Condition :=
  match compile powi10 iva with
  | Err err => set_condition cs CONDITION_SCALING_ACTIVE STATUS_FALSE REASON_INVALID_SPEC err (iva_generation iva) now
  | Ok _ =>
      if from_option (fun c => String.eqb (c_reason c) REASON_INVALID_SPEC) true (condition cs CONDITION_SCALING_ACTIVE)
      then set_condition cs CONDITION_SCALING_ACTIVE STATUS_UNKNOWN REASON_AWAITING_PASS
             "the spec is valid and waits for the next resize pass" (iva_generation iva) now
      else cs
  end.

Lemma validated_again iva cs now now' :
  conditions_ok cs ->
  validated_conditions iva (validated_conditions iva cs now) now' = validated_conditions iva cs now /\
  condition (validated_conditions iva cs now) CONDITION_SCALING_ACTIVE <> None.
Proof.
  intros Hok. unfold validated_conditions. destruct (compile powi10 iva) as [c|err].
  - destruct (condition cs CONDITION_SCALING_ACTIVE) as [d|] eqn:E; cbn [from_option].
    + destruct (String.eqb (c_reason d) REASON_INVALID_SPEC) eqn:Er.
      * destruct (set_condition_facts cs CONDITION_SCALING_ACTIVE STATUS_UNKNOWN REASON_AWAITING_PASS
          "the spec is valid and waits for the next resize pass" (iva_generation iva) now Hok) as (_ & _ & x & Hx & _ & Hr & _).
        rewrite Hx. cbn [from_option]. rewrite Hr. done.
      * rewrite E. cbn [from_option]. by rewrite Er.
    + destruct (set_condition_facts cs CONDITION_SCALING_ACTIVE STATUS_UNKNOWN REASON_AWAITING_PASS
        "the spec is valid and waits for the next resize pass" (iva_generation iva) now Hok) as (_ & _ & x & Hx & _ & Hr & _).
      rewrite Hx. cbn [from_option]. rewrite Hr. done.
  - split; [by apply set_condition_again|].
    destruct (set_condition_facts cs CONDITION_SCALING_ACTIVE STATUS_FALSE REASON_INVALID_SPEC err
      (iva_generation iva) now Hok) as (_ & _ & x & Hx & _). by rewrite Hx.
Qed.

Definition reasons_given (cs : list Condition) : Prop := forall c, c ∈ cs -> c_reason c <> EmptyString.

Lemma set_condition_reasons cs t status r m g now :
  conditions_ok cs -> reasons_given cs -> r <> EmptyString -> reasons_given (set_condition cs t status r m g now).
Proof.
  intros Hok Hcs Hr c Hc. rewrite (set_condition_perm cs t status r m g now Hok) in Hc.
  apply elem_of_app in Hc as [Hc|Hc].
  - apply list_elem_of_filter in Hc as [_ Hc]. by apply Hcs.
  - apply list_elem_of_singleton in Hc. by subst c.
Qed.

Lemma validated_reasons iva cs now :
  conditions_ok cs -> reasons_given cs -> reasons_given (validated_conditions iva cs now).
Proof.
  intros Hok Hcs. unfold validated_conditions. destruct (compile powi10 iva); [|by apply set_condition_reasons].
  destruct (from_option _ _ _); [by apply set_condition_reasons|done].
Qed.

Lemma summary_reason_given cs : cs <> [] -> reasons_given cs -> summary_reason cs <> EmptyString.
Proof.
  intros Hne Hcs. unfold summary_reason. destruct cs as [|c0 cs0]; [done|]. revert Hne Hcs.
  generalize (c0 :: cs0). intros cs _ Hcs.
  cbv zeta. set (unless := fun t healthy => match condition cs t with
    | Some c => if String.eqb (c_status c) healthy then None else Some (c_reason c)
    | None => None end).
  change (match unless CONDITION_SCALING_ACTIVE STATUS_TRUE with
    | Some r => r
    | None => match unless CONDITION_ABLE_TO_SCALE STATUS_TRUE with
              | Some r => r
              | None => default REASON_READY (unless CONDITION_SCALING_LIMITED STATUS_FALSE)
              end
    end <> EmptyString).
  assert (Hu : forall t healthy r, unless t healthy = Some r -> r <> EmptyString).
  { intros t healthy r. unfold unless. destruct (condition cs t) as [c|] eqn:E; [|done].
    destruct (String.eqb _ _); [done|]. intros [= <-]. apply Hcs. by apply condition_type in E as [_ ?]. }
  destruct (unless CONDITION_SCALING_ACTIVE STATUS_TRUE) eqn:E1; [by eapply Hu|].
  destruct (unless CONDITION_ABLE_TO_SCALE STATUS_TRUE) eqn:E2; [by eapply Hu|].
  destruct (unless CONDITION_SCALING_LIMITED STATUS_FALSE) eqn:E3; [by eapply Hu|done].
Qed.

Lemma shown_cooldown_given raw : raw <> Some EmptyString -> shown_cooldown raw MIN_COOLDOWN <> EmptyString.
Proof.
  intros Hraw. unfold shown_cooldown. destruct raw as [r|]; [|done].
  destruct (parse_cooldown r); [|congruence]. unfold format_cooldown.
  destruct (str_is_empty _) eqn:E; [done|]. intros H. by rewrite H in E.
Qed.

Lemma utilization_given spec s : st_utilization (refresh_summary spec s) <> EmptyString.
Proof.
  unfold refresh_summary. cbn. destruct (omap is_current_utilization (st_instances s)) as [|u us]; [done|].
  destruct (pretty (foldl Z.max u us)); done.
Qed.

Lemma merged_text_new old new : new <> EmptyString -> merged_text old new = new.
Proof. by destruct new. Qed.
Lemma merged_same_option {A} (o : option A) : merged_option o o = o.
Proof. by destruct o. Qed.
Lemma merged_same_list {A} (l : list A) : merged_list l l = l.
Proof. by destruct l. Qed.
Lemma merged_new_list {A} (l l' : list A) : l' <> [] -> merged_list l l' = l'.
Proof. by destruct l'. Qed.

(** What the server stores of the refreshed status is a status that refreshing
    leaves as it is. *)
Lemma refresh_stored spec stored s g :
  target_summary (scale_target_ref spec) <> EmptyString ->
  (rules ← mjoin (behavior spec); cooldown_duration rules) <> Some EmptyString ->
  st_conditions s <> [] -> reasons_given (st_conditions s) ->
  s = with_conditions (default status_default stored) (st_conditions s) ->
  let r := refresh_summary spec s in
  let m := merge_patch stored (with_generation r g) in
  st_conditions m = st_conditions s /\ refresh_summary spec m = m.
Proof.
  intros Htarget Hcool Hne Hreasons Hs r m.
  assert (Hc : st_conditions m = st_conditions s) by (apply merged_new_list, Hne).
  assert (Hi : st_instances m = st_instances s).
  { change (merged_list (st_instances (default status_default stored)) (st_instances s) = st_instances s).
    assert (E : st_instances (default status_default stored) = st_instances s) by (by rewrite Hs).
    rewrite E. apply merged_same_list. }
  split; [done|]. unfold refresh_summary. rewrite Hc, Hi.
  unfold m, merge_patch, r, refresh_summary. cbn.
  rewrite (merged_text_new _ (target_summary _)) by done.
  rewrite (merged_text_new _ (shown_cooldown _ _)) by (by apply shown_cooldown_given).
  rewrite (merged_text_new _ (summary_reason _)) by (by apply summary_reason_given).
  rewrite merged_text_new by apply (utilization_given spec s). f_equal; symmetry; [exact Hi|exact Hc].
Qed.

Lemma validation_status_by iva now :
  let stored := default status_default (iva_status iva) in
  let cs := validated_conditions iva (st_conditions stored) now in
  let r := refresh_summary (iva_spec iva) (with_conditions stored cs) in
  validation_status powi10 iva now =
    if bool_decide (r = stored) then None
    else Some (if bool_decide (cs <> st_conditions stored) then with_generation r (iva_generation iva) else r).
Proof. done. Qed.

(** The validator does not answer its own write: once its status is stored, as
    the merge patch leaves it, it wants no further change to the same
    specification, whenever it looks again. *)
Theorem validation_settles iva now now' new :
  conditions_ok (st_conditions (default status_default (iva_status iva))) ->
  reasons_given (st_conditions (default status_default (iva_status iva))) ->
  target_summary (scale_target_ref (iva_spec iva)) <> EmptyString ->
  (rules ← mjoin (behavior (iva_spec iva)); cooldown_duration rules) <> Some EmptyString ->
  validation_status powi10 iva now = Some new ->
  validation_status powi10 (mkIva (iva_name iva) (iva_uid iva) (iva_generation iva) (iva_spec iva)
    (Some (merge_patch (iva_status iva) new))) now' = None.
Proof.
  intros Hok Hreasons Htarget Hcool E.
  set (stored := default status_default (iva_status iva)) in *.
  set (cs := validated_conditions iva (st_conditions stored) now).
  set (s := with_conditions stored cs).
  destruct (validated_again iva (st_conditions stored) now now' Hok) as [Hagain Hsome]. fold cs in Hagain, Hsome.
  assert (Hnew : exists g, new = with_generation (refresh_summary (iva_spec iva) s) g).
  { rewrite validation_status_by in E. fold stored in E. fold cs in E. fold s in E.
    destruct (bool_decide (_ = stored)); [done|]. injection E as <-.
    destruct (bool_decide _); [by eexists|]. by exists (st_observed_generation s). }
  destruct Hnew as [g ->].
  destruct (refresh_stored (iva_spec iva) (iva_status iva) s g) as [Hc Hfix]; [done|done| | |done|].
  { change (cs <> []). intros H. by rewrite H in Hsome. }
  { by apply validated_reasons. }
  set (m := merge_patch _ _) in *. change (st_conditions m = cs) in Hc.
  assert (Hcs : with_conditions m cs = m) by (rewrite <- Hc; by destruct m).
  rewrite validation_status_by. cbn [iva_status iva_spec default from_option id].
  assert (Hx : validated_conditions (mkIva (iva_name iva) (iva_uid iva) (iva_generation iva) (iva_spec iva) (Some m))
    (st_conditions m) now' = cs) by (rewrite Hc; exact Hagain).
  rewrite Hx, Hcs, Hfix. by rewrite bool_decide_true.
Qed.
End Validator.

(** An autoscaler whose cooldown is too short, without a status. *)
Definition demo_short : InstanceVolumeAutoscaler :=
  mkIva (Some "db") (Some "u-1") (Some 1)
    (mkIvaSpec (mkTargetRef TagSelector None (Some [("Role", "db")])) "100Gi" []
       (Some (Some (mkScalingRules SelectMax [] (Some "1h")))) true) None.

Definition demo_powi10 (_ : Z) : f64 := S754_nan.

Definition demo_rejected : InstanceVolumeAutoscalerStatus :=
  default status_default (validation_status demo_powi10 demo_short 5000000).

Lemma validation_settles_witness :
  validation_status demo_powi10 demo_short 5000000 = Some demo_rejected /\
  st_reason demo_rejected = REASON_INVALID_SPEC /\
  validation_status demo_powi10 (mkIva (Some "db") (Some "u-1") (Some 1) (iva_spec demo_short)
    (Some (merge_patch None demo_rejected))) 9000000 = None.
Proof.
  assert (E : validation_status demo_powi10 demo_short 5000000 = Some demo_rejected) by (by vm_compute).
  split; [exact E|]. split; [by vm_compute|].
  apply (validation_settles demo_powi10 demo_short 5000000 9000000 demo_rejected).
  - constructor.
  - intros c H. exfalso. exact (not_elem_of_nil c H).
  - discriminate.
  - discriminate.
  - exact E.
Defined.
