(* ===== verification/Resizer.v ===== *)
(** * Growing the root volumes of instances (volume-autoscaler:
    autoscaler/instance_volume/resizer.rs, resizer/cordon.rs, awsx/ec2.rs,
    k8s/cordon.rs)

    A pass lists the autoscalers and the instances, plans which autoscaler grows
    which instance, and for each managed instance measures, decides, grows the
    volume, waits and expands the file system.  The services are a class: each
    call changes a state of their own and answers; [VolumeApiLaws] says what
    the source relies on.  A computation returns, stops with an error, or
    panics, which ends the process. *)

From Corelib Require Import SpecFloat.
From stdpp Require Import prelude list strings pretty gmap sorting.
From Stdlib Require Import ZArith Lia Ascii.
From S2P Require Import Prelude.
From S2P Require Import Strings.
From S2P Require Import BTree.
From S2P Require Import F64.
From S2P Require Import Autoscaler.
From S2P Require Import VolumePolicy.
From S2P Require Import VolumeStatus.
From S2P Require Import RecStore.

(** ** The services *)

Record ModifySpec := mkModifySpec { size_gib : Z; ms_throughput_mibps : Z; ms_iops : Z }.

(** A modification as EC2 reports it; its target size is not read here. *)
Record VolumeModification := mkModification { state : string; start_time : option Z }.

Record ApiError := mkApiError { code : option string; api_message : string }.

(** The cordon state of one EC2-backed Node. *)
Record CordonNode := mkCordonNode {
  cn_name : string;
  cn_uid : string;
  unschedulable : bool;
  protective : bool;
  cn_condition : option bool;
}.

Record CordonCondition := mkCordonCondition {
  cc_status : bool;
  cc_reason : string;
  cc_message : string;
  cc_at : Z;
}.

Inductive Script := MEASURE_ROOT_FS | RESIZE_ROOT_FS.

(** What the resizer calls.  [modify_call] is the request sent to EC2, with the
    fields that are left out absent; [describe_call] is
    [DescribeVolumesModifications], the latest modification first;
    [list_nodes] lists the Nodes by instance. *)
Class VolumeApi (S : Type) := {
  utc_now : S -> S * Z;
  instant_now : S -> S * Z;
  sleep : Z -> S -> S;
  list_autoscalers : S -> S * result string (list InstanceVolumeAutoscaler);
  describe_target_instances : S -> S * result string (list Instance_);
  modify_call : string -> Z -> option Z -> option Z -> S -> S * result ApiError unit;
  describe_call : string -> S -> S * result ApiError (list VolumeModification);
  run_script : string -> Script -> S -> S * result string string;
  list_nodes : S -> S * result string (list (string * CordonNode));
  cordon : string -> Z -> S -> S * result string unit;
  uncordon : string -> S -> S * result string unit;
  forget : string -> S -> S * result string unit;
  set_node_condition : string -> CordonCondition -> S -> S * result string unit;
  patch_status : string -> InstanceVolumeAutoscalerStatus -> S -> S * result string unit;
  recommendations : S -> option Store;
}.

(** ** Configuration and what a pass reports *)

(** The durations are in nanoseconds. *)
Record ResizerConfig := mkResizerConfig {
  dry_run : bool;
  volume_modify_timeout : Z;
  ssm_poll_interval : Z;
  throughput : ThroughputConfig;
  has_autoscalers : bool;
  has_cordon : bool;
}.

(** [Clients::poll_interval]. *)
Definition DEFAULT_POLL_INTERVAL : Z := NANOS.
Definition poll_interval (c : ResizerConfig) : Z :=
  if ssm_poll_interval c =? 0 then DEFAULT_POLL_INTERVAL else ssm_poll_interval c.

(** One attempted modification, for the reports. *)
Record ModSummary := mkModSummary {
  sum_node_name : string;
  sum_node_uid : string;
  sum_volume_id : string;
  size_from_gib : Z;
  size_to_gib : Z;
  tp_from_mibps : Z;
  tp_to_mibps : Z;
  iops_from : Z;
  iops_to : Z;
  fallback : bool;
}.

(** The metrics and reports, in order, with the requests that change a volume or
    the cordon of a Node.  Log lines are left out. *)
Inductive Observed :=
  | ObservedError (stage : string)
  | ObservedResize (success : bool) (policy : string)
  | ObservedSkip (reason policy : string)
  | ObservedUsage (instance : string) (percent : Z)
  | ObservedSize (instance : string) (gib : Z)
  | ObservedCounts (counts : BTreeMap nat)
  | ObservedApply (result : string)
  | ObservedApplySkip (reason : string)
  | ObservedCordon (action result : string)
  | ReportStarted (volume : string) (current target usage : Z)
  | ReportFailure (stage : string) (m : ModSummary)
  | ReportSuccess (after : Z) (m : ModSummary)
  | NodeEvent (node reason : string)
  | AutoscalerEvent (name reason : string)
  | Requested (volume : string) (spec : ModifySpec)
  | Cordoned (node : string)
  | Uncordoned (node : string)
  | Forgot (node : string).

Definition SKIP_BELOW_THRESHOLD : string := "below_threshold".
Definition SKIP_MAX_SIZE : string := "max_size".
Definition SKIP_COOLDOWN : string := "cooldown".
Definition SKIP_DRY_RUN : string := "dry_run".
Definition SKIP_PAUSED : string := "paused".
Definition SKIP_AMBIGUOUS : string := "ambiguous".
Definition APPLY_RESULT_APPLIED : string := "applied".
Definition APPLY_RESULT_FALLBACK : string := "fallback_size_only".
Definition ACTION_CORDON : string := "cordon".
Definition ACTION_UNCORDON : string := "uncordon".
Definition RESULT_SUCCESS : string := "success".
Definition RESULT_FAILURE : string := "failure".
Definition REASON_APPLIED : string := "ProtectiveCordonApplied".
Definition REASON_RELEASED : string := "ProtectiveCordonReleased".
Definition REASON_MARK_REMOVED : string := "ProtectiveCordonMarkRemoved".
Definition REASON_NOT_NEEDED : string := "ProtectiveCordonNotNeeded".

(** ** Computations *)

Inductive stop := Bail (e : string) | Panic.

Section Monad.
Context {S : Type}.

Definition M (A : Type) : Type := S * list Observed -> S * list Observed * result stop A.

Definition ret {A} (x : A) : M A := fun s => (s, Ok x).
Definition bail {A} (e : string) : M A := fun s => (s, Err (Bail e)).
Definition panic {A} : M A := fun s => (s, Err Panic).
Definition bind {A B} (m : M A) (f : A -> M B) : M B := fun s =>
  match m s with (s, Ok x) => f x s | (s, Err e) => (s, Err e) end.

(** A call of a service; its answer is a value. *)
Definition call {A} (f : S -> S * A) : M A := fun '(s, t) => let '(s', x) := f s in ((s', t), Ok x).
Definition observed (o : Observed) : M unit := fun '(s, t) => ((s, t ++ [o]), Ok tt).
(** The result of a computation that may have failed; a panic goes on. *)
Definition attempt {A} (m : M A) : M (result string A) := fun s =>
  match m s with
  | (s, Ok x) => (s, Ok (Ok x))
  | (s, Err (Bail e)) => (s, Ok (Err e))
  | (s, Err Panic) => (s, Err Panic)
  end.
Definition time_plus (t delta : Z) : M Z :=
  match time_add t delta with Some x => ret x | None => panic end.
End Monad.

Arguments M : clear implicits.
Declare Scope resizer_scope.
Delimit Scope resizer_scope with rz.
Notation "'let!' x := m 'in' k" := (bind m (fun x => k))
  (at level 10, x pattern, m at level 100, k at level 200,
   format "'[v' 'let!'  x  :=  m  'in' '/' k ']'") : resizer_scope.
Notation "m ;; k" := (bind m (fun _ => k))
  (at level 100, k at level 200, right associativity) : resizer_scope.
#[global] Open Scope resizer_scope.

Section Resizer.
Context {S : Type} `{VolumeApi S}.
Context (cfg : ResizerConfig).

(** ** Volumes (awsx/ec2.rs) *)

Definition modify_volume (volume_id : string) (spec : ModifySpec) : M S (result string unit) :=
  observed (Requested volume_id spec) ;;
  let! r := call (modify_call volume_id (size_gib spec)
                  (if 0 <? ms_throughput_mibps spec then Some (ms_throughput_mibps spec) else None)
                  (if 0 <? ms_iops spec then Some (ms_iops spec) else None)) in
  ret (map_err (fun e => "modify volume " +:+ volume_id +:+ " to " +:+ pretty (size_gib spec) +:+ " GiB: " +:+
                         api_message e) r).

Definition NOT_FOUND : string := "InvalidVolumeModification.NotFound".

(** A volume that was never modified has no history, which EC2 reports as an
    error. *)
Definition describe_last_modification (volume_id : string) : M S (result string (option VolumeModification)) :=
  let! r := call (describe_call volume_id) in
  ret match r with
      | Ok ms => Ok (head ms)
      | Err e =>
          if decide (code e = Some NOT_FOUND) then Ok None
          else Err ("describe volume modifications " +:+ volume_id +:+ ": " +:+ api_message e)
      end.

(** One look at the modification: [Some] answer, or [None] to sleep and look
    again. *)
Definition wait_once (volume_id : string) (deadline : Z) : M S (option (result string unit)) :=
  let! r := describe_last_modification volume_id in
  match r with
  | Err e => ret (Some (Err e))
  | Ok m =>
      let reached := match m with
                     | Some m =>
                         if decide (state m = "optimizing" \/ state m = "completed") then Some (Ok tt)
                         else if decide (state m = "failed") then
                           Some (Err ("volume " +:+ volume_id +:+ " modification failed"))
                         else None
                     | None => None
                     end in
      match reached with
      | Some r => ret (Some r)
      | None =>
          let! now := call instant_now in
          if deadline <? now then
            ret (Some (Err ("volume " +:+ volume_id +:+
              " modification did not reach optimizing within " +:+ go_duration (volume_modify_timeout cfg) +:+
              ": modification still in progress")))
          else call (fun s => (sleep (poll_interval cfg) s, tt)) ;; ret None
      end
  end.

(** The loop, with its rounds counted: out of rounds, [None]. *)
Fixpoint wait_loop (fuel : nat) (volume_id : string) (deadline : Z) : M S (option (result string unit)) :=
  match fuel with
  | O => ret None
  | Datatypes.S fuel =>
      let! r := wait_once volume_id deadline in
      match r with Some r => ret (Some r) | None => wait_loop fuel volume_id deadline end
  end.

Definition wait_rounds : nat := Z.to_nat (volume_modify_timeout cfg / poll_interval cfg) + 2.

Definition wait_for_modification (volume_id : string) : M S (option (result string unit)) :=
  let! now := call instant_now in
  wait_loop wait_rounds volume_id (now + volume_modify_timeout cfg).

(** ** Measuring *)

(** The text of [ParseIntError] for an [i32]: the first digit that does not fit,
    or the first character that is no digit. *)
Fixpoint int_error_loop (neg : bool) (acc : Z) (s : string) : string :=
  match s with
  | EmptyString => "invalid digit found in string"
  | String c s =>
      if is_ascii_digit c then
        let acc := acc * 10 + (if neg then - digit_value c else digit_value c) in
        if i32_max <? acc then "number too large to fit in target type"
        else if acc <? i32_min then "number too small to fit in target type"
        else int_error_loop neg acc s
      else "invalid digit found in string"
  end.
Definition int_error (s : string) : string :=
  match s with
  | EmptyString => "cannot parse integer from empty string"
  | String c rest =>
      if Ascii.eqb c "-" then int_error_loop true 0 rest
      else if Ascii.eqb c "+" then int_error_loop false 0 rest else int_error_loop false 0 s
  end.

Definition parse_usage_percent (out : string) : result string Z :=
  let s := trim (trim_end (fun c => Ascii.eqb c "%") (trim out)) in
  if str_is_empty s then Err "empty usage output" else
  match parse_i32 s with
  | None => Err ("parse usage " +:+ str_debug out +:+ ": " +:+ int_error s)
  | Some n =>
      if (0 <=? n) && (n <=? 100) then Ok n else Err ("usage " +:+ pretty n +:+ " out of range")
  end.

Definition measure (instance : string) : M S (result string Z) :=
  let! r := call (run_script instance MEASURE_ROOT_FS) in
  ret match r with Ok out => parse_usage_percent out | Err e => Err e end.

(** ** The cooldown *)

(** [Some (Some until)] inside the cooldown, [Some None] while a modification is
    in progress, [None] when the volume is free. *)
Definition cooldown_block (volume_id : string) (cooldown : Z) : M S (result string (option (option Z))) :=
  let! r := describe_last_modification volume_id in
  match r with
  | Err e => ret (Err e)
  | Ok None => ret (Ok None)
  | Ok (Some m) =>
      if decide (state m = "modifying" \/ state m = "optimizing") then ret (Ok (Some None)) else
      match start_time m with
      | None => ret (Ok None)
      | Some start =>
          let! until := time_plus start (delta_from_secs cooldown) in
          let! now := call utc_now in
          ret (Ok (if now <? until then Some (Some until) else None))
      end
  end.

(** ** The protective cordon (resizer/cordon.rs) *)

Definition set_cordon (n : CordonNode) (unsched prot : bool) : CordonNode :=
  mkCordonNode (cn_name n) (cn_uid n) unsched prot (cn_condition n).

Definition cordon_node (node : option CordonNode) : M S (option CordonNode) :=
  match node with
  | Some n =>
      if negb (has_cordon cfg) || protective n || unschedulable n || dry_run cfg then ret node else
      let! at_ := call utc_now in
      observed (Cordoned (cn_name n)) ;;
      let! r := call (cordon (cn_name n) at_) in
      match r with
      | Err _ => observed (ObservedCordon ACTION_CORDON RESULT_FAILURE) ;; ret node
      | Ok _ =>
          observed (ObservedCordon ACTION_CORDON RESULT_SUCCESS) ;;
          observed (NodeEvent (cn_name n) REASON_APPLIED) ;;
          ret (Some (set_cordon n true true))
      end
  | None => ret None
  end.

Definition uncordon_node (node : option CordonNode) : M S (option CordonNode) :=
  match node with
  | Some n =>
      if negb (has_cordon cfg) || negb (protective n) || dry_run cfg then ret node
      else if negb (unschedulable n) then
        observed (Forgot (cn_name n)) ;;
        let! r := call (forget (cn_name n)) in
        match r with
        | Err _ => ret node
        | Ok _ => ret (Some (set_cordon n (unschedulable n) false))
        end
      else
        observed (Uncordoned (cn_name n)) ;;
        let! r := call (uncordon (cn_name n)) in
        match r with
        | Err _ => observed (ObservedCordon ACTION_UNCORDON RESULT_FAILURE) ;; ret node
        | Ok _ =>
            observed (ObservedCordon ACTION_UNCORDON RESULT_SUCCESS) ;;
            observed (NodeEvent (cn_name n) REASON_RELEASED) ;;
            ret (Some (set_cordon n false false))
        end
  | None => ret None
  end.

Definition COMPONENT : string := "volume-autoscaler".

(** The reason and the message of the condition to write. *)
Definition condition_text (n : CordonNode) (under : bool) : string * string :=
  if protective n then
    (REASON_APPLIED, COMPONENT +:+ " has cordoned the node for high root filesystem usage")
  else
    match cn_condition n with
    | None => (REASON_NOT_NEEDED, COMPONENT +:+ " has no cordon as root filesystem usage is under the threshold")
    | Some _ =>
        if under && negb (unschedulable n) then
          (REASON_RELEASED, COMPONENT +:+ " has no cordon as root filesystem usage is back under the threshold")
        else (REASON_MARK_REMOVED, COMPONENT +:+ " has no cordon as its mark was removed by someone else")
    end.

Definition sync_protective_condition (node : option CordonNode) (usage threshold : Z)
    : M S (option CordonNode) :=
  match node with
  | Some n =>
      let want := protective n in
      let under := usage <? threshold in
      if negb (has_cordon cfg) || bool_decide (cn_condition n = Some want) ||
         (negb want && negb (is_some (cn_condition n)) && negb under) || dry_run cfg
      then ret node else
      let '(reason, message) := condition_text n under in
      let! at_ := call utc_now in
      let! r := call (set_node_condition (cn_name n) (mkCordonCondition want reason message at_)) in
      match r with
      | Err _ => observed (ObservedError "protective_cordon") ;; ret node
      | Ok _ => ret (Some (mkCordonNode (cn_name n) (cn_uid n) (unschedulable n) (protective n) (Some want)))
      end
  | None => ret None
  end.

Definition apply_protective_cordon (node : option CordonNode) (usage threshold : Z) : M S (option CordonNode) :=
  let! node := cordon_node node in sync_protective_condition node usage threshold.

Definition release_protective_cordon (node : option CordonNode) (usage threshold : Z) : M S (option CordonNode) :=
  let! node := uncordon_node node in sync_protective_condition node usage threshold.

Definition protective_cordon_nodes : M S (list (string * CordonNode)) :=
  if negb (has_cordon cfg) then ret [] else
  let! r := call list_nodes in
  match r with
  | Ok nodes => ret nodes
  | Err _ => observed (ObservedError "protective_cordon") ;; ret []
  end.

(** ** One instance *)

Definition target_size (current : Z) (eff : Effective) : Z := step_up current (steps eff) (select_min eff).

Definition new_mod_summary (recs : option Store) (volume_id : string) (current target : Z) (rec : option Entry)
    : ModSummary :=
  let '(name, uid) := default (EmptyString, EmptyString) (recs ≫= node_ref volume_id) in
  match rec with
  | Some e => mkModSummary name uid volume_id current target (current_mibps e) (throughput_mibps e)
                (current_iops e) (iops e) false
  | None => mkModSummary name uid volume_id current target 0 0 0 0 false
  end.

Definition with_fallback (m : ModSummary) : ModSummary :=
  mkModSummary (sum_node_name m) (sum_node_uid m) (sum_volume_id m) (size_from_gib m) (size_to_gib m)
    (tp_from_mibps m) (tp_to_mibps m) (iops_from m) (iops_to m) true.

Definition report_failure (eff : Effective) (m : ModSummary) (stage : string) : M S unit :=
  observed (ObservedError stage) ;; observed (ObservedResize false (policy eff)) ;;
  observed (ReportFailure stage m).

Definition report_success (inst : Instance_) (eff : Effective) (after : Z) (m : ModSummary) : M S unit :=
  observed (ObservedResize true (policy eff)) ;;
  observed (ObservedSize (inst_id inst) (size_to_gib m)) ;;
  observed (ReportSuccess after m).

(** What a pass over an instance ends with: the observation, and an error if it
    failed. *)
Definition Outcome_ : Type := Observation * result string unit.
Definition done_ (o : Observation) : M S Outcome_ := ret (o, Ok tt).
Definition failed (o : Observation) (e : string) : M S Outcome_ := ret (o, Err e).

(** The request, and if a combined one is refused, the size alone. *)
Definition request_modification (eff : Effective) (volume : string) (target : Z) (rec : option Entry)
    (m : ModSummary) : M S (ModSummary * result string unit) :=
  let spec := match rec with
              | Some e => mkModifySpec target (throughput_mibps e) (iops e)
              | None => mkModifySpec target 0 0
              end in
  let! r := modify_volume volume spec in
  match r, rec with
  | Ok _, None => ret (m, Ok tt)
  | Ok _, Some _ => observed (ObservedApply APPLY_RESULT_APPLIED) ;; ret (m, Ok tt)
  | Err e, None => report_failure eff m "modify" ;; ret (m, Err ("modify volume: " +:+ e))
  | Err _, Some _ =>
      let m := with_fallback m in
      observed (ObservedApply APPLY_RESULT_FALLBACK) ;;
      let! r := modify_volume volume (mkModifySpec target 0 0) in
      match r with
      | Ok _ => ret (m, Ok tt)
      | Err e => report_failure eff m "modify" ;; ret (m, Err ("modify volume: " +:+ e))
      end
  end.

(** After the file system was expanded. *)
Definition verify_usage (inst : Instance_) (eff : Effective) (node : option CordonNode) : M S Z :=
  let! r := measure (inst_id inst) in
  match r with
  | Ok after =>
      if after <? usage_threshold_percent eff then
        let! _ := release_protective_cordon node after (usage_threshold_percent eff) in ret after
      else ret after
  | Err _ => ret 0
  end.

Definition grow (inst : Instance_) (eff : Effective) (node : option CordonNode) (obs : Observation)
    (current target used : Z) : M S Outcome_ :=
  let volume := root_volume_id inst in
  let! now := call utc_now in
  let! recs := call (fun s => (s, recommendations s)) in
  let '(rec, apply_skip) := throughput_piggyback (throughput cfg) recs now volume in
  let m := new_mod_summary recs volume current target rec in
  if dry_run cfg then
    observed (ObservedSkip SKIP_DRY_RUN (policy eff)) ;;
    done_ (obs_set obs REASON_DRY_RUN ("would grow to " +:+ pretty target +:+ " GiB"))
  else
    (if str_is_empty apply_skip then ret tt else observed (ObservedApplySkip apply_skip)) ;;
    let! start := call utc_now in
    observed (ReportStarted volume current target used) ;;
    let! mr := request_modification eff volume target rec m in
    let '(m, r) := mr in
    match r with
    | Err e => failed obs e
    | Ok _ =>
        let! w := wait_for_modification volume in
        match w with
        | None => panic
        | Some (Err e) => report_failure eff m "wait" ;; failed obs ("wait for modification: " +:+ e)
        | Some (Ok _) =>
            let! res := call (run_script (inst_id inst) RESIZE_ROOT_FS) in
            match res with
            | Err e => report_failure eff m "resize" ;; failed obs ("resize filesystem: " +:+ e)
            | Ok _ =>
                let! after := verify_usage inst eff node in
                report_success inst eff after m ;;
                let! until := time_plus start (delta_from_secs (cooldown eff)) in
                done_ (obs_set (obs_with_usage (obs_scaled obs target start until) (Some after))
                  REASON_SUCCEEDED_RESCALE
                  ("grew from " +:+ pretty current +:+ " GiB to " +:+ pretty target +:+ " GiB at " +:+
                   pretty used +:+ "% usage"))
            end
        end
    end.

(** [rfc3339] renders a time, to the second. *)
Context (rfc3339 : Z -> string).

Definition cooldown_message (cooldown : Z) (until : option Z) : string :=
  match until with
  | None => "a modification of the volume is still in progress"
  | Some t => "the volume was modified within the " +:+ format_cooldown cooldown +:+
              " cooldown, next modification after " +:+ rfc3339 t
  end.

Definition reconcile_above (inst : Instance_) (eff : Effective) (node : option CordonNode) (obs : Observation)
    (used : Z) : M S Outcome_ :=
  let! node := apply_protective_cordon node used (usage_threshold_percent eff) in
  let current := root_volume_size_gib inst in
  let target := target_size current eff in
  let obs := obs_with_desired obs target in
  if max_volume_size_gib eff <? target then
    observed (ObservedSkip SKIP_MAX_SIZE (policy eff)) ;;
    done_ (obs_set obs REASON_MAX_CAPACITY
      (pretty target +:+ " GiB would exceed maxCapacity " +:+ pretty (max_volume_size_gib eff) +:+ " GiB"))
  else
    let! blocked := cooldown_block (root_volume_id inst) (cooldown eff) in
    match blocked with
    | Err e => observed (ObservedError "cooldown") ;; failed obs ("check cooldown: " +:+ e)
    | Ok (Some until) =>
        observed (ObservedSkip SKIP_COOLDOWN (policy eff)) ;;
        done_ (obs_set (obs_with_cooldown obs until) REASON_COOLDOWN (cooldown_message (cooldown eff) until))
    | Ok None => grow inst eff node obs current target used
    end.

Definition reconcile_instance (inst : Instance_) (eff : Effective) (node : option CordonNode) : M S Outcome_ :=
  let obs := observation_new (root_volume_size_gib inst) in
  if str_is_empty (root_volume_id inst) then
    done_ (obs_set obs REASON_NO_ROOT_VOLUME "no root EBS volume resolved")
  else
    observed (ObservedSize (inst_id inst) (root_volume_size_gib inst)) ;;
    if paused eff then
      observed (ObservedSkip SKIP_PAUSED (policy eff)) ;;
      done_ (obs_set obs REASON_SCALING_DISABLED "behavior.scaleUp.selectPolicy is Disabled")
    else
      let! m := measure (inst_id inst) in
      match m with
      | Err e =>
          observed (ObservedError "measure") ;;
          failed (obs_with_reason obs REASON_FAILED_METRIC) ("measure usage: " +:+ e)
      | Ok used =>
          observed (ObservedUsage (inst_id inst) used) ;;
          let obs := obs_with_usage obs (Some used) in
          if used <? usage_threshold_percent eff then
            observed (ObservedSkip SKIP_BELOW_THRESHOLD (policy eff)) ;;
            let! _ := release_protective_cordon node used (usage_threshold_percent eff) in
            done_ (obs_set obs REASON_BELOW_TARGET
              ("usage " +:+ pretty used +:+ "% is below the " +:+ pretty (usage_threshold_percent eff) +:+
               "% target"))
          else reconcile_above inst eff node obs used
      end.

(** ** One pass *)

Context (powi10 : Z -> f64).

Definition Entries : Type := BTreeMap (list InstanceStatus).
Definition add_entry (name : string) (e : InstanceStatus) (es : Entries) : Entries :=
  bt_upsert (fun l => default [] l ++ [e]) name es.

(** The task of a managed instance. *)
Definition manage (instances : list Instance_) (acc : gmap string CordonNode * Entries)
    (im : nat * Effective) : M S (gmap string CordonNode * Entries) :=
  let '(nodes, entries) := acc in
  match instances !! im.1 with
  | None => panic
  | Some inst =>
      let! r := reconcile_instance inst im.2 (nodes !! inst_id inst) in
      let obs := match r with
                 | (obs, Ok _) => obs
                 | (obs, Err e) =>
                     obs_with_message
                       (if str_is_empty (reason obs) then obs_with_reason obs REASON_FAILED_RESCALE else obs) e
                 end in
      ret (delete (inst_id inst) nodes, add_entry (policy im.2) (entry obs inst) entries)
  end.

Fixpoint manage_all (instances : list Instance_) (acc : gmap string CordonNode * Entries)
    (l : list (nat * Effective)) : M S (gmap string CordonNode * Entries) :=
  match l with
  | [] => ret acc
  | im :: l => let! acc := manage instances acc im in manage_all instances acc l
  end.

(** A refused instance is skipped and listed under each of its autoscalers. *)
Definition refuse (instances : list Instance_) (acc : Entries) (r : nat * list string) : Entries :=
  match instances !! r.1 with
  | None => acc
  | Some inst =>
      let obs := obs_set (observation_new (root_volume_size_gib inst)) REASON_AMBIGUOUS
        ("targeted by more than one InstanceVolumeAutoscaler: " +:+ str_join ", " r.2) in
      foldl (fun es name => add_entry name (entry obs inst) es) acc r.2
  end.

Definition refused_skips (p : Plan) : list Observed :=
  flat_map (fun r => map (ObservedSkip SKIP_AMBIGUOUS) r.2) (refused p).

Definition inactive_of (iva : InstanceVolumeAutoscaler) (r : Resolver) (conflicts : BTreeMap BTreeSet)
    (discovery_error : option string) : option Inactive * bool :=
  let name := default EmptyString (iva_name iva) in
  match List.find (fun i => String.eqb i.1 name) (invalid r) with
  | Some (_, err) => (Some (mkInactive REASON_INVALID_SPEC err), false)
  | None =>
      if from_option (fun c => paused (effective c)) false (resolver_get r name) then
        (Some (mkInactive REASON_SCALING_DISABLED "behavior.scaleUp.selectPolicy is Disabled"), false)
      else
        match discovery_error with
        | Some err => (Some (mkInactive REASON_FAILED_GET_SCALE err), false)
        | None =>
            match bt_get name conflicts with
            | Some others =>
                (Some (mkInactive REASON_AMBIGUOUS
                   ("shares instances with InstanceVolumeAutoscaler " +:+ str_join ", " others.*1)), true)
            | None => (None, false)
            end
        end
  end.

Definition write_status (r : Resolver) (conflicts : BTreeMap BTreeSet) (discovery_error : option string)
    (now : Z) (entries : Entries) (iva : InstanceVolumeAutoscaler) : M S unit :=
  let name := default EmptyString (iva_name iva) in
  let own := match discovery_error, iva_status iva with
             | Some _, Some prev => st_instances prev
             | _, _ => default [] (bt_get name entries)
             end in
  let '(inactive, event) := inactive_of iva r conflicts discovery_error in
  (if event : bool then observed (AutoscalerEvent name REASON_AMBIGUOUS) else ret tt) ;;
  let status := refresh_summary (iva_spec iva) (build (iva_status iva) (iva_generation iva) own inactive now) in
  let! _ := call (patch_status name status) in ret tt.

Fixpoint write_each (r : Resolver) (conflicts : BTreeMap BTreeSet) (discovery_error : option string)
    (now : Z) (entries : Entries) (ivas : list InstanceVolumeAutoscaler) : M S unit :=
  match ivas with
  | [] => ret tt
  | iva :: ivas =>
      write_status r conflicts discovery_error now entries iva ;;
      write_each r conflicts discovery_error now entries ivas
  end.

Definition write_statuses (ivas : list InstanceVolumeAutoscaler) (r : Resolver) (conflicts : BTreeMap BTreeSet)
    (entries : Entries) (discovery_error : option string) : M S unit :=
  if negb (has_autoscalers cfg) then ret tt else
  let! now := call utc_now in
  write_each r conflicts discovery_error now entries ivas.

Fixpoint observe_all (os : list Observed) : M S unit :=
  match os with [] => ret tt | o :: os => observed o ;; observe_all os end.

Definition policy_counts (r : Resolver) (p : Plan) : BTreeMap nat :=
  foldl (fun cs e => bt_upsert (fun n => Datatypes.S (default 0%nat n)) (policy e.2) cs)
    (foldl (fun cs n => bt_upsert (fun _ => 0%nat) n cs) [] (names r)) (managed p).

Definition list_ivas : M S (list InstanceVolumeAutoscaler) :=
  if negb (has_autoscalers cfg) then ret [] else
  let! r := call list_autoscalers in
  match r with
  | Ok l => ret l
  | Err e => observed (ObservedError "autoscalers") ;; bail ("list InstanceVolumeAutoscalers: " +:+ e)
  end.

Definition reconcile_pass : M S Z :=
  let! ivas := list_ivas in
  let r := resolver_new powi10 ivas in
  let! discovered := call describe_target_instances in
  match discovered with
  | Err e =>
      let e := "discover instances: " +:+ e in
      observed (ObservedError "discover") ;;
      write_statuses ivas r [] [] (Some e) ;; bail e
  | Ok instances =>
      let p := plan r instances in
      observed (ObservedCounts (policy_counts r p)) ;;
      observe_all (refused_skips p) ;;
      let! nodes := protective_cordon_nodes in
      let! done_entries :=
        manage_all instances (list_to_map (rev nodes), foldl (refuse instances) [] (refused p)) (managed p) in
      write_statuses ivas r (conflicts p) done_entries.2 None ;;
      ret (zlen instances)
  end.
End Resizer.

(** ** Computations along a relation

    Every step of the computation is one of a preorder on the state of the
    services and the reports so far. *)

Section Along.
Context {S : Type} (R : relation (S * list Observed)) `{!PreOrder R}.

Definition along {A} (m : M S A) : Prop := forall st, R st (m st).1.

Lemma along_ret {A} (x : A) : along (ret x).
Proof. by intros st. Qed.

Lemma along_bail {A} e : along (bail (A := A) e).
Proof. by intros st. Qed.

Lemma along_panic {A} : along (panic (A := A)).
Proof. by intros st. Qed.

Lemma along_bind {A B} (m : M S A) (f : A -> M S B) :
  along m -> (forall x, along (f x)) -> along (bind m f).
Proof.
  intros Hm Hf st. unfold bind. specialize (Hm st). destruct (m st) as [st' [x|e]]; cbn in *; [|done].
  by etrans; [|apply Hf].
Qed.

Lemma along_time_plus t d : along (time_plus t d).
Proof. intros st. unfold time_plus. by destruct (time_add t d). Qed.
End Along.

(** Steps through a computation, with the hints of the relation's database. *)
Ltac along_cases :=
  match goal with
  | |- along _ (let '_ := ?x in _) => destruct x
  | |- along _ (match ?x with _ => _ end) => destruct x
  | |- along _ (if ?x then _ else _) => destruct x
  end.
