(* ===== verification/ResizerSafety.v ===== *)
(** * What growing volumes keeps (volume-autoscaler: autoscaler/instance_volume)

    Laws of services that show what they accepted at once, and what follows for
    a pass and for any run of passes: the modifications of a volume stay six
    hours apart, so EBS's limit of four in a day is kept; every request is for an instance that one
    autoscaler manages and measures as full, within its limits; the wait for a
    modification ends. *)

From Corelib Require Import SpecFloat.
From stdpp Require Import prelude list strings pretty gmap sorting.
From Stdlib Require Import ZArith Lia Ascii.
From S2P Require Import Prelude.
From S2P Require Import Strings.
From S2P Require Import BTree.
From S2P Require Import F64.
From S2P Require Import Autoscaler.
From S2P Require Import VolumePolicy.
From S2P Require Import VolumeStatus.
From S2P Require Import RecStore.
From S2P Require Import Resizer.

(** ** The laws *)

(** Services that the argument about the cooldown needs.  EC2 promises less: its
    documents call the API eventually consistent, and a request whose answer is
    lost may have been accepted; what uses these laws holds while EC2 behaves
    like this.  [modified s v] are the start times of the
    modifications of [v] that EC2 accepted from this program, the latest first;
    [clock] is the time of day and [ticks] the monotone clock.  A request that
    is answered with an error was not accepted.  The latest modification EC2
    reports is at least as late as the latest of this program's. *)
Class VolumeApiLaws (S : Type) `{VolumeApi S} := {
  modified : S -> string -> list Z;
  clock : S -> Z;
  ticks : S -> Z;
  quiet_step (s s' : S) : Prop :=
    clock s <= clock s' /\ ticks s <= ticks s' /\ forall v, modified s' v = modified s v;
  utc_now_law s s' n : utc_now s = (s', n) -> quiet_step s s' /\ clock s <= n <= clock s';
  instant_now_law s s' n : instant_now s = (s', n) -> quiet_step s s' /\ ticks s <= n <= ticks s';
  sleep_law d s : 0 <= d -> quiet_step s (sleep d s) /\ ticks s + d <= ticks (sleep d s);
  list_autoscalers_law s : quiet_step s (list_autoscalers s).1;
  instances_law s : quiet_step s (describe_target_instances s).1;
  run_script_law i c s : quiet_step s (run_script i c s).1;
  list_nodes_law s : quiet_step s (list_nodes s).1;
  cordon_law n t s : quiet_step s (cordon n t s).1;
  uncordon_law n s : quiet_step s (uncordon n s).1;
  forget_law n s : quiet_step s (forget n s).1;
  condition_law n c s : quiet_step s (set_node_condition n c s).1;
  status_law n st s : quiet_step s (patch_status n st s).1;
  describe_quiet v s : quiet_step s (describe_call v s).1;
  describe_law v s s' r :
    describe_call v s = (s', r) -> modified s v <> [] ->
    match r with
    | Ok [] => False
    | Ok (m :: _) =>
        state m = "modifying" \/ state m = "optimizing" \/
        exists start, start_time m = Some start /\ forall t, t ∈ modified s v -> t <= start
    | Err e => code e <> Some NOT_FOUND
    end;
  modify_law v size tp io s s' r :
    modify_call v size tp io s = (s', r) ->
    clock s <= clock s' /\ ticks s <= ticks s' /\
    match r with
    | Ok _ => exists t, clock s <= t <= clock s' /\ modified s' v = t :: modified s v /\
                forall w, w <> v -> modified s' w = modified s w
    | Err _ => forall w, modified s' w = modified s w
    end;
}.

Section QuietStep.
Context {S : Type} `{L : VolumeApiLaws S}.

#[global] Instance quiet_step_refl : Reflexive quiet_step.
Proof. intros s. unfold quiet_step. split_and!; [lia|lia|done]. Qed.
#[global] Instance quiet_step_trans : Transitive quiet_step.
Proof.
  intros a b c (H1 & H2 & H3) (J1 & J2 & J3). unfold quiet_step. split_and!; [lia|lia|].
  intros v. by rewrite J3, H3.
Qed.

#[global] Instance quiet_step_preorder : PreOrder quiet_step.
Proof. split; apply _. Qed.

(** ** Computations that modify no volume *)

Definition quiet_along : relation (S * list Observed) := fun st st' => quiet_step st.1 st'.1.

#[global] Instance quiet_along_preorder : PreOrder quiet_along.
Proof. unfold quiet_along. split; [by intros ?|]. intros a b c ??. by trans b.1. Qed.

End QuietStep.

Abbreviation quiet := (along quiet_along).

Section Quiet.
Context {S : Type} `{L : VolumeApiLaws S}.

Lemma quiet_call {A} (f : S -> S * A) : (forall s, quiet_step s (f s).1) -> quiet (call f).
Proof. intros Hf [s t]. unfold quiet_along. cbn. specialize (Hf s). by destruct (f s). Qed.

Lemma quiet_observed o : quiet (observed o).
Proof. by intros [s t]. Qed.

Lemma quiet_utc_now : quiet (call utc_now).
Proof.
  apply quiet_call. intros s. destruct (utc_now s) as [s' n] eqn:E. by apply utc_now_law in E as [? _].
Qed.

Lemma quiet_instant_now : quiet (call instant_now).
Proof.
  apply quiet_call. intros s. destruct (instant_now s) as [s' n] eqn:E. by apply instant_now_law in E as [? _].
Qed.
End Quiet.

Create HintDb quiet.
#[export] Hint Resolve quiet_observed quiet_utc_now
  quiet_instant_now run_script_law list_nodes_law cordon_law uncordon_law forget_law condition_law status_law
  list_autoscalers_law instances_law describe_quiet : quiet.

(** Steps through a computation that modifies no volume. *)
Ltac quiet_steps :=
  repeat first
    [ progress eauto 2 with quiet
    | apply along_ret; [apply _] | apply along_bail; [apply _] | apply along_panic; [apply _]
    | apply along_time_plus; [apply _]
    | apply along_bind; [apply _| |intros]
    | apply quiet_call; intros; cbn [fst]
    | reflexivity
    | along_cases ].

Lemma poll_interval_pos cfg : 0 <= ssm_poll_interval cfg -> 0 < poll_interval cfg.
Proof. unfold poll_interval, DEFAULT_POLL_INTERVAL, NANOS. destruct (_ =? 0) eqn:E; lia. Qed.

Section QuietParts.
Context {S : Type} `{L : VolumeApiLaws S}.
Context (cfg : ResizerConfig).

Lemma quiet_describe v : quiet (describe_last_modification v).
Proof. unfold describe_last_modification. quiet_steps. Qed.

Lemma quiet_measure i : quiet (measure i).
Proof. unfold measure. quiet_steps. Qed.

Lemma quiet_cordon_node n : quiet (cordon_node cfg n).
Proof. unfold cordon_node. quiet_steps. Qed.

Lemma quiet_uncordon_node n : quiet (uncordon_node cfg n).
Proof. unfold uncordon_node. quiet_steps. Qed.

Lemma quiet_sync n u t : quiet (sync_protective_condition cfg n u t).
Proof. unfold sync_protective_condition. quiet_steps. Qed.

Lemma quiet_wait_once v d : 0 <= poll_interval cfg -> quiet (wait_once cfg v d).
Proof.
  intros Hp. unfold wait_once. apply along_bind; [apply _|apply quiet_describe|]. intros r. quiet_steps.
  by apply sleep_law.
Qed.

Lemma quiet_wait_loop fuel v d : 0 <= poll_interval cfg -> quiet (wait_loop cfg fuel v d).
Proof.
  intros Hp. induction fuel as [|fuel IH]; cbn; [quiet_steps|].
  apply along_bind; [apply _|by apply quiet_wait_once|]. intros [r|]; [quiet_steps|done].
Qed.

Lemma quiet_report_failure eff m stage : quiet (report_failure eff m stage).
Proof. unfold report_failure. quiet_steps. Qed.

Lemma quiet_report_success i eff a m : quiet (report_success i eff a m).
Proof. unfold report_success. quiet_steps. Qed.
End QuietParts.

#[export] Hint Resolve quiet_describe quiet_measure quiet_cordon_node quiet_uncordon_node quiet_sync
  quiet_wait_once quiet_wait_loop quiet_report_failure quiet_report_success : quiet.

Section QuietRest.
Context {S : Type} `{L : VolumeApiLaws S}.
Context (cfg : ResizerConfig).

Lemma quiet_apply n u t : quiet (apply_protective_cordon cfg n u t).
Proof. unfold apply_protective_cordon. quiet_steps. Qed.

Lemma quiet_release n u t : quiet (release_protective_cordon cfg n u t).
Proof. unfold release_protective_cordon. quiet_steps. Qed.

Lemma quiet_wait v : 0 <= poll_interval cfg -> quiet (wait_for_modification cfg v).
Proof. intros Hp. unfold wait_for_modification. quiet_steps. Qed.

Lemma quiet_cooldown v c : quiet (cooldown_block v c).
Proof. unfold cooldown_block. quiet_steps. Qed.

Lemma quiet_verify i eff n : quiet (verify_usage cfg i eff n).
Proof. unfold verify_usage, release_protective_cordon. quiet_steps. Qed.

Lemma quiet_observe_all os : quiet (observe_all (S := S) os).
Proof. induction os; cbn; quiet_steps. Qed.

Lemma quiet_write_each r cs e now es ivas : quiet (write_each r cs e now es ivas).
Proof. induction ivas as [|iva ivas IH]; cbn; [quiet_steps|]. unfold write_status. quiet_steps. Qed.

Lemma quiet_write_statuses ivas r cs es e : quiet (write_statuses cfg ivas r cs es e).
Proof. unfold write_statuses. quiet_steps. apply quiet_write_each. Qed.

Lemma quiet_list_ivas : quiet (list_ivas cfg).
Proof. unfold list_ivas. quiet_steps. Qed.

Lemma quiet_cordon_nodes : quiet (protective_cordon_nodes cfg).
Proof. unfold protective_cordon_nodes. quiet_steps. Qed.
End QuietRest.

#[export] Hint Resolve quiet_apply quiet_release quiet_wait quiet_cooldown quiet_verify quiet_observe_all
  quiet_write_statuses quiet_list_ivas quiet_cordon_nodes : quiet.

(** ** Modifications are spaced *)

(** Six hours, in nanoseconds. *)
Definition least_gap : Z := MIN_COOLDOWN * NANOS.

Section Spacing.
Context {S : Type} `{L : VolumeApiLaws S}.
Context (cfg : ResizerConfig) (Hpoll : 0 <= poll_interval cfg).

(** The modifications of a volume, the latest first, are six hours apart and in
    the past. *)
Definition spaced (s : S) : Prop :=
  forall v, StronglySorted (fun later earlier => earlier + least_gap <= later) (modified s v) /\
    Forall (fun t => t <= clock s) (modified s v).

(** The volume may be modified now. *)
Definition free (s : S) (v : string) : Prop := Forall (fun t => t + least_gap <= clock s) (modified s v).

Lemma spaced_quiet s s' : quiet_step s s' -> spaced s -> spaced s'.
Proof.
  intros (Hc & _ & Hm) Hs v. destruct (Hs v) as [H1 H2]. rewrite Hm. split; [done|].
  eapply Forall_impl; [exact H2|]. cbn. intros t. lia.
Qed.

Lemma free_quiet s s' v : quiet_step s s' -> free s v -> free s' v.
Proof.
  intros (Hc & _ & Hm) Hs. unfold free in *. rewrite Hm.
  eapply Forall_impl; [exact Hs|]. cbn. intros t. lia.
Qed.

Definition keeps {A} (m : M S A) : Prop := forall st, spaced st.1 -> spaced (m st).1.1.

Lemma quiet_keeps {A} (m : M S A) : quiet m -> keeps m.
Proof. intros Hq st. apply spaced_quiet, Hq. Qed.

Lemma spaced_bind {A B} (m : M S A) (f : A -> M S B) : keeps m -> (forall x, keeps (f x)) -> keeps (bind m f).
Proof.
  intros Hm Hf st Hst. unfold bind. specialize (Hm st Hst). destruct (m st) as [st' [x|e]]; cbn in *; [|done].
  by apply Hf.
Qed.

(** A request leaves the volumes spaced if the volume is free; if it is refused,
    the volume stays free. *)
Lemma modify_spaced v spec st st' r :
  modify_volume v spec st = (st', r) -> spaced st.1 -> free st.1 v ->
  spaced st'.1 /\ ((exists e, r = Ok (Err e)) -> free st'.1 v).
Proof.
  destruct st as [s t]. unfold modify_volume, bind, observed, call, ret. cbn.
  destruct (modify_call _ _ _ _ s) as [s' a] eqn:E. intros [= <- <-] Hs Hf. cbn in *.
  apply modify_law in E as (Hc & _ & E). destruct a as [u|e]; cbn.
  - destruct E as (t0 & Ht & Hv & Hw). split; [|by intros [? ?]]. intros w.
    destruct (decide (w = v)) as [->|Hne].
    + rewrite Hv. destruct (Hs v) as [H1 H2]. split.
      * constructor; [done|]. eapply Forall_impl; [exact Hf|]. cbn. intros x. lia.
      * constructor; [lia|]. eapply Forall_impl; [exact H2|]. cbn. intros x. lia.
    + rewrite Hw by done. destruct (Hs w) as [H1 H2]. split; [done|].
      eapply Forall_impl; [exact H2|]. cbn. intros x. lia.
  - split.
    + intros w. rewrite E. destruct (Hs w) as [H1 H2]. split; [done|].
      eapply Forall_impl; [exact H2|]. cbn. intros x. lia.
    + intros _. unfold free in *. rewrite E. eapply Forall_impl; [exact Hf|]. cbn. intros x. lia.
Qed.

Lemma request_spaced eff v target rec m st :
  spaced st.1 -> free st.1 v -> spaced (request_modification eff v target rec m st).1.1.
Proof.
  intros Hs Hf. unfold request_modification, bind at 1.
  destruct (modify_volume _ _ st) as [st1 r1] eqn:E1.
  destruct (modify_spaced _ _ _ _ _ E1 Hs Hf) as [Hs1 Hf1].
  destruct r1 as [[u|e]|x]; [destruct rec|destruct rec|done].
  - refine (quiet_keeps _ _ _ Hs1). quiet_steps.
  - done.
  - assert (Hf1' : free st1.1 v) by (apply Hf1; by eexists).
    unfold bind at 1. destruct (observed _ st1) as [st2 [[]|]] eqn:E2;
      [|by destruct st1; discriminate E2].
    assert (Hq : quiet_step st1.1 st2.1) by (destruct st1; injection E2 as <-; done).
    unfold bind at 1. destruct (modify_volume _ _ st2) as [st3 r3] eqn:E3.
    destruct (modify_spaced _ _ _ _ _ E3) as [Hs3 _];
      [by eapply spaced_quiet|by eapply free_quiet|].
    destruct r3 as [[u3|e3]|x3]; [done| |done]. refine (quiet_keeps _ _ _ Hs3). quiet_steps.
  - refine (quiet_keeps _ _ _ Hs1). quiet_steps.
Qed.

(** A volume that is not in its cooldown is free. *)
Lemma cooldown_block_free v cd st st' :
  cooldown_block v cd st = (st', Ok (Ok None)) -> MIN_COOLDOWN <= cd <= time_delta_max_secs ->
  free st'.1 v.
Proof.
  destruct st as [s t]. unfold cooldown_block, describe_last_modification, bind, call, ret. intros E Hcd.
  destruct (describe_call v s) as [s1 r] eqn:Ed. pose proof (describe_quiet v s) as Hq. rewrite Ed in Hq. cbn in Hq.
  pose proof (describe_law v s s1 r Ed) as Hl. destruct (decide (modified s v = [])) as [Hnil|Hne].
  - assert (Hn1 : modified s1 v = []) by (destruct Hq as (_ & _ & ->); done).
    assert (Hq2 : quiet_step s1 st'.1); [|unfold free; destruct Hq2 as (_ & _ & ->); rewrite Hn1; constructor].
    destruct r as [ms|e]; cbn in E.
    + destruct (head ms) as [m|]; [|by injection E as <-]. destruct (decide _); [done|].
      destruct (start_time m) as [start|]; [|by injection E as <-].
      unfold time_plus in E. destruct (time_add _ _) as [until|]; [|done]. cbn in E.
      destruct (utc_now s1) as [s2 now] eqn:Eu. injection E as <- _. by apply utc_now_law in Eu as [? _].
    + destruct (decide _); [|done]. by injection E as <-.
  - specialize (Hl Hne). destruct r as [[|m ms]|e]; [done| |]; cbn in E.
    + destruct (decide _) as [|Hst]; [done|]. destruct Hl as [Hl|[Hl|(start & Hs & Hle)]]; [by destruct Hst; auto..|].
      rewrite Hs in E. unfold time_plus, time_add, delta_from_secs in E.
      rewrite (proj2 (Z.leb_le cd _)) in E by lia. destruct (_ <=? chrono_max); [|done]. cbn in E.
      destruct (utc_now s1) as [s2 now] eqn:Eu. apply utc_now_law in Eu as [Hq2 Hn].
      destruct (now <? start + cd * NANOS) eqn:Hnow; [done|]. injection E as <-. bool_to_prop.
      unfold free. destruct Hq2 as (_ & _ & Hm2). cbn. rewrite Hm2. destruct Hq as (_ & _ & ->).
      apply Forall_forall. intros x Hx. specialize (Hle x Hx). unfold least_gap, MIN_COOLDOWN, NANOS in *. lia.
    + destruct (decide _); done.
Qed.

(** ** A pass keeps them spaced *)

Definition keeps_free {A} (v : string) (m : M S A) : Prop :=
  forall st, spaced st.1 -> free st.1 v -> spaced (m st).1.1.

Lemma keeps_free_quiet {A} v (m : M S A) : quiet m -> keeps_free v m.
Proof. intros Hq st Hs _. eapply spaced_quiet; [apply Hq|done]. Qed.

Lemma keeps_free_bind {A B} v (m : M S A) (f : A -> M S B) :
  quiet m -> (forall x, keeps_free v (f x)) -> keeps_free v (bind m f).
Proof.
  intros Hq Hf st Hs Hv. unfold bind. specialize (Hq st). unfold quiet_along in Hq. destruct (m st) as [st' [x|e]]; cbn in *.
  - apply Hf; [by eapply spaced_quiet|by eapply free_quiet].
  - by eapply spaced_quiet.
Qed.

Lemma keeps_free_then {A B} v (m : M S A) (f : A -> M S B) :
  keeps_free v m -> (forall x, quiet (f x)) -> keeps_free v (bind m f).
Proof.
  intros Hm Hf st Hs Hv. unfold bind. specialize (Hm st Hs Hv). destruct (m st) as [st' [x|e]]; cbn in *; [|done].
  eapply spaced_quiet; [apply Hf|done].
Qed.

Lemma grow_spaced inst eff node obs current target used :
  keeps_free (root_volume_id inst) (grow cfg inst eff node obs current target used).
Proof.
  unfold grow. apply keeps_free_bind; [quiet_steps|]. intros now.
  apply keeps_free_bind; [quiet_steps|]. intros recs.
  destruct (throughput_piggyback _ _ _ _) as [rec skip]. destruct (dry_run cfg).
  { apply keeps_free_quiet. unfold done_. quiet_steps. }
  apply keeps_free_bind; [quiet_steps|]. intros _.
  apply keeps_free_bind; [quiet_steps|]. intros start.
  apply keeps_free_bind; [quiet_steps|]. intros _.
  apply keeps_free_then; [intros st; apply request_spaced|]. intros [m r]. unfold failed, done_. quiet_steps.
Qed.

Definition cooldown_ok (eff : Effective) : Prop := MIN_COOLDOWN <= cooldown eff <= time_delta_max_secs.

Lemma keeps_cooldown {B} v cd (f : result string (option (option Z)) -> M S B) :
  MIN_COOLDOWN <= cd <= time_delta_max_secs ->
  keeps_free v (f (Ok None)) -> (forall b, b <> Ok None -> keeps (f b)) ->
  keeps (bind (cooldown_block v cd) f).
Proof.
  intros Hcd Hfree Hf st Hs. unfold bind. pose proof (quiet_cooldown v cd st) as Hq. unfold quiet_along in Hq.
  destruct (cooldown_block v cd st) as [st' [b|e]] eqn:E; cbn in *; [|by eapply spaced_quiet].
  assert (Hs' : spaced st'.1) by by eapply spaced_quiet.
  destruct b as [[o|]|e]; [by apply Hf| |by apply Hf].
  apply Hfree; [done|]. by eapply cooldown_block_free.
Qed.

Context (rfc3339 : Z -> string).

Lemma above_keeps inst eff node obs used :
  cooldown_ok eff -> keeps (reconcile_above cfg rfc3339 inst eff node obs used).
Proof.
  intros Hc. unfold reconcile_above. apply spaced_bind; [apply quiet_keeps; quiet_steps|]. intros node'.
  destruct (max_volume_size_gib eff <? _); [apply quiet_keeps; unfold done_; quiet_steps|].
  apply keeps_cooldown; [done|..].
  - apply grow_spaced.
  - intros [[until|]|e] Hne; [|done|]; apply quiet_keeps; unfold done_, failed; quiet_steps.
Qed.

Lemma instance_keeps inst eff node :
  cooldown_ok eff -> keeps (reconcile_instance cfg rfc3339 inst eff node).
Proof.
  intros Hc. unfold reconcile_instance, done_, failed.
  destruct (str_is_empty _); [apply quiet_keeps; quiet_steps|].
  apply spaced_bind; [apply quiet_keeps; quiet_steps|]. intros _.
  destruct (paused eff); [apply quiet_keeps; quiet_steps|].
  apply spaced_bind; [apply quiet_keeps; quiet_steps|]. intros [used|e]; [|apply quiet_keeps; quiet_steps].
  apply spaced_bind; [apply quiet_keeps; quiet_steps|]. intros _.
  destruct (used <? _); [apply quiet_keeps; quiet_steps|]. by apply above_keeps.
Qed.

Lemma manage_all_keeps instances l acc :
  Forall (fun im => cooldown_ok im.2) l -> keeps (manage_all cfg rfc3339 instances acc l).
Proof.
  intros Hl. revert acc. induction Hl as [|[i eff] l Hc _ IH]; intros acc; cbn; [apply quiet_keeps; quiet_steps|].
  apply spaced_bind; [|done]. unfold manage. destruct acc as [nodes es].
  destruct (instances !! _); [|apply quiet_keeps; quiet_steps].
  apply spaced_bind; [by apply instance_keeps|]. intros [obs r]. apply quiet_keeps. quiet_steps.
Qed.

Lemma spaced_bind_value {A B} (P : A -> Prop) (m : M S A) (f : A -> M S B) :
  (forall st x, (m st).2 = Ok x -> P x) -> keeps m -> (forall x, P x -> keeps (f x)) -> keeps (bind m f).
Proof.
  intros HP Hm Hf st Hst. unfold bind. specialize (Hm st Hst). specialize (HP st).
  destruct (m st) as [st' [x|e]]; cbn in *; [|done]. by apply Hf; [apply HP|].
Qed.

Context (powi10 : Z -> f64).

(** No autoscaler in the cluster asks for a cooldown longer than the longest
    [TimeDelta]. *)
Definition cooldowns_bounded : Prop := forall s ivas,
  (list_autoscalers s).2 = Ok ivas ->
  Forall (fun iva => forall c, compile powi10 iva = Ok c -> cooldown (effective c) <= time_delta_max_secs) ivas.

Lemma managed_cooldowns ivas instances :
  Forall (fun iva => forall c, compile powi10 iva = Ok c -> cooldown (effective c) <= time_delta_max_secs) ivas ->
  Forall (fun im => cooldown_ok im.2) (managed (plan (resolver_new powi10 ivas) instances)).
Proof.
  intros Hb. apply Forall_forall. intros [i eff] Hin. apply plan_managed in Hin as (inst & c & _ & Hm & <- & _).
  assert (Hc : c ∈ matching (resolver_new powi10 ivas) inst) by (rewrite Hm; left).
  apply matching_elem in Hc as [(iva & Hiva & Hc)%resolver_elem _].
  rewrite Forall_forall in Hb. split; [|by apply (Hb iva)]. by apply compile_ok in Hc as (_ & _ & ?).
Qed.

Lemma list_ivas_bounded st ivas :
  cooldowns_bounded -> (list_ivas cfg st).2 = Ok ivas ->
  Forall (fun iva => forall c, compile powi10 iva = Ok c -> cooldown (effective c) <= time_delta_max_secs) ivas.
Proof.
  intros Hb. unfold list_ivas. destruct (has_autoscalers cfg); cbn; [|by intros [= <-]].
  destruct st as [s t]. unfold bind, call, ret, observed, bail. specialize (Hb s).
  destruct (list_autoscalers s) as [s' [l|e]]; cbn in *; [|done]. intros [= <-]. by apply Hb.
Qed.

Lemma pass_keeps : cooldowns_bounded -> keeps (reconcile_pass cfg rfc3339 powi10).
Proof.
  intros Hb. unfold reconcile_pass.
  apply (spaced_bind_value _ _ _ (fun st x => list_ivas_bounded st x Hb)); [apply quiet_keeps; quiet_steps|].
  intros ivas Hivas. apply spaced_bind; [apply quiet_keeps; quiet_steps|].
  intros [instances|e]; [|apply quiet_keeps; quiet_steps].
  apply spaced_bind; [apply quiet_keeps; quiet_steps|]. intros _.
  apply spaced_bind; [apply quiet_keeps; quiet_steps|]. intros _.
  apply spaced_bind; [apply quiet_keeps; quiet_steps|]. intros nodes.
  apply spaced_bind; [by apply manage_all_keeps, managed_cooldowns|]. intros acc.
  apply quiet_keeps. quiet_steps.
Qed.
End Spacing.

(** ** The wait ends *)

Section Wait.
Context {S : Type} `{L : VolumeApiLaws S}.
Context (cfg : ResizerConfig).

(** A look that asks to be repeated was before the deadline, and slept. *)
Lemma wait_once_again v d st st' :
  0 <= poll_interval cfg -> wait_once cfg v d st = (st', Ok None) ->
  ticks st.1 <= d /\ ticks st.1 + poll_interval cfg <= ticks st'.1.
Proof.
  intros Hp. unfold wait_once, bind at 1. pose proof (quiet_describe v st) as Hq. unfold quiet_along in Hq.
  destruct (describe_last_modification v st) as [[s1 t1] [r|x]]; cbn in Hq; [|done].
  destruct r as [m|e]; [|done].
  destruct (match m with Some _ => _ | None => _ end) as [a|]; [done|]. unfold bind, call, ret.
  destruct (instant_now s1) as [s2 now] eqn:E. destruct (d <? now) eqn:Ed; [done|]. bool_to_prop.
  intros [= <-]. cbn. destruct (sleep_law (poll_interval cfg) s2 Hp) as [_ Hs].
  apply instant_now_law in E as [Hq2 Hn]. destruct Hq as (_ & Hq & _). lia.
Qed.

Lemma wait_loop_ends fuel v d st :
  0 < poll_interval cfg -> d < ticks st.1 + (Z.of_nat fuel - 1) * poll_interval cfg -> fuel <> O ->
  (wait_loop cfg fuel v d st).2 <> Ok None.
Proof.
  intros Hp. revert st. induction fuel as [|fuel IH]; intros st Hd Hf; [done|]. cbn [wait_loop].
  unfold bind. destruct (wait_once cfg v d st) as [st' [[r|]|x]] eqn:E; [done| |done].
  apply wait_once_again in E as [Ht Hs]; [|lia].
  destruct fuel; [lia|]. apply IH; [lia|done].
Qed.

Lemma wait_rounds_enough v st :
  0 < poll_interval cfg -> 0 <= volume_modify_timeout cfg -> (wait_for_modification cfg v st).2 <> Ok None.
Proof.
  intros Hp Ht. unfold wait_for_modification. destruct st as [s t]. unfold bind at 1, call.
  destruct (instant_now s) as [s' now] eqn:E. apply instant_now_law in E as [_ Hn].
  apply wait_loop_ends; [done| |unfold wait_rounds; lia].
  unfold wait_rounds. rewrite Nat2Z.inj_add, Z2Nat.id by (apply Z.div_pos; lia). cbn [fst].
  pose proof (Z.mul_succ_div_gt (volume_modify_timeout cfg) (poll_interval cfg) Hp). nia.
Qed.
End Wait.
