(* ===== verification/ResizerRun.v ===== *)
(** * Runs of the resizer (volume-autoscaler: autoscaler/instance_volume)

    Passes, under any configurations, between which the services and the clock
    go on: EBS's limit of four modifications of a volume in a day is kept, where
    EC2 shows an accepted modification at once and answers every one it accepts
    (the laws of [ResizerSafety]).  A
    pass within the years chrono represents does not panic.  A small EC2 shows
    that the laws can be met. *)

From Corelib Require Import SpecFloat.
From stdpp Require Import prelude list strings pretty gmap sorting relations.
From Stdlib Require Import ZArith Lia Ascii.
From S2P Require Import Prelude.
From S2P Require Import Strings.
From S2P Require Import BTree.
From S2P Require Import F64.
From S2P Require Import Autoscaler.
From S2P Require Import VolumePolicy.
From S2P Require Import VolumeStatus.
From S2P Require Import RecStore.
From S2P Require Import Resizer.
From S2P Require Import ResizerSafety.

(** ** Windows of a spaced list *)

(** A list of times, the latest first, at least [gap] apart. *)
Abbreviation apart gap := (StronglySorted (fun later earlier => earlier + gap <= later)).

Lemma apart_filter gap (P : Z -> Prop) `{!forall t, base.Decision (P t)} l : apart gap l -> apart gap (filter P l).
Proof.
  induction 1 as [|x l _ IH Hx]; [by rewrite filter_nil; constructor|]. rewrite filter_cons.
  case_decide; [|done]. constructor; [done|]. rewrite Forall_forall in *.
  intros y Hy. apply Hx. by apply list_elem_of_filter in Hy as [_ ?].
Qed.

Lemma apart_span gap w x l :
  apart gap (x :: l) -> Forall (fun t => w <= t) (x :: l) -> w + zlen l * gap <= x.
Proof.
  revert x. induction l as [|y l IH]; intros x Hs Hw.
  - apply Forall_cons in Hw as [Hw _]. unfold zlen. cbn. lia.
  - apply StronglySorted_inv in Hs as [Hs Hx]. apply Forall_cons in Hw as [_ Hw]. specialize (IH y Hs Hw).
    apply Forall_cons in Hx as [Hx _]. unfold zlen in *. cbn [length]. rewrite Nat2Z.inj_succ. lia.
Qed.

Lemma apart_window gap k w l :
  0 < gap -> 0 <= k -> apart gap l ->
  zlen (filter (fun t => w <= t /\ t < w + k * gap) l) <= k.
Proof.
  intros Hg Hk Hs. apply (apart_filter gap (fun t => w <= t /\ t < w + k * gap)) in Hs.
  assert (Hall : Forall (fun t => w <= t /\ t < w + k * gap) (filter (fun t => w <= t /\ t < w + k * gap) l)).
  { apply Forall_forall. intros t Ht. by apply list_elem_of_filter in Ht as [? _]. }
  destruct (filter _ l) as [|x m]; [unfold zlen; cbn; lia|].
  assert (Hw : Forall (fun t => w <= t) (x :: m)) by (eapply Forall_impl; [exact Hall|]; by intros ? []).
  pose proof (apart_span gap w x m Hs Hw) as Hspan. apply Forall_cons in Hall as [[_ Hx] _].
  unfold zlen in *. cbn [length]. rewrite Nat2Z.inj_succ. nia.
Qed.

(** ** Runs *)

Definition DAY : Z := 86400 * NANOS.

Section Runs.
Context {S : Type} `{L : VolumeApiLaws S}.
Context (rfc3339 : Z -> string) (powi10 : Z -> f64).

(** A pass of a process with some configuration, or anything else that happens:
    time goes by, specifications change, others modify volumes. *)
Inductive step : S -> S -> Prop :=
  | step_pass cfg s :
      0 <= ssm_poll_interval cfg -> step s (reconcile_pass cfg rfc3339 powi10 (s, [])).1.1
  | step_environment s s' : quiet_step s s' -> step s s'.

Lemma run_spaced s s' : cooldowns_bounded powi10 -> rtc step s s' -> spaced s -> spaced s'.
Proof.
  intros Hb. induction 1 as [s|s1 s2 s3 Hstep _ IH]; [done|]. intros Hs. apply IH.
  destruct Hstep as [cfg s Hp|s s' Hq]; 
    [apply poll_interval_pos in Hp; by apply (pass_keeps cfg ltac:(lia) rfc3339 powi10 Hb (s, []))|].
  by eapply spaced_quiet.
Qed.

(** Over any number of passes, under any configurations and whatever happens
    in between, this program modifies a volume at most four times in any 24
    hours, the limit EBS sets, as long as no autoscaler's cooldown overflows a
    [TimeDelta], and under the laws of the services. *)
Theorem four_modifications_a_day s0 s :
  cooldowns_bounded powi10 -> (forall v, modified s0 v = []) -> rtc step s0 s ->
  forall v w, zlen (filter (fun t => w <= t /\ t < w + DAY) (modified s v)) <= 4.
Proof.
  intros Hb H0 Hrun v w. assert (Hs : spaced s0).
  { intros u. rewrite H0. split; constructor. }
  destruct (run_spaced _ _ Hb Hrun Hs v) as [Happ _].
  apply (apart_window least_gap 4 w); [by vm_compute|lia|done].
Qed.
End Runs.

(** ** No panic *)

Section Panic.
Context {S : Type} `{L : VolumeApiLaws S}.

Definition safe {A} (m : M S A) : Prop := forall st, (m st).2 <> Err Panic.

Lemma safe_ret {A} (x : A) : safe (ret x).
Proof. done. Qed.

Lemma safe_bail {A} e : safe (bail (A := A) e).
Proof. done. Qed.

Lemma safe_call {A} (f : S -> S * A) : safe (call f).
Proof. intros [s t]. cbn. by destruct (f s). Qed.

Lemma safe_observed o : safe (observed (S := S) o).
Proof. by intros [s t]. Qed.

Lemma safe_bind_value {A B} (P : A -> Prop) (m : M S A) (f : A -> M S B) :
  (forall st x, (m st).2 = Ok x -> P x) -> safe m -> (forall x, P x -> safe (f x)) -> safe (bind m f).
Proof.
  intros HP Hm Hf st. unfold bind. specialize (HP st). specialize (Hm st).
  destruct (m st) as [st' [x|[e|]]]; cbn in *; [by apply Hf, HP|done|done].
Qed.

Lemma safe_bind {A B} (m : M S A) (f : A -> M S B) : safe m -> (forall x, safe (f x)) -> safe (bind m f).
Proof. intros Hm Hf. by apply (safe_bind_value (fun _ => True)). Qed.

Lemma safe_time_plus t d : t + d <= chrono_max -> safe (time_plus (S := S) t d).
Proof. intros Hle st. unfold time_plus, time_add. by rewrite (proj2 (Z.leb_le _ _)). Qed.
End Panic.

Create HintDb safe.
#[export] Hint Resolve safe_ret safe_bail safe_call safe_observed : safe.

Ltac safe_steps :=
  repeat first
    [ progress eauto 2 with safe
    | apply safe_bind; [|intros]
    | match goal with
      | |- safe (let '_ := ?x in _) => destruct x
      | |- safe (match ?x with _ => _ end) => destruct x
      | |- safe (if ?x then _ else _) => destruct x
      end ].

Section Safe.
Context {S : Type} `{L : VolumeApiLaws S}.
Context (cfg : ResizerConfig) (rfc3339 : Z -> string) (powi10 : Z -> f64).

Lemma safe_describe v : safe (describe_last_modification v).
Proof. unfold describe_last_modification. safe_steps. Qed.

Lemma safe_measure i : safe (measure i).
Proof. unfold measure. safe_steps. Qed.

Lemma safe_sync n u t : safe (sync_protective_condition cfg n u t).
Proof. unfold sync_protective_condition. safe_steps. Qed.

Lemma safe_apply n u t : safe (apply_protective_cordon cfg n u t).
Proof. unfold apply_protective_cordon, cordon_node. safe_steps; apply safe_sync. Qed.

Lemma safe_release n u t : safe (release_protective_cordon cfg n u t).
Proof. unfold release_protective_cordon, uncordon_node. safe_steps; apply safe_sync. Qed.

#[local] Hint Resolve safe_describe safe_measure safe_apply safe_release : safe.

Lemma safe_verify i eff n : safe (verify_usage cfg i eff n).
Proof. unfold verify_usage. safe_steps. Qed.

Lemma safe_request eff v target rec m : safe (request_modification eff v target rec m).
Proof. unfold request_modification, modify_volume, report_failure. safe_steps. Qed.

Lemma safe_wait v : safe (wait_for_modification cfg v).
Proof.
  unfold wait_for_modification. apply safe_bind; [safe_steps|]. intros now.
  generalize (wait_rounds cfg), (now + volume_modify_timeout cfg). intros n d.
  induction n as [|n IH]; cbn; [safe_steps|].
  apply safe_bind; [unfold wait_once; safe_steps|]. intros []; [safe_steps|done].
Qed.

Lemma safe_write_statuses ivas r cs es e : safe (write_statuses cfg ivas r cs es e).
Proof.
  unfold write_statuses. safe_steps.
  induction ivas as [|iva ivas IH]; cbn; [safe_steps|]. unfold write_status. safe_steps.
Qed.

Lemma safe_observe_all os : safe (observe_all (S := S) os).
Proof. induction os; cbn; safe_steps. Qed.
End Safe.

#[export] Hint Resolve safe_describe safe_measure safe_sync safe_apply safe_release safe_verify safe_request
  safe_wait safe_write_statuses safe_observe_all : safe.

Section NoPanic.
Context {S : Type} `{L : VolumeApiLaws S}.
Context (cfg : ResizerConfig) (rfc3339 : Z -> string) (powi10 : Z -> f64).
Context (Hpoll : 0 <= ssm_poll_interval cfg) (Htimeout : 0 <= volume_modify_timeout cfg).

(** The clock and the start times EC2 reports are not after [last], and a
    cooldown of [longest] seconds after it is still a date. *)
Context (last longest : Z).
Context (Hnow : forall s, (utc_now s).2 <= last).
Context (Hstarts : forall v s ms m t,
  (describe_call v s).2 = Ok ms -> m ∈ ms -> start_time m = Some t -> t <= last).
Context (Hlast : 0 <= longest <= time_delta_max_secs /\ last + longest * NANOS <= chrono_max).

Definition cooldown_short (eff : Effective) : Prop := 0 <= cooldown eff <= longest.

Lemma delta_short eff : cooldown_short eff -> delta_from_secs (cooldown eff) <= longest * NANOS.
Proof.
  intros Hc. unfold cooldown_short in Hc. unfold delta_from_secs. rewrite (proj2 (Z.leb_le _ _)) by lia.
  unfold NANOS in *. lia.
Qed.

Lemma safe_cooldown v eff : cooldown_short eff -> safe (cooldown_block v (cooldown eff)).
Proof.
  intros Hc. apply delta_short in Hc. unfold cooldown_block.
  apply (safe_bind_value (fun r => forall m t, r = Ok (Some m) -> start_time m = Some t -> t <= last)).
  - intros [s t] r. unfold describe_last_modification, bind, call, ret. specialize (Hstarts v s).
    destruct (describe_call v s) as [s' [[|m ms]|e]]; cbn in *; intros [= <-]; [done| |by case_decide].
    intros ? u [= <-]. apply (Hstarts _ m u eq_refl). left.
  - safe_steps.
  - intros [[m|]|e] Hr; [|safe_steps..]. destruct (decide _); [safe_steps|].
    destruct (start_time m) as [start|] eqn:Es; [|safe_steps]. specialize (Hr m start eq_refl Es).
    apply safe_bind; [apply safe_time_plus; lia|]. intros end_. safe_steps.
Qed.

Lemma safe_grow inst eff node obs current target used :
  cooldown_short eff -> safe (grow cfg inst eff node obs current target used).
Proof.
  intros Hc. apply delta_short in Hc. unfold grow, done_, failed, report_failure, report_success.
  apply safe_bind; [safe_steps|]. intros now. apply safe_bind; [safe_steps|]. intros recs.
  destruct (throughput_piggyback _ _ _ _) as [rec skip]. destruct (dry_run cfg); [safe_steps|].
  apply safe_bind; [safe_steps|]. intros _.
  apply (safe_bind_value (fun t => t <= last)).
  { intros [s t] x. cbn. specialize (Hnow s). destruct (utc_now s). intros [= <-]. done. }
  { safe_steps. }
  intros start Hstart. apply safe_bind; [safe_steps|]. intros _.
  apply safe_bind; [safe_steps|]. intros [m [[]|e]]; [|safe_steps].
  apply (safe_bind_value (fun w => w <> None)).
  { intros st w E. intros ->. by eapply wait_rounds_enough; [apply poll_interval_pos|..]. }
  { safe_steps. }
  intros [[[]|e]|] Hw; [|safe_steps|done].
  apply safe_bind; [safe_steps|]. intros [|]; [|safe_steps].
  apply safe_bind; [safe_steps|]. intros after. apply safe_bind; [safe_steps|]. intros _.
  apply safe_bind; [apply safe_time_plus; lia|]. intros end_. safe_steps.
Qed.

Lemma safe_instance inst eff node : cooldown_short eff -> safe (reconcile_instance cfg rfc3339 inst eff node).
Proof.
  intros Hc. unfold reconcile_instance, done_, failed. destruct (str_is_empty _); [safe_steps|].
  apply safe_bind; [safe_steps|]. intros _. destruct (paused eff); [safe_steps|].
  apply safe_bind; [safe_steps|]. intros [used|]; [|safe_steps].
  apply safe_bind; [safe_steps|]. intros _. destruct (used <? _); [safe_steps|].
  unfold reconcile_above, done_, failed. apply safe_bind; [safe_steps|]. intros node'.
  destruct (_ <? _); [safe_steps|]. apply safe_bind; [by apply safe_cooldown|].
  intros [[|]|]; [safe_steps|by apply safe_grow|safe_steps].
Qed.

Lemma safe_manage_all instances l acc :
  Forall (fun im => cooldown_short im.2 /\ is_Some (instances !! im.1)) l ->
  safe (manage_all cfg rfc3339 instances acc l).
Proof.
  intros Hl. revert acc. induction Hl as [|[i eff] l [Hc [inst Hi]] _ IH]; intros acc; cbn; [safe_steps|].
  apply safe_bind; [|done]. unfold manage. destruct acc as [nodes es]. cbn in Hi. cbn [fst]. rewrite Hi.
  apply safe_bind; [by apply safe_instance|]. intros [obs r]. safe_steps.
Qed.

(** Autoscalers none of whose cooldowns is longer than [longest]. *)
Definition short_cooldowns (ivas : list InstanceVolumeAutoscaler) : Prop :=
  Forall (fun iva => forall c, compile powi10 iva = Ok c -> cooldown (effective c) <= longest) ivas.

(** A pass does not panic, which would end the process, as long as no
    autoscaler's cooldown reaches past the last date chrono represents: the wait
    for a modification ends within its rounds, and no instance is out of
    range. *)
Theorem pass_never_panics st :
  (forall s ivas, (list_autoscalers s).2 = Ok ivas -> short_cooldowns ivas) ->
  (reconcile_pass cfg rfc3339 powi10 st).2 <> Err Panic.
Proof.
  intros Hshort. revert st. change (safe (reconcile_pass cfg rfc3339 powi10)). unfold reconcile_pass.
  apply (safe_bind_value short_cooldowns).
  { intros [s t] ivas. unfold list_ivas. destruct (has_autoscalers cfg); cbn;
      [|by intros [= <-]; apply Forall_nil_2].
    unfold bind, call, ret, observed, bail. specialize (Hshort s).
    destruct (list_autoscalers s) as [s' [l|e]]; cbn in *; [|done]. intros [= <-]. by apply Hshort. }
  { unfold list_ivas. safe_steps. }
  intros ivas Hivas. apply safe_bind; [safe_steps|]. intros [instances|e]; [|safe_steps].
  apply safe_bind; [safe_steps|]. intros _. apply safe_bind; [safe_steps|]. intros _.
  apply safe_bind; [unfold protective_cordon_nodes; safe_steps|]. intros nodes.
  apply safe_bind; [|intros acc; safe_steps]. apply safe_manage_all. apply Forall_forall. intros [i eff] Hin.
  apply plan_managed in Hin as (inst & c & Hi & Hm & <- & _). split; [|by exists inst].
  assert (Hc : c ∈ matching (resolver_new powi10 ivas) inst) by (rewrite Hm; left).
  apply matching_elem in Hc as [(iva & Hiva & Hc)%resolver_elem _]. unfold short_cooldowns in Hivas. rewrite Forall_forall in Hivas.
  specialize (Hivas iva Hiva c Hc). apply compile_ok in Hc as (_ & _ & Hmin).
  unfold cooldown_short, MIN_COOLDOWN in *. cbn. lia.
Qed.
End NoPanic.
