(* ===== verification/ResizerTrace.v ===== *)
(** * What a pass of the resizer may do (volume-autoscaler:
    autoscaler/instance_volume/resizer.rs, resizer/cordon.rs)

    The requests a pass sends to EC2 and the cordons it sets and lifts, each with
    what entitles the pass to it: the plan, the limits of the autoscaler, the
    usage measured before it.  A logic of computations over the reports carries
    the proof: what a computation knows are events already reported. *)

From Corelib Require Import SpecFloat.
From stdpp Require Import prelude list strings pretty gmap sorting.
From Stdlib Require Import ZArith Lia Ascii.
From S2P Require Import Prelude.
From S2P Require Import Strings.
From S2P Require Import BTree.
From S2P Require Import F64.
From S2P Require Import Autoscaler.
From S2P Require Import VolumePolicy.
From S2P Require Import VolumeStatus.
From S2P Require Import RecStore.
From S2P Require Import Resizer.

(** The events that change a volume or a Node. *)
Definition acts (o : Observed) : bool :=
  match o with Requested _ _ | Cordoned _ | Uncordoned _ | Forgot _ => true | _ => false end.

(** ** Computations that only report *)

Section Plain.
Context {S : Type} `{VolumeApi S}.

Definition plain_along : relation (S * list Observed) := fun st st' =>
  exists new, st'.2 = st.2 ++ new /\ Forall (fun o => acts o = false) new.

#[global] Instance plain_along_preorder : PreOrder plain_along.
Proof.
  split.
  - intros st. exists []. by rewrite app_nil_r.
  - intros a b c (n1 & E1 & H1) (n2 & E2 & H2). exists (n1 ++ n2). rewrite E2, E1, app_assoc.
    split; [done|]. by apply Forall_app.
Qed.
End Plain.

Abbreviation plain := (along plain_along).

Section PlainSteps.
Context {S : Type} `{VolumeApi S}.

Lemma plain_call {A} (f : S -> S * A) : plain (call f).
Proof. intros [s t]. cbn. destruct (f s). exists []. cbn. by rewrite app_nil_r. Qed.

Lemma plain_observed o : acts o = false -> plain (observed (S := S) o).
Proof. intros Ho [s t]. exists [o]. cbn. split; [done|]. by repeat constructor. Qed.
End PlainSteps.

Create HintDb plain.
#[export] Hint Resolve plain_call : plain.

Ltac plain_steps :=
  repeat first
    [ progress eauto 2 with plain
    | apply along_ret; [apply _] | apply along_bail; [apply _] | apply along_panic; [apply _]
    | apply along_time_plus; [apply _]
    | apply plain_observed; reflexivity
    | apply along_bind; [apply _| |intros]
    | along_cases ].

Section PlainParts.
Context {S : Type} `{VolumeApi S}.
Context (cfg : ResizerConfig).

Lemma plain_describe v : plain (describe_last_modification v).
Proof. unfold describe_last_modification. plain_steps. Qed.

Lemma plain_measure i : plain (measure i).
Proof. unfold measure. plain_steps. Qed.

Lemma plain_cooldown v c : plain (cooldown_block v c).
Proof. unfold cooldown_block. apply along_bind; [apply _|apply plain_describe|]. intros r. plain_steps. Qed.

Lemma plain_sync n u t : plain (sync_protective_condition cfg n u t).
Proof. unfold sync_protective_condition. plain_steps. Qed.

Lemma plain_wait v : plain (wait_for_modification cfg v).
Proof.
  unfold wait_for_modification. apply along_bind; [apply _|plain_steps|]. intros now.
  generalize (wait_rounds cfg), (now + volume_modify_timeout cfg). intros n d.
  induction n as [|n IH]; cbn [wait_loop]; [plain_steps|].
  apply along_bind; [apply _| |intros [r|]; [plain_steps|done]].
  unfold wait_once. apply along_bind; [apply _|apply plain_describe|]. intros r. plain_steps.
Qed.

Lemma plain_report_failure eff m stage : plain (report_failure (S := S) eff m stage).
Proof. unfold report_failure. plain_steps. Qed.

Lemma plain_report_success i eff a m : plain (report_success (S := S) i eff a m).
Proof. unfold report_success. plain_steps. Qed.

Lemma plain_write_statuses ivas r cs es e : plain (write_statuses (S := S) cfg ivas r cs es e).
Proof.
  unfold write_statuses. destruct (has_autoscalers cfg); cbn [negb]; [|plain_steps].
  apply along_bind; [apply _|plain_steps|]. intros now.
  induction ivas as [|iva ivas IH]; cbn [write_each]; [plain_steps|]. unfold write_status. plain_steps.
Qed.

Lemma plain_list_ivas : plain (list_ivas (S := S) cfg).
Proof. unfold list_ivas. plain_steps. Qed.

Lemma plain_cordon_nodes : plain (protective_cordon_nodes cfg).
Proof. unfold protective_cordon_nodes. plain_steps. Qed.

Lemma plain_refused_skips p : plain (observe_all (S := S) (refused_skips p)).
Proof.
  assert (Hall : Forall (fun o => acts o = false) (refused_skips p)).
  { unfold refused_skips. induction (refused p) as [|[i ns] l IH]; cbn; [constructor|].
    apply Forall_app. split; [|done]. induction ns; cbn; by constructor. }
  induction Hall as [|o l Ho _ IH]; cbn; [plain_steps|].
  apply along_bind; [apply _|by apply plain_observed|]. by intros _.
Qed.
End PlainParts.

#[export] Hint Resolve plain_describe plain_measure plain_cooldown plain_sync plain_wait plain_report_failure
  plain_report_success plain_write_statuses plain_list_ivas plain_cordon_nodes plain_refused_skips : plain.

(** ** The logic *)

Section Logic.
Context {S : Type} `{VolumeApi S}.
Context (licence : list Observed -> Observed -> Prop).

(** Every act was licensed by what was reported before it. *)
Definition fair (t : list Observed) : Prop :=
  forall t1 o t2, t = t1 ++ o :: t2 -> acts o = true -> licence t1 o.

(** From fair reports that hold the events [known], the computation only adds
    fair reports; with its answer, the reports are known to hold the events
    [post] speaks of. *)
Definition lic {A} (known : list Observed) (m : M S A) (post : A -> list Observed -> Prop) : Prop :=
  forall st, fair st.2 -> known ⊆ st.2 ->
    fair (m st).1.2 /\ st.2 ⊆ (m st).1.2 /\
    forall x, (m st).2 = Ok x -> exists all, known ⊆ all /\ all ⊆ (m st).1.2 /\ post x all.

Lemma fair_snoc t o : fair t -> (acts o = true -> licence t o) -> fair (t ++ [o]).
Proof.
  intros Hf Ho t1 o' t2 E Ha. destruct t2 as [|x t2 _] using rev_ind.
  - apply app_inj_tail in E as [-> ->]. by apply Ho.
  - rewrite app_comm_cons, app_assoc in E. apply app_inj_tail in E as [-> ->]. by eapply Hf.
Qed.

Lemma fair_plain t new : fair t -> Forall (fun o => acts o = false) new -> fair (t ++ new).
Proof.
  revert t. induction new as [|o new IH]; intros t Hf Hn; [by rewrite app_nil_r|].
  apply Forall_cons in Hn as [Ho Hn]. rewrite (cons_middle o t new), app_assoc. apply IH; [|done].
  apply fair_snoc; [done|]. by rewrite Ho.
Qed.

Lemma lic_plain {A} known (m : M S A) : plain m -> lic known m (fun _ all => all = known).
Proof.
  intros Hm st Hf Hk. destruct (Hm st) as (new & -> & Hn). split_and!; [by apply fair_plain|set_solver|].
  intros x _. exists known. split_and!; [done|set_solver|done].
Qed.

Lemma lic_ret {A} known (x : A) (post : A -> list Observed -> Prop) : post x known -> lic known (ret x) post.
Proof. intros Hp st Hf Hk. split_and!; [done..|]. intros y [= <-]. by exists known. Qed.

Lemma lic_bind {A B} known (m : M S A) (f : A -> M S B) mid post :
  lic known m mid -> (forall x all, known ⊆ all -> mid x all -> lic all (f x) post) ->
  lic known (bind m f) post.
Proof.
  intros Hm Hf st Hfair Hk. unfold bind. destruct (Hm st Hfair Hk) as (H1 & H2 & H3).
  destruct (m st) as [st' [x|e]]; cbn in *; [|by split_and!].
  destruct (H3 x eq_refl) as (all & Hall & Hin & Hx).
  destruct (Hf x all Hall Hx st' H1 Hin) as (J1 & J2 & J3). split_and!; [done|by etrans|].
  intros y Hy. destruct (J3 y Hy) as (all' & ? & ? & ?). exists all'. split_and!; [by etrans|done..].
Qed.

Lemma lic_post {A} known (m : M S A) (post post' : A -> list Observed -> Prop) :
  lic known m post -> (forall x all, known ⊆ all -> post x all -> post' x all) -> lic known m post'.
Proof.
  intros Hm Hp st Hf Hk. destruct (Hm st Hf Hk) as (H1 & H2 & H3). split_and!; [done..|].
  intros x Hx. destruct (H3 x Hx) as (all & ? & ? & ?). exists all. split_and!; [done..|by apply Hp].
Qed.

Lemma lic_any {A} known (m : M S A) (post : A -> list Observed -> Prop) :
  lic known m post -> lic known m (fun _ _ => True).
Proof. intros Hm. by eapply lic_post. Qed.

Lemma lic_panic {A} known (post : A -> list Observed -> Prop) : lic known panic post.
Proof. intros st Hf Hk. by split_and!. Qed.

(** A step that only reports. *)
Lemma lic_then {A B} known (m : M S A) (f : A -> M S B) post :
  plain m -> (forall x, lic known (f x) post) -> lic known (bind m f) post.
Proof.
  intros Hm Hf. apply (lic_bind _ _ _ (fun _ all => all = known)); [by apply lic_plain|].
  intros x all _ ->. apply Hf.
Qed.

Lemma lic_end {A} known (m : M S A) : plain m -> lic known m (fun _ _ => True).
Proof. intros Hm. by eapply lic_any, lic_plain. Qed.

Lemma lic_observed known o :
  (acts o = true -> forall t, known ⊆ t -> licence t o) ->
  lic known (observed (S := S) o) (fun _ all => all = o :: known).
Proof.
  intros Ho [s t] Hf Hk. cbn in *. split_and!; [apply fair_snoc; eauto|set_solver|].
  intros x _. exists (o :: known). split_and!; [by right| |done].
  intros y [->|Hy]%elem_of_cons; apply elem_of_app; [right; left|left; by apply Hk].
Qed.

(** The answer of a call is one the service gives. *)
Lemma lic_call {A} known (f : S -> S * A) :
  lic known (call f) (fun x all => all = known /\ exists s, (f s).2 = x).
Proof.
  intros [s t] Hf Hk. cbn in *. destruct (f s) as [s' x] eqn:E. cbn. split_and!; [done..|].
  intros y [= <-]. exists known. split_and!; [done..|]. exists s. by rewrite E.
Qed.
End Logic.

(** ** What entitles a pass to act *)

Section Trace.
Context {S : Type} `{VolumeApi S}.
Context (cfg : ResizerConfig).

(** [node] is the Node of the instance as Kubernetes lists it. *)
Definition listed (i : string) (node : CordonNode) : Prop :=
  exists s nodes, (list_nodes s).2 = Ok nodes /\ (i, node) ∈ nodes.

(** The file system of the instance was measured, at less than the threshold. *)
Definition measured_below (i : string) (threshold : Z) : Prop :=
  exists s out used, (run_script i MEASURE_ROOT_FS s).2 = Ok out /\ parse_usage_percent out = Ok used /\
    used < threshold.

(** The file system was reported full in this pass. *)
Definition reported_full (t : list Observed) (inst : Instance_) (eff : Effective) : Prop :=
  exists used, ObservedUsage (inst_id inst) used ∈ t /\ usage_threshold_percent eff <= used.

(** The throughput and the IOPS of a request are left alone, or are those of a
    recommendation to carry. *)
Definition carries (v : string) (spec : ModifySpec) : Prop :=
  ms_throughput_mibps spec = 0 /\ ms_iops spec = 0 \/
  exists s now e skip, throughput_piggyback (throughput cfg) (recommendations s) now v = (Some e, skip) /\
    ms_throughput_mibps spec = throughput_mibps e /\ ms_iops spec = iops e.

Definition entitled (inst : Instance_) (eff : Effective) (t : list Observed) (o : Observed) : Prop :=
  paused eff = false /\ dry_run cfg = false /\
  match o with
  | Requested v spec =>
      v = root_volume_id inst /\ v <> EmptyString /\ reported_full t inst eff /\
      size_gib spec = target_size (root_volume_size_gib inst) eff /\
      size_gib spec <= max_volume_size_gib eff /\ carries v spec
  | Cordoned n =>
      has_cordon cfg = true /\ reported_full t inst eff /\
      exists node, listed (inst_id inst) node /\ cn_name node = n /\ unschedulable node = false /\
        protective node = false
  | Uncordoned n =>
      has_cordon cfg = true /\ measured_below (inst_id inst) (usage_threshold_percent eff) /\
      exists node, listed (inst_id inst) node /\ cn_name node = n /\
        (protective node = true /\ unschedulable node = true \/ Cordoned n ∈ t)
  | Forgot n =>
      has_cordon cfg = true /\ measured_below (inst_id inst) (usage_threshold_percent eff) /\
      exists node, listed (inst_id inst) node /\ cn_name node = n /\ protective node = true /\
        unschedulable node = false
  | _ => True
  end.

(** ** One instance *)

Section Instance.
Context (licence : list Observed -> Observed -> Prop) (inst : Instance_) (eff : Effective).
Context (Hlicence : forall t o, entitled inst eff t o -> licence t o).
Context (Hpaused : paused eff = false).

(** A Node as it was listed, or as this pass cordoned it. *)
Definition node_ok (t : list Observed) (n : CordonNode) : Prop :=
  exists node, listed (inst_id inst) node /\ cn_name node = cn_name n /\
    (protective n = protective node /\ unschedulable n = unschedulable node \/
     protective n = true /\ unschedulable n = true /\ Cordoned (cn_name n) ∈ t).
Definition node_known (t : list Observed) (node : option CordonNode) : Prop :=
  forall n, node = Some n -> node_ok t n.

Lemma node_known_mono t t' node : t ⊆ t' -> node_known t node -> node_known t' node.
Proof.
  intros Hsub Hk n Hn. destruct (Hk n Hn) as (l & Hl & Hname & [Hs|(H1 & H2 & Hin)]); exists l.
  - split_and!; [done..|by left].
  - split_and!; [done..|]. right. split_and!; [done..|by apply Hsub].
Qed.

Lemma reported_full_mono t t' : t ⊆ t' -> reported_full t inst eff -> reported_full t' inst eff.
Proof. intros Hsub (used & Hin & Hle). exists used. split; [by apply Hsub|done]. Qed.

Lemma lic_cordon_node known node :
  node_known known node -> reported_full known inst eff ->
  lic licence known (cordon_node cfg node) (fun n all => node_known all n).
Proof.
  intros Hn Hfull. unfold cordon_node. destruct node as [n|]; [|by apply lic_ret].
  destruct (_ || _ || _ || _) eqn:E; [by apply lic_ret|].
  rewrite !orb_false_iff, negb_false_iff in E. destruct E as [[[Hcordon Hprot] Hunsched] Hdry].
  apply lic_then; [plain_steps|]. intros at_.
  destruct (Hn n eq_refl) as (l & Hl & Hname & Hs).
  eapply lic_bind.
  { apply lic_observed. intros _ t Ht. apply Hlicence. split_and!; [done..|by eapply reported_full_mono|].
    exists l. destruct Hs as [[H1 H2]|[H1 _]]; [|congruence]. split_and!; [done..|congruence|congruence]. }
  intros [] all Hall ->. apply lic_then; [plain_steps|]. intros [r|e].
  - apply lic_then; [plain_steps|]. intros _. apply lic_then; [plain_steps|]. intros _. apply lic_ret.
    intros m [= <-]. exists l. split_and!; [done..|]. right. split_and!; [done..|]. left.
  - apply lic_then; [plain_steps|]. intros _. apply lic_ret. by eapply node_known_mono.
Qed.

(** Writing the condition leaves the cordon as it is. *)
Lemma lic_sync known node u t :
  node_known known node ->
  lic licence known (sync_protective_condition cfg node u t) (fun n all => node_known all n).
Proof.
  intros Hn. unfold sync_protective_condition. destruct node as [n|]; [|by apply lic_ret].
  destruct (_ || _ || _ || _); [by apply lic_ret|]. destruct (condition_text _ _) as [reason message].
  apply lic_then; [plain_steps|]. intros at_. apply lic_then; [plain_steps|]. intros [r|e].
  - apply lic_ret. intros m [= <-]. apply (Hn n eq_refl).
  - apply lic_then; [plain_steps|]. intros _. by apply lic_ret.
Qed.

Lemma lic_apply known node u t :
  node_known known node -> reported_full known inst eff ->
  lic licence known (apply_protective_cordon cfg node u t) (fun n all => node_known all n).
Proof.
  intros Hn Hfull. unfold apply_protective_cordon. eapply lic_bind; [by apply lic_cordon_node|].
  cbn. intros n all _ Hk. by apply lic_sync.
Qed.

Lemma lic_release known node u t :
  node_known known node -> measured_below (inst_id inst) (usage_threshold_percent eff) ->
  lic licence known (release_protective_cordon cfg node u t) (fun _ _ => True).
Proof.
  intros Hn Hbelow. unfold release_protective_cordon. apply (lic_bind _ _ _ _ (fun _ _ => True)).
  2:{ intros n all _ _. apply lic_end. plain_steps. }
  unfold uncordon_node. destruct node as [n|]; [|by apply lic_ret].
  destruct (_ || _ || _) eqn:E; [by apply lic_ret|].
  apply orb_false_iff in E as [[Hcordon%negb_false_iff Hprot%negb_false_iff]%orb_false_iff Hdry].
  destruct (Hn n eq_refl) as (l & Hl & Hname & Hs).
  destruct (unschedulable n) eqn:Hun; cbn [negb].
  - eapply lic_bind; [apply lic_observed|intros [] all _ ->; apply lic_end; plain_steps].
    intros _ t' Ht. apply Hlicence. split_and!; [done..|].
    exists l. split_and!; [done..|]. destruct Hs as [[H1 H2]|(_ & _ & Hin)]; [left; split; congruence|].
    right. by apply Ht.
  - eapply lic_bind; [apply lic_observed|intros [] all _ ->; apply lic_end; plain_steps].
    intros _ t' Ht. apply Hlicence. split_and!; [done..|].
    exists l. destruct Hs as [[H1 H2]|(_ & H2 & _)]; [|congruence]. split_and!; [done..|congruence|congruence].
Qed.

Lemma lic_measure known :
  lic licence known (measure (inst_id inst)) (fun r all => all = known /\ forall used, r = Ok used ->
    exists s out, (run_script (inst_id inst) MEASURE_ROOT_FS s).2 = Ok out /\ parse_usage_percent out = Ok used).
Proof.
  unfold measure. eapply lic_bind; [apply lic_call|]. cbn. intros r all _ [-> [s Hs]]. apply lic_ret.
  split; [done|]. intros used Hu. destruct r as [out|]; [|done]. by exists s, out.
Qed.

Lemma lic_verify known node :
  node_known known node -> lic licence known (verify_usage cfg inst eff node) (fun _ _ => True).
Proof.
  intros Hn. unfold verify_usage. eapply lic_bind; [apply lic_measure|]. cbn. intros r all _ [-> Hr].
  destruct r as [after|]; [|by apply lic_ret]. destruct (after <? _) eqn:E; [|by apply lic_ret]. bool_to_prop.
  destruct (Hr after eq_refl) as (s & out & H1 & H2).
  eapply lic_bind; [apply lic_release; [done|by exists s, out, after]|]. intros x all _ _. by apply lic_ret.
Qed.

(** The request may carry [spec]. *)
Lemma lic_modify known spec :
  dry_run cfg = false -> root_volume_id inst <> EmptyString -> reported_full known inst eff ->
  size_gib spec = target_size (root_volume_size_gib inst) eff -> size_gib spec <= max_volume_size_gib eff ->
  carries (root_volume_id inst) spec ->
  lic licence known (modify_volume (root_volume_id inst) spec) (fun _ all => known ⊆ all).
Proof.
  intros Hdry Hv Hfull Hsize Hmax Hcarry. unfold modify_volume. eapply lic_bind.
  { apply lic_observed. intros _ t Ht. apply Hlicence. split_and!; try done. by eapply reported_full_mono. }
  cbn. intros [] all Hall _. eapply lic_post; [apply lic_plain; plain_steps|].
  intros x all' Hsub _. etrans; [|exact Hsub]. intros y Hy. by apply Hall, Hy.
Qed.

Lemma lic_request known target rec m :
  dry_run cfg = false -> root_volume_id inst <> EmptyString -> reported_full known inst eff ->
  target = target_size (root_volume_size_gib inst) eff -> target <= max_volume_size_gib eff ->
  (forall e, rec = Some e -> carries (root_volume_id inst) (mkModifySpec target (throughput_mibps e) (iops e))) ->
  lic licence known (request_modification eff (root_volume_id inst) target rec m) (fun _ _ => True).
Proof.
  intros Hdry Hv Hfull Hsize Hmax Hcarry. unfold request_modification.
  assert (Halone : forall all, known ⊆ all ->
    lic licence all (modify_volume (root_volume_id inst) (mkModifySpec target 0 0)) (fun _ all' => all ⊆ all')).
  { intros all Hall. apply lic_modify; [done..|by eapply reported_full_mono|done|done|]. left. by split. }
  apply (lic_bind _ _ _ _ (fun _ all => known ⊆ all)).
  { destruct rec as [e|]; [|by apply Halone]. apply lic_modify; try done. by apply Hcarry. }
  intros [u|e] all Hall _; destruct rec as [rec|]; [apply lic_end; plain_steps..| |apply lic_end; plain_steps].
  apply lic_then; [plain_steps|]. intros _. eapply lic_bind; [by apply Halone|].
  intros [u|e'] all' _ _; apply lic_end; plain_steps.
Qed.

Lemma lic_grow known node obs used :
  node_known known node -> root_volume_id inst <> EmptyString -> reported_full known inst eff ->
  target_size (root_volume_size_gib inst) eff <= max_volume_size_gib eff ->
  lic licence known (grow cfg inst eff node obs (root_volume_size_gib inst)
      (target_size (root_volume_size_gib inst) eff) used) (fun _ _ => True).
Proof.
  intros Hn Hv Hfull Hmax. unfold grow, done_, failed. apply lic_then; [plain_steps|]. intros now.
  eapply lic_bind; [apply lic_call|]. cbn. intros recs all _ [-> [s <-]].
  destruct (throughput_piggyback _ _ _ _) as [rec skip] eqn:Ep.
  destruct (dry_run cfg) eqn:Hdry; [apply lic_end; plain_steps|].
  apply lic_then; [plain_steps|]. intros _. apply lic_then; [plain_steps|]. intros start.
  apply lic_then; [plain_steps|]. intros _. eapply lic_bind.
  { apply lic_request; try done. intros e ->. right. by exists s, now, e, skip. }
  intros [m [u|e]] all Hall _; [|apply lic_end; plain_steps].
  apply lic_then; [plain_steps|]. intros [[w|w]|]; [|apply lic_end; plain_steps..].
  apply lic_then; [plain_steps|]. intros [res|res]; [|apply lic_end; plain_steps].
  eapply lic_bind; [apply lic_verify; by eapply node_known_mono|]. intros after all' _ _.
  apply lic_end. plain_steps.
Qed.
End Instance.

Context (rfc3339 : Z -> string).

Lemma lic_instance licence inst eff known node :
  (forall t o, entitled inst eff t o -> licence t o) ->
  (forall n, node = Some n -> listed (inst_id inst) n) ->
  lic licence known (reconcile_instance cfg rfc3339 inst eff node) (fun _ _ => True).
Proof.
  intros Hlicence Hnode. unfold reconcile_instance, done_, failed.
  destruct (str_is_empty (root_volume_id inst)) eqn:Hv; [apply lic_end; plain_steps|].
  assert (Hv' : root_volume_id inst <> EmptyString) by (by intros E; rewrite E in Hv).
  assert (Hn : forall t, node_known inst t node).
  { intros t n Hsome. exists n. split_and!; [by apply Hnode|done|by left]. }
  apply lic_then; [plain_steps|]. intros _. destruct (paused eff) eqn:Hp; [apply lic_end; plain_steps|].
  eapply lic_bind; [by apply lic_measure|]. cbn. intros r all _ [-> Hr].
  destruct r as [used|e]; [|apply lic_end; plain_steps].
  eapply lic_bind; [by apply lic_observed|]. intros [] all _ ->.
  destruct (used <? usage_threshold_percent eff) eqn:Hu; bool_to_prop.
  - apply lic_then; [plain_steps|]. intros _. destruct (Hr used eq_refl) as (s & out & H1 & H2).
    eapply lic_bind; [apply (lic_release licence inst eff); try done; by exists s, out, used|].
    intros x all _ _. apply lic_end. plain_steps.
  - assert (Hfull : reported_full (ObservedUsage (inst_id inst) used :: known) inst eff).
    { exists used. split; [left|lia]. }
    unfold reconcile_above, done_, failed.
    eapply lic_bind; [by apply (lic_apply licence inst eff)|]. cbn. intros node' all Hall Hn'.
    destruct (max_volume_size_gib eff <? _) eqn:Hmax; [apply lic_end; plain_steps|]. bool_to_prop.
    apply lic_then; [plain_steps|]. intros [[until_|]|e]; [apply lic_end; plain_steps| |apply lic_end; plain_steps].
    apply (lic_grow licence inst eff); try done. by eapply reported_full_mono.
Qed.

(** ** A pass *)

Definition nodes_listed (nodes : gmap string CordonNode) : Prop :=
  forall i n, nodes !! i = Some n -> listed i n.

Lemma lic_manage_all licence known instances l acc :
  (forall i eff inst t o, (i, eff) ∈ l -> instances !! i = Some inst -> entitled inst eff t o -> licence t o) ->
  nodes_listed acc.1 ->
  lic licence known (manage_all cfg rfc3339 instances acc l) (fun _ _ => True).
Proof.
  revert known acc. induction l as [|[i eff] l IH]; intros known acc Hl Hn; cbn [manage_all]; [by apply lic_ret|].
  apply (lic_bind _ _ _ _ (fun acc' _ => nodes_listed acc'.1)).
  - unfold manage. destruct acc as [nodes es]. cbn [fst snd] in *.
    destruct (instances !! i) as [inst|] eqn:Hi; [|apply lic_panic].
    eapply lic_bind.
    { apply lic_instance; [intros t o; apply (Hl i eff inst t o); [left|done]|]. intros n. apply Hn. }
    intros [obs r] all _ _. apply lic_ret. cbn. intros j n Hj. apply lookup_delete_Some in Hj as [_ Hj].
    by apply Hn.
  - intros acc' all _ Hn'. apply IH; [|done]. intros j eff' inst t o Hin. apply (Hl j eff' inst t o). by right.
Qed.

Context (powi10 : Z -> f64).

(** What the pass has listed entitles it. *)
Definition pass_entitled (ivas : list InstanceVolumeAutoscaler) (instances : list Instance_)
    (t : list Observed) (o : Observed) : Prop :=
  exists i eff inst, (i, eff) ∈ managed (plan (resolver_new powi10 ivas) instances) /\
    instances !! i = Some inst /\ entitled inst eff t o.

Lemma lic_nodes licence known :
  lic licence known (protective_cordon_nodes cfg) (fun nodes _ => forall i n, (i, n) ∈ nodes -> listed i n).
Proof.
  unfold protective_cordon_nodes. destruct (has_cordon cfg); cbn [negb].
  2:{ apply lic_ret. intros i n Hin. by apply elem_of_nil in Hin. }
  eapply lic_bind; [apply lic_call|]. cbn. intros [nodes|e] all _ [_ [s Hs]].
  - apply lic_ret. intros i n Hin. by exists s, nodes.
  - apply lic_then; [plain_steps|]. intros _. apply lic_ret. intros i n Hin. by apply elem_of_nil in Hin.
Qed.

(** C17: Whatever a pass does to a volume or a Node, it does for an instance that
    the plan gives to one autoscaler, which is not paused, and not in a dry run:
    it only asks EC2 for a volume it reported to be full before, at the size of
    the next step and within the largest size, with the throughput left alone or
    that of a recommendation; it only cordons the schedulable, unmarked Node of
    a full instance; it only lifts a cordon that carries its mark or that it
    set, after measuring the file system below the threshold. *)
Theorem pass_acts_entitled s t1 o t2 :
  (reconcile_pass cfg rfc3339 powi10 (s, [])).1.2 = t1 ++ o :: t2 -> acts o = true ->
  exists s1 ivas instances, list_ivas cfg (s, []) = (s1, Ok ivas) /\
    (describe_target_instances s1.1).2 = Ok instances /\ pass_entitled ivas instances t1 o.
Proof.
  intros E Ha. unfold reconcile_pass, bind at 1 in E.
  destruct (plain_list_ivas cfg (s, [])) as (new & Et & Hn).
  destruct (list_ivas cfg (s, [])) as [[s1 t] [ivas|e]]; cbn in Et, Hn; subst t.
  2:{ cbn in E. rewrite E in Hn. apply Forall_app in Hn as [_ [Hn _]%Forall_cons]. congruence. }
  exists (s1, new), ivas. unfold bind at 1, call at 1 in E.
  destruct (describe_target_instances s1) as [s2 [instances|e]] eqn:Ed.
  - exists instances. split_and!; [done|by cbn; rewrite Ed|]. revert Ha.
    match type of E with (?m (s2, new)).1.2 = _ =>
      assert (Hlic : lic (pass_entitled ivas instances) [] m (fun _ _ => True)) end.
    + apply lic_then; [plain_steps|]. intros _. apply lic_then; [plain_steps|]. intros _.
      eapply lic_bind; [apply lic_nodes|]. cbn. intros nodes all _ Hnodes.
      eapply lic_bind; [|intros acc all' _ _; apply lic_end; plain_steps].
      apply lic_manage_all.
      * intros i eff inst t o' Hin Hi He. by exists i, eff, inst.
      * intros i n Hin. apply elem_of_list_to_map_2, list_elem_of_In, in_rev, list_elem_of_In in Hin. by apply Hnodes.
    + destruct (Hlic (s2, new)) as (Hfair & _).
      { cbn. apply (fair_plain _ [] new); [|done]. intros [] ? ?; done. }
      { set_solver. }
      by apply (Hfair t1 o t2).
  - exfalso. match type of E with (?m (s2, new)).1.2 = _ => assert (Hp : plain m) by plain_steps end.
    destruct (Hp (s2, new)) as (more & Em & Hm). rewrite E in Em. cbn in Em.
    assert (Hall : Forall (fun o => acts o = false) (t1 ++ o :: t2)).
    { rewrite Em. by apply Forall_app. }
    apply Forall_app in Hall as [_ [Ho _]%Forall_cons]. congruence.
Qed.
End Trace.
