(* ===== verification/DemoVolumes.v ===== *)
(** * A small EC2 and Kubernetes for the resizer (volume-autoscaler)

    Concrete services that meet the laws: one instance with a full root volume, an
    autoscaler that targets it by a tag, and its Node.  The theorems of the
    resizer are applied to them. *)

From Corelib Require Import SpecFloat.
From stdpp Require Import prelude list strings pretty gmap sorting relations.
From Stdlib Require Import ZArith Lia Ascii.
From S2P Require Import Prelude.
From S2P Require Import Strings.
From S2P Require Import BTree.
From S2P Require Import F64.
From S2P Require Import Autoscaler.
From S2P Require Import VolumePolicy.
From S2P Require Import VolumeStatus.
From S2P Require Import RecStore.
From S2P Require Import Resizer.
From S2P Require Import ResizerSafety.
From S2P Require Import ResizerRun.
From S2P Require Import ResizerTrace.

(** Nanoseconds since the epoch, at most those of the year 200000, the start
    times of the modifications of each volume, and the cordon of the Node. *)
Record Demo := mkDemo {
  d_time : Z;
  d_modified : gmap string (list Z);
  d_cordoned : bool;
}.

Definition d_end : Z := 6248000000000 * NANOS.
Definition d_clock (d : Demo) : Z := Z.min (d_time d) d_end.
Definition d_mods (d : Demo) (v : string) : list Z := map (Z.min d_end) (default [] (d_modified d !! v)).
Fixpoint d_latest (l : list Z) : Z := match l with [] => 0 | t :: l => Z.max t (d_latest l) end.

Definition d_iva : InstanceVolumeAutoscaler :=
  mkIva (Some "db") (Some "u-1") (Some 1)
    (mkIvaSpec (mkTargetRef TagSelector None (Some [("Role", "db")])) "100Gi" [80]
       (Some (Some (mkScalingRules SelectMax [mkScalingPolicy GiBPolicy 20] (Some "8h")))) true) None.

Definition d_instance : Instance_ :=
  mkInstance "i-1" "db-1" [("Role", "db")] "/dev/xvda" "vol-1" 40.

#[global] Instance demo_api : VolumeApi Demo := {|
  utc_now d := (d, d_clock d);
  instant_now d := (d, d_time d);
  sleep n d := mkDemo (d_time d + n) (d_modified d) (d_cordoned d);
  list_autoscalers d := (d, Ok [d_iva]);
  describe_target_instances d := (d, Ok [d_instance]);
  modify_call v _ _ _ d :=
    (mkDemo (d_time d) (<[v := d_clock d :: default [] (d_modified d !! v)]> (d_modified d)) (d_cordoned d), Ok tt);
  describe_call v d :=
    (d, match d_mods d v with
        | [] => Err (mkApiError (Some NOT_FOUND) "never modified")
        | l => Ok [mkModification "completed" (Some (d_latest l))]
        end);
  run_script i s d := (d, Ok (match s with MEASURE_ROOT_FS => "91%" | RESIZE_ROOT_FS => EmptyString end));
  list_nodes d := (d, Ok [("i-1", mkCordonNode "node-1" "n-1" (d_cordoned d) (d_cordoned d) None)]);
  cordon n t d := (mkDemo (d_time d) (d_modified d) true, Ok tt);
  uncordon n d := (mkDemo (d_time d) (d_modified d) false, Ok tt);
  forget n d := (d, Ok tt);
  set_node_condition n c d := (d, Ok tt);
  patch_status n st d := (d, Ok tt);
  recommendations d :=
    Some {["vol-1" := mkEntry "node-1" "n-1" ACTION_INCREASE 250 3000 125 3000 (Some 0)]};
|}.

Lemma d_latest_ge l t : t ∈ l -> t <= d_latest l.
Proof.
  induction l as [|x l IH]; [by intros ?%elem_of_nil|]. intros [->|H]%elem_of_cons; cbn; [lia|].
  specialize (IH H). lia.
Qed.

Lemma d_latest_le l : d_latest (map (Z.min d_end) l) <= d_end.
Proof. induction l as [|x l IH]; cbn [map d_latest]; [by vm_compute|]. apply Z.max_lub; [lia|done]. Qed.

#[global] Instance demo_laws : VolumeApiLaws Demo.
Proof.
  refine {| modified := d_mods; clock := d_clock; ticks := d_time |}; cbn.
  - intros s s' n [= <- <-]. split_and!; done || lia.
  - intros s s' n [= <- <-]. split_and!; done || lia.
  - intros n s Hn. unfold d_clock. cbn. split_and!; done || lia.
  - intros s. split_and!; done || lia.
  - intros s. split_and!; done || lia.
  - intros i c s. split_and!; done || lia.
  - intros s. split_and!; done || lia.
  - intros n t s. split_and!; done || (unfold d_clock; cbn; lia).
  - intros n s. split_and!; done || (unfold d_clock; cbn; lia).
  - intros n s. split_and!; done || lia.
  - intros n c s. split_and!; done || lia.
  - intros n st s. split_and!; done || lia.
  - intros v s. split_and!; done || lia.
  - intros v s s' r [= <- <-] Hne. destruct (d_mods s v) as [|t l] eqn:E; [done|]. right. right.
    eexists. split; [done|]. intros u Hu. exact (d_latest_ge (t :: l) u Hu).
  - intros v size tp io s s' r [= <- <-]. split_and!; [reflexivity..|].
    exists (d_clock s). split_and!; [reflexivity..| |].
    + unfold d_mods. cbn. rewrite lookup_insert_eq. cbn. f_equal. unfold d_clock. lia.
    + intros w Hw. unfold d_mods. cbn. by rewrite lookup_insert_ne.
Defined.

Definition d_config : ResizerConfig := mkResizerConfig false (600 * NANOS) (5 * NANOS) (mkThroughput true (3600 * NANOS)) true true.
Definition d_start : Demo := mkDemo (1000 * NANOS) ∅ false.
Definition d_powi10 (_ : Z) : f64 := S754_nan.
Definition d_rfc3339 (_ : Z) : string := EmptyString.
Definition d_pass (d : Demo) : Demo * list Observed * result stop Z :=
  reconcile_pass d_config d_rfc3339 d_powi10 (d, []).
Definition d_wait (hours : Z) (d : Demo) : Demo :=
  mkDemo (d_time d + hours * 3600 * NANOS) (d_modified d) (d_cordoned d).

(** The first pass cordons the Node and grows the volume with a recommendation;
    five hours later the cooldown holds; nine hours after the first it grows
    again, without the recommendation, which is stale. *)
Definition d_first : Demo := (d_pass d_start).1.1.
Definition d_second : Demo := (d_pass (d_wait 5 d_first)).1.1.
Definition d_third : Demo := (d_pass (d_wait 4 d_second)).1.1.

Example demo_passes :
  d_mods d_first "vol-1" = [1000 * NANOS] /\ d_cordoned d_first = true /\
  d_mods d_second "vol-1" = [1000 * NANOS] /\
  d_mods d_third "vol-1" = [(1000 + 9 * 3600) * NANOS; 1000 * NANOS] /\
  (d_pass d_start).2 = Ok 1.
Proof. vm_compute. done. Qed.

Definition d_acts (d : Demo) : list Observed := List.filter acts (d_pass d).1.2.

Example demo_acts :
  d_acts d_start = [Cordoned "node-1"; Requested "vol-1" (mkModifySpec 60 250 3000)] /\
  d_acts (d_wait 5 d_first) = [] /\
  d_acts (d_wait 4 d_second) = [Requested "vol-1" (mkModifySpec 60 0 0)].
Proof. vm_compute. done. Qed.

Lemma demo_cooldowns longest :
  28800 <= longest ->
  forall (s : Demo) ivas, (list_autoscalers s).2 = Ok ivas ->
  Forall (fun iva => forall c, compile d_powi10 iva = Ok c -> cooldown (effective c) <= longest) ivas.
Proof.
  intros Hl s ivas [= <-]. constructor; [|constructor]. intros c Hc.
  vm_compute in Hc. injection Hc as <-. exact Hl.
Qed.

Lemma demo_run : rtc (step d_rfc3339 d_powi10) d_start d_third.
Proof.
  assert (Hpass : forall d, step d_rfc3339 d_powi10 d (d_pass d).1.1).
  { intros d. by apply (step_pass d_rfc3339 d_powi10 d_config). }
  assert (Hwait : forall h d, 0 <= h -> step d_rfc3339 d_powi10 d (d_wait h d)).
  { intros h d Hh. apply step_environment. unfold quiet_step. cbn. unfold d_clock, d_wait, NANOS. cbn.
    split_and!; [lia|lia|done]. }
  eapply rtc_l; [apply Hpass|]. eapply rtc_l; [by apply (Hwait 5)|]. eapply rtc_l; [apply Hpass|].
  eapply rtc_l; [by apply (Hwait 4)|]. eapply rtc_l; [apply Hpass|]. apply rtc_refl.
Qed.

Lemma four_modifications_a_day_witness :
  rtc (step d_rfc3339 d_powi10) d_start d_third /\
  forall v w, zlen (filter (fun t => w <= t /\ t < w + DAY) (modified d_third v)) <= 4.
Proof.
  split; [exact demo_run|].
  apply (four_modifications_a_day d_rfc3339 d_powi10 d_start d_third).
  - intros s ivas. apply (demo_cooldowns time_delta_max_secs). by vm_compute.
  - done.
  - exact demo_run.
Defined.

Lemma pass_never_panics_witness :
  (d_pass d_start).2 = Ok 1 /\ (reconcile_pass d_config d_rfc3339 d_powi10 (d_start, [])).2 <> Err Panic.
Proof.
  split; [by vm_compute|].
  apply (pass_never_panics d_config d_rfc3339 d_powi10) with (last := d_end) (longest := 28800).
  - done.
  - done.
  - intros s. cbn. unfold d_clock. lia.
  - intros v s ms m t. cbn. destruct (d_mods s v) as [|x l] eqn:E; [done|]. intros [= <-].
    intros ->%list_elem_of_singleton. cbn [start_time]. intros [= <-].
    change (d_latest (x :: l) <= d_end). rewrite <- E. apply d_latest_le.
  - by vm_compute.
  - by apply demo_cooldowns.
Defined.

(** The request, after the cordon, and what the pass reported before and after. *)
Lemma pass_acts_entitled_witness :
  exists t1 t2, (d_pass d_start).1.2 = t1 ++ Requested "vol-1" (mkModifySpec 60 250 3000) :: t2 /\
  exists s1 ivas instances, list_ivas d_config (d_start, []) = (s1, Ok ivas) /\
    (describe_target_instances s1.1).2 = Ok instances /\
    pass_entitled d_config d_powi10 ivas instances t1 (Requested "vol-1" (mkModifySpec 60 250 3000)).
Proof.
  exists (take 7 (d_pass d_start).1.2), (drop 8 (d_pass d_start).1.2).
  assert (E : (d_pass d_start).1.2 = take 7 (d_pass d_start).1.2 ++
    Requested "vol-1" (mkModifySpec 60 250 3000) :: drop 8 (d_pass d_start).1.2) by (by vm_compute).
  split; [exact E|].
  exact (pass_acts_entitled d_config d_rfc3339 d_powi10 d_start _ _ _ E eq_refl).
Defined.
