(* ===== verification/Claims.v ===== *)
(** * Claims and their autoscalers (volume-autoscaler:
    autoscaler/persistent_volume_claim/crd.rs, api.rs, cache.rs)

    The Kubernetes objects a reconcile of a claim autoscaler reads, cut down by
    the watch caches to the fields it needs, and what it reads off them: the
    claims an autoscaler targets, the state of each claim, and the storage
    classes that block growth. *)

From Corelib Require Import SpecFloat.
From stdpp Require Import prelude list strings pretty sorting.
From Stdlib Require Import ZArith Lia Ascii.
From S2P Require Import Prelude.
From S2P Require Import Strings.
From S2P Require Import BTree.
From S2P Require Import F64.
From S2P Require Import Autoscaler.
From S2P Require Import VolumePolicy.

(** ** Kubernetes objects, with the fields that are read *)

Record ObjectMeta := mkMeta {
  m_name : option string;
  m_namespace : option string;
  m_uid : option string;
  m_annotations : option (BTreeMap string);
}.

Record ClaimCondition := mkClaimCondition { cl_type : string; cl_status : string; cl_message : option string }.

Record ClaimSpec := mkClaimSpec {
  storage_class_name : option string;
  (** [resources], and its [requests]. *)
  resources : option (option (BTreeMap Quantity));
}.

Record ClaimState := mkClaimState {
  phase : option string;
  claim_conditions : option (list ClaimCondition);
  allocated_resource_statuses : option (BTreeMap string);
  claim_capacity : option (BTreeMap Quantity);
}.

Record PersistentVolumeClaim := mkClaimObject {
  pvc_meta : ObjectMeta;
  pvc_spec : option ClaimSpec;
  pvc_status : option ClaimState;
}.

(** A volume claim template: its name and the class of its spec. *)
Record Template := mkTemplate { t_name : option string; t_spec : option (option string) }.

Record StatefulSet := mkStatefulSet {
  sts_meta : ObjectMeta;
  sts_spec : option (option (list Template));
}.

Record StorageClass := mkStorageClass { sc_meta : ObjectMeta; allow_volume_expansion : option bool }.

(** ** The autoscaler *)

Inductive ClaimTargetKind := StatefulSetKind | PersistentVolumeClaimKind.

Record ClaimTargetRef := mkClaimTargetRef { claim_kind : ClaimTargetKind; claim_ref_name : string }.

Inductive ClaimResourceName := Storage | Inodes.

#[export] Instance ClaimResourceName_eq : EqDecision ClaimResourceName.
Proof. solve_decision. Defined.
#[export] Instance ClaimTargetKind_eq : EqDecision ClaimTargetKind.
Proof. solve_decision. Defined.

(** A metric: its resource and its average utilization. *)
Record ClaimMetricSpec := mkClaimMetric { metric_name : ClaimResourceName; average_utilization : Z }.

(** [behavior] and its [scaleUp]. *)
Record PersistentVolumeClaimAutoscalerSpec := mkPvcaSpec {
  claim_target_ref : ClaimTargetRef;
  claim_max_capacity : Quantity;
  claim_metrics : list ClaimMetricSpec;
  claim_behavior : option (option ScalingRules);
}.

Record ClaimStatus := mkClaimStatus {
  cs_name : string;
  cs_current_capacity : option Quantity;
  cs_desired_capacity : option Quantity;
  cs_current_utilization : option Z;
  cs_current_inodes_utilization : option Z;
  cs_last_scale_time : option Z;
  cs_cooldown_until : option Z;
  cs_capacity_at_last_scale : option Quantity;
  cs_tracked_by : option string;
  cs_reason : string;
  cs_message : string;
}.

Record PersistentVolumeClaimAutoscalerStatus := mkPvcaStatus {
  ps_target : string;
  ps_utilization : string;
  ps_reason : string;
  ps_cooldown_duration : string;
  ps_observed_generation : option Z;
  ps_last_scale_time : option Z;
  ps_current_volumes : Z;
  ps_claims : list ClaimStatus;
  ps_conditions : list Condition;
}.

Record PersistentVolumeClaimAutoscaler := mkPvca {
  pvca_meta : ObjectMeta;
  pvca_generation : option Z;
  pvca_spec : PersistentVolumeClaimAutoscalerSpec;
  pvca_status : option PersistentVolumeClaimAutoscalerStatus;
}.

Definition claim_target_summary (r : ClaimTargetRef) : string :=
  (match claim_kind r with StatefulSetKind => "StatefulSet" | PersistentVolumeClaimKind => "PersistentVolumeClaim" end)
  +:+ "/" +:+ claim_ref_name r.

Definition claim_target_utilization (spec : PersistentVolumeClaimAutoscalerSpec) (name : ClaimResourceName)
    : option Z :=
  match claim_metrics spec with
  | [] => if decide (name = Storage) then Some DEFAULT_UTILIZATION_PERCENT else None
  | ms => option_map average_utilization (List.find (fun m => bool_decide (metric_name m = name)) ms)
  end.

(** ** Tracking by Argo CD *)

Definition ARGOCD_TRACKING_ANNOTATION : string := "argocd.argoproj.io/tracking-id".
Definition DEFAULT_CLASS_ANNOTATION : string := "storageclass.kubernetes.io/is-default-class".

Definition app_char (c : ascii) : bool :=
  is_ascii_lower c || is_ascii_digit c || Ascii.eqb c "-" || Ascii.eqb c ".".

Fixpoint last_char (s : string) : option ascii :=
  match s with
  | EmptyString => None
  | String c EmptyString => Some c
  | String _ s => last_char s
  end.

Definition first_char (s : string) : option ascii :=
  match s with EmptyString => None | String c _ => Some c end.

Definition valid_app (app : string) : bool :=
  negb (str_is_empty app) && (Z.of_nat (String.length app) <=? 253) && str_all app_char app &&
  from_option is_ascii_alphanumeric false (first_char app) &&
  from_option is_ascii_alphanumeric false (last_char app).

Definition tracking_app (id : string) : option string :=
  match split_on ":" id with
  | [] => None
  | app :: _ => if valid_app app then Some app else None
  end.

Definition tracked_by_ (pvc : PersistentVolumeClaim) : option string :=
  a ← m_annotations (pvc_meta pvc); id ← bt_get ARGOCD_TRACKING_ANNOTATION a; tracking_app id.

(** ** Storage classes *)

Record StorageClasses := mkClasses { class_expandable : BTreeMap bool; default_class : option string }.

Definition is_default_class (sc : StorageClass) : bool :=
  match m_annotations (sc_meta sc) ≫= bt_get DEFAULT_CLASS_ANNOTATION with
  | Some v => String.eqb v "true"
  | None => false
  end.

Definition add_class (out : StorageClasses) (sc : StorageClass) : StorageClasses :=
  match m_name (sc_meta sc) with
  | None => out
  | Some name =>
      mkClasses (bt_upsert (fun _ => default false (allow_volume_expansion sc)) name (class_expandable out))
        (if is_default_class sc then Some name else default_class out)
  end.

Definition storage_classes (state : list StorageClass) : StorageClasses :=
  foldl add_class (mkClasses [] None) state.

(** ** What is known of a claim *)

Record Claim := mkClaim {
  c_name : string;
  c_uid : string;
  bound : bool;
  storage_class : string;
  expandable : option bool;
  capacity_bytes : option f64;
  c_resizing : option string;
  c_tracked_by : option string;
}.

Definition RESIZE_CONDITIONS : list string :=
  ["Resizing"; "FileSystemResizePending"; "ControllerResizeError"; "NodeResizeError"].

Section Quantities.
Context (powi10 : Z -> f64).

Definition storage_of (map : option (BTreeMap Quantity)) : option f64 :=
  m ← map; q ← bt_get "storage" m; match quantity_bytes powi10 q with Ok b => Some b | Err _ => None end.

Definition resizing_condition (c : ClaimCondition) : bool :=
  String.eqb (cl_status c) "True" && existsb (String.eqb (cl_type c)) RESIZE_CONDITIONS.

(** Why a previous resize has not finished. *)
Definition resizing (pvc : PersistentVolumeClaim) : option string :=
  status ← pvc_status pvc;
  match List.find resizing_condition (default [] (claim_conditions status)) with
  | Some c =>
      Some match cl_message c with
           | Some m => if str_is_empty m then cl_type c else cl_type c +:+ ": " +:+ m
           | None => cl_type c
           end
  | None =>
      match allocated_resource_statuses status ≫= bt_get "storage" with
      | Some s => Some ("allocatedResourceStatuses.storage is " +:+ s)
      | None =>
          spec ← pvc_spec pvc; res ← resources spec;
          requested ← storage_of res; capacity ← storage_of (claim_capacity status);
          if f64_lt capacity requested then
            Some ("requested " +:+ f64_fixed 0 requested +:+ " bytes, capacity " +:+ f64_fixed 0 capacity +:+ " bytes")
          else None
      end
  end.

Definition claim (pvc : PersistentVolumeClaim) (classes : StorageClasses) : Claim :=
  let class := default EmptyString (pvc_spec pvc ≫= storage_class_name) in
  mkClaim (default EmptyString (m_name (pvc_meta pvc))) (default EmptyString (m_uid (pvc_meta pvc)))
    (bool_decide (pvc_status pvc ≫= phase = Some "Bound")) class (bt_get class (class_expandable classes))
    (storage_of (pvc_status pvc ≫= claim_capacity)) (resizing pvc) (tracked_by_ pvc).
End Quantities.

(** ** Targets *)

(** [<template>-<statefulset>-<ordinal>], for one of the templates. *)
Definition claim_prefixes (sts : StatefulSet) : list string :=
  let name := default EmptyString (m_name (sts_meta sts)) in
  map (fun t => t +:+ "-" +:+ name +:+ "-") (omap t_name (default [] (mjoin (sts_spec sts)))).

Definition is_ordinal (p c : string) : bool :=
  match strip_prefix p c with
  | Some ord => negb (str_is_empty ord) && str_all is_ascii_digit ord
  | None => false
  end.

Definition stateful_set_claims (sts : StatefulSet) (claims : list string) : BTreeSet :=
  set_extend (List.filter (fun c => existsb (fun p => is_ordinal p c) (claim_prefixes sts)) claims) [].

Definition find_stateful_set (name : string) (sets : list StatefulSet) : option StatefulSet :=
  List.find (fun s => bool_decide (m_name (sts_meta s) = Some name)) sets.

(** The claims the target names, or why it does not exist. *)
Definition resolve (target : ClaimTargetRef) (claims : list string) (sets : list StatefulSet)
    : result string BTreeSet :=
  match claim_kind target with
  | PersistentVolumeClaimKind =>
      if existsb (String.eqb (claim_ref_name target)) claims then Ok (set_add (claim_ref_name target) [])
      else Err ("PersistentVolumeClaim " +:+ claim_ref_name target +:+ " not found")
  | StatefulSetKind =>
      match find_stateful_set (claim_ref_name target) sets with
      | None => Err ("StatefulSet " +:+ claim_ref_name target +:+ " not found")
      | Some sts => Ok (stateful_set_claims sts claims)
      end
  end.

(** ** Classes that block growth *)

Definition add_subject (class subject : string) (m : BTreeMap (list string)) : BTreeMap (list string) :=
  bt_upsert (fun l => default [] l ++ [subject]) class m.

Definition blocked_claims (claims : list Claim) : BTreeMap (list string) :=
  foldl (fun m c => if bool_decide (expandable c = Some true) then m else add_subject (storage_class c) (c_name c) m)
    [] claims.

Definition block_template (classes : StorageClasses) (m : BTreeMap (list string)) (t : Template)
    : BTreeMap (list string) :=
  let class := default EmptyString
    match mjoin (t_spec t) with Some c => Some c | None => default_class classes end in
  if bool_decide (bt_get class (class_expandable classes) = Some true) then m
  else add_subject class ("volumeClaimTemplate " +:+ default EmptyString (t_name t)) m.

Definition block_line (classes : StorageClasses) (cs : string * list string) : string :=
  let '(class, subjects) := cs in
  let why :=
    if str_is_empty class then "no StorageClass is named and the cluster has no default"
    else if is_some (bt_get class (class_expandable classes)) then
      "StorageClass " +:+ class +:+ " does not set allowVolumeExpansion"
    else "StorageClass " +:+ class +:+ " not found" in
  why +:+ " (" +:+ str_join ", " subjects +:+ ")".

Definition expansion_blockers (target : ClaimTargetRef) (sets : list StatefulSet) (claims : list Claim)
    (classes : StorageClasses) : list string :=
  let by_class := blocked_claims claims in
  let by_class :=
    if decide (claim_kind target = StatefulSetKind) then
      match find_stateful_set (claim_ref_name target) sets with
      | Some sts => foldl (block_template classes) by_class (default [] (mjoin (sts_spec sts)))
      | None => by_class
      end
    else by_class in
  map (block_line classes) by_class.

(** ** The watch caches *)

Definition identity (m : ObjectMeta) : ObjectMeta := mkMeta (m_name m) (m_namespace m) (m_uid m) None.
Definition with_annotations (m : ObjectMeta) (a : option (BTreeMap string)) : ObjectMeta :=
  mkMeta (m_name m) (m_namespace m) (m_uid m) a.

(** The fields of the status that are dropped are not part of the model. *)
Definition strip_claim (pvc : PersistentVolumeClaim) : PersistentVolumeClaim :=
  mkClaimObject
    (with_annotations (identity (pvc_meta pvc))
      (option_map (fun t => [(ARGOCD_TRACKING_ANNOTATION, t)]) (tracked_by_ pvc)))
    (pvc_spec pvc) (pvc_status pvc).

Definition strip_stateful_set (sts : StatefulSet) : StatefulSet :=
  mkStatefulSet (identity (sts_meta sts)) (Some (mjoin (sts_spec sts))).

Definition strip_class (sc : StorageClass) : StorageClass :=
  mkStorageClass
    (with_annotations (identity (sc_meta sc))
      (a ← m_annotations (sc_meta sc); d ← bt_get DEFAULT_CLASS_ANNOTATION a;
       Some [(DEFAULT_CLASS_ANNOTATION, d)]))
    (allow_volume_expansion sc).

Definition strip_autoscaler (p : PersistentVolumeClaimAutoscaler) : PersistentVolumeClaimAutoscaler :=
  mkPvca (identity (pvca_meta p)) (pvca_generation p) (pvca_spec p) None.

Definition in_namespace {A} (meta : A -> ObjectMeta) (state : list A) (namespace : string) : list A :=
  List.filter (fun o => bool_decide (m_namespace (meta o) = Some namespace)) state.
