(* ===== verification/ClaimPolicy.v ===== *)
(** * The policy of a claim autoscaler (volume-autoscaler:
    autoscaler/persistent_volume_claim/policy.rs, status.rs, crd.rs)

    An autoscaler is compiled into settings; for each claim they decide whether
    and how far it grows; the outcomes become the status.  [rfc3339] renders a
    time, [powi10] is the power of ten of the standard library. *)

From Corelib Require Import SpecFloat.
From stdpp Require Import prelude list strings pretty sorting.
From Stdlib Require Import ZArith Lia Ascii.
From S2P Require Import Prelude.
From S2P Require Import Strings.
From S2P Require Import BTree.
From S2P Require Import F64.
From S2P Require Import Autoscaler.
From S2P Require Import Claims.

Definition REASON_CLAIM_NOT_BOUND : string := "ClaimNotBound".
Definition REASON_EXPANSION_NOT_ALLOWED : string := "VolumeExpansionNotAllowed".
Definition REASON_RESIZE_IN_PROGRESS : string := "ResizeInProgress".
Definition REASON_AWAITING_FILESYSTEM_RESIZE : string := "AwaitingFilesystemResize".

Definition GROWTH_TOLERANCE_BYTES : f64 := f64_of_Z (2 ^ 20).
Definition MIN_CLAIM_COOLDOWN : Z := 60.
Definition DEFAULT_COOLDOWN : Z := 1800.

(** ** Compiling *)

Record ClaimEffective := mkClaimEffective {
  paused : bool;
  storage_target : option Z;
  inodes_target : option Z;
  select_min : bool;
  steps : list Step;
  max_capacity_gib : Z;
  cooldown : Z;
}.

(** The first metric that repeats a resource or is out of range. *)
Fixpoint check_metrics (seen : list ClaimResourceName) (ms : list ClaimMetricSpec) : result string unit :=
  match ms with
  | [] => Ok tt
  | m :: ms =>
      if bool_decide (metric_name m ∈ seen) then Err "each metrics resource name may appear once"
      else
        let pct := average_utilization m in
        if negb ((1 <=? pct) && (pct <=? 100)) then
          Err ("averageUtilization must be between 1 and 100, got " +:+ pretty pct)
        else check_metrics (seen ++ [metric_name m]) ms
  end.

Definition claim_cooldown (raw : option string) : result string Z :=
  match raw with
  | None => Ok DEFAULT_COOLDOWN
  | Some raw =>
      let? d := map_err (fun e => "behavior.scaleUp.cooldownDuration: " +:+ e) (parse_cooldown raw) in
      if d <? MIN_CLAIM_COOLDOWN then
        Err ("behavior.scaleUp.cooldownDuration " +:+ str_debug raw +:+ " is shorter than 1m")
      else Ok d
  end.

Section Compile.
Context (powi10 : Z -> f64).

Definition compile_claim (pvca : PersistentVolumeClaimAutoscaler) : result string ClaimEffective :=
  let spec := pvca_spec pvca in
  if 2 <? zlen (claim_metrics spec) then Err "metrics supports at most storage and inodes" else
  let? _ := check_metrics [] (claim_metrics spec) in
  let? max_bytes := map_err (fun e => "maxCapacity: " +:+ e) (quantity_bytes powi10 (claim_max_capacity spec)) in
  let max_gib := f64_floor (f64_div max_bytes GIB) in
  if f64_lt max_gib (f64_of_Z 1) then
    Err ("maxCapacity must be at least 1Gi, got " +:+ claim_max_capacity spec)
  else
    let rules := default default_rules (mjoin (claim_behavior spec)) in
    let? cooldown := claim_cooldown (cooldown_duration rules) in
    let? steps := compile_steps (policies rules) in
    Ok {| paused := bool_decide (select_policy rules = SelectDisabled);
          storage_target := claim_target_utilization spec Storage;
          inodes_target := claim_target_utilization spec Inodes;
          select_min := bool_decide (select_policy rules = SelectMin);
          steps := steps;
          max_capacity_gib := f64_as_i32 (f64_min max_gib (f64_of_Z i32_max));
          cooldown := cooldown |}.
End Compile.

(** ** The decision *)

Record Usage := mkUsage { u_storage : option f64; u_inodes : option f64; u_capacity_bytes : option f64 }.
Definition no_usage : Usage := mkUsage None None None.

Record LastScale := mkLastScale { at_ : option Z; l_capacity_bytes : option f64 }.
Definition no_last_scale : LastScale := mkLastScale None None.

Record Outcome := mkOutcome {
  o_reason : string;
  o_message : string;
  o_storage : option Z;
  o_inodes : option Z;
  o_current_gib : option Z;
  o_desired_gib : option Z;
  o_cooldown_until : option Z;
  o_capacity_at_last_scale : option f64;
}.

Definition outcome_resize (o : Outcome) : bool := String.eqb (o_reason o) REASON_SUCCEEDED_RESCALE.

Definition percent (v : f64) : Z := f64_as_i32 (f64_round (f64_clamp v (f64_of_Z 0) (f64_of_Z 100))).

(** [(b / GIB).ceil().min(i32::MAX) as i32]. *)
Definition gib_of (b : f64) : Z := f64_as_i32 (f64_min (f64_ceil (f64_div b GIB)) (f64_of_Z i32_max)).

Definition bytes_gib (b : f64) : string := f64_fixed 1 (f64_div b GIB) +:+ "Gi".

Definition finish (o : Outcome) (reason message : string) : Outcome :=
  mkOutcome reason message (o_storage o) (o_inodes o) (o_current_gib o) (o_desired_gib o)
    (o_cooldown_until o) (o_capacity_at_last_scale o).
Definition with_capacity (o : Outcome) (b : option f64) : Outcome :=
  mkOutcome (o_reason o) (o_message o) (o_storage o) (o_inodes o) (o_current_gib o) (o_desired_gib o)
    (o_cooldown_until o) b.
Definition with_until (o : Outcome) (t : Z) : Outcome :=
  mkOutcome (o_reason o) (o_message o) (o_storage o) (o_inodes o) (o_current_gib o) (o_desired_gib o)
    (Some t) (o_capacity_at_last_scale o).
Definition with_desired (o : Outcome) (g : Z) : Outcome :=
  mkOutcome (o_reason o) (o_message o) (o_storage o) (o_inodes o) (o_current_gib o) (Some g)
    (o_cooldown_until o) (o_capacity_at_last_scale o).

(** A target that is crossed. *)
Definition crossing (name : string) (target value : option Z) : list string :=
  match target, value with
  | Some t, Some v => if t <=? v then [name +:+ " " +:+ pretty v +:+ "% >= " +:+ pretty t +:+ "%"] else []
  | _, _ => []
  end.

Definition measured (eff : ClaimEffective) (u : Usage) : bool :=
  (is_some (storage_target eff) && is_some (u_storage u)) || (is_some (inodes_target eff) && is_some (u_inodes u)).

(** The file system is still as small as when the last resize was asked for. *)
Definition stale (last : LastScale) (u : Usage) : option f64 :=
  match l_capacity_bytes last, u_capacity_bytes u with
  | Some before, Some now => if f64_le now (f64_add before GROWTH_TOLERANCE_BYTES) then Some now else None
  | _, _ => None
  end.

Section Decide.
Context (rfc3339 : Z -> string).

(** Why growth is not allowed by the class. *)
Definition class_message (c : Claim) : string :=
  if str_is_empty (storage_class c) then "the claim names no StorageClass"
  else match expandable c with
       | None => "StorageClass " +:+ storage_class c +:+ " not found"
       | Some _ => "StorageClass " +:+ storage_class c +:+ " does not set allowVolumeExpansion"
       end.

(** The growth itself, for a claim whose target is crossed.  [None] where the
    end of the cooldown is past the last date of chrono, which panics. *)
Definition decide_growth (eff : ClaimEffective) (u : Usage) (last : LastScale) (dry_run : bool) (now current : Z)
    (crossed : string) (out : Outcome) : option Outcome :=
  if paused eff then Some (finish out REASON_SCALING_DISABLED (crossed +:+ ", but selectPolicy is Disabled")) else
  let grow :=
    if max_capacity_gib eff <=? current then
      finish (with_desired out current) REASON_MAX_CAPACITY
        (crossed +:+ ", but " +:+ pretty current +:+ "Gi is already at maxCapacity " +:+
         pretty (max_capacity_gib eff) +:+ "Gi")
    else
      let desired := Z.min (step_up current (steps eff) (select_min eff)) (max_capacity_gib eff) in
      let out := with_desired out desired in
      if dry_run then
        finish out REASON_DRY_RUN
          (crossed +:+ ", would grow " +:+ pretty current +:+ "Gi to " +:+ pretty desired +:+ "Gi")
      else
        finish (with_capacity out (u_capacity_bytes u)) REASON_SUCCEEDED_RESCALE
          (crossed +:+ ", growing " +:+ pretty current +:+ "Gi to " +:+ pretty desired +:+ "Gi") in
  match at_ last with
  | None => Some grow
  | Some l =>
      until ← time_add l (delta_from_secs (cooldown eff));
      if now <? until then
        Some (finish (with_until out until) REASON_COOLDOWN (crossed +:+ ", cooling down until " +:+ rfc3339 until))
      else Some grow
  end.

Definition decide_claim (eff : ClaimEffective) (c : Claim) (u : Usage) (last : LastScale) (dry_run : bool) (now : Z)
    : option Outcome :=
  let current_gib := option_map gib_of (capacity_bytes c) in
  let out := mkOutcome REASON_BELOW_TARGET EmptyString (option_map percent (u_storage u))
    (option_map percent (u_inodes u)) current_gib None None (l_capacity_bytes last) in
  if negb (bound c) then Some (finish out REASON_CLAIM_NOT_BOUND "the claim is not bound") else
  match current_gib with
  | None => Some (finish out REASON_CLAIM_NOT_BOUND "the claim reports no status.capacity.storage")
  | Some current =>
      if negb (bool_decide (expandable c = Some true)) then
        Some (finish out REASON_EXPANSION_NOT_ALLOWED (class_message c)) else
      match c_resizing c with
      | Some why => Some (finish out REASON_RESIZE_IN_PROGRESS why)
      | None =>
          match stale last u with
          | Some bytes =>
              Some (finish out REASON_AWAITING_FILESYSTEM_RESIZE
                ("kubelet still reports a " +:+ bytes_gib bytes +:+
                 " filesystem, as before the last resize, so its utilization is stale"))
          | None =>
              let out := if is_some (l_capacity_bytes last) && is_some (u_capacity_bytes u)
                         then with_capacity out None else out in
              if negb (measured eff u) then
                Some (finish out REASON_FAILED_METRIC
                  "no kubelet_volume_stats series for the claim; is a Pod mounting it?") else
              match crossing "storage" (storage_target eff) (o_storage out) ++
                    crossing "inodes" (inodes_target eff) (o_inodes out) with
              | [] => Some (finish out REASON_BELOW_TARGET EmptyString)
              | crossed => decide_growth eff u last dry_run now current (str_join ", " crossed) out
              end
          end
      end
  end.
End Decide.

(** ** The status *)

Record ClaimInactive := mkClaimInactive { ci_reason : string; ci_message : string }.

Definition bytes_quantity (b : f64) : Quantity := pretty (f64_as_u64 (f64_max b (f64_of_Z 0))).

Definition claim_entry (c : Claim) (o : Outcome) (scaled_at : option Z) : ClaimStatus :=
  mkClaimStatus (c_name c) (option_map (fun b => gib_quantity (gib_of b)) (capacity_bytes c))
    (option_map gib_quantity (o_desired_gib o)) (o_storage o) (o_inodes o)
    (option_map k8s_time scaled_at) (option_map k8s_time (o_cooldown_until o))
    (option_map bytes_quantity (o_capacity_at_last_scale o)) (c_tracked_by c) (o_reason o) (brief (o_message o)).

Definition set_claim_condition (t : string) (c : string * string * string) (generation : option Z) (now : Z)
    (cs : list Condition) : list Condition :=
  let '(status, r, m) := c in set_condition cs t status r m generation now.

Definition with_ps_conditions (s : PersistentVolumeClaimAutoscalerStatus) (cs : list Condition)
    : PersistentVolumeClaimAutoscalerStatus :=
  mkPvcaStatus (ps_target s) (ps_utilization s) (ps_reason s) (ps_cooldown_duration s) (ps_observed_generation s)
    (ps_last_scale_time s) (ps_current_volumes s) (ps_claims s) cs.

Definition block_expansion (s : PersistentVolumeClaimAutoscalerStatus) (blockers : list string)
    (generation : option Z) (now : Z) : PersistentVolumeClaimAutoscalerStatus :=
  with_ps_conditions s
    (set_condition (ps_conditions s) CONDITION_ABLE_TO_SCALE STATUS_FALSE REASON_EXPANSION_NOT_ALLOWED
       (brief (str_join "; " blockers)) generation now).

Definition plural (n : nat) : string := if Nat.eqb n 1 then "claim" else "claims".

Definition with_last_scale (t : option Z) (e : ClaimStatus) : ClaimStatus :=
  mkClaimStatus (cs_name e) (cs_current_capacity e) (cs_desired_capacity e) (cs_current_utilization e)
    (cs_current_inodes_utilization e) t (cs_cooldown_until e) (cs_capacity_at_last_scale e) (cs_tracked_by e)
    (cs_reason e) (cs_message e).

Definition claim_prev_time (prev : option PersistentVolumeClaimAutoscalerStatus) (name : string) : option Z :=
  last (omap (fun c => if String.eqb (cs_name c) name then cs_last_scale_time c else None)
          (from_option ps_claims [] prev)).

Definition claim_carry_time (prev : option PersistentVolumeClaimAutoscalerStatus) (e : ClaimStatus) : ClaimStatus :=
  match cs_last_scale_time e with
  | Some _ => e
  | None => with_last_scale (claim_prev_time prev (cs_name e)) e
  end.

Definition count_claims (es : list ClaimStatus) (r : string) : nat :=
  length (List.filter (fun e => String.eqb (cs_reason e) r) es).

Definition claims_active (es : list ClaimStatus) (inactive : option ClaimInactive) : string * string * string :=
  match inactive with
  | Some i => (STATUS_FALSE, ci_reason i, brief (ci_message i))
  | None =>
      match es with
      | [] => (STATUS_FALSE, REASON_FAILED_GET_SCALE, "scaleTargetRef selects no PersistentVolumeClaim")
      | _ =>
          if Nat.eqb (count_claims es REASON_FAILED_METRIC) (length es) then
            (STATUS_FALSE, REASON_FAILED_METRIC, "kubelet_volume_stats has no series for any target claim")
          else
            (STATUS_TRUE, REASON_VALID_METRIC,
              "measuring utilization of " +:+ pretty (length es) +:+ " " +:+ plural (length es))
      end
  end.

Definition claims_able (es : list ClaimStatus) (inactive : option ClaimInactive) : string * string * string :=
  let has := count_claims es in
  let counted r text := pretty (has r) +:+ " " +:+ plural (has r) +:+ text in
  if from_option (fun i => String.eqb (ci_reason i) REASON_FAILED_GET_SCALE) false inactive then
    (STATUS_FALSE, REASON_FAILED_GET_SCALE, from_option (fun i => brief (ci_message i)) EmptyString inactive)
  else if Nat.ltb 0 (has REASON_FAILED_RESCALE) then
    (STATUS_FALSE, REASON_FAILED_RESCALE, counted REASON_FAILED_RESCALE " failed to resize")
  else if Nat.ltb 0 (has REASON_COOLDOWN) then
    (STATUS_FALSE, REASON_COOLDOWN, counted REASON_COOLDOWN " wait for the cooldown")
  else if Nat.ltb 0 (has REASON_SUCCEEDED_RESCALE) then
    (STATUS_TRUE, REASON_SUCCEEDED_RESCALE, counted REASON_SUCCEEDED_RESCALE " resized")
  else (STATUS_TRUE, REASON_READY_FOR_NEW_SCALE, "the controller can resize any target claim").

Definition claims_limited (es : list ClaimStatus) : string * string * string :=
  let limited := count_claims es REASON_MAX_CAPACITY in
  if Nat.ltb 0 limited then
    (STATUS_TRUE, REASON_MAX_CAPACITY, pretty limited +:+ " " +:+ plural limited +:+ " at maxCapacity")
  else (STATUS_FALSE, REASON_WITHIN_RANGE, "every desired capacity is within maxCapacity").

Definition build_claims (prev : option PersistentVolumeClaimAutoscalerStatus) (generation : option Z)
    (entries : list ClaimStatus) (inactive : option ClaimInactive) (now : Z)
    : PersistentVolumeClaimAutoscalerStatus :=
  let es := map (claim_carry_time prev) (sort_by cs_name entries) in
  let last_time := foldl (fun l e => latest l (cs_last_scale_time e)) (mbind ps_last_scale_time prev) es in
  let conditions :=
    set_claim_condition CONDITION_SCALING_LIMITED (claims_limited es) generation now
      (set_claim_condition CONDITION_ABLE_TO_SCALE (claims_able es inactive) generation now
        (set_claim_condition CONDITION_SCALING_ACTIVE (claims_active es inactive) generation now
          (from_option ps_conditions [] prev))) in
  mkPvcaStatus EmptyString EmptyString EmptyString EmptyString generation last_time
    (Z.min (zlen es) i32_max) es conditions.

Definition refresh_claim_summary (spec : PersistentVolumeClaimAutoscalerSpec)
    (s : PersistentVolumeClaimAutoscalerStatus) : PersistentVolumeClaimAutoscalerStatus :=
  let shown :=
    match omap cs_current_utilization (ps_claims s) with
    | [] => "<unknown>"
    | u :: us => pretty (foldl Z.max u us) +:+ "%"
    end in
  let utilization :=
    match claim_target_utilization spec Storage with
    | None => shown
    | Some g => shown +:+ "/" +:+ pretty g +:+ "%"
    end in
  let reason :=
    match condition (ps_conditions s) CONDITION_ABLE_TO_SCALE with
    | Some c => if String.eqb (c_reason c) REASON_EXPANSION_NOT_ALLOWED then c_reason c
                else summary_reason (ps_conditions s)
    | None => summary_reason (ps_conditions s)
    end in
  let shown_cooldown :=
    match (rules ← mjoin (claim_behavior spec); cooldown_duration rules) with
    | None => format_cooldown DEFAULT_COOLDOWN
    | Some r => match parse_cooldown r with Ok d => format_cooldown d | Err _ => r end
    end in
  mkPvcaStatus (claim_target_summary (claim_target_ref spec)) utilization reason shown_cooldown
    (ps_observed_generation s) (ps_last_scale_time s) (ps_current_volumes s) (ps_claims s) (ps_conditions s).
