(* ===== verification/ClaimReconcile.v ===== *)
(** * Reconciling a claim autoscaler (volume-autoscaler:
    autoscaler/persistent_volume_claim/reconciler.rs, api.rs)

    One reconcile reads the objects of the namespace, resolves the target, asks
    for the utilization, decides on each claim, requests the resizes and writes
    the status.  What the services answer is a record of functions; what the
    reconcile asks and reports is the list of its events, in order. *)

From Corelib Require Import SpecFloat.
From stdpp Require Import prelude list strings pretty gmap sorting.
From Stdlib Require Import ZArith Lia Ascii.
From S2P Require Import Prelude.
From S2P Require Import Strings.
From S2P Require Import BTree.
From S2P Require Import F64.
From S2P Require Import Autoscaler.
From S2P Require Import VolumePolicy.
From S2P Require RecStore.
From S2P Require Import Claims.
From S2P Require Import ClaimPolicy.

(** ** Measuring claims (volume-autoscaler: promql.rs,
    autoscaler/persistent_volume_claim/metrics.rs)

    The queries for the utilization of claims and what is read off the answers.
    A [HashMap] is a [gmap]: its order is never observed. *)

(** ** Query texts *)

Definition quote_escape (c : ascii) : string :=
  if decide (c = "034"%char) then String "\" (String c EmptyString)
  else if decide (c = "\"%char) then "\\"
  else if decide (c = "010"%char) then "\n"
  else if decide (c = "009"%char) then "\t"
  else String c EmptyString.

(** A double-quoted literal of PromQL.  The characters that are escaped are
    ASCII, so the loop over characters is one over bytes. *)
Definition quote (s : string) : string :=
  quote_char +:+ str_join EmptyString (map quote_escape (String.list_ascii_of_string s)) +:+ quote_char.

Definition matchers (labels : BTreeMap string) : string :=
  str_join "," (map (fun kv => kv.1 +:+ "=" +:+ quote kv.2) labels).

Definition CLAIM_LABEL : string := "persistentvolumeclaim".

(** [c.replace('.', "\\.")]. *)
Definition escape_dots (s : string) : string :=
  str_join EmptyString
    (map (fun c => if decide (c = "."%char) then "\." else String c EmptyString) (String.list_ascii_of_string s)).

Definition extend_labels (selector : BTreeMap string) (m : BTreeMap string) : BTreeMap string :=
  foldl (fun m kv => bt_upsert (fun _ => kv.2) kv.1 m) m selector.

Definition scope (namespace : string) (claims : list string) (selector : BTreeMap string) : string :=
  let m := matchers (extend_labels selector [("namespace", namespace)]) in
  match claims with
  | [] => m
  | _ => m +:+ "," +:+ CLAIM_LABEL +:+ "=~" +:+ quote (str_join "|" (map escape_dots claims))
  end.

Definition ratio_query (used total namespace : string) (claims : list string) (selector : BTreeMap string) : string :=
  let m := scope namespace claims selector in
  "100 * max by (" +:+ CLAIM_LABEL +:+ ") (" +:+ used +:+ "{" +:+ m +:+ "}) / max by (" +:+ CLAIM_LABEL +:+ ") (" +:+
  total +:+ "{" +:+ m +:+ "})".

Definition capacity_query (namespace : string) (claims : list string) (selector : BTreeMap string) : string :=
  "max by (" +:+ CLAIM_LABEL +:+ ") (kubelet_volume_stats_capacity_bytes{" +:+ scope namespace claims selector +:+ "})".

Definition storage_query : string -> list string -> BTreeMap string -> string :=
  ratio_query "kubelet_volume_stats_used_bytes" "kubelet_volume_stats_capacity_bytes".

Definition inodes_query : string -> list string -> BTreeMap string -> string :=
  ratio_query "kubelet_volume_stats_inodes_used" "kubelet_volume_stats_inodes".

(** ** Answers *)

(** The values by claim: the last finite sample that names it. *)
Definition by_claim (samples : list RecStore.Sample) : gmap string f64 :=
  foldl (fun m s =>
      if is_finite (RecStore.sample_value s) then
        match RecStore.labels s !! CLAIM_LABEL with Some c => <[c := RecStore.sample_value s]> m | None => m end
      else m) ∅ samples.

Record Wanted := mkWanted { w_storage : bool; w_inodes : bool; w_capacity : bool }.

(** [out.entry(claim).or_default()], then a field set, for every value. *)
Definition record_usage (set : f64 -> Usage -> Usage) (values : gmap string f64) (out : gmap string Usage)
    : gmap string Usage :=
  merge (fun v u => match v with Some v => Some (set v (default no_usage u)) | None => u end) values out.

Definition set_storage (v : f64) (u : Usage) : Usage := mkUsage (Some v) (u_inodes u) (u_capacity_bytes u).
Definition set_inodes (v : f64) (u : Usage) : Usage := mkUsage (u_storage u) (Some v) (u_capacity_bytes u).
Definition set_capacity (v : f64) (u : Usage) : Usage := mkUsage (u_storage u) (u_inodes u) (Some v).

(** One of the three queries, if it is wanted. *)
Definition query_usage (query : string -> result string (list RecStore.Sample)) (wanted : bool) (expr : string)
    (set : f64 -> Usage -> Usage) (out : gmap string Usage) : result string (gmap string Usage) :=
  if wanted then
    let? samples := query expr in
    Ok (record_usage set (by_claim samples) out)
  else Ok out.

Definition usage (query : string -> result string (list RecStore.Sample)) (namespace : string)
    (claims : list string) (selector : BTreeMap string) (wanted : Wanted) : result string (gmap string Usage) :=
  let? out := query_usage query (w_storage wanted) (storage_query namespace claims selector) set_storage ∅ in
  let? out := query_usage query (w_inodes wanted) (inodes_query namespace claims selector) set_inodes out in
  query_usage query (w_capacity wanted) (capacity_query namespace claims selector) set_capacity out.

(** ** Facts *)

Example query_texts :
  storage_query "default" ["data-web-0"; "a.b"] [("cluster", "prd")] =
    "100 * max by (persistentvolumeclaim) (kubelet_volume_stats_used_bytes{cluster=" +:+ quote "prd" +:+
    ",namespace=" +:+ quote "default" +:+ ",persistentvolumeclaim=~" +:+ quote "data-web-0|a\.b" +:+
    "}) / max by (persistentvolumeclaim) (kubelet_volume_stats_capacity_bytes{cluster=" +:+ quote "prd" +:+
    ",namespace=" +:+ quote "default" +:+ ",persistentvolumeclaim=~" +:+ quote "data-web-0|a\.b" +:+ "})".
Proof. reflexivity. Qed.

(** A value that is recorded is finite and was reported for that claim. *)
Lemma by_claim_reported samples c v :
  by_claim samples !! c = Some v ->
  exists s, s ∈ samples /\ RecStore.labels s !! CLAIM_LABEL = Some c /\ RecStore.sample_value s = v /\ is_finite v = true.
Proof.
  unfold by_claim.
  assert (G : forall m : gmap string f64, foldl (fun m s =>
      if is_finite (RecStore.sample_value s) then
        match RecStore.labels s !! CLAIM_LABEL with Some c => <[c := RecStore.sample_value s]> m | None => m end
      else m) m samples !! c = Some v ->
    m !! c = Some v \/ exists s, s ∈ samples /\ RecStore.labels s !! CLAIM_LABEL = Some c /\
      RecStore.sample_value s = v /\ is_finite v = true).
  { induction samples as [|s l IH]; cbn; intros m Hm; [by left|].
    apply IH in Hm as [Hm|(s' & Hs & H)]; [|right; exists s'; split; [by right|done]].
    destruct (is_finite (RecStore.sample_value s)) eqn:Ef; [|by left].
    destruct (RecStore.labels s !! CLAIM_LABEL) as [c'|] eqn:El; [|by left].
    apply lookup_insert_Some in Hm as [[<- <-]|[_ Hm]]; [right|by left].
    exists s. split_and!; [by left|done..]. }
  intros Hc. apply G in Hc as [Hc|Hc]; [|done]. by rewrite lookup_empty in Hc.
Qed.

Lemma lookup_record_usage set values out c :
  record_usage set values out !! c =
    match values !! c with Some v => Some (set v (default no_usage (out !! c))) | None => out !! c end.
Proof. unfold record_usage. rewrite lookup_merge. unfold diag_None. by destruct (values !! c), (out !! c). Qed.

Definition REASON_INVALID_SPEC : string := "InvalidSpec".
Definition REASON_GITOPS_DRIFT : string := "GitOpsDriftExpected".

#[export] Instance ClaimStatus_eq : EqDecision ClaimStatus.
Proof. solve_decision. Defined.
#[export] Instance ClaimAutoscalerStatus_eq : EqDecision PersistentVolumeClaimAutoscalerStatus.
Proof. solve_decision. Defined.

(** ** Services and events *)

(** [Context], without the interval, which only schedules the next reconcile. *)
Record ClaimContext := mkClaimContext {
  label_selector : BTreeMap string;
  ctx_dry_run : bool;
  has_events : bool;
}.

(** [ClaimApi] and [UsageSource]; the lists and the requests are given the
    namespace. *)
Record ClaimServices := mkClaimServices {
  list_claim_autoscalers : string -> result string (list PersistentVolumeClaimAutoscaler);
  list_claims : string -> result string (list PersistentVolumeClaim);
  list_stateful_sets : string -> result string (list StatefulSet);
  list_storage_classes : result string StorageClasses;
  query : string -> result string (list RecStore.Sample);
  resize_claim : string -> string -> Quantity -> result string unit;
  patch_claim_status : string -> string -> PersistentVolumeClaimAutoscalerStatus -> result string unit;
}.

Inductive EventTarget :=
  | ClaimTarget (namespace name uid : string)
  | ClaimAutoscalerTarget (namespace name uid : string).

Inductive ClaimEvent :=
  | ResizeRequested (namespace claim : string) (storage : Quantity)
  | StatusPatched (namespace autoscaler : string) (status : PersistentVolumeClaimAutoscalerStatus)
  | EventEmitted (target : EventTarget) (warning : bool) (reason message : string)
  | ObservedClaim (namespace claim autoscaler : string) (capacity : option f64) (storage inodes : option Z)
  | ObservedClaimSkip (namespace autoscaler reason : string)
  | ObservedClaimResize (namespace autoscaler : string) (success : bool)
  | ObservedClaimReconcile (namespace autoscaler : string) (failed : bool).

(** The events of a computation and its value, [None] where it panics. *)
Definition W (A : Type) : Type := list ClaimEvent * option A.

Definition wret {A} (x : A) : W A := ([], Some x).
Definition wbind {A B} (m : W A) (f : A -> W B) : W B :=
  match m with
  | (es, Some x) => let '(es', r) := f x in (es ++ es', r)
  | (es, None) => (es, None)
  end.
Definition tell (es : list ClaimEvent) : W unit := (es, Some tt).
Definition may_panic {A} (o : option A) : W A := ([], o).

Declare Scope claim_scope.
Delimit Scope claim_scope with claim.
Notation "'let*' x := m 'in' k" := (wbind m (fun x => k))
  (at level 10, x pattern, m at level 100, k at level 200,
   format "'[v' 'let*'  x  :=  m  'in' '/' k ']'") : claim_scope.
Open Scope claim_scope.

(** [metadata.namespace.unwrap_or_default()] and the like. *)
Definition pvca_namespace (p : PersistentVolumeClaimAutoscaler) : string :=
  default EmptyString (m_namespace (pvca_meta p)).
Definition pvca_name (p : PersistentVolumeClaimAutoscaler) : string := default EmptyString (m_name (pvca_meta p)).
Definition pvca_target (p : PersistentVolumeClaimAutoscaler) : EventTarget :=
  ClaimAutoscalerTarget (pvca_namespace p) (pvca_name p) (default EmptyString (m_uid (pvca_meta p))).

Section Reconcile.
Context (rfc3339 : Z -> string) (powi10 : Z -> f64) (ctx : ClaimContext) (svc : ClaimServices).

Definition event (target : EventTarget) (warning : bool) (reason message : string) : list ClaimEvent :=
  if has_events ctx then [EventEmitted target warning reason message] else [].

(** ** Overlaps *)

Definition set_intersection (a b : BTreeSet) : list string := List.filter (fun c => is_some (bt_get c b)) a.*1.

Definition add_shared (other : string) (shared : BTreeMap string) (c : string) : BTreeMap string :=
  bt_upsert (default other) c shared.

Definition overlap_of (me : PersistentVolumeClaimAutoscaler) (mine : BTreeSet) (claims : list string)
    (sets : list StatefulSet) (shared : BTreeMap string) (other : PersistentVolumeClaimAutoscaler) : BTreeMap string :=
  if bool_decide (m_name (pvca_meta other) = m_name (pvca_meta me)) then shared else
  match resolve (claim_target_ref (pvca_spec other)) claims sets with
  | Err _ => shared
  | Ok theirs => foldl (add_shared (pvca_name other)) shared (set_intersection mine theirs)
  end.

Definition overlaps (me : PersistentVolumeClaimAutoscaler) (mine : BTreeSet)
    (others : list PersistentVolumeClaimAutoscaler) (claims : list string) (sets : list StatefulSet)
    : BTreeMap string :=
  foldl (overlap_of me mine claims sets) [] others.

(** ** Statuses written without a decision *)

Definition halted (pvca : PersistentVolumeClaimAutoscaler) (entries : list ClaimStatus) (reason message : string)
    (now : Z) : PersistentVolumeClaimAutoscalerStatus :=
  refresh_claim_summary (pvca_spec pvca)
    (build_claims (pvca_status pvca) (pvca_generation pvca) entries (Some (mkClaimInactive reason message)) now).

Definition recorded_scale (c : ClaimStatus) : LastScale :=
  mkLastScale (option_map from_k8s_time (cs_last_scale_time c))
    (q ← cs_capacity_at_last_scale c;
     match quantity_bytes powi10 q with Ok b => Some b | Err _ => None end).

(** What the previous status recorded, by claim. *)
Definition recorded (pvca : PersistentVolumeClaimAutoscaler) : gmap string LastScale :=
  foldl (fun m c => <[cs_name c := recorded_scale c]> m) ∅ (from_option ps_claims [] (pvca_status pvca)).

Definition uniform (claims : list Claim) (recorded : gmap string LastScale) (reason message : string)
    : list ClaimStatus :=
  map (fun c =>
    claim_entry c (mkOutcome reason message None None None None None
                    (recorded !! c_name c ≫= l_capacity_bytes)) None) claims.

(** ** Resizing *)

Definition drift_warning (app namespace claim size : string) : string :=
  "Argo CD Application " +:+ app +:+ " tracks this claim and now sees spec.resources.requests.storage " +:+ size +:+
  " as drift. Unless it sets ignoreDifferences {kind: PersistentVolumeClaim, name: " +:+ claim +:+ ", namespace: " +:+
  namespace +:+ ", jsonPointers: [/spec/resources/requests/storage]}, a sync tries to shrink the claim and the API server rejects it".

Definition failed_resize (o : Outcome) (desired : Quantity) (err : string) : Outcome :=
  finish o REASON_FAILED_RESCALE ("resize to " +:+ desired +:+ " failed: " +:+ err).

(** The outcome after the request, and when it was accepted. *)
Definition apply_outcome (pvca : PersistentVolumeClaimAutoscaler) (c : Claim) (o : Outcome) (now : Z)
    : W (Outcome * option Z) :=
  let namespace := pvca_namespace pvca in
  let name := pvca_name pvca in
  if negb (outcome_resize o) then
    let* _ := tell [ObservedClaimSkip namespace name (o_reason o)] in
    wret (o, None)
  else
    let desired := gib_quantity (default 0 (o_desired_gib o)) in
    let* _ := tell [ResizeRequested namespace (c_name c) desired] in
    match resize_claim svc namespace (c_name c) desired with
    | Ok _ =>
        let* _ := tell [ObservedClaimResize namespace name true] in
        let me := ClaimTarget namespace (c_name c) (c_uid c) in
        let* _ := tell (event me false (o_reason o) (o_message o)) in
        let* _ := tell (event (pvca_target pvca) false (o_reason o) (c_name c +:+ ": " +:+ o_message o)) in
        let* _ := tell match c_tracked_by c with
                       | Some app =>
                           let drift := drift_warning app namespace (c_name c) desired in
                           event me true REASON_GITOPS_DRIFT drift ++
                           event (pvca_target pvca) true REASON_GITOPS_DRIFT (c_name c +:+ ": " +:+ drift)
                       | None => []
                       end in
        wret (o, Some now)
    | Err err =>
        let* _ := tell [ObservedClaimResize namespace name false] in
        let o := failed_resize o desired err in
        let* _ := tell (event (pvca_target pvca) true REASON_FAILED_RESCALE (c_name c +:+ ": " +:+ o_message o)) in
        wret (o, None)
    end.

(** One claim of [decide_claims]. *)
Definition decide_one (pvca : PersistentVolumeClaimAutoscaler) (eff : ClaimEffective) (usage : gmap string Usage)
    (now : Z) (c : Claim) : W ClaimStatus :=
  let u := default no_usage (usage !! c_name c) in
  let last := default no_last_scale (recorded pvca !! c_name c) in
  let* o := may_panic (decide_claim rfc3339 eff c u last (ctx_dry_run ctx) now) in
  let* (o, scaled_at) := apply_outcome pvca c o now in
  let* _ := tell [ObservedClaim (pvca_namespace pvca) (c_name c) (pvca_name pvca) (capacity_bytes c)
                    (o_storage o) (o_inodes o)] in
  wret (claim_entry c o scaled_at).

Fixpoint decide_claims (pvca : PersistentVolumeClaimAutoscaler) (eff : ClaimEffective) (usage : gmap string Usage)
    (now : Z) (claims : list Claim) : W (list ClaimStatus) :=
  match claims with
  | [] => wret []
  | c :: claims =>
      let* e := decide_one pvca eff usage now c in
      let* es := decide_claims pvca eff usage now claims in
      wret (e :: es)
  end.

(** ** Blocked classes *)

Definition was_blocked (pvca : PersistentVolumeClaimAutoscaler) : bool :=
  match condition (from_option ps_conditions [] (pvca_status pvca)) CONDITION_ABLE_TO_SCALE with
  | Some c => String.eqb (c_reason c) REASON_EXPANSION_NOT_ALLOWED
  | None => false
  end.

Definition block_unexpandable (pvca : PersistentVolumeClaimAutoscaler) (s : PersistentVolumeClaimAutoscalerStatus)
    (blockers : list string) (now : Z) : W PersistentVolumeClaimAutoscalerStatus :=
  match blockers with
  | [] => wret s
  | _ =>
      let* _ := tell (if was_blocked pvca then []
                      else event (pvca_target pvca) true REASON_EXPANSION_NOT_ALLOWED (str_join "; " blockers)) in
      wret (block_expansion s blockers (pvca_generation pvca) now)
  end.

(** ** The reconcile *)

(** The targets among the listed claims. *)
Definition target_claims (objects : list PersistentVolumeClaim) (targets : BTreeSet) (classes : StorageClasses)
    : list Claim :=
  map (fun p => claim powi10 p classes)
    (List.filter (fun p => from_option (fun n => is_some (bt_get n targets)) false (m_name (pvc_meta p))) objects).

(** A claim two autoscalers target. *)
Definition shared_text (shared : BTreeMap string) : string :=
  "claims also targeted by another autoscaler: " +:+
  str_join ", " (map (fun co => co.1 +:+ " (" +:+ co.2 +:+ ")") shared).

Definition wanted_of (eff : ClaimEffective) : Wanted :=
  mkWanted (is_some (storage_target eff)) (is_some (inodes_target eff))
    (is_some (storage_target eff) || is_some (inodes_target eff)).

(** From the decisions to the status. *)
Definition decided (pvca : PersistentVolumeClaimAutoscaler) (eff : ClaimEffective) (usage : gmap string Usage)
    (claims : list Claim) (blockers : list string) (now : Z) : W PersistentVolumeClaimAutoscalerStatus :=
  let* entries := decide_claims pvca eff usage now claims in
  let inactive :=
    if paused eff then
      Some (mkClaimInactive REASON_SCALING_DISABLED "behavior.scaleUp.selectPolicy is Disabled")
    else None in
  let s := build_claims (pvca_status pvca) (pvca_generation pvca) entries inactive now in
  let* s := block_unexpandable pvca s blockers now in
  wret (refresh_claim_summary (pvca_spec pvca) s).

Definition evaluate (pvca : PersistentVolumeClaimAutoscaler) (now : Z)
    : W (result string PersistentVolumeClaimAutoscalerStatus) :=
  let namespace := pvca_namespace pvca in
  match compile_claim powi10 pvca with
  | Err err => wret (Ok (halted pvca [] REASON_INVALID_SPEC err now))
  | Ok eff =>
      let read :=
        let? objects := list_claims svc namespace in
        let? sets := list_stateful_sets svc namespace in
        let? classes := list_storage_classes svc in
        let? autoscalers := list_claim_autoscalers svc namespace in
        Ok (objects, sets, classes, autoscalers) in
      match read with
      | Err err => wret (Err err)
      | Ok (objects, sets, classes, autoscalers) =>
          let names := omap (fun p => m_name (pvc_meta p)) objects in
          match resolve (claim_target_ref (pvca_spec pvca)) names sets with
          | Err err => wret (Ok (halted pvca [] REASON_FAILED_GET_SCALE err now))
          | Ok targets =>
              let claims := target_claims objects targets classes in
              let blockers := expansion_blockers (claim_target_ref (pvca_spec pvca)) sets claims classes in
              let shared := overlaps pvca targets autoscalers names sets in
              match shared with
              | _ :: _ =>
                  let message := shared_text shared in
                  wret (Ok (halted pvca (uniform claims (recorded pvca) REASON_AMBIGUOUS message)
                              REASON_AMBIGUOUS message now))
              | [] =>
                  match usage (query svc) namespace (map c_name claims) (label_selector ctx) (wanted_of eff) with
                  | Err err =>
                      let message := "metrics query failed: " +:+ err in
                      wret (Ok (halted pvca (uniform claims (recorded pvca) REASON_FAILED_METRIC message)
                                  REASON_FAILED_METRIC message now))
                  | Ok usage =>
                      let* s := decided pvca eff usage claims blockers now in
                      wret (Ok s)
                  end
              end
          end
      end
  end.

(** The error of a reconcile, [ReconcileError::Api], is its text. *)
Definition reconcile_claim (pvca : PersistentVolumeClaimAutoscaler) (now : Z) : W (result string unit) :=
  let namespace := pvca_namespace pvca in
  let name := pvca_name pvca in
  let* r := evaluate pvca now in
  let* _ := tell [ObservedClaimReconcile namespace name (negb (is_ok r))] in
  match r with
  | Err e => wret (Err e)
  | Ok next =>
      if bool_decide (pvca_status pvca = Some next) then wret (Ok tt)
      else
        let* _ := tell [StatusPatched namespace name next] in
        wret (patch_claim_status svc namespace name next)
  end.
End Reconcile.

(** The merge patch of [patch_status] on the stored status: what is left out of
    the request stays. *)
Definition claim_merge_patch (stored : option PersistentVolumeClaimAutoscalerStatus)
    (new : PersistentVolumeClaimAutoscalerStatus) : PersistentVolumeClaimAutoscalerStatus :=
  match stored with
  | None => new
  | Some old =>
      let text (o n : string) := if str_is_empty n then o else n in
      let opt {A} (o n : option A) := match n with Some x => Some x | None => o end in
      let items {A} (o n : list A) := match n with [] => o | _ => n end in
      mkPvcaStatus (text (ps_target old) (ps_target new)) (text (ps_utilization old) (ps_utilization new))
        (text (ps_reason old) (ps_reason new)) (text (ps_cooldown_duration old) (ps_cooldown_duration new))
        (opt (ps_observed_generation old) (ps_observed_generation new))
        (opt (ps_last_scale_time old) (ps_last_scale_time new)) (ps_current_volumes new)
        (items (ps_claims old) (ps_claims new)) (items (ps_conditions old) (ps_conditions new))
  end.
