(* ===== verification/ClaimSafety.v ===== *)
(** * What a reconcile of a claim autoscaler may resize (volume-autoscaler:
    autoscaler/persistent_volume_claim)

    A reconcile resizes a claim only when the target selects it alone, the claim
    can grow and needs to; what it records keeps the resizes of a claim apart;
    and the watch caches keep everything it reads. *)

From Corelib Require Import SpecFloat.
From stdpp Require Import prelude list strings pretty gmap sorting relations.
From Stdlib Require Import ZArith Lia Ascii.
From S2P Require Import Prelude.
From S2P Require Import Strings.
From S2P Require Import BTree.
From S2P Require Import F64.
From S2P Require Import Autoscaler.
From S2P Require Import VolumePolicy.
From S2P Require RecStore.
From S2P Require Import Claims.
From S2P Require Import ClaimPolicy.
From S2P Require Import ClaimReconcile.
From S2P Require Keys.

(** ** A decision to grow *)

(** What entitles an autoscaler to grow claim [c] to [desired] GiB. *)
Record growth_entitled (eff : ClaimEffective) (c : Claim) (u : Usage) (last : LastScale) (now desired : Z) : Prop := {
  ge_bound : bound c = true;
  ge_expandable : expandable c = Some true;
  ge_idle : c_resizing c = None;
  ge_fresh : stale last u = None;
  ge_crossed : exists target value,
    ((storage_target eff = Some target /\ u_storage u = Some value) \/
     (inodes_target eff = Some target /\ u_inodes u = Some value)) /\ target <= percent value;
  ge_active : paused eff = false;
  ge_rested : forall l, at_ last = Some l -> l + delta_from_secs (cooldown eff) <= now;
  ge_capacity : exists b, capacity_bytes c = Some b /\ gib_of b < desired <= max_capacity_gib eff;
}.

Lemma gib_of_i32 b : is_i32 (gib_of b).
Proof. apply f64_as_i32_range. Qed.

Lemma crossing_elem name target value l :
  l ∈ crossing name target value -> exists t v, target = Some t /\ value = Some v /\ t <= v.
Proof.
  unfold crossing. destruct target as [t|], value as [v|]; try by intros ?%not_elem_of_nil.
  destruct (t <=? v) eqn:E; [|by intros ?%not_elem_of_nil]. intros _. exists t, v. split_and!; [done..|lia].
Qed.

Section Decide.
Context (rfc3339 : Z -> string).

Lemma decide_growth_resize eff u last dry_run now current crossed out o :
  decide_growth rfc3339 eff u last dry_run now current crossed out = Some o -> outcome_resize o = true ->
  is_i32 current -> max_capacity_gib eff <= i32_max ->
  dry_run = false /\ paused eff = false /\ o_capacity_at_last_scale o = u_capacity_bytes u /\
  (forall l, at_ last = Some l -> l + delta_from_secs (cooldown eff) <= now) /\
  exists desired, o_desired_gib o = Some desired /\ current < desired <= max_capacity_gib eff.
Proof.
  intros Hd Ho Hi Hm. unfold decide_growth in Hd. destruct (paused eff) eqn:Ep; [by injection Hd as <-|].
  set (grow := if max_capacity_gib eff <=? current then _ else _) in Hd.
  assert (Hgrow : grow = o -> dry_run = false /\ o_capacity_at_last_scale o = u_capacity_bytes u /\
    exists desired, o_desired_gib o = Some desired /\ current < desired <= max_capacity_gib eff).
  { subst grow. intros <-. destruct (Z.leb_spec (max_capacity_gib eff) current); [done|].
    destruct dry_run; [done|]. split_and!; [done..|]. cbn. eexists. split; [done|].
    destruct (step_up_grows current (steps eff) (select_min eff) Hi) as (_ & _ & Hs). lia. }
  destruct (at_ last) as [l|]; [|injection Hd as Hd; apply Hgrow in Hd as (? & ? & ?); by split_and!].
  unfold time_add in Hd. destruct (l + _ <=? _) eqn:El; cbn in Hd; [|discriminate Hd].
  destruct (Z.ltb_spec now (l + delta_from_secs (cooldown eff))); injection Hd as Hd; [by subst o|].
  apply Hgrow in Hd as (? & ? & ?). split_and!; try done. intros l' [= <-]. lia.
Qed.

(** A decision to resize grows a claim that is bound, expandable and idle, whose
    measured target is crossed, after its cooldown and within the limit. *)
Lemma decide_claim_resize eff c u last dry_run now o :
  decide_claim rfc3339 eff c u last dry_run now = Some o -> outcome_resize o = true ->
  max_capacity_gib eff <= i32_max ->
  dry_run = false /\ o_capacity_at_last_scale o = u_capacity_bytes u /\
  exists desired, o_desired_gib o = Some desired /\ growth_entitled eff c u last now desired.
Proof.
  intros Hd Ho Hm. unfold decide_claim in Hd.
  destruct (bound c) eqn:Eb; cbn in Hd; [|by injection Hd as <-].
  destruct (capacity_bytes c) as [b|] eqn:Ec; cbn in Hd; [|by injection Hd as <-].
  destruct (bool_decide_reflect (expandable c = Some true)) as [Ee|]; cbn in Hd; [|by injection Hd as <-].
  destruct (c_resizing c) eqn:Er; [by injection Hd as <-|].
  destruct (stale last u) eqn:Es; [by injection Hd as <-|].
  destruct (measured eff u); cbn in Hd; [|by injection Hd as <-].
  set (out := if _ && _ then _ else _) in Hd.
  assert (Hout : o_storage out = option_map percent (u_storage u) /\ o_inodes out = option_map percent (u_inodes u))
    by (subst out; by destruct (_ && _)).
  clearbody out. destruct Hout as [Hs Hi]. rewrite Hs, Hi in Hd.
  destruct (_ ++ _) as [|x xs] eqn:El in Hd; [by injection Hd as <-|].
  apply decide_growth_resize in Hd as (? & ? & ? & Hrest & desired & ? & ?); [|done|apply gib_of_i32|done].
  split_and!; [done..|]. exists desired. split; [done|]. split; try done; [|by exists b].
  assert (Hx : x ∈ x :: xs) by left. rewrite <- El in Hx. apply elem_of_app in Hx as [Hx|Hx];
    apply crossing_elem in Hx as (t & v & Ht & Hv & Hle).
  - destruct (u_storage u) as [w|] eqn:Eu; [|done]. injection Hv as <-. exists t, w. by auto.
  - destruct (u_inodes u) as [w|] eqn:Eu; [|done]. injection Hv as <-. exists t, w. by auto.
Qed.

(** A decision that does not panic: the end of the cooldown is a date. *)
Lemma decide_claim_total eff c u last dry_run now :
  (forall l, at_ last = Some l -> l + delta_from_secs (cooldown eff) <= chrono_max) ->
  is_Some (decide_claim rfc3339 eff c u last dry_run now).
Proof.
  intros Hl. unfold decide_claim. destruct (negb (bound c)); [done|].
  destruct (option_map gib_of _); [|done]. destruct (negb _); [done|]. destruct (c_resizing c); [done|].
  destruct (stale last u); [done|]. destruct (negb _); [done|]. destruct (_ ++ _); [done|].
  unfold decide_growth. destruct (paused eff); [done|]. destruct (at_ last) as [t|]; [|done].
  unfold time_add. rewrite (proj2 (Z.leb_le _ _) (Hl t eq_refl)). cbn. by destruct (now <? _).
Qed.
End Decide.

Lemma compile_claim_max powi10 pvca eff : compile_claim powi10 pvca = Ok eff -> max_capacity_gib eff <= i32_max.
Proof.
  unfold compile_claim. destruct (2 <? _); [done|]. destruct (check_metrics _ _); cbn; [|done].
  destruct (quantity_bytes _ _); cbn; [|done]. destruct (f64_lt _ _); [done|].
  destruct (claim_cooldown _); cbn; [|done]. destruct (compile_steps _); cbn; [|done]. intros [= <-]. cbn.
  apply f64_as_i32_range.
Qed.

(** ** Overlaps *)

Lemma resolve_sorted target claims sets s : resolve target claims sets = Ok s -> bt_sorted s.
Proof.
  unfold resolve. destruct (claim_kind target).
  - destruct (find_stateful_set _ _) as [sts|]; [|done]. intros [= <-]. apply set_extend_spec. by constructor.
  - destruct (existsb _ _); [|done]. intros [= <-]. apply bt_upsert_sorted. by constructor.
Qed.

Lemma set_intersection_elem a b x :
  bt_sorted b -> x ∈ set_intersection a b <-> x ∈ a.*1 /\ x ∈ b.*1.
Proof.
  intros Hb. unfold set_intersection. rewrite !list_elem_of_In, List.filter_In, <- !list_elem_of_In, is_some_spec.
  by rewrite (bt_get_key x b Hb).
Qed.

Lemma add_shared_keys o cs shared x : x ∈ (foldl (add_shared o) shared cs).*1 <-> x ∈ cs \/ x ∈ shared.*1.
Proof.
  revert shared. induction cs as [|c cs IH]; cbn; intros shared.
  - split; [by right|]. intros [?%not_elem_of_nil|]; done.
  - rewrite IH. unfold add_shared. rewrite bt_upsert_key, elem_of_cons. by intuition.
Qed.

(** [other] is another autoscaler, whose target has [x]. *)
Definition also_targets (me : PersistentVolumeClaimAutoscaler) (claims : list string) (sets : list StatefulSet)
    (x : string) (other : PersistentVolumeClaimAutoscaler) : Prop :=
  m_name (pvca_meta other) <> m_name (pvca_meta me) /\
  exists theirs, resolve (claim_target_ref (pvca_spec other)) claims sets = Ok theirs /\ x ∈ theirs.*1.

Lemma overlap_of_keys me mine claims sets shared other x :
  x ∈ (overlap_of me mine claims sets shared other).*1 <->
  x ∈ shared.*1 \/ (x ∈ mine.*1 /\ also_targets me claims sets x other).
Proof.
  unfold overlap_of, also_targets. case_bool_decide as Hn; [by split; [left|intros [|(_ & ? & _)]]|].
  destruct (resolve _ _ _) as [theirs|e] eqn:E.
  - rewrite add_shared_keys, set_intersection_elem by (by eapply resolve_sorted). split.
    + intros [[? ?]|?]; [right|by left]. split_and!; [done..|]. by exists theirs.
    + intros [?|(? & _ & ? & [= <-] & ?)]; [by right|by left].
  - split; [by left|]. by intros [?|(_ & _ & ? & ? & _)].
Qed.

(** The claims of [mine] another autoscaler targets are the ones found. *)
Lemma overlaps_keys me mine others claims sets x :
  x ∈ (overlaps me mine others claims sets).*1 <->
  x ∈ mine.*1 /\ Exists (also_targets me claims sets x) others.
Proof.
  unfold overlaps.
  assert (G : forall shared, x ∈ (foldl (overlap_of me mine claims sets) shared others).*1 <->
    x ∈ shared.*1 \/ (x ∈ mine.*1 /\ Exists (also_targets me claims sets x) others)).
  { induction others as [|other l IH]; cbn; intros shared.
    - rewrite Exists_nil. by intuition.
    - rewrite IH, overlap_of_keys, Exists_cons. clear IH. by intuition. }
  rewrite G. split; [|by right]. intros [?%not_elem_of_nil|]; done.
Qed.

(** ** What a computation requests *)

(** A resize that [P] allows; the other call that changes something, the patch
    of the status, is not allowed. *)
Definition call_ok (P : string -> string -> Quantity -> Prop) (e : ClaimEvent) : Prop :=
  match e with
  | ResizeRequested ns x q => P ns x q
  | StatusPatched _ _ _ => False
  | _ => True
  end.

Definition asks {A} (P : string -> string -> Quantity -> Prop) (m : W A) : Prop := Forall (call_ok P) m.1.

Definition is_call (e : ClaimEvent) : bool :=
  match e with ResizeRequested _ _ _ | StatusPatched _ _ _ => true | _ => false end.

Definition is_resize (e : ClaimEvent) : bool := match e with ResizeRequested _ _ _ => true | _ => false end.

Section Asks.
Context (P : string -> string -> Quantity -> Prop).

Lemma asks_silent {A} (m : W A) : forallb (fun e => negb (is_call e)) m.1 = true -> asks P m.
Proof.
  rewrite forallb_forall. intros H. apply Forall_forall. intros e Hin%list_elem_of_In. apply H in Hin.
  by destruct e.
Qed.

Lemma asks_bind {A B} (m : W A) (f : A -> W B) :
  asks P m -> (forall x, m.2 = Some x -> asks P (f x)) -> asks P (wbind m f).
Proof.
  destruct m as [es [x|]]; cbn; intros Hm Hf; [|done]. specialize (Hf x eq_refl). destruct (f x) as [es' r].
  apply Forall_app. by split.
Qed.

Lemma asks_request {A} (m : W A) ns x q : asks P m -> ResizeRequested ns x q ∈ m.1 -> P ns x q.
Proof. intros Hm Hin. unfold asks in Hm. rewrite Forall_forall in Hm. by apply Hm in Hin. Qed.
End Asks.

Section Reconcile.
Context (rfc3339 : Z -> string) (powi10 : Z -> f64) (ctx : ClaimContext) (svc : ClaimServices).

Lemma event_silent target warning reason message :
  forallb (fun e => negb (is_call e)) (event ctx target warning reason message) = true.
Proof. unfold event. by destruct (has_events ctx). Qed.

Lemma asks_apply pvca c o now P :
  (outcome_resize o = true -> P (pvca_namespace pvca) (c_name c) (gib_quantity (default 0 (o_desired_gib o)))) ->
  asks P (apply_outcome ctx svc pvca c o now).
Proof.
  intros Ho. unfold apply_outcome. destruct (outcome_resize o); cbn [negb]; [|by apply asks_silent].
  apply asks_bind. { apply Forall_singleton. by apply Ho. }
  intros _ _. apply asks_silent. destruct (resize_claim _ _ _ _); cbn; rewrite ?forallb_app, ?event_silent; [|done].
  destruct (c_tracked_by c); cbn; by rewrite ?forallb_app, ?event_silent.
Qed.

(** What entitles the autoscaler to ask for claim [x] at size [q]. *)
Definition resize_entitled (pvca : PersistentVolumeClaimAutoscaler) (now : Z) (ns x : string) (q : Quantity) : Prop :=
  ns = pvca_namespace pvca /\ ctx_dry_run ctx = false /\
  exists eff objects sets classes autoscalers targets p measured desired,
    compile_claim powi10 pvca = Ok eff /\
    list_claims svc ns = Ok objects /\ list_stateful_sets svc ns = Ok sets /\
    list_storage_classes svc = Ok classes /\ list_claim_autoscalers svc ns = Ok autoscalers /\
    let names := omap (fun p => m_name (pvc_meta p)) objects in
    resolve (claim_target_ref (pvca_spec pvca)) names sets = Ok targets /\
    p ∈ objects /\ m_name (pvc_meta p) = Some x /\ x ∈ targets.*1 /\
    Forall (fun other => ~ also_targets pvca names sets x other) autoscalers /\
    usage (query svc) ns (map c_name (target_claims powi10 objects targets classes)) (label_selector ctx)
      (wanted_of eff) = Ok measured /\
    q = gib_quantity desired /\
    growth_entitled eff (claim powi10 p classes) (default no_usage (measured !! x))
      (default no_last_scale (recorded powi10 pvca !! x)) now desired.

Lemma asks_decide_claims pvca eff measured now claims (P : string -> string -> Quantity -> Prop) :
  max_capacity_gib eff <= i32_max ->
  (forall c desired, c ∈ claims -> ctx_dry_run ctx = false ->
    growth_entitled eff c (default no_usage (measured !! c_name c))
      (default no_last_scale (recorded powi10 pvca !! c_name c)) now desired ->
    P (pvca_namespace pvca) (c_name c) (gib_quantity desired)) ->
  asks P (decide_claims rfc3339 powi10 ctx svc pvca eff measured now claims).
Proof.
  intros Hm. induction claims as [|c claims IH]; intros HP; cbn [decide_claims]; [by apply asks_silent|].
  apply asks_bind; [|intros e _; apply asks_bind; [|by intros; apply asks_silent]].
  - unfold decide_one. apply asks_bind; [by apply asks_silent|]. intros o Ho. cbn in Ho.
    apply asks_bind; [|intros [o' at_] _; by apply asks_silent]. apply asks_apply. intros Hr.
    eapply decide_claim_resize in Ho as (Hd & _ & desired & -> & Hg); [|done..]. cbn. apply HP; [by left|done..].
  - apply IH. intros c' desired Hc. apply HP. by right.
Qed.

Lemma target_claims_elem objects targets classes c :
  bt_sorted targets -> c ∈ target_claims powi10 objects targets classes ->
  exists p, p ∈ objects /\ c = claim powi10 p classes /\ m_name (pvc_meta p) = Some (c_name c) /\ c_name c ∈ targets.*1.
Proof.
  intros Ht. unfold target_claims. intros (p & -> & Hp)%list_elem_of_fmap.
  apply list_elem_of_In, List.filter_In in Hp as [Hp Hn]. apply list_elem_of_In in Hp.
  destruct (m_name (pvc_meta p)) as [n|] eqn:En; [|done]. cbn in Hn.
  apply is_some_spec, (bt_get_key n targets Ht) in Hn. exists p. cbn. rewrite En. by split_and!.
Qed.

(** An evaluation asks for the resizes it is entitled to and writes nothing. *)
Lemma asks_evaluate pvca now :
  asks (resize_entitled pvca now) (evaluate rfc3339 powi10 ctx svc pvca now).
Proof.
  unfold evaluate. destruct (compile_claim powi10 pvca) as [eff|e] eqn:Ec; [|by apply asks_silent].
  destruct (list_claims svc _) as [objects|e] eqn:Eo; cbn beta iota; [|by apply asks_silent].
  destruct (list_stateful_sets svc _) as [sets|e] eqn:Es; [|by apply asks_silent].
  destruct (list_storage_classes svc) as [classes|e] eqn:El; [|by apply asks_silent].
  destruct (list_claim_autoscalers svc _) as [autoscalers|e] eqn:Ea; [|by apply asks_silent].
  destruct (resolve _ _ _) as [targets|e] eqn:Et; [|by apply asks_silent].
  destruct (overlaps _ _ _ _ _) as [|s ss] eqn:Eov; [|by apply asks_silent].
  destruct (usage _ _ _ _ _) as [measured|e] eqn:Eu; [|by apply asks_silent].
  apply asks_bind; [|by intros; apply asks_silent]. unfold decided. apply asks_bind.
  2: { intros es _. apply asks_silent. destruct (expansion_blockers _ _ _ _); cbn; [done|].
       destruct (was_blocked pvca); cbn; by rewrite ?app_nil_r, ?event_silent. }
  apply asks_decide_claims; [by eapply compile_claim_max|]. intros c desired Hc Hd Hg.
  apply target_claims_elem in Hc as (p & Hp & -> & Hn & Hx); [|by eapply resolve_sorted].
  split; [done|]. split; [done|]. exists eff, objects, sets, classes, autoscalers, targets, p, measured, desired.
  cbn zeta. split_and!; try done. apply Forall_forall. intros other Ho Hother.
  assert (Hov : c_name (claim powi10 p classes) ∈ (overlaps pvca targets autoscalers _ sets).*1)
    by (apply overlaps_keys; split; [done|]; apply Exists_exists; by exists other).
  rewrite Eov in Hov. by apply not_elem_of_nil in Hov.
Qed.

Lemma resizes_entitled_by pvca now ns x q :
  ResizeRequested ns x q ∈ (reconcile_claim rfc3339 powi10 ctx svc pvca now).1 ->
  resize_entitled pvca now ns x q.
Proof.
  unfold reconcile_claim. pose proof (asks_evaluate pvca now) as Ha.
  destruct (evaluate _ _ _ _ pvca now) as [es [r|]]; cbn [wbind fst]; [|by apply (asks_request _ _ _ _ _ Ha)].
  intros Hin. apply (asks_request _ _ _ _ _ Ha). cbn. clear Ha.
  assert (Htail : exists tail, forallb (fun e => negb (is_resize e)) tail = true /\ ResizeRequested ns x q ∈ es ++ tail).
  { destruct r as [next|e]; cbn in Hin; [case_bool_decide; cbn in Hin|]; by eexists; split; [|exact Hin]. }
  destruct Htail as (tail & Ht & [Hes|Htl%list_elem_of_In]%elem_of_app); [done|].
  rewrite forallb_forall in Ht. by apply Ht in Htl.
Qed.

(** C18: Every resize a reconcile asks for is one the autoscaler is entitled to:
    the claim is listed, its target selects it and no other autoscaler of the
    namespace does; the claim is bound, of an expandable class and not being
    resized; a target is crossed by a measurement that is not stale; the
    autoscaler is neither paused nor in a dry run; the cooldown since the
    recorded resize is over; and the size asked for is above the capacity and
    at most the maximum. *)
Theorem resizes_entitled pvca now ns x q :
  ResizeRequested ns x q ∈ (reconcile_claim rfc3339 powi10 ctx svc pvca now).1 ->
  resize_entitled pvca now ns x q.
Proof. apply resizes_entitled_by. Qed.
End Reconcile.

(** ** The watch caches of the claim autoscaler (volume-autoscaler:
    autoscaler/persistent_volume_claim/cache.rs, api.rs)

    The caches keep objects cut down to the fields a reconcile reads: a reconcile
    over them is the one over the whole objects. *)

(** The objects of a cluster a reconcile reads. *)
Record Cluster := mkCluster {
  cl_claims : list PersistentVolumeClaim;
  cl_sets : list StatefulSet;
  cl_classes : list StorageClass;
  cl_autoscalers : list PersistentVolumeClaimAutoscaler;
}.

(** The reads of [KubeClaims], from the objects of its stores. *)
Definition served (cl : Cluster) (svc : ClaimServices) : ClaimServices :=
  mkClaimServices
    (fun ns => Ok (in_namespace pvca_meta (cl_autoscalers cl) ns))
    (fun ns => Ok (in_namespace pvc_meta (cl_claims cl) ns))
    (fun ns => Ok (in_namespace sts_meta (cl_sets cl) ns))
    (Ok (storage_classes (cl_classes cl)))
    (query svc) (resize_claim svc) (patch_claim_status svc).

(** What the stores hold of it. *)
Definition stripped (cl : Cluster) : Cluster :=
  mkCluster (map strip_claim (cl_claims cl)) (map strip_stateful_set (cl_sets cl))
    (map strip_class (cl_classes cl)) (map strip_autoscaler (cl_autoscalers cl)).

(** ** What stripping keeps *)

Lemma in_namespace_map {A} (meta : A -> ObjectMeta) (f : A -> A) (l : list A) ns :
  (forall x, m_namespace (meta (f x)) = m_namespace (meta x)) ->
  in_namespace meta (map f l) ns = map f (in_namespace meta l ns).
Proof.
  intros Hf. unfold in_namespace. induction l as [|x l IH]; cbn; [done|]. rewrite Hf, IH.
  by destruct (bool_decide _).
Qed.

Lemma find_map {A} (f : A -> A) (p : A -> bool) (l : list A) :
  (forall x, p (f x) = p x) -> List.find p (map f l) = option_map f (List.find p l).
Proof. intros Hp. induction l as [|x l IH]; cbn; [done|]. rewrite Hp, IH. by destruct (p x). Qed.

Lemma bt_get_single {V} k (v : V) : bt_get k [(k, v)] = Some v.
Proof. cbn. by rewrite (proj2 (str_compare_eq k k) eq_refl). Qed.

(** The application that is kept is read back. *)
Lemma tracking_app_again id app : tracking_app id = Some app -> tracking_app app = Some app.
Proof.
  unfold tracking_app. destruct (split_on ":" id) as [|a l]; [done|]. destruct (valid_app a) eqn:Ev; [|done].
  intros [= ->]. rewrite split_on_none; [by rewrite Ev|].
  unfold valid_app in Ev. rewrite !andb_true_iff in Ev. destruct Ev as [[[_ Ha] _] _].
  eapply Keys.str_all_impl; [|exact Ha]. intros c Hc. destruct (Ascii.eqb_spec c ":"); [by subst c|done].
Qed.

Lemma strip_tracked p : tracked_by_ (strip_claim p) = tracked_by_ p.
Proof.
  unfold tracked_by_ at 1. unfold strip_claim, with_annotations, identity. cbn [pvc_meta m_annotations].
  destruct (tracked_by_ p) as [app|] eqn:E; [|done]. cbn [option_map mbind option_bind]. rewrite bt_get_single. cbn.
  unfold tracked_by_ in E. apply bind_Some in E as (a & _ & (id & _ & E)%bind_Some). by eapply tracking_app_again.
Qed.

Lemma strip_claim_same powi10 classes p : claim powi10 (strip_claim p) classes = claim powi10 p classes.
Proof. unfold claim. rewrite strip_tracked. done. Qed.

Lemma strip_templates s : mjoin (sts_spec (strip_stateful_set s)) = mjoin (sts_spec s).
Proof. done. Qed.

Lemma strip_class_default s : is_default_class (strip_class s) = is_default_class s.
Proof.
  unfold is_default_class, strip_class, with_annotations. cbn [sc_meta m_annotations].
  destruct (m_annotations (sc_meta s)) as [a|]; [|done]. cbn.
  destruct (bt_get DEFAULT_CLASS_ANNOTATION a) as [v|]; [|done]. cbn [option_bind mbind]. by rewrite bt_get_single.
Qed.

Lemma strip_classes l : storage_classes (map strip_class l) = storage_classes l.
Proof.
  unfold storage_classes. generalize (mkClasses [] None). induction l as [|s l IH]; intros out; cbn; [done|].
  rewrite IH. f_equal. unfold add_class. by rewrite strip_class_default.
Qed.

Lemma strip_find name sets :
  find_stateful_set name (map strip_stateful_set sets) = option_map strip_stateful_set (find_stateful_set name sets).
Proof. by apply find_map. Qed.

Lemma strip_resolve target claims sets :
  resolve target claims (map strip_stateful_set sets) = resolve target claims sets.
Proof. unfold resolve. destruct (claim_kind target); [|done]. rewrite strip_find. by destruct (find_stateful_set _ _). Qed.

Lemma strip_blockers target sets claims classes :
  expansion_blockers target (map strip_stateful_set sets) claims classes = expansion_blockers target sets claims classes.
Proof.
  unfold expansion_blockers. destruct (decide _); [|done]. rewrite strip_find. by destruct (find_stateful_set _ _).
Qed.

Lemma strip_overlaps me mine others claims sets :
  overlaps me mine (map strip_autoscaler others) claims (map strip_stateful_set sets) = overlaps me mine others claims sets.
Proof.
  unfold overlaps. generalize ([] : BTreeMap string). induction others as [|o l IH]; intros shared; cbn; [done|].
  rewrite IH. f_equal. unfold overlap_of. cbn. by rewrite strip_resolve.
Qed.

Lemma strip_targets powi10 objects targets classes :
  target_claims powi10 (map strip_claim objects) targets classes = target_claims powi10 objects targets classes.
Proof.
  unfold target_claims. induction objects as [|p l IH]; cbn; [done|].
  destruct (from_option _ _ _); cbn; [|done]. by rewrite strip_claim_same, IH.
Qed.

Lemma strip_names objects :
  omap (fun p => m_name (pvc_meta p)) (map strip_claim objects) = omap (fun p => m_name (pvc_meta p)) objects.
Proof. induction objects as [|p l IH]; cbn; [done|]. by destruct (m_name (pvc_meta p)); rewrite IH. Qed.

Section Reconcile.
Context (rfc3339 : Z -> string) (powi10 : Z -> f64) (ctx : ClaimContext) (svc : ClaimServices).

(** The caches lose nothing: a reconcile that reads the cut down objects of
    the stores asks for the same resizes, reports the same and writes the same
    status as one that reads the objects of the API server. *)
Theorem caches_suffice cl pvca now :
  reconcile_claim rfc3339 powi10 ctx (served (stripped cl) svc) pvca now =
  reconcile_claim rfc3339 powi10 ctx (served cl svc) pvca now.
Proof.
  assert (He : evaluate rfc3339 powi10 ctx (served (stripped cl) svc) pvca now =
               evaluate rfc3339 powi10 ctx (served cl svc) pvca now).
  { unfold evaluate. destruct (compile_claim powi10 pvca) as [eff|]; [|done].
    cbn [served stripped list_claims list_stateful_sets list_storage_classes list_claim_autoscalers query
         cl_claims cl_sets cl_classes cl_autoscalers]. cbn beta iota zeta.
    rewrite !in_namespace_map by done. rewrite strip_classes, strip_names, strip_resolve.
    destruct (resolve _ _ _) as [targets|]; [|done]. rewrite strip_targets, strip_blockers, strip_overlaps.
    destruct (overlaps _ _ _ _ _); [|done]. destruct (usage _ _ _ _ _); [|done].
    assert (Hd : forall m claims, decide_claims rfc3339 powi10 ctx (served (stripped cl) svc) pvca eff m now claims =
                   decide_claims rfc3339 powi10 ctx (served cl svc) pvca eff m now claims)
      by (intros m claims; induction claims as [|c l IH]; cbn; [done|by rewrite IH]).
    unfold decided. by rewrite Hd. }
  unfold reconcile_claim. by rewrite He.
Qed.
End Reconcile.
