(* ===== verification/ClaimHistory.v ===== *)
(** * The cooldown of a claim across reconciles (volume-autoscaler:
    autoscaler/persistent_volume_claim)

    What one reconcile records in the status, the merge patch keeps and the next
    reconcile reads: the resizes of a claim stay a cooldown apart. *)

From Corelib Require Import SpecFloat.
From stdpp Require Import prelude list strings pretty gmap sorting relations.
From Stdlib Require Import ZArith Lia Ascii.
From S2P Require Import Prelude.
From S2P Require Import Strings.
From S2P Require Import BTree.
From S2P Require Import F64.
From S2P Require Import Autoscaler.
From S2P Require Import VolumePolicy.
From S2P Require RecStore.
From S2P Require Import Claims.
From S2P Require Import ClaimPolicy.
From S2P Require Import ClaimReconcile.
From S2P Require Import ClaimSafety.

(** ** What a status records *)

Definition claims_of (s : option PersistentVolumeClaimAutoscalerStatus) : list ClaimStatus := from_option ps_claims [] s.

(** Every claim has one entry. *)
Definition one_entry_each (s : option PersistentVolumeClaimAutoscalerStatus) : Prop := NoDup (cs_name <$> claims_of s).

(** The entry of [x] holds the time [ms]. *)
Definition scaled_at (s : option PersistentVolumeClaimAutoscalerStatus) (x : string) (ms : Z) : Prop :=
  exists e, e ∈ claims_of s /\ cs_name e = x /\ cs_last_scale_time e = Some ms.

Lemma scaled_at_unique s x ms ms' : one_entry_each s -> scaled_at s x ms -> scaled_at s x ms' -> ms = ms'.
Proof.
  intros Hn (e & He & Hx & Hms) (e' & He' & Hx' & Hms').
  rewrite (nodup_key_inj cs_name (claims_of s) e e') in Hms by (first [done | congruence]). congruence.
Qed.

Lemma claim_prev_time_scaled s x ms : one_entry_each s -> scaled_at s x ms -> claim_prev_time s x = Some ms.
Proof.
  intros Hn Hs. unfold claim_prev_time. change (from_option ps_claims [] s) with (claims_of s).
  assert (Hall : forall t, t ∈ omap (fun c => if String.eqb (cs_name c) x then cs_last_scale_time c else None) (claims_of s) ->
    scaled_at s x t).
  { intros t (e & He & Ht)%list_elem_of_omap. destruct (String.eqb_spec (cs_name e) x) as [Hx|]; [|done]. by exists e. }
  destruct Hs as (e & He & Hx & Hms).
  assert (Hin : ms ∈ omap (fun c => if String.eqb (cs_name c) x then cs_last_scale_time c else None) (claims_of s)).
  { apply list_elem_of_omap. exists e. split; [done|]. by rewrite Hx, String.eqb_refl. }
  destruct (last _) as [t|] eqn:El.
  - apply last_Some_elem_of in El. f_equal. apply (scaled_at_unique s x); [done|by apply Hall|by exists e].
  - apply last_None in El. rewrite El in Hin. by apply not_elem_of_nil in Hin.
Qed.

Lemma recorded_scaled powi10 pvca x ms :
  one_entry_each (pvca_status pvca) -> scaled_at (pvca_status pvca) x ms ->
  exists r, recorded powi10 pvca !! x = Some r /\ at_ r = Some (from_k8s_time ms).
Proof.
  intros Hn (e & He & <- & Hms). unfold one_entry_each in Hn. unfold recorded.
  change (from_option ps_claims [] (pvca_status pvca)) with (claims_of (pvca_status pvca)).
  exists (recorded_scale powi10 e). split; [|cbn; by rewrite Hms].
  generalize (∅ : gmap string LastScale). revert Hn He. induction (claims_of (pvca_status pvca)) as [|a es IH]; cbn.
  - by intros _ ?%not_elem_of_nil.
  - rewrite NoDup_cons. intros [Ha Hn] [->|He]%elem_of_cons m; [|by apply IH].
    assert (G : forall m : gmap string LastScale, m !! cs_name a = Some (recorded_scale powi10 a) ->
      foldl (fun m c => <[cs_name c := recorded_scale powi10 c]> m) m es !! cs_name a = Some (recorded_scale powi10 a)).
    { clear IH Hn m. induction es as [|b es IH]; cbn; intros m Hm; [done|].
      rewrite fmap_cons, not_elem_of_cons in Ha. destruct Ha as [Hab Ha]. apply IH; [done|]. by rewrite lookup_insert_ne. }
    apply G. by rewrite lookup_insert_eq.
Qed.

(** ** What a reconcile records *)

(** The services accepted a resize of [x]. *)
Definition grown (svc : ClaimServices) (x : string) (es : list ClaimEvent) : bool :=
  existsb (fun e => match e with
                    | ResizeRequested ns c q => String.eqb c x && is_ok (resize_claim svc ns c q)
                    | _ => false
                    end) es.

Lemma grown_app svc x es es' : grown svc x (es ++ es') = grown svc x es || grown svc x es'.
Proof. apply existsb_app. Qed.

Lemma grown_request svc x ns c q es :
  grown svc x (ResizeRequested ns c q :: es) = (String.eqb c x && is_ok (resize_claim svc ns c q)) || grown svc x es.
Proof. done. Qed.

Lemma grown_requested svc x es : grown svc x es = true -> exists ns q, ResizeRequested ns x q ∈ es.
Proof.
  unfold grown. rewrite existsb_exists. intros ([ns c q| | | | | |] & Hin & H); try done.
  apply andb_true_iff in H as [->%String.eqb_eq _]. exists ns, q. by apply list_elem_of_In.
Qed.

Lemma grown_silent svc x es : forallb (fun e => negb (is_call e)) es = true -> grown svc x es = false.
Proof.
  intros H. destruct (grown svc x es) eqn:E; [|done]. apply grown_requested in E as (ns & q & Hin%list_elem_of_In).
  rewrite forallb_forall in H. by apply H in Hin.
Qed.

(** The entries of a reconcile at [now] record the resizes of [es]. *)
Definition recording (svc : ClaimServices) (now : Z) (es : list ClaimEvent) (entries : list ClaimStatus) : Prop :=
  NoDup (cs_name <$> entries) /\
  (forall e, e ∈ entries -> cs_last_scale_time e = if grown svc (cs_name e) es then Some (k8s_time now) else None) /\
  (forall x, grown svc x es = true -> x ∈ cs_name <$> entries).

Section Reconcile.
Context (rfc3339 : Z -> string) (powi10 : Z -> f64) (ctx : ClaimContext) (svc : ClaimServices).

Lemma apply_outcome_grown pvca c o now es o' t :
  apply_outcome ctx svc pvca c o now = (es, Some (o', t)) ->
  t = (if grown svc (c_name c) es then Some now else None) /\ forall x, grown svc x es = true -> x = c_name c.
Proof.
  intros E. split.
  - unfold apply_outcome in E. destruct (outcome_resize o); cbn in E; [|by injection E as <- _ <-].
    destruct (resize_claim svc _ _ _) eqn:Er; cbn -[app] in E; injection E as <- _ <-;
      cbn [app]; rewrite grown_request, String.eqb_refl, Er; cbn [is_ok andb orb]; [done|].
    rewrite grown_silent; [done|]. by rewrite ?forallb_app; cbn; rewrite ?forallb_app, ?event_silent.
  - intros x (ns & q & H)%grown_requested. revert H.
    assert (Ha : asks (fun _ x _ => x = c_name c) (apply_outcome ctx svc pvca c o now)) by by apply asks_apply.
    rewrite E in Ha. apply (asks_request _ _ ns x q Ha).
Qed.

Lemma wbind_Some {A B} (m : W A) (f : A -> W B) es b :
  wbind m f = (es, Some b) -> exists es1 a es2, m = (es1, Some a) /\ f a = (es2, Some b) /\ es = es1 ++ es2.
Proof.
  unfold wbind. destruct m as [es1 [a|]]; [|done]. destruct (f a) as [es2 r] eqn:Ef. intros [= <- ->].
  by exists es1, a, es2.
Qed.

Lemma decide_one_records pvca eff measured now c es e :
  decide_one rfc3339 powi10 ctx svc pvca eff measured now c = (es, Some e) ->
  cs_name e = c_name c /\ cs_last_scale_time e = (if grown svc (c_name c) es then Some (k8s_time now) else None) /\
  forall x, grown svc x es = true -> x = c_name c.
Proof.
  unfold decide_one. intros (e1 & o & es1 & [= <- _] & (e2 & [o' t] & es2 & Ha & E & ->)%wbind_Some & ->)%wbind_Some.
  cbn in E. injection E as <- <-. apply apply_outcome_grown in Ha as [-> Hx]. cbn -[grown].
  rewrite !grown_app. cbn. rewrite orb_false_r. split_and!; [done|by destruct (grown _ _ _)|].
  intros x. rewrite grown_app. cbn. rewrite orb_false_r. apply Hx.
Qed.

Lemma decide_claims_record pvca eff measured now claims es entries :
  NoDup (c_name <$> claims) ->
  decide_claims rfc3339 powi10 ctx svc pvca eff measured now claims = (es, Some entries) ->
  cs_name <$> entries = c_name <$> claims /\ recording svc now es entries.
Proof.
  revert es entries. induction claims as [|c claims IH]; cbn; intros es entries Hn E.
  { injection E as <- <-. split; [done|]. split_and!; [by constructor|by intros ? ?%not_elem_of_nil|done]. }
  apply NoDup_cons in Hn as [Hc Hn].
  apply wbind_Some in E as (es1 & e & rest & H1 & (es2 & entries' & es3 & H2 & E & ->)%wbind_Some & ->).
  injection E as <- <-. rewrite app_nil_r. apply decide_one_records in H1 as (Hname & Hlast & Honly).
  apply IH in H2 as (Hnames & Hnd & Hall & Hin); [|done]. cbn. rewrite Hname, Hnames. split; [done|].
  split_and!.
  - cbn. rewrite Hname, Hnames. by constructor.
  - intros e' [->|He']%elem_of_cons; rewrite grown_app.
    + rewrite Hname. destruct (grown svc (c_name c) es2) eqn:E2; [|by rewrite orb_false_r].
      apply Hin in E2. by rewrite Hnames in E2.
    + destruct (grown svc (cs_name e') es1) eqn:E1; [|by apply Hall].
      apply Honly in E1. destruct Hc. rewrite <- E1, <- Hnames. by apply list_elem_of_fmap_2.
  - intros x. rewrite grown_app. cbn. rewrite Hname, elem_of_cons.
    intros [?%Honly|?%Hin]%orb_true_iff; [by left|by right].
Qed.
End Reconcile.

(** The status a reconcile builds keeps its entries, with the times carried over. *)
Definition built (prev : option PersistentVolumeClaimAutoscalerStatus) (entries : list ClaimStatus)
    (next : PersistentVolumeClaimAutoscalerStatus) : Prop :=
  ps_claims next ≡ₚ claim_carry_time prev <$> entries.

Lemma built_build prev generation entries inactive now spec :
  built prev entries (refresh_claim_summary spec (build_claims prev generation entries inactive now)).
Proof. unfold built. cbn. by rewrite (sort_by_perm cs_name entries). Qed.

Lemma carry_name prev e : cs_name (claim_carry_time prev e) = cs_name e.
Proof. unfold claim_carry_time. by destruct (cs_last_scale_time e). Qed.

Lemma built_names prev entries next : built prev entries next -> cs_name <$> ps_claims next ≡ₚ cs_name <$> entries.
Proof.
  intros Hb. rewrite Hb, <- list_fmap_compose.
  rewrite (list_fmap_ext (cs_name ∘ claim_carry_time prev) cs_name entries); [done|]. intros. apply carry_name.
Qed.

(** ** Entries of a whole reconcile *)

Section Evaluate.
Context (rfc3339 : Z -> string) (powi10 : Z -> f64) (ctx : ClaimContext) (svc : ClaimServices).

(** The claims of a namespace have names of their own. *)
Definition unique_names : Prop :=
  forall ns objects, list_claims svc ns = Ok objects -> NoDup (omap (fun p => m_name (pvc_meta p)) objects).

Lemma target_claims_nodup objects targets classes :
  NoDup (omap (fun p => m_name (pvc_meta p)) objects) ->
  NoDup (c_name <$> target_claims powi10 objects targets classes).
Proof.
  unfold target_claims. induction objects as [|p l IH]; cbn; [by constructor|].
  destruct (m_name (pvc_meta p)) as [n|] eqn:En; cbn; [|done]. intros [Hn Hl]%NoDup_cons.
  destruct (is_some _); cbn; [|by apply IH]. constructor; [|by apply IH]. rewrite En. cbn. intros Hin. apply Hn.
  apply list_elem_of_fmap in Hin as (c & -> & Hc). apply list_elem_of_fmap in Hc as (p' & -> & Hp').
  apply list_elem_of_In, List.filter_In in Hp' as [Hp' Hf]. apply list_elem_of_omap. exists p'.
  split; [by apply list_elem_of_In|]. cbn. by destruct (m_name (pvc_meta p')).
Qed.

Lemma recording_idle now entries :
  NoDup (cs_name <$> entries) -> (forall e, e ∈ entries -> cs_last_scale_time e = None) ->
  recording svc now [] entries.
Proof. intros Hn Hl. by split_and!. Qed.

Lemma recording_uniform now claims recorded reason message :
  NoDup (c_name <$> claims) -> recording svc now [] (uniform claims recorded reason message).
Proof.
  intros Hn. apply recording_idle.
  - unfold uniform. by rewrite <- list_fmap_compose.
  - by intros e (c & -> & _)%list_elem_of_fmap.
Qed.

Lemma evaluate_records pvca now es next :
  unique_names -> evaluate rfc3339 powi10 ctx svc pvca now = (es, Some (Ok next)) ->
  exists entries, recording svc now es entries /\ built (pvca_status pvca) entries next.
Proof.
  intros Hu E. unfold evaluate in E. assert (H0 : recording svc now [] []).
  { apply recording_idle; [constructor|by intros ? ?%not_elem_of_nil]. }
  destruct (compile_claim powi10 pvca) as [eff|e]; [|injection E as <- <-; exists []; split; [done|apply built_build]].
  destruct (list_claims svc _) as [objects|e] eqn:Eo; cbn beta iota in E; [|done].
  destruct (list_stateful_sets svc _) as [sets|e]; [|done].
  destruct (list_storage_classes svc) as [classes|e]; [|done].
  destruct (list_claim_autoscalers svc _) as [autoscalers|e]; [|done].
  destruct (resolve _ _ _) as [targets|e]; [|injection E as <- <-; exists []; split; [done|apply built_build]].
  apply Hu in Eo. pose proof (target_claims_nodup objects targets classes Eo) as Hn.
  destruct (overlaps _ _ _ _ _) as [|s ss].
  2: { injection E as <- <-. eexists. split; [by apply recording_uniform|apply built_build]. }
  destruct (usage _ _ _ _ _) as [measured|e].
  2: { injection E as <- <-. eexists. split; [by apply recording_uniform|apply built_build]. }
  apply wbind_Some in E as (es1 & s & es2 & (es3 & entries & es4 & Hd & H & ->)%wbind_Some & [= <- <-] & ->).
  apply decide_claims_record in Hd as [_ (Hnd & Hall & Hin)]; [|done].
  apply wbind_Some in H as (es5 & s' & es6 & Hb & [= <- <-] & ->). exists entries.
  assert (Hs : forallb (fun e => negb (is_call e)) es5 = true /\
               ps_claims s' = map (claim_carry_time (pvca_status pvca)) (sort_by cs_name entries)).
  { unfold block_unexpandable in Hb. destruct (expansion_blockers _ _ _ _); injection Hb as <- <-; [done|].
    destruct (was_blocked pvca); cbn; rewrite ?app_nil_r, ?event_silent; done. }
  destruct Hs as [Hs Hc]. assert (Hg : forall x, grown svc x ((es3 ++ es5 ++ []) ++ []) = grown svc x es3).
  { intros x. by rewrite !app_nil_r, grown_app, (grown_silent svc x es5), orb_false_r. }
  split; [split_and!|].
  - done.
  - intros e He. rewrite Hg. by apply Hall.
  - intros x. rewrite Hg. apply Hin.
  - unfold built. cbn. rewrite Hc. by rewrite (sort_by_perm cs_name entries).
Qed.

(** An evaluation that fails could not read the objects. *)
Lemma evaluate_failed pvca now es e : evaluate rfc3339 powi10 ctx svc pvca now = (es, Some (Err e)) -> es = [].
Proof.
  unfold evaluate. destruct (compile_claim powi10 pvca) as [eff|?]; [|done].
  destruct (list_claims svc _) as [objects|?]; [|by intros [= <-]].
  destruct (list_stateful_sets svc _) as [sets|?]; [|by intros [= <-]].
  destruct (list_storage_classes svc) as [classes|?]; [|by intros [= <-]].
  destruct (list_claim_autoscalers svc _) as [autoscalers|?]; [|by intros [= <-]].
  destruct (resolve _ _ _) as [targets|?]; [|done]. destruct (overlaps _ _ _ _ _); [|done].
  destruct (usage _ _ _ _ _); [|done]. by intros (? & ? & ? & _ & [= _ ?] & _)%wbind_Some.
Qed.
End Evaluate.

(** ** Reconciles of one autoscaler *)

(** One reconcile: its services, and the object it is given. *)
Record Round := mkRound {
  rd_ctx : ClaimContext;
  rd_services : ClaimServices;
  rd_object : PersistentVolumeClaimAutoscaler;
  rd_now : Z;
}.

(** The status that is stored after the patches of a reconcile. *)
Definition stored_after (stored : option PersistentVolumeClaimAutoscalerStatus) (es : list ClaimEvent)
    : option PersistentVolumeClaimAutoscalerStatus :=
  foldl (fun s e => match e with StatusPatched _ _ new => Some (claim_merge_patch s new) | _ => s end) stored es.

Definition patches (es : list ClaimEvent) : list PersistentVolumeClaimAutoscalerStatus :=
  omap (fun e => match e with StatusPatched _ _ s => Some s | _ => None end) es.

(** Kubernetes times represent the clock's. *)
Definition representable (t : Z) : Prop := jiff_min_ms <= t / 10 ^ 6 <= jiff_max_ms.

Section Rounds.
Context (rfc3339 : Z -> string) (powi10 : Z -> f64).

Definition run_round (r : Round) : W (result string unit) :=
  reconcile_claim rfc3339 powi10 (rd_ctx r) (rd_services r) (rd_object r) (rd_now r).

(** A reconcile of an autoscaler whose status is [stored], while claim [x] has
    been resized at the times of the history: it is given the stored status, it
    does not panic, a status it writes is accepted, and [x] stays one of the
    claims it finds.  The settings may be other ones each time. *)
Inductive round (x : string)
  : option PersistentVolumeClaimAutoscalerStatus * list Z ->
    option PersistentVolumeClaimAutoscalerStatus * list Z -> Prop :=
  | round_intro stored history r es res :
      pvca_status (rd_object r) = stored ->
      unique_names (rd_services r) -> representable (rd_now r) ->
      run_round r = (es, Some res) ->
      (res = Ok tt \/ patches es = []) ->
      (forall s, s ∈ patches es -> ps_claims s = [] \/ x ∈ cs_name <$> ps_claims s) ->
      round x (stored, history)
        (stored_after stored es, if grown (rd_services r) x es then rd_now r :: history else history).

(** The status holds a time that no resize of [x] is later than. *)
Definition remembered (x : string) (w : option PersistentVolumeClaimAutoscalerStatus * list Z) : Prop :=
  one_entry_each w.1 /\
  (w.2 = [] \/ exists ms, scaled_at w.1 x ms /\ Forall (fun t => t / 10 ^ 6 <= ms) w.2).

(** A resize comes after the cooldown that follows the recorded time. *)
Lemma grown_rested r x ms eff :
  one_entry_each (pvca_status (rd_object r)) -> scaled_at (pvca_status (rd_object r)) x ms ->
  grown (rd_services r) x (run_round r).1 = true -> compile_claim powi10 (rd_object r) = Ok eff ->
  from_k8s_time ms + delta_from_secs (cooldown eff) <= rd_now r.
Proof.
  intros Hn Hs (ns & q & Hin)%grown_requested Hc.
  apply resizes_entitled_by in Hin as (_ & _ & eff' & ? & ? & ? & ? & ? & ? & measured & desired & Hc' & H).
  destruct H as (_ & _ & _ & _ & _ & _ & _ & _ & _ & _ & _ & Hg). rewrite Hc in Hc'. injection Hc' as <-.
  pose proof (ge_rested _ _ _ _ _ _ Hg) as Hr. destruct (recorded_scaled powi10 (rd_object r) x ms Hn Hs) as (last & El & Hat).
  rewrite El in Hr. by apply Hr.
Qed.

Lemma stored_after_patches stored es :
  stored_after stored es = foldl (fun s new => Some (claim_merge_patch s new)) stored (patches es).
Proof. unfold stored_after. revert stored. induction es as [|[] es IH]; intros stored; cbn; auto. Qed.

Lemma patches_app es es' : patches (es ++ es') = patches es ++ patches es'.
Proof. apply omap_app. Qed.

Lemma run_round_failed r es e x : run_round r = (es, Some (Err e)) -> patches es = [] -> grown (rd_services r) x es = false.
Proof.
  unfold run_round, reconcile_claim. intros (es1 & [next|e'] & es2 & He & (es3 & [] & es4 & [= <-] & H & ->)%wbind_Some & ->)%wbind_Some.
  - case_bool_decide; [done|]. apply wbind_Some in H as (? & ? & ? & [= <- <-] & [= <- _] & ->).
    rewrite !patches_app. cbn. by intros [_ ?]%app_nil.
  - intros _. apply evaluate_failed in He as ->. injection H as <-. by apply grown_silent.
Qed.

(** What a reconcile that ends well has done: it patched the status it built,
    unless that is the one it was given. *)
Lemma run_round_ok r es :
  run_round r = (es, Some (Ok tt)) ->
  exists es' next, evaluate rfc3339 powi10 (rd_ctx r) (rd_services r) (rd_object r) (rd_now r) = (es', Some (Ok next)) /\
    (forall x, grown (rd_services r) x es = grown (rd_services r) x es') /\
    (patches es = patches es' /\ pvca_status (rd_object r) = Some next \/ patches es = patches es' ++ [next]).
Proof.
  unfold run_round, reconcile_claim. intros (es1 & [next|e] & es2 & He & (es3 & [] & es4 & [= <-] & H & ->)%wbind_Some & ->)%wbind_Some;
    [|done].
  exists es1, next. split; [done|]. case_bool_decide as Hs.
  - injection H as <-. split; [intros x; rewrite grown_app; cbn; by rewrite orb_false_r|].
    left. rewrite patches_app. cbn. by rewrite app_nil_r.
  - apply wbind_Some in H as (? & ? & ? & [= <- <-] & [= <- _] & ->). split.
    + intros x. rewrite grown_app. cbn. by rewrite orb_false_r.
    + right. by rewrite patches_app.
Qed.

(** An evaluation patches nothing. *)
Lemma evaluate_patches r : patches (evaluate rfc3339 powi10 (rd_ctx r) (rd_services r) (rd_object r) (rd_now r)).1 = [].
Proof.
  pose proof (asks_evaluate rfc3339 powi10 (rd_ctx r) (rd_services r) (rd_object r) (rd_now r)) as Ha. unfold asks in Ha.
  induction Ha as [|e es He _ IH]; [done|]. unfold patches in *. cbn. by destruct e.
Qed.

(** Only the entries matter. *)
Lemma remembered_same x s s' history : claims_of s = claims_of s' -> remembered x (s, history) -> remembered x (s', history).
Proof. unfold remembered, one_entry_each, scaled_at. cbn -[claims_of]. by intros ->. Qed.

Lemma claims_merged stored next :
  claims_of (Some (claim_merge_patch stored next)) =
  match ps_claims next with [] => claims_of stored | _ => ps_claims next end.
Proof. destruct stored as [old|]; cbn; [done|]. by destruct (ps_claims next). Qed.

Lemma k8s_time_ms t : representable t -> k8s_time t = t / 10 ^ 6.
Proof. unfold representable, k8s_time. intros [H1 H2]. by rewrite (proj2 (Z.leb_le _ _) H1), (proj2 (Z.leb_le _ _) H2). Qed.

(** The status built after a reconcile remembers what the one before did and
    what the reconcile resized. *)
Lemma built_remembers x r es entries next history :
  remembered x (pvca_status (rd_object r), history) ->
  recording (rd_services r) (rd_now r) es entries -> built (pvca_status (rd_object r)) entries next ->
  representable (rd_now r) -> x ∈ cs_name <$> ps_claims next ->
  (grown (rd_services r) x es = true -> Forall (fun t => t / 10 ^ 6 <= rd_now r / 10 ^ 6) history) ->
  remembered x (Some next, if grown (rd_services r) x es then rd_now r :: history else history).
Proof.
  intros [Hone Hist] (Hnd & Hlast & _) Hb Hrep Hx Hold. cbn in Hone, Hist.
  assert (Hn : one_entry_each (Some next)) by (unfold one_entry_each; cbn; by rewrite (built_names _ _ _ Hb)).
  split; [done|]. cbn [snd fst].
  rewrite (built_names _ _ _ Hb) in Hx. apply list_elem_of_fmap in Hx as (e & -> & He).
  assert (Hin : claim_carry_time (pvca_status (rd_object r)) e ∈ claims_of (Some next))
    by (cbn; rewrite Hb; by apply list_elem_of_fmap_2).
  pose proof (Hlast e He) as Hl. destruct (grown (rd_services r) (cs_name e) es).
  - right. exists (rd_now r / 10 ^ 6). split; [|constructor; [done|by apply Hold]].
    exists (claim_carry_time (pvca_status (rd_object r)) e). split_and!; [done|apply carry_name|].
    unfold claim_carry_time. rewrite Hl. cbn. by rewrite Hl, k8s_time_ms.
  - destruct Hist as [->|(ms & Hs & Hall)]; [by left|]. right. exists ms. split; [|done].
    exists (claim_carry_time (pvca_status (rd_object r)) e). split_and!; [done|apply carry_name|].
    unfold claim_carry_time. rewrite Hl. cbn. by apply claim_prev_time_scaled.
Qed.

Lemma compile_claim_cooldown pvca eff : compile_claim powi10 pvca = Ok eff -> 0 <= delta_from_secs (cooldown eff).
Proof.
  intros Hc. assert (H : 0 <= cooldown eff).
  { revert Hc. unfold compile_claim. destruct (2 <? _); [done|]. destruct (check_metrics _ _); cbn; [|done].
    destruct (quantity_bytes _ _); cbn; [|done]. destruct (f64_lt _ _); [done|].
    destruct (claim_cooldown _) as [d|e] eqn:Ed; cbn; [|done]. destruct (compile_steps _); cbn; [|done].
    intros [= <-]. cbn. revert Ed. unfold claim_cooldown, DEFAULT_COOLDOWN, MIN_CLAIM_COOLDOWN.
    destruct (cooldown_duration _); [|intros [= <-]; done]. destruct (map_err _ _) as [z|]; cbn; [|done].
    destruct (Z.ltb_spec z 60); [done|]. intros [= <-]. lia. }
  unfold delta_from_secs, NANOS. destruct (_ <=? _); lia.
Qed.

(** A resize is not before the recorded one. *)
Lemma grown_not_before r x es history :
  remembered x (pvca_status (rd_object r), history) -> (run_round r).1 = es -> grown (rd_services r) x es = true ->
  Forall (fun t => t / 10 ^ 6 <= rd_now r / 10 ^ 6) history.
Proof.
  intros [Hone Hist] <- Hg. cbn [fst snd] in Hone, Hist. destruct Hist as [->|(ms & Hs & Hall)]; [by constructor|].
  assert (Hc : exists eff, compile_claim powi10 (rd_object r) = Ok eff).
  { apply grown_requested in Hg as (ns & q & Hin). apply resizes_entitled_by in Hin as (_ & _ & eff & ? & ? & ? & ? & ? & ? & ? & ? & Hc & _).
    by exists eff. }
  destruct Hc as (eff & Hc). pose proof (grown_rested r x ms eff Hone Hs Hg Hc) as Hr.
  apply compile_claim_cooldown in Hc. unfold from_k8s_time in Hr.
  assert (ms <= rd_now r / 10 ^ 6) by (apply Z.div_le_lower_bound; lia).
  eapply Forall_impl; [exact Hall|]. cbn. intros t Ht. lia.
Qed.

Lemma round_remembers x w w' : round x w w' -> remembered x w -> remembered x w'.
Proof.
  intros [stored history r es res Hst Hu Hrep E Hres Hlist] Hrem. subst stored.
  assert (Hes : (run_round r).1 = es) by by rewrite E.
  assert (Hold : grown (rd_services r) x es = true -> Forall (fun t => t / 10 ^ 6 <= rd_now r / 10 ^ 6) history)
    by (intros Hg; by eapply grown_not_before).
  rewrite stored_after_patches. destruct res as [[]|e].
  2: { destruct Hres as [|Hp]; [done|]. rewrite Hp. cbn.
       rewrite (run_round_failed r es e x E Hp). done. }
  apply run_round_ok in E as (es' & next & He & Hg & Hp).
  pose proof (evaluate_patches r) as Hnone. rewrite He in Hnone. cbn [fst] in Hnone. rewrite Hnone in Hp. cbn [app] in Hp.
  apply evaluate_records in He as (entries & Hrec & Hb); [|done].
  rewrite Hg in *. destruct Hp as [[Hp Hsame]|Hp]; rewrite Hp; cbn [foldl].
  - destruct (grown (rd_services r) x es') eqn:Eg; [|done]. rewrite Hsame.
    pose proof (built_remembers x r es' entries next history Hrem Hrec Hb Hrep) as H. rewrite Eg in H.
    apply H; [|done]. rewrite (built_names _ _ _ Hb). by apply Hrec.
  - destruct (ps_claims next) as [|c cs] eqn:Ecs.
    + apply (remembered_same x (pvca_status (rd_object r))); [by rewrite claims_merged, Ecs|].
      destruct (grown (rd_services r) x es') eqn:Eg; [|done]. apply Hrec in Eg.
      rewrite <- (built_names _ _ _ Hb), Ecs in Eg. by apply not_elem_of_nil in Eg.
    + apply (remembered_same x (Some next)); [by rewrite claims_merged, Ecs|].
      apply (built_remembers x r es' entries next history Hrem Hrec Hb Hrep); [|done].
      destruct (Hlist next) as [Hnil|]; [rewrite Hp; by left|by rewrite Ecs in Hnil|done].
Qed.

(** C19: The resizes of a claim are a cooldown apart, as long as the autoscaler does
    not lose sight of it: when the services accept a resize of [x], every resize
    of [x] that the reconciles before had accepted is at least the cooldown of
    the autoscaler older, less the millisecond to which the status keeps times.
    Each reconcile reads the status last stored, does not panic, has its status
    patch accepted, and writes no list of claims without [x]; the settings may
    change meanwhile, and the target or the metrics may be missing. *)
Theorem claim_resizes_spaced x start stored history r eff :
  one_entry_each start -> rtc (round x) (start, []) (stored, history) ->
  pvca_status (rd_object r) = stored -> compile_claim powi10 (rd_object r) = Ok eff ->
  grown (rd_services r) x (run_round r).1 = true ->
  Forall (fun t => t + delta_from_secs (cooldown eff) < rd_now r + 10 ^ 6) history.
Proof.
  intros Hstart Hrun Hst Hc Hg. subst stored.
  assert (Hrem : remembered x (pvca_status (rd_object r), history)).
  { remember (start, []) as w eqn:Ew. remember (pvca_status (rd_object r), history) as w' eqn:Ew'.
    assert (Hw : remembered x w) by (subst w; split; [done|by left]). clear Ew Ew'.
    induction Hrun as [|a b c Hab _ IH]; [done|]. apply IH. by eapply round_remembers. }
  destruct Hrem as [Hone Hist]. cbn [fst snd] in Hone, Hist. destruct Hist as [->|(ms & Hs & Hall)]; [by constructor|].
  pose proof (grown_rested r x ms eff Hone Hs Hg Hc) as Hr. unfold from_k8s_time in Hr.
  eapply Forall_impl; [exact Hall|]. cbn. intros t Ht. pose proof (Z.mod_pos_bound t (10 ^ 6) ltac:(lia)).
  pose proof (Z.div_mod t (10 ^ 6) ltac:(lia)). lia.
Qed.
End Rounds.

(** ** A claim that grows (volume-autoscaler: autoscaler/persistent_volume_claim)

    The stateful set [web] has the claim [data-web-0], which fills up: the
    autoscaler grows it, waits for the cooldown, and grows it again. *)

Definition c_powi10 (_ : Z) : f64 := S754_nan.
Definition c_rfc3339 (_ : Z) : string := "later".

Definition c_meta (name : string) : ObjectMeta := mkMeta (Some name) (Some "default") (Some "u-1") None.

(** Bound, with [gib] GiB. *)
Definition c_claim (gib : Z) : PersistentVolumeClaim :=
  mkClaimObject (c_meta "data-web-0")
    (Some (mkClaimSpec (Some "gp3") (Some (Some [("storage", gib_quantity gib)]))))
    (Some (mkClaimState (Some "Bound") None None (Some [("storage", gib_quantity gib)]))).

Definition c_set : StatefulSet := mkStatefulSet (c_meta "web") (Some (Some [mkTemplate (Some "data") (Some (Some "gp3"))])).

Definition c_sample (v : Z) : RecStore.Sample := RecStore.mkSample {["persistentvolumeclaim" := "data-web-0"]} (f64_of_Z v).

(** The claim has [gib] GiB, its file system as many, 90 percent of them used. *)
Definition c_services (gib : Z) : ClaimServices :=
  mkClaimServices (fun _ => Ok []) (fun _ => Ok [c_claim gib]) (fun _ => Ok [c_set])
    (Ok (mkClasses [("gp3", true)] (Some "gp3")))
    (fun q => Ok [c_sample (if String.eqb (String.substring 0 3 q) "max" then gib * 2 ^ 30 else 90)])
    (fun _ _ _ => Ok tt) (fun _ _ _ => Ok tt).

Definition c_context : ClaimContext := mkClaimContext [] false true.

(** At most 20 GiB; the cooldown and the step are the default ones. *)
Definition c_autoscaler (status : option PersistentVolumeClaimAutoscalerStatus) : PersistentVolumeClaimAutoscaler :=
  mkPvca (c_meta "web") (Some 1) (mkPvcaSpec (mkClaimTargetRef StatefulSetKind "web") "20Gi" [] None) status.

Definition c_start : Z := 1700000000 * NANOS.
Definition c_round (gib seconds : Z) (status : option PersistentVolumeClaimAutoscalerStatus) : Round :=
  mkRound c_context (c_services gib) (c_autoscaler status) (c_start + seconds * NANOS).
Definition c_run (r : Round) : W (result string unit) := run_round c_rfc3339 c_powi10 r.

(** The status after the first resize, and after the reconcile a minute later,
    which waits. *)
Definition c_first : Round := c_round 10 0 None.
Definition c_stored1 : option PersistentVolumeClaimAutoscalerStatus := stored_after None (c_run c_first).1.
Definition c_second : Round := c_round 11 60 c_stored1.
Definition c_stored2 : option PersistentVolumeClaimAutoscalerStatus := stored_after c_stored1 (c_run c_second).1.
Definition c_third : Round := c_round 11 1860 c_stored2.

Example demo_requests :
  (filter (fun e => is_resize e = true) (c_run c_first).1, filter (fun e => is_resize e = true) (c_run c_second).1,
   filter (fun e => is_resize e = true) (c_run c_third).1) =
  ([ResizeRequested "default" "data-web-0" "11Gi"], [], [ResizeRequested "default" "data-web-0" "13Gi"]).
Proof. vm_compute. reflexivity. Qed.

(** The target is switched to [api] for one reconcile and back: the entry of
    [data-web-0] and its time are gone, and it is resized again two minutes after
    the first time. *)
Definition api_set : StatefulSet := mkStatefulSet (c_meta "api") (Some (Some [mkTemplate (Some "data") (Some (Some "gp3"))])).
Definition api_claim : PersistentVolumeClaim :=
  mkClaimObject (c_meta "data-api-0") (pvc_spec (c_claim 10)) (pvc_status (c_claim 10)).

Definition two_sets (gib : Z) : ClaimServices :=
  let svc := c_services gib in
  mkClaimServices (list_claim_autoscalers svc) (fun _ => Ok [c_claim gib; api_claim]) (fun _ => Ok [c_set; api_set])
    (list_storage_classes svc) (query svc) (resize_claim svc) (patch_claim_status svc).

Definition switched_round (gib seconds : Z) (target : string) (status : option PersistentVolumeClaimAutoscalerStatus)
  : Round :=
  mkRound c_context (two_sets gib)
    (mkPvca (c_meta "web") (Some 1) (mkPvcaSpec (mkClaimTargetRef StatefulSetKind target) "20Gi" [] None) status)
    (c_start + seconds * NANOS).

Definition switched_requests : list (list ClaimEvent) :=
  let resizes r := filter (fun e => is_resize e = true) (c_run r).1 in
  let r1 := switched_round 10 0 "web" None in
  let s1 := stored_after None (c_run r1).1 in
  let r2 := switched_round 11 60 "api" s1 in
  let r3 := switched_round 11 120 "web" (stored_after s1 (c_run r2).1) in
  [resizes r1; resizes r2; resizes r3].

Example switched_target_forgets :
  switched_requests =
  [[ResizeRequested "default" "data-web-0" "11Gi"]; []; [ResizeRequested "default" "data-web-0" "13Gi"]].
Proof. vm_compute. reflexivity. Qed.

Lemma resizes_entitled_witness :
  resize_entitled c_powi10 c_context (c_services 10) (c_autoscaler None) c_start "default" "data-web-0" "11Gi".
Proof.
  apply (resizes_entitled c_rfc3339). apply list_elem_of_In. vm_compute. left. reflexivity.
Defined.

Lemma demo_unique gib : unique_names (c_services gib).
Proof. intros ns objects [= <-]. apply NoDup_singleton. Qed.

(** A reconcile of the demo, whose status lists the claim. *)
Lemma demo_round r gib seconds history :
  r = c_round gib seconds (pvca_status (rd_object r)) ->
  (c_run r).2 = Some (Ok tt) -> representable (rd_now r) ->
  forallb (fun s => existsb (fun e => String.eqb (cs_name e) "data-web-0") (ps_claims s)) (patches (c_run r).1) = true ->
  round c_rfc3339 c_powi10 "data-web-0" (pvca_status (rd_object r), history)
    (stored_after (pvca_status (rd_object r)) (c_run r).1,
     if grown (rd_services r) "data-web-0" (c_run r).1 then rd_now r :: history else history).
Proof.
  intros Hr E Hrep Hall. eapply round_intro with (res := Ok tt); [done| |done| |by left|].
  - rewrite Hr. apply demo_unique.
  - unfold c_run in *. destruct (run_round c_rfc3339 c_powi10 r) as [es res]. cbn in *. by rewrite E.
  - intros s Hs. rewrite forallb_forall in Hall. apply list_elem_of_In, Hall, existsb_exists in Hs as (e & He & Hn).
    right. apply String.eqb_eq in Hn. rewrite <- Hn. by apply list_elem_of_fmap_2, list_elem_of_In.
Qed.

Lemma demo_rounds :
  rtc (round c_rfc3339 c_powi10 "data-web-0") (None, []) (c_stored2, [c_start]).
Proof.
  assert (H1 : round c_rfc3339 c_powi10 "data-web-0" (None, []) (c_stored1, [c_start])).
  { pose proof (demo_round c_first 10 0 [] eq_refl) as H.
    replace (grown _ _ _) with true in H by (vm_compute; reflexivity).
    apply H; vm_compute; [done|by split|done]. }
  assert (H2 : round c_rfc3339 c_powi10 "data-web-0" (c_stored1, [c_start]) (c_stored2, [c_start])).
  { pose proof (demo_round c_second 11 60 [c_start] eq_refl) as H.
    replace (grown _ _ _) with false in H by (vm_compute; reflexivity).
    apply H; vm_compute; [done|by split|done]. }
  eapply rtc_l; [exact H1|]. eapply rtc_l; [exact H2|]. apply rtc_refl.
Qed.

Lemma claim_resizes_spaced_witness :
  grown (c_services 11) "data-web-0" (c_run c_third).1 = true /\
  Forall (fun t => t + delta_from_secs 1800 < rd_now c_third + 10 ^ 6) [c_start].
Proof.
  assert (Hc : exists eff, compile_claim c_powi10 (rd_object c_third) = Ok eff /\ cooldown eff = 1800).
  { eexists. split; vm_compute; reflexivity. }
  destruct Hc as (eff & Hc & Hcool).
  assert (Hg : grown (rd_services c_third) "data-web-0" (c_run c_third).1 = true) by (vm_compute; reflexivity).
  split; [exact Hg|]. rewrite <- Hcool.
  apply (claim_resizes_spaced c_rfc3339 c_powi10 "data-web-0" None c_stored2 [c_start] c_third eff).
  - apply NoDup_nil_2.
  - exact demo_rounds.
  - reflexivity.
  - exact Hc.
  - exact Hg.
Defined.
