(* ===== verification/VolumeScan.v ===== *)
(** * The scan for unused volumes (volume-autoscaler: pvscan.rs, pvscan/,
    annotations.rs)

    A pass reads the claims, volumes, Pods and stateful sets of a cluster, tells
    for each claim and volume whether anything uses it, and writes the verdict
    as annotations, in which the time an object has been unused is kept.  The
    rendering and parsing of times is [chrono]'s: [rfc3339_secs] renders a time to
    the second, [parse_rfc3339] reads one. *)

From Corelib Require Import SpecFloat.
From stdpp Require Import prelude list strings pretty gmap sorting.
From Stdlib Require Import ZArith Lia Ascii.
From S2P Require Import Prelude.
From S2P Require Import Strings.
From S2P Require Import BTree.
From S2P Require Import F64.
From S2P Require Import Autoscaler.
From S2P Require RecStore.
From S2P Require Claims.

(** ** Constants (types.rs, defaults.rs) *)

Definition KIND_PVC : string := "persistentvolumeclaim".
Definition KIND_PV : string := "persistentvolume".

Definition REASON_NO_CONSUMER_POD : string := "no_consumer_pod".
Definition REASON_STATEFULSET_SCALED_DOWN : string := "statefulset_scaled_down".
Definition REASON_UNBOUND : string := "unbound".
Definition REASON_AVAILABLE : string := "available".
Definition REASON_RELEASED : string := "released".
Definition REASON_FAILED : string := "failed".
Definition REASON_MISSING_CLAIM : string := "missing_claim".
Definition REASON_UNUSED_CLAIM : string := "bound_to_unused_claim".
Definition REASON_MOUNTED_BY_POD : string := "mounted_by_pod".
Definition REASON_STATEFULSET_SLOT : string := "statefulset_slot".
Definition REASON_BOUND_TO_USED_CLAIM : string := "bound_to_used_claim".
Definition REASON_PENDING : string := "pending".
Definition UNUSED_PVC_REASONS : list string := [REASON_NO_CONSUMER_POD; REASON_STATEFULSET_SCALED_DOWN; REASON_UNBOUND].
Definition UNUSED_PV_REASONS : list string :=
  [REASON_RELEASED; REASON_AVAILABLE; REASON_FAILED; REASON_MISSING_CLAIM; REASON_UNUSED_CLAIM].
Definition PHASE_BOUND : string := "Bound".
Definition PHASE_AVAILABLE : string := "Available".
Definition PHASE_RELEASED : string := "Released".
Definition PHASE_FAILED : string := "Failed".

(** In nanoseconds. *)
Definition MIN_UNUSED_AGE : Z := 24 * 3600 * NANOS.

(** ** The inventory *)

Record Pvc := mkPvc {
  p_namespace : string;
  p_name : string;
  p_uid : string;
  p_phase : string;
  p_volume_name : string;
  p_storage_class : string;
  p_capacity_bytes : Z;
  p_annotations : BTreeMap string;
}.

Record Pv := mkPv {
  v_name : string;
  v_uid : string;
  v_phase : string;
  v_storage_class : string;
  v_capacity_bytes : Z;
  v_reclaim_policy : string;
  v_claim_namespace : string;
  v_claim_name : string;
  v_claim_uid : string;
  v_volume_id : string;
  v_annotations : BTreeMap string;
}.

Record ScanStatefulSet := mkScanStatefulSet {
  s_namespace : string;
  s_name : string;
  s_replicas : Z;
  s_ordinal_start : Z;
  s_claim_templates : list string;
}.

Record Inventory := mkInventory {
  pvcs : list Pvc;
  pvs : list Pv;
  claims_in_use : gset string;
  stateful_sets : list ScanStatefulSet;
}.

(** The verdict on an object; the age is in nanoseconds. *)
Record Finding := mkFinding {
  f_kind : string;
  f_namespace : string;
  f_name : string;
  f_uid : string;
  f_unused : bool;
  f_reason : string;
  f_unused_since : option Z;
  f_age : Z;
  f_reportable : bool;
  f_capacity_bytes : Z;
  f_storage_class : string;
  f_volume_id : string;
  f_volume_name : string;
  f_claim_namespace : string;
  f_claim_name : string;
  f_reclaim_policy : string;
  f_annotations : BTreeMap string;
}.

Definition unused_days (f : Finding) : Z := f_age f / NANOS / (24 * 3600).

(** ** Classifying (decide.rs) *)

(** Whether the claim of a template is inside the replica range of its set: the
    first set and template the name fits. *)
Definition slot_of_template (c : Pvc) (s : ScanStatefulSet) (tmpl : string) : option bool :=
  match strip_prefix (tmpl +:+ "-" +:+ s_name s +:+ "-") (p_name c) with
  | None => None
  | Some rest =>
      match parse_i32 rest with
      | None => None
      | Some ordinal =>
          Some ((s_ordinal_start s <=? ordinal) && (ordinal <? RecStore.i32_wrap (s_ordinal_start s + s_replicas s)))
      end
  end.

Definition slot_of_set (c : Pvc) (s : ScanStatefulSet) : option bool :=
  if String.eqb (s_namespace s) (p_namespace c) then Strings.find_map (slot_of_template c s) (s_claim_templates s)
  else None.

Definition stateful_set_slot (c : Pvc) (sets : list ScanStatefulSet) : option bool := Strings.find_map (slot_of_set c) sets.

Definition classify_pvc (c : Pvc) (in_use : gset string) (sets : list ScanStatefulSet) (key : string) : bool * string :=
  if decide (key ∈ in_use) then (false, REASON_MOUNTED_BY_POD) else
  match stateful_set_slot c sets with
  | Some true => (false, REASON_STATEFULSET_SLOT)
  | Some false => (true, REASON_STATEFULSET_SCALED_DOWN)
  | None =>
      if negb (String.eqb (p_phase c) PHASE_BOUND) then (true, REASON_UNBOUND)
      else (true, REASON_NO_CONSUMER_POD)
  end.

Definition classify_pv (v : Pv) (key : string) (claim_unused : gmap string bool) (claim_uid : gmap string string)
    : bool * string :=
  if String.eqb (v_phase v) PHASE_AVAILABLE then (true, REASON_AVAILABLE)
  else if String.eqb (v_phase v) PHASE_RELEASED then (true, REASON_RELEASED)
  else if String.eqb (v_phase v) PHASE_FAILED then (true, REASON_FAILED)
  else if String.eqb (v_phase v) PHASE_BOUND then
    if str_is_empty (v_claim_name v) then (true, REASON_MISSING_CLAIM) else
    match (claim_unused !! key : option bool) with
    | None => (true, REASON_MISSING_CLAIM)
    | Some unused =>
        if negb (str_is_empty (v_claim_uid v)) && negb (bool_decide (claim_uid !! key = Some (v_claim_uid v)))
        then (true, REASON_MISSING_CLAIM)
        else if unused then (true, REASON_UNUSED_CLAIM) else (false, REASON_BOUND_TO_USED_CLAIM)
    end
  else (false, REASON_PENDING).

Definition PREFIX : string := "volume-autoscaler".
Definition key (suffix : string) : string := PREFIX +:+ "/" +:+ suffix.

Definition KEY_UNUSED : string := "unused".
Definition KEY_UNUSED_SINCE : string := "unused-since".
Definition KEY_UNUSED_REASON : string := "unused-reason".
Definition KEY_UNUSED_DAYS : string := "unused-days".
Definition KEY_VOLUME_ID : string := "volume-id".
Definition KEY_OBSERVED_AT : string := "unused-observed-at".
Definition DATA_KEYS : list string := [KEY_UNUSED; KEY_UNUSED_SINCE; KEY_UNUSED_REASON; KEY_UNUSED_DAYS; KEY_VOLUME_ID].

(** A day, in nanoseconds. *)
Definition REFRESH_INTERVAL : Z := 24 * 3600 * NANOS.

Section Times.
Context (rfc3339_secs : Z -> string) (parse_rfc3339 : string -> option Z).

Definition unused_since (existing : BTreeMap string) (now : Z) : Z :=
  match bt_get (key KEY_UNUSED_SINCE) existing ≫= parse_rfc3339 with
  | Some t => if t <=? now then t else now
  | None => now
  end.

Definition finalize (f : Finding) (min_age now : Z) : Finding :=
  if negb (f_unused f) then f else
  let since := unused_since (f_annotations f) now in
  let age := Z.max 0 (now - since) in
  mkFinding (f_kind f) (f_namespace f) (f_name f) (f_uid f) (f_unused f) (f_reason f) (Some since) age (min_age <=? age)
    (f_capacity_bytes f) (f_storage_class f) (f_volume_id f) (f_volume_name f) (f_claim_namespace f) (f_claim_name f)
    (f_reclaim_policy f) (f_annotations f).

Definition claim_key (c : Pvc) : string := p_namespace c +:+ "/" +:+ p_name c.
Definition volume_claim_key (v : Pv) : string := v_claim_namespace v +:+ "/" +:+ v_claim_name v.

(** Only the sets of the claim's namespace are looked at. *)
Definition sets_in (inv : Inventory) (namespace : string) : list ScanStatefulSet :=
  List.filter (fun s => String.eqb (s_namespace s) namespace) (stateful_sets inv).

Definition claim_verdict (inv : Inventory) (c : Pvc) : bool * string :=
  classify_pvc c (claims_in_use inv) (sets_in inv (p_namespace c)) (claim_key c).

(** [HashMap::insert] for each claim in turn. *)
Definition insert_each {A} (value : Pvc -> A) (cs : list Pvc) : gmap string A :=
  foldl (fun m c => <[claim_key c := value c]> m) ∅ cs.

Definition volume_ids (inv : Inventory) : gmap string string :=
  foldl (fun m v => <[v_name v := v_volume_id v]> m) ∅ (pvs inv).

Definition claim_finding (inv : Inventory) (c : Pvc) : Finding :=
  let '(unused, reason) := claim_verdict inv c in
  mkFinding KIND_PVC (p_namespace c) (p_name c) (p_uid c) unused reason None 0 false (p_capacity_bytes c)
    (p_storage_class c) (default EmptyString (volume_ids inv !! p_volume_name c)) (p_volume_name c)
    EmptyString EmptyString EmptyString (p_annotations c).

Definition volume_verdict (inv : Inventory) (v : Pv) : bool * string :=
  classify_pv v (volume_claim_key v) (insert_each (fun c => (claim_verdict inv c).1) (pvcs inv))
    (insert_each p_uid (pvcs inv)).

Definition volume_finding (inv : Inventory) (v : Pv) : Finding :=
  let '(unused, reason) := volume_verdict inv v in
  mkFinding KIND_PV EmptyString (v_name v) (v_uid v) unused reason None 0 false (v_capacity_bytes v)
    (v_storage_class v) (v_volume_id v) EmptyString (v_claim_namespace v) (v_claim_name v) (v_reclaim_policy v)
    (v_annotations v).

Definition classify (inv : Inventory) (min_age now : Z) : list Finding :=
  map (fun c => finalize (claim_finding inv c) min_age now) (pvcs inv) ++
  map (fun v => finalize (volume_finding inv v) min_age now) (pvs inv).

(** ** Annotations (annotations.rs) *)

Record AnnotationSet := mkAnnotationSet { set_ : BTreeMap string; remove : list string }.

Definition put (k v : string) (m : BTreeMap string) : BTreeMap string := bt_upsert (fun _ => v) k m.

Definition desired_values (f : Finding) : BTreeMap string :=
  if f_unused f then
    let m := put (key KEY_UNUSED) "true" [] in
    let m := put (key KEY_UNUSED_SINCE) (from_option rfc3339_secs EmptyString (f_unused_since f)) m in
    let m := put (key KEY_UNUSED_REASON) (f_reason f) m in
    let m := put (key KEY_UNUSED_DAYS) (pretty (unused_days f)) m in
    if str_is_empty (f_volume_id f) then m else put (key KEY_VOLUME_ID) (f_volume_id f) m
  else [].

Definition build_annotations (f : Finding) : AnnotationSet :=
  let set := desired_values f in
  mkAnnotationSet set
    (List.filter (fun k => negb (is_some (bt_get k set))) (map key DATA_KEYS) ++
     (if f_unused f then [] else [key KEY_OBSERVED_AT])).

(** The ages are compared as [TimeDelta]s, which hold them all. *)
Definition observed_at_is_stale (raw : option string) (now refresh : Z) : bool :=
  match raw ≫= parse_rfc3339 with
  | None => true
  | Some last => refresh <=? now - last
  end.

Definition needs_write (a : AnnotationSet) (existing : BTreeMap string) (now : Z) : bool :=
  let still_present := existsb (fun k => is_some (bt_get k existing)) (remove a) in
  match set_ a with
  | [] => still_present
  | _ =>
      existsb (fun kv => negb (bool_decide (bt_get kv.1 existing = Some kv.2))) (set_ a) || still_present ||
      observed_at_is_stale (bt_get (key KEY_OBSERVED_AT) existing) now REFRESH_INTERVAL
  end.

(** ** A pass (pvscan.rs) *)

Definition REASON_UNUSED_DETECTED : string := "UnusedVolumeDetected".
Definition REASON_UNUSED_CLEARED : string := "UnusedVolumeCleared".
Definition OUTCOME_WRITTEN : string := "written".
Definition OUTCOME_UNCHANGED : string := "unchanged".
Definition OUTCOME_DRY_RUN : string := "dry_run".

(** [KubeApi]: the inventory, and the patch of the annotations of a claim or,
    without a namespace, of a volume. *)
Record ScanServices := mkScanServices {
  inventory : result string Inventory;
  annotate_pvc : string -> string -> BTreeMap string -> list string -> result string unit;
  annotate_pv : string -> BTreeMap string -> list string -> result string unit;
}.

Inductive ScanEvent :=
  | ResetUnused
  | ObservedUnused (f : Finding)
  | Annotated (kind namespace name : string) (set : BTreeMap string) (remove : list string)
  | ScanObservedError (stage : string)
  | ScanEventEmitted (kind namespace name uid reason message : string)
  | ObservedSummary (kind reason : string) (count : nat) (capacity_bytes : Z).

Section Pass.
Context (svc : ScanServices) (dry_run has_events : bool).

Definition report (f : Finding) : list ScanEvent := if f_reportable f then [ObservedUnused f] else [].

Definition describe_capacity (f : Finding) : string :=
  if f_capacity_bytes f =? 0 then "no provisioned capacity"
  else
    let size := pretty (Z.quot (f_capacity_bytes f) (2 ^ 30)) +:+ "Gi" in
    if str_is_empty (f_volume_id f) then size else size +:+ " on " +:+ f_volume_id f.

Definition emit (f : Finding) (outcome : string) : list ScanEvent :=
  if negb has_events || dry_run then []
  else if f_reportable f then
    [ScanEventEmitted (f_kind f) (f_namespace f) (f_name f) (f_uid f) REASON_UNUSED_DETECTED
       ("Unused for " +:+ pretty (unused_days f) +:+ " days (" +:+ f_reason f +:+ "), holding " +:+ describe_capacity f +:+
        ". Nothing was deleted. Review and remove it manually if the data is no longer needed.")]
  else if negb (f_unused f) && String.eqb outcome OUTCOME_WRITTEN then
    [ScanEventEmitted (f_kind f) (f_namespace f) (f_name f) (f_uid f) REASON_UNUSED_CLEARED
       ("Back in use (" +:+ f_reason f +:+ "). The unused mark has been removed.")]
  else [].

(** The values that are written when any is. *)
Definition stamped (a : AnnotationSet) (now : Z) : AnnotationSet :=
  match set_ a with
  | [] => a
  | _ => mkAnnotationSet (put (key KEY_OBSERVED_AT) (rfc3339_secs now) (set_ a)) (remove a)
  end.

Definition scan_publish (f : Finding) (now : Z) : list ScanEvent * result string string :=
  let desired := build_annotations f in
  if negb (needs_write desired (f_annotations f) now) then ([], Ok OUTCOME_UNCHANGED) else
  let desired := stamped desired now in
  if dry_run then ([], Ok OUTCOME_DRY_RUN) else
  let answer :=
    if String.eqb (f_kind f) KIND_PVC then annotate_pvc svc (f_namespace f) (f_name f) (set_ desired) (remove desired)
    else annotate_pv svc (f_name f) (set_ desired) (remove desired) in
  ([Annotated (f_kind f) (f_namespace f) (f_name f) (set_ desired) (remove desired)],
   match answer with Ok _ => Ok OUTCOME_WRITTEN | Err e => Err e end).

Definition settle (f : Finding) (now : Z) : list ScanEvent :=
  let '(es, r) := scan_publish f now in
  report f ++ es ++
  match r with
  | Ok outcome => emit f outcome
  | Err _ => [ScanObservedError "pv_annotate"]
  end.

(** [i64] arithmetic, which wraps. *)
Definition i64_wrap (z : Z) : Z := (z + 2 ^ 63) mod 2 ^ 64 - 2 ^ 63.

Definition summary_of (findings : list Finding) (kind reason : string) : ScanEvent :=
  let mine := List.filter (fun f => f_reportable f && String.eqb (f_kind f +:+ "/" +:+ f_reason f) (kind +:+ "/" +:+ reason)) findings in
  ObservedSummary kind reason (length mine) (foldl (fun b f => i64_wrap (b + f_capacity_bytes f)) 0 mine).

Definition summarize (findings : list Finding) : list ScanEvent :=
  map (summary_of findings KIND_PVC) UNUSED_PVC_REASONS ++ map (summary_of findings KIND_PV) UNUSED_PV_REASONS.

Definition scan (min_age now : Z) : list ScanEvent * result string nat :=
  match inventory svc with
  | Err e => ([ScanObservedError "pv_inventory"], Err ("read volume inventory: " +:+ e))
  | Ok inv =>
      let findings := classify inv min_age now in
      ([ResetUnused] ++ mjoin (map (fun f => settle f now) findings) ++ summarize findings, Ok (length findings))
  end.
End Pass.
End Times.

(** The merge patch of the annotations on those that are stored. *)
Definition annotation_patch (set : BTreeMap string) (remove : list string) (stored : BTreeMap string) : BTreeMap string :=
  List.filter (fun kv => negb (existsb (String.eqb kv.1) remove)) (foldl (fun m kv => put kv.1 kv.2 m) stored set).

(** ** Reading the cluster (kube.rs) *)

(** The fields of the objects that are read: those of a missing part are
    missing. *)
Record RawClaim := mkRawClaim {
  rc_meta : Claims.ObjectMeta;
  rc_phase : option string;
  rc_volume_name : option string;
  rc_storage_class : option string;
  rc_capacity : option (BTreeMap Quantity);
  rc_requests : option (BTreeMap Quantity);
}.

Record RawVolume := mkRawVolume {
  rv_meta : Claims.ObjectMeta;
  rv_phase : option string;
  rv_storage_class : option string;
  rv_capacity : option (BTreeMap Quantity);
  rv_reclaim_policy : option string;
  (** [spec.claimRef]. *)
  rv_claim : option Claims.ObjectMeta;
  (** [spec.csi]: the driver and the volume handle. *)
  rv_csi : option (string * string);
  rv_aws_volume_id : option string;
}.

(** A Pod with the claims its volumes name. *)
Record RawPod := mkRawPod { pod_namespace : option string; pod_phase : option string; pod_claims : list string }.

Record RawStatefulSet := mkRawStatefulSet {
  rs_meta : Claims.ObjectMeta;
  rs_replicas : option Z;
  rs_ordinal_start : option Z;
  rs_templates : list (option string);
}.

Definition EBS_CSI_DRIVER : string := "ebs.csi.aws.com".

Section Reading.
Context (powi10 : Z -> f64).

(** [num.parse::<f64>()], of digits, points and signs. *)
Definition parse_signed_f64 (s : string) : option f64 :=
  match s with
  | String c r =>
      if Ascii.eqb c "-" then option_map SFopp (parse_f64 r)
      else if Ascii.eqb c "+" then parse_f64 r
      else parse_f64 s
  | EmptyString => None
  end.

Definition number_char (c : ascii) : bool :=
  is_ascii_digit c || Ascii.eqb c "." || Ascii.eqb c "-" || Ascii.eqb c "+".

Fixpoint split_suffix (s : string) : string * string :=
  match s with
  | EmptyString => (EmptyString, EmptyString)
  | String c r =>
      if number_char c then let '(num, suffix) := split_suffix r in (String c num, suffix)
      else (EmptyString, s)
  end.

Definition quantity_scale (suffix : string) : option f64 :=
  let named := [("", f64_of_Z 1); ("Ki", f64_of_Z (2 ^ 10)); ("Mi", f64_of_Z (2 ^ 20)); ("Gi", f64_of_Z (2 ^ 30));
                ("Ti", f64_of_Z (2 ^ 40)); ("Pi", f64_of_Z (2 ^ 50)); ("Ei", f64_of_Z (2 ^ 60)); ("m", f64_decimal 1 3);
                ("k", f64_of_Z (10 ^ 3)); ("M", f64_of_Z (10 ^ 6)); ("G", f64_of_Z (10 ^ 9)); ("T", f64_of_Z (10 ^ 12));
                ("P", f64_of_Z (10 ^ 15)); ("E", f64_of_Z (10 ^ 18))] in
  match List.find (fun ns => String.eqb ns.1 suffix) named with
  | Some ns => Some ns.2
  | None =>
      match suffix with
      | String c e => if Ascii.eqb c "e" || Ascii.eqb c "E" then option_map powi10 (parse_i32 e) else None
      | EmptyString => None
      end
  end.

(** [Quantity.Value()]: rounded up, saturating, 0 where it does not parse. *)
Definition parse_quantity (s : string) : Z :=
  let '(num, suffix) := split_suffix (trim s) in
  match parse_signed_f64 num, quantity_scale suffix with
  | Some value, Some scale => Z.max 0 (f64_as i64_min i64_max (f64_ceil (f64_mul value scale)))
  | _, _ => 0
  end.

Definition storage_bytes (l : BTreeMap Quantity) : Z := from_option parse_quantity 0 (bt_get "storage" l).

Definition claim_capacity_bytes (p : RawClaim) : Z :=
  let bound := from_option storage_bytes 0 (rc_capacity p) in
  if 0 <? bound then bound else from_option storage_bytes 0 (rc_requests p).

Definition from_pvc (p : RawClaim) : Pvc :=
  mkPvc (default EmptyString (Claims.m_namespace (rc_meta p))) (default EmptyString (Claims.m_name (rc_meta p)))
    (default EmptyString (Claims.m_uid (rc_meta p))) (default EmptyString (rc_phase p))
    (default EmptyString (rc_volume_name p)) (default EmptyString (rc_storage_class p)) (claim_capacity_bytes p)
    (default [] (Claims.m_annotations (rc_meta p))).

Definition ebs_volume_id (v : RawVolume) : string :=
  let in_tree :=
    match rv_aws_volume_id v with
    | Some raw =>
        let id := match rsplit_once "/" raw with Some (_, id) => id | None => raw end in
        if starts_with "vol-" id then id else EmptyString
    | None => EmptyString
    end in
  match rv_csi v with
  | Some (driver, handle) => if String.eqb driver EBS_CSI_DRIVER then handle else in_tree
  | None => in_tree
  end.

Definition from_pv (v : RawVolume) : Pv :=
  mkPv (default EmptyString (Claims.m_name (rv_meta v))) (default EmptyString (Claims.m_uid (rv_meta v)))
    (default EmptyString (rv_phase v)) (default EmptyString (rv_storage_class v))
    (from_option storage_bytes 0 (rv_capacity v)) (default EmptyString (rv_reclaim_policy v))
    (default EmptyString (rv_claim v ≫= Claims.m_namespace)) (default EmptyString (rv_claim v ≫= Claims.m_name))
    (default EmptyString (rv_claim v ≫= Claims.m_uid)) (ebs_volume_id v)
    (default [] (Claims.m_annotations (rv_meta v))).

(** A Pod whose containers may still mount its volumes. *)
Definition pod_live (p : RawPod) : bool :=
  let phase := default EmptyString (pod_phase p) in
  negb (String.eqb phase "Succeeded" || String.eqb phase "Failed").

Definition pod_claim_keys (p : RawPod) : list string :=
  map (fun c => default EmptyString (pod_namespace p) +:+ "/" +:+ c) (pod_claims p).

Definition claims_in_use_of (pods : list RawPod) : gset string :=
  foldl (fun s p => if pod_live p then foldl (fun s k => {[ k ]} ∪ s) s (pod_claim_keys p) else s) ∅ pods.

Definition from_stateful_set (s : RawStatefulSet) : ScanStatefulSet :=
  mkScanStatefulSet (default EmptyString (Claims.m_namespace (rs_meta s))) (default EmptyString (Claims.m_name (rs_meta s)))
    (default 1 (rs_replicas s)) (default 0 (rs_ordinal_start s)) (omap id (rs_templates s)).

Definition read_inventory (cs : list RawClaim) (vs : list RawVolume) (pods : list RawPod) (sets : list RawStatefulSet)
    : Inventory :=
  mkInventory (map from_pvc cs) (map from_pv vs) (claims_in_use_of pods) (map from_stateful_set sets).
End Reading.
