(* ===== verification/ScanFacts.v ===== *)
(** * What a scan marks and reports (volume-autoscaler: pvscan.rs, pvscan/)

    Nothing that is consumed is found unused; the annotations of an object follow
    its verdict; and what is reported has been found unused by every pass of a
    day. *)

From Corelib Require Import SpecFloat.
From stdpp Require Import prelude list strings pretty gmap sorting relations.
From Stdlib Require Import ZArith Lia Ascii.
From S2P Require Import Prelude.
From S2P Require Import Strings.
From S2P Require Import BTree.
From S2P Require Import F64.
From S2P Require Import Autoscaler.
From S2P Require Claims.
From S2P Require Import VolumeScan.

(** ** Quantities *)

Definition tens (z : Z) : f64 := f64_of_Z (10 ^ z).

Example quantities :
  map (parse_quantity tens) ["10Gi"; "1.5k"; "100m"; "2e3"; " 7 "; "-1Gi"; "Gi"; "1.2.3"; "16Ei"] =
  [10737418240; 1500; 1; 2000; 7; 0; 0; 0; i64_max].
Proof. vm_compute. reflexivity. Qed.

(** ** Consumed claims *)

Lemma in_use_foldl pods (s : gset string) k :
  k ∈ foldl (fun s p => if pod_live p then foldl (fun s k => {[ k ]} ∪ s) s (pod_claim_keys p) else s) s pods <->
  k ∈ s \/ exists p, p ∈ pods /\ pod_live p = true /\ k ∈ pod_claim_keys p.
Proof.
  assert (Hkeys : forall ks (s : gset string), k ∈ foldl (fun s k => {[ k ]} ∪ s) s ks <-> k ∈ s \/ k ∈ ks).
  { induction ks as [|x ks IH]; intros s'; cbn; [rewrite elem_of_nil; tauto|].
    rewrite IH, elem_of_union, elem_of_singleton, elem_of_cons. tauto. }
  revert s. induction pods as [|p pods IH]; intros s; cbn.
  - split; [by left|]. intros [|(p & Hp & _)]; [done|]. by apply not_elem_of_nil in Hp.
  - rewrite IH. destruct (pod_live p) eqn:E.
    + rewrite Hkeys. split.
      * intros [[?|?]|(q & ? & ? & ?)]; [by left|right; exists p|right; exists q]; split_and!; try done; by constructor.
      * intros [?|(q & [->|Hq]%elem_of_cons & H1 & H2)]; [by left; left|by left; right|right; by exists q].
    + split; intros [?|(q & Hq & H1 & H2)]; [by left| |by left|].
      * right. exists q. split; [by constructor|done].
      * apply elem_of_cons in Hq as [->|Hq]; [by rewrite E in H1|right; by exists q].
Qed.

Lemma claims_in_use_of_spec pods k :
  k ∈ claims_in_use_of pods <-> exists p, p ∈ pods /\ pod_live p = true /\ k ∈ pod_claim_keys p.
Proof. unfold claims_in_use_of. rewrite in_use_foldl. split; [|by right]. by intros [?%elem_of_empty|]. Qed.

Lemma insert_each_lookup {A} (value : Pvc -> A) cs c :
  NoDup (claim_key <$> cs) -> c ∈ cs -> insert_each value cs !! claim_key c = Some (value c).
Proof.
  unfold insert_each. generalize (∅ : gmap string A). induction cs as [|d cs IH]; intros m; [by intros _ ?%not_elem_of_nil|].
  rewrite fmap_cons, NoDup_cons. intros [Hd Hn] [->|Hc]%elem_of_cons; cbn; [|by apply IH].
  clear IH Hn.
  assert (G : forall m : gmap string A, m !! claim_key d = Some (value d) ->
    foldl (fun m c => <[claim_key c := value c]> m) m cs !! claim_key d = Some (value d)).
  { induction cs as [|e cs IH]; cbn; intros m' Hm; [done|]. rewrite fmap_cons, not_elem_of_cons in Hd.
    apply IH; [tauto|]. by rewrite lookup_insert_ne by (intros E; by destruct Hd). }
  apply G. by rewrite lookup_insert_eq.
Qed.

Section Consumed.
Context (parse_rfc3339 : string -> option Z).

(** A live Pod names the claim, or it is in the replica range of its set. *)
Definition consumed (pods : list RawPod) (inv : Inventory) (c : Pvc) : Prop :=
  (exists p, p ∈ pods /\ pod_live p = true /\ claim_key c ∈ pod_claim_keys p) \/
  stateful_set_slot c (sets_in inv (p_namespace c)) = Some true.

(** The volume is bound to the claim, to this one by its UID if it has one. *)
Definition bound_to (v : Pv) (c : Pvc) : Prop :=
  v_phase v = PHASE_BOUND /\ v_claim_namespace v = p_namespace c /\ v_claim_name v = p_name c /\
  (v_claim_uid v = EmptyString \/ v_claim_uid v = p_uid c).

Lemma finalize_unused f min_age now : f_unused (finalize parse_rfc3339 f min_age now) = f_unused f.
Proof. unfold finalize. by destruct (f_unused f) eqn:E; cbn. Qed.

Lemma claim_verdict_consumed pods inv c :
  claims_in_use inv = claims_in_use_of pods -> consumed pods inv c -> (claim_verdict inv c).1 = false.
Proof.
  intros Hin Hc. unfold claim_verdict, classify_pvc. case_decide as Hk; [done|]. destruct Hc as [Hp|Hs].
  - rewrite Hin in Hk. by apply claims_in_use_of_spec in Hp.
  - by rewrite Hs.
Qed.

Lemma finalize_same f min_age now :
  f_kind (finalize parse_rfc3339 f min_age now) = f_kind f /\
  f_namespace (finalize parse_rfc3339 f min_age now) = f_namespace f /\
  f_name (finalize parse_rfc3339 f min_age now) = f_name f.
Proof. unfold finalize. by destruct (f_unused f). Qed.

Lemma volume_verdict_consumed pods inv c v :
  claims_in_use inv = claims_in_use_of pods -> NoDup (claim_key <$> pvcs inv) -> c ∈ pvcs inv ->
  p_name c <> EmptyString -> consumed pods inv c -> bound_to v c -> (volume_verdict inv v).1 = false.
Proof.
  intros Hin Hn Hc Hname Hcons (Hphase & Hns & Hcn & Huid).
  assert (Hkey : volume_claim_key v = claim_key c) by (unfold volume_claim_key, claim_key; by rewrite Hns, Hcn).
  unfold volume_verdict, classify_pv. rewrite Hphase, Hcn, Hkey. cbn.
  destruct (str_is_empty (p_name c)) eqn:Ee; [by destruct (p_name c)|].
  rewrite (insert_each_lookup (fun c => (claim_verdict inv c).1)), (claim_verdict_consumed pods) by done.
  rewrite (insert_each_lookup p_uid) by done. destruct Huid as [->| ->]; cbn; [done|].
  rewrite bool_decide_eq_true_2 by done. by rewrite andb_false_r.
Qed.

(** Nothing that is consumed is found unused: when the cluster is read as a
    whole, a claim that a live Pod mounts, or that is in the replica range of its
    stateful set, is not among the unused ones of a scan, and neither is a volume
    bound to it. *)
Theorem consumed_never_unused powi10 cs vs pods sets min_age now c f :
  let inv := read_inventory powi10 cs vs pods sets in
  NoDup (claim_key <$> pvcs inv) -> NoDup (v_name <$> pvs inv) ->
  c ∈ pvcs inv -> p_name c <> EmptyString -> consumed pods inv c ->
  f ∈ classify parse_rfc3339 inv min_age now -> f_unused f = true ->
  ~ (f_kind f = KIND_PVC /\ f_namespace f = p_namespace c /\ f_name f = p_name c) /\
  ~ (f_kind f = KIND_PV /\ exists v, v ∈ pvs inv /\ v_name v = f_name f /\ bound_to v c).
Proof.
  intros inv Hn Hv Hc Hname Hcons Hf Hu. assert (Hin : claims_in_use inv = claims_in_use_of pods) by done.
  apply elem_of_app in Hf as [(d & -> & Hd)%list_elem_of_fmap|(v & -> & Hvin)%list_elem_of_fmap];
    rewrite finalize_unused in Hu.
  - destruct (finalize_same (claim_finding inv d) min_age now) as (Hk & Hns & Hnm). rewrite Hk, Hns, Hnm. clear Hk Hns Hnm.
    unfold claim_finding in *. destruct (claim_verdict inv d) as [u r] eqn:Ed. cbn in *. split; [|by intros [? _]].
    intros (_ & H1 & H2). assert (d = c) as ->.
    { apply (nodup_key_inj claim_key (pvcs inv)); try done. unfold claim_key. by rewrite H1, H2. }
    pose proof (claim_verdict_consumed pods inv c Hin Hcons) as H. rewrite Ed in H. cbn in H. congruence.
  - destruct (finalize_same (volume_finding inv v) min_age now) as (Hk & Hns & Hnm). rewrite Hk, Hns, Hnm. clear Hk Hns Hnm.
    unfold volume_finding in *. destruct (volume_verdict inv v) as [u r] eqn:Ed. cbn in *. split; [by intros [? _]|].
    intros (_ & w & Hw & Hnm & Hb). assert (w = v) as ->.
    { by apply (nodup_key_inj v_name (pvs inv)). }
    pose proof (volume_verdict_consumed pods inv c v Hin Hn Hc Hname Hcons Hb) as H. rewrite Ed in H. cbn in H. congruence.
Qed.
End Consumed.

(** ** Annotations *)

Lemma foldl_put_sorted (set m : BTreeMap string) : bt_sorted m -> bt_sorted (foldl (fun m kv => put kv.1 kv.2 m) m set).
Proof. revert m. induction set as [|kv set IH]; intros m Hm; cbn; [done|]. by apply IH, bt_upsert_sorted. Qed.

Lemma bt_get_foldl_put k (set m : BTreeMap string) :
  bt_sorted set ->
  bt_get k (foldl (fun m kv => put kv.1 kv.2 m) m set) = match bt_get k set with Some v => Some v | None => bt_get k m end.
Proof.
  intros Hs. revert m. induction set as [|[j v] set IH]; intros m; cbn [foldl fst snd]; [done|].
  apply StronglySorted_inv in Hs as [Hs Hj]. rewrite (IH Hs). destruct (decide (k = j)) as [->|Hne].
  - destruct (bt_get j set) as [w|] eqn:Ej.
    + apply bt_get_entry in Ej; [|done]. change (Forall (str_lt j) set.*1) in Hj. rewrite Forall_forall in Hj.
      destruct (str_lt_irrefl j). apply Hj. by apply (list_elem_of_fmap_2 fst set (j, w)).
    + cbn. rewrite (proj2 (str_compare_eq j j) eq_refl). unfold put. by rewrite bt_get_upsert.
  - cbn. destruct (String.compare k j) eqn:E.
    + by apply str_compare_eq in E.
    + destruct (bt_get k set) as [w|] eqn:Ek; [|unfold put; by rewrite bt_get_upsert_ne].
      apply bt_get_entry in Ek; [|done]. change (Forall (str_lt j) set.*1) in Hj. rewrite Forall_forall in Hj.
      destruct (str_lt_irrefl k). apply (str_lt_trans k j); [done|]. apply Hj. by apply (list_elem_of_fmap_2 fst set (k, w)).
    + destruct (bt_get k set); [done|]. unfold put. by rewrite bt_get_upsert_ne.
Qed.

Lemma filter_keys_sorted {V} (p : string -> bool) (m : BTreeMap V) :
  bt_sorted m -> bt_sorted (List.filter (fun kv => p kv.1) m).
Proof.
  unfold bt_sorted. induction m as [|[k v] m IH]; cbn; [done|]. intros [Hs Hk]%StronglySorted_inv.
  destruct (p k); cbn; [|by apply IH]. constructor; [by apply IH|]. rewrite Forall_forall in *. intros j Hj.
  apply Hk. apply list_elem_of_fmap in Hj as ([j' w] & -> & Hj). apply list_elem_of_In, List.filter_In in Hj as [Hj _].
  by apply (list_elem_of_fmap_2 fst m (j', w)), list_elem_of_In.
Qed.

Lemma bt_get_filter {V} (p : string -> bool) (m : BTreeMap V) k :
  bt_sorted m -> bt_get k (List.filter (fun kv => p kv.1) m) = if p k then bt_get k m else None.
Proof.
  intros Hm. apply option_eq. intros v. rewrite <- bt_get_entry by (by apply filter_keys_sorted).
  rewrite list_elem_of_In, List.filter_In, <- list_elem_of_In, bt_get_entry by done. cbn.
  destruct (p k); [tauto|]. split; [by intros [_ ?]|done].
Qed.

(** What a patch leaves of an annotation. *)
Lemma annotation_patch_spec set rem stored k :
  bt_sorted set -> bt_sorted stored ->
  bt_sorted (annotation_patch set rem stored) /\
  bt_get k (annotation_patch set rem stored) =
    if existsb (String.eqb k) rem then None
    else match bt_get k set with Some v => Some v | None => bt_get k stored end.
Proof.
  intros Hset Hst. pose proof (foldl_put_sorted set stored Hst) as Hp. unfold annotation_patch.
  split; [by apply (filter_keys_sorted (fun k => negb (existsb (String.eqb k) rem)))|].
  rewrite (bt_get_filter (fun k => negb (existsb (String.eqb k) rem))) by done. rewrite bt_get_foldl_put by done.
  by destruct (existsb _ rem).
Qed.

(** ** The clock *)

Section Clock.
Context (rfc3339_secs : Z -> string) (parse_rfc3339 : string -> option Z).

(** Dates from 1970 on. *)
Definition date (t : Z) : Prop := 0 <= t <= chrono_max.
Definition to_second (t : Z) : Z := t / NANOS * NANOS.

(** A rendered date is read back to the second. *)
Hypothesis rendered : forall t, date t -> parse_rfc3339 (rfc3339_secs t) = Some (to_second t).

Abbreviation SINCE := (key KEY_UNUSED_SINCE).

Lemma to_second_again t : to_second (to_second t) = to_second t.
Proof. unfold to_second, NANOS. by rewrite Z.div_mul. Qed.

Lemma to_second_date t : date t -> date (to_second t).
Proof. unfold date, to_second, NANOS. pose proof (Z.div_mod t (10 ^ 9)). pose proof (Z.mod_pos_bound t (10 ^ 9)). lia. Qed.

Lemma desired_sorted f : bt_sorted (desired_values rfc3339_secs f).
Proof.
  unfold desired_values, put. destruct (f_unused f); [|by constructor].
  destruct (str_is_empty _); repeat apply bt_upsert_sorted; by constructor.
Qed.

Lemma desired_since f t :
  f_unused f = true -> f_unused_since f = Some t -> bt_get SINCE (desired_values rfc3339_secs f) = Some (rfc3339_secs t).
Proof.
  intros Hu Hs. unfold desired_values, put. rewrite Hu, Hs. cbn [from_option].
  destruct (str_is_empty _); repeat (rewrite bt_get_upsert_ne by done); by rewrite bt_get_upsert.
Qed.

Lemma desired_in_use f : f_unused f = false -> desired_values rfc3339_secs f = [].
Proof. intros Hu. unfold desired_values. by rewrite Hu. Qed.

(** One patch of the annotations of an object, as [Annotated] reports it. *)
Definition patched (stored : BTreeMap string) (es : list ScanEvent) : BTreeMap string :=
  foldl (fun a e => match e with Annotated _ _ _ set rem => annotation_patch set rem a | _ => a end) stored es.

(** After a pass the mark of an object in use is gone, and that of an unused one
    is the time its finding says - if it was rewritten; else it is what it was. *)
Lemma publish_since svc f now es out :
  bt_sorted (f_annotations f) -> scan_publish rfc3339_secs parse_rfc3339 svc false f now = (es, Ok out) ->
  bt_sorted (patched (f_annotations f) es) /\
  (f_unused f = false -> bt_get SINCE (patched (f_annotations f) es) = None) /\
  (forall t, f_unused f = true -> f_unused_since f = Some t ->
    bt_get SINCE (patched (f_annotations f) es) = Some (rfc3339_secs t) \/ patched (f_annotations f) es = f_annotations f).
Proof.
  intros Hs E. unfold scan_publish in E. destruct (needs_write _ _ _ _) eqn:En; cbn [negb] in E.
  - injection E as <- _. cbn [patched foldl].
    set (st := stamped _ _ _). assert (Hset : bt_sorted (set_ st) /\ remove st = remove (build_annotations rfc3339_secs f) /\
      bt_get SINCE (set_ st) = bt_get SINCE (desired_values rfc3339_secs f)).
    { subst st. unfold stamped, build_annotations. cbn [set_ remove].
      pose proof (desired_sorted f) as Hd. destruct (desired_values rfc3339_secs f) as [|x l] eqn:Ed; [done|].
      cbn [set_ remove]. split_and!; [by apply bt_upsert_sorted|done|]. unfold put. by rewrite bt_get_upsert_ne. }
    destruct Hset as (Hset & Hrem & Hget).
    destruct (annotation_patch_spec (set_ st) (remove st) (f_annotations f) SINCE Hset Hs) as [Hsort Hval].
    split; [exact Hsort|]. rewrite Hval, Hrem, Hget. split.
    + intros Hu. unfold build_annotations. cbn [remove]. rewrite (desired_in_use f Hu), Hu. by vm_compute.
    + intros t Hu Ht. left. rewrite (desired_since f t Hu Ht).
      replace (existsb _ (remove (build_annotations rfc3339_secs f))) with false; [done|]. symmetry.
      apply not_true_is_false. intros (k & Hk & <-%String.eqb_eq)%existsb_exists.
      unfold build_annotations in Hk. cbn [remove] in Hk. rewrite Hu, app_nil_r in Hk.
      apply List.filter_In in Hk as [_ Hk]. by rewrite (desired_since f t Hu Ht) in Hk.
  - injection E as <- _. cbn [patched foldl]. split; [done|]. split; [|by right]. intros Hu.
    unfold needs_write, build_annotations in En. cbn [set_ remove] in En. rewrite (desired_in_use f Hu), Hu in En.
    destruct (bt_get SINCE (f_annotations f)) eqn:Eg; [|done].
    assert (Hk : existsb (fun k => is_some (bt_get k (f_annotations f)))
        (List.filter (fun k => negb (is_some (bt_get k ([] : BTreeMap string)))) (map key DATA_KEYS) ++ [key KEY_OBSERVED_AT]) = true).
    { apply existsb_exists. exists SINCE. split; [|by rewrite Eg]. vm_compute. by right; left. }
    by rewrite Hk in En.
Qed.
(** The annotations of an object over the passes and, the newest first, when
    each pass looked at it and whether it found it unused.  The patches of the
    passes are accepted; others may write the annotations, but not the clock. *)
Inductive observed (min_age : Z)
  : BTreeMap string * list (Z * bool) -> BTreeMap string * list (Z * bool) -> Prop :=
  | observed_pass a log f svc now es out :
      f_annotations f = a -> date now ->
      scan_publish rfc3339_secs parse_rfc3339 svc false (finalize parse_rfc3339 f min_age now) now = (es, Ok out) ->
      observed min_age (a, log) (patched a es, (now, f_unused f) :: log)
  | observed_other a a' log :
      bt_sorted a' -> bt_get SINCE a' = bt_get SINCE a -> observed min_age (a, log) (a', log).

(** A pass at [t], to the second, found the object unused, and so did every pass
    since. *)
Definition unused_from (log : list (Z * bool)) (t : Z) : Prop :=
  exists newer t0 older, log = newer ++ (t0, true) :: older /\ Forall (fun p => p.2 = true) newer /\
    t = to_second t0 /\ date t0.

Definition clock_kept (w : BTreeMap string * list (Z * bool)) : Prop :=
  bt_sorted w.1 /\ forall t, bt_get SINCE w.1 ≫= parse_rfc3339 = Some t -> unused_from w.2 t.

Lemma unused_from_again log t now : unused_from log t -> unused_from ((now, true) :: log) t.
Proof.
  intros (newer & t0 & older & -> & Hall & Ht & Hd). exists ((now, true) :: newer), t0, older.
  split_and!; [done|by constructor|done|done].
Qed.

Lemma finalize_annotations f min_age now :
  f_annotations (finalize parse_rfc3339 f min_age now) = f_annotations f /\
  (f_unused f = true -> f_unused_since (finalize parse_rfc3339 f min_age now) = Some (unused_since parse_rfc3339 (f_annotations f) now)).
Proof. unfold finalize. by destruct (f_unused f). Qed.

(** The clock an object shows comes from its annotation or starts now. *)
Lemma unused_since_from a log now :
  clock_kept (a, log) -> date now ->
  let t := unused_since parse_rfc3339 a now in
  date t /\ (unused_from log t /\ to_second t = t \/ t = now).
Proof.
  intros [_ Hc] Hd. cbn [fst snd] in Hc. unfold unused_since. destruct (bt_get SINCE a ≫= parse_rfc3339) as [t|]; [|by auto].
  specialize (Hc t eq_refl). destruct (t <=? now); [|by auto].
  destruct Hc as (newer & t0 & older & -> & Hall & -> & Ht0). split; [by apply to_second_date|]. left.
  split; [by exists newer, t0, older|apply to_second_again].
Qed.

Lemma observed_clock min_age w w' : observed min_age w w' -> clock_kept w -> clock_kept w'.
Proof.
  intros [a log f svc now es out <- Hd E|a a' log Hs Hget] Hc; [|split; [done|]; cbn; rewrite Hget; apply Hc].
  pose proof (unused_since_from _ _ now Hc Hd) as Hfrom. destruct Hc as [Hs Hc]. cbn [fst snd] in Hs, Hc.
  destruct (finalize_annotations f min_age now) as [Ha Hsince].
  apply publish_since in E as (Hsort & Hgone & Hmark); [|by rewrite Ha]. rewrite Ha in *.
  rewrite finalize_unused in Hgone, Hmark. split; [done|]. cbn [fst snd]. intros t Ht.
  destruct (f_unused f); [|by rewrite (Hgone eq_refl) in Ht].
  destruct (Hmark _ eq_refl (Hsince eq_refl)) as [Hnew|Hsame].
  - rewrite Hnew in Ht. cbn in Ht. destruct Hfrom as [Hdate Hfrom]. rewrite rendered in Ht by done. injection Ht as <-.
    destruct Hfrom as [[Hfrom ->]| ->]; [by apply unused_from_again|].
    exists [], now, log. by split_and!.
  - rewrite Hsame in Ht. by apply unused_from_again, Hc.
Qed.

(** C20: What is reported has been unused for the whole minimum age: when a scan
    reports an object, an earlier pass at least the minimum age ago, to the
    second, found it unused, and so did every pass since - provided that the
    patches of the passes are accepted and nobody else writes the clock. *)
Theorem reported_after_min_age min_age a0 a log f now :
  0 < min_age -> bt_sorted a0 -> bt_get SINCE a0 = None -> rtc (observed min_age) (a0, []) (a, log) ->
  f_annotations f = a -> date now -> f_reportable f = false ->
  f_reportable (finalize parse_rfc3339 f min_age now) = true ->
  exists newer t0 older, log = newer ++ (t0, true) :: older /\ Forall (fun p => p.2 = true) newer /\
    to_second t0 + min_age <= now.
Proof.
  intros Hmin Hs H0 Hrun <- Hd Hnot Hrep.
  assert (Hc : clock_kept (f_annotations f, log)).
  { remember (a0, []) as w eqn:Ew. remember (f_annotations f, log) as w' eqn:Ew'.
    assert (Hw : clock_kept w) by (subst w; split; [done|]; cbn; rewrite H0; done). clear Ew Ew'.
    induction Hrun as [|x y z Hxy _ IH]; [done|]. apply IH. by eapply observed_clock. }
  apply (unused_since_from _ _ now) in Hc as [_ Hfrom]; [|done]. unfold finalize in Hrep.
  destruct (f_unused f); cbn in Hrep; [|congruence]. apply Z.leb_le in Hrep.
  destruct Hfrom as [[(newer & t0 & older & -> & Hall & Ht & _) _]|Hn]; [|rewrite Hn in Hrep; lia].
  exists newer, t0, older. split_and!; [done..|]. rewrite <- Ht. lia.
Qed.
End Clock.

(** ** A cluster *)

Definition d_meta (namespace name uid : string) : Claims.ObjectMeta := Claims.mkMeta (Some name) (Some namespace) (Some uid) None.
Definition d_claim (name uid volume : string) : RawClaim :=
  mkRawClaim (d_meta "default" name uid) (Some "Bound") (Some volume) (Some "gp3") (Some [("storage", "10Gi")]) None.
Definition d_volume (name claim uid : string) : RawVolume :=
  mkRawVolume (d_meta "" name name) (Some "Bound") (Some "gp3") (Some [("storage", "10Gi")]) (Some "Delete")
    (Some (d_meta "default" claim uid)) (Some ("ebs.csi.aws.com", "vol-1")) None.

(** A claim that a Pod mounts, one that nothing does, and their volumes. *)
Definition d_inventory : Inventory :=
  read_inventory tens [d_claim "data" "u-1" "pv-1"; d_claim "old" "u-2" "pv-2"]
    [d_volume "pv-1" "data" "u-1"; d_volume "pv-2" "old" "u-2"]
    [mkRawPod (Some "default") (Some "Running") ["data"]; mkRawPod (Some "default") (Some "Succeeded") ["old"]] [].

Definition d_parse (s : string) : option Z := option_map (fun z => z * NANOS) (parse_i64 s).
Definition d_render (t : Z) : string := pretty (t / NANOS).
Definition d_now : Z := 1700000000 * NANOS.

Example d_verdicts :
  map (fun f => (f_name f, f_unused f, f_reason f)) (classify d_parse d_inventory MIN_UNUSED_AGE d_now) =
  [("data", false, "mounted_by_pod"); ("old", true, "no_consumer_pod");
   ("pv-1", false, "bound_to_used_claim"); ("pv-2", true, "bound_to_unused_claim")].
Proof. vm_compute. reflexivity. Qed.

Definition d_pvc (n : nat) : Pvc := default (from_pvc tens (d_claim "" "" "")) (pvcs d_inventory !! n).

Lemma consumed_never_unused_witness :
  let f := finalize d_parse (claim_finding d_inventory (d_pvc 1)) MIN_UNUSED_AGE d_now in
  f_unused f = true /\
  ~ (f_kind f = KIND_PVC /\ f_namespace f = "default" /\ f_name f = "data") /\
  ~ (f_kind f = KIND_PV /\ exists v, v ∈ pvs d_inventory /\ v_name v = f_name f /\ bound_to v (d_pvc 0)).
Proof.
  intros f. assert (Hu : f_unused f = true) by (vm_compute; reflexivity). split; [exact Hu|].
  apply (consumed_never_unused d_parse tens [d_claim "data" "u-1" "pv-1"; d_claim "old" "u-2" "pv-2"]
    [d_volume "pv-1" "data" "u-1"; d_volume "pv-2" "old" "u-2"]
    [mkRawPod (Some "default") (Some "Running") ["data"]; mkRawPod (Some "default") (Some "Succeeded") ["old"]] []
    MIN_UNUSED_AGE d_now (d_pvc 0) f).
  - vm_compute. repeat (constructor; [by intros H; repeat (apply elem_of_cons in H as [H|H]; [discriminate H|]); apply not_elem_of_nil in H|]).
    constructor.
  - vm_compute. repeat (constructor; [by intros H; repeat (apply elem_of_cons in H as [H|H]; [discriminate H|]); apply not_elem_of_nil in H|]).
    constructor.
  - vm_compute. left.
  - discriminate.
  - left. exists (mkRawPod (Some "default") (Some "Running") ["data"]). split; [left|]. split; [reflexivity|]. vm_compute. left.
  - apply list_elem_of_In. vm_compute. right. left. reflexivity.
  - exact Hu.
Defined.

Lemma d_rendered t : date t -> d_parse (d_render t) = Some (to_second t).
Proof.
  intros [H0 H1]. unfold d_parse, d_render. rewrite parse_i64_pretty; [done|].
  pose proof (Z.div_pos t NANOS H0 ltac:(done)). pose proof (Z.div_le_mono t chrono_max NANOS ltac:(done) H1) as Hle.
  assert (chrono_max / NANOS <= i64_max) by (by vm_compute). assert (i64_min <= 0) by (by vm_compute). lia.
Qed.

(** The claim [old] after a pass at [d_now] and one half a day later. *)
Definition d_services : ScanServices := mkScanServices (Ok d_inventory) (fun _ _ _ _ => Ok tt) (fun _ _ _ => Ok tt).
Definition d_old (a : BTreeMap string) : Finding :=
  let c := d_pvc 1 in
  claim_finding d_inventory (mkPvc (p_namespace c) (p_name c) (p_uid c) (p_phase c) (p_volume_name c) (p_storage_class c)
                               (p_capacity_bytes c) a).
Definition d_publish (a : BTreeMap string) (now : Z) : list ScanEvent * result string string :=
  scan_publish d_render d_parse d_services false (finalize d_parse (d_old a) MIN_UNUSED_AGE now) now.
Definition d_hours (h : Z) : Z := d_now + h * 3600 * NANOS.
Definition d_first : BTreeMap string := patched [] (d_publish [] (d_hours 0)).1.
Definition d_second : BTreeMap string := patched d_first (d_publish d_first (d_hours 12)).1.

Lemma d_observed a log h es out :
  date (d_hours h) -> d_publish a (d_hours h) = (es, Ok out) -> f_annotations (d_old a) = a -> f_unused (d_old a) = true ->
  observed d_render d_parse MIN_UNUSED_AGE (a, log) (patched a es, (d_hours h, true) :: log).
Proof.
  intros Hd E Ha Hu.
  pose proof (observed_pass d_render d_parse MIN_UNUSED_AGE a log (d_old a) d_services (d_hours h) es out Ha Hd E) as H.
  by rewrite Hu in H.
Qed.

Lemma d_run : rtc (observed d_render d_parse MIN_UNUSED_AGE) ([], []) (d_second, [(d_hours 12, true); (d_hours 0, true)]).
Proof.
  assert (H1 : observed d_render d_parse MIN_UNUSED_AGE ([], []) (d_first, [(d_hours 0, true)])).
  { apply (d_observed [] [] 0 (d_publish [] (d_hours 0)).1 OUTCOME_WRITTEN).
    - vm_compute. by split.
    - vm_compute. reflexivity.
    - reflexivity.
    - vm_compute. reflexivity. }
  assert (H2 : observed d_render d_parse MIN_UNUSED_AGE (d_first, [(d_hours 0, true)])
                 (d_second, [(d_hours 12, true); (d_hours 0, true)])).
  { apply (d_observed d_first _ 12 (d_publish d_first (d_hours 12)).1 OUTCOME_UNCHANGED).
    - vm_compute. by split.
    - vm_compute. reflexivity.
    - vm_compute. reflexivity.
    - vm_compute. reflexivity. }
  eapply rtc_l; [exact H1|]. eapply rtc_l; [exact H2|]. apply rtc_refl.
Qed.

Lemma reported_after_min_age_witness :
  f_reportable (finalize d_parse (d_old d_second) MIN_UNUSED_AGE (d_hours 25)) = true /\
  exists newer t0 older, [(d_hours 12, true); (d_hours 0, true)] = newer ++ (t0, true) :: older /\
    Forall (fun p => p.2 = true) newer /\ to_second t0 + MIN_UNUSED_AGE <= d_hours 25.
Proof.
  assert (Hr : f_reportable (finalize d_parse (d_old d_second) MIN_UNUSED_AGE (d_hours 25)) = true)
    by (vm_compute; reflexivity).
  split; [exact Hr|].
  apply (reported_after_min_age d_render d_parse d_rendered MIN_UNUSED_AGE [] d_second _ (d_old d_second) (d_hours 25)).
  - reflexivity.
  - constructor.
  - reflexivity.
  - exact d_run.
  - vm_compute. reflexivity.
  - vm_compute. by split.
  - reflexivity.
  - exact Hr.
Defined.
