(* ===== verification/Adaptive.v ===== *)
(** * Adaptive concurrency of the GitLab crawl (forklift: coverage/adaptive.rs,
    coverage/gitlab.rs)

    A limiter hands out permits for requests and moves its limit with what the
    service answers.  Its callers run concurrently: a step relation over the
    limiter and the numbers of callers that wait for a permit and that hold one.
    Then the client's request, with its retries, as a function of the answers. *)

From Corelib Require Import SpecFloat.
From stdpp Require Import prelude list strings pretty relations.
From Stdlib Require Import ZArith Lia.
From S2P Require Import Prelude.
From S2P Require Import Strings.
From S2P Require Import F64.

(** ** Numbers *)

(** [Duration::as_secs_f64], of nanoseconds. *)
Definition as_secs_f64 (d : Z) : f64 :=
  f64_add (f64_of_Z (d / 10 ^ 9)) (f64_div (f64_of_Z (d mod 10 ^ 9)) (f64_of_Z (10 ^ 9))).

(** ** The limiter *)

Definition INITIAL_LIMIT : Z := 2.
Definition MAX_LIMIT : Z := 32.
Definition MIN_LIMIT : Z := 1.
Definition DECREASE_RATIO : f64 := f64_decimal 9 1.
Definition EWMA_ALPHA : f64 := f64_decimal 4 1.
Definition RTT_DEVIATION_SCALE : f64 := f64_decimal 25 1.

Inductive RequestOutcome := OutcomeOk | BackPressure | Ignored.

(** [AdaptiveLimiter]: the free permits of the semaphore and the state under the
    lock; times are in nanoseconds. *)
Record Limiter := mkLimiter {
  tokens : Z;
  limit : Z;
  debt : Z;
  rtt_mean : f64;
  rtt_dev : f64;
  has_rtt : bool;
  paused_until : option Z;
  peak_limit : Z;
}.

Definition new_adaptive_limiter : Limiter :=
  mkLimiter INITIAL_LIMIT INITIAL_LIMIT 0 (S754_zero false) (S754_zero false) false None INITIAL_LIMIT.

Definition set_limit (l : Limiter) (next : Z) : Limiter :=
  let next := Z.min (Z.max next MIN_LIMIT) MAX_LIMIT in
  mkLimiter (if limit l <? next then tokens l + (next - limit l) else tokens l) next
    (if next <? limit l then debt l + (limit l - next) else debt l)
    (rtt_mean l) (rtt_dev l) (has_rtt l) (paused_until l) (Z.max next (peak_limit l)).

Definition with_rtt (l : Limiter) (mean dev : f64) : Limiter :=
  mkLimiter (tokens l) (limit l) (debt l) mean dev true (paused_until l) (peak_limit l).

Definition observe_rtt (l : Limiter) (seconds : f64) : Limiter :=
  if negb (has_rtt l) then with_rtt l seconds (S754_zero false)
  else
    let deviation := f64_abs (f64_sub seconds (rtt_mean l)) in
    with_rtt l (f64_mul_add EWMA_ALPHA (f64_sub seconds (rtt_mean l)) (rtt_mean l))
      (f64_mul_add EWMA_ALPHA (f64_sub deviation (rtt_dev l)) (rtt_dev l)).

(** [(limit as f64 * DECREASE_RATIO) as i64]. *)
Definition decreased (limit : Z) : Z := f64_as i64_min i64_max (f64_mul (f64_of_Z limit) DECREASE_RATIO).

Definition slow (l : Limiter) (seconds : f64) : bool :=
  has_rtt l && f64_lt (f64_mul_add RTT_DEVIATION_SCALE (rtt_dev l) (rtt_mean l)) seconds.

(** The outcome of a request moves the limit. *)
Definition adjust (l : Limiter) (outcome : RequestOutcome) (rtt : Z) (saturated : bool) : Limiter :=
  match outcome with
  | BackPressure => set_limit l (decreased (limit l))
  | OutcomeOk =>
      let seconds := as_secs_f64 rtt in
      let l :=
        if slow l seconds then set_limit l (decreased (limit l))
        else if saturated then set_limit l (limit l + 1)
        else l in
      observe_rtt l seconds
  | Ignored => l
  end.

Definition with_tokens (l : Limiter) (tokens debt : Z) : Limiter :=
  mkLimiter tokens (limit l) debt (rtt_mean l) (rtt_dev l) (has_rtt l) (paused_until l) (peak_limit l).

Definition release (l : Limiter) (outcome : RequestOutcome) (rtt : Z) (saturated : bool) : Limiter :=
  let l := adjust l outcome rtt saturated in
  if 0 <? debt l then with_tokens l (tokens l) (debt l - 1) else with_tokens l (tokens l + 1) (debt l).

(** [until] is [Instant::now() + d]. *)
Definition pause (l : Limiter) (until : Z) : Limiter :=
  let later := match paused_until l with None => true | Some prev => prev <? until end in
  if later then mkLimiter (tokens l) (limit l) (debt l) (rtt_mean l) (rtt_dev l) (has_rtt l) (Some until) (peak_limit l)
  else l.

(** The loop of [acquire] goes on while the pause lasts. *)
Definition paused (l : Limiter) (now : Z) : bool :=
  match paused_until l with Some until => now <? until | None => false end.

Definition stats (l : Limiter) : Z * Z := (limit l, peak_limit l).

(** The limiter, the callers past the pause that wait for a permit, and those
    that hold one; the clock. *)
Record Crawl := mkCrawl { limiter : Limiter; waiting : Z; in_flight : Z; clock : Z }.

(** The first half of [acquire] ends, the second ends with a permit or
    cancelled; a request ends; a pause is asked for; time passes. *)
Inductive crawl_step : Crawl -> Crawl -> Prop :=
  | step_wait l w n now : paused l now = false -> crawl_step (mkCrawl l w n now) (mkCrawl l (w + 1) n now)
  | step_take l w n now :
      0 < w -> 0 < tokens l ->
      crawl_step (mkCrawl l w n now) (mkCrawl (with_tokens l (tokens l - 1) (debt l)) (w - 1) (n + 1) now)
  | step_cancelled l w n now : 0 < w -> crawl_step (mkCrawl l w n now) (mkCrawl l (w - 1) n now)
  | step_release l w n now outcome rtt saturated :
      0 < n -> crawl_step (mkCrawl l w n now) (mkCrawl (release l outcome rtt saturated) w (n - 1) now)
  | step_pause l w n now d : 0 <= d -> crawl_step (mkCrawl l w n now) (mkCrawl (pause l (now + d)) w n now)
  | step_time l w n now d : 0 <= d -> crawl_step (mkCrawl l w n now) (mkCrawl l w n (now + d)).

Definition new_crawl (now : Z) : Crawl := mkCrawl new_adaptive_limiter 0 0 now.

(** ** A request of the client (coverage/gitlab.rs) *)

Definition RETRIES : Z := 3.
Definition MAX_PAGES : Z := 500.

(** What one attempt meets: the transport fails, or a status with the text of
    its [Retry-After] header. *)
Inductive Answer := TransportError (text : string) | Status (code : Z) (retry_after : option string).

Inductive RequestError :=
  | Cancelled
  | HttpError (text : string)
  | NotFoundAt (path : string) (status : Z)
  | ErrorMsg (text : string).

(** What an attempt does: it always releases its permit; it may ask for a pause
    first, and sleep before the next attempt. *)
Inductive RequestEvent :=
  | Acquired
  | Paused (seconds : Z)
  | Released (outcome : RequestOutcome)
  | Slept (ms : Z).

Inductive Attempt := Done (r : result RequestError Z) | Again (e : RequestError).

Definition pause_of (retry_after : option string) : list RequestEvent :=
  match retry_after ≫= parse_u64 with
  | Some secs => if 0 <? secs then [Paused secs] else []
  | None => []
  end.

Definition backoff (attempt : Z) : RequestEvent := Slept ((attempt + 1) * 500).

(** An attempt after its permit; the client is not cancelled. *)
Definition handle (path : string) (attempt : Z) (a : Answer) : list RequestEvent * Attempt :=
  match a with
  | TransportError e => ([Released BackPressure; backoff attempt], Again (HttpError e))
  | Status code retry_after =>
      if code =? 429 then
        (pause_of retry_after ++ [Released BackPressure], Again (ErrorMsg "gitlab API rate limited (429)"))
      else if (code =? 404) || (code =? 403) then ([Released Ignored], Done (Err (NotFoundAt path code)))
      else if 500 <=? code then
        ([Released BackPressure; backoff attempt], Again (ErrorMsg ("gitlab API " +:+ path +:+ " returned " +:+ pretty code)))
      else if 300 <=? code then
        ([Released Ignored], Done (Err (ErrorMsg ("gitlab API " +:+ path +:+ " returned " +:+ pretty code))))
      else ([Released OutcomeOk], Done (Ok code))
  end.

(** The attempts from [attempt] on, [tries] of them; the answer to each is
    [answers]. *)
Fixpoint attempts (path : string) (answers : Z -> Answer) (tries : nat) (attempt : Z) (last : option RequestError)
    : list RequestEvent * result RequestError Z :=
  match tries with
  | O => ([], Err (default (ErrorMsg ("gitlab API " +:+ path +:+ " failed")) last))
  | S tries =>
      let '(es, a) := handle path attempt (answers attempt) in
      match a with
      | Done r => (Acquired :: es, r)
      | Again e =>
          let '(es', r) := attempts path answers tries (attempt + 1) (Some e) in
          (Acquired :: es ++ es', r)
      end
  end.

Definition do_request (path : string) (answers : Z -> Answer) : list RequestEvent * result RequestError Z :=
  attempts path answers (Z.to_nat (RETRIES + 1)) 0 None.

(** The next page, if there is one. *)
Definition next_page (page : Z) (header : string) : option Z :=
  match parse_i64 header with
  | Some parsed => if page <? parsed then Some parsed else None
  | None => None
  end.

Section Pages.
Context {T : Type} (fetch : Z -> result RequestError (list T * string)).

(** [get_pages]: [fetch] requests and decodes a page and gives its
    [x-next-page]. *)
Fixpoint pages_loop (tries : nat) (page : Z) (collected : list T) : result RequestError (list T) :=
  match tries with
  | O => Ok collected
  | S tries =>
      let? answer := fetch page in
      let '(batch, next) := answer in
      let collected := collected ++ batch in
      match next_page page next with
      | Some p => pages_loop tries p collected
      | None => Ok collected
      end
  end.

Definition get_pages : result RequestError (list T) := pages_loop (Z.to_nat MAX_PAGES) 1 [].
End Pages.

(** ** Facts *)

(** The cut reduces every limit above the least. *)
Lemma decreased_spec n : 1 <= n <= MAX_LIMIT -> 0 <= decreased n < n.
Proof.
  intros Hn. assert (H : forallb (fun k => (0 <=? decreased (Z.of_nat k)) && (decreased (Z.of_nat k) <? Z.of_nat k))
    (seq 1 32) = true) by (vm_compute; reflexivity).
  rewrite forallb_forall in H. specialize (H (Z.to_nat n)). rewrite Z2Nat.id in H by lia.
  rewrite andb_true_iff in H. unfold MAX_LIMIT in Hn. destruct H as [H1 H2]; [apply in_seq; lia|lia].
Qed.

(** The permits, free, held or owed, are the limit's; the limit and what is owed
    stay below the peak. *)
Definition limiter_ok (c : Crawl) : Prop :=
  let l := limiter c in
  tokens l + in_flight c = limit l + debt l /\ 0 <= tokens l /\ 0 <= debt l /\ 0 <= in_flight c /\ 0 <= waiting c /\
  MIN_LIMIT <= limit l <= MAX_LIMIT /\ limit l + debt l <= peak_limit l <= MAX_LIMIT.

(** What an outcome does to the numbers. *)
Lemma adjust_numbers l outcome rtt saturated :
  MIN_LIMIT <= limit l <= MAX_LIMIT -> 0 <= debt l -> limit l + debt l <= peak_limit l <= MAX_LIMIT ->
  let l' := adjust l outcome rtt saturated in
  tokens l' - tokens l = limit l' + debt l' - limit l - debt l /\ tokens l <= tokens l' /\ debt l <= debt l' /\
  MIN_LIMIT <= limit l' <= MAX_LIMIT /\ peak_limit l <= peak_limit l' <= MAX_LIMIT /\
  (limit l' + debt l' = limit l + debt l \/ limit l' = limit l + 1 /\ debt l' = debt l) /\ limit l' <= peak_limit l'.
Proof.
  intros Hl Hd Hp. pose proof (decreased_spec (limit l)) as Hdec. unfold MIN_LIMIT, MAX_LIMIT in *.
  assert (Hdown : forall l0, l0 = set_limit l (decreased (limit l)) ->
    tokens l0 = tokens l /\ limit l0 + debt l0 = limit l + debt l /\ debt l <= debt l0 /\
    1 <= limit l0 <= 32 /\ peak_limit l0 = peak_limit l).
  { intros l0 ->. unfold set_limit, MIN_LIMIT, MAX_LIMIT. cbn. repeat case_match; bool_to_prop; lia. }
  assert (Hup : forall l0, l0 = set_limit l (limit l + 1) ->
    tokens l0 - tokens l = limit l0 - limit l /\ debt l0 = debt l /\ 1 <= limit l0 <= 32 /\
    peak_limit l <= peak_limit l0 <= 32 /\ limit l0 <= peak_limit l0 /\ limit l <= limit l0 <= limit l + 1).
  { intros l0 ->. unfold set_limit, MIN_LIMIT, MAX_LIMIT. cbn. repeat case_match; bool_to_prop; lia. }
  assert (Hobs : forall l0 s, tokens (observe_rtt l0 s) = tokens l0 /\ limit (observe_rtt l0 s) = limit l0 /\
    debt (observe_rtt l0 s) = debt l0 /\ peak_limit (observe_rtt l0 s) = peak_limit l0).
  { intros l0 s. unfold observe_rtt. by destruct (has_rtt l0). }
  cbn zeta. destruct outcome; cbn [adjust].
  - destruct (slow l _); [|destruct saturated].
    all: match goal with |- context [observe_rtt ?l0 ?s] => destruct (Hobs l0 s) as (-> & -> & -> & ->) end.
    + specialize (Hdown _ eq_refl). lia.
    + specialize (Hup _ eq_refl). lia.
    + lia.
  - specialize (Hdown _ eq_refl). lia.
  - lia.
Qed.

Lemma crawl_step_ok c c' : crawl_step c c' -> limiter_ok c -> limiter_ok c'.
Proof.
  intros [l w n now Hp|l w n now Hw Ht|l w n now Hw|l w n now outcome rtt saturated Hn|l w n now d Hd|l w n now d Hd] Hok;
    unfold limiter_ok in *; cbn in *; try lia.
  - destruct Hok as (Hsum & Ht & Hd & Hf & Hw & Hl & Hp).
    pose proof (adjust_numbers l outcome rtt saturated Hl Hd Hp) as Ha. cbn zeta in Ha. unfold release.
    destruct (Z.ltb_spec 0 (debt (adjust l outcome rtt saturated))); cbn; lia.
  - unfold pause. destruct (paused_until l) as [prev|]; [destruct (prev <? now + d)|]; cbn; lia.
Qed.

(** C24: However the requests of a crawl come out and interleave, the permits are
    accounted for: those free and those held are the limit and what is still owed;
    the limit stays between 1 and 32, at most the peak that is reported are in
    flight, and there is always a permit to take or a request that runs. *)
Theorem crawl_bounded start c :
  rtc crawl_step (new_crawl start) c ->
  let l := limiter c in
  tokens l + in_flight c = limit l + debt l /\ MIN_LIMIT <= limit l <= MAX_LIMIT /\
  0 <= in_flight c <= (stats l).2 /\ (stats l).2 <= MAX_LIMIT /\ (0 < tokens l \/ 0 < in_flight c).
Proof.
  intros Hrun. assert (Hok : limiter_ok c).
  { assert (H0 : limiter_ok (new_crawl start)) by (unfold limiter_ok, MIN_LIMIT, MAX_LIMIT; cbn; unfold INITIAL_LIMIT; lia).
    induction Hrun as [|x y z Hxy _ IH]; [done|]. apply IH. by eapply crawl_step_ok. }
  unfold limiter_ok, MIN_LIMIT in Hok. cbn. unfold MIN_LIMIT. lia.
Qed.

(** ** A crawl *)

(** A request is started and ends. *)
Definition one_request (outcome : RequestOutcome) (l : Limiter) : Limiter :=
  release (with_tokens l (tokens l - 1) (debt l)) outcome (10 ^ 6) true.

Definition grown_limiter : Limiter := Nat.iter 40 (one_request OutcomeOk) new_adaptive_limiter.

(** The cut is owed by requests that end, not taken from permits that are free:
    after one refusal with nothing else in flight 31 requests may start under a
    limit of 28. *)
Example idle_permits_kept :
  (stats grown_limiter, tokens grown_limiter) = ((32, 32), 32) /\
  let l := one_request BackPressure grown_limiter in (limit l, debt l, tokens l) = (28, 3, 31).
Proof. vm_compute. by split. Qed.

Definition paused_crawl : Crawl :=
  mkCrawl (pause (release (with_tokens new_adaptive_limiter 0 0) OutcomeOk (10 ^ 6) false) 10) 1 1 0.

(** A caller that waits for a permit has left the loop that honours a pause: its
    request starts while the pause lasts. *)
Example pause_not_honoured :
  rtc crawl_step (new_crawl 0) paused_crawl /\ paused (limiter paused_crawl) 0 = true /\
  exists c, crawl_step paused_crawl c /\ in_flight c = 2 /\ clock c = 0.
Proof.
  split; [|split; [done|]].
  - eapply rtc_l; [by apply step_wait|]. eapply rtc_l; [by apply step_wait|]. eapply rtc_l; [by apply step_wait|].
    eapply rtc_l; [by apply step_take|]. eapply rtc_l; [by apply step_take|].
    eapply rtc_l; [by apply (step_release _ _ _ _ OutcomeOk (10 ^ 6) false)|].
    eapply rtc_l; [by apply (step_pause _ _ _ _ 10)|]. by apply rtc_refl.
  - eexists. split; [by apply step_take|]. done.
Qed.

Lemma crawl_bounded_witness :
  let c := paused_crawl in let l := limiter c in
  tokens l + in_flight c = limit l + debt l /\ MIN_LIMIT <= limit l <= MAX_LIMIT /\
  0 <= in_flight c <= (stats l).2 /\ (stats l).2 <= MAX_LIMIT /\ (0 < tokens l \/ 0 < in_flight c).
Proof. apply (crawl_bounded 0 paused_crawl). apply pause_not_honoured. Defined.

(** ** Requests *)

Definition is_acquired (e : RequestEvent) : bool := match e with Acquired => true | _ => false end.
Definition is_released (e : RequestEvent) : bool := match e with Released _ => true | _ => false end.
Definition count (p : RequestEvent -> bool) (es : list RequestEvent) : nat := length (List.filter p es).

Lemma count_app p es es' : count p (es ++ es') = (count p es + count p es')%nat.
Proof. unfold count. by rewrite List.filter_app, length_app. Qed.

Lemma handle_balanced path attempt a :
  count is_acquired (handle path attempt a).1 = 0%nat /\ count is_released (handle path attempt a).1 = 1%nat.
Proof.
  unfold handle, pause_of. destruct a as [e|code retry]; [done|]. repeat case_match; by rewrite ?count_app.
Qed.

(** Every permit a request takes is released, and it takes at most four; it ends
    in an error only after an answer that says so or four that do not. *)
Lemma attempts_balanced path answers tries attempt last :
  let es := (attempts path answers tries attempt last).1 in
  count is_acquired es = count is_released es /\ (count is_acquired es <= tries)%nat.
Proof.
  revert attempt last. induction tries as [|tries IH]; intros attempt last; cbn [attempts]; [done|].
  pose proof (handle_balanced path attempt (answers attempt)) as [Ha Hr].
  destruct (handle path attempt (answers attempt)) as [es [r|e]]; cbn [fst] in Ha, Hr |- *.
  - unfold count in *. cbn. lia.
  - specialize (IH (attempt + 1) (Some e)). destruct (attempts _ _ tries _ _) as [es' r]. cbn [fst] in IH |- *.
    change (Acquired :: es ++ es') with ([Acquired] ++ es ++ es'). rewrite !count_app, Ha, Hr. cbn. lia.
Qed.

Lemma do_request_balanced path answers :
  let es := (do_request path answers).1 in
  count is_acquired es = count is_released es /\ (count is_acquired es <= 4)%nat.
Proof. apply attempts_balanced. Qed.

Example rate_limited :
  do_request "projects" (fun n => if n =? 0 then Status 429 (Some "30") else if n =? 1 then Status 502 None else Status 200 None) =
  ([Acquired; Paused 30; Released BackPressure; Acquired; Released BackPressure; Slept 1000; Acquired; Released OutcomeOk], Ok 200).
Proof. reflexivity. Qed.
