(* ===== verification/RepoConfig.v ===== *)
(** * Repository configuration (forklift: repoconfig.rs, repo/agepolicy.rs)

    The policy sections of a repository's configuration, what [parse] accepts and
    how it reads older pipelines, the glob matcher that checks the patterns of
    automatic approval, and the age policy.  The sections are the decoded document;
    reading JSON is left out. *)

From stdpp Require Import prelude list strings pretty.
From Stdlib Require Import ZArith Lia Ascii.
From S2P Require Import Prelude.
From S2P Require Import Strings.

(** [Duration]: signed nanoseconds; [d] is the [std::time::Duration] it stands for. *)
Definition d (nanos : Z) : Z := Z.max nanos 0.

(** ** Sections *)

Definition POLICY_VERSION_DENY : string := "version_deny".
Definition POLICY_VULNERABILITY : string := "vulnerability".
Definition POLICY_LICENSE : string := "license".
Definition POLICY_AGE : string := "age".
Definition POLICY_PIPELINE_SCHEMA_VERSION : Z := 2.
Definition LEGACY_POLICY_PIPELINE_VERSION : Z := 1.
Definition DEFAULT_POLICY_ORDER : list string := [POLICY_VULNERABILITY; POLICY_LICENSE; POLICY_AGE].

Definition VULN_ACTION_BLOCK : string := "block".
Definition VULN_ACTION_WARN : string := "warn".
Definition VULN_ACTION_AUDIT : string := "audit".
Definition SEVERITY_CRITICAL : string := "critical".
Definition SEVERITY_HIGH : string := "high".
Definition SEVERITY_MEDIUM : string := "medium".
Definition SEVERITY_LOW : string := "low".
Definition MODE_ENFORCE : string := "enforce".
Definition MODE_AUDIT : string := "audit".
Definition ACTION_BLOCK : string := "block".
Definition ACTION_WARN : string := "warn".
Definition EVICTION_LRU : string := "lru".

Record PolicyPipelineConfig := mkPipeline { schema_version : Z; order : list string }.

Record VulnPolicyConfig := mkVulnPolicy {
  vuln_enabled : bool;
  threshold : string;
  vuln_action : string;
  ignore : list string;
  block_unscanned : bool;
}.

Record LicensePolicyConfig := mkLicensePolicy {
  license_enabled : bool;
  license_action : string;
  deny : list string;
  allow : list string;
  block_unresolved : bool;
}.

Record ApprovalConfig := mkApproval {
  approval_enabled : bool;
  mode : string;
  auto_approve : list string;
  auto_approve_clean : bool;
}.

Record AgePolicyConfig := mkAgePolicy {
  age_enabled : bool;
  min_age : Z;
  max_age : Z;
  age_action : string;
}.

Record CacheConfig := mkCache {
  cache_enabled : bool;
  artifact_ttl : Z;
  metadata_ttl : Z;
  negative_ttl : Z;
  max_size_bytes : Z;
  eviction : string;
}.

Record UpstreamAuthConfig := mkUpstreamAuth {
  type_ : string;
  username : string;
  password : string;
  token : string;
  header : string;
  value : string;
}.

(** [Config], without the sections for access, uploads and groups. *)
Record Config := mkConfig {
  cache : CacheConfig;
  age_policy : AgePolicyConfig;
  approval : ApprovalConfig;
  idle_ttl : Z;
  vuln : VulnPolicyConfig;
  license : LicensePolicyConfig;
  policy_pipeline : PolicyPipelineConfig;
  receivers : list string;
  upstream_auth : UpstreamAuthConfig;
}.

(** The empty string is a setting that was omitted. *)
Definition or_default (s other : string) : string := if str_is_empty s then other else s.

Definition vuln_effective_action (c : VulnPolicyConfig) : string := or_default (vuln_action c) VULN_ACTION_AUDIT.
Definition effective_threshold (c : VulnPolicyConfig) : string := or_default (threshold c) SEVERITY_HIGH.
Definition license_effective_action (c : LicensePolicyConfig) : string :=
  or_default (license_action c) VULN_ACTION_AUDIT.
Definition effective_mode (c : ApprovalConfig) : string := or_default (mode c) MODE_ENFORCE.

Definition effective_order (p : PolicyPipelineConfig) : list string :=
  match order p with [] => DEFAULT_POLICY_ORDER | order => order end.

Definition default_upstream_auth : UpstreamAuthConfig := mkUpstreamAuth "" "" "" "" "" "".

Definition default_config : Config :=
  mkConfig
    (mkCache true 0 (15 * 60 * 10 ^ 9) (5 * 60 * 10 ^ 9) 0 EVICTION_LRU)
    (mkAgePolicy false 0 0 ACTION_BLOCK)
    (mkApproval false "" [] false)
    0
    (mkVulnPolicy false "" "" [] false)
    (mkLicensePolicy false "" [] [] false)
    (mkPipeline POLICY_PIPELINE_SCHEMA_VERSION DEFAULT_POLICY_ORDER)
    [] default_upstream_auth.

(** ** The order of the policies *)

Definition listed (name : string) (seen : list string) : bool := existsb (String.eqb name) seen.

Definition duplicate_step (name : string) : string := "duplicate policy pipeline step " +:+ str_debug name.
Definition missing_step (name : string) : string := "missing policy pipeline step " +:+ str_debug name.

(** The names of an order, each of them supported and listed once. *)
Fixpoint check_steps (supported : string -> bool) (names seen : list string) : result string (list string) :=
  match names with
  | [] => Ok seen
  | name :: names =>
      if negb (supported name) then Err ("unsupported policy pipeline step " +:+ str_debug name)
      else if listed name seen then Err (duplicate_step name)
      else check_steps supported names (seen ++ [name])
  end.

Fixpoint check_missing (wanted seen : list string) : result string unit :=
  match wanted with
  | [] => Ok tt
  | name :: wanted => if listed name seen then check_missing wanted seen else Err (missing_step name)
  end.

Definition is_assessment (name : string) : bool := listed name DEFAULT_POLICY_ORDER.

Definition pipeline_validate (p : PolicyPipelineConfig) : result string unit :=
  if negb (schema_version p =? 0) && negb (schema_version p =? POLICY_PIPELINE_SCHEMA_VERSION)
  then Err ("unsupported policy pipeline schema_version " +:+ pretty (schema_version p))
  else match order p with
  | [] => Ok tt
  | names => let? seen := check_steps is_assessment names [] in check_missing DEFAULT_POLICY_ORDER seen
  end.

Definition legacy_steps : list string := POLICY_VERSION_DENY :: DEFAULT_POLICY_ORDER.

Definition validate_legacy (p : PolicyPipelineConfig) : result string unit :=
  match order p with
  | [] => Ok tt
  | names =>
      let? seen := check_steps (fun _ => true) names [] in
      let? _ := check_missing legacy_steps seen in
      if Nat.eqb (length seen) (length legacy_steps) then Ok tt
      else Err "unsupported legacy policy pipeline step"
  end.

(** What [parse] makes of a pipeline of the first schema. *)
Definition upgrade_pipeline (p : PolicyPipelineConfig) : result string PolicyPipelineConfig :=
  if schema_version p =? LEGACY_POLICY_PIPELINE_VERSION then
    let? _ := validate_legacy p in
    Ok (mkPipeline POLICY_PIPELINE_SCHEMA_VERSION
          (List.filter (fun name => negb (String.eqb name POLICY_VERSION_DENY)) (order p)))
  else Ok p.

(** ** The glob matcher of [path_match] *)

Definition byte_of (c : ascii) : Z := Z.of_N (N_of_ascii c).
Definition bytes_of (s : string) : list Z := byte_of <$> String.list_ascii_of_string s.

Inductive BadPattern := BadPatternError.

Definition SLASH : Z := 47.
Definition STAR : Z := 42.
Definition QUESTION : Z := 63.
Definition BACKSLASH : Z := 92.
Definition OPEN : Z := 91.
Definition CLOSE : Z := 93.
Definition CARET : Z := 94.
Definition DASH : Z := 45.

Definition is_byte (b : Z) (chunk : list Z) : bool := match chunk with c :: _ => c =? b | [] => false end.

(** [&pattern[..i]] and [&pattern[i..]] for the [i] at which [scan_chunk] stops. *)
Fixpoint scan_literal (pattern : list Z) (inrange : bool) : list Z * list Z :=
  match pattern with
  | [] => ([], [])
  | c :: rest =>
      if c =? BACKSLASH then
        match rest with
        | [] => ([c], [])
        | e :: rest => let '(chunk, r) := scan_literal rest inrange in (c :: e :: chunk, r)
        end
      else if (c =? STAR) && negb inrange then ([], pattern)
      else
        let inrange := if c =? OPEN then true else if c =? CLOSE then false else inrange in
        let '(chunk, r) := scan_literal rest inrange in (c :: chunk, r)
  end.

Fixpoint scan_chunk (pattern : list Z) : bool * list Z * list Z :=
  match pattern with
  | c :: rest =>
      if c =? STAR then let '(_, chunk, r) := scan_chunk rest in (true, chunk, r)
      else let '(chunk, r) := scan_literal pattern false in (false, chunk, r)
  | [] => (false, [], [])
  end.

(** [char::from_u32] and [len_utf8]. *)
Definition is_char (r : Z) : bool :=
  (0 <=? r) && (r <=? 0x10FFFF) && negb ((0xD800 <=? r) && (r <=? 0xDFFF)).
Definition len_utf8 (r : Z) : Z := if r <? 0x80 then 1 else if r <? 0x800 then 2 else if r <? 0x10000 then 3 else 4.

Definition rune_error : Z * nat := (0xFFFD, 1%nat).

Fixpoint continuation (r : Z) (rest : list Z) : option Z :=
  match rest with
  | [] => Some r
  | b :: rest =>
      if Z.land b 0xC0 =? 0x80 then continuation (Z.lor (Z.shiftl r 6) (Z.land b 0x3F)) rest else None
  end.

Definition decode_rune (s : list Z) : Z * nat :=
  match s with
  | [] => (0xFFFD, 0%nat)
  | b0 :: rest =>
      let multi (len : nat) (init : Z) :=
        if (length s <? len)%nat then rune_error
        else match continuation init (take (len - 1) rest) with
        | Some r => if is_char r && (len_utf8 r =? Z.of_nat len) then (r, len) else rune_error
        | None => rune_error
        end in
      if b0 <=? 0x7F then (b0, 1%nat)
      else if (0xC2 <=? b0) && (b0 <=? 0xDF) then multi 2%nat (Z.land b0 0x1F)
      else if (0xE0 <=? b0) && (b0 <=? 0xEF) then multi 3%nat (Z.land b0 0x0F)
      else if (0xF0 <=? b0) && (b0 <=? 0xF4) then multi 4%nat (Z.land b0 0x07)
      else rune_error
  end.

Definition get_esc (chunk : list Z) : result BadPattern (Z * list Z) :=
  match chunk with
  | [] => Err BadPatternError
  | c :: rest =>
      if (c =? DASH) || (c =? CLOSE) then Err BadPatternError
      else
        let chunk := if c =? BACKSLASH then rest else chunk in
        if match chunk with [] => true | _ => false end then Err BadPatternError
        else
          let '(r, n) := decode_rune chunk in
          if (r =? 0xFFFD) && Nat.eqb n 1 then Err BadPatternError
          else match drop n chunk with
          | [] => Err BadPatternError
          | rest => Ok (r, rest)
          end
  end.

(** The ranges of a class; [None] where an index is out of range or the fuel is
    out. *)
Fixpoint class_ranges (fuel : nat) (chunk : list Z) (r : Z) (matched : bool) (nrange : nat)
    : option (result BadPattern (list Z * bool)) :=
  match fuel with
  | O => None
  | S fuel =>
      if is_byte CLOSE chunk && (0 <? nrange)%nat then Some (Ok (drop 1 chunk, matched))
      else match get_esc chunk with
      | Err e => Some (Err e)
      | Ok (lo, rest) =>
          match rest with
          | [] => None
          | c :: after =>
              match (if c =? DASH then get_esc after else Ok (lo, rest)) with
              | Err e => Some (Err e)
              | Ok (hi, rest) => class_ranges fuel rest r (matched || ((lo <=? r) && (r <=? hi))) (S nrange)
              end
          end
      end
  end.

Fixpoint match_chunk_loop (fuel : nat) (chunk s : list Z) (failed : bool)
    : option (result BadPattern (list Z * bool)) :=
  match fuel with
  | O => None
  | S fuel =>
      match chunk with
      | [] => Some (Ok (if failed then ([], false) else (s, true)))
      | c :: rest =>
          let failed := failed || match s with [] => true | _ => false end in
          if c =? OPEN then
            let '(r, s) := if failed then (0, s) else let '(rr, n) := decode_rune s in (rr, drop n s) in
            let '(negated, rest) := if is_byte CARET rest then (true, drop 1 rest) else (false, rest) in
            match class_ranges (S (length rest)) rest r false 0 with
            | None => None
            | Some (Err e) => Some (Err e)
            | Some (Ok (rest, matched)) => match_chunk_loop fuel rest s (failed || Bool.eqb matched negated)
            end
          else if c =? QUESTION then
            if failed then match_chunk_loop fuel rest s true
            else match s with
            | [] => None
            | b :: _ => let '(_, n) := decode_rune s in match_chunk_loop fuel rest (drop n s) (b =? SLASH)
            end
          else
            let literal (chunk : list Z) :=
              match chunk with
              | [] => Some (Err BadPatternError)
              | c :: rest =>
                  if failed then match_chunk_loop fuel rest s true
                  else match s with
                  | [] => None
                  | b :: s => match_chunk_loop fuel rest s (negb (c =? b))
                  end
              end in
            literal (if c =? BACKSLASH then rest else chunk)
      end
  end.

Definition match_chunk (chunk s : list Z) : option (result BadPattern (list Z * bool)) :=
  match_chunk_loop (S (length chunk)) chunk s false.

(** The positions a star may skip to: [Ok (Some t)] where the chunk matches. *)
Fixpoint after_star (chunk name : list Z) (last : bool) : option (result BadPattern (option (list Z))) :=
  match name with
  | [] => Some (Ok None)
  | b :: name =>
      if b =? SLASH then Some (Ok None)
      else match match_chunk chunk name with
      | None => None
      | Some (Err e) => Some (Err e)
      | Some (Ok (t, ok)) =>
          if ok && negb (last && match t with [] => false | _ => true end) then Some (Ok (Some t))
          else after_star chunk name last
      end
  end.

(** The rest of a pattern is still checked after a mismatch. *)
Fixpoint check_rest (fuel : nat) (pattern : list Z) : option (result BadPattern bool) :=
  match fuel with
  | O => None
  | S fuel =>
      match pattern with
      | [] => Some (Ok false)
      | _ =>
          let '(_, chunk, rest) := scan_chunk pattern in
          match match_chunk chunk [] with
          | None => None
          | Some (Err e) => Some (Err e)
          | Some (Ok _) => check_rest fuel rest
          end
      end
  end.

Definition is_nil {A} (l : list A) : bool := match l with [] => true | _ => false end.

Fixpoint path_match_loop (fuel : nat) (pattern name : list Z) : option (result BadPattern bool) :=
  match fuel with
  | O => None
  | S fuel =>
      match pattern with
      | [] => Some (Ok (is_nil name))
      | _ =>
          let '(star, chunk, pattern) := scan_chunk pattern in
          if star && is_nil chunk then Some (Ok (negb (existsb (Z.eqb SLASH) name)))
          else match match_chunk chunk name with
          | None => None
          | Some (Err e) => Some (Err e)
          | Some (Ok (t, ok)) =>
              if ok && (is_nil t || negb (is_nil pattern)) then path_match_loop fuel pattern t
              else
                match (if star then after_star chunk name (is_nil pattern) else Some (Ok None)) with
                | None => None
                | Some (Err e) => Some (Err e)
                | Some (Ok (Some t)) => path_match_loop fuel pattern t
                | Some (Ok None) => check_rest fuel pattern
                end
          end
      end
  end.

Definition path_match (pattern name : string) : option (result BadPattern bool) :=
  path_match_loop (S (length (bytes_of pattern))) (bytes_of pattern) (bytes_of name).

(** ** Validation *)

Definition UPSTREAM_AUTH_BASIC : string := "basic".
Definition UPSTREAM_AUTH_BEARER : string := "bearer".
Definition UPSTREAM_AUTH_HEADER : string := "header".

Fixpoint str_exists (f : ascii -> bool) (s : string) : bool :=
  match s with EmptyString => false | String c s => f c || str_exists f s end.

(** Space, tab, carriage return, line feed and colon. *)
Definition header_separator (c : ascii) : bool :=
  existsb (N.eqb (N_of_ascii c)) [32; 9; 13; 10; 58]%N.

Definition upstream_auth_validate (u : UpstreamAuthConfig) : result string unit :=
  if str_is_empty (type_ u) then Ok tt
  else if String.eqb (type_ u) UPSTREAM_AUTH_BASIC then
    if str_is_empty (username u) then Err "upstream_auth basic requires username" else Ok tt
  else if String.eqb (type_ u) UPSTREAM_AUTH_BEARER then
    if str_is_empty (token u) then Err "upstream_auth bearer requires token" else Ok tt
  else if String.eqb (type_ u) UPSTREAM_AUTH_HEADER then
    if str_is_empty (header u) || str_is_empty (value u) then Err "upstream_auth header requires header and value"
    else if str_exists header_separator (header u) then
      Err ("invalid upstream_auth header name " +:+ str_debug (header u))
    else Ok tt
  else Err ("unsupported upstream_auth type " +:+ str_debug (type_ u)).

(** One of the accepted words, or omitted. *)
Definition check_word (what : string) (words : list string) (s : string) : result string unit :=
  if str_is_empty s || listed s words then Ok tt else Err ("unsupported " +:+ what +:+ " " +:+ str_debug s).

Fixpoint check_patterns (pats : list string) : option (result string unit) :=
  match pats with
  | [] => Some (Ok tt)
  | pat :: pats =>
      match path_match pat "probe" with
      | None => None
      | Some (Err _) => Some (Err ("invalid auto_approve pattern " +:+ str_debug pat +:+ ": syntax error in pattern"))
      | Some (Ok _) => check_patterns pats
      end
  end.

(** [Config::validate] up to the access list. *)
Definition validate_config (c : Config) : option (result string unit) :=
  let before :=
    let? _ := check_word "eviction" [EVICTION_LRU] (eviction (cache c)) in
    let? _ := if max_size_bytes (cache c) <? 0 then Err "max_size_bytes must be >= 0" else Ok tt in
    let? _ := if idle_ttl c <? 0 then Err "retention idle_ttl must be >= 0" else Ok tt in
    let? _ := check_word "age policy action" [ACTION_BLOCK; ACTION_WARN] (age_action (age_policy c)) in
    check_word "approval mode" [MODE_ENFORCE; MODE_AUDIT] (mode (approval c)) in
  let after :=
    let actions := [VULN_ACTION_BLOCK; VULN_ACTION_WARN; VULN_ACTION_AUDIT] in
    let? _ := check_word "vuln action" actions (vuln_action (vuln c)) in
    let? _ := check_word "vuln threshold" [SEVERITY_CRITICAL; SEVERITY_HIGH; SEVERITY_MEDIUM; SEVERITY_LOW]
                (threshold (vuln c)) in
    let? _ := check_word "license action" actions (license_action (license c)) in
    let? _ := pipeline_validate (policy_pipeline c) in
    upstream_auth_validate (upstream_auth c) in
  match before with
  | Err e => Some (Err e)
  | Ok _ =>
      match check_patterns (auto_approve (approval c)) with
      | None => None
      | Some (Err e) => Some (Err e)
      | Some (Ok _) => Some after
      end
  end.

Definition with_pipeline (c : Config) (p : PolicyPipelineConfig) : Config :=
  mkConfig (cache c) (age_policy c) (approval c) (idle_ttl c) (vuln c) (license c) p (receivers c) (upstream_auth c).

(** [parse], of the decoded and merged document. *)
Definition parse_decoded (c : Config) : option (result string Config) :=
  match upgrade_pipeline (policy_pipeline c) with
  | Err e => Some (Err e)
  | Ok p =>
      let c := with_pipeline c p in
      match validate_config c with
      | None => None
      | Some (Err e) => Some (Err e)
      | Some (Ok _) => Some (Ok c)
      end
  end.

(** ** Credentials *)

Definition SECRET_MASK : string := "********".

Definition mask (s : string) : string := if str_is_empty s then s else SECRET_MASK.
Definition unmask (s prev : string) : string := if String.eqb s SECRET_MASK then prev else s.

Definition masked (u : UpstreamAuthConfig) : UpstreamAuthConfig :=
  mkUpstreamAuth (type_ u) (username u) (mask (password u)) (mask (token u)) (header u) (mask (value u)).

Definition unmask_from (u prev : UpstreamAuthConfig) : UpstreamAuthConfig :=
  mkUpstreamAuth (type_ u) (username u) (unmask (password u) (password prev)) (unmask (token u) (token prev))
    (header u) (unmask (value u) (value prev)).

(** ** The age policy *)

Inductive AgeDecision := AgeAllow | AgeWarn | AgeBlock.

Definition evaluate_age (cfg : AgePolicyConfig) (published_at : option Z) (now : Z) : AgeDecision * string :=
  match published_at with
  | None => (AgeAllow, EmptyString)
  | Some published_at =>
      if negb (age_enabled cfg) then (AgeAllow, EmptyString)
      else
        let age := now - published_at in
        let min := d (min_age cfg) in
        let violated :=
          if negb (min =? 0) && (age <? min) then "release is newer than min_age cooldown"
          else EmptyString in
        let max := d (max_age cfg) in
        let violated :=
          if negb (max =? 0) && (max <? age) then "release is older than max_age" else violated in
        if str_is_empty violated then (AgeAllow, EmptyString)
        else if String.eqb (age_action cfg) ACTION_WARN then (AgeWarn, violated)
        else (AgeBlock, violated)
  end.

(** ** Orders *)

Lemma listed_spec (name : string) (seen : list string) : listed name seen = true <-> name ∈ seen.
Proof.
  unfold listed. rewrite existsb_In. split.
  - by intros (x & Hx & ->%String.eqb_eq).
  - intros Hin. exists name. by rewrite String.eqb_refl.
Qed.

Lemma check_steps_spec supported (names seen all : list string) :
  check_steps supported names seen = Ok all <->
  all = seen ++ names /\ Forall (fun n => supported n = true) names /\ NoDup names /\ (forall n, n ∈ names -> n ∉ seen).
Proof.
  revert seen. induction names as [|n names IH]; intros seen; cbn.
  - rewrite app_nil_r. split; [intros [= ->] | intros (-> & _)]; [|done].
    split; [done|]. split; [done|]. split; [constructor|]. intros n Hn. by apply not_elem_of_nil in Hn.
  - destruct (supported n) eqn:Hs; cbn.
    2: { split; [done|]. intros (_ & Hf & _). by apply Forall_cons in Hf as [? _]; congruence. }
    destruct (listed n seen) eqn:Hl.
    { apply listed_spec in Hl. split; [done|]. intros (_ & _ & _ & Hno). exfalso. apply (Hno n); [apply list_elem_of_here|done]. }
    assert (Hns : n ∉ seen) by (intros Hin%listed_spec; congruence).
    rewrite IH, <- app_assoc, Forall_cons, NoDup_cons. cbn. split.
    + intros (-> & Hf & Hnd & Hno). split_and!; try done.
      * intros Hin. by apply (Hno n Hin), elem_of_app; right; apply list_elem_of_here.
      * intros m [->|Hm]%elem_of_cons; [done|]. intros Hin. apply (Hno m Hm), elem_of_app. by left.
    + intros (-> & [_ Hf] & [Hn Hnd] & Hno). split_and!; try done.
      intros m Hm [Hin|Hin]%elem_of_app; [by apply (Hno m); [apply list_elem_of_further|]|].
      apply list_elem_of_singleton in Hin as ->. done.
Qed.

Lemma check_missing_spec (wanted seen : list string) : check_missing wanted seen = Ok tt <-> (forall n, n ∈ wanted -> n ∈ seen).
Proof.
  induction wanted as [|n wanted IH]; cbn; [split; [intros _ m Hm; by apply not_elem_of_nil in Hm|done]|].
  destruct (listed n seen) eqn:Hl.
  - apply listed_spec in Hl. rewrite IH. split.
    + by intros H m [->|Hm]%elem_of_cons; [|apply H].
    + intros H m Hm. apply H. by apply list_elem_of_further.
  - split; [done|]. intros H. specialize (H n (list_elem_of_here _ _)). apply listed_spec in H. congruence.
Qed.

(** A list without duplicates that has all of another and no more is a permutation. *)
Lemma order_permutation (names wanted : list string) :
  NoDup names -> NoDup wanted -> (forall n, n ∈ wanted -> n ∈ names) -> (forall n, n ∈ names -> n ∈ wanted) -> names ≡ₚ wanted.
Proof. intros H1 H2 Hin Hout. apply NoDup_Permutation; [done..|]. intros x. split; auto. Qed.

Lemma default_order_nodup : NoDup DEFAULT_POLICY_ORDER.
Proof. apply (bool_decide_unpack _). vm_compute. exact I. Qed.

Lemma legacy_steps_nodup : NoDup legacy_steps.
Proof. apply (bool_decide_unpack _). vm_compute. exact I. Qed.

Lemma pipeline_validate_order p : pipeline_validate p = Ok tt -> effective_order p ≡ₚ DEFAULT_POLICY_ORDER.
Proof.
  unfold pipeline_validate, effective_order. destruct (_ && _); [done|].
  destruct (order p) as [|n names]; [done|]. remember (n :: names) as l.
  destruct (check_steps is_assessment l []) as [seen|] eqn:Hc; [|done]. intros Hm.
  apply check_steps_spec in Hc as (-> & Hf & Hnd & _). cbn in Hm.
  apply order_permutation; [done|apply default_order_nodup|by apply check_missing_spec|].
  rewrite Forall_forall in Hf. intros m Hin. by apply listed_spec, Hf.
Qed.

Lemma upgrade_order p p' :
  upgrade_pipeline p = Ok p' -> pipeline_validate p' = Ok tt ->
  effective_order p' ≡ₚ DEFAULT_POLICY_ORDER /\ order p' = List.filter (fun n => negb (String.eqb n POLICY_VERSION_DENY)) (order p).
Proof.
  unfold upgrade_pipeline. intros Hu Hv. split; [by apply pipeline_validate_order|].
  destruct (schema_version p =? _).
  - destruct (validate_legacy p) as [[]|]; [|done]. injection Hu as <-. done.
  - injection Hu as <-. apply pipeline_validate_order in Hv. unfold effective_order in Hv. 
    destruct (order p) as [|n names] eqn:Ho; [done|]. rewrite <- Ho in *. symmetry.
    assert (Hall : Forall (fun m => negb (String.eqb m POLICY_VERSION_DENY) = true) (order p)).
    { rewrite Forall_forall. intros m Hin. rewrite Hv in Hin. unfold DEFAULT_POLICY_ORDER in Hin.
      repeat (apply elem_of_cons in Hin as [->|Hin]; [done|]). by apply not_elem_of_nil in Hin. }
    clear -Hall. induction Hall as [|m l Hm _ IH]; cbn; [done|]. by rewrite Hm, IH.
Qed.

Lemma validate_pipeline c : validate_config c = Some (Ok tt) -> pipeline_validate (policy_pipeline c) = Ok tt.
Proof.
  unfold validate_config. intros H. destruct (pipeline_validate _) as [[]|e]; [done|]. exfalso.
  repeat (case_match; try discriminate).
Qed.

(** Whatever order of policies a configuration that is accepted was stored
    with, in either schema, a request meets each assessment exactly once, in the
    order that was stored. *)
Theorem accepted_order_complete c c' :
  parse_decoded c = Some (Ok c') ->
  effective_order (policy_pipeline c') ≡ₚ DEFAULT_POLICY_ORDER /\
  order (policy_pipeline c') =
    List.filter (fun n => negb (String.eqb n POLICY_VERSION_DENY)) (order (policy_pipeline c)).
Proof.
  unfold parse_decoded. destruct (upgrade_pipeline _) as [p|] eqn:Hu; [|done].
  destruct (validate_config _) as [[[]|]|] eqn:Hv; [|done..]. intros [= <-]. cbn [policy_pipeline with_pipeline].
  apply (upgrade_order _ _ Hu). by apply validate_pipeline in Hv.
Qed.

(** ** The glob matcher *)

(** Results that differ only in what they found. *)
Definition same_shape {A B} (x : option (result BadPattern A)) (y : option (result BadPattern B)) : Prop :=
  match x, y with
  | Some (Ok _), Some (Ok _) | Some (Err _), Some (Err _) => True
  | _, _ => False
  end.

Lemma decode_rune_width b s : (0 < (decode_rune (b :: s)).2)%nat.
Proof.
  cbn -[take length Nat.sub]. repeat case_match; cbn; lia.
Qed.

Lemma get_esc_shorter chunk r rest : get_esc chunk = Ok (r, rest) -> (0 < length rest < length chunk)%nat.
Proof.
  unfold get_esc. destruct chunk as [|c chunk]; [done|]. destruct (_ || _); [done|].
  set (body := if c =? BACKSLASH then chunk else c :: chunk).
  assert (Hb : (length body <= S (length chunk))%nat) by (unfold body; destruct (c =? BACKSLASH); cbn; lia).
  destruct body as [|b body0] eqn:Hbody; [done|]. rewrite <- Hbody in *. clearbody body.
  cbn zeta. destruct (decode_rune body) as [r0 n] eqn:Hd. destruct (_ && _); [done|].
  destruct (drop n body) as [|x l] eqn:Hdrop; [done|]. intros [= <- <-].
  assert (Hn : (0 < n)%nat) by (rewrite Hbody in Hd; pose proof (decode_rune_width b body0) as Hw; by rewrite Hd in Hw).
  assert (Hl : length (drop n body) = S (length l)) by (by rewrite Hdrop). rewrite length_drop in Hl. cbn. lia.
Qed.

(** What a class leaves of the chunk does not depend on the character. *)
Lemma class_ranges_same fuel chunk r r' m m' n :
  (length chunk < fuel)%nat ->
  match class_ranges fuel chunk r m n, class_ranges fuel chunk r' m' n with
  | Some (Ok (a, _)), Some (Ok (b, _)) => a = b /\ (length a < length chunk)%nat
  | Some (Err _), Some (Err _) => True
  | _, _ => False
  end.
Proof.
  revert chunk m m' n. induction fuel as [|fuel IH]; intros chunk m m' n Hlen; [lia|]. cbn [class_ranges].
  destruct (is_byte CLOSE chunk && _) eqn:Hc.
  { split; [done|]. destruct chunk as [|c chunk]; [done|]. cbn. rewrite drop_0. lia. }
  destruct (get_esc chunk) as [[lo rest]|] eqn:Hg; [|done]. apply get_esc_shorter in Hg.
  destruct rest as [|c after]; [cbn in Hg; lia|].
  assert (Hrest : forall hi rest, (if c =? DASH then get_esc after else Ok (lo, c :: after)) = Ok (hi, rest) ->
    (length rest < length chunk)%nat).
  { intros hi rest. destruct (c =? DASH); [intros Hg2%get_esc_shorter; cbn in *; lia|]. intros [= _ <-]. lia. }
  destruct (if c =? DASH then _ else _) as [[hi rest]|]; [|done]. specialize (Hrest _ _ eq_refl).
  specialize (IH rest (m || ((lo <=? r) && (r <=? hi))) (m' || ((lo <=? r') && (r' <=? hi))) (S n) ltac:(lia)).
  revert IH. generalize (class_ranges fuel rest r (m || ((lo <=? r) && (r <=? hi))) (S n))
    (class_ranges fuel rest r' (m' || ((lo <=? r') && (r' <=? hi))) (S n)).
  intros [[[a ?]|]|] [[[a' ?]|]|]; try done. intros [-> ?]. split; [done|lia].
Qed.

Lemma match_chunk_loop_same fuel chunk s s' f f' :
  (length chunk < fuel)%nat -> same_shape (match_chunk_loop fuel chunk s f) (match_chunk_loop fuel chunk s' f').
Proof.
  revert chunk s s' f f'. induction fuel as [|fuel IH]; intros chunk s s' f f' Hlen; [lia|]. cbn [match_chunk_loop].
  destruct chunk as [|c rest]; [done|]. cbn [length] in Hlen. cbn zeta.
  assert (Hs : forall s0 : list Z, (match s0 with [] => true | _ => false end = false) -> exists b t, s0 = b :: t)
    by (intros [|b t]; [done|by exists b, t]).
  destruct (c =? OPEN).
  { set (x := if f || _ then (0, s) else _). set (x' := if f' || _ then (0, s') else _).
    destruct x as [r t], x' as [r' t']. destruct (if is_byte CARET rest then _ else _) as [negated rest'] eqn:Hn.
    assert (Hr : (length rest' <= length rest)%nat).
    { destruct (is_byte CARET rest); injection Hn as _ <-; rewrite ?length_drop; lia. }
    generalize (class_ranges_same (S (length rest')) rest' r r' false false 0 ltac:(lia)).
    generalize (class_ranges (S (length rest')) rest' r false 0) (class_ranges (S (length rest')) rest' r' false 0).
    intros [[[a m]|]|] [[[a' m']|]|]; try done. intros [-> Ha]. apply IH. lia. }
  destruct (c =? QUESTION).
  { destruct (f || _) eqn:Hf, (f' || _) eqn:Hf'; try (apply IH; lia).
    - apply orb_false_iff in Hf' as [_ (b & t & ->)%Hs]. destruct (decode_rune _). apply IH. lia.
    - apply orb_false_iff in Hf as [_ (b & t & ->)%Hs]. destruct (decode_rune _). apply IH. lia.
    - apply orb_false_iff in Hf as [_ (b & t & ->)%Hs]. apply orb_false_iff in Hf' as [_ (b' & t' & ->)%Hs].
      destruct (decode_rune (b :: t)), (decode_rune (b' :: t')). apply IH. lia. }
  assert (Hbody : exists chunk, (if c =? BACKSLASH then rest else c :: rest) = chunk /\ (length chunk <= S (length rest))%nat)
    by (destruct (c =? BACKSLASH); eexists; (split; [done|cbn; lia])).
  destruct Hbody as (chunk & -> & Hchunk). destruct chunk as [|c' chunk]; [done|]. cbn [length] in Hchunk.
  destruct (f || _) eqn:Hf, (f' || _) eqn:Hf'; try (apply IH; lia).
  - apply orb_false_iff in Hf' as [_ (b & t & ->)%Hs]. apply IH. lia.
  - apply orb_false_iff in Hf as [_ (b & t & ->)%Hs]. apply IH. lia.
  - apply orb_false_iff in Hf as [_ (b & t & ->)%Hs]. apply orb_false_iff in Hf' as [_ (b' & t' & ->)%Hs]. apply IH. lia.
Qed.

Lemma match_chunk_same chunk s s' : same_shape (match_chunk chunk s) (match_chunk chunk s').
Proof. apply match_chunk_loop_same. lia. Qed.

Lemma scan_literal_spec pattern inrange chunk rest :
  scan_literal pattern inrange = (chunk, rest) ->
  (length chunk + length rest = length pattern)%nat /\ (chunk = [] -> pattern = [] \/ is_byte STAR pattern = true).
Proof.
  remember (length pattern) as n eqn:Hn. revert pattern inrange chunk rest Hn.
  induction n as [n IH] using lt_wf_ind. intros [|c p] inrange chunk rest -> Hs; cbn in Hs.
  { injection Hs as <- <-. auto. }
  destruct (c =? BACKSLASH) eqn:Hc.
  { destruct p as [|e p]; [by injection Hs as <- <-|].
    destruct (scan_literal p inrange) as [chunk' r] eqn:Hp. injection Hs as <- <-.
    apply (IH (length p)) in Hp as [Hl _]; [|cbn; lia|done]. split; [cbn; lia|done]. }
  destruct ((c =? STAR) && negb inrange) eqn:Hst.
  { injection Hs as <- <-. split; [done|]. intros _. right. cbn. by apply andb_true_iff in Hst as [-> _]. }
  destruct (scan_literal p _) as [chunk' r] eqn:Hp. injection Hs as <- <-.
  apply (IH (length p)) in Hp as [Hl _]; [|cbn; lia|done]. split; [cbn; lia|done].
Qed.

Lemma scan_chunk_spec pattern star chunk rest :
  scan_chunk pattern = (star, chunk, rest) ->
  (length rest <= length pattern)%nat /\ (pattern <> [] -> length rest < length pattern)%nat /\
  (chunk = [] -> rest = []).
Proof.
  revert star chunk rest. induction pattern as [|c p IH]; intros star chunk rest Hs; cbn -[scan_literal] in Hs.
  { by injection Hs as <- <- <-. }
  destruct (c =? STAR) eqn:Hc.
  - destruct (scan_chunk p) as [[s ch] r]. injection Hs as <- <- <-. destruct (IH _ _ _ eq_refl) as (H1 & _ & H2).
    cbn. split_and!; [lia|lia|done].
  - destruct (scan_literal (c :: p) false) as [ch r] eqn:Hl. injection Hs as <- <- <-.
    apply scan_literal_spec in Hl as [Hl Hnil]. assert (Hch : ch <> []).
    { intros ->. destruct (Hnil eq_refl) as [?|Hb]; [done|]. cbn in Hb. congruence. }
    destruct ch; [done|]. cbn in Hl |- *. split_and!; [lia|lia|done].
Qed.

Lemma after_star_ok chunk name last s v :
  match_chunk chunk s = Some (Ok v) -> exists o, after_star chunk name last = Some (Ok o).
Proof.
  intros Hv. induction name as [|b name IH]; cbn [after_star]; [by eexists|]. destruct (b =? SLASH); [by eexists|].
  pose proof (match_chunk_same chunk s name) as Hs. rewrite Hv in Hs.
  destruct (match_chunk chunk name) as [[[t ok]|]|]; try done. destruct (ok && _); [by eexists|done].
Qed.

Lemma check_rest_fuel fuel fuel' pattern :
  (length pattern < fuel)%nat -> (length pattern < fuel')%nat -> same_shape (check_rest fuel pattern) (check_rest fuel' pattern).
Proof.
  revert fuel' pattern. induction fuel as [|fuel IH]; intros [|fuel'] pattern Hf Hf'; [lia..|]. cbn [check_rest].
  destruct pattern as [|c p]; [done|]. destruct (scan_chunk (c :: p)) as [[star chunk] rest] eqn:Hscan.
  apply scan_chunk_spec in Hscan as (_ & Hlt & _). specialize (Hlt ltac:(done)).
  pose proof (match_chunk_same chunk [] []) as Hm. destruct (match_chunk chunk []) as [[?|]|]; [|done|done]. apply IH; lia.
Qed.

(** Whatever the name, matching stops with the verdict of the check on the
    pattern alone. *)
Lemma path_match_loop_same fuel fuel' pattern name :
  (length pattern < fuel)%nat -> (length pattern < fuel')%nat ->
  same_shape (path_match_loop fuel pattern name) (check_rest fuel' pattern).
Proof.
  revert fuel' pattern name. induction fuel as [|fuel IH]; intros fuel' pattern name Hf Hf'; [lia|].
  destruct fuel' as [|fuel']; [lia|].
  destruct pattern as [|c p]; [done|]. cbn [path_match_loop check_rest].
  destruct (scan_chunk (c :: p)) as [[star chunk] rest] eqn:Hscan. apply scan_chunk_spec in Hscan as (_ & Hlt & Hnil).
  specialize (Hlt ltac:(done)).
  destruct (star && is_nil chunk) eqn:Htrail.
  { apply andb_true_iff in Htrail as [_ Hc]. destruct chunk; [|done]. rewrite (Hnil eq_refl).
    cbn. destruct fuel'; [cbn in *; lia|done]. }
  pose proof (match_chunk_same chunk name []) as Hm.
  destruct (match_chunk chunk name) as [[[t ok]|]|] eqn:Hmn, (match_chunk chunk []) as [[v|]|]; try done.
  destruct (ok && _); [apply IH; lia|].
  destruct star; [|by apply (check_rest_fuel); lia].
  destruct (after_star_ok chunk name (is_nil rest) _ _ Hmn) as [[t'|] ->]; [apply IH; lia|by apply check_rest_fuel; lia].
Qed.

(** A configuration is checked before any name is known: a pattern that is
    accepted never fails later. *)
Lemma path_match_shape pattern name name' : same_shape (path_match pattern name) (path_match pattern name').
Proof.
  unfold path_match. generalize (bytes_of pattern) (bytes_of name) (bytes_of name'). clear. intros p n n'.
  pose proof (path_match_loop_same (S (length p)) (S (length p)) p n ltac:(lia) ltac:(lia)) as H1.
  pose proof (path_match_loop_same (S (length p)) (S (length p)) p n' ltac:(lia) ltac:(lia)) as H2.
  revert H1 H2. generalize (check_rest (S (length p)) p) (path_match_loop (S (length p)) p n) (path_match_loop (S (length p)) p n').
  by intros [[?|]|] [[?|]|] [[?|]|].
Qed.

(** C38: Patterns of automatic approval are checked once, against a probe.  Matching
    always returns, never reads outside the pattern or the name, and whether the
    pattern is malformed does not depend on the name: one that is accepted can be
    matched against every package. *)
Theorem probe_suffices pattern :
  match path_match pattern "probe" with
  | Some (Ok _) => forall name, exists b, path_match pattern name = Some (Ok b)
  | Some (Err e) => forall name, path_match pattern name = Some (Err e)
  | None => False
  end.
Proof.
  pose proof (fun name => path_match_shape pattern "probe" name) as H.
  destruct (path_match pattern "probe") as [[b|[]]|]; [..|by apply (H EmptyString)].
  - intros name. specialize (H name). destruct (path_match pattern name) as [[b'|]|]; [by exists b'|done|done].
  - intros name. specialize (H name). by destruct (path_match pattern name) as [[b'|[]]|].
Qed.

Example glob_star_stops : path_match "@company/*" "@company/lib" = Some (Ok true) /\ path_match "@company/*" "@company/a/b" = Some (Ok false).
Proof. by vm_compute. Qed.

Example glob_double_star : path_match "**" "a/b" = Some (Ok false) /\ path_match "[a-" "a" = Some (Err BadPatternError).
Proof. by vm_compute. Qed.

Example glob_class : path_match "lib[^a-c]?" "libz1" = Some (Ok true) /\ path_match "lib[^a-c]?" "libb1" = Some (Ok false).
Proof. by vm_compute. Qed.

(** ** Secrets *)

(** A client that reads a configuration with its secrets masked and sends it
    back changes nothing, whatever the secrets are, and what it reads depends on
    the secrets only in which of them are set. *)
Theorem masked_round_trip u :
  unmask_from (masked u) u = u /\
  forall p t v,
    str_is_empty p = str_is_empty (password u) -> str_is_empty t = str_is_empty (token u) ->
    str_is_empty v = str_is_empty (value u) ->
    masked (mkUpstreamAuth (type_ u) (username u) p t (header u) v) = masked u.
Proof.
  assert (H : forall s, unmask (mask s) s = s) by (by intros []).
  assert (Hm : forall s s', str_is_empty s = str_is_empty s' -> mask s = mask s') by (by intros [] []).
  destruct u as [? ? pw tk ? va]. unfold unmask_from, masked. cbn. rewrite !H. split; [done|].
  intros p t v Hp Ht Hv. by rewrite (Hm p pw Hp), (Hm t tk Ht), (Hm v va Hv).
Qed.

Lemma masked_round_trip_witness :
  let u := mkUpstreamAuth UPSTREAM_AUTH_BASIC "ci" "s3cret" EmptyString EmptyString EmptyString in
  password (masked u) = SECRET_MASK /\ unmask_from (masked u) u = u /\
  masked (mkUpstreamAuth UPSTREAM_AUTH_BASIC "ci" "other" EmptyString EmptyString EmptyString) = masked u.
Proof.
  pose proof (masked_round_trip (mkUpstreamAuth UPSTREAM_AUTH_BASIC "ci" "s3cret" EmptyString EmptyString EmptyString)) as [H1 H2].
  split; [reflexivity|]. split; [exact H1|]. exact (H2 "other" EmptyString EmptyString eq_refl eq_refl eq_refl).
Defined.

(** ** Ages *)

(** The policy in terms of the window it describes. *)
Definition age_in_window (cfg : AgePolicyConfig) (age : Z) : bool :=
  negb ((0 <? min_age cfg) && (age <? min_age cfg)) && negb ((0 <? max_age cfg) && (max_age cfg <? age)).

Lemma evaluate_age_spec cfg published now :
  (evaluate_age cfg published now).1 =
  match published with
  | Some p =>
      if negb (age_enabled cfg) || age_in_window cfg (now - p) then AgeAllow
      else if String.eqb (age_action cfg) ACTION_WARN then AgeWarn else AgeBlock
  | None => AgeAllow
  end.
Proof.
  unfold evaluate_age, age_in_window. destruct published as [p|]; [|done]. destruct (age_enabled cfg); [|done].
  assert (Hd : forall a (f : Z -> bool), negb (d a =? 0) && f (d a) = (0 <? a) && f a).
  { intros a f. unfold d. destruct (Z.ltb_spec 0 a).
    - rewrite Z.max_l by lia. by destruct (Z.eqb_spec a 0); [lia|].
    - by rewrite Z.max_r by lia. }
  cbn [negb orb]. rewrite (Hd (min_age cfg) (fun m => now - p <? m)), (Hd (max_age cfg) (fun m => m <? now - p)).
  destruct ((0 <? min_age cfg) && _), ((0 <? max_age cfg) && _); cbn; by try destruct (String.eqb (age_action cfg) ACTION_WARN).
Qed.
