(* ===== verification/Gates.v ===== *)
(** * Policy gates (forklift: repo/policypipeline.rs, repo/vulngate.rs,
    repo/licensegate.rs, repo/approvalgate.rs, repo/negcache.rs)

    What a request for a package meets before it is served: the deny list, the
    vulnerability and license policies in the configured order around the age
    policy, and human approval last.  A gate reads and writes the tables of the
    metadata store and the marks that suppress repeated work; each lookup may
    fail.  Metrics and log lines are left out. *)

From stdpp Require Import prelude list strings gmap sets.
From Stdlib Require Import ZArith Lia Ascii.
From S2P Require Import Prelude.
From S2P Require Import Strings.
From S2P Require Import RepoConfig.

(** ** The negative cache, also used for marks *)

Abbreviation NegCache := (gmap string Z).

Definition neg_has (key : string) (now : Z) (c : NegCache) : bool * NegCache :=
  match c !! key with
  | None => (false, c)
  | Some exp => if exp <? now then (false, delete key c) else (true, c)
  end.

Definition neg_remaining (key : string) (now : Z) (c : NegCache) : option Z * NegCache :=
  match c !! key with
  | None => (None, c)
  | Some exp => if exp - now <=? 0 then (None, delete key c) else (Some (exp - now), c)
  end.

Definition neg_set (key : string) (ttl now : Z) (c : NegCache) : NegCache :=
  if ttl =? 0 then c else <[key := now + ttl]> c.

Definition neg_clear (key : string) (c : NegCache) : NegCache := delete key c.

(** ** Rows *)

Definition TYPE_HOSTED : string := "hosted".
Definition TYPE_PROXY : string := "proxy".
Definition FORMAT_MAVEN : string := "maven".
Definition FORMAT_NPM : string := "npm".
Definition FORMAT_CARGO : string := "cargo".
Definition FORMAT_GO : string := "go".
Definition FORMAT_PYPI : string := "pypi".
Definition FORMAT_OCI : string := "oci".

Record Repository := mkRepository {
  repo_id : Z;
  repo_name : string;
  repo_type : string;
  repo_format : string;
}.

Inductive Severity := SeverityNone | SeverityLow | SeverityMedium | SeverityHigh | SeverityCritical.

(** The order derived from the discriminants. *)
Definition severity_rank (s : Severity) : Z :=
  match s with
  | SeverityNone => 0 | SeverityLow => 1 | SeverityMedium => 2 | SeverityHigh => 3 | SeverityCritical => 4
  end.

Definition severity_str (s : Severity) : string :=
  match s with
  | SeverityCritical => SEVERITY_CRITICAL
  | SeverityHigh => SEVERITY_HIGH
  | SeverityMedium => SEVERITY_MEDIUM
  | SeverityLow => SEVERITY_LOW
  | SeverityNone => "none"
  end.

Definition parse_severity (s : string) : Severity :=
  if String.eqb s SEVERITY_CRITICAL then SeverityCritical
  else if String.eqb s SEVERITY_HIGH then SeverityHigh
  else if String.eqb s SEVERITY_MEDIUM then SeverityMedium
  else if String.eqb s SEVERITY_LOW then SeverityLow
  else SeverityNone.

Record VulnScan := mkVulnScan { max_severity : string; vuln_ids : list string }.

Definition APPROVAL_PENDING : string := "pending".
Definition APPROVAL_APPROVED : string := "approved".
Definition APPROVAL_REJECTED : string := "rejected".

Record PackageApproval := mkPackageApproval {
  a_status : string;
  requested_by : string;
  decided_by : string;
  note : string;
  request_count : Z;
  last_requested_version : string;
}.

(** The tables a gate uses: approvals by repository and package, denied versions
    by repository, package and version, scans by ecosystem, package and version. *)
Record Tables := mkTables {
  approvals : gmap (string * string) PackageApproval;
  version_denies : gset (string * string * string);
  vuln_scans : gmap (string * string * string) VulnScan;
  license_scans : gmap (string * string * string) (list string);
}.

Definition with_approvals (t : Tables) (a : gmap (string * string) PackageApproval) : Tables :=
  mkTables a (version_denies t) (vuln_scans t) (license_scans t).

Inductive StoreError := RowNotFound | QueryFailed.

Definition found {A} (fails : bool) (row : option A) : result StoreError A :=
  if fails then Err QueryFailed else match row with Some x => Ok x | None => Err RowNotFound end.

(** [upsert_pending_approval]: the row and whether its count is one. *)
Definition pending_upsert (username version : string) (old : option PackageApproval) : PackageApproval * bool :=
  match old with
  | None => (mkPackageApproval APPROVAL_PENDING username EmptyString EmptyString 1 version, true)
  | Some a =>
      if String.eqb (a_status a) APPROVAL_APPROVED then (a, false)
      else
        (mkPackageApproval (a_status a) (requested_by a) (decided_by a) (note a) (request_count a + 1)
           (or_default version (last_requested_version a)),
         request_count a + 1 =? 1)
  end.

(** [upsert_approval_decision]. *)
Definition decision_upsert (status decided_by note : string) (old : option PackageApproval) : PackageApproval :=
  match old with
  | None => mkPackageApproval status EmptyString decided_by note 0 EmptyString
  | Some a => mkPackageApproval status (requested_by a) decided_by note (request_count a) (last_requested_version a)
  end.

Definition upsert_pending (key : string * string) (username version : string) (t : Tables) : bool * Tables :=
  let '(row, created) := pending_upsert username version (approvals t !! key) in
  (created, with_approvals t (<[key := row]> (approvals t))).

Definition upsert_decision (key : string * string) (status decided_by note : string) (t : Tables) : Tables :=
  with_approvals t (<[key := decision_upsert status decided_by note (approvals t !! key)]> (approvals t)).

(** ** Requests and effects *)

Inductive Method := GET | HEAD | PUT | POST | PATCH | DELETE.

Definition is_read (m : Method) : bool := match m with GET | HEAD => true | _ => false end.

Record Request := mkRequest { method : Method; user : string; if_none_match : string }.

Inductive Content :=
  | Text (s : string)
  | NoContent
  | Blob (sha256 : string)
  | Upstream.

Record Response := mkResponse {
  code : Z;
  content : Content;
  etag : string;
  retry_hint : string;
  stale_header : bool;
}.

Definition newline : string := String (ascii_of_N 10) EmptyString.

Definition http_error (code : Z) (msg : string) : Response :=
  mkResponse code (Text (msg +:+ newline)) EmptyString EmptyString false.

Record Resolved := mkResolved { repo : Repository; cfg : Config }.

Definition EVENT_VULN_BLOCK : string := "vuln.block".
Definition EVENT_LICENSE_BLOCK : string := "license.block".
Definition EVENT_DENY_BLOCK : string := "deny.block".
Definition EVENT_APPROVAL_REQUEST : string := "approval.request".
Definition EVENT_APPROVAL_APPROVE : string := "approval.approve".

(** What leaves the gates besides the answer: audit events and the alarm hook. *)
Inductive Effect :=
  | Audited (at_ : Z) (repo action path username : string)
  | Alarmed (at_ : Z) (repo pkg version username : string) (receivers : list string).

(** A scan or a resolution that is queued: ecosystem or system, package, version. *)
Definition Job : Type := string * string * string.

Record Manager := mkManager {
  tables : Tables;
  req_marks : NegCache;
  scan_queue : list Job;
  resolve_queue : list Job;
  effects : list Effect;
}.

(** The calls of the store that may fail, by place. *)
Inductive StoreCall :=
  | DenyLookup | VulnLookup | LicenseLookup | ApprovalLookup | CleanLookup | PendingUpsert | DecisionUpsert.

Record GateEnv := mkGateEnv {
  now : Z;
  has_scanner : bool;
  has_resolver : bool;
  has_recorder : bool;
  has_alarm : bool;
  fails : StoreCall -> bool;
}.

(** Computations over the manager. *)
Definition M (A : Type) : Type := Manager -> A * Manager.

Definition ret {A} (x : A) : M A := fun s => (x, s).
Definition bind {A B} (m : M A) (f : A -> M B) : M B := fun s => let '(x, s) := m s in f x s.

Declare Scope gate_scope.
Delimit Scope gate_scope with gate.
Notation "'let*' x := m 'in' k" := (bind m (fun x => k))
  (at level 10, x pattern, m at level 100, k at level 200,
   format "'[v' 'let*'  x  :=  m  'in' '/' k ']'") : gate_scope.
Open Scope gate_scope.

Definition get_tables : M Tables := fun s => (tables s, s).
Definition put_tables (t : Tables) : M unit :=
  fun s => (tt, mkManager t (req_marks s) (scan_queue s) (resolve_queue s) (effects s)).
Definition effect (e : Effect) : M unit :=
  fun s => (tt, mkManager (tables s) (req_marks s) (scan_queue s) (resolve_queue s) (effects s ++ [e])).
Definition with_marks {A} (f : NegCache -> A * NegCache) : M A :=
  fun s => let '(x, c) := f (req_marks s) in
           (x, mkManager (tables s) c (scan_queue s) (resolve_queue s) (effects s)).

Definition PENDING_MARK_TTL : Z := 60 * 10 ^ 9.
Definition QUEUE_CAPACITY : Z := 1024.
Definition AUTO_APPROVE_ACTOR : string := "system:auto-approve-clean".
Definition AUTO_APPROVE_NOTE : string := "auto-approved: clean vulnerability scan (max severity none)".

(** [\u{0}] between the parts of a mark. *)
Definition nul : string := String (ascii_of_N 0) EmptyString.

Definition osv_ecosystem (format : string) : string :=
  if String.eqb format FORMAT_MAVEN then "Maven"
  else if String.eqb format FORMAT_NPM then "npm"
  else if String.eqb format FORMAT_CARGO then "crates.io"
  else if String.eqb format FORMAT_GO then "Go"
  else if String.eqb format FORMAT_PYPI then "PyPI"
  else EmptyString.

Definition deps_dev_system (format : string) : string :=
  if String.eqb format FORMAT_MAVEN then "maven"
  else if String.eqb format FORMAT_NPM then "npm"
  else if String.eqb format FORMAT_CARGO then "cargo"
  else if String.eqb format FORMAT_GO then "go"
  else if String.eqb format FORMAT_PYPI then "pypi"
  else EmptyString.

(** [try_send] of a bounded channel. *)
Definition try_send (j : Job) (q : list Job) : list Job := if zlen q <? QUEUE_CAPACITY then q ++ [j] else q.

(** Takes a mark: whether it was free. *)
Definition take_mark (env : GateEnv) (mark : string) : M bool :=
  let* marked := with_marks (neg_has mark (now env)) in
  if marked then ret false
  else
    let* _ := with_marks (fun c => (tt, neg_set mark PENDING_MARK_TTL (now env) c)) in
    ret true.

Definition scan_mark (eco pkg version : string) : string :=
  "scan" +:+ nul +:+ eco +:+ nul +:+ pkg +:+ nul +:+ version.

Definition enqueue_scan (env : GateEnv) (eco pkg version : string) : M unit :=
  if negb (has_scanner env) || str_is_empty eco || str_is_empty pkg then ret tt
  else
    let* free := take_mark env (scan_mark eco pkg version) in
    if negb free then ret tt
    else fun s => (tt, mkManager (tables s) (req_marks s) (try_send (eco, pkg, version) (scan_queue s)) (resolve_queue s)
                         (effects s)).

Definition resolve_mark (system pkg version : string) : string :=
  "license" +:+ nul +:+ system +:+ nul +:+ pkg +:+ nul +:+ version.

Definition enqueue_resolve (env : GateEnv) (system pkg version : string) : M unit :=
  if negb (has_resolver env) || str_is_empty system || str_is_empty pkg || str_is_empty version then ret tt
  else
    let* free := take_mark env (resolve_mark system pkg version) in
    if negb free then ret tt
    else fun s => (tt, mkManager (tables s) (req_marks s) (scan_queue s) (try_send (system, pkg, version) (resolve_queue s))
                         (effects s)).

Definition record (env : GateEnv) (repo action path username : string) : M unit :=
  if has_recorder env then effect (Audited (now env) repo action path username) else ret tt.

(** ** License expressions *)

Section Licenses.
(** [str::to_lowercase], by the tables of Unicode. *)
Context (to_lowercase : string -> string).

Definition lower_set (items : list string) : list string :=
  to_lowercase <$> List.filter (fun it => negb (str_is_empty it)) (trim <$> items).

Definition license_violation (licenses deny allow : list string) : option string :=
  match List.find (fun l => listed (to_lowercase l) (lower_set deny)) licenses with
  | Some l => Some ("denied license " +:+ l)
  | None =>
      if is_nil allow || is_nil licenses then None
      else match List.find (fun l => negb (listed (to_lowercase l) (lower_set allow))) licenses with
      | Some l => Some ("license " +:+ l +:+ " not in allow list")
      | None => None
      end
  end.
End Licenses.

(** [all_ignored] of vulngate.rs. *)
Definition all_ignored (ids ignore : list string) : bool :=
  if is_nil ignore then false else forallb (fun id => listed id ignore) ids.

(** ** The gates *)

Section Gates.
(** The crate's glob matcher, and lower case. *)
Context (glob_match : string -> string -> bool) (to_lowercase : string -> string).
Context (env : GateEnv) (req : Request) (res : Resolved) (pkg version : string).

Definition gate : Type := M (option Response).

(** Only reads of proxy and hosted repositories are gated. *)
Definition gated : bool :=
  (String.eqb (repo_type (repo res)) TYPE_PROXY || String.eqb (repo_type (repo res)) TYPE_HOSTED) && is_read (method req).

Definition coordinate : string := pkg +:+ "@" +:+ version.

Definition deny_mark : string := "deny" +:+ nul +:+ repo_name (repo res) +:+ nul +:+ pkg +:+ nul +:+ version.

Definition version_deny_gate : gate :=
  if negb gated then ret None
  else if str_is_empty pkg || str_is_empty version then ret None
  else
    let* t := get_tables in
    if fails env DenyLookup then ret (Some (http_error 503 "deny check failed"))
    else if negb (bool_decide ((repo_name (repo res), pkg, version) ∈ version_denies t)) then ret None
    else
      let* free := take_mark env deny_mark in
      let* _ := (if free then record env (repo_name (repo res)) EVENT_DENY_BLOCK coordinate (user req) else ret tt) in
      ret (Some (http_error 403 ("version denied: " +:+ coordinate))).

Definition vuln_gate : gate :=
  if negb (has_scanner env) || negb gated then ret None
  else
    let c := vuln (cfg res) in
    if negb (vuln_enabled c) || str_is_empty pkg || str_is_empty version then ret None
    else
      let eco := osv_ecosystem (repo_format (repo res)) in
      if str_is_empty eco then ret None
      else
        let* t := get_tables in
        match found (fails env VulnLookup) (vuln_scans t !! (eco, pkg, version)) with
        | Err RowNotFound =>
            let* _ := enqueue_scan env eco pkg version in
            if String.eqb (vuln_effective_action c) VULN_ACTION_BLOCK && block_unscanned c
            then ret (Some (http_error 403 ("package pending vulnerability scan: " +:+ pkg)))
            else ret None
        | Err QueryFailed => ret None
        | Ok scan =>
            if is_nil (vuln_ids scan) || all_ignored (vuln_ids scan) (ignore c) then ret None
            else if severity_rank (parse_severity (max_severity scan)) <?
                    severity_rank (parse_severity (effective_threshold c)) then ret None
            else
              let action := vuln_effective_action c in
              if String.eqb action VULN_ACTION_AUDIT || String.eqb action VULN_ACTION_WARN then ret None
              else
                let* _ := record env (repo_name (repo res)) EVENT_VULN_BLOCK coordinate (user req) in
                ret (Some (http_error 403
                  ("blocked: known vulnerabilities (" +:+ max_severity scan +:+ ") in " +:+ coordinate)))
        end.

Definition license_gate : gate :=
  if negb (has_resolver env) || negb gated then ret None
  else
    let c := license (cfg res) in
    if negb (license_enabled c) || str_is_empty pkg || str_is_empty version then ret None
    else
      let system := deps_dev_system (repo_format (repo res)) in
      if str_is_empty system then ret None
      else
        let* t := get_tables in
        match found (fails env LicenseLookup) (license_scans t !! (system, pkg, version)) with
        | Err RowNotFound =>
            let* _ := enqueue_resolve env system pkg version in
            if String.eqb (license_effective_action c) VULN_ACTION_BLOCK && block_unresolved c
            then ret (Some (http_error 403 ("package pending license resolution: " +:+ pkg)))
            else ret None
        | Err QueryFailed => ret None
        | Ok licenses =>
            match license_violation to_lowercase licenses (deny c) (allow c) with
            | None => ret None
            | Some reason =>
                let action := license_effective_action c in
                if String.eqb action VULN_ACTION_AUDIT || String.eqb action VULN_ACTION_WARN then ret None
                else
                  let* _ := record env (repo_name (repo res)) EVENT_LICENSE_BLOCK coordinate (user req) in
                  ret (Some (http_error 403 ("blocked: license policy (" +:+ reason +:+ ") for " +:+ coordinate)))
            end
        end.

Definition approval_bypassed : bool := existsb (fun pattern => glob_match pattern pkg) (auto_approve (approval (cfg res))).

Definition approval_key : string * string := (repo_name (repo res), pkg).

Definition auto_approve_if_clean : M bool :=
  if negb (has_scanner env) then ret false
  else
    let eco := osv_ecosystem (repo_format (repo res)) in
    if str_is_empty eco then ret false
    else
      let* t := get_tables in
      match found (fails env CleanLookup) (vuln_scans t !! (eco, pkg, version)) with
      | Err _ => ret false
      | Ok scan =>
          match parse_severity (max_severity scan) with
          | SeverityNone =>
              if fails env DecisionUpsert then ret false
              else
                let* _ := put_tables (upsert_decision approval_key APPROVAL_APPROVED AUTO_APPROVE_ACTOR AUTO_APPROVE_NOTE t) in
                let* _ := record env (repo_name (repo res)) EVENT_APPROVAL_APPROVE pkg AUTO_APPROVE_ACTOR in
                ret true
          | _ => ret false
          end
      end.

Definition approval_mark : string := repo_name (repo res) +:+ nul +:+ pkg.

(** The request of an approval, once per mark. *)
Definition request_approval : M unit :=
  let* free := take_mark env approval_mark in
  if negb free then ret tt
  else
    let* _ := enqueue_scan env (osv_ecosystem (repo_format (repo res))) pkg version in
    if String.eqb (effective_mode (approval (cfg res))) MODE_AUDIT then
      record env (repo_name (repo res)) EVENT_APPROVAL_REQUEST pkg (user req)
    else if fails env PendingUpsert then ret tt
    else
      let* t := get_tables in
      let '(created, t) := upsert_pending approval_key (user req) version t in
      let* _ := put_tables t in
      if negb created then ret tt
      else
        let* _ := record env (repo_name (repo res)) EVENT_APPROVAL_REQUEST pkg (user req) in
        if has_alarm env
        then effect (Alarmed (now env) (repo_name (repo res)) pkg version (user req) (receivers (cfg res)))
        else ret tt.

Definition approval_gate : gate :=
  if negb gated then ret None
  else if negb (approval_enabled (approval (cfg res))) then ret None
  else if str_is_empty pkg then ret None
  else if approval_bypassed then ret None
  else
    let mode := effective_mode (approval (cfg res)) in
    let* t := get_tables in
    let status := found (fails env ApprovalLookup) (a_status <$> approvals t !! approval_key) in
    match status with
    | Err QueryFailed =>
        if String.eqb mode MODE_ENFORCE then ret (Some (http_error 503 "approval check failed")) else ret None
    | _ =>
        if match status with Ok s => String.eqb s APPROVAL_APPROVED | Err _ => false end then ret None
        else
          let* admitted := (if auto_approve_clean (approval (cfg res)) then auto_approve_if_clean else ret false) in
          if admitted : bool then ret None
          else
            let* _ := request_approval in
            if String.eqb mode MODE_AUDIT then ret None
            else ret (Some (http_error 403 ("package pending approval: " +:+ pkg)))
    end.

(** ** The pipeline *)

Definition policy_registry (name : string) : option gate :=
  if String.eqb name POLICY_VULNERABILITY then Some vuln_gate
  else if String.eqb name POLICY_LICENSE then Some license_gate
  else None.

(** One gate, then the rest unless it answered. *)
Definition and_then (g rest : gate) : gate :=
  let* answer := g in
  match answer with Some r => ret (Some r) | None => rest end.

Fixpoint before_age (order : list string) : gate :=
  match order with
  | [] => ret None
  | name :: order =>
      if String.eqb name POLICY_AGE then ret None
      else match policy_registry name with
      | None => before_age order
      | Some policy => and_then policy (before_age order)
      end
  end.

Definition policy_gates : gate :=
  and_then version_deny_gate (before_age (effective_order (policy_pipeline (cfg res)))).

(** The loop of [final_policy_gate], then [last]. *)
Fixpoint after_age (order : list string) (seen : bool) (last : gate) : gate :=
  match order with
  | [] => last
  | name :: order =>
      if String.eqb name POLICY_AGE then after_age order true last
      else if negb seen then after_age order seen last
      else match policy_registry name with
      | None => after_age order seen last
      | Some policy => and_then policy (after_age order seen last)
      end
  end.

Definition final_policy_gate : gate :=
  after_age (effective_order (policy_pipeline (cfg res))) false approval_gate.
End Gates.

(** ** Uploads *)

Section Uploads.
Context (glob_match : string -> string -> bool) (env : GateEnv).

(** [quarantine_uploaded_publication], where the configuration parses. *)
Definition quarantine_uploaded_publication (res : Resolved) (pkg version username : string) : M unit :=
  if str_is_empty pkg then ret tt
  else if negb (approval_enabled (approval (cfg res))) || approval_bypassed glob_match res pkg then ret tt
  else
    let request := record env (repo_name (repo res)) EVENT_APPROVAL_REQUEST pkg username in
    if String.eqb (effective_mode (approval (cfg res))) MODE_AUDIT then request
    else if fails env PendingUpsert then ret tt
    else
      let* t := get_tables in
      let '(created, t) := upsert_pending (repo_name (repo res), pkg) username version t in
      let* _ := put_tables t in
      if negb created then ret tt
      else
        let* _ := request in
        if has_alarm env
        then effect (Alarmed (now env) (repo_name (repo res)) pkg version username (receivers (cfg res)))
        else ret tt.
End Uploads.
