(* ===== verification/GateFacts.v ===== *)
(** * What the policy gates decide (forklift: repo/policypipeline.rs and the gates)

    Whether a request passes the whole pipeline, in terms of the tables alone; what
    a request may change in the approvals; how often it is reported. *)

From stdpp Require Import prelude list strings gmap sets sorting.
From Stdlib Require Import ZArith Lia Ascii Sorted.
From S2P Require Import Prelude.
From S2P Require Import Strings.
From S2P Require Import RepoConfig.
From S2P Require Import Gates.

(** ** Computations that leave the tables alone *)

Definition reads {A} (m : M A) : Prop := forall s, tables (m s).2 = tables s.

Create HintDb gates.

Lemma reads_ret {A} (x : A) : reads (ret x).
Proof. done. Qed.

Lemma reads_bind {A B} (m : M A) (f : A -> M B) : reads m -> (forall x, reads (f x)) -> reads (bind m f).
Proof. intros Hm Hf s. unfold bind. specialize (Hm s). destruct (m s) as [x s']. by rewrite (Hf x s'). Qed.

Lemma reads_with_marks {A} (f : NegCache -> A * NegCache) : reads (with_marks f).
Proof. intros s. unfold with_marks. by destruct (f (req_marks s)). Qed.

Lemma reads_effect e : reads (effect e).
Proof. done. Qed.

Lemma reads_get : reads get_tables.
Proof. done. Qed.

#[export] Hint Resolve reads_ret reads_bind reads_with_marks reads_effect reads_get : gates.

Lemma reads_record env r a p u : reads (record env r a p u).
Proof. unfold record. by destruct (has_recorder env). Qed.

Lemma reads_take_mark env mark : reads (take_mark env mark).
Proof.
  unfold take_mark. apply reads_bind; [auto with gates|]. intros []; [auto with gates|].
  apply reads_bind; auto with gates.
Qed.

Lemma reads_enqueue_scan env eco pkg version : reads (enqueue_scan env eco pkg version).
Proof.
  unfold enqueue_scan. destruct (_ || _); [auto with gates|]. apply reads_bind; [apply reads_take_mark|].
  by intros [] s.
Qed.

Lemma reads_enqueue_resolve env system pkg version : reads (enqueue_resolve env system pkg version).
Proof.
  unfold enqueue_resolve. destruct (_ || _); [auto with gates|]. apply reads_bind; [apply reads_take_mark|].
  by intros [] s.
Qed.

#[export] Hint Resolve reads_record reads_take_mark reads_enqueue_scan reads_enqueue_resolve : gates.

(** A computation that starts by reading the tables. *)
Lemma bind_get {A} (f : Tables -> M A) s : bind get_tables f s = f (tables s) s.
Proof. done. Qed.

(** One that ends with an answer. *)
Lemma bind_answer {A B} (m : M A) (x : B) s : (bind m (fun _ => ret x) s).1 = x.
Proof. unfold bind. by destruct (m s). Qed.

Lemma str_is_empty_spec s : str_is_empty s = true <-> s = EmptyString.
Proof. by destruct s. Qed.

Lemma str_not_empty s : str_is_empty s = false <-> s <> EmptyString.
Proof. by destruct s. Qed.

(** ** Severities *)

Lemma parse_severity_str s : parse_severity (severity_str s) = s.
Proof. by destruct s. Qed.

Definition worse (m s : Severity) : Severity := if severity_rank m <? severity_rank s then s else m.

(** The worst of a list is the start or one of them, and at least all of them. *)
Lemma worst_spec m l :
  severity_rank m <= severity_rank (foldl worse m l) /\ (forall s, s ∈ l -> severity_rank s <= severity_rank (foldl worse m l)) /\
  (foldl worse m l = m \/ foldl worse m l ∈ l).
Proof.
  revert m. induction l as [|s l IH]; intros m; cbn.
  - split_and!; [lia| |by left]. intros s Hs. by apply not_elem_of_nil in Hs.
  - destruct (IH (worse m s)) as (H1 & H2 & H3). unfold worse in *. destruct (Z.ltb_spec (severity_rank m) (severity_rank s)).
    + split_and!; [lia| |]. { intros t [->|Ht]%elem_of_cons; [lia|by apply H2]. }
      right. apply elem_of_cons. destruct H3 as [->|H3]; [by left|by right].
    + split_and!; [lia| |]. { intros t [->|Ht]%elem_of_cons; [lia|by apply H2]. }
      destruct H3 as [->|H3]; [by left|]. right. apply elem_of_cons. by right.
Qed.
Section Decisions.
Context (glob_match : string -> string -> bool) (to_lowercase : string -> string).
Context (env : GateEnv) (req : Request) (res : Resolved) (pkg version : string).
Context (Hgated : gated req res = true).

(** ** What each gate refuses *)

Definition has_coordinate : Prop := pkg <> EmptyString /\ version <> EmptyString.

(** The version is denied, or that is not known. *)
Definition deny_blocked (t : Tables) : Prop :=
  has_coordinate /\ (fails env DenyLookup = true \/ (repo_name (repo res), pkg, version) ∈ version_denies t).

(** An action that serves. *)
Definition serving_action (action : string) : Prop := action = VULN_ACTION_AUDIT \/ action = VULN_ACTION_WARN.

(** An advisory that is not accepted reaches the threshold, or nothing is known
    and that is not tolerated. *)
Definition vuln_blocked (t : Tables) : Prop :=
  let c := vuln (cfg res) in
  let eco := osv_ecosystem (repo_format (repo res)) in
  has_scanner env = true /\ vuln_enabled c = true /\ has_coordinate /\ eco <> EmptyString /\
  fails env VulnLookup = false /\
  match vuln_scans t !! (eco, pkg, version) with
  | None => vuln_effective_action c = VULN_ACTION_BLOCK /\ block_unscanned c = true
  | Some scan =>
      (exists id, id ∈ vuln_ids scan /\ id ∉ ignore c) /\
      severity_rank (parse_severity (effective_threshold c)) <= severity_rank (parse_severity (max_severity scan)) /\
      ~ serving_action (vuln_effective_action c)
  end.

(** A license is denied or outside the licenses that are allowed. *)
Definition license_violates (licenses : list string) : Prop :=
  let c := license (cfg res) in
  (exists l, l ∈ licenses /\ to_lowercase l ∈ lower_set to_lowercase (deny c)) \/
  (allow c <> [] /\ exists l, l ∈ licenses /\ to_lowercase l ∉ lower_set to_lowercase (allow c)).

Definition license_blocked (t : Tables) : Prop :=
  let c := license (cfg res) in
  let system := deps_dev_system (repo_format (repo res)) in
  has_resolver env = true /\ license_enabled c = true /\ has_coordinate /\ system <> EmptyString /\
  fails env LicenseLookup = false /\
  match license_scans t !! (system, pkg, version) with
  | None => license_effective_action c = VULN_ACTION_BLOCK /\ block_unresolved c = true
  | Some licenses => license_violates licenses /\ ~ serving_action (license_effective_action c)
  end.

(** The scan of the requested coordinate admits the package. *)
Definition clean_scan (t : Tables) : Prop :=
  exists scan, vuln_scans t !! (osv_ecosystem (repo_format (repo res)), pkg, version) = Some scan /\
    parse_severity (max_severity scan) = SeverityNone.

Definition auto_approved (t : Tables) : Prop :=
  auto_approve_clean (approval (cfg res)) = true /\ has_scanner env = true /\
  osv_ecosystem (repo_format (repo res)) <> EmptyString /\
  fails env CleanLookup = false /\ fails env DecisionUpsert = false /\ clean_scan t.

Definition approved (t : Tables) : Prop :=
  exists a, approvals t !! approval_key res pkg = Some a /\ a_status a = APPROVAL_APPROVED.

(** Nobody and no scan has admitted the package, or that is not known. *)
Definition approval_blocked (t : Tables) : Prop :=
  approval_enabled (approval (cfg res)) = true /\ pkg <> EmptyString /\ approval_bypassed glob_match res pkg = false /\
  effective_mode (approval (cfg res)) <> MODE_AUDIT /\
  (fails env ApprovalLookup = true \/ (~ approved t /\ ~ auto_approved t)).

(** ** The gates decide this *)

Lemma version_deny_gate_spec s : (version_deny_gate env req res pkg version s).1 = None <-> ~ deny_blocked (tables s).
Proof.
  unfold version_deny_gate, deny_blocked, has_coordinate. rewrite Hgated. cbn [negb].
  destruct (str_is_empty pkg) eqn:Hp; cbn [orb].
  { apply str_is_empty_spec in Hp. by split; [intros _ [[? _] _]|]. }
  destruct (str_is_empty version) eqn:Hv.
  { apply str_is_empty_spec in Hv. by split; [intros _ [[_ ?] _]|]. }
  apply str_not_empty in Hp, Hv. rewrite bind_get. destruct (fails env DenyLookup) eqn:Hf.
  { split; [done|]. intros H. exfalso. apply H. auto. }
  destruct (bool_decide _) eqn:Hd; cbn [negb].
  - apply bool_decide_eq_true in Hd. unfold bind at 1. destruct (take_mark _ _ s) as [free s'].
    rewrite bind_answer. split; [done|]. intros H. exfalso. apply H. auto.
  - apply bool_decide_eq_false in Hd. split; [|done]. by intros _ [_ [?|?]].
Qed.

Lemma version_deny_gate_reads : reads (version_deny_gate env req res pkg version).
Proof.
  unfold version_deny_gate. destruct (negb _); [auto with gates|]. destruct (_ || _); [auto with gates|].
  apply reads_bind; [auto with gates|]. intros t. destruct (fails _ _); [auto with gates|].
  destruct (negb _); [auto with gates|]. apply reads_bind; [auto with gates|]. intros free.
  apply reads_bind; [|auto with gates]. destruct free; auto with gates.
Qed.

Lemma all_ignored_spec ids l : is_nil ids || all_ignored ids l = false <-> exists id, id ∈ ids /\ id ∉ l.
Proof.
  unfold all_ignored. destruct ids as [|i ids]; cbn [is_nil orb].
  { split; [done|]. intros (? & H & _). by apply not_elem_of_nil in H. }
  destruct l as [|x l]; cbn [is_nil].
  { split; [|done]. intros _. exists i. split; [apply list_elem_of_here|apply not_elem_of_nil]. }
  rewrite <- not_true_iff_false, forallb_forall. split.
  - intros H. destruct (decide (Exists (fun id => id ∉ x :: l) (i :: ids))) as [He|He].
    + by apply Exists_exists in He.
    + exfalso. apply H. intros id Hid%list_elem_of_In. apply listed_spec. destruct (decide (id ∈ x :: l)); [done|].
      exfalso. apply He, Exists_exists. eauto.
  - intros (id & Hin & Hno) H. apply Hno, listed_spec, H. by apply list_elem_of_In.
Qed.

Lemma serving_action_spec action :
  String.eqb action VULN_ACTION_AUDIT || String.eqb action VULN_ACTION_WARN = true <-> serving_action action.
Proof. unfold serving_action. by rewrite orb_true_iff, !String.eqb_eq. Qed.

Lemma vuln_gate_spec s : (vuln_gate env req res pkg version s).1 = None <-> ~ vuln_blocked (tables s).
Proof.
  unfold vuln_gate, vuln_blocked, has_coordinate. rewrite Hgated. cbn [negb]. rewrite orb_false_r. cbn zeta.
  destruct (has_scanner env); cbn [negb]; [|by split; [intros _ (? & _)|]].
  destruct (vuln_enabled _); cbn [negb orb]; [|by split; [intros _ (_ & ? & _)|]].
  destruct (str_is_empty pkg) eqn:Hp; cbn [orb].
  { apply str_is_empty_spec in Hp. by split; [intros _ (_ & _ & [? _] & _)|]. }
  destruct (str_is_empty version) eqn:Hv.
  { apply str_is_empty_spec in Hv. by split; [intros _ (_ & _ & [_ ?] & _)|]. }
  destruct (str_is_empty (osv_ecosystem _)) eqn:He.
  { apply str_is_empty_spec in He. by split; [intros _ (_ & _ & _ & ? & _)|]. }
  apply str_not_empty in Hp, Hv, He. rewrite bind_get. unfold found.
  destruct (fails env VulnLookup); [by split; [intros _ (_ & _ & _ & _ & ? & _)|]|].
  destruct (vuln_scans (tables s) !! _) as [scan|].
  - destruct (is_nil _ || _) eqn:Hi.
    { split; [|done]. intros _ (_ & _ & _ & _ & _ & Hex & _). apply all_ignored_spec in Hex. congruence. }
    apply all_ignored_spec in Hi. destruct (Z.ltb_spec (severity_rank (parse_severity (max_severity scan)))
      (severity_rank (parse_severity (effective_threshold (vuln (cfg res)))))).
    { split; [|done]. intros _ (_ & _ & _ & _ & _ & _ & ? & _). lia. }
    destruct (String.eqb _ _ || _) eqn:Ha.
    { apply serving_action_spec in Ha. split; [|done]. by intros _ (_ & _ & _ & _ & _ & _ & _ & ?). }
    rewrite bind_answer. split; [done|]. intros Hno. exfalso. apply Hno. split_and!; auto.
    intros Hs%serving_action_spec. congruence.
  - unfold bind at 1. destruct (enqueue_scan _ _ _ _ s) as [[] s'].
    destruct (String.eqb _ _ && _) eqn:Hb.
    + apply andb_true_iff in Hb as [Hb1%String.eqb_eq Hb2]. split; [done|]. intros Hno. exfalso. apply Hno. split_and!; auto.
    + split; [|done]. intros _ (_ & _ & _ & _ & _ & Hb1 & Hb2). rewrite Hb1, Hb2 in Hb. done.
Qed.

Lemma vuln_gate_reads : reads (vuln_gate env req res pkg version).
Proof.
  unfold vuln_gate. destruct (_ || _); [auto with gates|]. cbn zeta. destruct (_ || _); [auto with gates|].
  destruct (str_is_empty _); [auto with gates|]. apply reads_bind; [auto with gates|]. intros t.
  destruct (found _ _) as [scan|[]]; [..|auto with gates].
  - destruct (_ || _); [auto with gates|]. destruct (_ <? _); [auto with gates|].
    destruct (_ || _); auto with gates.
  - apply reads_bind; [auto with gates|]. intros _. destruct (_ && _); auto with gates.
Qed.

Lemma find_exists {A} (f : A -> bool) l : is_some (List.find f l) = true <-> exists x, x ∈ l /\ f x = true.
Proof.
  split.
  - destruct (List.find f l) as [x|] eqn:Hf; [|done]. intros _. apply List.find_some in Hf as [Hin Hx].
    exists x. split; [by apply list_elem_of_In|done].
  - intros (x & Hin%list_elem_of_In & Hx). destruct (List.find f l) eqn:Hf; [done|].
    eapply List.find_none in Hf; [|done]. congruence.
Qed.

Lemma license_violation_spec licenses c :
  license (cfg res) = c ->
  is_some (license_violation to_lowercase licenses (deny c) (allow c)) = true <-> license_violates licenses.
Proof.
  unfold license_violation, license_violates. intros ->. cbn zeta.
  pose proof (find_exists (fun l => listed (to_lowercase l) (lower_set to_lowercase (deny c))) licenses) as Hd.
  pose proof (find_exists (fun l => negb (listed (to_lowercase l) (lower_set to_lowercase (allow c)))) licenses) as Ha.
  destruct (List.find _ licenses) as [l|].
  { split; [|done]. intros _. left. destruct Hd as [(x & Hin & Hx%listed_spec) _]; [done|]. eauto. }
  assert (Hnd : ~ exists l, l ∈ licenses /\ to_lowercase l ∈ lower_set to_lowercase (deny c)).
  { intros (x & Hin & Hx%listed_spec). assert (is_some (@None string) = true); [|done]. apply Hd. eauto. }
  destruct (is_nil (allow c)) eqn:Hal; cbn [orb].
  { split; [done|]. intros [H|[H _]]; [done|]. by destruct (allow c). }
  destruct (is_nil licenses) eqn:Hl.
  { split; [done|]. intros [H|[_ (x & Hin & _)]]; [done|]. destruct licenses; [|done]. by apply not_elem_of_nil in Hin. }
  split.
  - intros Hs. right. split; [by destruct (allow c)|]. destruct Ha as [(x & Hin & Hx%negb_true_iff) _]; [by destruct (List.find _ _)|].
    exists x. split; [done|]. intros Hin'%listed_spec. congruence.
  - intros [H|[_ (x & Hin & Hx)]]; [done|]. assert (Hs : is_some (List.find (fun l => negb (listed (to_lowercase l) (lower_set to_lowercase (allow c)))) licenses) = true).
    { apply Ha. exists x. split; [done|]. apply negb_true_iff, not_true_iff_false. by rewrite listed_spec. }
    by destruct (List.find _ _).
Qed.

Lemma license_gate_spec s : (license_gate to_lowercase env req res pkg version s).1 = None <-> ~ license_blocked (tables s).
Proof.
  unfold license_gate, license_blocked, has_coordinate. rewrite Hgated. cbn [negb]. rewrite orb_false_r. cbn zeta.
  destruct (has_resolver env); cbn [negb]; [|by split; [intros _ (? & _)|]].
  destruct (license_enabled _); cbn [negb orb]; [|by split; [intros _ (_ & ? & _)|]].
  destruct (str_is_empty pkg) eqn:Hp; cbn [orb].
  { apply str_is_empty_spec in Hp. by split; [intros _ (_ & _ & [? _] & _)|]. }
  destruct (str_is_empty version) eqn:Hv.
  { apply str_is_empty_spec in Hv. by split; [intros _ (_ & _ & [_ ?] & _)|]. }
  destruct (str_is_empty (deps_dev_system _)) eqn:He.
  { apply str_is_empty_spec in He. by split; [intros _ (_ & _ & _ & ? & _)|]. }
  apply str_not_empty in Hp, Hv, He. rewrite bind_get. unfold found.
  destruct (fails env LicenseLookup); [by split; [intros _ (_ & _ & _ & _ & ? & _)|]|].
  destruct (license_scans (tables s) !! _) as [licenses|].
  - pose proof (license_violation_spec licenses _ eq_refl) as Hviol.
    destruct (license_violation _ _ _ _) as [reason|].
    2: { split; [|done]. intros _ (_ & _ & _ & _ & _ & Hl & _). by apply Hviol in Hl. }
    destruct (String.eqb _ _ || _) eqn:Ha.
    { apply serving_action_spec in Ha. split; [|done]. by intros _ (_ & _ & _ & _ & _ & _ & ?). }
    rewrite bind_answer. split; [done|]. intros Hno. exfalso. apply Hno. split_and!; auto; [by apply Hviol|].
    intros Hs%serving_action_spec. congruence.
  - unfold bind at 1. destruct (enqueue_resolve _ _ _ _ s) as [[] s'].
    destruct (String.eqb _ _ && _) eqn:Hb.
    + apply andb_true_iff in Hb as [Hb1%String.eqb_eq Hb2]. split; [done|]. intros Hno. exfalso. apply Hno. split_and!; auto.
    + split; [|done]. intros _ (_ & _ & _ & _ & _ & Hb1 & Hb2). rewrite Hb1, Hb2 in Hb. done.
Qed.

Lemma license_gate_reads : reads (license_gate to_lowercase env req res pkg version).
Proof.
  unfold license_gate. destruct (_ || _); [auto with gates|]. cbn zeta. destruct (_ || _); [auto with gates|].
  destruct (str_is_empty _); [auto with gates|]. apply reads_bind; [auto with gates|]. intros t.
  destruct (found _ _) as [scan|[]]; [..|auto with gates].
  - destruct (license_violation _ _ _ _); [|auto with gates]. destruct (_ || _); auto with gates.
  - apply reads_bind; [auto with gates|]. intros _. destruct (_ && _); auto with gates.
Qed.

Lemma auto_approve_spec s :
  (auto_approve_if_clean env res pkg version s).1 = true <->
  has_scanner env = true /\ osv_ecosystem (repo_format (repo res)) <> EmptyString /\
  fails env CleanLookup = false /\ fails env DecisionUpsert = false /\ clean_scan (tables s).
Proof.
  unfold auto_approve_if_clean, clean_scan. destruct (has_scanner env); cbn [negb]; [|by split; [|intros (? & _)]].
  cbn zeta. destruct (str_is_empty _) eqn:He.
  { apply str_is_empty_spec in He. by split; [|intros (_ & ? & _)]. }
  apply str_not_empty in He. rewrite bind_get. unfold found.
  destruct (fails env CleanLookup); [by split; [|intros (_ & _ & ? & _)]|].
  destruct (vuln_scans (tables s) !! _) as [scan|]; [|by split; [|intros (_ & _ & _ & _ & ? & ? & _)]].
  destruct (parse_severity (max_severity scan)) eqn:Hsev;
    try by (split; [|intros (_ & _ & _ & _ & ? & [= <-] & ?); congruence]).
  destruct (fails env DecisionUpsert); [by split; [|intros (_ & _ & _ & ? & _)]|].
  unfold bind. destruct (put_tables _ s) as [[] s']. destruct (record _ _ _ _ _ s') as [[] s'']. cbn.
  split; [|done]. intros _. split_and!; eauto.
Qed.

Lemma approval_gate_spec s :
  effective_mode (approval (cfg res)) ∈ [MODE_ENFORCE; MODE_AUDIT] ->
  (approval_gate glob_match env req res pkg version s).1 = None <-> ~ approval_blocked (tables s).
Proof.
  intros Hmode. unfold approval_gate, approval_blocked. rewrite Hgated. cbn [negb].
  destruct (approval_enabled _); cbn [negb]; [|by split; [intros _ (? & _)|]].
  destruct (str_is_empty pkg) eqn:Hp.
  { apply str_is_empty_spec in Hp. by split; [intros _ (_ & ? & _)|]. }
  apply str_not_empty in Hp. destruct (approval_bypassed _ _ _); [by split; [intros _ (_ & _ & ? & _)|]|].
  cbn zeta. rewrite bind_get.
  assert (Hap : approved (tables s) <-> match found false (a_status <$> approvals (tables s) !! approval_key res pkg) with
    Ok s => String.eqb s APPROVAL_APPROVED | Err _ => false end = true).
  { unfold approved. destruct (approvals (tables s) !! _) as [a|]; cbn.
    - rewrite String.eqb_eq. split; [by intros (? & [= <-] & ?)|eauto].
    - by split; [intros (? & ? & _)|]. }
  destruct (fails env ApprovalLookup); cbn [found].
  { destruct (String.eqb _ MODE_ENFORCE) eqn:Hm.
    - apply String.eqb_eq in Hm. split; [done|]. intros Hno. exfalso. apply Hno. split_and!; auto. by rewrite Hm.
    - split; [|done]. intros _ (_ & _ & _ & Ha & _). apply elem_of_cons in Hmode as [Hm'|Hm'].
      + rewrite Hm', String.eqb_refl in Hm. done.
      + by apply list_elem_of_singleton in Hm'. }
  set (st := match a_status <$> _ with Some x => Ok x | None => Err RowNotFound end).
  change (found false (a_status <$> approvals (tables s) !! approval_key res pkg)) with st in Hap.
  assert (Hst : forall A (a b : A), match st with Err QueryFailed => a | _ => b end = b)
    by (unfold st; by destruct (a_status <$> _)).
  rewrite Hst. clear Hst. destruct (match st with Ok _ => _ | Err _ => false end).
  { split; [|done]. intros _ (_ & _ & _ & _ & [?|[Hna _]]); [done|]. by apply Hna, Hap. }
  assert (Hna : ~ approved (tables s)) by (intros H%Hap; done).
  set (clean := (if auto_approve_clean _ then _ else _)).
  assert (Had : (clean s).1 = true <-> auto_approved (tables s)).
  { unfold clean, auto_approved. destruct (auto_approve_clean _); [|by split; [|intros (? & _)]].
    rewrite auto_approve_spec. split; [auto|]. by intros (_ & ?). }
  unfold bind at 1. destruct (clean s) as [[] s'] eqn:Hs; cbn [fst] in Had.
  { split; [|done]. intros _ (_ & _ & _ & _ & [?|[_ Hno]]); [done|]. by apply Hno, Had. }
  unfold bind at 1. destruct (request_approval _ _ _ _ _ s') as [[] s'']. destruct (String.eqb _ MODE_AUDIT) eqn:Hm.
  - apply String.eqb_eq in Hm. split; [|done]. intros _ (_ & _ & _ & ? & _). done.
  - split; [done|]. intros Hno. exfalso. apply Hno. split_and!; auto.
    + intros Heq. rewrite Heq, String.eqb_refl in Hm. done.
    + right. split; [done|]. intros H%Had. done.
Qed.

(** ** The pipeline *)

(** A gate that leaves the tables alone and refuses where [P] holds. *)
Record decides (g : gate) (P : Tables -> Prop) : Prop := {
  decides_reads : reads g;
  decides_spec s : (g s).1 = None <-> ~ P (tables s);
}.

Lemma and_then_spec g rest P s :
  decides g P -> (and_then g rest s).1 = None <-> ~ P (tables s) /\ (rest (g s).2).1 = None.
Proof.
  intros [Hr Hs]. rewrite <- (Hs s). unfold and_then, bind. destruct (g s) as [[r|] s']; cbn; [|tauto].
  split; [done|]. by intros [? _].
Qed.

Lemma and_then_reads g rest : reads g -> reads rest -> reads (and_then g rest).
Proof. intros Hg Hr. unfold and_then. apply reads_bind; [done|]. intros []; auto with gates. Qed.

Definition blocked_by (name : string) (t : Tables) : Prop :=
  name = POLICY_VULNERABILITY /\ vuln_blocked t \/ name = POLICY_LICENSE /\ license_blocked t.

Abbreviation registry := (policy_registry to_lowercase env req res pkg version).

Lemma registry_decides name :
  match registry name with
  | Some g => decides g (blocked_by name)
  | None => forall t, ~ blocked_by name t
  end.
Proof.
  unfold policy_registry, blocked_by. destruct (String.eqb_spec name POLICY_VULNERABILITY) as [->|Hv].
  { split; [apply vuln_gate_reads|]. intros s. rewrite vuln_gate_spec. split; [intros ? [[_ ?]|[? _]]; done|tauto]. }
  destruct (String.eqb_spec name POLICY_LICENSE) as [->|Hl].
  { split; [apply license_gate_reads|]. intros s. rewrite license_gate_spec. split; [intros ? [[? _]|[_ ?]]; done|tauto]. }
  intros t [[? _]|[? _]]; done.
Qed.

(** The names before and after the age policy. *)
Fixpoint upto_age (order : list string) : list string :=
  match order with
  | [] => []
  | n :: order => if String.eqb n POLICY_AGE then [] else n :: upto_age order
  end.

Fixpoint from_age (order : list string) (seen : bool) : list string :=
  match order with
  | [] => []
  | n :: order =>
      if String.eqb n POLICY_AGE then from_age order true
      else if seen then n :: from_age order seen else from_age order seen
  end.

Lemma upto_from_age order n :
  n ∈ order /\ n <> POLICY_AGE <-> n ∈ upto_age order \/ n ∈ from_age order false.
Proof.
  assert (Ht : forall l, n ∈ from_age l true <-> n ∈ l /\ n <> POLICY_AGE).
  { induction l as [|m l IH]; cbn; [split; [|intros [? _]]; intros; by exfalso; eapply not_elem_of_nil|].
    destruct (String.eqb_spec m POLICY_AGE) as [->|Hm].
    - rewrite IH, elem_of_cons. split; [tauto|]. intros [[->|?] ?]; [done|tauto].
    - rewrite !elem_of_cons, IH. split; [|tauto]. intros [->|?]; tauto. }
  induction order as [|m order IH]; cbn.
  { split; [intros [H _]|intros [H|H]]; by apply not_elem_of_nil in H. }
  destruct (String.eqb_spec m POLICY_AGE) as [->|Hm].
  - rewrite Ht, elem_of_cons. split.
    + intros [[->|?] ?]; [done|tauto].
    + intros [H|?]; [by apply not_elem_of_nil in H|tauto].
  - rewrite !elem_of_cons. split.
    + intros [[->|?] ?]; [tauto|]. assert (n ∈ upto_age order \/ n ∈ from_age order false) by tauto. tauto.
    + intros [[->|?]|?]; [tauto|..]; destruct IH as [_ IH]; tauto.
Qed.

Lemma before_age_spec order s :
  (before_age to_lowercase env req res pkg version order s).1 = None <->
  forall n, n ∈ upto_age order -> ~ blocked_by n (tables s).
Proof.
  revert s. induction order as [|m order IH]; intros s; cbn [before_age upto_age].
  { split; [|done]. intros _ n H. by apply not_elem_of_nil in H. }
  destruct (String.eqb m POLICY_AGE).
  { split; [|done]. intros _ n H. by apply not_elem_of_nil in H. }
  pose proof (registry_decides m) as Hm. destruct (registry m) as [g|].
  - rewrite (and_then_spec _ _ _ _ Hm), IH, (decides_reads _ _ Hm s). split.
    + intros [H1 H2] n [->|Hn]%elem_of_cons; auto.
    + intros H. split; [apply H, list_elem_of_here|]. intros n Hn. by apply H, list_elem_of_further.
  - rewrite IH. split.
    + by intros H n [->|Hn]%elem_of_cons; auto.
    + intros H n Hn. by apply H, list_elem_of_further.
Qed.

Lemma before_age_reads order : reads (before_age to_lowercase env req res pkg version order).
Proof.
  induction order as [|m order IH]; cbn [before_age]; [auto with gates|]. destruct (String.eqb m POLICY_AGE); [auto with gates|].
  pose proof (registry_decides m) as Hm. destruct (registry m); [|done]. apply and_then_reads; [apply Hm|done].
Qed.

Lemma after_age_spec order seen last s :
  exists s', tables s' = tables s /\
  ((after_age to_lowercase env req res pkg version order seen last s).1 = None <->
   (forall n, n ∈ from_age order seen -> ~ blocked_by n (tables s)) /\ (last s').1 = None).
Proof.
  revert seen s. induction order as [|m order IH]; intros seen s; cbn [after_age from_age].
  { exists s. split; [done|]. split; [|tauto]. intros H. split; [|done]. intros n Hn. by apply not_elem_of_nil in Hn. }
  destruct (String.eqb m POLICY_AGE); [apply IH|]. destruct seen; cbn [negb]; [|apply IH].
  pose proof (registry_decides m) as Hm. destruct (registry m) as [g|].
  - destruct (IH true (g s).2) as (s' & Ht & Hs). rewrite (decides_reads _ _ Hm s) in Ht, Hs. exists s'. split; [done|].
    rewrite (and_then_spec _ _ _ _ Hm), Hs. split.
    + intros (H1 & H2 & H3). split; [|done]. by intros n [->|Hn]%elem_of_cons; auto.
    + intros [H H3]. split; [apply H, list_elem_of_here|]. split; [|done]. intros n Hn. by apply H, list_elem_of_further.
  - destruct (IH true s) as (s' & Ht & Hs). exists s'. split; [done|]. rewrite Hs. split.
    + intros [H1 H2]. split; [|done]. by intros n [->|Hn]%elem_of_cons; auto.
    + intros [H H3]. split; [|done]. intros n Hn. by apply H, list_elem_of_further.
Qed.

(** Everything a request meets besides the age policy. *)
Definition pipeline : gate :=
  and_then (policy_gates to_lowercase env req res pkg version)
    (final_policy_gate glob_match to_lowercase env req res pkg version).

Lemma version_deny_decides : decides (version_deny_gate env req res pkg version) deny_blocked.
Proof. split; [apply version_deny_gate_reads|apply version_deny_gate_spec]. Qed.

Lemma policy_gates_decides :
  decides (policy_gates to_lowercase env req res pkg version)
    (fun t => deny_blocked t \/ exists n, n ∈ upto_age (effective_order (policy_pipeline (cfg res))) /\ blocked_by n t).
Proof.
  unfold policy_gates. split; [apply and_then_reads; [apply version_deny_decides|apply before_age_reads]|].
  intros s. rewrite (and_then_spec _ _ _ _ version_deny_decides), before_age_spec, (decides_reads _ _ version_deny_decides s).
  split.
  - intros [H1 H2] [H|(n & Hn & H)]; [done|by apply (H2 n)].
  - intros H. split; [tauto|]. intros n Hn Hb. apply H. eauto.
Qed.

Lemma pipeline_spec s :
  effective_order (policy_pipeline (cfg res)) ≡ₚ DEFAULT_POLICY_ORDER ->
  effective_mode (approval (cfg res)) ∈ [MODE_ENFORCE; MODE_AUDIT] ->
  (pipeline s).1 = None <->
  ~ deny_blocked (tables s) /\ ~ vuln_blocked (tables s) /\ ~ license_blocked (tables s) /\ ~ approval_blocked (tables s).
Proof.
  intros Hperm Hmode. unfold pipeline. rewrite (and_then_spec _ _ _ _ policy_gates_decides). unfold final_policy_gate.
  destruct (after_age_spec (effective_order (policy_pipeline (cfg res))) false
    (approval_gate glob_match env req res pkg version) (policy_gates to_lowercase env req res pkg version s).2)
    as (s' & Ht & ->).
  rewrite (decides_reads _ _ policy_gates_decides s) in Ht. rewrite (decides_reads _ _ policy_gates_decides s).
  rewrite (approval_gate_spec s' Hmode), Ht.
  assert (Hin : forall n, n = POLICY_VULNERABILITY \/ n = POLICY_LICENSE ->
    n ∈ upto_age (effective_order (policy_pipeline (cfg res))) \/ n ∈ from_age (effective_order (policy_pipeline (cfg res))) false).
  { intros n Hn. apply upto_from_age. rewrite Hperm. destruct Hn as [->| ->]; (split; [|done]); apply (bool_decide_unpack _); by vm_compute. }
  split.
  - intros (H1 & H2 & H3).
    assert (Hno : forall n, n = POLICY_VULNERABILITY \/ n = POLICY_LICENSE -> ~ blocked_by n (tables s)).
    { intros n Hn Hb. destruct (Hin n Hn); [apply H1; eauto|by apply (H2 n)]. }
    split_and!; [tauto|..|done].
    + intros Hb. apply (Hno POLICY_VULNERABILITY); unfold blocked_by; auto.
    + intros Hb. apply (Hno POLICY_LICENSE); unfold blocked_by; auto.
  - intros (H1 & H2 & H3 & H4). assert (Hno : forall n, ~ blocked_by n (tables s)) by (intros n [[_ ?]|[_ ?]]; done).
    split_and!; [|by intros; apply Hno|done]. intros [?|(n & _ & Hb)]; [done|by apply (Hno n)].
Qed.
End Decisions.

(** ** Accepted configurations *)

Lemma validated_mode c : validate_config c = Some (Ok tt) -> effective_mode (approval c) ∈ [MODE_ENFORCE; MODE_AUDIT].
Proof.
  intros H. assert (Hw : check_word "approval mode" [MODE_ENFORCE; MODE_AUDIT] (mode (approval c)) = Ok tt).
  { unfold validate_config in H. destruct (check_word "approval mode" _ _) as [[]|e]; [done|]. exfalso. repeat (case_match; try discriminate). }
  unfold check_word in Hw. unfold effective_mode, or_default.
  destruct (str_is_empty (mode (approval c))); [apply list_elem_of_here|].
  cbn [orb] in Hw. by destruct (listed (mode (approval c)) [MODE_ENFORCE; MODE_AUDIT]) eqn:Hl; [apply listed_spec|].
Qed.

Lemma accepted_config c c' :
  parse_decoded c = Some (Ok c') ->
  effective_order (policy_pipeline c') ≡ₚ DEFAULT_POLICY_ORDER /\ effective_mode (approval c') ∈ [MODE_ENFORCE; MODE_AUDIT].
Proof.
  unfold parse_decoded. destruct (upgrade_pipeline _) as [p|] eqn:Hu; [|done].
  destruct (validate_config _) as [[[]|]|] eqn:Hv; [|done..]. intros [= <-].
  split; [|by apply validated_mode]. by apply pipeline_validate_order, validate_pipeline.
Qed.

(** ** What the documents promise *)

(** An advisory of a coordinate: the name it is known by, its other ids, its
    severity. *)
Record Known := mkKnown { k_name : string; k_other : list string; k_severity : Severity }.

(** The ignore list has one of its ids. *)
Definition is_accepted (ignore : list string) (a : Known) : Prop :=
  exists id, id ∈ k_name a :: k_other a /\ id ∈ ignore.

Section Documented.
Context (glob_match : string -> string -> bool).
Context (env : GateEnv) (res : Resolved) (pkg version : string).
(** The advisories that the scans found, by coordinate. *)
Context (known : string * string * string -> list Known).

Abbreviation key := (osv_ecosystem (repo_format (repo res)), pkg, version).

(** The scans in the tables are those of these advisories. *)
Definition scans_of (t : Tables) : Prop :=
  forall k scan, vuln_scans t !! k = Some scan ->
    vuln_ids scan = k_name <$> known k /\
    max_severity scan = severity_str (foldl worse SeverityNone (k_severity <$> known k)).

(** An advisory that is not accepted and reaches the threshold. *)
Definition open_advisory (a : Known) : Prop :=
  a ∈ known key /\ ~ is_accepted (ignore (vuln (cfg res))) a /\
  severity_rank (parse_severity (effective_threshold (vuln (cfg res)))) <= severity_rank (k_severity a).

(** docs/security-policies.md: an open advisory under a policy that blocks, or
    no scan where that is not tolerated. *)
Definition vuln_refused (t : Tables) : Prop :=
  let c := vuln (cfg res) in
  has_scanner env = true /\ vuln_enabled c = true /\ has_coordinate pkg version /\ key.1.1 <> EmptyString /\
  fails env VulnLookup = false /\
  match vuln_scans t !! key with
  | None => vuln_effective_action c = VULN_ACTION_BLOCK /\ block_unscanned c = true
  | Some _ => (exists a, open_advisory a) /\ ~ serving_action (vuln_effective_action c)
  end.

Definition rejected (t : Tables) : Prop :=
  exists a, approvals t !! approval_key res pkg = Some a /\ a_status a = APPROVAL_REJECTED.

(** A scan without advisories, where the repository admits clean packages. *)
Definition clean_admitted (t : Tables) : Prop :=
  auto_approve_clean (approval (cfg res)) = true /\ has_scanner env = true /\ key.1.1 <> EmptyString /\
  fails env CleanLookup = false /\ fails env DecisionUpsert = false /\
  is_Some (vuln_scans t !! key) /\ known key = [].

(** Nobody has approved the package, and somebody has rejected it or no clean
    scan admits it; or that is not known. *)
Definition approval_refused (t : Tables) : Prop :=
  approval_enabled (approval (cfg res)) = true /\ pkg <> EmptyString /\ approval_bypassed glob_match res pkg = false /\
  effective_mode (approval (cfg res)) <> MODE_AUDIT /\
  (fails env ApprovalLookup = true \/
   ~ approved res pkg t /\ (rejected t \/ ~ clean_admitted t)).

(** Where the code follows the documents: an advisory accepted under any id is
    accepted under its name, the worst advisories are not all accepted while
    others are open, every advisory has a severity, and a package somebody
    rejected has no scan that admits it. *)
Record as_documented (t : Tables) : Prop := {
  doc_scans : scans_of t;
  doc_names : forall a, a ∈ known key -> is_accepted (ignore (vuln (cfg res))) a ->
    k_name a ∈ ignore (vuln (cfg res));
  doc_worst : forall a, a ∈ known key -> ~ is_accepted (ignore (vuln (cfg res))) a ->
    exists b, b ∈ known key /\ ~ is_accepted (ignore (vuln (cfg res))) b /\
      forall x, x ∈ known key -> severity_rank (k_severity x) <= severity_rank (k_severity b);
  doc_severity : forall k a, a ∈ known k -> k_severity a <> SeverityNone;
  doc_rejected : rejected t -> auto_approve_clean (approval (cfg res)) = false;
}.

Lemma worst_known k scan t :
  scans_of t -> vuln_scans t !! k = Some scan ->
  (forall a, a ∈ known k -> severity_rank (k_severity a) <= severity_rank (parse_severity (max_severity scan))) /\
  (parse_severity (max_severity scan) = SeverityNone \/
   exists a, a ∈ known k /\ k_severity a = parse_severity (max_severity scan)).
Proof.
  intros Hs Hk. destruct (Hs _ _ Hk) as [_ ->]. rewrite parse_severity_str.
  destruct (worst_spec SeverityNone (k_severity <$> known k)) as (_ & Hle & Hin). split.
  - intros a Ha. by apply Hle, list_elem_of_fmap_2.
  - destruct Hin as [?|(a & -> & Ha)%list_elem_of_fmap]; [by left|right; eauto].
Qed.

(** An open advisory is seen by the gate. *)
Lemma refused_blocked t : scans_of t -> vuln_refused t -> vuln_blocked env res pkg version t.
Proof.
  intros Hs (H1 & H2 & H3 & H4 & H5 & H6). split_and!; try done.
  destruct (vuln_scans t !! key) as [scan|] eqn:Hrow; [|done].
  destruct H6 as [(a & Ha & Hno & Hth) Hact]. destruct (worst_known _ _ _ Hs Hrow) as [Hle _].
  split_and!; [|etrans; [exact Hth|by apply Hle]|done].
  exists (k_name a). rewrite (proj1 (Hs _ _ Hrow)). split; [by apply list_elem_of_fmap_2|].
  intros Hin. apply Hno. exists (k_name a). split; [by left|done].
Qed.

Lemma blocked_refused t : as_documented t -> vuln_blocked env res pkg version t -> vuln_refused t.
Proof.
  intros [Hs Hn Hw _ _] (H1 & H2 & H3 & H4 & H5 & H6). split_and!; try done.
  destruct (vuln_scans t !! key) as [scan|] eqn:Hrow; [|done].
  destruct H6 as ((id & Hid & Hno) & Hth & Hact). split; [|done].
  rewrite (proj1 (Hs _ _ Hrow)) in Hid. apply list_elem_of_fmap in Hid as (a & -> & Ha).
  destruct (Hw a Ha) as (b & Hb & Hbno & Hbmax); [intros Hacc; by apply Hno, Hn|].
  exists b. split_and!; [done|done|]. etrans; [exact Hth|].
  destruct (worst_known _ _ _ Hs Hrow) as [_ [-> |(x & Hx & <-)]]; [by destruct (k_severity b)|by apply Hbmax].
Qed.

(** A scan admits where no advisory was found. *)
Lemma clean_admitted_spec t :
  scans_of t -> (forall k a, a ∈ known k -> k_severity a <> SeverityNone) ->
  clean_admitted t <-> auto_approved env res pkg version t.
Proof.
  intros Hs Hsev. unfold clean_admitted, auto_approved, clean_scan. split.
  - intros (H1 & H2 & H3 & H4 & H5 & [scan Hrow] & Hnil). split_and!; try done.
    exists scan. split; [done|]. rewrite (proj2 (Hs _ _ Hrow)), Hnil. reflexivity.
  - intros (H1 & H2 & H3 & H4 & H5 & scan & Hrow & Hnone). split_and!; try done; try by eexists.
    destruct (known key) as [|a l] eqn:Hk; [done|]. exfalso.
    destruct (worst_known _ _ _ Hs Hrow) as [Hle _]. rewrite Hnone, Hk in Hle.
    specialize (Hle a (list_elem_of_here _ _)). apply (Hsev key a); [rewrite Hk; by left|].
    by destruct (k_severity a).
Qed.

Lemma approval_refused_spec t :
  scans_of t -> (forall k a, a ∈ known k -> k_severity a <> SeverityNone) ->
  (rejected t -> auto_approve_clean (approval (cfg res)) = false) ->
  approval_refused t <-> approval_blocked glob_match env res pkg version t.
Proof.
  intros Hs Hsev Hrej. pose proof (clean_admitted_spec t Hs Hsev) as Hc.
  assert (Hr : rejected t -> ~ auto_approved env res pkg version t).
  { intros Hr [Hyes _]. rewrite (Hrej Hr) in Hyes. done. }
  unfold approval_refused, approval_blocked. tauto.
Qed.
End Documented.


(** ** Changes of approvals *)

(** A row before and after a request that decided nothing: the decision is the
    one there was; a new row is the one of the requested package, and pending. *)
Definition undecided (requested key : string * string) (old new : option PackageApproval) : Prop :=
  match old, new with
  | Some a, Some a' => a_status a' = a_status a /\ decided_by a' = decided_by a /\ note a' = note a
  | None, Some a' =>
      key = requested /\ a_status a' = APPROVAL_PENDING /\ decided_by a' = EmptyString /\ note a' = EmptyString
  | Some _, None => False
  | None, None => True
  end.

(** Approvals that only gain a pending row of the requested package or a count. *)
Definition same_decisions (requested : string * string) (t t' : Tables) : Prop :=
  forall key, undecided requested key (approvals t !! key) (approvals t' !! key).

Lemma same_decisions_refl requested t t' : approvals t' = approvals t -> same_decisions requested t t'.
Proof. intros Heq key. unfold undecided. rewrite Heq. by destruct (approvals t !! key). Qed.

Lemma upsert_pending_decisions key username version t :
  same_decisions key t (upsert_pending key username version t).2.
Proof.
  intros k. unfold undecided, upsert_pending, pending_upsert. destruct (approvals t !! key) as [a|] eqn:Ha.
  - destruct (String.eqb (a_status a) APPROVAL_APPROVED); cbn; destruct (decide (k = key)) as [->|Hk];
      rewrite ?lookup_insert_eq, ?lookup_insert_ne, ?Ha by done; try done; by destruct (approvals t !! k).
  - cbn. destruct (decide (k = key)) as [->|Hk]; rewrite ?lookup_insert_eq, ?lookup_insert_ne, ?Ha by done; [done|].
    by destruct (approvals t !! k).
Qed.

Lemma request_approval_decisions env req res pkg version s :
  same_decisions (approval_key res pkg) (tables s) (tables (request_approval env req res pkg version s).2).
Proof.
  unfold request_approval. unfold bind at 1. pose proof (reads_take_mark env (approval_mark res pkg) s) as H1.
  destruct (take_mark _ _ s) as [[] s1]; cbn [snd] in H1; [|by apply same_decisions_refl; cbn; rewrite H1].
  cbn [negb]. unfold bind at 1. pose proof (reads_enqueue_scan env (osv_ecosystem (repo_format (repo res))) pkg version s1) as H2.
  destruct (enqueue_scan _ _ _ _ s1) as [[] s2]; cbn [snd] in H2. rewrite H1 in H2. clear H1 s1.
  destruct (String.eqb _ MODE_AUDIT); [apply same_decisions_refl; by rewrite reads_record, H2|].
  destruct (fails env PendingUpsert); [apply same_decisions_refl; cbn; by rewrite H2|].
  rewrite bind_get, H2. clear H2.
  pose proof (upsert_pending_decisions (approval_key res pkg) (user req) version (tables s)) as Hu.
  destruct (upsert_pending _ _ _ _) as [created t]; cbn [snd] in Hu.
  assert (Hput : forall m : M unit, reads m -> same_decisions (approval_key res pkg) (tables s) (tables (bind (put_tables t) (fun _ => m) s2).2)).
  { intros m Hm. unfold bind. cbn. by rewrite Hm. }
  apply (Hput (if negb created then ret tt else _)). destruct (negb created); [auto with gates|].
  apply reads_bind; [auto with gates|]. intros _. destruct (has_alarm env); auto with gates.
Qed.

(** The row the automatic approval leaves. *)
Definition admitted_row (old : option PackageApproval) : PackageApproval :=
  decision_upsert APPROVAL_APPROVED AUTO_APPROVE_ACTOR AUTO_APPROVE_NOTE old.

Lemma auto_approve_tables env res pkg version s :
  let '(admitted, s') := auto_approve_if_clean env res pkg version s in
  if admitted : bool
  then tables s' = with_approvals (tables s)
         (<[approval_key res pkg := admitted_row (approvals (tables s) !! approval_key res pkg)]> (approvals (tables s)))
  else tables s' = tables s.
Proof.
  unfold auto_approve_if_clean. destruct (negb _); [done|]. cbn zeta. destruct (str_is_empty _); [done|].
  rewrite bind_get. destruct (found _ _) as [scan|]; [|done]. destruct (parse_severity _); try done.
  destruct (fails env DecisionUpsert); [done|]. unfold bind. cbn [put_tables].
  set (s1 := mkManager _ _ _ _ _). pose proof (reads_record env (repo_name (repo res)) EVENT_APPROVAL_APPROVE pkg AUTO_APPROVE_ACTOR s1) as H.
  destruct (record _ _ _ _ _ s1) as [[] s2]. cbn in H |- *. exact H.
Qed.

Lemma approval_gate_tables glob_match env req res pkg version s :
  let s' := (approval_gate glob_match env req res pkg version s).2 in
  same_decisions (approval_key res pkg) (tables s) (tables s') \/
  auto_approved env res pkg version (tables s) /\ ~ approved res pkg (tables s) /\
  tables s' = with_approvals (tables s)
    (<[approval_key res pkg := admitted_row (approvals (tables s) !! approval_key res pkg)]> (approvals (tables s))).
Proof.
  cbn zeta. unfold approval_gate. repeat (case_match; [by left; apply same_decisions_refl|]).
  rewrite bind_get.
  match goal with |- context [bind ?m ?f] => set (tail := bind m f) end.
  assert (Htail : ~ approved res pkg (tables s) -> same_decisions (approval_key res pkg) (tables s) (tables (tail s).2) \/
    auto_approved env res pkg version (tables s) /\ ~ approved res pkg (tables s) /\
    tables (tail s).2 = with_approvals (tables s)
      (<[approval_key res pkg := admitted_row (approvals (tables s) !! approval_key res pkg)]> (approvals (tables s)))).
  { intros Hna. unfold tail, auto_approved.
    assert (Hreq : forall s1 : Manager, tables s1 = tables s -> forall g : gate, reads g ->
      same_decisions (approval_key res pkg) (tables s) (tables (bind (request_approval env req res pkg version) (fun _ => g) s1).2)).
    { intros s1 Hs1 g Hg. pose proof (request_approval_decisions env req res pkg version s1) as Hr. rewrite Hs1 in Hr.
      unfold bind. destruct (request_approval env req res pkg version s1) as [[] s2]. by rewrite Hg. }
    assert (Hend : reads (if String.eqb (effective_mode (approval (cfg res))) MODE_AUDIT then ret None
      else ret (Some (http_error 403 ("package pending approval: " +:+ pkg))))) by (case_match; apply reads_ret).
    destruct (auto_approve_clean _); [|left; exact (Hreq s eq_refl _ Hend)].
    pose proof (auto_approve_spec env res pkg version s) as Hspec. pose proof (auto_approve_tables env res pkg version s) as Ht.
    unfold bind at 1 3. destruct (auto_approve_if_clean env res pkg version s) as [[] s1]; cbn [fst] in Hspec.
    - right. destruct Hspec as [Hspec _]. split; [split; [done|by apply Hspec]|]. by split.
    - left. exact (Hreq s1 Ht _ Hend). }
  destruct (found _ _) as [st|[]] eqn:Hf; [..|by left; apply same_decisions_refl; case_match].
  - destruct (String.eqb st APPROVAL_APPROVED) eqn:Hst; [by left; apply same_decisions_refl|].
    apply Htail. intros (a & Ha & Hap). rewrite Ha in Hf. cbn in Hf. destruct (fails env ApprovalLookup); [done|].
    cbn in Hf. simplify_eq. rewrite Hap in Hst. done.
  - apply Htail. intros (a & Ha & _). rewrite Ha in Hf. cbn in Hf. by destruct (fails env ApprovalLookup).
Qed.

Lemma registry_reads to_lowercase env req res pkg version name :
  match policy_registry to_lowercase env req res pkg version name with Some g => reads g | None => True end.
Proof.
  unfold policy_registry. destruct (String.eqb _ _); [apply vuln_gate_reads|].
  destruct (String.eqb _ _); [apply license_gate_reads|done].
Qed.

Lemma policy_gates_reads to_lowercase env req res pkg version : reads (policy_gates to_lowercase env req res pkg version).
Proof.
  unfold policy_gates. apply and_then_reads; [apply version_deny_gate_reads|].
  induction (effective_order _) as [|n order IH]; cbn [before_age]; [apply reads_ret|].
  destruct (String.eqb n POLICY_AGE); [apply reads_ret|].
  pose proof (registry_reads to_lowercase env req res pkg version n) as Hn.
  destruct (policy_registry _ _ _ _ _ _ n); [by apply and_then_reads|done].
Qed.

(** The gates after the age policy end with the last one or before it. *)
Lemma after_age_tables to_lowercase env req res pkg version order seen last s :
  exists s', tables s' = tables s /\
    (tables (after_age to_lowercase env req res pkg version order seen last s).2 = tables s \/
     tables (after_age to_lowercase env req res pkg version order seen last s).2 = tables (last s').2).
Proof.
  revert seen s. induction order as [|n order IH]; intros seen s; cbn [after_age]; [exists s; auto|].
  destruct (String.eqb n POLICY_AGE); [apply IH|]. destruct seen; cbn [negb]; [|apply IH].
  pose proof (registry_reads to_lowercase env req res pkg version n) as Hn.
  destruct (policy_registry _ _ _ _ _ _ n) as [g|]; [|apply IH].
  unfold and_then, bind. specialize (Hn s). destruct (g s) as [[r|] s1]; cbn [snd] in Hn; [exists s; auto|].
  destruct (IH true s1) as (s' & Ht & H). rewrite Hn in Ht, H. by exists s'.
Qed.

Lemma pipeline_tables glob_match to_lowercase env req res pkg version s :
  let t := tables s in
  let t' := tables (pipeline glob_match to_lowercase env req res pkg version s).2 in
  same_decisions (approval_key res pkg) t t' \/
  auto_approved env res pkg version t /\ ~ approved res pkg t /\
  t' = with_approvals t (<[approval_key res pkg := admitted_row (approvals t !! approval_key res pkg)]> (approvals t)).
Proof.
  cbn zeta. unfold pipeline, and_then, bind. pose proof (policy_gates_reads to_lowercase env req res pkg version s) as H1.
  destruct (policy_gates _ _ _ _ _ _ s) as [[r|] s1]; cbn [snd] in H1; [left; apply same_decisions_refl; cbn; by rewrite H1|].
  unfold final_policy_gate. rewrite <- H1.
  destruct (after_age_tables to_lowercase env req res pkg version (effective_order (policy_pipeline (cfg res))) false
    (approval_gate glob_match env req res pkg version) s1) as (s2 & Ht & [->| ->]); [by left; apply same_decisions_refl|].
  rewrite <- Ht. apply approval_gate_tables.
Qed.

(** C23: A request never takes an approval back and never decides about a package by
    itself, with one exception.  Of every package it keeps the status, who decided
    and why; a new row it adds only for the requested package, pending and without a
    decision.  The exception: where the repository admits clean packages and the
    requested package is not approved, a scan of the requested version without
    severity approves that package, in the name of the automatic approval. *)
Theorem request_decides_nothing glob_match to_lowercase env req res pkg version s key :
  let t := tables s in
  let t' := tables (pipeline glob_match to_lowercase env req res pkg version s).2 in
  undecided (approval_key res pkg) key (approvals t !! key) (approvals t' !! key) \/
  key = approval_key res pkg /\ auto_approved env res pkg version t /\ ~ approved res pkg t /\
  approvals t' !! key = Some (admitted_row (approvals t !! key)).
Proof.
  cbn zeta. destruct (pipeline_tables glob_match to_lowercase env req res pkg version s) as [Hsame|(Hauto & Hna & ->)];
    [left; apply Hsame|].
  destruct (decide (key = approval_key res pkg)) as [->|Hk]; [right|left];
    unfold with_approvals; cbn [approvals]; [by rewrite lookup_insert_eq|].
  rewrite lookup_insert_ne by done. by destruct (approvals (tables s) !! key).
Qed.

(** ** How often a package is reported *)

Definition is_request (e : Effect) : bool :=
  match e with Audited _ _ action _ _ => String.eqb action EVENT_APPROVAL_REQUEST | _ => false end.

(** The requests of one package are more than the life of a mark apart. *)
Definition requests_spaced (es : list Effect) : Prop :=
  forall i j a b r p u v, (i < j)%nat ->
    es !! i = Some (Audited a r EVENT_APPROVAL_REQUEST p u) -> es !! j = Some (Audited b r EVENT_APPROVAL_REQUEST p v) ->
    a + PENDING_MARK_TTL < b.

(** A request that was reported is marked, or its mark is past. *)
Definition marked (now : Z) (marks : NegCache) (es : list Effect) : Prop :=
  forall a r p u, Audited a r EVENT_APPROVAL_REQUEST p u ∈ es ->
    a <= now /\ (a + PENDING_MARK_TTL < now \/
      exists exp, marks !! (r +:+ nul +:+ p) = Some exp /\ a + PENDING_MARK_TTL <= exp).

Definition reported (now : Z) (s : Manager) : Prop := requests_spaced (effects s) /\ marked now (req_marks s) (effects s).

Definition keeps (P : Manager -> Prop) {A} (m : M A) : Prop := forall s, P s -> P (m s).2.

Lemma report_ret P {A} (x : A) : keeps P (ret x).
Proof. by intros s. Qed.

Lemma report_bind P {A B} (m : M A) (f : A -> M B) : keeps P m -> (forall x, keeps P (f x)) -> keeps P (bind m f).
Proof. intros Hm Hf s Hs. unfold bind. specialize (Hm s Hs). destruct (m s) as [x s']. by apply Hf. Qed.

#[export] Hint Resolve report_ret report_bind : gates.

Lemma spaced_append es e : is_request e = false -> requests_spaced es -> requests_spaced (es ++ [e]).
Proof.
  intros He Hs i j a b r p u v Hij Hi Hj. assert (Hlt : (j < length es)%nat).
  { apply lookup_lt_Some in Hj as Hlt. rewrite length_app in Hlt. cbn in Hlt.
    destruct (decide (j = length es)) as [->|]; [|lia]. rewrite lookup_app_r, Nat.sub_diag in Hj by lia. injection Hj as ->.
    done. }
  rewrite lookup_app_l in Hi, Hj by lia. eauto.
Qed.

Lemma marked_quiet now marks es e : is_request e = false -> marked now marks es -> marked now marks (es ++ [e]).
Proof.
  intros He Hm a r p u [Hin|Hin%list_elem_of_singleton]%elem_of_app; [eauto|]. by rewrite <- Hin in He.
Qed.

Lemma keeps_effect now e : is_request e = false -> keeps (reported now) (effect e).
Proof. intros He s [H1 H2]. split; [by apply spaced_append|by apply marked_quiet]. Qed.

(** Taking a mark never shortens one; a mark that was free is taken for its life. *)
Lemma take_mark_marks env mark s :
  let '(free, s') := take_mark env mark s in
  effects s' = effects s /\ tables s' = tables s /\
  (forall k e, req_marks s !! k = Some e -> exists e', req_marks s' !! k = Some e' /\ e <= e') /\
  (free = true -> req_marks s' !! mark = Some (now env + PENDING_MARK_TTL) /\
    forall e, req_marks s !! mark = Some e -> e < now env).
Proof.
  unfold take_mark, bind, with_marks, neg_has, neg_set. change (PENDING_MARK_TTL =? 0) with false.
  destruct (req_marks s !! mark) as [exp|] eqn:Hm; [destruct (Z.ltb_spec exp (now env))|]; cbn.
  - split_and!; [done..| |].
    + intros k e Hk. destruct (decide (k = mark)) as [->|Hne].
      * rewrite lookup_insert_eq. eexists. split; [done|]. rewrite Hm in Hk. injection Hk as <-. unfold PENDING_MARK_TTL. lia.
      * rewrite lookup_insert_ne, lookup_delete_ne by done. eauto with lia.
    + intros _. rewrite lookup_insert_eq. split; [done|]. intros e. by intros [= <-].
  - split_and!; [done..| |done]. intros k e Hk. exists e. split; [done|lia].
  - split_and!; [done..| |].
    + intros k e Hk. destruct (decide (k = mark)) as [->|Hne]; [congruence|]. rewrite lookup_insert_ne by done. exists e. split; [done|lia].
    + intros _. rewrite lookup_insert_eq. by split.
Qed.

Lemma marked_later now marks marks' es :
  (forall k e, marks !! k = Some e -> exists e', marks' !! k = Some e' /\ e <= e') -> marked now marks es -> marked now marks' es.
Proof.
  intros Hle Hm a r p u Hin. destruct (Hm a r p u Hin) as [Ha [H|(exp & Hexp & He)]]; split; auto.
  right. destruct (Hle _ _ Hexp) as (e' & ? & ?). exists e'. split; [done|lia].
Qed.

Lemma keeps_take_mark env mark : keeps (reported (now env)) (take_mark env mark).
Proof.
  intros s [H1 H2]. pose proof (take_mark_marks env mark s) as H. destruct (take_mark env mark s) as [free s'].
  destruct H as (He & _ & Hle & _). cbn. unfold reported. rewrite He. split; [done|]. by eapply marked_later.
Qed.

Lemma keeps_enqueue_scan env eco pkg version : keeps (reported (now env)) (enqueue_scan env eco pkg version).
Proof.
  unfold enqueue_scan. destruct (_ || _); [auto with gates|]. apply report_bind; [apply keeps_take_mark|].
  by intros [] s.
Qed.

Lemma keeps_enqueue_resolve env system pkg version : keeps (reported (now env)) (enqueue_resolve env system pkg version).
Proof.
  unfold enqueue_resolve. destruct (_ || _); [auto with gates|]. apply report_bind; [apply keeps_take_mark|].
  by intros [] s.
Qed.

Lemma keeps_record env n r action p u :
  String.eqb action EVENT_APPROVAL_REQUEST = false -> keeps (reported n) (record env r action p u).
Proof. intros Ha. unfold record. destruct (has_recorder env); [by apply keeps_effect|apply report_ret]. Qed.

Lemma keeps_get n : keeps (reported n) get_tables.
Proof. by intros s. Qed.

Lemma keeps_put n t : keeps (reported n) (put_tables t).
Proof. by intros s. Qed.

#[export] Hint Resolve keeps_effect keeps_take_mark keeps_enqueue_scan keeps_enqueue_resolve keeps_record keeps_get keeps_put : gates.

(** Goes through the tests and calls of a gate. *)
Ltac keep_steps :=
  repeat first
    [ apply report_ret
    | apply report_bind; [solve [auto with gates]|intros ?]
    | progress cbn zeta
    | match goal with |- keeps _ (if ?b then _ else _) => destruct b end
    | match goal with |- keeps _ (match ?x with _ => _ end) => destruct x end
    | solve [auto with gates] ].

Section Reports.
Context (glob_match : string -> string -> bool) (to_lowercase : string -> string).
Context (env : GateEnv) (req : Request) (res : Resolved) (pkg version : string).
Abbreviation kept := (keeps (reported (now env))).

Lemma version_deny_kept : kept (version_deny_gate env req res pkg version).
Proof. unfold version_deny_gate. keep_steps. apply report_bind; [|intros; keep_steps]. keep_steps. Qed.

Lemma vuln_kept : kept (vuln_gate env req res pkg version).
Proof. unfold vuln_gate. keep_steps. Qed.

Lemma license_kept : kept (license_gate to_lowercase env req res pkg version).
Proof. unfold license_gate. keep_steps. Qed.

Lemma auto_approve_kept : kept (auto_approve_if_clean env res pkg version).
Proof. unfold auto_approve_if_clean. keep_steps. Qed.

(** A report right after its mark was free. *)
Lemma report_after_mark s u :
  reported (now env) s ->
  (forall a v, Audited a (repo_name (repo res)) EVENT_APPROVAL_REQUEST pkg v ∈ effects s -> a + PENDING_MARK_TTL < now env) ->
  (exists e, req_marks s !! approval_mark res pkg = Some e /\ now env + PENDING_MARK_TTL <= e) ->
  reported (now env) (record env (repo_name (repo res)) EVENT_APPROVAL_REQUEST pkg u s).2.
Proof.
  intros [Hs Hm] Hfree Hmark. unfold record. destruct (has_recorder env); [|by split]. split; cbn.
  - intros i j a b r p v w Hij Hi Hj. pose proof (lookup_lt_Some _ _ _ Hj) as Hlt. rewrite length_app in Hlt. cbn in Hlt.
    rewrite lookup_app_l in Hi by lia. destruct (decide (j = length (effects s))) as [->|Hne].
    + rewrite lookup_app_r, Nat.sub_diag in Hj by lia. injection Hj as <- <- <- <-. eapply Hfree, list_elem_of_lookup_2, Hi.
    + rewrite lookup_app_l in Hj by lia. eauto.
  - intros a r p v [Hin|Hin%list_elem_of_singleton]%elem_of_app; [eauto|]. injection Hin as -> -> -> ->. split; [lia|].
    by right.
Qed.

Lemma request_approval_kept : kept (request_approval env req res pkg version).
Proof.
  intros s Hs. unfold request_approval. unfold bind at 1. pose proof (keeps_take_mark env (approval_mark res pkg) s Hs) as H1.
  pose proof (take_mark_marks env (approval_mark res pkg) s) as Hmk.
  destruct (take_mark _ _ s) as [[] s1]; cbn [snd] in H1; [|done]. destruct Hmk as (He & _ & _ & Hfree).
  destruct (Hfree eq_refl) as [Hset Hold]. clear Hfree.
  assert (Hpast : forall a v, Audited a (repo_name (repo res)) EVENT_APPROVAL_REQUEST pkg v ∈ effects s -> a + PENDING_MARK_TTL < now env).
  { intros a v Hin. destruct Hs as [_ Hm]. destruct (Hm _ _ _ _ Hin) as [_ [?|(exp & Hexp & Hle)]]; [done|].
    specialize (Hold exp Hexp). lia. }
  rewrite <- He in Hpast. clear Hold He Hs s. cbn [negb]. unfold bind at 1.
  set (eco := osv_ecosystem _). pose proof (keeps_enqueue_scan env eco pkg version s1 H1) as H2.
  assert (Hscan : let s2 := (enqueue_scan env eco pkg version s1).2 in effects s2 = effects s1 /\
    exists e, req_marks s2 !! approval_mark res pkg = Some e /\ now env + PENDING_MARK_TTL <= e).
  { unfold enqueue_scan. destruct (_ || _); [cbn; eauto with lia|]. unfold bind.
    pose proof (take_mark_marks env (scan_mark eco pkg version) s1) as Hmk.
    destruct (take_mark _ _ s1) as [free s2]. destruct Hmk as (He & _ & Hle & _). destruct (Hle _ _ Hset) as (e' & ? & ?).
    destruct free; cbn; eauto. }
  destruct (enqueue_scan _ _ _ _ s1) as [[] s2]; cbn [snd] in H2, Hscan. destruct Hscan as [He Hmark]. rewrite <- He in Hpast.
  destruct (String.eqb _ MODE_AUDIT); [by apply report_after_mark|]. destruct (fails env PendingUpsert); [done|].
  rewrite bind_get. destruct (upsert_pending _ _ _ _) as [created t]. unfold bind at 1. cbn [put_tables].
  destruct (negb created); [done|]. unfold bind.
  set (s3 := mkManager _ _ _ _ _).
  assert (H3 : reported (now env) (record env (repo_name (repo res)) EVENT_APPROVAL_REQUEST pkg (user req) s3).2)
    by (apply report_after_mark; done).
  destruct (record _ _ _ _ _ s3) as [[] s4]. destruct (has_alarm env); [by apply keeps_effect|done].
Qed.

Hint Resolve version_deny_kept vuln_kept license_kept auto_approve_kept request_approval_kept : gates.

Lemma approval_kept : kept (approval_gate glob_match env req res pkg version).
Proof. unfold approval_gate. keep_steps. all: apply report_bind; [keep_steps|intros []; keep_steps]. Qed.

Lemma and_then_kept g rest : kept g -> kept rest -> kept (and_then g rest).
Proof. intros Hg Hr. unfold and_then. apply report_bind; [done|]. intros []; auto with gates. Qed.

Lemma registry_kept name :
  match policy_registry to_lowercase env req res pkg version name with Some g => kept g | None => True end.
Proof.
  unfold policy_registry. destruct (String.eqb _ _); [apply vuln_kept|]. by destruct (String.eqb _ _); [apply license_kept|].
Qed.

Lemma policy_gates_kept : kept (policy_gates to_lowercase env req res pkg version).
Proof.
  unfold policy_gates. apply and_then_kept; [apply version_deny_kept|].
  induction (effective_order _) as [|n order IH]; cbn [before_age]; [apply report_ret|].
  destruct (String.eqb n POLICY_AGE); [apply report_ret|].
  pose proof (registry_kept n) as Hn. destruct (policy_registry _ _ _ _ _ _ n); [by apply and_then_kept|done].
Qed.

Lemma final_policy_kept : kept (final_policy_gate glob_match to_lowercase env req res pkg version).
Proof.
  unfold final_policy_gate. generalize false. induction (effective_order _) as [|n order IH]; intros seen; cbn [after_age];
    [apply approval_kept|].
  destruct (String.eqb n POLICY_AGE); [apply IH|]. destruct seen; cbn [negb]; [|apply IH].
  pose proof (registry_kept n) as Hn. destruct (policy_registry _ _ _ _ _ _ n); [by apply and_then_kept|apply IH].
Qed.
End Reports.

(** ** Runs of requests *)

(** One request: its environment, itself, its repository, its coordinate, and
    whether the age policy lets it reach the gates after it. *)
Record Visit := mkVisit {
  v_env : GateEnv;
  v_req : Request;
  v_res : Resolved;
  v_pkg : string;
  v_version : string;
  v_age_allows : bool;
}.

Definition visit glob_match to_lowercase (v : Visit) : gate :=
  and_then (policy_gates to_lowercase (v_env v) (v_req v) (v_res v) (v_pkg v) (v_version v))
    (if v_age_allows v
     then final_policy_gate glob_match to_lowercase (v_env v) (v_req v) (v_res v) (v_pkg v) (v_version v)
     else ret None).

Definition visits glob_match to_lowercase (vs : list Visit) (s : Manager) : Manager :=
  foldl (fun s v => (visit glob_match to_lowercase v s).2) s vs.

Definition fresh_manager (t : Tables) : Manager := mkManager t ∅ [] [] [].

Lemma reported_later n n' s : n <= n' -> reported n s -> reported n' s.
Proof.
  intros Hn [Hs Hm]. split; [done|]. intros a r p u Hin. destruct (Hm a r p u Hin) as [Ha [H|H]]; split; auto; lia.
Qed.

Lemma visits_reported glob_match to_lowercase vs n s :
  reported n s -> Sorted Z.le (n :: ((fun v => now (v_env v)) <$> vs)) ->
  requests_spaced (effects (visits glob_match to_lowercase vs s)).
Proof.
  revert n s. induction vs as [|v vs IH]; intros n s Hs Hsort; [apply Hs|]. cbn in Hsort |- *.
  apply Sorted_inv in Hsort as [Hsort Hle]. apply HdRel_inv in Hle. eapply IH; [|done].
  apply (reported_later _ _ _ Hle) in Hs. revert s Hs. fold (keeps (reported (now (v_env v))) (visit glob_match to_lowercase v)).
  apply and_then_kept; [apply policy_gates_kept|]. destruct (v_age_allows v); [apply final_policy_kept|apply report_ret].
Qed.

(** C16: However requests come, for whatever packages and configurations, as long as
    the clock does not run backwards: the gates report a request for approval of one
    package of a repository at most once per minute. *)
Theorem approval_requests_spaced glob_match to_lowercase vs t :
  Sorted Z.le ((fun v => now (v_env v)) <$> vs) ->
  requests_spaced (effects (visits glob_match to_lowercase vs (fresh_manager t))).
Proof.
  intros Hsort. destruct vs as [|v vs]; [by intros i j a b r p u w _ Hi|].
  apply (visits_reported _ _ _ (now (v_env v))).
  - split; [by intros i j a b r p u w _ Hi|]. intros a r p u Hin. by apply not_elem_of_nil in Hin.
  - cbn in Hsort |- *. constructor; [done|]. constructor. lia.
Qed.

(** ** A repository *)

Definition demo_approval : ApprovalConfig := mkApproval true MODE_ENFORCE ["@company/*"] true.

Definition demo_config : Config :=
  mkConfig (cache default_config) (age_policy default_config) demo_approval 0
    (mkVulnPolicy true SEVERITY_HIGH VULN_ACTION_BLOCK [] false) (mkLicensePolicy true VULN_ACTION_BLOCK ["GPL-3.0"] [] false)
    (mkPipeline 1 [POLICY_AGE; POLICY_LICENSE; POLICY_VERSION_DENY; POLICY_VULNERABILITY]) ["security"] default_upstream_auth.

Definition demo_accepted : Config :=
  with_pipeline demo_config (mkPipeline POLICY_PIPELINE_SCHEMA_VERSION [POLICY_AGE; POLICY_LICENSE; POLICY_VULNERABILITY]).

Definition demo_repo : Resolved := mkResolved (mkRepository 1 "npmjs" TYPE_PROXY FORMAT_NPM) demo_accepted.

Definition demo_env (at_ : Z) : GateEnv := mkGateEnv at_ true true true true (fun _ => false).

Definition demo_request : Request := mkRequest GET "dev" EmptyString.

Definition exact_match (pattern name : string) : bool := String.eqb pattern name.
Definition ascii_lower (s : string) : string := str_map to_ascii_lowercase s.

(** A person rejected left-pad; its scan is clean. *)
Definition demo_tables : Tables :=
  mkTables
    {[("npmjs", "left-pad") := mkPackageApproval APPROVAL_REJECTED EmptyString "admin" "incident" 0 EmptyString;
      ("npmjs", "lodash") := mkPackageApproval APPROVAL_APPROVED "dev" "admin" EmptyString 3 "4.17.21"]}
    {[("npmjs", "lodash", "4.17.99")]}
    {[("npm", "left-pad", "1.0.0") := mkVulnScan "none" []; ("npm", "evil", "1.0.0") := mkVulnScan "none" ["MAL-2026-1"]]}
    {[("npm", "lodash", "4.17.20") := ["gpl-3.0"]]}.

Definition demo_pipeline (at_ : Z) (pkg version : string) (s : Manager) : option Response * Manager :=
  pipeline exact_match ascii_lower (demo_env at_) demo_request demo_repo pkg version s.

Definition demo_code (pkg version : string) : option Z :=
  code <$> (demo_pipeline 0 pkg version (fresh_manager demo_tables)).1.

Example gate_decisions :
  demo_code "lodash" "4.17.21" = None /\ demo_code "lodash" "4.17.99" = Some 403 /\
  demo_code "lodash" "4.17.20" = Some 403 /\ demo_code "left-pad" "0.9.0" = Some 403.
Proof. vm_compute. done. Qed.

(** A clean scan overrules the person who rejected the package: its next request is
    served, and the row says it was approved. *)
Example rejection_overridden :
  let '(answer, s) := demo_pipeline 0 "left-pad" "1.0.0" (fresh_manager demo_tables) in
  answer = None /\ (fun a => (a_status a, decided_by a)) <$> approvals (tables s) !! ("npmjs", "left-pad") =
    Some (APPROVAL_APPROVED, AUTO_APPROVE_ACTOR).
Proof. vm_compute. done. Qed.

(** Hosted repositories are gated as proxies are: a denied license and a package
    nobody approved are refused. *)
Example hosted_gated :
  let hosted := mkResolved (mkRepository 2 "npmjs" TYPE_HOSTED FORMAT_NPM) demo_accepted in
  let hosted_code pkg version := code <$>
    (pipeline exact_match ascii_lower (demo_env 0) demo_request hosted pkg version (fresh_manager demo_tables)).1 in
  hosted_code "lodash" "4.17.20" = Some 403 /\ hosted_code "chalk" "5.0.0" = Some 403.
Proof. vm_compute. done. Qed.

(** A scan with an advisory whose score is zero counts as clean: the package is
    admitted. *)
Example advisory_admitted : demo_code "evil" "1.0.0" = None.
Proof. vm_compute. done. Qed.

(** A package that was rejected before it was ever requested has no requests yet, so
    its first refused request is reported, and raises the alarm, as a new one. *)
Example decided_row_reported :
  effects (demo_pipeline 5 "left-pad" "0.9.0" (fresh_manager demo_tables)).2 =
  [Audited 5 "npmjs" EVENT_APPROVAL_REQUEST "left-pad" "dev"; Alarmed 5 "npmjs" "left-pad" "0.9.0" "dev" ["security"]].
Proof. vm_compute. done. Qed.

(** The advisories behind a scan of lodash, and a repository that blocks high
    ones and accepts one. *)
Definition demo_known (k : string * string * string) : list Known :=
  if bool_decide (k = ("npm", "lodash", "4.17.20"))
  then [mkKnown "CVE-2026-1" ["GHSA-1"] SeverityHigh; mkKnown "CVE-2026-2" ["GHSA-2"] SeverityHigh] else [].

Definition scanned_tables : Tables :=
  mkTables (approvals demo_tables) (version_denies demo_tables)
    {[("npm", "lodash", "4.17.20") := mkVulnScan SEVERITY_HIGH ["CVE-2026-1"; "CVE-2026-2"]]} ∅.

Definition accepting_repo : Resolved :=
  mkResolved (repo demo_repo)
    (mkConfig (cache demo_accepted) (age_policy demo_accepted) (approval demo_accepted) 0
       (mkVulnPolicy true SEVERITY_HIGH VULN_ACTION_BLOCK ["CVE-2026-1"] false) (license demo_accepted)
       (policy_pipeline demo_accepted) [] default_upstream_auth).

Lemma scanned_as_documented : as_documented accepting_repo "lodash" "4.17.20" demo_known scanned_tables.
Proof.
  set (l := [mkKnown "CVE-2026-1" ["GHSA-1"] SeverityHigh; mkKnown "CVE-2026-2" ["GHSA-2"] SeverityHigh]).
  assert (Hk : demo_known (osv_ecosystem (repo_format (repo accepting_repo)), "lodash", "4.17.20") = l)
    by (vm_compute; reflexivity).
  assert (Hin : forall a, a ∈ l -> a = mkKnown "CVE-2026-1" ["GHSA-1"] SeverityHigh \/
                                   a = mkKnown "CVE-2026-2" ["GHSA-2"] SeverityHigh).
  { intros a [->|[->|Ha]%elem_of_cons]%elem_of_cons; [by left|by right|by apply not_elem_of_nil in Ha]. }
  assert (Hno : ~ is_accepted ["CVE-2026-1"] (mkKnown "CVE-2026-2" ["GHSA-2"] SeverityHigh)).
  { intros (id & Hid & ->%list_elem_of_singleton). apply elem_of_cons in Hid as [?|Hid]; [done|].
    by apply list_elem_of_singleton in Hid. }
  split; rewrite ?Hk.
  - intros k scan H. unfold scanned_tables in H. cbn [vuln_scans] in H.
    apply lookup_singleton_Some in H as [<- <-]. vm_compute. done.
  - intros a [-> | ->]%Hin Hacc; [by left|by apply Hno in Hacc].
  - intros a _ _. exists (mkKnown "CVE-2026-2" ["GHSA-2"] SeverityHigh).
    split_and!; [right; left|exact Hno|]. intros x [-> | ->]%Hin; done.
  - intros k a. unfold demo_known. case_bool_decide; [|by intros ?%not_elem_of_nil]. by intros [-> | ->]%Hin.
  - intros (a & Ha & Hrej). vm_compute in Ha. injection Ha as <-. done.
Qed.


(** A request for another version leaves the approval of lodash; one for a
    package nobody knows adds a pending row. *)
Example request_rows :
  let row pkg version := (fun a => (a_status a, decided_by a, request_count a)) <$>
    approvals (tables (demo_pipeline 0 pkg version (fresh_manager demo_tables)).2) !! ("npmjs", pkg) in
  row "lodash" "1.0.0" = Some (APPROVAL_APPROVED, "admin", 3) /\
  row "chalk" "5.0.0" = Some (APPROVAL_PENDING, EmptyString, 1).
Proof. vm_compute. done. Qed.

Definition demo_visits : list Visit :=
  (fun at_ => mkVisit (demo_env at_) demo_request demo_repo "chalk" "5.0.0" true) <$> [0; 30 * 10 ^ 9; 90 * 10 ^ 9].

Lemma approval_requests_spaced_witness :
  requests_spaced (effects (visits exact_match ascii_lower demo_visits (fresh_manager demo_tables))).
Proof.
  apply (approval_requests_spaced exact_match ascii_lower demo_visits demo_tables).
  repeat constructor; by apply Z.leb_le.
Defined.

Lemma accepted_order_complete_witness :
  effective_order (policy_pipeline demo_accepted) ≡ₚ DEFAULT_POLICY_ORDER /\
  order (policy_pipeline demo_accepted) =
    List.filter (fun n => negb (String.eqb n POLICY_VERSION_DENY)) (order (policy_pipeline demo_config)).
Proof. apply (accepted_order_complete demo_config demo_accepted). vm_compute. reflexivity. Defined.
