(* ===== verification/Serving.v ===== *)
(** * Serving an artifact (forklift: repo.rs)

    The engine answers a read from the cache, from the upstream, or from an expired
    entry where the upstream fails, through the age policy and the final gate.  Its
    state is the tables of artifacts and validators, the blobs that are readable, the
    two negative caches and the manager of the gates.  A request runs on its own;
    what callers that share a fetch see is in [Flight].  The answer of the upstream
    and the failures of the stores are arguments. *)

From stdpp Require Import prelude list strings pretty gmap sets sorting.
From Stdlib Require Import ZArith Lia Ascii.
From S2P Require Import Prelude.
From S2P Require Import Strings.
From S2P Require Import RepoConfig.
From S2P Require Import Gates.
From S2P Require Flight.

Abbreviation FetchKind := Flight.FetchKind.
Abbreviation UpstreamFailure := Flight.UpstreamFailure.

Inductive Kind := KArtifact | KMetadata.

Record Artifact := mkArtifact {
  repo_of : Z;
  path : string;
  art_version : string;
  blob_sha256 : string;
  size : Z;
  content_type : string;
  published_at : option Z;
  cached_at : Z;
  last_accessed_at : Z;
  managed : bool;
}.

(** [UpstreamValidators]; the blob and the address are those they belong to. *)
Record UpstreamValidators := mkValidators {
  v_blob : string;
  v_url : string;
  v_etag : string;
  v_last_modified : string;
}.

Definition validators_empty (v : UpstreamValidators) : bool := str_is_empty (v_etag v) && str_is_empty (v_last_modified v).

(** A read of a path.  The publication time an extractor finds and the limit on a
    body are in the response of the upstream; its address, whether a client supplied
    it, and what it accepts are arguments of [follow_upstream]. *)
Record FetchSpec := mkFetchSpec {
  f_repo : Repository;
  f_cfg : Config;
  f_path : string;
  upstream_url : string;
  kind : Kind;
  f_version : string;
  f_content_type : string;
  final_gate : option (M (option Response));
}.

(** An upstream response: the body has been hashed, or broke while it was stored. *)
Record UpstreamResponse := mkUpstreamResponse {
  u_status : Z;
  u_retry_after : string;
  u_etag : string;
  u_last_modified : string;
  u_content_type : string;
  u_published : option Z;
  u_body : result UpstreamFailure (string * Z);
}.

Inductive UpstreamAnswer :=
  | Unreachable (f : UpstreamFailure)
  | Answered (r : UpstreamResponse).

(** A request to the upstream: when, for which key, with which validators, and what
    it answered. *)
Record FetchNote := mkNote {
  n_time : Z;
  n_key : string;
  n_conditional : option UpstreamValidators;
  n_answer : UpstreamAnswer;
}.

(** The calls that may fail, by place. *)
Inductive EngineCall :=
  | ServeLookup | RecheckLookup | StoredLookup | ValidatorsLookup | BlobExists | MarkRevalidated | PutValidators
  | PutBlob | PutArtifact | EvictDelete | RepoSize | TouchRow.

Record EngineState := mkEngine {
  artifacts : gmap (Z * string) Artifact;
  validators : gmap (Z * string) UpstreamValidators;
  blobs : gset string;
  neg : NegCache;
  cool : NegCache;
  manager : Manager;
  fetches : list FetchNote;
}.

Record ServeEnv := mkServeEnv {
  clock : Z;
  stale_if_error : Z;
  e_fails : EngineCall -> bool;
  upstream : option UpstreamValidators -> UpstreamAnswer;
}.

(** Computations over the engine. *)
Definition E (A : Type) : Type := EngineState -> A * EngineState.

Definition eret {A} (x : A) : E A := fun s => (x, s).
Definition ebind {A B} (m : E A) (f : A -> E B) : E B := fun s => let '(x, s) := m s in f x s.

Declare Scope engine_scope.
Delimit Scope engine_scope with engine.
Notation "'let*' x := m 'in' k" := (ebind m (fun x => k))
  (at level 10, x pattern, m at level 100, k at level 200,
   format "'[v' 'let*'  x  :=  m  'in' '/' k ']'") : engine_scope.
Open Scope engine_scope.

Definition get : E EngineState := fun s => (s, s).

Definition with_artifacts (f : gmap (Z * string) Artifact -> gmap (Z * string) Artifact) : E unit :=
  fun s => (tt, mkEngine (f (artifacts s)) (validators s) (blobs s) (neg s) (cool s) (manager s) (fetches s)).
Definition with_validators (f : gmap (Z * string) UpstreamValidators -> gmap (Z * string) UpstreamValidators) : E unit :=
  fun s => (tt, mkEngine (artifacts s) (f (validators s)) (blobs s) (neg s) (cool s) (manager s) (fetches s)).
Definition add_blob (sha : string) : E unit :=
  fun s => (tt, mkEngine (artifacts s) (validators s) ({[sha]} ∪ blobs s) (neg s) (cool s) (manager s) (fetches s)).
Definition with_neg {A} (f : NegCache -> A * NegCache) : E A :=
  fun s => let '(x, c) := f (neg s) in
           (x, mkEngine (artifacts s) (validators s) (blobs s) c (cool s) (manager s) (fetches s)).
Definition with_cool {A} (f : NegCache -> A * NegCache) : E A :=
  fun s => let '(x, c) := f (cool s) in
           (x, mkEngine (artifacts s) (validators s) (blobs s) (neg s) c (manager s) (fetches s)).
Definition run_gate (g : M (option Response)) : E (option Response) :=
  fun s => let '(x, m) := g (manager s) in
           (x, mkEngine (artifacts s) (validators s) (blobs s) (neg s) (cool s) m (fetches s)).
Definition note_fetch (e : FetchNote) : E unit :=
  fun s => (tt, mkEngine (artifacts s) (validators s) (blobs s) (neg s) (cool s) (manager s) (fetches s ++ [e])).

Definition DEFAULT_UPSTREAM_COOLDOWN : Z := 15 * 10 ^ 9.
Definition MAX_UPSTREAM_COOLDOWN : Z := 5 * 60 * 10 ^ 9.
Definition TOUCH_INTERVAL : Z := 5 * 60 * 10 ^ 9.

Section Serving.
(** The crate that reads an HTTP date, and the text a time is stored as. *)
Context (parse_http_date : string -> option Z) (format_time : Z -> string).
Context (env : ServeEnv).

(** ** Answers *)

Definition not_found : Response := http_error 404 "404 page not found".

Definition with_status (r : Response) (hint : string) : Response :=
  mkResponse (code r) (content r) (etag r) hint (stale_header r).

Definition write_retry (status : Z) (retry_after : string) : Response :=
  let status := if negb (status =? 429) && negb (status =? 503) then 503 else status in
  with_status (http_error status "upstream rate-limited, retry later") retry_after.

Definition mark_stale (r : Response) : Response :=
  mkResponse (code r) (content r) (etag r) (retry_hint r) true.

(** [parse_retry_after]; the date is of the same clock. *)
Definition parse_retry_after (h : string) (now : Z) : Z :=
  let d :=
    if str_is_empty h then DEFAULT_UPSTREAM_COOLDOWN
    else match parse_i64 h with
    | Some secs => if secs <=? 0 then 0 else secs * 10 ^ 9
    | None =>
        match parse_http_date h with
        | Some t => Z.max (t - now) 0
        | None => DEFAULT_UPSTREAM_COOLDOWN
        end
    end in
  Z.min (Z.max d DEFAULT_UPSTREAM_COOLDOWN) MAX_UPSTREAM_COOLDOWN.

Definition retry_after_seconds (d : Z) : string :=
  let millis := d / 10 ^ 6 in
  pretty (Z.max ((millis + 500) / 1000) 1).

(** ** Freshness and age *)

Definition ttl_of (c : Config) (k : Kind) : Z :=
  d (match k with KMetadata => metadata_ttl (cache c) | KArtifact => artifact_ttl (cache c) end).

Definition fresh (art : Artifact) (c : Config) (k : Kind) : bool :=
  if negb (cache_enabled (cache c)) then false
  else if ttl_of c k =? 0 then match k with KArtifact => true | KMetadata => false end
  else clock env - cached_at art <? ttl_of c k.

Definition within_stale_window (art : Artifact) (c : Config) (k : Kind) : bool :=
  if (stale_if_error env =? 0) || negb (cache_enabled (cache c)) then false
  else clock env - cached_at art <? ttl_of c k + stale_if_error env.

Definition take_stale (stale : option Artifact) (c : Config) (k : Kind) : option Artifact :=
  art ← stale; if within_stale_window art c k then Some art else None.

Definition eval_age (spec : FetchSpec) (published : option Z) : bool :=
  match (evaluate_age (age_policy (f_cfg spec)) published (clock env)).1 with AgeBlock => true | _ => false end.

Definition age_gate (spec : FetchSpec) (published : option Z) : option Response :=
  if eval_age spec published then Some (http_error 404 "blocked by age policy") else None.

Definition spec_final_gate (spec : FetchSpec) : E (option Response) :=
  match final_gate spec with Some g => run_gate g | None => eret None end.

(** ** Rows *)

Definition get_artifact (call : EngineCall) (spec : FetchSpec) : E (result StoreError Artifact) :=
  let* s := get in
  eret (found (e_fails env call) (artifacts s !! (repo_id (f_repo spec), f_path spec))).

(** [touch]: rows served often are not written each time. *)
Definition touch (art : Artifact) : E unit :=
  if clock env - last_accessed_at art <? TOUCH_INTERVAL then eret tt
  else if e_fails env TouchRow then eret tt
  else with_artifacts (alter (fun a =>
    mkArtifact (repo_of a) (path a) (art_version a) (blob_sha256 a) (size a) (content_type a) (published_at a) (cached_at a)
      (clock env) (managed a)) (repo_of art, path art)).

(** [serve_artifact]: the row's blob, unless the client has it. *)
Definition quoted (sha : string) : string := String (ascii_of_N 34) (sha +:+ String (ascii_of_N 34) EmptyString).

Definition serve_artifact (req : Request) (art : Artifact) : E Response :=
  let* s := get in
  eret (
    if negb (bool_decide (blob_sha256 art ∈ blobs s)) then http_error 500 "blob missing"
    else
      let tag := quoted (blob_sha256 art) in
      if String.eqb (if_none_match req) tag then mkResponse 304 NoContent tag EmptyString false
      else match method req with
      | HEAD => mkResponse 200 NoContent tag EmptyString false
      | _ => mkResponse 200 (Blob (blob_sha256 art)) tag EmptyString false
      end).

Definition serve_stored (req : Request) (spec : FetchSpec) (art : Artifact) : E Response :=
  match age_gate spec (published_at art) with
  | Some r => eret r
  | None =>
      let* answer := spec_final_gate spec in
      match answer with
      | Some r => eret r
      | None =>
          let* _ := touch art in
          serve_artifact req art
      end
  end.

(** ** Eviction *)

Definition repo_rows (rid : Z) (rows : gmap (Z * string) Artifact) : list Artifact :=
  List.filter (fun a => repo_of a =? rid) ((map_to_list rows).*2).

Definition repo_size (rid : Z) (rows : gmap (Z * string) Artifact) : Z := foldr Z.add 0 (size <$> repo_rows rid rows).

(** [ORDER BY last_accessed_at]: the column is text. *)
Definition accessed_before (a b : Artifact) : Prop :=
  is_true (String.leb (format_time (last_accessed_at a)) (format_time (last_accessed_at b))).

#[export] Instance accessed_before_dec : RelDecision accessed_before.
Proof. intros a b. unfold accessed_before. apply _. Defined.

Definition lru_rows (rid : Z) (limit : nat) (rows : gmap (Z * string) Artifact) : list Artifact :=
  take limit (merge_sort accessed_before (repo_rows rid rows)).

Definition EVICT_BATCH : nat := 16.
Definition EVICT_ROUNDS : nat := 64.

(** The deletions of [evict_lru]: a managed row or a failure stops them. *)
Fixpoint delete_rows (victims : list Artifact) : E bool :=
  match victims with
  | [] => eret true
  | a :: victims =>
      if e_fails env EvictDelete || managed a then eret false
      else
        let* _ := with_artifacts (delete (repo_of a, path a)) in
        delete_rows victims
  end.

(** [evict_lru]: the number of rows, or [None] on an error. *)
Definition evict_lru (rid : Z) : E (option Z) :=
  let* s := get in
  let victims := lru_rows rid EVICT_BATCH (artifacts s) in
  let* done := delete_rows victims in
  eret (if done : bool then Some (zlen victims) else None).

Definition over_cap (rid max : Z) : E bool :=
  let* s := get in
  eret (negb (e_fails env RepoSize) && (max <? repo_size rid (artifacts s))).

Fixpoint evict_loop (rounds : nat) (rid max : Z) : E unit :=
  match rounds with
  | O => eret tt
  | S rounds =>
      let* n := evict_lru rid in
      if match n with Some n => 0 <? n | None => false end then
        let* over := over_cap rid max in
        if over : bool then evict_loop rounds rid max else eret tt
      else eret tt
  end.

Definition maybe_evict (spec : FetchSpec) : E unit :=
  if String.eqb (repo_format (f_repo spec)) FORMAT_OCI then eret tt
  else
    let max := max_size_bytes (cache (f_cfg spec)) in
    if max <=? 0 then eret tt
    else
      let rid := repo_id (f_repo spec) in
      let* over := over_cap rid max in
      if over : bool then evict_loop EVICT_ROUNDS rid max else eret tt.

(** ** Fetching *)

Definition key_of (spec : FetchSpec) : string := repo_name (f_repo spec) +:+ "/" +:+ f_path spec.
Definition row_of (spec : FetchSpec) : Z * string := (repo_id (f_repo spec), f_path spec).

Definition is_metadata (k : Kind) : bool := match k with KMetadata => true | KArtifact => false end.

Definition conditional_for (spec : FetchSpec) (art : Artifact) : E (option UpstreamValidators) :=
  if negb (is_metadata (kind spec)) then eret None
  else
    let* s := get in
    eret (
      v ← (if e_fails env ValidatorsLookup then None else validators s !! row_of spec);
      if validators_empty v || negb (String.eqb (v_blob v) (blob_sha256 art)) || negb (String.eqb (v_url v) (upstream_url spec))
      then None
      else if negb (e_fails env BlobExists) && bool_decide (blob_sha256 art ∈ blobs s) then Some v else None).

Definition response_validators (r : UpstreamResponse) : UpstreamValidators :=
  mkValidators EmptyString EmptyString (u_etag r) (u_last_modified r).

Definition keep_validators (spec : FetchSpec) (art : Artifact) (v : UpstreamValidators) : E unit :=
  let v := mkValidators (blob_sha256 art) (upstream_url spec) (v_etag v) (v_last_modified v) in
  if e_fails env PutValidators then eret tt
  else with_validators (fun m => if validators_empty v then delete (row_of spec) m else <[row_of spec := v]> m).

Definition outcome (k : FetchKind) : Flight.FetchOutcome := Flight.mkOutcome k 0 EmptyString None.
Definition outcome_failed (f : UpstreamFailure) : Flight.FetchOutcome :=
  Flight.mkOutcome Flight.FetchError 0 EmptyString (Some f).

Definition revalidated (spec : FetchSpec) (art : Artifact) (r : UpstreamResponse) : E Flight.FetchOutcome :=
  if e_fails env MarkRevalidated then eret Flight.FetchOutcome_error
  else
    let* _ := with_artifacts (alter (fun a =>
      mkArtifact (repo_of a) (path a) (art_version a) (blob_sha256 a) (size a) (content_type a) (published_at a) (clock env)
        (last_accessed_at a) (managed a)) (row_of spec)) in
    let fresh := response_validators r in
    let* _ := (if validators_empty fresh then eret tt else keep_validators spec art fresh) in
    eret Flight.FetchOutcome_stored.

(** [store_artifact] with [put_artifact]; the cause is that of a broken body.
    [put_artifact] reads its row back after the transaction; that read is taken to
    find the row whenever the write succeeded. *)
Definition store_artifact (spec : FetchSpec) (r : UpstreamResponse) : E (result (option UpstreamFailure) Artifact) :=
  match u_body r with
  | Err f => eret (Err (Some f))
  | Ok (digest, size) =>
      if e_fails env PutBlob then eret (Err None)
      else
        let* _ := add_blob digest in
        let* s := get in
        if match artifacts s !! row_of spec with Some old => managed old | None => false end then eret (Err None)
        else if e_fails env PutArtifact then eret (Err None)
        else
          let ct := or_default (or_default (f_content_type spec) (u_content_type r)) "application/octet-stream" in
          let art := mkArtifact (repo_id (f_repo spec)) (f_path spec) (f_version spec) digest size ct (u_published r)
                       (clock env) (clock env) false in
          let* _ := with_artifacts (fun m => <[row_of spec := art]> m) in
          eret (Ok art)
  end.

(** The upstream is asked, with the validators of the cached copy. *)
Definition upstream_get (spec : FetchSpec) (conditional : option UpstreamValidators) : E UpstreamAnswer :=
  let* _ := note_fetch (mkNote (clock env) (key_of spec) conditional (upstream env conditional)) in
  eret (upstream env conditional).

Definition cool_down (spec : FetchSpec) (r : UpstreamResponse) : E Z :=
  let d := parse_retry_after (u_retry_after r) (clock env) in
  let* _ := with_cool (fun c => (tt, neg_set (key_of spec) d (clock env) c)) in
  eret d.

Definition is_rate_limit (status : Z) : bool := (status =? 429) || (status =? 503).
Definition is_success (status : Z) : bool := (200 <=? status) && (status <? 300).

(** The upstream's answer, by status; [current] is the cached copy. *)
Definition fetch_with (spec : FetchSpec) (current : option Artifact) (conditional : option UpstreamValidators)
    : E Flight.FetchOutcome :=
  let* answer := upstream_get spec conditional in
  match answer with
  | Unreachable f => eret (outcome_failed f)
  | Answered r =>
      let status := u_status r in
      if status =? 304 then
        match current, conditional with
        | Some art, Some _ => revalidated spec art r
        | _, _ => eret (outcome_failed Flight.Status)
        end
      else if status =? 404 then
        let* _ := with_neg (fun c => (tt, neg_set (key_of spec) (d (negative_ttl (cache (f_cfg spec)))) (clock env) c)) in
        eret (outcome Flight.NotFound)
      else if is_rate_limit status then
        let* d := cool_down spec r in
        eret (Flight.mkOutcome Flight.Retry status (retry_after_seconds d) (Some Flight.RateLimited))
      else if negb (is_success status) then eret (outcome_failed Flight.Status)
      else if eval_age spec (u_published r) then eret (outcome Flight.AgeBlocked)
      else
        let* stored := store_artifact spec r in
        match stored with
        | Err cause => eret (Flight.mkOutcome Flight.FetchError 0 EmptyString cause)
        | Ok art =>
            let* _ := (if is_metadata (kind spec) then keep_validators spec art (response_validators r) else eret tt) in
            let* _ := maybe_evict spec in
            eret Flight.FetchOutcome_stored
        end
  end.

Definition fetch_and_store (spec : FetchSpec) : E Flight.FetchOutcome :=
  let* current := get_artifact RecheckLookup spec in
  match current with
  | Ok art =>
      if fresh art (f_cfg spec) (kind spec) then eret Flight.FetchOutcome_stored
      else
        let* conditional := conditional_for spec art in
        fetch_with spec (Some art) conditional
  | Err _ => fetch_with spec None None
  end.

(** ** Answering *)

Definition failure_str (f : UpstreamFailure) : string :=
  match f with
  | Flight.Timeout => "timeout"
  | Flight.Connect => "connect"
  | Flight.Transport => "transport"
  | Flight.Blocked => "blocked"
  | Flight.Status => "status"
  | Flight.RateLimited => "rate_limited"
  end.

Definition stale_reason (out : Flight.FetchOutcome) : option string :=
  match Flight.kind out with
  | Flight.FetchError => Some (match Flight.failure out with Some f => failure_str f | None => "store" end)
  | Flight.Retry => Some (failure_str Flight.RateLimited)
  | _ => None
  end.

Definition serve_stale (req : Request) (spec : FetchSpec) (art : Artifact) : E Response :=
  let* r := serve_stored req spec art in
  eret (mark_stale r).

(** What a caller of the shared fetch makes of its outcome. *)
Definition answer_outcome (req : Request) (spec : FetchSpec) (stale : option Artifact) (out : Flight.FetchOutcome) : E Response :=
  match (_ ← stale_reason out; take_stale stale (f_cfg spec) (kind spec)) with
  | Some art => serve_stale req spec art
  | None =>
      match Flight.kind out with
      | Flight.Stored =>
          let* row := get_artifact StoredLookup spec in
          match row with
          | Err _ => eret (http_error 500 "cache read failed")
          | Ok art =>
              let* answer := spec_final_gate spec in
              match answer with
              | Some r => eret r
              | None => serve_artifact req art
              end
          end
      | Flight.NotFound => eret not_found
      | Flight.AgeBlocked => eret (http_error 404 "blocked by age policy")
      | Flight.Retry => eret (write_retry (Flight.status out) (Flight.retry_after out))
      | Flight.FetchError => eret (http_error 502 "upstream error")
      end
  end.

(** A repository without a cache: the upstream's body goes to the client. *)
Definition fetch_passthrough (req : Request) (spec : FetchSpec) : E Response :=
  let* answer := upstream_get spec None in
  match answer with
  | Unreachable _ => eret (http_error 502 "upstream unreachable")
  | Answered r =>
      let status := u_status r in
      if status =? 404 then eret not_found
      else if is_rate_limit status then
        let* d := cool_down spec r in
        eret (write_retry status (retry_after_seconds d))
      else if negb (is_success status) then eret (http_error 502 "upstream error")
      else
        match age_gate spec (u_published r) with
        | Some r => eret r
        | None =>
            let* answer := spec_final_gate spec in
            match answer with
            | Some r => eret r
            | None =>
                match method req with
                | HEAD => eret (mkResponse 200 NoContent EmptyString EmptyString false)
                | _ => eret (mkResponse 200 Upstream EmptyString EmptyString false)
                end
            end
        end
  end.

Definition fetch_and_serve (req : Request) (spec : FetchSpec) (stale : option Artifact) : E Response :=
  let* cooling := with_cool (neg_remaining (key_of spec) (clock env)) in
  match cooling with
  | Some d =>
      match take_stale stale (f_cfg spec) (kind spec) with
      | Some art => serve_stale req spec art
      | None => eret (write_retry 503 (retry_after_seconds d))
      end
  | None =>
      if negb (cache_enabled (cache (f_cfg spec))) then fetch_passthrough req spec
      else
        let* out := fetch_and_store spec in
        answer_outcome req spec stale out
  end.

Definition is_hosted (spec : FetchSpec) : bool := String.eqb (repo_type (f_repo spec)) TYPE_HOSTED.

Definition serve_missing (req : Request) (spec : FetchSpec) (stale : option Artifact) : E Response :=
  if is_hosted spec then eret not_found
  else
    let* gone := with_neg (neg_has (key_of spec) (clock env)) in
    if gone : bool then eret not_found else fetch_and_serve req spec stale.

Definition serve (req : Request) (spec : FetchSpec) : E Response :=
  let* row := get_artifact ServeLookup spec in
  match row with
  | Ok art =>
      if is_hosted spec || fresh art (f_cfg spec) (kind spec) then serve_stored req spec art
      else serve_missing req spec (Some art)
  | Err QueryFailed => eret (http_error 500 "metadata error")
  | Err RowNotFound => serve_missing req spec None
  end.

(** A read of a package format: the gates before the cache, then the engine with
    the gates after it. *)
Definition handle_read (glob_match : string -> string -> bool) (to_lowercase : string -> string) (genv : GateEnv)
    (req : Request) (res : Resolved) (pkg : string) (spec : FetchSpec) : E Response :=
  let* answer := run_gate (policy_gates to_lowercase genv req res pkg (f_version spec)) in
  match answer with
  | Some r => eret r
  | None =>
      serve req
        (mkFetchSpec (repo res) (cfg res) (f_path spec) (upstream_url spec) (kind spec) (f_version spec) (f_content_type spec)
           (Some (final_policy_gate glob_match to_lowercase genv req res pkg (f_version spec))))
  end.
End Serving.

(** ** Requests to the upstream *)

Section Redirects.
(** Addresses and header values of the crates; [base64]; the screen of addresses
    that a client supplied; what an address answers: a redirect to another, or not. *)
Context {Url : Type} (host_str : Url -> option string) (port_or_known_default : Url -> option Z).
Context (base64 : string -> string) (header_value : string -> option string) (header_name : string -> option string).
Context (guard_public_url : Url -> result string unit).
Context (respond : Url -> list (string * string) -> result UpstreamFailure (option (result string Url))).

Definition AUTHORIZATION : string := "authorization".
Definition USER_AGENT : string := "user-agent".

(** [HeaderMap::insert] and [remove]. *)
Definition remove_header (name : string) (headers : list (string * string)) : list (string * string) :=
  List.filter (fun h => negb (String.eqb h.1 name)) headers.
Definition insert_header (name value : string) (headers : list (string * string)) : list (string * string) :=
  remove_header name headers ++ [(name, value)].
Definition try_insert (name : string) (value : option string) (headers : list (string * string)) : list (string * string) :=
  match value with Some v => insert_header name v headers | None => headers end.

Definition new_upstream_request (user_agent : string) (u : UpstreamAuthConfig) : list (string * string) * option string :=
  let headers := try_insert USER_AGENT (header_value user_agent) [] in
  if String.eqb (type_ u) UPSTREAM_AUTH_BASIC then
    (try_insert AUTHORIZATION (header_value ("Basic " +:+ base64 (username u +:+ ":" +:+ password u))) headers, None)
  else if String.eqb (type_ u) UPSTREAM_AUTH_BEARER then
    (try_insert AUTHORIZATION (header_value ("Bearer " +:+ token u)) headers, None)
  else if String.eqb (type_ u) UPSTREAM_AUTH_HEADER then
    match header_name (header u), header_value (value u) with
    | Some name, Some v => (insert_header name v headers, Some name)
    | _, _ => (headers, None)
    end
  else (headers, None).

Definition same_host (a b : Url) : bool :=
  bool_decide (host_str a = host_str b) && bool_decide (port_or_known_default a = port_or_known_default b).

Definition MAX_REDIRECTS : nat := 10.

Definition strip_auth_on_cross_host_redirect (next : Url) (via : list Url) (headers : list (string * string))
    (custom : option string) : result string (list (string * string)) :=
  if (MAX_REDIRECTS <=? length via)%nat then Err "stopped after 10 redirects"
  else match last via with
  | None => Err "redirect with no previous request"
  | Some prev =>
      if same_host next prev then Ok headers
      else
        let headers := remove_header AUTHORIZATION headers in
        Ok (match custom with Some name => remove_header name headers | None => headers end)
  end.

(** The loop of [follow_upstream]: the requests that are sent, and the end; [None]
    when the fuel is out. *)
Fixpoint follow (fuel : nat) (untrusted : bool) (custom : option string) (next : Url) (headers : list (string * string))
    (via : list Url) : list (Url * list (string * string)) * option (result UpstreamFailure Url) :=
  match fuel with
  | O => ([], None)
  | S fuel =>
      match (if untrusted then guard_public_url next else Ok tt) with
      | Err _ => ([], Some (Err Flight.Blocked))
      | Ok _ =>
          match respond next headers with
          | Err f => ([(next, headers)], Some (Err f))
          | Ok None => ([(next, headers)], Some (Ok next))
          | Ok (Some (Err _)) => ([(next, headers)], Some (Err Flight.Transport))
          | Ok (Some (Ok target)) =>
              let via := via ++ [next] in
              match strip_auth_on_cross_host_redirect target via headers custom with
              | Err _ => ([(next, headers)], Some (Err Flight.Transport))
              | Ok headers' =>
                  let '(sent, r) := follow fuel untrusted custom target headers' via in
                  ((next, headers) :: sent, r)
              end
          end
      end
  end.

Definition ACCEPT : string := "accept".
Definition IF_NONE_MATCH : string := "if-none-match".
Definition IF_MODIFIED_SINCE : string := "if-modified-since".

Definition conditional_headers (c : option UpstreamValidators) (headers : list (string * string)) : list (string * string) :=
  match c with
  | None => headers
  | Some c =>
      if negb (str_is_empty (v_etag c)) then try_insert IF_NONE_MATCH (header_value (v_etag c)) headers
      else if negb (str_is_empty (v_last_modified c)) then
        try_insert IF_MODIFIED_SINCE (header_value (v_last_modified c)) headers
      else headers
  end.

(** [upstream_get_with] and [follow_upstream]; the credentials of the repository are
    never presented to an address that a client supplied. *)
Definition follow_upstream (fuel : nat) (user_agent : string) (auth : UpstreamAuthConfig) (untrusted : bool) (accept : string)
    (conditional : option UpstreamValidators) (url : Url)
    : list (Url * list (string * string)) * option (result UpstreamFailure Url) :=
  let '(headers, custom) := new_upstream_request user_agent (if untrusted then default_upstream_auth else auth) in
  let headers := if str_is_empty accept then headers else try_insert ACCEPT (header_value accept) headers in
  follow fuel untrusted custom url (conditional_headers conditional headers) [].
End Redirects.
