(* ===== verification/ServingFacts.v ===== *)
(** * What the engine serves (forklift: repo.rs)

    Nothing is delivered past a gate that refuses; the age policy holds for what is
    cached; an expired entry only answers for a failure, inside its window; a rate
    limit of the upstream is waited out; credentials stay with their host. *)

From stdpp Require Import prelude list strings pretty gmap sets sorting.
From Stdlib Require Import ZArith Lia Ascii Sorted.
From S2P Require Import Prelude.
From S2P Require Import Strings.
From S2P Require Import RepoConfig.
From S2P Require Import Gates.
From S2P Require Import GateFacts.
From S2P Require Flight.
From S2P Require Import Serving.

(** ** Answers that carry the artifact *)

Definition delivers (r : Response) : bool :=
  (code r =? 200) || (code r =? 304) || match content r with Blob _ | Upstream => true | _ => false end.

(** Gates whose answers refuse. *)
Definition refuses (g : M (option Response)) : Prop := forall s r, (g s).1 = Some r -> delivers r = false.

Lemma refuses_none : refuses (ret None).
Proof. by intros s r. Qed.

Lemma refuses_error c msg : (c =? 200) || (c =? 304) = false -> refuses (ret (Some (http_error c msg))).
Proof. intros Hc s r [= <-]. unfold delivers. cbn. by rewrite Hc. Qed.

Lemma refuses_bind {A} (m : M A) (f : A -> M (option Response)) : (forall x, refuses (f x)) -> refuses (bind m f).
Proof. intros Hf s r. unfold bind. destruct (m s) as [x s']. apply Hf. Qed.

Lemma refuses_and_then g rest : refuses g -> refuses rest -> refuses (and_then g rest).
Proof.
  intros Hg Hr s r. unfold and_then, bind. specialize (Hg s). destruct (g s) as [[a|] s']; cbn in *; [|apply Hr].
  intros [= <-]. by apply Hg.
Qed.

(** Goes through the branches of a gate. *)
Ltac refuse_steps :=
  repeat first
    [ apply refuses_none
    | apply refuses_error; reflexivity
    | progress cbn zeta
    | apply refuses_bind; intros ?
    | match goal with |- refuses (if ?b then _ else _) => destruct b end
    | match goal with |- refuses (match ?x with _ => _ end) => destruct x end ].

Section Refusals.
Context (glob_match : string -> string -> bool) (to_lowercase : string -> string).
Context (genv : GateEnv) (req : Request) (res : Resolved) (pkg version : string).

Lemma version_deny_refuses : refuses (version_deny_gate genv req res pkg version).
Proof. unfold version_deny_gate. refuse_steps. Qed.

Lemma registry_refuses name :
  match policy_registry to_lowercase genv req res pkg version name with Some g => refuses g | None => True end.
Proof.
  unfold policy_registry. destruct (String.eqb _ _); [unfold vuln_gate; refuse_steps|].
  destruct (String.eqb _ _); [unfold license_gate; refuse_steps|done].
Qed.

Lemma policy_gates_refuses : refuses (policy_gates to_lowercase genv req res pkg version).
Proof.
  unfold policy_gates. apply refuses_and_then; [apply version_deny_refuses|].
  induction (effective_order _) as [|n order IH]; cbn [before_age]; [apply refuses_none|].
  destruct (String.eqb n POLICY_AGE); [apply refuses_none|].
  pose proof (registry_refuses n) as Hn. destruct (policy_registry _ _ _ _ _ _ n); [by apply refuses_and_then|done].
Qed.

Lemma final_policy_refuses : refuses (final_policy_gate glob_match to_lowercase genv req res pkg version).
Proof.
  unfold final_policy_gate. generalize false. induction (effective_order _) as [|n order IH]; intros seen; cbn [after_age].
  { unfold approval_gate. refuse_steps. }
  destruct (String.eqb n POLICY_AGE); [apply IH|]. destruct seen; cbn [negb]; [|apply IH].
  pose proof (registry_refuses n) as Hn. destruct (policy_registry _ _ _ _ _ _ n); [by apply refuses_and_then|apply IH].
Qed.
End Refusals.

(** ** Parts of the state *)

(** Computations that leave a part of the state alone. *)
Definition same {X} (part : EngineState -> X) {A} (m : E A) : Prop := forall s, part (m s).2 = part s.

(** A part that neither the rows nor the blobs nor the missing paths are in. *)
Class Apart {X} (part : EngineState -> X) : Prop := {
  apart_artifacts f s : part (with_artifacts f s).2 = part s;
  apart_validators f s : part (with_validators f s).2 = part s;
  apart_blob sha s : part (add_blob sha s).2 = part s;
  apart_neg {A} (f : NegCache -> A * NegCache) s : part (with_neg f s).2 = part s;
}.

#[export] Instance manager_apart : Apart manager.
Proof. split; [done..|]. intros A f s. unfold with_neg. by destruct (f (neg s)). Qed.

Definition upstream_part (s : EngineState) : NegCache * list FetchNote := (cool s, fetches s).

#[export] Instance upstream_apart : Apart upstream_part.
Proof. split; [done..|]. intros A f s. unfold with_neg. by destruct (f (neg s)). Qed.

Section Same.
Context {X} (part : EngineState -> X) {Hpart : Apart part}.

Lemma same_ret {A} (x : A) : same part (eret x).
Proof. done. Qed.

Lemma same_bind {A B} (m : E A) (f : A -> E B) : same part m -> (forall x, same part (f x)) -> same part (ebind m f).
Proof. intros Hm Hf s. unfold ebind. specialize (Hm s). destruct (m s) as [x s']. by rewrite (Hf x s'). Qed.

Lemma same_get : same part get.
Proof. done. Qed.

Lemma same_artifacts f : same part (with_artifacts f).
Proof. intros s. apply apart_artifacts. Qed.

Lemma same_validators f : same part (with_validators f).
Proof. intros s. apply apart_validators. Qed.

Lemma same_blob sha : same part (add_blob sha).
Proof. intros s. apply apart_blob. Qed.

Lemma same_neg {A} (f : NegCache -> A * NegCache) : same part (with_neg f).
Proof. intros s. apply apart_neg. Qed.

Lemma same_row env call spec : same part (get_artifact env call spec).
Proof. done. Qed.
End Same.

#[export] Hint Resolve same_ret same_get same_artifacts same_validators same_blob same_neg same_row : gates.

Ltac same_steps :=
  repeat first
    [ solve [auto with gates typeclass_instances]
    | apply same_bind; [solve [auto with gates typeclass_instances]|intros ?]
    | progress cbn zeta
    | match goal with |- same _ (if ?b then _ else _) => destruct b end
    | match goal with |- same _ (match ?x with _ => _ end) => destruct x end ].

Section Entitled.
Context (parse_http_date : string -> option Z) (format_time : Z -> string) (env : ServeEnv).

(** ** The final gate *)

Section Rows.
Context {X} (part : EngineState -> X) {Hpart : Apart part}.

Lemma same_touch art : same part (touch env art).
Proof. unfold touch. same_steps. Qed.

Lemma same_serve_artifact req art : same part (serve_artifact req art).
Proof. unfold serve_artifact. same_steps. Qed.

Lemma same_delete_rows victims : same part (delete_rows env victims).
Proof. induction victims as [|a victims IH]; cbn; same_steps. Qed.

#[local] Hint Resolve same_delete_rows : gates.

Lemma same_over_cap rid max : same part (over_cap env rid max).
Proof. unfold over_cap. same_steps. Qed.

Lemma same_evict_lru rid : same part (evict_lru format_time env rid).
Proof. unfold evict_lru. same_steps. Qed.

#[local] Hint Resolve same_over_cap same_evict_lru : gates.

Lemma same_evict_loop rounds rid max : same part (evict_loop format_time env rounds rid max).
Proof. induction rounds as [|rounds IH]; cbn [evict_loop]; same_steps. Qed.

#[local] Hint Resolve same_evict_loop : gates.

Lemma same_maybe_evict spec : same part (maybe_evict format_time env spec).
Proof. unfold maybe_evict. same_steps. Qed.

Lemma same_keep_validators spec art v : same part (keep_validators env spec art v).
Proof. unfold keep_validators. same_steps. Qed.

#[local] Hint Resolve same_keep_validators : gates.

Lemma same_conditional spec art : same part (conditional_for env spec art).
Proof. unfold conditional_for. same_steps. Qed.

Lemma same_store_artifact spec r : same part (store_artifact env spec r).
Proof. unfold store_artifact. same_steps. Qed.

Lemma same_revalidated spec art r : same part (revalidated env spec art r).
Proof. unfold revalidated. same_steps. apply same_bind; [|intros; same_steps]. same_steps. Qed.
End Rows.

#[local] Hint Resolve same_touch same_serve_artifact same_maybe_evict same_keep_validators same_conditional
  same_store_artifact same_revalidated : gates.

Abbreviation quiet := (same manager).

Lemma quiet_cool {A} (f : NegCache -> A * NegCache) : quiet (with_cool f).
Proof. intros s. unfold with_cool. by destruct (f (cool s)). Qed.

Lemma quiet_note e : quiet (note_fetch e).
Proof. done. Qed.

#[local] Hint Resolve quiet_cool quiet_note : gates.

Lemma quiet_upstream_get spec c : quiet (upstream_get env spec c).
Proof. unfold upstream_get. same_steps. Qed.

Lemma quiet_cool_down spec r : quiet (cool_down parse_http_date env spec r).
Proof. unfold cool_down. same_steps. Qed.

#[local] Hint Resolve quiet_upstream_get quiet_cool_down : gates.

Lemma quiet_fetch_with spec current c : quiet (fetch_with parse_http_date format_time env spec current c).
Proof.
  unfold fetch_with. same_steps. apply same_bind; [|intros; same_steps]. same_steps.
Qed.

#[local] Hint Resolve quiet_fetch_with : gates.

Lemma quiet_fetch_and_store spec : quiet (fetch_and_store parse_http_date format_time env spec).
Proof. unfold fetch_and_store. same_steps. Qed.

(** A computation that delivers only after the gate let it. *)
Definition behind (g : M (option Response)) (m : E Response) : Prop :=
  forall s, delivers (m s).1 = true -> (g (manager s)).1 = None /\ manager (m s).2 = (g (manager s)).2.

Lemma behind_error g c msg : (c =? 200) || (c =? 304) = false -> behind g (eret (http_error c msg)).
Proof. intros Hc s. unfold delivers. cbn. by rewrite Hc. Qed.

Lemma behind_bind {A} g (m : E A) (f : A -> E Response) : quiet m -> (forall x, behind g (f x)) -> behind g (ebind m f).
Proof.
  intros Hm Hf s. unfold ebind. specialize (Hm s). destruct (m s) as [x s']; cbn [snd] in Hm. rewrite <- Hm. apply Hf.
Qed.

(** The gate runs; the rest leaves the manager alone. *)
Lemma behind_gate g spec (rest : E Response) :
  final_gate spec = Some g -> refuses g -> quiet rest ->
  behind g (ebind (spec_final_gate spec) (fun answer => match answer with Some r => eret r | None => rest end)).
Proof.
  intros Hg Hr Hq s. unfold ebind, spec_final_gate. rewrite Hg. unfold run_gate. specialize (Hr (manager s)).
  destruct (g (manager s)) as [[r|] m]; cbn [fst snd] in *.
  - intros Hd. cbn in Hd. rewrite (Hr r eq_refl) in Hd. done.
  - intros _. split; [done|]. apply Hq.
Qed.

Lemma behind_stored g req spec art : final_gate spec = Some g -> refuses g -> behind g (serve_stored env req spec art).
Proof.
  intros Hg Hr. unfold serve_stored, age_gate. destruct (eval_age _ _ _); [by apply behind_error|].
  apply behind_gate; [done..|]. same_steps.
Qed.

Lemma behind_stale g req spec art : final_gate spec = Some g -> refuses g -> behind g (serve_stale env req spec art).
Proof.
  intros Hg Hr s. unfold serve_stale, ebind, eret. pose proof (behind_stored g req spec art Hg Hr s) as H.
  destruct (serve_stored env req spec art s) as [r s']. cbn in *. exact H.
Qed.

Lemma behind_retry g status hint : behind g (eret (write_retry status hint)).
Proof.
  intros s. unfold write_retry, delivers. cbn.
  destruct (Z.eqb_spec status 429) as [->|]; cbn; [done|]. by destruct (Z.eqb_spec status 503) as [->|].
Qed.

Lemma behind_outcome g req spec stale out :
  final_gate spec = Some g -> refuses g -> behind g (answer_outcome env req spec stale out).
Proof.
  intros Hg Hr. unfold answer_outcome. destruct (_ ≫= _) as [art|]; [by apply behind_stale|].
  destruct (Flight.kind out); try (by apply behind_error); [|apply behind_retry].
  apply behind_bind; [solve [auto with gates typeclass_instances]|]. intros [art|]; [|by apply behind_error].
  apply behind_gate; [done..|]. same_steps.
Qed.

Lemma behind_passthrough g req spec :
  final_gate spec = Some g -> refuses g -> behind g (fetch_passthrough parse_http_date env req spec).
Proof.
  intros Hg Hr. unfold fetch_passthrough. apply behind_bind; [solve [auto with gates typeclass_instances]|]. intros [f|r]; [by apply behind_error|].
  cbn zeta. destruct (u_status r =? 404); [by apply behind_error|]. destruct (is_rate_limit _).
  { apply behind_bind; [solve [auto with gates typeclass_instances]|]. intros d0. apply behind_retry. }
  destruct (negb _); [by apply behind_error|]. unfold age_gate. destruct (eval_age _ _ _); [by apply behind_error|].
  apply behind_gate; [done..|]. same_steps.
Qed.

Lemma behind_serve g req spec :
  final_gate spec = Some g -> refuses g -> behind g (serve parse_http_date format_time env req spec).
Proof.
  intros Hg Hr. unfold serve. apply behind_bind; [solve [auto with gates typeclass_instances]|].
  assert (Hmiss : forall stale, behind g (serve_missing parse_http_date format_time env req spec stale)).
  { intros stale. unfold serve_missing. destruct (is_hosted spec); [by apply behind_error|].
    apply behind_bind; [solve [auto with gates typeclass_instances]|]. intros []; [by apply behind_error|].
    unfold fetch_and_serve. apply behind_bind; [solve [auto with gates typeclass_instances]|]. intros [d0|].
    - destruct (take_stale _ _ _ _) as [art|]; [by apply behind_stale|apply behind_retry].
    - destruct (negb _); [by apply behind_passthrough|]. apply behind_bind; [apply quiet_fetch_and_store|].
      intros out. by apply behind_outcome. }
  intros [art|[]]; [|apply Hmiss|by apply behind_error].
  destruct (_ || _); [by apply behind_stored|apply Hmiss].
Qed.

End Entitled.

#[export] Hint Resolve same_touch same_serve_artifact same_maybe_evict same_keep_validators same_conditional
  same_store_artifact same_revalidated : gates.

(** ** Reasoning about computations *)

(** The result and the state a computation ends with satisfy [P]. *)
Definition wp {A} (m : E A) (P : A -> EngineState -> Prop) (s : EngineState) : Prop := let '(x, s') := m s in P x s'.

Lemma wp_ret {A} (x : A) (P : A -> EngineState -> Prop) s : P x s -> wp (eret x) P s.
Proof. done. Qed.

Lemma wp_bind {A B} (m : E A) (f : A -> E B) (P : B -> EngineState -> Prop) s :
  wp m (fun x s' => wp (f x) P s') s -> wp (ebind m f) P s.
Proof. unfold wp, ebind. by destruct (m s). Qed.

Lemma wp_mono {A} (m : E A) (P Q : A -> EngineState -> Prop) s :
  wp m P s -> (forall x s', P x s' -> Q x s') -> wp m Q s.
Proof. unfold wp. destruct (m s). auto. Qed.

Lemma wp_get (P : EngineState -> EngineState -> Prop) s : P s s -> wp get P s.
Proof. done. Qed.

Lemma wp_row env call spec (P : result StoreError Artifact -> EngineState -> Prop) s :
  P (found (e_fails env call) (artifacts s !! row_of spec)) s -> wp (get_artifact env call spec) P s.
Proof. done. Qed.

(** ** The age policy *)

Section Ages.
Context (parse_http_date : string -> option Z) (format_time : Z -> string) (env : ServeEnv) (spec : FetchSpec).

(** Eviction only takes rows away. *)
Lemma delete_rows_sub victims s : wp (delete_rows env victims) (fun _ s' => artifacts s' ⊆ artifacts s) s.
Proof.
  revert s. induction victims as [|a victims IH]; intros s; cbn [delete_rows]; [by apply wp_ret|].
  destruct (_ || _); [by apply wp_ret|]. apply wp_bind. unfold wp at 1. cbn [with_artifacts].
  eapply wp_mono; [apply IH|]. cbn. intros ? s' Hs'. etrans; [apply Hs'|apply delete_subseteq].
Qed.

Lemma evict_lru_sub rid s : wp (evict_lru format_time env rid) (fun _ s' => artifacts s' ⊆ artifacts s) s.
Proof.
  unfold evict_lru. apply wp_bind, wp_get, wp_bind. eapply wp_mono; [apply delete_rows_sub|]. intros x s' Hs'. by apply wp_ret.
Qed.

Lemma wp_over_cap rid max (P : bool -> EngineState -> Prop) s : (forall b, P b s) -> wp (over_cap env rid max) P s.
Proof. intros H. unfold over_cap. apply wp_bind, wp_get, wp_ret, H. Qed.

Lemma evict_loop_sub rounds rid max s :
  wp (evict_loop format_time env rounds rid max) (fun _ s' => artifacts s' ⊆ artifacts s) s.
Proof.
  revert s. induction rounds as [|rounds IH]; intros s; cbn [evict_loop]; [by apply wp_ret|].
  apply wp_bind. eapply wp_mono; [apply evict_lru_sub|]. intros n s1 H1.
  destruct (match n with Some n => 0 <? n | None => false end); [|by apply wp_ret].
  apply wp_bind, wp_over_cap. intros []; [|by apply wp_ret]. eapply wp_mono; [apply IH|]. intros ? s2 H2. etrans; [exact H2|exact H1].
Qed.

Lemma maybe_evict_sub s : wp (maybe_evict format_time env spec) (fun _ s' => artifacts s' ⊆ artifacts s) s.
Proof.
  unfold maybe_evict. destruct (String.eqb _ _); [by apply wp_ret|]. cbn zeta. destruct (_ <=? 0); [by apply wp_ret|].
  apply wp_bind, wp_over_cap. intros []; [apply evict_loop_sub|by apply wp_ret].
Qed.

(** Computations that leave the artifacts alone. *)
Definition still {A} (m : E A) : Prop := forall s, wp m (fun _ s' => artifacts s' = artifacts s) s.

Lemma still_cool {A} (f : NegCache -> A * NegCache) : still (with_cool f).
Proof. intros s. unfold wp, with_cool. by destruct (f (cool s)). Qed.

Lemma still_neg {A} (f : NegCache -> A * NegCache) : still (with_neg f).
Proof. intros s. unfold wp, with_neg. by destruct (f (neg s)). Qed.

Lemma still_cool_down r : still (cool_down parse_http_date env spec r).
Proof. intros s. unfold cool_down. apply wp_bind. eapply wp_mono; [apply still_cool|]. intros ? s' Hs'. by apply wp_ret. Qed.

(** A blob is served from a row whose age is allowed. *)
Definition aged (r : Response) (s : EngineState) : Prop :=
  forall sha, content r = Blob sha ->
    exists art, artifacts s !! row_of spec = Some art /\ blob_sha256 art = sha /\ eval_age env spec (published_at art) = false.

Lemma not_delivered_aged r s : delivers r = false -> aged r s.
Proof. intros Hd sha Hc. unfold delivers in Hd. rewrite Hc, orb_true_r in Hd. done. Qed.

Lemma wp_not_delivered r s : delivers r = false -> wp (eret r) aged s.
Proof. intros Hd. by apply wp_ret, not_delivered_aged. Qed.

Lemma retry_not_delivered status hint : delivers (write_retry status hint) = false.
Proof.
  unfold write_retry, delivers. cbn. destruct (Z.eqb_spec status 429) as [->|]; [done|].
  by destruct (Z.eqb_spec status 503) as [->|].
Qed.

(** A row keeps its blob and its age when it is touched. *)
Lemma touch_row art s k a :
  artifacts s !! k = Some a ->
  wp (touch env art) (fun _ s' => exists a', artifacts s' !! k = Some a' /\ blob_sha256 a' = blob_sha256 a /\
    published_at a' = published_at a) s.
Proof.
  intros Ha. unfold touch. destruct (_ <? _); [apply wp_ret; eauto|]. destruct (e_fails env TouchRow); [apply wp_ret; eauto|].
  unfold wp. cbn. destruct (decide (k = (repo_of art, path art))) as [->|Hne].
  - rewrite lookup_alter_eq, Ha. cbn. eauto.
  - rewrite lookup_alter_ne by done. eauto.
Qed.

Lemma serve_artifact_blob req art s :
  wp (serve_artifact req art) (fun r s' => s' = s /\ forall sha, content r = Blob sha -> sha = blob_sha256 art) s.
Proof.
  unfold serve_artifact. apply wp_bind, wp_get, wp_ret. split; [done|]. intros sha. destruct (negb _); [done|]. cbn zeta.
  destruct (String.eqb _ _); [done|]. by destruct (method req); intros [= <-].
Qed.

Lemma serve_row_aged req art s :
  artifacts s !! row_of spec = Some art -> eval_age env spec (published_at art) = false -> wp (serve_artifact req art) aged s.
Proof.
  intros Ha He. eapply wp_mono; [apply serve_artifact_blob|]. intros r s' [-> Hb] sha Hc. exists art.
  split_and!; [done| |done]. symmetry. by apply Hb.
Qed.

(** What a fetch leaves: what it stored is of an allowed age, and a fetch that failed
    leaves the rows. *)
Definition fetched (s : EngineState) (out : Flight.FetchOutcome) (s' : EngineState) : Prop :=
  match Flight.kind out with
  | Flight.Stored => forall a, artifacts s' !! row_of spec = Some a -> eval_age env spec (published_at a) = false
  | _ => artifacts s' = artifacts s
  end.

Lemma store_rows r s :
  wp (store_artifact env spec r) (fun stored s' =>
    match stored with
    | Ok art => artifacts s' !! row_of spec = Some art /\ published_at art = u_published r
    | Err _ => artifacts s' = artifacts s
    end) s.
Proof.
  unfold store_artifact. destruct (u_body r) as [[digest n]|f]; [|by apply wp_ret]. destruct (e_fails env PutBlob); [by apply wp_ret|].
  apply wp_bind. unfold wp at 1. cbn [add_blob]. apply wp_bind, wp_get.
  destruct (match _ with Some _ => _ | None => _ end); [by apply wp_ret|]. destruct (e_fails env PutArtifact); [by apply wp_ret|].
  unfold wp. cbn. by rewrite lookup_insert_eq.
Qed.

Context (Hkind : kind spec = KArtifact).

Lemma fetch_with_rows current s : wp (fetch_with parse_http_date format_time env spec current None) (fetched s) s.
Proof.
  unfold fetch_with, upstream_get. apply wp_bind, wp_bind. unfold wp at 1. cbn [note_fetch]. apply wp_ret.
  set (s1 := mkEngine _ _ _ _ _ _ _). destruct (upstream env None) as [f|r]; [by apply wp_ret|]. cbn zeta.
  destruct (u_status r =? 304); [by destruct current; apply wp_ret|]. destruct (u_status r =? 404).
  { apply wp_bind. eapply wp_mono; [apply still_neg|]. intros ? s2 H2. by apply wp_ret. }
  destruct (is_rate_limit _).
  { apply wp_bind. eapply wp_mono; [apply still_cool_down|]. intros d0 s2 H2. by apply wp_ret. }
  destruct (negb _); [by apply wp_ret|]. destruct (eval_age env spec (u_published r)) eqn:Ha; [by apply wp_ret|].
  apply wp_bind. eapply wp_mono; [apply store_rows|]. intros [art|c] s2; [|intros H2; by apply wp_ret]. intros [Hrow Hp].
  rewrite Hkind. cbn [is_metadata]. apply wp_bind, wp_ret, wp_bind. eapply wp_mono; [apply maybe_evict_sub|].
  intros ? s3 Hsub. apply wp_ret. intros a Hl. apply (lookup_weaken _ _ _ _ Hl) in Hsub. rewrite Hrow in Hsub.
  injection Hsub as <-. by rewrite Hp.
Qed.

Lemma fetch_and_store_rows s :
  (forall art, artifacts s !! row_of spec = Some art -> fresh env art (f_cfg spec) (kind spec) = false) ->
  wp (fetch_and_store parse_http_date format_time env spec) (fetched s) s.
Proof.
  intros Hf. unfold fetch_and_store. apply wp_bind, wp_row. unfold found.
  destruct (e_fails env RecheckLookup); [apply fetch_with_rows|].
  destruct (artifacts s !! row_of spec) as [art|] eqn:Hart; [|apply fetch_with_rows].
  rewrite (Hf art eq_refl). apply wp_bind. unfold conditional_for. rewrite Hkind. cbn [is_metadata negb].
  apply wp_ret, fetch_with_rows.
Qed.

Context (Hgate : forall g, final_gate spec = Some g -> refuses g).

(** The final gate leaves the rows, and what it answers delivers nothing. *)
Lemma wp_final_gate (rest : E Response) s :
  (forall s', artifacts s' = artifacts s -> wp rest aged s') ->
  wp (ebind (spec_final_gate spec) (fun answer => match answer with Some r => eret r | None => rest end)) aged s.
Proof.
  intros Hrest. apply wp_bind. unfold wp at 1, spec_final_gate. destruct (final_gate spec) as [g|] eqn:Hg; [|by apply Hrest].
  unfold run_gate. pose proof (Hgate g eq_refl (manager s)) as Hr. destruct (g (manager s)) as [[r|] m]; [|by apply Hrest].
  by apply wp_not_delivered, Hr.
Qed.

Lemma serve_stored_aged req art s : artifacts s !! row_of spec = Some art -> wp (serve_stored env req spec art) aged s.
Proof.
  intros Ha. unfold serve_stored, age_gate. destruct (eval_age env spec (published_at art)) eqn:He; [by apply wp_not_delivered|].
  apply wp_final_gate. intros s1 H1. apply wp_bind. rewrite <- H1 in Ha.
  eapply wp_mono; [by apply (touch_row art)|]. intros ? s2 (a' & Ha' & Hb & Hp).
  eapply wp_mono; [apply serve_artifact_blob|]. intros r s3 [-> Hc] sha Hsha. exists a'. rewrite Hp.
  split_and!; [done| |done]. rewrite Hb. symmetry. by apply Hc.
Qed.

Lemma serve_stale_aged req art s : artifacts s !! row_of spec = Some art -> wp (serve_stale env req spec art) aged s.
Proof.
  intros Ha. unfold serve_stale. apply wp_bind. eapply wp_mono; [by apply serve_stored_aged|].
  intros r s' Hr. apply wp_ret. exact Hr.
Qed.

Lemma take_stale_row stale s art :
  (forall a, stale = Some a -> artifacts s !! row_of spec = Some a) ->
  take_stale env stale (f_cfg spec) (kind spec) = Some art -> artifacts s !! row_of spec = Some art.
Proof.
  intros Hs Ht. unfold take_stale in Ht. destruct stale as [a|]; [|done]. cbn in Ht.
  destruct (within_stale_window _ _ _ _); [|done]. injection Ht as <-. by apply Hs.
Qed.

Lemma answer_outcome_aged req stale out s0 s :
  fetched s0 out s -> (forall art, stale = Some art -> artifacts s0 !! row_of spec = Some art) ->
  wp (answer_outcome env req spec stale out) aged s.
Proof.
  intros Hf Hstale. unfold answer_outcome, fetched, stale_reason in *.
  destruct (Flight.kind out); cbn [mbind option_bind].
  - apply wp_bind, wp_row. unfold found. destruct (e_fails env StoredLookup); [by apply wp_not_delivered|].
    destruct (artifacts s !! row_of spec) as [art|] eqn:Hart; [|by apply wp_not_delivered].
    apply wp_final_gate. intros s1 H1. apply serve_row_aged; [by rewrite H1|by apply Hf].
  - by apply wp_not_delivered.
  - by apply wp_not_delivered.
  - destruct (take_stale _ _ _ _) as [art|] eqn:Ht; [|apply wp_not_delivered, retry_not_delivered].
    apply serve_stale_aged. rewrite Hf. by eapply take_stale_row.
  - destruct (take_stale _ _ _ _) as [art|] eqn:Ht; [|by apply wp_not_delivered].
    apply serve_stale_aged. rewrite Hf. by eapply take_stale_row.
Qed.

Lemma passthrough_aged req s : wp (fetch_passthrough parse_http_date env req spec) aged s.
Proof.
  unfold fetch_passthrough, upstream_get. apply wp_bind, wp_bind. unfold wp at 1. cbn [note_fetch]. apply wp_ret.
  destruct (upstream env None) as [f|r]; [by apply wp_not_delivered|]. cbn zeta.
  destruct (u_status r =? 404); [by apply wp_not_delivered|]. destruct (is_rate_limit _).
  { apply wp_bind. eapply wp_mono; [apply still_cool_down|]. intros d0 s' _. apply wp_not_delivered, retry_not_delivered. }
  destruct (negb _); [by apply wp_not_delivered|]. unfold age_gate.
  destruct (eval_age env spec (u_published r)); [by apply wp_not_delivered|].
  apply wp_final_gate. intros s' _. destruct (method req); by intros sha.
Qed.

Lemma serve_missing_aged req stale s :
  (forall art, artifacts s !! row_of spec = Some art -> fresh env art (f_cfg spec) (kind spec) = false) ->
  (forall art, stale = Some art -> artifacts s !! row_of spec = Some art) ->
  wp (serve_missing parse_http_date format_time env req spec stale) aged s.
Proof.
  intros Hf Hstale. unfold serve_missing. destruct (is_hosted spec); [by apply wp_not_delivered|].
  apply wp_bind. eapply wp_mono; [apply still_neg|]. intros gone s1 H1. rewrite <- H1 in Hf, Hstale. clear H1 s.
  destruct gone; [by apply wp_not_delivered|]. unfold fetch_and_serve. apply wp_bind.
  eapply wp_mono; [apply still_cool|]. intros cooling s2 H2. rewrite <- H2 in Hf, Hstale. clear H2 s1.
  destruct cooling as [d0|].
  { destruct (take_stale _ _ _ _) as [art|] eqn:Ht; [|by apply wp_not_delivered].
    apply serve_stale_aged. by eapply take_stale_row. }
  destruct (negb _); [apply passthrough_aged|]. apply wp_bind. eapply wp_mono; [by apply fetch_and_store_rows|].
  intros out s3 H3. by eapply answer_outcome_aged.
Qed.
End Ages.

(** C5: A blob of an artifact is only ever served for a row whose age the policy
    allows at that moment: on a hit, from an expired entry, after a fetch, and in a
    hosted repository. *)
Theorem served_blob_is_aged parse_http_date format_time env req spec s :
  kind spec = KArtifact -> (forall g, final_gate spec = Some g -> refuses g) ->
  let '(r, s') := serve parse_http_date format_time env req spec s in
  forall sha, content r = Blob sha ->
  exists art, artifacts s' !! row_of spec = Some art /\ blob_sha256 art = sha /\
    (evaluate_age (age_policy (f_cfg spec)) (published_at art) (clock env)).1 <> AgeBlock.
Proof.
  intros Hkind Hgate. cut (wp (serve parse_http_date format_time env req spec) (aged env spec) s).
  { unfold wp. destruct (serve _ _ _ _ _ s) as [r s']. intros Haged sha Hc. destruct (Haged sha Hc) as (art & Ha & Hb & He).
    exists art. split_and!; [done..|]. unfold eval_age in He. by destruct (evaluate_age _ _ _).1. }
  unfold serve. apply wp_bind, wp_row. unfold found. destruct (e_fails env ServeLookup); [by apply wp_not_delivered|].
  destruct (artifacts s !! row_of spec) as [art|] eqn:Hart.
  - destruct (is_hosted spec || fresh env art (f_cfg spec) (kind spec)) eqn:Hf; [by apply serve_stored_aged|].
    apply orb_false_iff in Hf as [_ Hf]. apply serve_missing_aged; [done..| |]; congruence.
  - apply serve_missing_aged; [done..| |]; congruence.
Qed.
