(* ===== verification/UpstreamFacts.v ===== *)
(** * What the engine asks of an upstream (forklift: repo.rs)

    Credentials stay with the host they are for; a rate limit is waited out; an
    expired entry answers only for a failure. *)

From stdpp Require Import prelude list strings pretty gmap sets sorting.
From Stdlib Require Import ZArith Lia Ascii Sorted.
From S2P Require Import Prelude.
From S2P Require Import Strings.
From S2P Require Import RepoConfig.
From S2P Require Import Gates.
From S2P Require Import GateFacts.
From S2P Require Flight.
From S2P Require Import Serving.
From S2P Require Import ServingFacts.

(** ** Redirects *)

Section Redirects.
Context {Url : Type} (host_str : Url -> option string) (port_or_known_default : Url -> option Z).
Context (base64 : string -> string) (header_value : string -> option string) (header_name : string -> option string).
Context (guard_public_url : Url -> result string unit).
Context (respond : Url -> list (string * string) -> result UpstreamFailure (option (result string Url))).

Abbreviation same_host := (same_host host_str port_or_known_default).
Abbreviation follow := (follow host_str port_or_known_default guard_public_url respond).

Lemma same_host_refl u : same_host u u = true.
Proof. unfold Serving.same_host. by rewrite !bool_decide_eq_true_2. Qed.

Lemma same_host_trans a b c : same_host a b = true -> same_host b c = true -> same_host a c = true.
Proof.
  unfold Serving.same_host. rewrite !andb_true_iff, !bool_decide_eq_true. intros [-> ->] [-> ->]. done.
Qed.

(** A header that carries the repository's credentials. *)
Definition credential (custom : option string) (h : string * string) : Prop := h.1 = AUTHORIZATION \/ custom = Some h.1.

Lemma remove_header_spec name h headers : h ∈ remove_header name headers -> h ∈ headers /\ h.1 <> name.
Proof.
  intros Hin%list_elem_of_In%filter_In. destruct Hin as [Hin Hne]. apply negb_true_iff, String.eqb_neq in Hne.
  split; [by apply list_elem_of_In|done].
Qed.

Lemma strip_spec target via headers custom headers' :
  strip_auth_on_cross_host_redirect host_str port_or_known_default target via headers custom = Ok headers' ->
  (length via < MAX_REDIRECTS)%nat /\
  (headers' = headers /\ (exists prev, last via = Some prev /\ same_host target prev = true) \/
   forall h, h ∈ headers' -> ~ credential custom h).
Proof.
  unfold strip_auth_on_cross_host_redirect. destruct (Nat.leb_spec MAX_REDIRECTS (length via)); [done|].
  destruct (last via) as [prev|]; [|done]. destruct (same_host target prev) eqn:Hsame.
  - intros [= <-]. split; [done|]. left. eauto.
  - intros [= <-]. split; [done|]. right. intros h Hin [Ha|Hc].
    + destruct custom as [name|]; [apply remove_header_spec in Hin as [Hin _]|]; by apply remove_header_spec in Hin as [_ ?].
    + subst custom. by apply remove_header_spec in Hin as [_ ?].
Qed.

Lemma follow_spec url0 fuel untrusted custom next headers via :
  (MAX_REDIRECTS < fuel + length via)%nat -> (length via <= MAX_REDIRECTS)%nat ->
  ((exists h, h ∈ headers /\ credential custom h) -> same_host next url0 = true) ->
  let '(sent, r) := follow fuel untrusted custom next headers via in
  is_some r = true /\ (length sent + length via <= S MAX_REDIRECTS)%nat /\
  forall u hs, (u, hs) ∈ sent ->
    (untrusted = true -> guard_public_url u = Ok tt) /\
    ((exists h, h ∈ hs /\ credential custom h) -> same_host u url0 = true).
Proof.
  revert next headers via. induction fuel as [|fuel IH]; intros next headers via Hfuel Hvia Hcred; [lia|].
  cbn [Serving.follow].
  destruct (if untrusted then guard_public_url next else Ok tt) as [[]|] eqn:Hguard.
  2: { cbn. split; [done|]. split; [lia|]. intros u hs Hin. by apply not_elem_of_nil in Hin. }
  assert (Hhere : forall u hs, (u, hs) = (next, headers) ->
    (untrusted = true -> guard_public_url u = Ok tt) /\ ((exists h, h ∈ hs /\ credential custom h) -> same_host u url0 = true)).
  { intros u hs [= -> ->]. split; [by intros ->|done]. }
  assert (Hone : forall u hs, (u, hs) ∈ [(next, headers)] ->
    (untrusted = true -> guard_public_url u = Ok tt) /\ ((exists h, h ∈ hs /\ credential custom h) -> same_host u url0 = true)).
  { intros u hs Hin%list_elem_of_singleton. by apply Hhere. }
  destruct (respond next headers) as [[[target|e]|]|f]; try (split; [done|]; split; [cbn; lia|exact Hone]).
  destruct (strip_auth_on_cross_host_redirect _ _ target (via ++ [next]) headers custom) as [headers'|e] eqn:Hs;
    [|split; [done|]; split; [cbn; lia|exact Hone]].
  apply strip_spec in Hs as [Hlen Hs]. rewrite length_app in Hlen. cbn [length] in Hlen.
  assert (Hcred' : (exists h, h ∈ headers' /\ credential custom h) -> same_host target url0 = true).
  { intros (h & Hin & Hc). destruct Hs as [(-> & prev & Hlast & Hsame)|Hno]; [|by apply (Hno h) in Hin].
    rewrite last_snoc in Hlast. injection Hlast as <-. eapply same_host_trans; [done|]. eauto. }
  specialize (IH target headers' (via ++ [next])). rewrite length_app in IH. cbn [length] in IH.
  specialize (IH ltac:(lia) ltac:(lia) Hcred').
  destruct (follow fuel untrusted custom target headers' (via ++ [next])) as [sent r].
  destruct IH as (Hr & Hl & Hall). split; [done|]. split; [cbn; lia|].
  intros u hs [Hin|Hin]%elem_of_cons; [by apply Hhere|by apply Hall].
Qed.

(** C6: A request to the upstream, however it is redirected, ends after at most
    eleven sends; the repository's credentials only go to the host and port it is
    configured for, and an address that a client supplied is screened at every hop
    and never gets them. *)
Theorem credentials_stay fuel user_agent auth (untrusted : bool) accept conditional url :
  (MAX_REDIRECTS < fuel)%nat ->
  let custom := (new_upstream_request base64 header_value header_name user_agent
                   (if untrusted then default_upstream_auth else auth)).2 in
  let '(sent, r) := follow_upstream host_str port_or_known_default base64 header_value header_name guard_public_url respond
                      fuel user_agent auth untrusted accept conditional url in
  is_some r = true /\ (length sent <= 11)%nat /\
  forall u hs, (u, hs) ∈ sent ->
    ((exists h, h ∈ hs /\ credential custom h) -> same_host u url = true) /\
    (untrusted = true -> guard_public_url u = Ok tt /\ forall v, (AUTHORIZATION, v) ∉ hs).
Proof.
  intros Hfuel. cbn zeta. unfold follow_upstream.
  set (auth' := if untrusted then default_upstream_auth else auth).
  assert (Hno : untrusted = true -> (new_upstream_request base64 header_value header_name user_agent auth') =
    (try_insert USER_AGENT (header_value user_agent) [], None)) by (unfold auth'; by intros ->).
  destruct (new_upstream_request base64 header_value header_name user_agent auth') as [headers custom]. cbn [snd].
  set (hs0 := conditional_headers _ _ _).
  pose proof (follow_spec url fuel untrusted custom url hs0 [] ltac:(cbn; lia) ltac:(cbn; lia) (fun _ => same_host_refl url)) as H.
  destruct (follow fuel untrusted custom url hs0 []) as [sent r] eqn:Hf. destruct H as (Hr & Hl & Hall).
  split; [done|]. split; [unfold MAX_REDIRECTS in Hl; cbn in Hl; lia|]. intros u hs Hin. destruct (Hall u hs Hin) as [Hg Hc]. split; [done|].
  intros ->. split; [by apply Hg|]. specialize (Hno eq_refl). injection Hno as -> ->.
  assert (Hclean : forall v, (AUTHORIZATION, v) ∉ hs0).
  { assert (Hins : forall name value l, name <> AUTHORIZATION -> (forall v, (AUTHORIZATION, v) ∉ l) ->
      forall v, (AUTHORIZATION, v) ∉ try_insert name value l).
    { intros name [w|] l Hname Hl' v; [|apply Hl']. intros [Hi|Hi]%elem_of_app.
      - apply remove_header_spec in Hi as [Hi _]. by apply Hl' in Hi.
      - apply list_elem_of_singleton in Hi. injection Hi as <- _. done. }
    assert (Hh : forall v, (AUTHORIZATION, v) ∉ (if str_is_empty accept then try_insert USER_AGENT (header_value user_agent) []
      else try_insert ACCEPT (header_value accept) (try_insert USER_AGENT (header_value user_agent) []))).
    { destruct (str_is_empty accept); [|apply Hins; [done|]]; (apply Hins; [done|]); intros v; apply not_elem_of_nil. }
    unfold hs0, conditional_headers. destruct conditional as [c|]; [|done].
    destruct (negb _); [by apply Hins|]. destruct (negb _); [by apply Hins|done]. }
  clear -Hf Hin Hclean.
  assert (Hgen : forall fuel next headers via, (forall v, (AUTHORIZATION, v) ∉ headers) ->
    forall u hs, (u, hs) ∈ (follow fuel true None next headers via).1 -> forall v, (AUTHORIZATION, v) ∉ hs).
  { clear. induction fuel as [|fuel IH]; intros next headers via Hh u hs; cbn [Serving.follow]; [by intros Hin%not_elem_of_nil|].
    destruct (guard_public_url next); [|by intros Hin%not_elem_of_nil].
    assert (Hone : (u, hs) ∈ [(next, headers)] -> forall v, (AUTHORIZATION, v) ∉ hs)
      by (intros Hin%list_elem_of_singleton; by injection Hin as -> ->).
    destruct (respond next headers) as [[[target|e]|]|f]; [|exact Hone..].
    unfold strip_auth_on_cross_host_redirect. destruct (_ <=? _)%nat; [exact Hone|]. destruct (last _); [|exact Hone].
    match goal with |- context [if ?b then Ok headers else _] => destruct b end.
    - specialize (IH target headers (via ++ [next]) Hh u hs).
      destruct (follow fuel true None target headers (via ++ [next])) as [sent r].
      intros [Hin|Hin]%elem_of_cons; [by injection Hin as -> ->|by apply IH].
    - specialize (IH target (remove_header AUTHORIZATION headers) (via ++ [next])).
      destruct (follow fuel true None target _ (via ++ [next])) as [sent r].
      intros [Hin|Hin]%elem_of_cons; [by injection Hin as -> ->|]. apply (IH ltac:(intros v Hi%remove_header_spec; by destruct Hi) u hs Hin). }
  intros v. eapply Hgen; [exact Hclean|]. rewrite Hf. exact Hin.
Qed.
End Redirects.

(** ** Cooling down *)

Section Limits.
Context (parse_http_date : string -> option Z).

(** How long a note asks to wait. *)
Definition limit_of (n : FetchNote) : option Z :=
  match n_answer n with
  | Answered r => if is_rate_limit (u_status r) then Some (parse_retry_after parse_http_date (u_retry_after r) (n_time n)) else None
  | Unreachable _ => None
  end.

Lemma parse_retry_after_bounds h now : DEFAULT_UPSTREAM_COOLDOWN <= parse_retry_after parse_http_date h now <= MAX_UPSTREAM_COOLDOWN.
Proof. unfold parse_retry_after, DEFAULT_UPSTREAM_COOLDOWN, MAX_UPSTREAM_COOLDOWN. lia. Qed.

(** After a rate limit no request for its key before it asked for. *)
Definition limits_kept (ns : list FetchNote) : Prop :=
  forall i j a b wait, (i < j)%nat -> ns !! i = Some a -> ns !! j = Some b -> n_key a = n_key b -> limit_of a = Some wait ->
    n_time a + wait <= n_time b.

(** A limit that lasts is in the cache. *)
Definition limits_known (now : Z) (part : NegCache * list FetchNote) : Prop :=
  forall n wait, n ∈ part.2 -> limit_of n = Some wait ->
    n_time n + wait <= now \/ exists exp, part.1 !! n_key n = Some exp /\ n_time n + wait <= exp.

Definition cooling_ok (now : Z) (s : EngineState) : Prop :=
  limits_kept (fetches s) /\ limits_known now (upstream_part s).

(** Nothing is cooling for the key. *)
Definition key_free (now : Z) (key : string) (s : EngineState) : Prop :=
  forall n wait, n ∈ fetches s -> n_key n = key -> limit_of n = Some wait -> n_time n + wait <= now.

Lemma kept_snoc now ns n :
  limits_kept ns -> n_time n = now ->
  (forall m wait, m ∈ ns -> n_key m = n_key n -> limit_of m = Some wait -> n_time m + wait <= now) ->
  limits_kept (ns ++ [n]).
Proof.
  intros Hk Hn Hfree i j a b wait Hij Hi Hj Hkey Hw. pose proof (lookup_lt_Some _ _ _ Hj) as Hlt.
  rewrite length_app in Hlt. cbn in Hlt. rewrite lookup_app_l in Hi by lia.
  destruct (decide (j = length ns)) as [->|Hne].
  - rewrite lookup_app_r, Nat.sub_diag in Hj by lia. injection Hj as <-. rewrite Hn. eapply Hfree; [|done..].
    by eapply list_elem_of_lookup_2.
  - rewrite lookup_app_l in Hj by lia. eauto.
Qed.

(** A computation that keeps the limits. *)
Definition cools (now : Z) {A} (m : E A) : Prop := forall s, cooling_ok now s -> wp m (fun _ s' => cooling_ok now s') s.

Lemma cools_same {A} now (m : E A) : same upstream_part m -> cools now m.
Proof.
  intros Hm s [Hk Hl]. unfold wp. specialize (Hm s). destruct (m s) as [x s']. cbn in Hm. unfold upstream_part in *.
  injection Hm as Hc Hf. unfold cooling_ok, upstream_part. by rewrite Hc, Hf.
Qed.

Lemma cools_bind {A B} now (m : E A) (f : A -> E B) : cools now m -> (forall x, cools now (f x)) -> cools now (ebind m f).
Proof. intros Hm Hf s Hs. apply wp_bind. eapply wp_mono; [by apply Hm|]. intros x s' Hs'. by apply Hf. Qed.

Lemma same_run_gate g : same upstream_part (run_gate g).
Proof. intros s. unfold run_gate. by destruct (g (manager s)). Qed.

Lemma same_final_gate spec : same upstream_part (spec_final_gate spec).
Proof. unfold spec_final_gate. destruct (final_gate spec); [apply same_run_gate|done]. Qed.

Hint Resolve same_run_gate same_final_gate : gates.

Lemma same_serve_stored env req spec art : same upstream_part (serve_stored env req spec art).
Proof. unfold serve_stored. destruct (age_gate _ _ _); same_steps. Qed.

Lemma same_serve_stale env req spec art : same upstream_part (serve_stale env req spec art).
Proof. unfold serve_stale. apply same_bind; [apply same_serve_stored|intros; same_steps]. Qed.

Section Request.
Context (format_time : Z -> string) (env : ServeEnv) (spec : FetchSpec).
Abbreviation now := (clock env).

(** Looking for a limit: none is left, or it still lasts. *)
Lemma remaining_cools s :
  cooling_ok now s ->
  wp (with_cool (neg_remaining (key_of spec) now)) (fun cooling s' => cooling_ok now s' /\
    (cooling = None -> key_free now (key_of spec) s') /\ artifacts s' = artifacts s /\ fetches s' = fetches s /\
    (forall d0, cooling = Some d0 -> exists exp, cool s !! key_of spec = Some exp /\ now < exp)) s.
Proof.
  intros [Hk Hl]. unfold wp, with_cool, neg_remaining.
  destruct (cool s !! key_of spec) as [exp|] eqn:He; [destruct (Z.leb_spec (exp - now) 0)|]; cbn.
  - split_and!; [|intros _| done|done|done].
    + split; [done|]. intros n wait Hin Hw. cbn in Hin. destruct (Hl n wait Hin Hw) as [?|(e & Hc & Hle)]; [by left|].
      cbn in Hc |- *. destruct (decide (n_key n = key_of spec)) as [Heq|Hne].
      * left. rewrite Heq in Hc. rewrite He in Hc. injection Hc as <-. lia.
      * right. exists e. by rewrite lookup_delete_ne.
    + intros n wait Hin Hkey Hw. cbn in Hin. destruct (Hl n wait Hin Hw) as [?|(e & Hc & Hle)]; [done|].
      cbn in Hc. rewrite Hkey, He in Hc. injection Hc as <-. lia.
  - split_and!; [by split|done|done|done|]. intros d0 _. exists exp. split; [done|lia].
  - split_and!; [by split|intros _|done|done|done]. intros n wait Hin Hkey Hw. cbn in Hin.
    destruct (Hl n wait Hin Hw) as [?|(e & Hc & Hle)]; [done|]. cbn in Hc. rewrite Hkey, He in Hc. done.
Qed.

(** One request to the upstream, and the limit it may answer with. *)
Definition note_of (c : option UpstreamValidators) : FetchNote := mkNote now (key_of spec) c (upstream env c).

Definition noted (c : option UpstreamValidators) (s : EngineState) : EngineState :=
  mkEngine (artifacts s) (validators s) (blobs s) (neg s) (cool s) (manager s) (fetches s ++ [note_of c]).

Lemma noted_cools c s :
  cooling_ok now s -> key_free now (key_of spec) s -> limit_of (note_of c) = None -> cooling_ok now (noted c s).
Proof.
  intros [Hk Hl] Hfree Hno. split; cbn.
  - by apply (kept_snoc now); [done|done|intros m wait Hin Hkey; apply Hfree].
  - intros n wait Hin Hw. cbn in Hin. apply elem_of_app in Hin as [Hin|Hin%list_elem_of_singleton]; [by apply (Hl n wait)|].
    subst n. congruence.
Qed.

Lemma limited_cools c r s :
  cooling_ok now s -> key_free now (key_of spec) s -> upstream env c = Answered r -> is_rate_limit (u_status r) = true ->
  wp (cool_down parse_http_date env spec r) (fun _ s' => cooling_ok now s') (noted c s).
Proof.
  intros [Hk Hl] Hfree Hans Hlim. unfold wp, cool_down, ebind, with_cool, neg_set.
  set (wait := parse_retry_after parse_http_date (u_retry_after r) now).
  pose proof (parse_retry_after_bounds (u_retry_after r) now) as Hb. fold wait in Hb. unfold DEFAULT_UPSTREAM_COOLDOWN in Hb.
  destruct (Z.eqb_spec wait 0); [lia|]. cbn. split; cbn.
  - by apply (kept_snoc now); [done|done|intros m w Hin Hkey; apply Hfree].
  - intros n0 w Hin Hw. cbn in Hin |- *. apply elem_of_app in Hin as [Hin|Hin%list_elem_of_singleton].
    + destruct (Hl n0 w Hin Hw) as [?|(e & Hc & Hle)]; [by left|]. cbn in Hc.
      destruct (decide (n_key n0 = key_of spec)) as [Heq|Hne].
      * left. by eapply Hfree.
      * right. exists e. by rewrite lookup_insert_ne.
    + subst n0. right. unfold limit_of, note_of in Hw. cbn in Hw. rewrite Hans, Hlim in Hw. injection Hw as <-. cbn.
      rewrite lookup_insert_eq. eexists. split; [done|]. fold wait. lia.
Qed.

Ltac cool_steps := apply cools_same; same_steps.

Lemma wp_same {A} (m : E A) (P : A -> EngineState -> Prop) s :
  same upstream_part m -> (forall x s', upstream_part s' = upstream_part s -> P x s') -> wp m P s.
Proof. intros Hm HP. unfold wp. specialize (Hm s). destruct (m s) as [x s']. by apply HP. Qed.

Lemma ready_same s s' :
  upstream_part s' = upstream_part s -> cooling_ok now s -> key_free now (key_of spec) s ->
  cooling_ok now s' /\ key_free now (key_of spec) s'.
Proof.
  intros Hp [Hk Hl] Hf. unfold cooling_ok, key_free. rewrite Hp. unfold upstream_part in Hp. injection Hp as _ ->.
  by split_and!.
Qed.

Lemma fetch_with_cools current c s :
  cooling_ok now s -> key_free now (key_of spec) s ->
  wp (fetch_with parse_http_date format_time env spec current c) (fun _ s' => cooling_ok now s') s.
Proof.
  intros Hs Hfree. unfold fetch_with, upstream_get. apply wp_bind, wp_bind. unfold wp at 1. cbn [note_fetch]. apply wp_ret.
  change (mkEngine _ _ _ _ _ _ _) with (noted c s).
  destruct (upstream env c) as [f|r] eqn:Hans.
  { apply wp_ret. apply noted_cools; [done..|]. unfold limit_of, note_of. cbn. by rewrite Hans. }
  cbn zeta. destruct (is_rate_limit (u_status r)) eqn:Hlim.
  - assert (H304 : (u_status r =? 304) = false /\ (u_status r =? 404) = false).
    { unfold is_rate_limit in Hlim. apply orb_true_iff in Hlim as [->%Z.eqb_eq| ->%Z.eqb_eq]; done. }
    destruct H304 as [-> ->]. apply wp_bind. eapply wp_mono; [by eapply limited_cools|]. intros ? s' Hs'. by apply wp_ret.
  - assert (Hn : cooling_ok now (noted c s)).
    { apply noted_cools; [done..|]. unfold limit_of, note_of. cbn. by rewrite Hans, Hlim. }
    revert Hn. generalize (noted c s). intros s1.
    match goal with |- _ -> wp ?m _ _ => cut (cools now m); [intros H; apply H|] end.
    cool_steps. all: apply same_bind; [|intros; same_steps]; same_steps.
Qed.

Lemma fetch_and_store_cools s :
  cooling_ok now s -> key_free now (key_of spec) s ->
  wp (fetch_and_store parse_http_date format_time env spec) (fun _ s' => cooling_ok now s') s.
Proof.
  intros Hs Hfree. unfold fetch_and_store. apply wp_bind, wp_row.
  destruct (found _ _) as [art|]; [|by apply fetch_with_cools]. destruct (fresh _ _ _ _); [by apply wp_ret|].
  apply wp_bind, wp_same; [auto with gates typeclass_instances|]. intros c s' Hp.
  destruct (ready_same s s' Hp Hs Hfree). by apply fetch_with_cools.
Qed.

Lemma serve_stored_cools req art : cools now (serve_stored env req spec art).
Proof. apply cools_same, same_serve_stored. Qed.

Lemma serve_stale_cools req art : cools now (serve_stale env req spec art).
Proof. apply cools_same, same_serve_stale. Qed.

Lemma answer_outcome_cools req stale out : cools now (answer_outcome env req spec stale out).
Proof.
  unfold answer_outcome. destruct (_ ≫= _); [apply serve_stale_cools|]. destruct (Flight.kind out); cool_steps.
Qed.

Lemma passthrough_cools req s :
  cooling_ok now s -> key_free now (key_of spec) s ->
  wp (fetch_passthrough parse_http_date env req spec) (fun _ s' => cooling_ok now s') s.
Proof.
  intros Hs Hfree. unfold fetch_passthrough, upstream_get. apply wp_bind, wp_bind. unfold wp at 1. cbn [note_fetch]. apply wp_ret.
  change (mkEngine _ _ _ _ _ _ _) with (noted None s).
  destruct (upstream env None) as [f|r] eqn:Hans.
  { apply wp_ret. apply noted_cools; [done..|]. unfold limit_of, note_of. cbn. by rewrite Hans. }
  cbn zeta. destruct (is_rate_limit (u_status r)) eqn:Hlim.
  - assert (H404 : (u_status r =? 404) = false).
    { unfold is_rate_limit in Hlim. by apply orb_true_iff in Hlim as [->%Z.eqb_eq| ->%Z.eqb_eq]. }
    rewrite H404. apply wp_bind. eapply wp_mono; [by eapply limited_cools|]. intros ? s' Hs'. by apply wp_ret.
  - assert (Hn : cooling_ok now (noted None s)).
    { apply noted_cools; [done..|]. unfold limit_of, note_of. cbn. by rewrite Hans, Hlim. }
    revert Hn. generalize (noted None s). intros s1.
    match goal with |- _ -> wp ?m _ _ => cut (cools now m); [intros H; apply H|] end.
    cool_steps.
Qed.

Lemma serve_missing_cools req stale : cools now (serve_missing parse_http_date format_time env req spec stale).
Proof.
  unfold serve_missing. destruct (is_hosted spec); [cool_steps|].
  apply cools_bind; [cool_steps|]. intros []; [cool_steps|]. intros s Hs. unfold fetch_and_serve. apply wp_bind.
  eapply wp_mono; [by apply remaining_cools|]. intros [d0|] s1 (H1 & Hfree & _).
  - destruct (take_stale _ _ _ _); [by apply serve_stale_cools|by apply wp_ret].
  - specialize (Hfree eq_refl). destruct (negb _); [by apply passthrough_cools|]. apply wp_bind.
    eapply wp_mono; [by apply fetch_and_store_cools|]. intros out s2 H2. by apply answer_outcome_cools.
Qed.

Lemma serve_cools req : cools now (serve parse_http_date format_time env req spec).
Proof.
  unfold serve. apply cools_bind; [cool_steps|]. intros [art|[]]; [|apply serve_missing_cools|cool_steps].
  destruct (_ || _); [apply serve_stored_cools|apply serve_missing_cools].
Qed.
End Request.

(** Reads one after another, each with its time, its answers and its failures. *)
Definition serves (format_time : Z -> string) (reads : list (ServeEnv * Request * FetchSpec)) (s : EngineState) : EngineState :=
  foldl (fun s '(env, req, spec) => (serve parse_http_date format_time env req spec s).2) s reads.

Lemma cooling_later n n' s : n <= n' -> cooling_ok n s -> cooling_ok n' s.
Proof.
  intros Hn [Hk Hl]. split; [done|]. intros m wait Hin Hw. destruct (Hl m wait Hin Hw) as [?|?]; [left; lia|by right].
Qed.

Lemma serves_cool format_time reads n s :
  cooling_ok n s -> Sorted Z.le (n :: ((fun '(env, _, _) => clock env) <$> reads)) ->
  limits_kept (fetches (serves format_time reads s)).
Proof.
  revert n s. induction reads as [|[[env req] spec] reads IH]; intros n s Hs Hsort; [apply Hs|]. cbn in Hsort.
  unfold serves. cbn [foldl].
  apply Sorted_inv in Hsort as [Hsort Hle]. apply HdRel_inv in Hle. eapply IH; [|done].
  apply (cooling_later _ _ _ Hle) in Hs. pose proof (serve_cools format_time env spec req s Hs) as H. unfold wp in H.
  destruct (serve parse_http_date format_time env req spec s) as [r s1]. exact H.
Qed.

(** C12: Whatever reads come, in whatever order, as long as the clock does not run
    backwards: after the upstream refused a request with 429 or 503 there is no
    further request for the same path until the time it asked for, at least fifteen
    seconds and at most five minutes. *)
Theorem rate_limits_waited_out format_time reads s :
  fetches s = [] -> Sorted Z.le ((fun '(env, _, _) => clock env) <$> reads) ->
  limits_kept (fetches (serves format_time reads s)) /\
  forall n wait, limit_of n = Some wait -> 15 * 10 ^ 9 <= wait <= 300 * 10 ^ 9.
Proof.
  intros Hno Hsort. split.
  - destruct reads as [|[[env req] spec] reads]; [cbn; rewrite Hno; by intros i j a b w _ Hi|].
    apply (serves_cool _ _ (clock env)).
    + split; [rewrite Hno; by intros i j a b w _ Hi|]. intros n w Hin. cbn in Hin. rewrite Hno in Hin. by apply not_elem_of_nil in Hin.
    + cbn in Hsort |- *. constructor; [done|]. constructor. lia.
  - intros n wait Hw. unfold limit_of in Hw. destruct (n_answer n) as [|r]; [done|]. destruct (is_rate_limit _); [|done].
    injection Hw as <-. apply parse_retry_after_bounds.
Qed.
End Limits.

(** ** Expired entries *)

Section Stale.
Context (parse_http_date : string -> option Z) (format_time : Z -> string) (env : ServeEnv) (spec : FetchSpec).
Context (Hgate : forall g, final_gate spec = Some g -> refuses g).

(** The upstream gave neither the artifact nor a decision about it. *)
Definition fetch_failed (n : FetchNote) : Prop :=
  match n_answer n with
  | Unreachable _ => True
  | Answered r => u_status r <> 404 /\ (is_success (u_status r) = true -> eval_age env spec (u_published r) = false)
  end.

(** What a delivered answer from a row is. *)
Definition from_row (art : Artifact) (r : Response) : Prop :=
  delivers r = true -> etag r = quoted (blob_sha256 art) /\ eval_age env spec (published_at art) = false.

Lemma serve_artifact_answer req art s :
  wp (serve_artifact req art) (fun r _ => stale_header r = false /\ (delivers r = true -> etag r = quoted (blob_sha256 art))) s.
Proof.
  unfold serve_artifact. apply wp_bind, wp_get, wp_ret. destruct (negb _); [done|]. cbn zeta.
  destruct (String.eqb _ _); [done|]. by destruct (method req).
Qed.

Lemma wp_gate_answer (rest : E Response) (P : Response -> EngineState -> Prop) s :
  (forall r s', delivers r = false -> P r s') -> (forall s', upstream_part s' = upstream_part s -> wp rest P s') ->
  wp (ebind (spec_final_gate spec) (fun answer => match answer with Some r => eret r | None => rest end)) P s.
Proof.
  intros Hno Hrest. apply wp_bind. unfold wp at 1, spec_final_gate. destruct (final_gate spec) as [g|] eqn:Hg; [|by apply Hrest].
  unfold run_gate. pose proof (Hgate g eq_refl (manager s)) as Hr. destruct (g (manager s)) as [[r|] m]; [|by apply Hrest].
  apply wp_ret, Hno. by apply Hr.
Qed.

Lemma serve_stored_answer req art s :
  wp (serve_stored env req spec art) (fun r _ => from_row art r /\ (delivers r = true -> stale_header r = false)) s.
Proof.
  unfold serve_stored, age_gate, from_row. destruct (eval_age env spec (published_at art)) eqn:He; [by apply wp_ret|].
  apply wp_gate_answer; [by intros r s' ->|]. intros s' _. apply wp_bind, wp_same; [auto with gates typeclass_instances|].
  intros _ s1 _. eapply wp_mono; [apply serve_artifact_answer|]. intros r s2 [Hs Hd]. split; [intros Hdel; by split; [apply Hd|]|done].
Qed.

(** An answer that is marked stale is from the entry that was taken. *)
Definition stale_from (stale : option Artifact) (r : Response) : Prop :=
  delivers r = true -> stale_header r = true ->
  exists art, stale = Some art /\ within_stale_window env art (f_cfg spec) (kind spec) = true /\ from_row art r.

Lemma serve_stale_answer req stale art s :
  take_stale env stale (f_cfg spec) (kind spec) = Some art -> wp (serve_stale env req spec art) (fun r _ => stale_from stale r) s.
Proof.
  intros Ht. unfold serve_stale. apply wp_bind. eapply wp_mono; [apply serve_stored_answer|].
  intros r s' [Hrow _]. apply wp_ret. intros Hd _. unfold take_stale in Ht. destruct stale as [a|]; [|done]. cbn in Ht.
  destruct (within_stale_window _ _ _ _) eqn:Hw; [|done]. injection Ht as <-. exists a. split_and!; [done..|exact Hrow].
Qed.

Lemma fetch_with_answer current c s :
  wp (fetch_with parse_http_date format_time env spec current c)
    (fun out s' => fetches s' = fetches s ++ [note_of env spec c] /\
       (is_some (stale_reason out) = true -> fetch_failed (note_of env spec c))) s.
Proof.
  unfold fetch_with, upstream_get. apply wp_bind, wp_bind. unfold wp at 1. cbn [note_fetch]. apply wp_ret.
  change (mkEngine _ _ _ _ _ _ _) with (noted env spec c s).
  assert (Hnoted : forall s1, upstream_part s1 = upstream_part (noted env spec c s) -> fetches s1 = fetches s ++ [note_of env spec c])
    by (intros s1; unfold upstream_part; by intros [= _ ->]).
  unfold fetch_failed at 1, note_of at 2. cbn [n_answer]. destruct (upstream env c) as [f|r] eqn:Hans; [by apply wp_ret|].
  cbn zeta. destruct (Z.eqb_spec (u_status r) 304) as [H304|].
  { assert (H : u_status r <> 404 /\ (is_success (u_status r) = true -> eval_age env spec (u_published r) = false))
      by (rewrite H304; done).
    destruct current as [art|], c as [v|]; try by apply wp_ret.
    apply wp_same; [auto with gates typeclass_instances|]. intros out s1 Hp. split; [by apply Hnoted|done]. }
  destruct (Z.eqb_spec (u_status r) 404) as [H404|].
  { apply wp_bind, wp_same; [auto with gates typeclass_instances|]. intros ? s1 Hp. apply wp_ret. split; [by apply Hnoted|done]. }
  destruct (is_rate_limit (u_status r)) eqn:Hlim.
  { apply wp_bind. unfold cool_down. apply wp_bind. unfold wp at 1, with_cool. apply wp_ret, wp_ret. split; [done|].
    intros _. split; [done|]. unfold is_rate_limit in Hlim. by apply orb_true_iff in Hlim as [->%Z.eqb_eq| ->%Z.eqb_eq]. }
  destruct (is_success (u_status r)); cbn [negb]; [|by apply wp_ret].
  destruct (eval_age env spec (u_published r)) eqn:Ha; [by apply wp_ret|].
  apply wp_same.
  - same_steps. apply same_bind; [|intros; same_steps]. same_steps.
  - intros out s1 Hp. split; [by apply Hnoted|done].
Qed.

Lemma fetch_and_store_answer s :
  (forall art, artifacts s !! row_of spec = Some art -> fresh env art (f_cfg spec) (kind spec) = false) ->
  wp (fetch_and_store parse_http_date format_time env spec)
    (fun out s' => exists n, fetches s' = fetches s ++ [n] /\ (is_some (stale_reason out) = true -> fetch_failed n)) s.
Proof.
  intros Hf. unfold fetch_and_store. apply wp_bind, wp_row. unfold found.
  assert (Hwith : forall current c s1, fetches s1 = fetches s -> wp (fetch_with parse_http_date format_time env spec current c)
    (fun out s' => exists n, fetches s' = fetches s ++ [n] /\ (is_some (stale_reason out) = true -> fetch_failed n)) s1).
  { intros current c s1 <-. eapply wp_mono; [apply fetch_with_answer|]. intros out s' H. eexists. exact H. }
  destruct (e_fails env RecheckLookup); [by apply Hwith|].
  destruct (artifacts s !! row_of spec) as [art|] eqn:Hart; [|by apply Hwith]. rewrite (Hf art eq_refl).
  apply wp_bind, wp_same; [auto with gates typeclass_instances|]. intros c s1 Hp. apply Hwith.
  unfold upstream_part in Hp. by injection Hp as _ ->.
Qed.

Lemma answer_outcome_stale req stale out s :
  wp (answer_outcome env req spec stale out)
    (fun r s' => fetches s' = fetches s /\ stale_from stale r /\
       (delivers r = true -> stale_header r = true -> is_some (stale_reason out) = true)) s.
Proof.
  assert (Hsame : forall (m : E Response) (P : Response -> Prop), same upstream_part m -> wp m (fun r _ => P r) s ->
    wp m (fun r s' => fetches s' = fetches s /\ P r) s).
  { intros m P Hm HP. unfold wp in *. specialize (Hm s). destruct (m s) as [r s']. cbn in Hm. unfold upstream_part in Hm.
    injection Hm as _ Hm. by split. }
  assert (Hplain : forall r : Response, stale_header r = false -> stale_from stale r /\
    (delivers r = true -> stale_header r = true -> is_some (stale_reason out) = true)) by (intros r Hr; split; intros _; by rewrite Hr).
  unfold answer_outcome. destruct (stale_reason out) as [reason|] eqn:Hreason; cbn [mbind option_bind].
  - destruct (take_stale _ _ _ _) as [art|] eqn:Ht.
    + apply Hsame.
      * apply same_serve_stale.
      * eapply wp_mono; [by apply serve_stale_answer|]. done.
    + destruct (Flight.kind out) eqn:Hk; unfold stale_reason in Hreason; rewrite Hk in Hreason; try done;
        (apply wp_ret; split; [done|by apply Hplain]).
  - destruct (Flight.kind out) eqn:Hk; unfold stale_reason in Hreason; rewrite Hk in Hreason; try done;
      try (apply wp_ret; split; [done|by apply Hplain]).
    apply wp_bind, wp_row. destruct (found _ _) as [art|]; [|apply wp_ret; split; [done|by apply Hplain]].
    apply wp_bind. unfold wp at 1, spec_final_gate.
    assert (Hart : forall s1, fetches s1 = fetches s -> wp (serve_artifact req art) (fun r s' => fetches s' = fetches s /\
      stale_from stale r /\ (delivers r = true -> stale_header r = true -> is_some (@None string) = true)) s1).
    { intros s1 H1. unfold serve_artifact. apply wp_bind, wp_get, wp_ret. split; [done|]. apply Hplain.
      destruct (negb _); [done|]. cbn zeta. destruct (String.eqb _ _); [done|]. by destruct (method req). }
    destruct (final_gate spec) as [g|] eqn:Hg; [|by apply Hart]. unfold run_gate.
    pose proof (Hgate g eq_refl (manager s)) as Hr. destruct (g (manager s)) as [[r|] m]; [|by apply Hart].
    apply wp_ret. split; [done|]. specialize (Hr r eq_refl). split; intros Hd; congruence.
Qed.

(** The upstream is cooling, or was asked just now and failed. *)
Definition upstream_failed (s s' : EngineState) : Prop :=
  (exists exp, cool s !! key_of spec = Some exp /\ clock env < exp) \/
  exists n, fetches s' = fetches s ++ [n] /\ fetch_failed n.

Lemma serve_missing_stale req stale s :
  (forall art, artifacts s !! row_of spec = Some art -> fresh env art (f_cfg spec) (kind spec) = false) ->
  cooling_ok parse_http_date (clock env) s ->
  wp (serve_missing parse_http_date format_time env req spec stale)
    (fun r s' => stale_from stale r /\ (delivers r = true -> stale_header r = true -> upstream_failed s s')) s.
Proof.
  intros Hf Hcool. assert (Hplain : forall (r : Response) s', stale_header r = false -> stale_from stale r /\
    (delivers r = true -> stale_header r = true -> upstream_failed s s')) by (intros r s' Hr; split; intros _; by rewrite Hr).
  unfold serve_missing. destruct (is_hosted spec); [apply wp_ret; by apply Hplain|].
  apply wp_bind. unfold wp at 1, with_neg. destruct (neg_has _ _ (neg s)) as [gone c].
  set (s0 := mkEngine _ _ _ _ _ _ _). destruct gone; [apply wp_ret; by apply Hplain|].
  unfold fetch_and_serve. apply wp_bind. eapply wp_mono; [apply (remaining_cools parse_http_date env spec s0 Hcool)|].
  intros cooling s1 (Hc1 & _ & Hart & Hfe & Hlast). destruct cooling as [d0|].
  { destruct (take_stale _ _ _ _) as [art|] eqn:Ht; [|apply wp_ret; by apply Hplain].
    eapply wp_mono; [by apply serve_stale_answer|]. intros r s2 Hr. split; [exact Hr|]. intros _ _. left. by apply (Hlast d0). }
  destruct (negb (cache_enabled _)).
  { unfold fetch_passthrough, upstream_get. apply wp_bind, wp_bind. unfold wp at 1. cbn [note_fetch]. apply wp_ret.
    destruct (upstream env None) as [f|r]; [apply wp_ret; by apply Hplain|]. cbn zeta.
    destruct (u_status r =? 404); [apply wp_ret; by apply Hplain|]. destruct (is_rate_limit _).
    { apply wp_bind. unfold cool_down. apply wp_bind. unfold wp at 1, with_cool. apply wp_ret, wp_ret. by apply Hplain. }
    destruct (negb _); [apply wp_ret; by apply Hplain|]. unfold age_gate.
    destruct (eval_age env spec (u_published r)); [apply wp_ret; by apply Hplain|].
    apply wp_gate_answer; [intros r0 s' Hr0; split; intros Hd; congruence|].
    intros s' _. destruct (method req); apply wp_ret; by apply Hplain. }
  apply wp_bind. eapply wp_mono; [apply fetch_and_store_answer; by rewrite Hart|].
  intros out s2 (n & Hn & Hfail). eapply wp_mono; [apply answer_outcome_stale|].
  intros r s3 (Hs3 & Hr & Hwhy). split; [done|]. intros Hd Hst. right. exists n. rewrite Hs3, Hn, Hfe. split; [done|]. apply Hfail.
  by apply Hwhy.
Qed.

(** C13: An answer marked stale carries the cached entry of the path, which had
    expired by no more than the window allows and whose age the policy still allows;
    and it is given only while the upstream is cooling down, or right after it could
    not be reached or failed.  A 404 and an age block are never papered over. *)
Theorem stale_is_last_resort req s :
  cooling_ok parse_http_date (clock env) s ->
  let '(r, s') := serve parse_http_date format_time env req spec s in
  delivers r = true -> stale_header r = true ->
  exists art, artifacts s !! row_of spec = Some art /\
    etag r = quoted (blob_sha256 art) /\ eval_age env spec (published_at art) = false /\
    fresh env art (f_cfg spec) (kind spec) = false /\
    clock env - cached_at art < ttl_of (f_cfg spec) (kind spec) + stale_if_error env /\ upstream_failed s s'.
Proof.
  intros Hcool.
  cut (wp (serve parse_http_date format_time env req spec) (fun r s' => delivers r = true -> stale_header r = true ->
    exists art, artifacts s !! row_of spec = Some art /\ fresh env art (f_cfg spec) (kind spec) = false /\
      within_stale_window env art (f_cfg spec) (kind spec) = true /\ from_row art r /\ upstream_failed s s') s).
  { unfold wp. destruct (serve _ _ _ _ _ s) as [r s']. intros H Hd Hst. destruct (H Hd Hst) as (art & Ha & Hf & Hw & Hr & Hu).
    exists art. destruct (Hr Hd) as [He Hage]. unfold within_stale_window in Hw. destruct (_ || _); [done|].
    apply Z.ltb_lt in Hw. by split_and!. }
  unfold serve. apply wp_bind, wp_row. unfold found. destruct (e_fails env ServeLookup); [by apply wp_ret|].
  destruct (artifacts s !! row_of spec) as [art|] eqn:Hart.
  - destruct (is_hosted spec || fresh env art (f_cfg spec) (kind spec)) eqn:Hf.
    + eapply wp_mono; [apply serve_stored_answer|]. intros r s' [_ Hno] Hd Hst. rewrite (Hno Hd) in Hst. done.
    + apply orb_false_iff in Hf as [_ Hf].
      eapply wp_mono; [apply (serve_missing_stale req (Some art) s); [by rewrite Hart; intros ? [= <-]|done]|].
      intros r s' [Hr Hu] Hd Hst. destruct (Hr Hd Hst) as (a & [= <-] & Hw & Hrow). exists art. split_and!; auto.
  - eapply wp_mono; [apply (serve_missing_stale req None s); [by rewrite Hart|done]|].
    intros r s' [Hr _] Hd Hst. by destruct (Hr Hd Hst) as (a & ? & _).
Qed.
End Stale.
