(* ===== verification/Coordinates.v ===== *)
(** * Which package a path is (forklift: repo/maven.rs, repo/npm.rs, repo/cargo.rs,
    repo/gomod.rs, repo/pypi.rs, repo/vulnscan.rs, repo/licensescan.rs, repo/router.rs)

    The gates know a package and a version only from the path of the request.  This
    file has the derivations of the five formats that are scanned, what the scanners
    make of a stored path, and the handlers of Maven, Go and npm tarballs on top of
    [Serving.handle_read]; it shows that the path a client downloads a coordinate
    from is read back as that coordinate. *)

From stdpp Require Import prelude list strings gmap sets.
From Stdlib Require Import ZArith Lia Ascii.
From S2P Require Import Prelude.
From S2P Require Import Strings.
From S2P Require Import RepoConfig.
From S2P Require Import Gates.
From S2P Require Import Serving.

(** ** Strings *)

Definition contains_str (pat s : string) : bool := is_some (split_once_str pat s).
Definition ends_with (x s : string) : bool := is_some (strip_suffix x s).

Definition slash : ascii := "/".
Definition is_slash (c : ascii) : bool := Ascii.eqb c slash.
Definition trim_slashes (s : string) : string := trim_end is_slash (trim_start is_slash s).

Definition path_base (p : string) : string :=
  if str_is_empty p then "."
  else
    let p := trim_end is_slash p in
    if str_is_empty p then "/"
    else match rsplit_once slash p with Some (_, base) => base | None => p end.

(** The last two elements of a list, and those before them. *)
Definition before_last (n : nat) (parts : list string) : list string := take (length parts - n) parts.

(** ** The path of a request (repo/router.rs) *)

Definition route_params (uri : string) : string * string :=
  let after_prefix := match split_once slash (trim_start is_slash uri) with Some (_, rest) => rest | None => EmptyString end in
  match split_once slash after_prefix with
  | Some (name, rest) => (name, trim_start is_slash rest)
  | None => (after_prefix, EmptyString)
  end.

(** What [resolve] makes of a path that [resolve_repo] has cut out. *)
Definition resolve_path (p : string) : result Response string :=
  if contains_str ".." p || str_is_empty p then Err (http_error 400 "invalid path") else Ok p.

Definition join_upstream (base p : string) : string := trim_end is_slash base +:+ "/" +:+ trim_start is_slash p.

(** ** Maven *)

Definition METADATA_XML : string := "maven-metadata.xml".

Definition maven_kind (p : string) : Kind := if starts_with METADATA_XML (path_base p) then KMetadata else KArtifact.

Definition maven_version (p : string) : string :=
  match maven_kind p with
  | KMetadata => EmptyString
  | KArtifact =>
      let parts := split_on slash p in
      if (2 <=? length parts)%nat then default EmptyString (parts !! (length parts - 2)%nat) else EmptyString
  end.

(** The segments of the group and the artifact, [None] where too few are left. *)
Definition maven_parts (p : string) : option (list string) :=
  let parts := split_on slash (trim_slashes p) in
  if starts_with METADATA_XML (path_base p) then
    let parts := before_last 1 parts in
    Some (match last parts with Some s => if ends_with "-SNAPSHOT" s then before_last 1 parts else parts | None => parts end)
  else if (2 <=? length parts)%nat then Some (before_last 2 parts)
  else None.

Definition maven_package (p : string) : string :=
  match maven_parts p with
  | None => EmptyString
  | Some parts =>
      match last parts with
      | Some artifact =>
          if (length parts <? 2)%nat then EmptyString
          else str_join "." (before_last 1 parts) +:+ ":" +:+ artifact
      | None => EmptyString
      end
  end.

Definition has_ending (endings : list string) (p : string) : bool := existsb (fun x => ends_with x p) endings.

Definition maven_content_type (p : string) : string :=
  if has_ending [".xml"; ".pom"] p then "application/xml"
  else if has_ending [".jar"; ".war"] p then "application/java-archive"
  else if has_ending [".module"; ".json"] p then "application/json"
  else if has_ending [".sha1"; ".md5"; ".sha256"; ".sha512"] p then "text/plain"
  else "application/octet-stream".

(** ** Go *)

Definition VERSIONS : string := "/@v/".
Definition LATEST : string := "/@latest".

Definition go_kind (p : string) : Kind := if has_ending ["/@v/list"; LATEST; ".info"] p then KMetadata else KArtifact.

Definition go_package (p : string) : string :=
  match split_once_str VERSIONS p with
  | Some (before, _) => before
  | None => default EmptyString (strip_suffix LATEST p)
  end.

Definition go_version (p : string) : string :=
  match split_once_str VERSIONS p with
  | None => EmptyString
  | Some (_, rest) => default EmptyString (find_map (fun ext => strip_suffix ext rest) [".info"; ".mod"; ".zip"])
  end.

Definition go_content_type (p : string) : string :=
  if has_ending [".info"; LATEST] p then "application/json"
  else if ends_with ".mod" p then "text/plain; charset=utf-8"
  else if ends_with ".zip" p then "application/zip"
  else "text/plain; charset=utf-8".

Section Coordinates.
(** [str::to_lowercase], [char::to_lowercase] of every character, and the crate that
    decodes [%] escapes into UTF-8. *)
Context (to_lowercase lower_chars : string -> string) (percent_decode : string -> option string).

(** ** Cargo *)

Definition CRATES : string := "api/v1/crates/".

Definition cargo_kind (p : string) : Kind := if contains_str CRATES p && ends_with "/download" p then KArtifact else KMetadata.

Definition cargo_download_crate (p : string) : string :=
  match split_once_str CRATES p with
  | Some (_, after) => default EmptyString (head (split_on slash after))
  | None => EmptyString
  end.

Definition cargo_version (p : string) : string :=
  match split_once_str CRATES p with
  | Some (_, after) =>
      match split_on slash (default after (strip_suffix "/download" after)) with
      | [_; version] => version
      | _ => EmptyString
      end
  | None => EmptyString
  end.

Definition cargo_package (p : string) : string :=
  if String.eqb p "config.json" then EmptyString
  else match split_once_str CRATES p with
  | Some (_, after) => to_lowercase (match split_once slash after with Some (name, _) => name | None => after end)
  | None => to_lowercase (path_base p)
  end.

Definition cargo_content_type (p : string) : string :=
  match cargo_kind p with KArtifact => "application/gzip" | KMetadata => "text/plain; charset=utf-8" end.

(** ** npm *)

Definition TARBALL : string := "/-/".

Definition decode_npm_path (p : string) : string := default p (percent_decode p).

Definition npm_package (p : string) : string :=
  let p := match split_once_str TARBALL p with Some (before, _) => before | None => p end in
  to_lowercase (trim_slashes (decode_npm_path p)).

Definition npm_version (p : string) : string :=
  if negb (contains_str TARBALL p) then EmptyString
  else
    let file := to_lowercase (path_base p) in
    match strip_suffix ".tgz" file with
    | None => EmptyString
    | Some stem => default EmptyString (strip_prefix (path_base (npm_package p) +:+ "-") stem)
    end.

(** ** PyPI *)

(** Runs of separators become one dash; the others are lowered. *)
Fixpoint collapse (in_run : bool) (s : string) : string :=
  match s with
  | EmptyString => EmptyString
  | String c s =>
      if existsb (Ascii.eqb c) ["-"; "_"; "."]%char
      then if in_run then collapse true s else String "-" (collapse true s)
      else String c (collapse false s)
  end.

Definition normalize_pypi (name : string) : string := lower_chars (collapse false name).

Definition dash : ascii := "-".
Definition sdist_stem (f : string) : option string :=
  match strip_suffix ".tar.gz" f with Some stem => Some stem | None => strip_suffix ".zip" f end.

(** A distribution that is not the metadata of another. *)
Definition pypi_package_of_file (f : string) : string :=
  match strip_suffix ".whl" f with
  | Some stem => match split_once dash stem with Some (name, _) => normalize_pypi name | None => EmptyString end
  | None =>
      match sdist_stem f ≫= rsplit_once dash with
      | Some (name, _) => if str_is_empty name then EmptyString else normalize_pypi name
      | None => EmptyString
      end
  end.

(** [None] when the fuel is out. *)
Fixpoint pypi_package_fuel (fuel : nat) (f : string) : option string :=
  match fuel with
  | O => None
  | S fuel =>
      match strip_suffix ".metadata" f with
      | Some before => pypi_package_fuel fuel before
      | None => Some (pypi_package_of_file f)
      end
  end.

Definition pypi_package_from_filename (f : string) : string := default EmptyString (pypi_package_fuel (S (String.length f)) f).

Definition pypi_version (f : string) : string :=
  match strip_suffix ".whl" f with
  | Some stem => default EmptyString (split_on dash stem !! 1%nat)
  | None => match sdist_stem f ≫= rsplit_once dash with Some (_, version) => version | None => EmptyString end
  end.

(** The version the gates of [pypi_file] look at: the metadata file of a
    distribution (PEP 658) is gated as the distribution. *)
Definition pypi_gate_version (f : string) : string := pypi_version (default f (strip_suffix ".metadata" f)).

(** ** What the scanners make of a stored path *)

Definition package_for_path (format p : string) : option string :=
  if String.eqb format FORMAT_MAVEN then Some (maven_package p)
  else if String.eqb format FORMAT_NPM then Some (npm_package p)
  else if String.eqb format FORMAT_CARGO then Some (cargo_package p)
  else if String.eqb format FORMAT_GO then Some (go_package p)
  else if String.eqb format FORMAT_PYPI then Some (pypi_package_from_filename (path_base p))
  else None.

Definition version_for_path (format p : string) : string :=
  if String.eqb format FORMAT_MAVEN then maven_version p
  else if String.eqb format FORMAT_NPM then npm_version p
  else if String.eqb format FORMAT_CARGO then cargo_version p
  else if String.eqb format FORMAT_GO then go_version p
  else if String.eqb format FORMAT_PYPI then pypi_version (path_base p)
  else EmptyString.

Definition vuln_coordinate (format p : string) : string * string :=
  let eco := osv_ecosystem format in
  if str_is_empty eco then (EmptyString, EmptyString)
  else match package_for_path format p with Some pkg => (eco, pkg) | None => (EmptyString, EmptyString) end.

Definition license_coordinate (format p : string) : string * string :=
  let system := deps_dev_system format in
  if str_is_empty system then (EmptyString, EmptyString)
  else match package_for_path format p with Some pkg => (system, pkg) | None => (EmptyString, EmptyString) end.

Definition scan_stored (env : GateEnv) (r : Repository) (p : string) : M unit :=
  if negb (has_scanner env) then ret tt
  else
    let '(eco, pkg) := vuln_coordinate (repo_format r) p in
    if str_is_empty pkg then ret tt
    else
      let version := version_for_path (repo_format r) p in
      if str_is_empty version then ret tt else enqueue_scan env eco pkg version.

Definition resolve_stored (env : GateEnv) (r : Repository) (p : string) : M unit :=
  if negb (has_resolver env) then ret tt
  else
    let '(system, pkg) := license_coordinate (repo_format r) p in
    if str_is_empty pkg then ret tt
    else
      let version := version_for_path (repo_format r) p in
      if str_is_empty version then ret tt else enqueue_resolve env system pkg version.

(** ** The handlers *)

Section Handlers.
Context (parse_http_date : string -> option Z) (format_time : Z -> string) (glob_match : string -> string -> bool).
Context (env : ServeEnv) (genv : GateEnv) (req : Request) (res : Resolved) (base : string).

(** A read through the gates and the engine; [base] is the upstream of the
    repository. *)
Definition read_as (k : Kind) (content_type pkg version p : string) : E Response :=
  handle_read parse_http_date format_time env glob_match to_lowercase genv req res pkg
    (mkFetchSpec (repo res) (cfg res) p (join_upstream base p) k version content_type None).

Definition handle_maven (p : string) : E Response :=
  match resolve_path p with
  | Err r => eret r
  | Ok p => read_as (maven_kind p) (maven_content_type p) (maven_package p) (maven_version p) p
  end.

Definition handle_go (p : string) : E Response :=
  match resolve_path p with
  | Err r => eret r
  | Ok p => read_as (go_kind p) (go_content_type p) (go_package p) (go_version p) p
  end.

(** [handle_npm] on the path of a tarball. *)
Definition handle_npm_tarball (p : string) : E Response :=
  match resolve_path p with
  | Err r => eret r
  | Ok p =>
      let p := decode_npm_path p in
      if contains_str ".." p then eret (http_error 400 "invalid path")
      else read_as KArtifact "application/octet-stream" (npm_package p) (npm_version p) p
  end.
End Handlers.
End Coordinates.
