(* ===== verification/CoordinateFacts.v ===== *)
(** * Paths are read back as the coordinates they were built from

    The canonical path of a coordinate in each of the scanned formats, and what the
    gates and the scanners make of it: the coordinate.  A version that is denied is
    therefore not delivered from its path. *)

From stdpp Require Import prelude list strings gmap sets.
From Stdlib Require Import ZArith Lia Ascii.
From S2P Require Import Prelude.
From S2P Require Import Strings.
From S2P Require Import RepoConfig.
From S2P Require Import Gates.
From S2P Require Import GateFacts.
From S2P Require Import Serving.
From S2P Require Import ServingFacts.
From S2P Require Import Coordinates.

(** ** Strings *)

Definition free_of (c : ascii) (s : string) : bool := str_all (fun a => negb (Ascii.eqb a c)) s.

Definition last_byte (s : string) : option ascii := last (String.list_ascii_of_string s).

Lemma last_byte_app a b c : last_byte b = Some c -> last_byte (a +:+ b) = Some c.
Proof.
  unfold last_byte. induction a as [|x a IH]; intros H; [done|]. specialize (IH H).
  change (String x a +:+ b) with (String x (a +:+ b)). cbn [String.list_ascii_of_string].
  destruct (String.list_ascii_of_string (a +:+ b)); [done|]. exact IH.
Qed.

(** A string does not end with what ends in another byte. *)
Lemma no_suffix x y s c d : last_byte x = Some c -> last_byte y = Some d -> c <> d -> strip_suffix x (s +:+ y) = None.
Proof.
  intros Hx Hy Hne. destruct (strip_suffix x (s +:+ y)) as [r|] eqn:Hs; [|done]. apply strip_suffix_Some in Hs.
  apply (last_byte_app s) in Hy. apply (last_byte_app r) in Hx. congruence.
Qed.

Lemma free_app c a b : free_of c (a +:+ b) = free_of c a && free_of c b.
Proof. apply str_all_app. Qed.

Lemma rsplit_once_none c s : free_of c s = true -> rsplit_once c s = None.
Proof.
  unfold free_of. induction s as [|a s IH]; cbn; [done|]. intros [Ha%negb_true_iff Hs]%andb_true_iff. by rewrite (IH Hs), Ha.
Qed.

Lemma rsplit_once_last c a b : free_of c b = true -> rsplit_once c (a +:+ String c b) = Some (a, b).
Proof.
  intros Hb. induction a as [|x a IH].
  - change (EmptyString +:+ ?s) with s. cbn. by rewrite (rsplit_once_none c b Hb), Ascii.eqb_refl.
  - change (String x a +:+ String c b) with (String x (a +:+ String c b)). cbn. by rewrite IH.
Qed.

Lemma split_once_first c a b : free_of c a = true -> split_once c (a +:+ String c b) = Some (a, b).
Proof.
  unfold free_of. induction a as [|x a IH]; intros Ha.
  - change (EmptyString +:+ ?s) with s. cbn. by rewrite Ascii.eqb_refl.
  - change (String x a +:+ String c b) with (String x (a +:+ String c b)). cbn in *.
    apply andb_true_iff in Ha as [Hx%negb_true_iff Ha]. by rewrite Hx, (IH Ha).
Qed.

(** ** Segments *)

Definition segment (s : string) : bool := negb (str_is_empty s) && free_of slash s.

Lemma str_app_nil s : s +:+ EmptyString = s.
Proof. induction s as [|c s IH]; [done|]. change (String c s +:+ EmptyString) with (String c (s +:+ EmptyString)). by rewrite IH. Qed.

Lemma segment_free s : segment s = true -> free_of slash s = true.
Proof. by intros [_ H]%andb_true_iff. Qed.

Lemma trim_end_free s : free_of slash s = true -> trim_end is_slash s = s.
Proof.
  unfold free_of, is_slash. induction s as [|c s IH]; cbn; [done|]. intros [Hc%negb_true_iff Hs]%andb_true_iff.
  rewrite (IH Hs). destruct s; [by rewrite Hc|done].
Qed.

Lemma trim_end_segment a f : segment f = true -> trim_end is_slash (a +:+ f) = a +:+ f.
Proof.
  intros Hf. assert (Hne : f <> EmptyString) by (intros ->; done). apply segment_free, trim_end_free in Hf.
  induction a as [|c a IH]; [done|]. change (String c a +:+ f) with (String c (a +:+ f)). cbn. rewrite IH.
  destruct (a +:+ f) eqn:Haf; [|done]. by destruct a, f.
Qed.

Lemma trim_start_segment f b : segment f = true -> trim_start is_slash (f +:+ b) = f +:+ b.
Proof.
  destruct f as [|c f]; [done|]. unfold segment, free_of, is_slash. cbn. intros [Hc%negb_true_iff _]%andb_true_iff.
  change (String c f +:+ b) with (String c (f +:+ b)). cbn. by rewrite Hc.
Qed.

Lemma path_base_last a f : segment f = true -> path_base (a +:+ String slash f) = f.
Proof.
  intros Hf. unfold path_base. replace (str_is_empty (a +:+ String slash f)) with false by (by destruct a).
  pose proof (trim_end_segment (a +:+ String slash EmptyString) f Hf) as Ht. rewrite str_app_assoc in Ht.
  change (String slash EmptyString +:+ f) with (String slash f) in Ht. rewrite Ht.
  replace (str_is_empty (a +:+ String slash f)) with false by (by destruct a).
  by rewrite (rsplit_once_last _ _ _ (segment_free _ Hf)).
Qed.

Lemma path_base_only f : segment f = true -> path_base f = f.
Proof.
  intros Hf. unfold path_base. assert (Hne : str_is_empty f = false) by (by destruct f).
  rewrite Hne, trim_end_free by (by apply segment_free). by rewrite Hne, (rsplit_once_none _ _ (segment_free _ Hf)).
Qed.

(** Segments joined by slashes. *)
Definition join_path (l : list string) : string := str_join (String slash EmptyString) l.

Lemma join_path_snoc l f : l <> [] -> join_path (l ++ [f]) = join_path l +:+ String slash f.
Proof.
  intros Hne. unfold join_path. induction l as [|w l IH]; [done|]. destruct l as [|w' l]; [done|].
  change (w +:+ String slash EmptyString +:+ str_join (String slash EmptyString) ((w' :: l) ++ [f]) =
          (w +:+ String slash EmptyString +:+ str_join (String slash EmptyString) (w' :: l)) +:+ String slash f).
  rewrite IH by done. by rewrite !str_app_assoc.
Qed.

Lemma path_base_join l f : segment f = true -> path_base (join_path (l ++ [f])) = f.
Proof.
  intros Hf. destruct (decide (l = [])) as [->|Hne]; [by apply path_base_only|]. rewrite join_path_snoc by done. by apply path_base_last.
Qed.

Lemma split_join_path l : l <> [] -> Forall (fun s => segment s = true) l -> split_on slash (join_path l) = l.
Proof. intros Hne Hl. apply split_join; [done|]. eapply Forall_impl; [done|]. intros s. apply segment_free. Qed.

Lemma trim_join_path l : l <> [] -> Forall (fun s => segment s = true) l -> trim_slashes (join_path l) = join_path l.
Proof.
  intros Hne Hl. unfold trim_slashes.
  assert (Hs : trim_start is_slash (join_path l) = join_path l).
  { destruct l as [|w l]; [done|]. apply Forall_cons in Hl as [Hw _]. unfold join_path. destruct l.
    - pose proof (trim_start_segment w EmptyString Hw) as H. by rewrite str_app_nil in H.
    - exact (trim_start_segment w _ Hw). }
  rewrite Hs. destruct (exists_last Hne) as (l' & f & ->). apply Forall_app in Hl as [_ Hf]. apply Forall_cons in Hf as [Hf _].
  destruct (decide (l' = [])) as [->|Hne']; [exact (trim_end_free f (segment_free f Hf))|].
  rewrite join_path_snoc by done. change (String slash f) with (String slash EmptyString +:+ f).
  rewrite <- str_app_assoc. by apply trim_end_segment.
Qed.

(** ** The first occurrence of a string *)

Lemma split_once_str_eq pat s :
  split_once_str pat s =
  match strip_prefix pat s with
  | Some rest => Some (EmptyString, rest)
  | None =>
      match s with
      | EmptyString => None
      | String c s => match split_once_str pat s with Some (before, rest) => Some (String c before, rest) | None => None end
      end
  end.
Proof. by destruct s. Qed.

(** A byte of the string that is not that of the pattern. *)
Lemma strip_prefix_other a b p s : Ascii.eqb b a = false -> strip_prefix (String a p) (String b s) = None.
Proof. intros H. cbn. by rewrite Ascii.eqb_sym, H. Qed.

Lemma strip_prefix_second a b c p s : Ascii.eqb c b = false -> strip_prefix (String a (String b p)) (String a (String c s)) = None.
Proof. intros H. cbn [strip_prefix]. by rewrite Ascii.eqb_refl, Ascii.eqb_sym, H. Qed.

Lemma strip_prefix_third a b c d p s :
  Ascii.eqb d c = false -> strip_prefix (String a (String b (String c p))) (String a (String b (String d s))) = None.
Proof. intros H. cbn [strip_prefix]. by rewrite !Ascii.eqb_refl, Ascii.eqb_sym, H. Qed.

Lemma split_here pat rest : split_once_str pat (pat +:+ rest) = Some (EmptyString, rest).
Proof. by rewrite split_once_str_eq, strip_prefix_app. Qed.

(** Bytes before which no occurrence begins. *)
Lemma split_skip c p a x before rest :
  free_of c a = true -> split_once_str (String c p) x = Some (before, rest) ->
  split_once_str (String c p) (a +:+ x) = Some (a +:+ before, rest).
Proof.
  unfold free_of. induction a as [|y a IH]; intros Ha Hx; [done|]. cbn in Ha. apply andb_true_iff in Ha as [Hy%negb_true_iff Ha].
  change (String y a +:+ ?s) with (String y (a +:+ s)). rewrite split_once_str_eq.
  replace (strip_prefix (String c p) (String y (a +:+ x))) with (@None string).
  - by rewrite (IH Ha Hx).
  - symmetry. by apply strip_prefix_other.
Qed.

(** ** Lower case and escapes *)

Definition is_ascii (c : ascii) : bool := (N_of_ascii c <? 128)%N.

Class CaseLaws (to_lowercase : string -> string) : Prop :=
  lower_ascii s : str_all is_ascii s = true -> to_lowercase s = str_map to_ascii_lowercase s.

Class DecodeLaws (percent_decode : string -> option string) : Prop :=
  decode_plain s : str_all is_ascii s = true -> free_of "%" s = true -> percent_decode s = Some s.

Abbreviation lower := (str_map to_ascii_lowercase).

Lemma str_map_app f a b : str_map f (a +:+ b) = str_map f a +:+ str_map f b.
Proof.
  induction a as [|c a IH]; [done|]. change (String c a +:+ b) with (String c (a +:+ b)). cbn [str_map]. by rewrite IH.
Qed.

Lemma lower_slash c : Ascii.eqb (to_ascii_lowercase c) slash = Ascii.eqb c slash.
Proof. by destruct c as [[] [] [] [] [] [] [] []]. Qed.

Lemma lower_segment s : segment s = true -> segment (lower s) = true.
Proof.
  unfold segment, free_of. intros [Hne Hs]%andb_true_iff. apply andb_true_iff. split; [by destruct s|]. clear Hne.
  induction s as [|c s IH]; [done|]. cbn in *. apply andb_true_iff in Hs as [Hc Hs]. by rewrite lower_slash, Hc, IH.
Qed.

(** A segment that is not changed on its way. *)
Definition plain (s : string) : bool := segment s && str_all is_ascii s && free_of "%" s.

Lemma plain_spec s : plain s = true <-> segment s = true /\ str_all is_ascii s = true /\ free_of "%" s = true.
Proof. unfold plain. rewrite !andb_true_iff. tauto. Qed.

(** ** Parts of paths *)

Lemma maven_coordinate group artifact version file :
  group <> [] -> Forall (fun s => segment s = true) (group ++ [artifact; version; file]) ->
  starts_with METADATA_XML file = false ->
  let p := join_path (group ++ [artifact; version; file]) in
  maven_package p = str_join "." group +:+ ":" +:+ artifact /\ maven_version p = version.
Proof.
  intros Hg Hall Hx. cbn zeta. set (l := group ++ [artifact; version; file]) in *.
  assert (Hne : l <> []) by (unfold l; by destruct group).
  assert (Hfile : segment file = true) by (rewrite Forall_forall in Hall; apply Hall; unfold l; set_solver).
  assert (Hbase : path_base (join_path l) = file).
  { unfold l. change [artifact; version; file] with ([artifact; version] ++ [file]). rewrite app_assoc. by apply path_base_join. }
  assert (Hlen : length l = (length group + 3)%nat) by (unfold l; rewrite length_app; cbn; lia).
  assert (Htake : before_last 2 l = group ++ [artifact]).
  { unfold before_last. rewrite Hlen. unfold l. change [artifact; version; file] with ([artifact] ++ [version; file]).
    rewrite app_assoc. apply take_app_length'. rewrite length_app. cbn. lia. }
  split.
  - unfold maven_package, maven_parts. rewrite trim_join_path, split_join_path, Hbase, Hx, Hlen by done.
    replace (2 <=? length group + 3)%nat with true by (symmetry; apply Nat.leb_le; lia). rewrite Htake, last_snoc.
    rewrite length_app. replace (length group + length [artifact] <? 2)%nat with false.
    2: { symmetry. apply Nat.ltb_ge. destruct group; [done|]. cbn. lia. }
    unfold before_last. rewrite length_app. cbn [length]. rewrite Nat.add_sub. by rewrite take_app_length.
  - unfold maven_version, maven_kind. rewrite Hbase, Hx, split_join_path, Hlen by done.
    replace (2 <=? length group + 3)%nat with true by (symmetry; apply Nat.leb_le; lia).
    unfold l. rewrite lookup_app_r by lia. by replace (length group + 3 - 2 - length group)%nat with 1%nat by lia.
Qed.

Lemma versions_here module rest : free_of "@" module = true -> split_once_str VERSIONS (module +:+ VERSIONS +:+ rest) = Some (module, rest).
Proof.
  intros Hm. induction module as [|c m IH]; [exact (split_here VERSIONS rest)|].
  unfold free_of in *. cbn [str_all] in Hm. apply andb_true_iff in Hm as [Hc%negb_true_iff Hm].
  change (String c m +:+ ?s) with (String c (m +:+ s)). rewrite split_once_str_eq.
  replace (strip_prefix VERSIONS (String c (m +:+ VERSIONS +:+ rest))) with (@None string); [by rewrite IH|].
  symmetry. unfold VERSIONS at 1. destruct (Ascii.eqb_spec c slash) as [->|Hs]; [|by apply strip_prefix_other, Ascii.eqb_neq].
  destruct m as [|b m]; [done|]. cbn [str_all] in Hm. apply andb_true_iff in Hm as [Hb%negb_true_iff _].
  change (String b m +:+ ?s) with (String b (m +:+ s)). by apply strip_prefix_second.
Qed.

Lemma go_coordinate module version ext :
  free_of "@" module = true -> ext ∈ [".info"; ".mod"; ".zip"] ->
  let p := module +:+ VERSIONS +:+ version +:+ ext in
  go_package p = module /\ go_version p = version.
Proof.
  intros Hm Hext. cbn zeta. unfold go_package, go_version. rewrite versions_here by done. split; [done|].
  assert (Hother : forall x y c d, last_byte x = Some c -> last_byte y = Some d -> c <> d -> strip_suffix x (version +:+ y) = None)
    by (intros; by eapply no_suffix).
  cbn [find_map]. repeat (apply elem_of_cons in Hext as [->|Hext]); [..|by apply not_elem_of_nil in Hext].
  - by rewrite strip_suffix_app.
  - by rewrite (Hother ".info" ".mod" "o"%char "d"%char), strip_suffix_app.
  - by rewrite (Hother ".info" ".zip" "o"%char "p"%char), (Hother ".mod" ".zip" "d"%char "p"%char), strip_suffix_app.
Qed.

Lemma plain_join scope name :
  (length scope <= 1)%nat -> Forall (fun s => plain s = true) (scope ++ [name]) ->
  str_all is_ascii (join_path (scope ++ [name])) = true /\ free_of "%" (join_path (scope ++ [name])) = true /\
  lower (join_path (scope ++ [name])) = join_path (lower <$> scope ++ [name]).
Proof.
  intros Hl Hall. destruct scope as [|sc [|]]; [..|cbn in Hl; lia]; cbn [app] in Hall.
  - apply Forall_cons in Hall as [(_ & Ha & Hf)%plain_spec _]. done.
  - apply Forall_cons in Hall as [(_ & Ha & Hf)%plain_spec Hall]. apply Forall_cons in Hall as [(_ & Ha' & Hf')%plain_spec _]. unfold join_path. cbn [app str_join].
    unfold free_of in *. rewrite !str_all_app, Ha, Ha', Hf, Hf', !str_map_app. done.
Qed.

(** A name does not hide the separator. *)
Lemma tarball_here scope name rest :
  (length scope <= 1)%nat -> Forall (fun s => segment s = true) (scope ++ [name]) -> name <> "-" ->
  split_once_str TARBALL (join_path (scope ++ [name]) +:+ TARBALL +:+ rest) = Some (join_path (scope ++ [name]), rest).
Proof.
  intros Hl Hall Hdash.
  assert (Hname : segment name = true) by (rewrite Forall_forall in Hall; apply Hall; set_solver).
  assert (H0 : split_once_str TARBALL (name +:+ TARBALL +:+ rest) = Some (name, rest)).
  { rewrite <- (str_app_nil name) at 2. apply (split_skip slash "-/"); [by apply segment_free|exact (split_here TARBALL rest)]. }
  destruct scope as [|sc [|]]; [exact H0| |cbn in Hl; lia].
  cbn [app] in Hall. apply Forall_cons in Hall as [Hsc _]. unfold join_path. cbn [app str_join].
  rewrite !str_app_assoc. apply (split_skip slash "-/"); [by apply segment_free|].
  change (String slash EmptyString +:+ ?s) with (String slash s). change (String slash "-/") with TARBALL. rewrite split_once_str_eq.
  replace (strip_prefix TARBALL (String slash (name +:+ TARBALL +:+ rest))) with (@None string); [by rewrite H0|].
  symmetry. unfold TARBALL at 1. destruct name as [|a name]; [done|].
  change (String a name +:+ ?s) with (String a (name +:+ s)).
  destruct (Ascii.eqb_spec a dash) as [->|Ha]; [|by apply strip_prefix_second, Ascii.eqb_neq].
  destruct name as [|b name]; [done|]. change (String b name +:+ ?s) with (String b (name +:+ s)).
  apply segment_free in Hname. unfold free_of in Hname. cbn [str_all] in Hname.
  apply andb_true_iff in Hname as [_ [Hb%negb_true_iff _]%andb_true_iff].
  by apply strip_prefix_third.
Qed.

Lemma sdist_dash name version : free_of dash version = true -> rsplit_once dash (name +:+ String dash version) = Some (name, version).
Proof. apply rsplit_once_last. Qed.

Section Canonical.
Context (to_lowercase : string -> string) (percent_decode : string -> option string).
Context `{!CaseLaws to_lowercase} `{!DecodeLaws percent_decode}.

(** *** Cargo *)

Lemma cargo_coordinate name version :
  segment name = true -> segment version = true ->
  let p := CRATES +:+ name +:+ "/" +:+ version +:+ "/download" in
  cargo_package to_lowercase p = to_lowercase name /\ cargo_version p = version.
Proof.
  intros Hn%segment_free Hv%segment_free. cbn zeta. unfold cargo_package, cargo_version. rewrite split_here. split.
  - change ("/" +:+ ?s) with (String slash s). by rewrite (split_once_first slash _ _ Hn).
  - replace (name +:+ "/" +:+ version +:+ "/download") with ((name +:+ String slash version) +:+ "/download") by (by rewrite !str_app_assoc).
    rewrite strip_suffix_app. cbn [from_option id]. by rewrite split_on_app, split_on_none.
Qed.

(** *** npm *)

Lemma npm_coordinate scope name version :
  (length scope <= 1)%nat -> Forall (fun s => plain s = true) (scope ++ [name; version]) -> name <> "-" ->
  let p := join_path (scope ++ [name]) +:+ "/-/" +:+ name +:+ "-" +:+ version +:+ ".tgz" in
  npm_package to_lowercase percent_decode p = lower (join_path (scope ++ [name])) /\
  npm_version to_lowercase percent_decode p = lower version.
Proof.
  intros Hl Hall Hdash. cbn zeta. change "/-/" with TARBALL. set (full := join_path (scope ++ [name])).
  set (file := name +:+ "-" +:+ version +:+ ".tgz").
  replace (scope ++ [name; version]) with ((scope ++ [name]) ++ [version]) in Hall by (by rewrite <- app_assoc).
  apply Forall_app in Hall as [Hall Hv]. apply Forall_cons in Hv as [(Hv & Hva & Hvf)%plain_spec _].
  assert (Hn : plain name = true) by (rewrite Forall_forall in Hall; apply Hall; set_solver).
  apply plain_spec in Hn as (Hn & Hna & Hnf).
  assert (Hseg : Forall (fun s => segment s = true) (scope ++ [name])).
  { eapply Forall_impl; [done|]. by intros s (Hs & _)%plain_spec. }
  assert (Hfile : segment file = true).
  { unfold file, segment. apply andb_true_iff. split; [by destruct name|]. apply segment_free in Hn, Hv.
    rewrite !free_app, Hn, Hv. done. }
  assert (Hfa : str_all is_ascii file = true) by (unfold file; rewrite !str_all_app, Hna, Hva; done).
  destruct (plain_join scope name Hl Hall) as (Ha & Hf & Hlow). fold full in Ha, Hf, Hlow.
  assert (Hpkg : npm_package to_lowercase percent_decode (full +:+ TARBALL +:+ file) = lower full).
  { unfold npm_package, full. rewrite tarball_here by done. fold full. unfold decode_npm_path. rewrite decode_plain by done. cbn [from_option id].
    unfold full at 1. rewrite trim_join_path by (try done; by destruct scope). by apply lower_ascii. }
  split; [done|]. unfold npm_version. rewrite Hpkg. unfold contains_str, full at 1. rewrite tarball_here by done. cbn [is_some negb].
  assert (Hbase : path_base (full +:+ TARBALL +:+ file) = file).
  { change (TARBALL +:+ file) with ("/-" +:+ String slash file). rewrite <- str_app_assoc. by apply path_base_last. }
  rewrite Hbase, (lower_ascii _ Hfa), Hlow, fmap_app. cbn [fmap list_fmap].
  rewrite path_base_join by (by apply lower_segment). unfold file. rewrite !str_map_app.
  replace (lower name +:+ lower "-" +:+ lower version +:+ lower ".tgz") with (((lower name +:+ "-") +:+ lower version) +:+ ".tgz")
    by (by rewrite !str_app_assoc).
  by rewrite strip_suffix_app, strip_prefix_app.
Qed.

Context (lower_chars : string -> string).

(** *** PyPI *)

(** A distribution is not the metadata of one. *)
Lemma pypi_plain f y s d : f = s +:+ y -> last_byte y = Some d -> d <> "a"%char -> pypi_package_from_filename lower_chars f = pypi_package_of_file lower_chars f.
Proof.
  intros -> Hy Hd. unfold pypi_package_from_filename. cbn [pypi_package_fuel].
  rewrite (no_suffix ".metadata" y s "a"%char d) by (try done; congruence). done.
Qed.

Lemma pypi_fuel_more n k f r :
  pypi_package_fuel lower_chars n f = Some r -> pypi_package_fuel lower_chars (n + k) f = Some r.
Proof.
  revert f. induction n as [|n IH]; intros f; [done|]. cbn [Nat.add pypi_package_fuel].
  destruct (strip_suffix ".metadata" f); [apply IH|done].
Qed.

(** The metadata file of a distribution is gated as the distribution. *)
Lemma pypi_gate f s y d pkg version m :
  f = s +:+ y -> last_byte y = Some d -> d <> "a"%char -> m ∈ [EmptyString; ".metadata"] ->
  pypi_package_from_filename lower_chars f = pkg /\ pypi_version f = version ->
  pypi_package_from_filename lower_chars (f +:+ m) = pkg /\ pypi_gate_version (f +:+ m) = version.
Proof.
  intros Hf Hy Hd Hm [Hpkg Hv].
  assert (Hno : strip_suffix ".metadata" f = None) by (rewrite Hf; by apply (no_suffix _ _ _ "a"%char d)).
  apply elem_of_cons in Hm as [->|Hm%list_elem_of_singleton].
  - rewrite str_app_nil. unfold pypi_gate_version. by rewrite Hno.
  - subst m. unfold pypi_gate_version. rewrite strip_suffix_app. split; [|done]. rewrite <- Hpkg.
    unfold pypi_package_from_filename. cbn [pypi_package_fuel]. rewrite strip_suffix_app, Hno, str_length_app.
    cbn [String.length from_option id]. rewrite Nat.add_comm. cbn [Nat.add]. cbn [pypi_package_fuel]. by rewrite Hno.
Qed.

Lemma wheel_coordinate name version tags :
  free_of dash name = true -> free_of dash version = true ->
  let f := name +:+ "-" +:+ version +:+ "-" +:+ tags +:+ ".whl" in
  pypi_package_from_filename lower_chars f = normalize_pypi lower_chars name /\ pypi_version f = version.
Proof.
  intros Hn Hv. cbn zeta.
  assert (Hf : name +:+ "-" +:+ version +:+ "-" +:+ tags +:+ ".whl" = (name +:+ String dash (version +:+ String dash tags)) +:+ ".whl").
  { rewrite str_app_assoc. change (String dash ?a +:+ ?b) with (String dash (a +:+ b)). by rewrite str_app_assoc. }
  split.
  - rewrite (pypi_plain _ ".whl" _ "l"%char Hf) by done. unfold pypi_package_of_file. rewrite Hf, strip_suffix_app.
    by rewrite split_once_first.
  - unfold pypi_version. rewrite Hf, strip_suffix_app. by rewrite split_on_app, split_on_app.
Qed.

Lemma sdist_coordinate name version ext :
  name <> EmptyString -> free_of dash version = true -> ext ∈ [".tar.gz"; ".zip"] ->
  let f := name +:+ "-" +:+ version +:+ ext in
  pypi_package_from_filename lower_chars f = normalize_pypi lower_chars name /\ pypi_version f = version.
Proof.
  intros Hne Hv Hext. cbn zeta. set (stem := name +:+ String dash version).
  assert (Hf : name +:+ "-" +:+ version +:+ ext = stem +:+ ext) by (unfold stem; by rewrite str_app_assoc).
  assert (Hlast : exists d, last_byte ext = Some d /\ d <> "a"%char /\ d <> "l"%char).
  { repeat (apply elem_of_cons in Hext as [->|Hext]); [by eexists..|by apply not_elem_of_nil in Hext]. }
  destruct Hlast as (d & Hd & Ha & Hl).
  assert (Hstem : sdist_stem (stem +:+ ext) = Some stem).
  { unfold sdist_stem. repeat (apply elem_of_cons in Hext as [->|Hext]); [..|by apply not_elem_of_nil in Hext].
    - by rewrite strip_suffix_app.
    - by rewrite (no_suffix ".tar.gz" ".zip" _ "z"%char "p"%char), strip_suffix_app. }
  assert (Hwhl : strip_suffix ".whl" (stem +:+ ext) = None) by (by apply (no_suffix _ _ _ "l"%char d); [..|congruence]).
  split.
  - rewrite (pypi_plain _ ext _ d Hf) by done. unfold pypi_package_of_file. rewrite Hf, Hwhl, Hstem. cbn [mbind option_bind].
    unfold stem. rewrite sdist_dash by done. by destruct name.
  - unfold pypi_version. rewrite Hf, Hwhl, Hstem. cbn [mbind option_bind]. unfold stem. by rewrite sdist_dash.
Qed.

(** ** The paths that clients use *)

(** The path of a file of a coordinate: format, package, version, path. *)
Inductive canonical : string -> string -> string -> string -> Prop :=
  | maven_file group artifact version file :
      group <> [] -> Forall (fun s => segment s = true) (group ++ [artifact; version; file]) ->
      starts_with METADATA_XML file = false ->
      canonical FORMAT_MAVEN (str_join "." group +:+ ":" +:+ artifact) version (join_path (group ++ [artifact; version; file]))
  | npm_tarball scope name version :
      (length scope <= 1)%nat -> Forall (fun s => plain s = true) (scope ++ [name; version]) -> name <> "-" ->
      lower (join_path (scope ++ [name])) = join_path (scope ++ [name]) -> lower version = version ->
      canonical FORMAT_NPM (join_path (scope ++ [name])) version
        (join_path (scope ++ [name]) +:+ "/-/" +:+ name +:+ "-" +:+ version +:+ ".tgz")
  | cargo_crate name version :
      segment name = true -> segment version = true ->
      canonical FORMAT_CARGO (to_lowercase name) version (CRATES +:+ name +:+ "/" +:+ version +:+ "/download")
  | go_file module version ext :
      free_of "@" module = true -> ext ∈ [".info"; ".mod"; ".zip"] ->
      canonical FORMAT_GO module version (module +:+ VERSIONS +:+ version +:+ ext)
  | pypi_wheel dirs name version tags :
      free_of dash name = true -> free_of dash version = true -> segment (name +:+ "-" +:+ version +:+ "-" +:+ tags +:+ ".whl") = true ->
      canonical FORMAT_PYPI (normalize_pypi lower_chars name) version
        (join_path (dirs ++ [name +:+ "-" +:+ version +:+ "-" +:+ tags +:+ ".whl"]))
  | pypi_sdist dirs name version ext :
      name <> EmptyString -> free_of dash version = true -> ext ∈ [".tar.gz"; ".zip"] ->
      segment (name +:+ "-" +:+ version +:+ ext) = true ->
      canonical FORMAT_PYPI (normalize_pypi lower_chars name) version (join_path (dirs ++ [name +:+ "-" +:+ version +:+ ext])).

(** A distribution in whatever directory. *)
Lemma pypi_file_coordinate dirs f pkg version :
  segment f = true ->
  pypi_package_from_filename lower_chars f = pkg /\ pypi_version f = version ->
  (forall m, m ∈ [EmptyString; ".metadata"] ->
   pypi_package_from_filename lower_chars (f +:+ m) = pkg /\ pypi_gate_version (f +:+ m) = version) ->
  package_for_path to_lowercase lower_chars percent_decode FORMAT_PYPI (join_path (dirs ++ [f])) = Some pkg /\
  version_for_path to_lowercase percent_decode FORMAT_PYPI (join_path (dirs ++ [f])) = version /\
  (FORMAT_PYPI = FORMAT_PYPI -> forall m, m ∈ [EmptyString; ".metadata"] ->
   pypi_package_from_filename lower_chars (path_base (join_path (dirs ++ [f])) +:+ m) = pkg /\
   pypi_gate_version (path_base (join_path (dirs ++ [f])) +:+ m) = version).
Proof.
  intros Hf [Hp Hv] Hm.
  change (Some (pypi_package_from_filename lower_chars (path_base (join_path (dirs ++ [f])))) = Some pkg /\
    pypi_version (path_base (join_path (dirs ++ [f]))) = version /\ (FORMAT_PYPI = FORMAT_PYPI ->
    forall m, m ∈ [EmptyString; ".metadata"] ->
   pypi_package_from_filename lower_chars (path_base (join_path (dirs ++ [f])) +:+ m) = pkg /\
   pypi_gate_version (path_base (join_path (dirs ++ [f])) +:+ m) = version)).
  rewrite path_base_join by done. split_and!; [by rewrite Hp|done|by intros _].
Qed.

(** C21: The path of a file of a coordinate - a Maven artifact, an npm tarball,
    scoped or not, whose name and version are in lower case, a crate, whose package
    is its name in lower case, a Go module file, a wheel or a source distribution -
    is read back as the package and the version it belongs to: by the functions
    the scanners share with the gates, and for a distribution also by what the
    gates of PyPI do, which take its metadata file (PEP 658) for the same
    coordinate. *)
Theorem coordinate_of_path format pkg version p :
  canonical format pkg version p ->
  package_for_path to_lowercase lower_chars percent_decode format p = Some pkg /\
  version_for_path to_lowercase percent_decode format p = version /\
  (format = FORMAT_PYPI -> forall m, m ∈ [EmptyString; ".metadata"] ->
   pypi_package_from_filename lower_chars (path_base p +:+ m) = pkg /\
   pypi_gate_version (path_base p +:+ m) = version).
Proof.
  intros [group artifact v file Hg Hall Hx|scope name v Hl Hall Hd Hln Hlv|name v Hn Hv|module v ext Hm Hext
         |dirs name v tags Hn Hv Hf|dirs name v ext Hn Hv Hext Hf].
  - destruct (maven_coordinate group artifact v file Hg Hall Hx) as [H1 H2].
    split_and!; [by apply (f_equal Some)|exact H2|done].
  - destruct (npm_coordinate scope name v Hl Hall Hd) as [H1 H2]. rewrite Hln in H1. rewrite Hlv in H2.
    split_and!; [by apply (f_equal Some)|exact H2|done].
  - destruct (cargo_coordinate name v Hn Hv) as [H1 H2]. split_and!; [by apply (f_equal Some)|exact H2|done].
  - destruct (go_coordinate module v ext Hm Hext) as [H1 H2]. split_and!; [by apply (f_equal Some)|exact H2|done].
  - pose proof (wheel_coordinate name v tags Hn Hv) as H. cbn zeta in H. apply pypi_file_coordinate; [done|done|].
    intros m Hm. eapply (pypi_gate _ (name +:+ "-" +:+ v +:+ "-" +:+ tags) ".whl" "l"%char); [|done..].
    by rewrite !str_app_assoc.
  - pose proof (sdist_coordinate name v ext Hn Hv Hext) as H. cbn zeta in H. apply pypi_file_coordinate; [done|done|].
    intros m Hm.
    assert (Hlast : exists d, last_byte ext = Some d /\ d <> "a"%char).
    { repeat (apply elem_of_cons in Hext as [->|Hext]); [by eexists..|by apply not_elem_of_nil in Hext]. }
    destruct Hlast as (d & Hy & Ha). eapply (pypi_gate _ (name +:+ "-" +:+ v) ext d); [|done..].
    by rewrite !str_app_assoc.
Qed.

End Canonical.

Lemma npm_path_plain percent_decode `{!DecodeLaws percent_decode} scope name version :
  (length scope <= 1)%nat -> Forall (fun s => plain s = true) (scope ++ [name; version]) ->
  let p := join_path (scope ++ [name]) +:+ "/-/" +:+ name +:+ "-" +:+ version +:+ ".tgz" in
  decode_npm_path percent_decode p = p.
Proof.
  intros Hl Hall. cbn zeta. replace (scope ++ [name; version]) with ((scope ++ [name]) ++ [version]) in Hall by (by rewrite <- app_assoc).
  apply Forall_app in Hall as [Hall Hv]. apply Forall_cons in Hv as [(_ & Hva & Hvf)%plain_spec _].
  destruct (plain_join scope name Hl Hall) as (Ha & Hf & _).
  assert (Hn : plain name = true) by (rewrite Forall_forall in Hall; apply Hall; set_solver).
  apply plain_spec in Hn as (_ & Hna & Hnf). unfold decode_npm_path. unfold free_of in *.
  by rewrite decode_plain; unfold free_of; rewrite ?str_all_app, ?Ha, ?Hf, ?Hna, ?Hnf, ?Hva, ?Hvf.
Qed.

(** The fuel of [pypi_package_from_filename] is enough. *)
Lemma pypi_package_total lower_chars fuel f : (String.length f < fuel)%nat -> is_Some (pypi_package_fuel lower_chars fuel f).
Proof.
  revert f. induction fuel as [|fuel IH]; intros f Hf; [lia|]. cbn [pypi_package_fuel].
  destruct (strip_suffix ".metadata" f) as [r|] eqn:Hs; [|by eexists]. apply IH. apply strip_suffix_Some in Hs as ->.
  rewrite str_length_app in Hf. cbn in Hf. lia.
Qed.

(** ** What is denied is not delivered *)

Section Denied.
Context (to_lowercase lower_chars : string -> string) (percent_decode : string -> option string).
Context `{!CaseLaws to_lowercase} `{!DecodeLaws percent_decode}.
Context (parse_http_date : string -> option Z) (format_time : Z -> string) (glob_match : string -> string -> bool).
Context (env : ServeEnv) (genv : GateEnv) (req : Request) (res : Resolved) (base : string).

(** The handlers by format. *)
Definition handle_path (format p : string) : E Response :=
  if String.eqb format FORMAT_MAVEN then handle_maven to_lowercase parse_http_date format_time glob_match env genv req res base p
  else if String.eqb format FORMAT_GO then handle_go to_lowercase parse_http_date format_time glob_match env genv req res base p
  else handle_npm_tarball to_lowercase percent_decode parse_http_date format_time glob_match env genv req res base p.

Lemma read_denied k content_type pkg version p s :
  gated req res = true -> pkg <> EmptyString -> version <> EmptyString ->
  (repo_name (repo res), pkg, version) ∈ version_denies (tables (manager s)) ->
  delivers (read_as to_lowercase parse_http_date format_time glob_match env genv req res base k content_type pkg version p s).1 = false.
Proof.
  intros Hg Hpkg Hv Hin. unfold read_as, handle_read, ebind, run_gate. cbn [f_version].
  pose proof (policy_gates_refuses to_lowercase genv req res pkg version (manager s)) as Href. unfold policy_gates, and_then, bind in *.
  pose proof (version_deny_gate_spec genv req res pkg version Hg (manager s)) as Hd.
  destruct (version_deny_gate genv req res pkg version (manager s)) as [[r|] m]; cbn [fst] in *.
  - by apply Href.
  - exfalso. by apply Hd; [|split; [|right]].
Qed.

(** Each handler reads the path as its coordinate. *)
Lemma handle_path_reads format pkg version p s :
  canonical to_lowercase lower_chars format pkg version p -> format ∈ [FORMAT_MAVEN; FORMAT_GO; FORMAT_NPM] ->
  (forall k ct q, delivers (read_as to_lowercase parse_http_date format_time glob_match env genv req res base k ct
    pkg version q s).1 = false) ->
  delivers (handle_path format p s).1 = false.
Proof.
  intros Hcan Hformat Hread.
  destruct Hcan as [group artifact v file Hgr Hall Hx|scope name v Hl Hall Hd Hln Hlv| |module v ext Hm Hext| |];
    try (exfalso; repeat (apply elem_of_cons in Hformat as [Hf'|Hformat]; [discriminate Hf'|]); by apply not_elem_of_nil in Hformat).
  - unfold handle_path. rewrite String.eqb_refl. unfold handle_maven, resolve_path. destruct (_ || _); [done|].
    destruct (maven_coordinate group artifact v file Hgr Hall Hx) as [-> ->]. apply Hread.
  - change (delivers (handle_npm_tarball to_lowercase percent_decode parse_http_date format_time glob_match env genv req res base
      (join_path (scope ++ [name]) +:+ "/-/" +:+ name +:+ "-" +:+ v +:+ ".tgz") s).1 = false).
    unfold handle_npm_tarball, resolve_path. destruct (_ || _); [done|].
    rewrite (npm_path_plain percent_decode scope name v) by done. destruct (contains_str _ _); [done|].
    destruct (npm_coordinate to_lowercase percent_decode scope name v Hl Hall Hd) as [-> ->].
    rewrite Hln, Hlv. apply Hread.
  - change (delivers (handle_go to_lowercase parse_http_date format_time glob_match env genv req res base
      (module +:+ VERSIONS +:+ v +:+ ext) s).1 = false).
    unfold handle_go, resolve_path. destruct (_ || _); [done|].
    destruct (go_coordinate module v ext Hm Hext) as [-> ->]. apply Hread.
Qed.

(** C7: A version that is denied is not delivered from the path of any of its files,
    whatever is cached, whatever the upstream answers and whatever else is
    configured: Maven artifacts, Go module files, npm tarballs whose name and
    version are in lower case. *)
Theorem denied_never_delivered pkg version p s :
  repo_format (repo res) ∈ [FORMAT_MAVEN; FORMAT_GO; FORMAT_NPM] ->
  canonical to_lowercase lower_chars (repo_format (repo res)) pkg version p -> pkg <> EmptyString -> version <> EmptyString ->
  gated req res = true -> (repo_name (repo res), pkg, version) ∈ version_denies (tables (manager s)) ->
  delivers (handle_path (repo_format (repo res)) p s).1 = false.
Proof.
  intros Hformat Hcan Hpkg Hv Hg Hin. eapply handle_path_reads; [done..|]. intros. by apply read_denied.
Qed.
End Denied.
