(* ===== verification/DemoRegistry.v ===== *)
(** * A proxy repository (forklift: repo.rs)

    A repository that caches npm packages: examples of what the engine does, and the
    witnesses of the theorems about it. *)

From stdpp Require Import prelude list strings pretty gmap sets sorting.
From Stdlib Require Import ZArith Lia Ascii Sorted.
From S2P Require Import Prelude.
From S2P Require Import Strings.
From S2P Require Import RepoConfig.
From S2P Require Import Gates.
From S2P Require Import GateFacts.
From S2P Require Flight.
From S2P Require Import Serving.
From S2P Require Import ServingFacts.
From S2P Require Import UpstreamFacts.
From S2P Require Import Coordinates.
From S2P Require Import CoordinateFacts.

Definition no_date (s : string) : option Z := None.
Definition time_text (t : Z) : string := zero_padded 20 t.
Definition seconds (n : Z) : Z := n * 10 ^ 9.

(** Artifacts and metadata are cached for a minute; releases must be an hour old. *)
Definition shop_config (max : Z) : Config :=
  mkConfig (mkCache true (seconds 60) (seconds 60) (seconds 60) max EVICTION_LRU)
    (mkAgePolicy true (seconds 3600) 0 ACTION_BLOCK) demo_approval 0 (vuln demo_accepted) (license demo_accepted)
    (policy_pipeline demo_accepted) ["security"] default_upstream_auth.

Definition shop : Resolved := mkResolved (repo demo_repo) (shop_config 0).

Definition lodash_path : string := "lodash/-/lodash-4.17.21.tgz".

Definition shop_spec (k : Kind) (p version : string) (max : Z) : FetchSpec :=
  mkFetchSpec (repo shop) (shop_config max) p ("https://registry/" +:+ p) k version "application/octet-stream" None.

Definition row (p sha : string) (n published cached : Z) : Artifact :=
  mkArtifact 1 p EmptyString sha n "application/octet-stream" (Some published) cached cached false.

Definition shop_engine (rows : list Artifact) (vs : gmap (Z * string) UpstreamValidators) : EngineState :=
  mkEngine (list_to_map ((fun a => ((repo_of a, path a), a)) <$> rows)) vs (list_to_set (blob_sha256 <$> rows)) ∅ ∅
    (fresh_manager demo_tables) [].

Definition answered (status : Z) (hint : string) (published : Z) (sha : string) (n : Z) : UpstreamAnswer :=
  Answered (mkUpstreamResponse status hint EmptyString EmptyString EmptyString (Some published) (Ok (sha, n))).

Definition at_time (t : Z) (a : UpstreamAnswer) : ServeEnv := mkServeEnv t (seconds 600) (fun _ => false) (fun _ => a).

Definition run_serve (env : ServeEnv) (spec : FetchSpec) (s : EngineState) : Response * EngineState :=
  serve no_date time_text env demo_request spec s.

Definition down : UpstreamAnswer := Unreachable Flight.Connect.

(** ** What is delivered *)

Definition cached_shop : EngineState := shop_engine [row lodash_path "sha-lodash" 4 (- seconds 7200) 0] ∅.

(** The same cache over tables with a scan. *)
Definition scanned_shop : EngineState :=
  mkEngine (artifacts cached_shop) ∅ (blobs cached_shop) ∅ ∅ (fresh_manager scanned_tables) [].


(** The denied version is refused though it is cached. *)
Example denied_though_cached :
  code (handle_read no_date time_text (at_time (seconds 1) down) exact_match ascii_lower (demo_env (seconds 1)) demo_request
    shop "lodash" (shop_spec KArtifact lodash_path "4.17.99" 0) cached_shop).1 = 403.
Proof. vm_compute. reflexivity. Qed.

Lemma served_blob_is_aged_witness :
  let '(r, s') := run_serve (at_time (seconds 1) down) (shop_spec KArtifact lodash_path "4.17.21" 0) cached_shop in
  forall sha, content r = Blob sha ->
  exists art, artifacts s' !! (1, lodash_path) = Some art /\ blob_sha256 art = sha /\
    (evaluate_age (age_policy (shop_config 0)) (published_at art) (seconds 1)).1 <> AgeBlock.
Proof.
  apply (served_blob_is_aged no_date time_text (at_time (seconds 1) down) demo_request
    (shop_spec KArtifact lodash_path "4.17.21" 0) cached_shop); [reflexivity|discriminate].
Defined.

(** ** Expired entries *)

Lemma stale_is_last_resort_witness :
  let '(r, s') := run_serve (at_time (seconds 90) down) (shop_spec KArtifact lodash_path "4.17.21" 0) cached_shop in
  delivers r = true -> stale_header r = true ->
  exists art, artifacts cached_shop !! (1, lodash_path) = Some art /\
    etag r = quoted (blob_sha256 art) /\
    eval_age (at_time (seconds 90) down) (shop_spec KArtifact lodash_path "4.17.21" 0) (published_at art) = false /\
    fresh (at_time (seconds 90) down) art (shop_config 0) KArtifact = false /\
    seconds 90 - cached_at art < ttl_of (shop_config 0) KArtifact + seconds 600 /\
    upstream_failed (at_time (seconds 90) down) (shop_spec KArtifact lodash_path "4.17.21" 0) cached_shop s'.
Proof.
  apply (stale_is_last_resort no_date time_text (at_time (seconds 90) down) (shop_spec KArtifact lodash_path "4.17.21" 0)
    ltac:(discriminate) demo_request cached_shop).
  split; [intros i j a b w _ Hi; discriminate Hi|]. intros n w Hin. by apply not_elem_of_nil in Hin.
Defined.

Example stale_answer :
  let r := (run_serve (at_time (seconds 90) down) (shop_spec KArtifact lodash_path "4.17.21" 0) cached_shop).1 in
  code r = 200 /\ stale_header r = true /\ content r = Blob "sha-lodash".
Proof. vm_compute. done. Qed.

(** ** Rate limits *)

Definition limited_reads : list (ServeEnv * Request * FetchSpec) :=
  (fun '(t, a) => (at_time (seconds t) a, demo_request, shop_spec KArtifact "left-pad.tgz" "1.0.0" 0)) <$>
  [(0, answered 429 "30" 0 "x" 1); (10, down); (40, down)].

Lemma rate_limits_waited_out_witness :
  limits_kept no_date (fetches (serves no_date time_text limited_reads (shop_engine [] ∅))) /\
  forall n wait, limit_of no_date n = Some wait -> 15 * 10 ^ 9 <= wait <= 300 * 10 ^ 9.
Proof.
  apply (rate_limits_waited_out no_date time_text limited_reads (shop_engine [] ∅)); [reflexivity|].
  repeat constructor; by apply Z.leb_le.
Defined.

(** The second read is answered without asking, the third asks again. *)
Example limited_fetches :
  n_time <$> fetches (serves no_date time_text limited_reads (shop_engine [] ∅)) = [0; seconds 40].
Proof. vm_compute. reflexivity. Qed.

(** ** Redirects *)

Definition basic_auth : UpstreamAuthConfig := mkUpstreamAuth UPSTREAM_AUTH_BASIC "bot" "secret" EmptyString EmptyString EmptyString.

Definition to_cdn (u : string * Z) (hs : list (string * string)) : result UpstreamFailure (option (result string (string * Z))) :=
  if String.eqb u.1 "registry" then Ok (Some (Ok ("cdn", 443))) else Ok None.

Definition sent_to_cdn :=
  follow_upstream (fun u => Some u.1) (fun u => Some u.2) (fun s => s) Some Some (fun _ => Ok tt) to_cdn 11 "forklift" basic_auth
    false EmptyString None ("registry", 443).

Lemma credentials_stay_witness :
  let '(sent, r) := sent_to_cdn in
  is_some r = true /\ (length sent <= 11)%nat /\
  forall u hs, (u, hs) ∈ sent ->
    ((exists h, h ∈ hs /\ credential None h) ->
       same_host (fun u : string * Z => Some u.1) (fun u => Some u.2) u ("registry", 443) = true) /\
    (false = true -> Ok (E := string) tt = Ok tt /\ forall v, (AUTHORIZATION, v) ∉ hs).
Proof.
  apply (credentials_stay (fun u : string * Z => Some u.1) (fun u => Some u.2) (fun s => s) Some Some (fun _ => Ok tt) to_cdn 11
    "forklift" basic_auth false EmptyString None ("registry", 443)).
  unfold MAX_REDIRECTS. lia.
Defined.

Example credentials_dropped :
  (fun x => (x.1.1, x.2)) <$> sent_to_cdn.1 =
  [("registry", [("user-agent", "forklift"); ("authorization", "Basic bot:secret")]); ("cdn", [("user-agent", "forklift")])].
Proof. vm_compute. reflexivity. Qed.

(** ** What goes wrong *)

Definition index_spec : FetchSpec := shop_spec KMetadata "lodash" EmptyString 0.

Definition cached_index : EngineState :=
  shop_engine [row "lodash" "sha-index" 4 (- seconds 10) 0]
    {[(1, "lodash") := mkValidators "sha-index" "https://registry/lodash" "v1" EmptyString]}.

Definition not_modified : UpstreamAnswer := answered 304 EmptyString 0 EmptyString 0.

(** A document too young for the age policy is refused while its entry is fresh, and
    served once the upstream confirms the expired entry. *)
Example revalidation_skips_age :
  code (run_serve (at_time (seconds 1) down) index_spec cached_index).1 = 404 /\
  (let r := (run_serve (at_time (seconds 61) not_modified) index_spec cached_index).1 in
   code r = 200 /\ content r = Blob "sha-index") /\
  eval_age (at_time (seconds 61) not_modified) index_spec (Some (- seconds 10)) = true.
Proof. vm_compute. done. Qed.

(** The cache is trimmed by sixteen rows at a time, so with fewer a store above the
    cap removes every row, the one just stored included, and its read fails. *)
Example eviction_takes_the_new_row :
  let s := shop_engine [row "a" "sha-a" 4 (- seconds 7200) 0; row "b" "sha-b" 4 (- seconds 7200) 0] ∅ in
  let '(r, s') := run_serve (at_time (seconds 10) (answered 200 EmptyString (- seconds 7200) "sha-c" 4))
                    (shop_spec KArtifact "c" "1.0.0" 10) s in
  code r = 500 /\ map_to_list (artifacts s') = [].
Proof. vm_compute. done. Qed.

(** ** Paths of three repositories (forklift: repo/maven.rs, repo/npm.rs, repo/pypi.rs)

    A Maven repository in which a version is denied: its path is refused, and two
    other ways to the same file are not.  The witnesses of the theorems about paths. *)

(** ** The crates *)

Definition hex_value (c : ascii) : option N :=
  let n := N_of_ascii c in
  if is_ascii_digit c then Some (n - 48)%N
  else if (65 <=? n)%N && (n <=? 70)%N then Some (n - 55)%N
  else if (97 <=? n)%N && (n <=? 102)%N then Some (n - 87)%N
  else None.

(** An escape is decoded, anything else kept; what is not ASCII is refused. *)
Fixpoint demo_decode (s : string) : option string :=
  match s with
  | EmptyString => Some EmptyString
  | String "%" (String a (String b s) as rest) =>
      match hex_value a, hex_value b with
      | Some x, Some y =>
          let c := ascii_of_N (16 * x + y) in
          rest ← demo_decode s; if is_ascii c then Some (String c rest) else None
      | _, _ => rest ← demo_decode rest; Some (String "%" rest)
      end
  | String c s => rest ← demo_decode s; Some (String c rest)
  end.

#[export] Instance demo_decode_laws : DecodeLaws demo_decode.
Proof.
  intros s _. induction s as [|c s IH]; [done|]. unfold free_of in *. cbn [str_all].
  intros [Hc%negb_true_iff Hs]%andb_true_iff. specialize (IH Hs).
  replace (demo_decode (String c s)) with (rest ← demo_decode s; Some (String c rest)); [by rewrite IH|].
  destruct c as [[] [] [] [] [] [] [] []]; try done.
Qed.

#[export] Instance ascii_lower_laws : CaseLaws ascii_lower.
Proof. by intros s _. Qed.

(** ** Paths *)

Lemma coordinate_of_path_witness :
  let p := "packages/x/my_pkg-1.0-py3-none-any.whl" in
  package_for_path ascii_lower ascii_lower demo_decode FORMAT_PYPI p = Some "my-pkg" /\
  version_for_path ascii_lower demo_decode FORMAT_PYPI p = "1.0" /\
  pypi_gate_version (path_base p +:+ ".metadata") = "1.0".
Proof.
  destruct (coordinate_of_path ascii_lower demo_decode ascii_lower FORMAT_PYPI "my-pkg" "1.0"
              "packages/x/my_pkg-1.0-py3-none-any.whl") as (H1 & H2 & H3).
  - apply (pypi_wheel ascii_lower ascii_lower ["packages"; "x"] "my_pkg" "1.0" "py3-none-any"); reflexivity.
  - split; [exact H1|split; [exact H2|]]. apply (H3 eq_refl ".metadata"). right. left.
Defined.

(** ** A repository with a denied version *)

Definition denied_tables (pkg version : string) : Tables := mkTables ∅ {[("central", pkg, version)]} ∅ ∅.

Definition central (format : string) : Resolved := mkResolved (mkRepository 7 "central" TYPE_PROXY format) default_config.

Definition empty_engine (t : Tables) : EngineState := mkEngine ∅ ∅ ∅ ∅ ∅ (fresh_manager t) [].

(** A read of [p] when [pkg] at [version] is denied; the upstream has every file. *)
Definition read_path (format pkg version p : string) : Response :=
  (handle_path ascii_lower demo_decode no_date time_text String.eqb (at_time (seconds 100) (answered 200 "" 0 "sha-file" 9))
     (demo_env (seconds 100)) demo_request (central format) "https://upstream/" format p
     (empty_engine (denied_tables pkg version))).1.

Lemma denied_never_delivered_witness :
  delivers (read_path FORMAT_MAVEN "org.foo:bar" "1.0" "org/foo/bar/1.0/bar-1.0.jar") = false /\
  code (read_path FORMAT_MAVEN "org.foo:bar" "1.0" "org/foo/bar/1.1/bar-1.1.jar") = 200.
Proof.
  split; [|reflexivity].
  apply (denied_never_delivered ascii_lower ascii_lower demo_decode no_date time_text String.eqb
    (at_time (seconds 100) (answered 200 "" 0 "sha-file" 9)) (demo_env (seconds 100)) demo_request (central FORMAT_MAVEN) "https://upstream/"
    "org.foo:bar" "1.0").
  - apply list_elem_of_here.
  - apply (maven_file ascii_lower ascii_lower ["org"; "foo"] "bar" "1.0" "bar-1.0.jar"); [discriminate| |reflexivity].
    repeat (apply List.Forall_cons; [reflexivity|]). apply List.Forall_nil.
  - discriminate.
  - discriminate.
  - reflexivity.
  - change (("central", "org.foo:bar", "1.0") ∈ ({[("central", "org.foo:bar", "1.0")]} : gset (string * string * string))).
    by apply elem_of_singleton_2.
Defined.

(** An escape in the path, which an upstream undoes, hides the version from the
    gates: the file of the denied version is delivered. *)
Example escape_hides_version :
  code (read_path FORMAT_MAVEN "org.foo:bar" "1.0" "org/foo/bar/1.0/bar-1.0.jar") = 403 /\
  read_path FORMAT_MAVEN "org.foo:bar" "1.0" "org/foo/bar/1%2E0/bar-1.0.jar" =
    mkResponse 200 (Blob "sha-file") (quoted "sha-file") EmptyString false.
Proof. by vm_compute. Qed.

(** The same for an empty segment. *)
Example slash_hides_package :
  delivers (read_path FORMAT_MAVEN "org.foo:bar" "1.0" "org/foo/bar//1.0/bar-1.0.jar") = true /\
  maven_package "org/foo/bar//1.0/bar-1.0.jar" = "org.foo.bar:".
Proof. by vm_compute. Qed.

(** The version of a tarball is lowered, the row of a denied version is not. *)
Example case_hides_version :
  delivers (read_path FORMAT_NPM "lib" "2.0.0-RC.1" "lib/-/lib-2.0.0-RC.1.tgz") = true /\
  code (read_path FORMAT_NPM "lib" "2.0.0-rc.1" "lib/-/lib-2.0.0-RC.1.tgz") = 403.
Proof. by vm_compute. Qed.

(** The metadata of a wheel names the package, and no version; to the gates it has
    the version of the wheel. *)
Example wheel_metadata :
  pypi_package_from_filename ascii_lower "My.Pkg_x-1.0-py3-none-any.whl.metadata" = "my-pkg-x" /\
  pypi_version "My.Pkg_x-1.0-py3-none-any.whl.metadata" = EmptyString /\
  pypi_gate_version "My.Pkg_x-1.0-py3-none-any.whl.metadata" = "1.0".
Proof. by vm_compute. Qed.
