(* ===== verification/Cvss.v ===== *)
(** * CVSS base scores (forklift: vuln/cvss.rs)

    The base score of a CVSS 3 vector as it is computed, in binary64, and as the
    formulas of the CVSS specification give it, in exact arithmetic.  They are equal
    for every string: the weights allow 2592 combinations, which are all computed.

    [f64::mul_add] rounds once; [powi], whose precision the standard library leaves
    open, is the loop of squarings of the compiler's run-time library. *)

From Corelib Require Import SpecFloat.
From stdpp Require Import prelude list strings gmap.
From Stdlib Require Import ZArith Lia Ascii.
From S2P Require Import Prelude.
From S2P Require Import Strings.
From S2P Require Import F64.

(** ** The computation *)

Definition one_of {A} (table : list (string * A)) (v : string) : option A :=
  snd <$> List.find (fun row => String.eqb row.1 v) table.

Definition cvss_av : string -> option f64 :=
  one_of [("N", f64_decimal 85 2); ("A", f64_decimal 62 2); ("L", f64_decimal 55 2); ("P", f64_decimal 2 1)].
Definition cvss_ac : string -> option f64 := one_of [("L", f64_decimal 77 2); ("H", f64_decimal 44 2)].
Definition cvss_ui : string -> option f64 := one_of [("N", f64_decimal 85 2); ("R", f64_decimal 62 2)].
Definition cvss_cia : string -> option f64 :=
  one_of [("H", f64_decimal 56 2); ("L", f64_decimal 22 2); ("N", f64_decimal 0 0)].
Definition cvss_pr (v : string) (scope_changed : bool) : option f64 :=
  one_of [("N", f64_decimal 85 2); ("L", if scope_changed then f64_decimal 68 2 else f64_decimal 62 2);
          ("H", if scope_changed then f64_decimal 5 1 else f64_decimal 27 2)] v.

Definition colon : ascii := ":".
Definition solidus : ascii := "/".

(** The parts of a vector; a later part replaces an earlier one. *)
Definition add_part (m : gmap string string) (part : string) : gmap string string :=
  match split_once colon part with Some (k, val) => <[k := val]> m | None => m end.
Definition vector_parts (vector : string) : gmap string string := foldl add_part ∅ (split_on solidus vector).
Definition part (m : gmap string string) (k : string) : string := default EmptyString (m !! k).

(** [powi]: the bits of the exponent from the least, the base squared at each. *)
Fixpoint powi_pos (a : f64) (n : positive) (mul : f64) : f64 :=
  match n with
  | xH => f64_mul mul a
  | xO n => powi_pos (f64_mul a a) n mul
  | xI n => powi_pos (f64_mul a a) n (f64_mul mul a)
  end.

Definition one : f64 := f64_of_Z 1.
Definition ten : f64 := f64_of_Z 10.
Definition ten_thousand : f64 := f64_of_Z 10000.
Definition hundred_thousand : f64 := f64_of_Z 100000.
Definition changed_factor : f64 := f64_decimal 108 2.

Definition cvss_roundup (x : f64) : f64 :=
  let i := f64_as i64_min i64_max (f64_round (f64_mul x hundred_thousand)) in
  if Z.rem i 10000 =? 0 then f64_div (f64_of_Z i) hundred_thousand
  else f64_div (f64_add (f64_floor (f64_div (f64_of_Z i) ten_thousand)) one) ten.

(** The impact and the exploitability, from the weights. *)
Definition impact_of (scope_changed : bool) (c i a : f64) : f64 :=
  let iss := f64_mul_add (f64_mul (f64_sub one c) (f64_sub one i)) (f64_neg (f64_sub one a)) one in
  if scope_changed then
    f64_mul_add (f64_decimal 325 2) (f64_neg (powi_pos (f64_sub iss (f64_decimal 2 2)) 15 one))
      (f64_mul (f64_decimal 752 2) (f64_sub iss (f64_decimal 29 3)))
  else f64_mul (f64_decimal 642 2) iss.

Definition expl_of (av ac pr ui : f64) : f64 := f64_mul (f64_mul (f64_mul (f64_mul (f64_decimal 822 2) av) ac) pr) ui.

Definition base_of (scope_changed : bool) (impact expl : f64) : f64 :=
  if f64_le impact (f64_of_Z 0) then f64_of_Z 0
  else if scope_changed then cvss_roundup (f64_min (f64_mul changed_factor (f64_add impact expl)) ten)
  else cvss_roundup (f64_min (f64_add impact expl) ten).

Definition cvss_base_score (vector : string) : option f64 :=
  if negb (starts_with "CVSS:3" vector) then None
  else
    let m := vector_parts vector in
    let scope_changed := String.eqb (part m "S") "C" in
    av ← cvss_av (part m "AV");
    ac ← cvss_ac (part m "AC");
    pr ← cvss_pr (part m "PR") scope_changed;
    ui ← cvss_ui (part m "UI");
    c ← cvss_cia (part m "C");
    i ← cvss_cia (part m "I");
    a ← cvss_cia (part m "A");
    Some (base_of scope_changed (impact_of scope_changed c i a) (expl_of av ac pr ui)).

(** ** The specification *)

(** Weights in hundredths. *)
Definition spec_av : list (string * Z) := [("N", 85); ("A", 62); ("L", 55); ("P", 20)].
Definition spec_ac : list (string * Z) := [("L", 77); ("H", 44)].
Definition spec_ui : list (string * Z) := [("N", 85); ("R", 62)].
Definition spec_cia : list (string * Z) := [("H", 56); ("L", 22); ("N", 0)].
Definition spec_pr (scope_changed : bool) : list (string * Z) :=
  [("N", 85); ("L", if scope_changed then 68 else 62); ("H", if scope_changed then 50 else 27)].

(** The impact and the exploitability in units of 10 ^ -92. *)
Definition exact_impact (scope_changed : bool) (c i a : Z) : Z :=
  let iss := 10 ^ 6 - (100 - c) * (100 - i) * (100 - a) in
  if scope_changed then 752 * (iss - 29000) * 10 ^ 84 - 325 * (iss - 20000) ^ 15 else 642 * iss * 10 ^ 84.

Definition exact_expl (av ac pr ui : Z) : Z := 822 * av * ac * pr * ui * 10 ^ 82.

(** [n / d] rounded up. *)
Definition ceiling (n d : Z) : Z := - (- n / d).

(** A tenth. *)
Definition tenth : Z := 10 ^ 93.

(** The base score in tenths: rounded up, at most 10. *)
Definition exact_tenths (scope_changed : bool) (impact expl : Z) : Z :=
  if impact <=? 0 then 0
  else Z.min 100 (ceiling ((if scope_changed then 108 else 100) * (impact + expl)) tenth).

(** The weights of a vector in hundredths, [None] where it is not a base vector of
    version 3. *)
Definition vector_weights (vector : string) : option (bool * Z * Z * Z * Z * Z * Z * Z) :=
  if negb (starts_with "CVSS:3" vector) then None
  else
    let m := vector_parts vector in
    let scope_changed := String.eqb (part m "S") "C" in
    av ← one_of spec_av (part m "AV");
    ac ← one_of spec_ac (part m "AC");
    pr ← one_of (spec_pr scope_changed) (part m "PR");
    ui ← one_of spec_ui (part m "UI");
    c ← one_of spec_cia (part m "C");
    i ← one_of spec_cia (part m "I");
    a ← one_of spec_cia (part m "A");
    Some (scope_changed, av, ac, pr, ui, c, i, a).

Definition exact_score (vector : string) : option f64 :=
  w ← vector_weights vector;
  let '(scope_changed, av, ac, pr, ui, c, i, a) := w in
  Some (f64_decimal (exact_tenths scope_changed (exact_impact scope_changed c i a) (exact_expl av ac pr ui)) 1).

(** ** The computation meets the specification *)

Definition weight (w : Z) : f64 := f64_decimal w 2.

Lemma one_of_weights spec table v :
  table = (fun row : string * Z => (row.1, weight row.2)) <$> spec -> one_of table v = weight <$> one_of spec v.
Proof.
  intros ->. unfold one_of. induction spec as [|[k w] spec IH]; [done|]. cbn. by destruct (String.eqb k v).
Qed.

Lemma one_of_elem {A} (spec : list (string * A)) v w : one_of spec v = Some w -> w ∈ spec.*2.
Proof.
  unfold one_of. destruct (List.find _ spec) as [row|] eqn:Hf; [|done]. intros [= <-].
  apply List.find_some in Hf as [Hin _]. apply list_elem_of_In in Hin. by apply list_elem_of_fmap_2.
Qed.

(** The same positive number, or both zero. *)
Definition same_number (x y : f64) : bool :=
  match x, y with
  | S754_zero false, S754_zero false => true
  | S754_finite false m e, S754_finite false m' e' => Pos.eqb m m' && (e =? e')
  | _, _ => false
  end.

Lemma same_number_eq x y : same_number x y = true -> x = y.
Proof.
  destruct x as [[]|[]| |[] m e], y as [[]|[]| |[] m' e']; try discriminate; [done|].
  cbn. by intros [->%Pos.eqb_eq ->%Z.eqb_eq]%andb_true_iff.
Qed.

(** [n / d] rounded up, from the leading bits, when that is so. *)
Definition quick_ceiling (n d : Z) : option Z :=
  let guess := Z.shiftr n 250 / Z.shiftr d 250 in
  let k := if n <=? guess * d then guess else guess + 1 in
  if ((k - 1) * d <? n) && (n <=? k * d) then Some k else None.

Lemma quick_ceiling_exact n d k : 0 < d -> quick_ceiling n d = Some k -> ceiling n d = k.
Proof.
  intros Hd. unfold quick_ceiling. cbn zeta. generalize (Z.shiftr n 250 / Z.shiftr d 250). intros guess.
  generalize (if n <=? guess * d then guess else guess + 1). intros k'.
  destruct (_ && _) eqn:Hb; [|done]. apply andb_true_iff in Hb as [H1%Z.ltb_lt H2%Z.leb_le]. intros [= <-].
  unfold ceiling. assert (- n / d = - k'); [|lia]. symmetry. apply (Z.div_unique _ _ _ (k' * d - n)); nia.
Qed.

Definition score_matches (scope_changed : bool) (impact expl : f64 * Z) : bool :=
  let computed := base_of scope_changed impact.1 expl.1 in
  if impact.2 <=? 0 then same_number computed (f64_decimal 0 1)
  else match quick_ceiling ((if scope_changed then 108 else 100) * (impact.2 + expl.2)) tenth with
  | Some k => same_number computed (f64_decimal (Z.min 100 k) 1)
  | None => false
  end.

Lemma score_matches_exact scope_changed impact expl :
  score_matches scope_changed impact expl = true ->
  base_of scope_changed impact.1 expl.1 = f64_decimal (exact_tenths scope_changed impact.2 expl.2) 1.
Proof.
  unfold score_matches, exact_tenths. cbn zeta. destruct (_ <=? 0); [apply same_number_eq|].
  destruct (quick_ceiling _ _) as [k|] eqn:Hk; [|done].
  rewrite (quick_ceiling_exact _ _ k) by done. apply same_number_eq.
Qed.

(** The weights allow 54 impacts and 48 exploitabilities. *)
Definition impacts (scope_changed : bool) : list (f64 * Z) :=
  c ← spec_cia.*2; i ← spec_cia.*2; a ← spec_cia.*2;
  [(impact_of scope_changed (weight c) (weight i) (weight a), exact_impact scope_changed c i a)].
Definition expls (scope_changed : bool) : list (f64 * Z) :=
  av ← spec_av.*2; ac ← spec_ac.*2; pr ← (spec_pr scope_changed).*2; ui ← spec_ui.*2;
  [(expl_of (weight av) (weight ac) (weight pr) (weight ui), exact_expl av ac pr ui)].

Definition all_match : bool :=
  forallb (fun scope_changed =>
    let imps := impacts scope_changed in let es := expls scope_changed in
    forallb (fun impact => forallb (score_matches scope_changed impact) es) imps) [true; false].

Lemma all_match_true : all_match = true.
Proof. vm_compute. reflexivity. Qed.

Lemma forallb_elem {A} (f : A -> bool) l x : forallb f l = true -> x ∈ l -> f x = true.
Proof. rewrite forallb_forall. intros H Hx. by apply H, list_elem_of_In. Qed.

Lemma all_match_elem scope_changed impact expl :
  all_match = true -> impact ∈ impacts scope_changed -> expl ∈ expls scope_changed ->
  score_matches scope_changed impact expl = true.
Proof.
  unfold all_match. intros H Hi He.
  assert (Hs : scope_changed ∈ [true; false]) by (destruct scope_changed; repeat constructor).
  pose proof (forallb_elem _ _ _ H Hs) as H1. cbv beta zeta in H1.
  exact (forallb_elem _ _ _ (forallb_elem _ _ _ H1 Hi) He).
Qed.

Lemma impacts_elem scope_changed c i a :
  c ∈ spec_cia.*2 -> i ∈ spec_cia.*2 -> a ∈ spec_cia.*2 ->
  (impact_of scope_changed (weight c) (weight i) (weight a), exact_impact scope_changed c i a) ∈ impacts scope_changed.
Proof.
  intros. unfold impacts. apply list_elem_of_bind. exists c. split; [|done]. apply list_elem_of_bind. exists i. split; [|done].
  apply list_elem_of_bind. exists a. split; [|done]. by apply list_elem_of_singleton.
Qed.

Lemma expls_elem scope_changed av ac pr ui :
  av ∈ spec_av.*2 -> ac ∈ spec_ac.*2 -> pr ∈ (spec_pr scope_changed).*2 -> ui ∈ spec_ui.*2 ->
  (expl_of (weight av) (weight ac) (weight pr) (weight ui), exact_expl av ac pr ui) ∈ expls scope_changed.
Proof.
  intros. unfold expls. apply list_elem_of_bind. exists av. split; [|done]. apply list_elem_of_bind. exists ac. split; [|done].
  apply list_elem_of_bind. exists pr. split; [|done]. apply list_elem_of_bind. exists ui. split; [|done].
  by apply list_elem_of_singleton.
Qed.

(** ** The theorem *)

(** The next weight of a vector. *)
#[local] Ltac step := cbn [fmap option_fmap option_map mbind option_bind].

Lemma cvss_pr_weights v scope_changed : cvss_pr v scope_changed = weight <$> one_of (spec_pr scope_changed) v.
Proof. apply one_of_weights. by destruct scope_changed. Qed.

Lemma cvss_av_weights v : cvss_av v = weight <$> one_of spec_av v.
Proof. by apply one_of_weights. Qed.
Lemma cvss_ac_weights v : cvss_ac v = weight <$> one_of spec_ac v.
Proof. by apply one_of_weights. Qed.
Lemma cvss_ui_weights v : cvss_ui v = weight <$> one_of spec_ui v.
Proof. by apply one_of_weights. Qed.
Lemma cvss_cia_weights v : cvss_cia v = weight <$> one_of spec_cia v.
Proof. by apply one_of_weights. Qed.

(** C22: For every string, the CVSS 3 base score computed in floating point is the
    one the formulas of the specification give in exact arithmetic, rounded up to a
    tenth; a string that is not a base vector of version 3 has none. *)
Theorem cvss_is_exact vector : cvss_base_score vector = exact_score vector.
Proof.
  unfold cvss_base_score, exact_score, vector_weights. destruct (negb _); [done|]. cbn zeta.
  set (m := vector_parts vector). set (scope_changed := String.eqb _ _).
  rewrite cvss_av_weights, cvss_ac_weights, cvss_pr_weights, cvss_ui_weights, !cvss_cia_weights.
  destruct (one_of spec_av _) as [av|] eqn:Hav; step; [|done].
  destruct (one_of spec_ac _) as [ac|] eqn:Hac; step; [|done].
  destruct (one_of (spec_pr _) _) as [pr|] eqn:Hpr; step; [|done].
  destruct (one_of spec_ui _) as [ui|] eqn:Hui; step; [|done].
  destruct (one_of spec_cia (part m "C")) as [c|] eqn:Hc; step; [|done].
  destruct (one_of spec_cia (part m "I")) as [i|] eqn:Hi; step; [|done].
  destruct (one_of spec_cia (part m "A")) as [a|] eqn:Ha; step; [|done].
  f_equal. apply one_of_elem in Hav, Hac, Hpr, Hui, Hc, Hi, Ha.
  exact (score_matches_exact _ _ _ (all_match_elem _ _ _ all_match_true
    (impacts_elem scope_changed c i a Hc Hi Ha) (expls_elem scope_changed av ac pr ui Hav Hac Hpr Hui))).
Qed.

Example known_scores :
  (fun v => f64_fixed 1 <$> cvss_base_score v) <$>
    ["CVSS:3.1/AV:N/AC:L/PR:N/UI:N/S:U/C:H/I:H/A:H"; "CVSS:3.1/AV:N/AC:L/PR:N/UI:N/S:U/C:N/I:N/A:L";
     "CVSS:3.1/AV:N/AC:L/PR:N/UI:N/S:C/C:H/I:H/A:H"; "CVSS:2.0/AV:N"; "CVSS:3.1/AV:N/AC:L"] =
  [Some "9.8"; Some "5.3"; Some "10.0"; None; None].
Proof. vm_compute. done. Qed.
