(* ===== verification/Advisories.v ===== *)
(** * The finding of a scan (forklift: vuln.rs, vuln/osv.rs, repo/vulnscan.rs)

    What a scan of a coordinate makes of the advisories the OSV service answers: the
    severity of each, the worst of them, the counts, and the row that the gates of
    [Gates] read. *)

From Corelib Require Import SpecFloat.
From stdpp Require Import prelude list strings gmap.
From Stdlib Require Import ZArith Lia Ascii.
From S2P Require Import Prelude.
From S2P Require Import Strings.
From S2P Require Import F64.
From S2P Require Import RepoConfig.
From S2P Require Import Gates.
From S2P Require Import GateFacts.
From S2P Require Import Cvss.

(** ** Numbers as text *)

(** The digits at the front, and the rest. *)
Fixpoint leading_digits (s : string) : string * string :=
  match s with
  | String c r => if is_ascii_digit c then let '(d, rest) := leading_digits r in (String c d, rest) else (EmptyString, s)
  | EmptyString => (EmptyString, EmptyString)
  end.

(** An optional sign: whether it is a minus, and the rest. *)
Definition take_sign (s : string) : bool * string :=
  match s with
  | String "-" r => (true, r)
  | String "+" r => (false, r)
  | _ => (false, s)
  end.

(** The exponent: nothing, or [e] with an integer. *)
Definition parse_exponent (s : string) : option Z :=
  match s with
  | EmptyString => Some 0
  | String c r =>
      if Ascii.eqb (to_ascii_lowercase c) "e" then
        let '(negative, digits) := take_sign r in
        if str_is_empty digits then None
        else n ← parse_digits 0 digits; Some (if negative then - n else n)
      else None
  end.

(** The nearest to [m * 10 ^ e]. *)
Definition f64_scaled (m e : Z) : f64 := if 0 <=? e then f64_of_Z (m * 10 ^ e) else f64_decimal m (- e).

(** [str::parse::<f64>]. *)
Definition parse_float (s : string) : option f64 :=
  let '(negative, s) := take_sign s in
  let word := str_map to_ascii_lowercase s in
  let magnitude :=
    if String.eqb word "inf" || String.eqb word "infinity" then Some (S754_infinity false)
    else if String.eqb word "nan" then Some S754_nan
    else
      let '(whole, rest) := leading_digits s in
      let '(frac, rest) := match rest with String "." r => leading_digits r | _ => (EmptyString, rest) end in
      if str_is_empty (whole +:+ frac) then None
      else
        m ← parse_digits 0 (whole +:+ frac);
        e ← parse_exponent rest;
        Some (f64_scaled m (e - Z.of_nat (String.length frac))) in
  x ← magnitude; Some (if negative then f64_neg x else x).

(** ** Advisories *)

Record OsvSeverity := mkOsvSeverity { sev_type : string; sev_score : string }.

Record OsvVuln := mkOsvVuln {
  vuln_id : string;
  aliases : list string;
  withdrawn : string;
  severity : list OsvSeverity;
  db_severity : string;
}.

Record Advisory := mkAdvisory { adv_id : string; adv_severity : string; adv_score : string }.

(** The counts by severity, and those seen so far. *)
Record Finding := mkFinding {
  ids : list string;
  advisories : list Advisory;
  max_sev : Severity;
  counts : list Z;
}.

Definition empty_finding : Finding := mkFinding [] [] SeverityNone [0; 0; 0; 0; 0].

Definition bucket_cvss (score : f64) : Severity :=
  if f64_le (f64_of_Z 9) score then SeverityCritical
  else if f64_le (f64_of_Z 7) score then SeverityHigh
  else if f64_le (f64_of_Z 4) score then SeverityMedium
  else if f64_lt (f64_of_Z 0) score then SeverityLow
  else SeverityNone.

Section Scans.
(** [str::to_uppercase], by the tables of Unicode. *)
Context (to_uppercase : string -> string).

Definition severity_of (v : OsvVuln) : Severity :=
  let label := to_uppercase (db_severity v) in
  if String.eqb label "CRITICAL" then SeverityCritical
  else if String.eqb label "HIGH" then SeverityHigh
  else if String.eqb label "MODERATE" || String.eqb label "MEDIUM" then SeverityMedium
  else if String.eqb label "LOW" then SeverityLow
  else match find_map (fun s => parse_float (sev_score s)) (severity v) with
  | Some score => bucket_cvss score
  | None => if starts_with "MAL-" (vuln_id v) then SeverityCritical else SeverityHigh
  end.

(** [cvss_of]: the score and the vector. *)
Fixpoint cvss_of_loop (severities : list OsvSeverity) (vector : string) : option f64 * string :=
  match severities with
  | [] => (None, vector)
  | s :: severities =>
      let raw := trim (sev_score s) in
      match cvss_base_score raw with
      | Some score => (Some score, raw)
      | None =>
          match parse_float raw with
          | Some n => (Some n, vector)
          | None => cvss_of_loop severities (if str_is_empty vector && starts_with "CVSS:" raw then raw else vector)
          end
      end
  end.
Definition cvss_of (v : OsvVuln) : option f64 * string := cvss_of_loop (severity v) EmptyString.

Definition score_of (v : OsvVuln) : string :=
  default EmptyString (find_map (fun s =>
    let raw := trim (sev_score s) in
    if str_is_empty raw then None
    else match cvss_base_score raw with
    | Some score => Some (f64_fixed 1 score)
    | None => if is_some (parse_float raw) then Some raw else None
    end) (severity v)).

(** The name an advisory is known by: a CVE alias where it has one. *)
Definition known_as (v : OsvVuln) : string := default (vuln_id v) (List.find (starts_with "CVE-") (aliases v)).

Definition add_count (sev : Severity) (cs : list Z) : list Z := alter Z.succ (Z.to_nat (severity_rank sev)) cs.

(** One advisory of the answer: retracted ones and those of a name already seen are
    left out. *)
Definition add_advisory (f : Finding) (v : OsvVuln) : Finding :=
  if negb (str_is_empty (withdrawn v)) then f
  else
    let id := known_as v in
    if str_is_empty id || listed id (ids f) then f
    else
      let sev := severity_of v in
      mkFinding (ids f ++ [id]) (advisories f ++ [mkAdvisory id (severity_str sev) (score_of v)])
        (if severity_rank (max_sev f) <? severity_rank sev then sev else max_sev f)
        (if 0 <? severity_rank sev then add_count sev (counts f) else counts f).

(** [query], of the decoded answer of the service. *)
Definition query_finding (pkg : string) (vulns : list OsvVuln) : Finding :=
  if str_is_empty pkg then empty_finding else foldl add_advisory empty_finding vulns.

(** [run_scan]: the row of the coordinate, unless the service or the store fails. *)
Definition run_scan (env : GateEnv) (answer : option (list OsvVuln)) (store_fails : bool) (job : Job) : M unit :=
  if negb (has_scanner env) then ret tt
  else
    let '(eco, pkg, version) := job in
    match (if str_is_empty pkg then Some [] else answer) with
    | None => ret tt
    | Some vulns =>
        let f := query_finding pkg vulns in
        if store_fails then ret tt
        else
          let* t := get_tables in
          put_tables (mkTables (approvals t) (version_denies t)
            (<[(eco, pkg, version) := mkVulnScan (severity_str (max_sev f)) (ids f)]> (vuln_scans t)) (license_scans t))
    end.

End Scans.

(** ** What a finding says *)

(** The advisories that count: not retracted, named, the first of each name. *)
Fixpoint kept_vulns (vulns : list OsvVuln) (seen : list string) : list OsvVuln :=
  match vulns with
  | [] => []
  | v :: vulns =>
      if negb (str_is_empty (withdrawn v)) || str_is_empty (known_as v) || listed (known_as v) seen then kept_vulns vulns seen
      else v :: kept_vulns vulns (seen ++ [known_as v])
  end.

Lemma severity_rank_inj s t : severity_rank s = severity_rank t -> s = t.
Proof. by destruct s, t. Qed.

Section Findings.
Context (to_uppercase : string -> string).

Abbreviation sev := (severity_of to_uppercase).

(** The number of advisories of a severity. *)
Definition tally (s : Severity) (vs : list OsvVuln) : Z :=
  zlen (List.filter (fun v => severity_rank (sev v) =? severity_rank s) vs).

(** The counts of all severities but the least. *)
Definition counted (s : Severity) (f : Finding) : Z := default 0 (counts f !! Z.to_nat (severity_rank s)).

Lemma count_added s t cs :
  length cs = 5%nat ->
  default 0 (add_count s cs !! Z.to_nat (severity_rank t)) =
  default 0 (cs !! Z.to_nat (severity_rank t)) + if severity_rank s =? severity_rank t then 1 else 0.
Proof.
  intros Hl. do 5 (destruct cs as [|? cs]; [done|]). destruct cs; [|done]. unfold add_count.
  destruct s, t; cbv -[Z.add Z.succ]; lia.
Qed.

Lemma tally_cons s v vs : tally s (v :: vs) = (if severity_rank (sev v) =? severity_rank s then 1 else 0) + tally s vs.
Proof. unfold tally, zlen. cbn [List.filter]. destruct (_ =? _); cbn [length]; lia. Qed.

Lemma counted_added v f s ids' advs m :
  length (counts f) = 5%nat -> s <> SeverityNone ->
  counted s (mkFinding ids' advs m (if 0 <? severity_rank (sev v) then add_count (sev v) (counts f) else counts f)) =
  counted s f + if severity_rank (sev v) =? severity_rank s then 1 else 0.
Proof.
  intros Hl Hs. unfold counted. cbn [counts]. destruct (Z.ltb_spec 0 (severity_rank (sev v))) as [Hpos|Hnone].
  - by rewrite count_added.
  - destruct (Z.eqb_spec (severity_rank (sev v)) (severity_rank s)) as [He|]; [|lia]. rewrite He in Hnone. by destruct s.
Qed.

Lemma finding_loop vulns f :
  length (counts f) = 5%nat ->
  let kept := kept_vulns vulns (ids f) in
  let f' := foldl (add_advisory to_uppercase) f vulns in
  length (counts f') = 5%nat /\
  ids f' = ids f ++ (known_as <$> kept) /\
  (adv_id <$> advisories f') = (adv_id <$> advisories f) ++ (known_as <$> kept) /\
  max_sev f' = foldl worse (max_sev f) (sev <$> kept) /\
  (forall s, s <> SeverityNone -> counted s f' = counted s f + tally s kept).
Proof.
  revert f. induction vulns as [|v vulns IH]; intros f Hl; cbn zeta.
  { cbn [foldl kept_vulns fmap list_fmap]. rewrite !app_nil_r. split_and!; try done. intros s _. change (tally s []) with 0. lia. }
  cbn [foldl kept_vulns]. unfold add_advisory at 2 4 6 8 10.
  destruct (negb (str_is_empty (withdrawn v))); cbn [orb]; [by apply IH|].
  destruct (str_is_empty (known_as v)); cbn [orb]; [by apply IH|].
  destruct (listed (known_as v) (ids f)); [by apply IH|].
  set (f1 := mkFinding _ _ _ _).
  assert (Hl1 : length (counts f1) = 5%nat) by (unfold f1; cbn; case_match; [unfold add_count; by rewrite length_alter|done]).
  destruct (IH f1 Hl1) as (H1 & H2 & H3 & H4 & H5). cbn zeta in *.
  change (ids f1) with (ids f ++ [known_as v]) in *.
  split_and!; [done|..].
  - rewrite H2. rewrite <- app_assoc. done.
  - rewrite H3. unfold f1. cbn [advisories]. rewrite fmap_app. cbn. by rewrite <- app_assoc.
  - rewrite H4. done.
  - intros s Hs. rewrite H5 by done. rewrite tally_cons. unfold f1. rewrite (counted_added v f s) by done. lia.
Qed.

Lemma kept_nodup vulns seen : NoDup seen -> NoDup (seen ++ (known_as <$> kept_vulns vulns seen)).
Proof.
  revert seen. induction vulns as [|v vulns IH]; intros seen Hs; cbn; [by rewrite app_nil_r|].
  destruct (_ || listed (known_as v) seen) eqn:Hb; [by apply IH|].
  apply orb_false_iff in Hb as [_ Hl]. specialize (IH (seen ++ [known_as v])). cbn. rewrite <- app_assoc in IH. apply IH.
  apply NoDup_app. split; [done|]. split; [|by apply NoDup_singleton]. intros x Hx ->%list_elem_of_singleton.
  enough (listed (known_as v) seen = true) by congruence. unfold listed. apply existsb_exists. exists (known_as v).
  split; [by apply list_elem_of_In|apply String.eqb_refl].
Qed.

End Findings.

(** ** What the gate makes of it *)

(** Advisory [v] counts in an answer: it is not retracted, it has a name, and no
    advisory before it that counts has the same name. *)
Definition reported (vulns : list OsvVuln) (v : OsvVuln) : Prop :=
  exists before after, vulns = before ++ v :: after /\ withdrawn v = EmptyString /\ known_as v <> EmptyString /\
    forall u, u ∈ before -> withdrawn u = EmptyString -> known_as u <> known_as v.

Lemma reported_cons u vulns v :
  reported (u :: vulns) v <->
  (v = u /\ withdrawn u = EmptyString /\ known_as u <> EmptyString) \/
  (reported vulns v /\ (withdrawn u = EmptyString -> known_as u <> known_as v)).
Proof.
  split.
  - intros (before & after & Heq & Hw & Hk & Hfirst). destruct before as [|w before]; injection Heq as -> ->; [by left|].
    right. split; [|by apply Hfirst; left]. exists before, after. split_and!; try done. intros x Hx. apply Hfirst. by right.
  - intros [(-> & Hw & Hk)|((before & after & -> & Hw & Hk & Hfirst) & Hu)].
    + exists [], vulns. split_and!; try done. intros x Hx. by apply not_elem_of_nil in Hx.
    + exists (u :: before), after. split_and!; try done. intros x [->|Hx]%elem_of_cons; [done|by apply Hfirst].
Qed.

Lemma kept_vulns_spec vulns seen v : v ∈ kept_vulns vulns seen <-> (known_as v ∉ seen) /\ reported vulns v.
Proof.
  revert seen. induction vulns as [|u vulns IH]; intros seen.
  { cbn. split; [by intros ?%not_elem_of_nil|]. intros (_ & before & after & Heq & _). by destruct before. }
  rewrite reported_cons. cbn [kept_vulns].
  destruct (str_is_empty (withdrawn u)) eqn:Hw; cbn [negb orb].
  2:{ apply str_not_empty in Hw. rewrite IH. split; [|intros [? [(-> & ? & _)|[? _]]]; done]. intros [? ?]. split; [done|].
      right. by split. }
  apply str_is_empty_spec in Hw. destruct (str_is_empty (known_as u)) eqn:Hk; cbn [orb].
  { apply str_is_empty_spec in Hk. rewrite IH. split; [|intros [? [(-> & _ & ?)|[? _]]]; done].
    intros [? Hr]. split; [done|]. right. split; [done|]. intros _. rewrite Hk. destruct Hr as (? & ? & _ & _ & ? & _). congruence. }
  apply str_not_empty in Hk. destruct (listed (known_as u) seen) eqn:Hl.
  { apply listed_spec in Hl. rewrite IH. split; [|intros [? [(-> & _)|[? _]]]; done].
    intros [? Hr]. split; [done|]. right. split; [done|]. intros _ Heq. by rewrite Heq in Hl. }
  assert (Hn : known_as u ∉ seen) by (intros H%listed_spec; congruence).
  rewrite elem_of_cons, IH, elem_of_app, list_elem_of_singleton. split.
  - intros [->|[Hs Hr]]; [split; [done|by left]|]. split; [tauto|]. right. split; [done|]. intros _ Heq. apply Hs. by right.
  - intros [Hs [(-> & _)|[Hr Hu]]]; [by left|]. right. split; [|done]. intros [?|?]; [done|]. by apply Hu.
Qed.

Section Decisions.
Context (to_uppercase : string -> string).

(** The row a scan stores. *)
Lemma run_scan_row env vulns eco pkg version s :
  has_scanner env = true -> pkg <> EmptyString ->
  exists worst, vuln_scans (tables (run_scan to_uppercase env (Some vulns) false (eco, pkg, version) s).2) !! (eco, pkg, version) =
    Some (mkVulnScan (severity_str worst) (known_as <$> kept_vulns vulns [])) /\
    worst = foldl worse SeverityNone (severity_of to_uppercase <$> kept_vulns vulns []).
Proof.
  intros Hs Hp. unfold run_scan. rewrite Hs. cbn [negb]. apply str_not_empty in Hp. rewrite Hp.
  unfold query_finding. rewrite Hp. destruct (finding_loop to_uppercase vulns empty_finding eq_refl) as (_ & Hids & _ & Hmax & _).
  cbn [ids max_sev empty_finding app] in Hids, Hmax.
  eexists. split; [|exact Hmax]. rewrite bind_get. cbn [put_tables tables vuln_scans snd]. rewrite lookup_insert_eq. by rewrite Hids.
Qed.

(** What the gate makes of the row, in terms of the advisories that count. *)
Lemma scan_gate env gate_env req res pkg version vulns s :
  let c := vuln (cfg res) in
  let eco := osv_ecosystem (repo_format (repo res)) in
  has_scanner env = true -> has_scanner gate_env = true -> fails gate_env VulnLookup = false ->
  gated req res = true -> vuln_enabled c = true -> ~ serving_action (vuln_effective_action c) ->
  pkg <> EmptyString -> version <> EmptyString -> eco <> EmptyString ->
  (vuln_gate gate_env req res pkg version (run_scan to_uppercase env (Some vulns) false (eco, pkg, version) s).2).1 = None <->
  ~ ((exists v, reported vulns v /\ known_as v ∉ ignore c) /\
     exists v, reported vulns v /\
       severity_rank (parse_severity (effective_threshold c)) <= severity_rank (severity_of to_uppercase v)).
Proof.
  intros c eco Hs Hgs Hf Hg Hen Hact Hp Hv He. rewrite vuln_gate_spec by done. unfold vuln_blocked, has_coordinate.
  destruct (run_scan_row env vulns eco pkg version s Hs Hp) as (m & Hrow & ->). fold c eco in Hrow |- *. rewrite Hrow.
  cbn [vuln_ids max_severity]. rewrite parse_severity_str.
  assert (Hkept : forall v, v ∈ kept_vulns vulns [] <-> reported vulns v).
  { intros v. rewrite kept_vulns_spec. split; [tauto|]. intros ?. split; [apply not_elem_of_nil|done]. }
  set (sevs := severity_of to_uppercase <$> kept_vulns vulns []).
  destruct (worst_spec SeverityNone sevs) as (_ & Hle & Hin). apply not_iff_compat. split.
  - intros (_ & _ & _ & _ & _ & (id & Hid & Hno) & Hth & _). apply list_elem_of_fmap in Hid as (v & -> & Hkv).
    split; [exists v; by rewrite <- Hkept|]. destruct Hin as [Heq|Hin].
    + exists v. rewrite <- Hkept. split; [done|]. rewrite Heq in Hth. cbn [severity_rank] in Hth.
      etrans; [exact Hth|]. by destruct (severity_of to_uppercase v).
    + apply list_elem_of_fmap in Hin as (w & Heq & Hw). exists w. rewrite <- Hkept, <- Heq. done.
  - intros [(v & Hkv & Hno) (w & Hkw & Hth)]. apply Hkept in Hkv, Hkw. split_and!; try done.
    + exists (known_as v). split; [by apply list_elem_of_fmap_2|done].
    + etrans; [exact Hth|]. by apply Hle, list_elem_of_fmap_2.
Qed.
(** *** What the documents say *)

(** The ids of an advisory, whichever the scan knows it by. *)
Definition known_of (v : OsvVuln) : Known :=
  mkKnown (known_as v) (vuln_id v :: aliases v) (severity_of to_uppercase v).

(** An advisory of the answer: not retracted, and named. *)
Definition advised (vulns : list OsvVuln) (v : OsvVuln) : Prop :=
  v ∈ vulns /\ withdrawn v = EmptyString /\ known_as v <> EmptyString.

Definition accepted_by (c : VulnPolicyConfig) (v : OsvVuln) : Prop := is_accepted (ignore c) (known_of v).

(** docs/security-policies.md: not on the ignore list under any id, and at least
    of the severity of the threshold. *)
Definition triggers (c : VulnPolicyConfig) (vulns : list OsvVuln) (v : OsvVuln) : Prop :=
  advised vulns v /\ ~ accepted_by c v /\
  severity_rank (parse_severity (effective_threshold c)) <= severity_rank (severity_of to_uppercase v).

(** No two advisories that are not retracted have one name. *)
Definition distinct_names (vulns : list OsvVuln) : Prop :=
  NoDup (known_as <$> List.filter (fun v => str_is_empty (withdrawn v)) vulns).

Lemma reported_distinct vulns v : distinct_names vulns -> reported vulns v <-> advised vulns v.
Proof.
  intros Hd. split.
  - intros (before & after & -> & Hw & Hk & _). split_and!; [|done..]. apply elem_of_app. right. left.
  - intros (Hin & Hw & Hk). apply list_elem_of_split in Hin as (before & after & ->).
    exists before, after. split_and!; [done..|]. intros u Hu Huw Heq. unfold distinct_names in Hd.
    rewrite List.filter_app, fmap_app in Hd. apply NoDup_app in Hd as (_ & Hno & _).
    apply (Hno (known_as v)).
    + rewrite <- Heq. apply list_elem_of_fmap_2, list_elem_of_In, List.filter_In.
      split; [by apply list_elem_of_In|by apply str_is_empty_spec].
    + cbn [List.filter]. replace (str_is_empty (withdrawn v)) with true by (symmetry; by apply str_is_empty_spec).
      left.
Qed.

(** The list accepts an advisory under its name when it accepts it at all, and
    an advisory it does not accept is among the worst if there is one. *)
Record plainly_ignored (c : VulnPolicyConfig) (vulns : list OsvVuln) : Prop := {
  ignored_names : forall v, advised vulns v -> accepted_by c v -> known_as v ∈ ignore c;
  ignored_worst : forall v, advised vulns v -> ~ accepted_by c v ->
    exists w, advised vulns w /\ ~ accepted_by c w /\
      forall u, advised vulns u -> severity_rank (severity_of to_uppercase u) <= severity_rank (severity_of to_uppercase w);
}.

(** C15: Once the scan of a coordinate is stored, the vulnerability gate of a
    repository that blocks refuses it when an advisory of the answer triggers: one
    that is not retracted, not on the ignore list under any of its ids, and at
    least as severe as the threshold.  It refuses nothing else, as long as the
    list accepts advisories under the name of the scan and not all of the worst
    ones are accepted while others are not.  The advisories that are not
    retracted have distinct names. *)
Theorem scan_decides env gate_env req res pkg version vulns s :
  let c := vuln (cfg res) in
  let eco := osv_ecosystem (repo_format (repo res)) in
  let answer :=
    (vuln_gate gate_env req res pkg version (run_scan to_uppercase env (Some vulns) false (eco, pkg, version) s).2).1 in
  has_scanner env = true -> has_scanner gate_env = true -> fails gate_env VulnLookup = false ->
  gated req res = true -> vuln_enabled c = true -> ~ serving_action (vuln_effective_action c) ->
  pkg <> EmptyString -> version <> EmptyString -> eco <> EmptyString -> distinct_names vulns ->
  ((exists v, triggers c vulns v) -> answer <> None) /\
  (plainly_ignored c vulns -> ~ (exists v, triggers c vulns v) -> answer = None).
Proof.
  intros c eco answer Hs Hgs Hf Hg Hen Hact Hp Hv He Hd.
  assert (Hgate : answer = None <-> ~ ((exists v, reported vulns v /\ known_as v ∉ ignore c) /\
     exists v, reported vulns v /\
       severity_rank (parse_severity (effective_threshold c)) <= severity_rank (severity_of to_uppercase v)))
    by (by apply scan_gate). clearbody answer.
  assert (Hblock : (exists v, triggers c vulns v) -> answer <> None).
  { intros (v & Hin & Hacc & Hth) Hnone. apply Hgate in Hnone. apply Hnone.
    apply reported_distinct in Hin; [|done].
    split; exists v; (split; [done|]); [|done]. intros Hn. apply Hacc. exists (known_as v). split; [left|done]. }
  split; [done|]. intros [Hnames Hworst] Hno. apply Hgate.
  intros [(v & Hrep & Hnotin) (u & Hru & Hth)]. apply reported_distinct in Hrep, Hru; [|done..].
  destruct (Hworst v Hrep) as (w & Hw & Hwacc & Hmax); [intros Hacc; by apply Hnotin, Hnames|].
  apply Hno. exists w. split_and!; [done..|]. etrans; [exact Hth|by apply Hmax].
Qed.
End Decisions.

(** ** Answers of the service *)

Definition osv (id : string) (aliases : list string) (label : string) : OsvVuln := mkOsvVuln id aliases EmptyString [] label.

Definition to_ascii_uppercase (c : ascii) : ascii :=
  let n := nat_of_ascii c in if ((97 <=? n) && (n <=? 122))%nat then ascii_of_nat (n - 32) else c.
Definition ascii_upper (s : string) : string := str_map to_ascii_uppercase s.

Definition ignoring (ids : list string) (threshold : string) : Resolved :=
  mkResolved (repo demo_repo)
    (mkConfig (cache demo_config) (age_policy demo_config) (approval demo_config) 0
       (mkVulnPolicy true threshold VULN_ACTION_BLOCK ids false) (license demo_config) (policy_pipeline demo_config) [] default_upstream_auth).

Definition after_scan (vulns : list OsvVuln) : Manager :=
  (run_scan ascii_upper (demo_env 0) (Some vulns) false ("npm", "lodash", "4.17.20") (fresh_manager demo_tables)).2.

Definition gate_code (res : Resolved) (vulns : list OsvVuln) : option Z :=
  code <$> (vuln_gate (demo_env 0) demo_request res "lodash" "4.17.20" (after_scan vulns)).1.

Definition two_advisories : list OsvVuln := [osv "GHSA-1" ["CVE-2026-1"] "CRITICAL"; osv "GHSA-2" ["CVE-2026-2"] "LOW"].

(** The critical advisory is accepted and the other is low: the gate of a repository
    that blocks high severities still refuses. *)
Example ignored_still_counts : gate_code (ignoring ["CVE-2026-1"] SEVERITY_HIGH) two_advisories = Some 403.
Proof. vm_compute. done. Qed.

(** An advisory that has a CVE is not accepted by its other name. *)
Example ghsa_not_ignored : gate_code (ignoring ["GHSA-1"] SEVERITY_HIGH) [osv "GHSA-1" ["CVE-2026-1"] "CRITICAL"] = Some 403.
Proof. vm_compute. done. Qed.

(** Two databases report a flaw: the severity of the second report is lost. *)
Example second_report_dropped :
  gate_code (ignoring [] SEVERITY_HIGH) [osv "PYSEC-1" ["CVE-2026-1"] "LOW"; osv "GHSA-1" ["CVE-2026-1"] "CRITICAL"] = None.
Proof. vm_compute. done. Qed.

(** An advisory with a vector of 9.8 and no label is high, not critical. *)
Example vector_not_bucketed :
  let v := mkOsvVuln "OSV-1" [] EmptyString [mkOsvSeverity "CVSS_V3" "CVSS:3.1/AV:N/AC:L/PR:N/UI:N/S:U/C:H/I:H/A:H"] EmptyString in
  score_of v = "9.8" /\ severity_of ascii_upper v = SeverityHigh /\ gate_code (ignoring [] SEVERITY_CRITICAL) [v] = None.
Proof. vm_compute. done. Qed.

Lemma two_distinct : distinct_names two_advisories.
Proof. apply (bool_decide_unpack _). vm_compute. exact I. Qed.

(** The critical advisory is open: the request is refused. *)
Lemma scan_decides_witness :
  gate_code (ignoring [] SEVERITY_HIGH) two_advisories = Some 403 /\
  (vuln_gate (demo_env 0) demo_request (ignoring [] SEVERITY_HIGH) "lodash" "4.17.20" (after_scan two_advisories)).1 <> None.
Proof.
  split; [vm_compute; reflexivity|].
  apply (scan_decides ascii_upper (demo_env 0) (demo_env 0) demo_request (ignoring [] SEVERITY_HIGH) "lodash" "4.17.20"
    two_advisories (fresh_manager demo_tables)); try done.
  - vm_compute. intros [?|?]; done.
  - exact two_distinct.
  - exists (osv "GHSA-1" ["CVE-2026-1"] "CRITICAL"). split; [split_and!; [apply list_elem_of_here|done|done]|].
    split; [|vm_compute; discriminate]. intros (id & _ & Hin). by apply not_elem_of_nil in Hin.
Defined.
